(* ===== verification/_CoqProject ===== *)
-Q . S2P
Prelude.v
Strings.v
Identity.v
Deadline.v
Clock.v
Timer.v
Arguments.v
Parameters.v
Names.v
Qos.v
Discovery.v
Subscriptions.v
Metadata.v
Services.v
Servers.v
Clients.v
AvailabilityWait.v
ActionGoals.v
Waitables.v
Wakeup.v
WaitSet.v
WaitInvariant.v
WaitResults.v
Events.v
EventResults.v
Endpoints.v
LockRanks.v
Contexts.v
Registries.v
GraphCandidates.v
GraphSnapshot.v
ActionServers.v
ActionClients.v
Nodes.v
NodeParameters.v
Transport.v
Teardown.v
TargetWait.v
Entities.v
NativeContexts.v
NativeWaitSets.v
NativeWaitSetInvariant.v
NativeWaitSetResults.v
Diagnostics.v
Fields.v
NativeIo.v
NativeQueues.v
NativeIoInvariant.v
NativeIoMethods.v
NativeIoResults.v
DeliveryJobs.v
RequestWork.v
