(* ===== verification/Prelude.v ===== *)
(** * dmw: a verification library

    dmw (src/dmw) is a C++ middleware layer over Fast DDS: contexts, Nodes,
    publishers, subscribers, services, actions, clocks, timers, parameters,
    wait sets and a graph of what discovery has seen.  This library models the
    parts of it that compute or keep state, and proves what makes them correct.
    dclpy (src/dclpy) is a Python client library over it; its C++ layer, which
    keeps native entities alive and runs native work off the Python threads, is
    modelled as well.  dclcpp has documents only.

    ** The files

    Data and pure functions:
    - [Prelude]: error codes and [Result] (include/dmw/error.hpp, result.hpp),
      fixed-width integers, hash containers with any iteration order, vector
      searches, runs of a step function, reachability of a step relation.
    - [Strings]: byte strings as [std::string] uses them.
    - [Identity]: GIDs, request ids, goal ids, the (high, low) sequence number
      (gid.hpp, request_id.hpp, src/impl/identity.hpp).
    - [Deadline]: wait timeouts, saturating steady deadlines (wait_timeout.hpp,
      src/impl/deadline.hpp).
    - [Arguments]: the command line grammar (arguments.hpp, src/arguments.cpp).
    - [Names]: name syntax, resolution, remapping, Node identity, transport
      names and action endpoint names (src/impl/name.hpp, graph_names.hpp,
      parts of node_impl.cpp and context_impl.cpp).
    - [Qos]: QoS descriptors, their Fast DDS form, compatibility, return codes
      (qos.hpp, src/impl/qos.hpp, src/impl/return_code.hpp).

    State of one Context:
    - [Clock], [Timer]: system, steady and ROS clocks, overrides, wake targets;
      the period grid, readiness, consumption (clock_impl.hpp, clock.cpp,
      timer_impl.hpp, timer.cpp).
    - [Parameters]: values, descriptors, literals and the parameter store
      (parameter.hpp, src/impl/parameter_store.cpp).
    - [Contexts]: operations, shutdown, teardown and the factories of a Context
      (src/impl/context.hpp, context_impl.cpp).
    - [Registries]: the DDS types and topics of a Context (src/impl/topic.hpp,
      context_impl.cpp).
    - [LockRanks]: the ranks of the mutexes (src/impl/lock_rank.hpp).
    - [Nodes]: the factories of a Node, with the graph subscriptions and the
      shutdown callbacks of what they make (src/impl/node_impl.cpp,
      client_impl.hpp, response.hpp, action_impl.cpp).
    - [NodeParameters]: creation and parameter methods of a Node.

    Discovery:
    - [Discovery]: the discovery graph (src/impl/discovery_graph.hpp), and
      [Subscriptions]: the callbacks of its subscribers, interleaved.
    - [Metadata]: the ROS 2 graph metadata message, its wire form, publishing
      and ingesting snapshots (src/impl/graph_metadata).
    - [Transport]: the listeners of a Context and its metadata transport,
      interleaved with changes of the graph (graph_metadata.cpp,
      process_lifetime.hpp, parts of discovery_graph.hpp and context_impl.cpp).
    - [GraphCandidates], [GraphSnapshot]: the endpoints, actions, topics and
      services of a graph, graph queries and graph events
      (src/impl/graph_candidates.cpp, graph_impl.hpp, src/graph.cpp).

    Communication:
    - [Endpoints]: publishers, subscribers and scratch samples.
    - [Events], [EventResults]: QoS event statuses and the Events that read
      them (event_parent_state, event_impl), and what they report.
    - [Services]: match counts and availability, the callback gate, waiting
      for a response target (src/impl/request.hpp, response.hpp,
      availability_wait_state.hpp).
    - [Servers]: pending requests, alone and interleaved (src/impl/server_impl).
    - [Clients]: requests, responses and waiting for a service
      (src/impl/client_impl).
    - [AvailabilityWait], [TargetWait]: waiting for a service and for a
      response target, interleaved with the notifications.
    - [Teardown]: QoS queries and destructors of clients and servers
      (client_impl, server_impl, action_impl).
    - [ActionGoals]: the action goal registry (action_common.hpp,
      src/impl/action_goal_registry).
    - [ActionServers], [ActionClients]: the two sides of an action
      (src/impl/action_impl).

    Waiting:
    - [Waitables]: guard conditions, reader conditions, registrations
      (guard_condition_impl, reader_wait_state.hpp, wait_result.hpp).
    - [Wakeup]: the control condition of a wait set, interleaved.
    - [WaitSet]: wait sets, their registrations and waits (wait_set_impl).
    - [WaitInvariant], [WaitResults]: the invariant of the wait sets of a
      process, and what adding, closing, waiting and triggering promise.

    The C++ layer of dclpy (src/dclpy/src):
    - [Entities]: an entity behind its leases (entity.hpp, error.hpp).
    - [NativeContexts]: the entities of a Context, the threads that drop their
      last owners, and its shutdown (context.hpp).
    - [NativeWaitSets]: wait sets and the claims, pins and leases they hold
      (wait_set.hpp, wait_set.cpp, waitable.hpp); [NativeWaitSetInvariant],
      [NativeWaitSetResults]: their invariant and what follows from it.
    - [NativeIo]: the dispatcher that runs native work on its own thread
      (native_io.hpp, native_io.cpp), and [Diagnostics]: the error texts of
      its records (include/dclpy/diagnostic.hpp); [NativeQueues], [NativeIoInvariant] and
      [NativeIoMethods]: its linked queues and mailboxes, its invariant, and
      that every method keeps it; [NativeIoResults]: what it promises.
    - [Fields]: the fields of a message seen from Python
      (include/dclpy/field.hpp).
    - [DeliveryJobs]: the jobs of services and actions; [RequestWork]: the
      owner of a request over the dispatcher (service_io.hpp, action_io.hpp,
      native_io_bind.cpp).

    ** How the model reads

    A class's data members are a [Record]; a method is a function from the
    state (and its arguments) to its result and the new state.  [Result<T>] is
    [Result T], with the code's error codes and messages.  A method that runs
    under one mutex is atomic, so a history is a list of operations and its
    state is [run step ops init].  Objects that point to each other live in
    one store: the [Store] of [Waitables] has the waitables by address, the
    [World] of [WaitSet] adds the wait sets, and [Events] adds its records.

    Where the code drops its lock within a method, the critical sections are
    the steps of an [Inductive] relation, and the theorems hold in every
    reachable state ([Servers], [Wakeup], [LockRanks], [Contexts],
    [Registries], [Subscriptions], [AvailabilityWait], [TargetWait], [ActionServers],
    [Transport], [Entities], [NativeContexts], [NativeWaitSets], [NativeIo],
    [RequestWork]);
    [Registries] does this for any number of threads, each a [Token] between two sections.  Where a
    thread waits and only the outcome matters ([Services], [Clients],
    [ActionClients]) a wait is a list of what it observes each time it wakes.
    [WaitSet.wait] is a list of turns.  A result [None] of such a function
    means that the call does not return: it still waits, or it locks a mutex
    that it holds.

    A factory of [Nodes] is a transaction: it runs in a monad whose [scoped]
    is a C++ local with a destructor, so every early return gives back what it
    holds.  A [DeliveryJobs.DeliveryJob] records the calls it makes on its
    server, with their answers, and a [NativeContexts.ContextWorld] the
    entities that were created and what became of them; the code keeps no such
    history.  The histories of wait sets ([WaitInvariant]) are sequences of
    whole operations and turns, although the code takes several mutexes in each.
    Integers are [Z] with the wrap-around the code's types have; octets
    are [Z] in [0, 256); an [unordered_map] is a [gmap] whose iteration order
    is left open ([HashOrder]), a [std::map] one that is read in the order of
    its keys.

    Code outside src/ is a parameter: the Fast DDS constants and conversions
    ([Services.Handles], [Qos.FastDuration], the unknown sequence number), the
    results of its calls ([Waitables.Dds], [Nodes.Calls], arguments elsewhere),
    Fast CDR's primitives ([Metadata.CdrCodec]), the clocks' readings, the
    [long double] comparison ([Deadline.WideCompare]), the parsing of
    floating-point literals, and the calls of pybind11 that read real numbers
    and convert text ([Fields.Casts], with the documented [Fields.CastLaws]).
    Each class has an instance, so that the
    definitions evaluate.  The participants that are alive when a view of the
    graph is read are an argument, since the code reads them later than the
    view.

    ** What is proved

    - Data conversions are exact: sequence numbers, QoS, transport names and
      metadata messages go to the middleware and back
      ([Identity.sequence_roundtrip], [Qos.endpoint_qos_roundtrip],
      [Names.transport_roundtrip], [Metadata.metadata_roundtrip]).
    - Invariants over every history: of the parameter store, the goal
      registry, the discovery graph, the pending requests, the registrations
      of all wait sets, the registries of a Context
      ([ActionGoals.goal_conservation], [Discovery.revision_tracks_changes],
      [Servers.capacity_never_exceeded], [WaitInvariant.registered_once],
      [Registries.topics_have_types]); a reader whose wait set a failed detach
      has poisoned is the exception ([WaitInvariant.reader_registered_twice]).
    - Subscribers of the graph: a drained one is never called again
      ([Subscriptions.drained_is_final]), and every other one has heard of the
      latest revision ([Subscriptions.latest_is_heard]).
    - Waiting: no wake-up is lost and every sleeper is woken
      ([Wakeup.no_lost_wakeup], [Wakeup.sleeper_is_woken]); what a wait
      reports, when adding returns, that closing ends and releases
      ([WaitResults]); an availability wait blocks only while its check fails,
      and finds what there is to find ([AvailabilityWait.blocked_in_vain],
      [AvailabilityWait.wait_finds]); what a listener reports reaches the wait
      for a target ([TargetWait.reports_reach_waiter]).
    - Refinement: an endpoint's events refine a ledger of reports
      ([EventResults.events_refine_ledger]), a graph event is level triggered
      ([GraphSnapshot.graph_event_spec]), what one participant publishes of its
      graph is what another one holds for it ([Metadata.snapshot_agreement]),
      and it is current once the callbacks are through
      ([Transport.published_is_current]).
    - Graph queries: the actions, topics and services reported are those the
      endpoints compose ([GraphCandidates.action_composition_spec],
      [GraphSnapshot.snapshot_counts]).
    - Services and actions: exclusive answers, identity of a request from
      client to server and back, transactions of acceptance and of results
      ([Servers.claim_exclusive], [Clients.request_response_correlation],
      [ActionServers]).
    - Nodes: factories are transactions, also over the graph subscriptions and
      shutdown callbacks ([Nodes.factories_are_transactions]), a server that was created is found by
      its own graph, parameters behind the gate are the store's ([Nodes],
      [NodeParameters]).
    - Shutdown: after it returns nothing runs ([Contexts.shutdown_complete_safe]);
      mutexes taken in rank order never deadlock ([LockRanks.no_deadlock]).
    - Native entities: a resource outlives its leases and closing completes
      ([Entities]); the native Context is shut down when
      nobody uses any of its entities, though threads that dropped one may still
      be destroying it ([NativeContexts.shutdown_is_last]); an entity is in one wait set at most,
      nothing that a wait set uses is destroyed under it, and its methods end
      ([NativeWaitSetResults]).
    - Native work: the dispatcher's slots, linked queues and rings refine two
      queues, one running job and a list of completions per route
      ([NativeIoResults.dispatcher_refines_scheduler]); tickets retire by their
      owner only, control transactions find room, the worker does not sleep
      through work ([NativeIoResults]).  A delivery ends, and what it reports is
      what it called on its server ([DeliveryJobs]); a request that is taken is answered or discarded
      ([RequestWork.work_settles]); an error text is UTF-8 whatever the message
      ([Diagnostics.diagnostic_is_text]).
    - Fields of a message: what the getter shows the setter takes back, with
      real numbers of both formats and text in UTF-8 and UTF-16
      ([Fields.field_roundtrip]).

    Some [Example]s record where the code falls short of its intent:
    [Servers.failed_attempt_breaks_exclusivity],
    [Servers.discard_race_disables_reader], [Discovery.qos_update_ignored],
    [Discovery.rebinding_breaks_references], [TargetWait.removal_missed],
    [Parameters.first_override_wins],
    [Names.dds_topic_taken_for_service], [Nodes.remapped_part_unavailable],
    [Nodes.refused_client_stays],
    [ActionServers.snapshot_strands_requests],
    [ActionServers.failed_attempt_strands_registration]; in [WaitResults]
    [registered_reader_blocks], [close_during_add_blocks],
    [trigger_lost_in_discarded_turn], [poll_spins] and [interest_detaches]; in
    [EventResults] [update_before_clear_pending] and
    [update_before_registration]; [GraphCandidates.participant_key_cut],
    [GraphCandidates.torn_view], [GraphSnapshot.add_server_listed],
    [Transport.discovery_thread_publishes], [NativeContexts.control_lost],
    [NativeContexts.shutdown_during_destruction],
    [NativeContexts.shutdown_during_drop] and
    [WaitInvariant.reader_registered_twice].

    ** Bounds

    Loops over a vector recurse on the list.  The loops of [read_request] and
    [read_response] recurse on the unread count, which is their bound in the
    code.  [WaitSet.close_loop] has fuel for one turn more than there are
    registrations ([WaitResults.close_releases] shows that this is enough), the
    notification loop of [Events] one turn more than there are records.
    Theorems that need a counter not to wrap say so: fewer than 2^64 callbacks,
    interrupts, notifications, threads or references, histories too short to
    overflow a [size_t], room for a factory's changes in the revision of the
    graph.

    ** Not modelled

    Allocation failure and the exceptions it raises; the Fast DDS entities
    themselves and the listener adaptors that forward to the modelled methods; the creation of
    the DDS participant but for its outcomes; the adaptors over a message
    type's support, which forward to generated code; Python objects and what
    keeps them alive (type_support.cpp, the pybind11 registrations), the Python
    library. *)

From Stdlib Require Export ZArith Lia.
From Stdlib Require Import Ascii String.
From stdpp Require Export base option list gmap numbers sorting strings.

Declare Scope dmw_scope.
Delimit Scope dmw_scope with dmw.

(** ** Error codes and results (include/dmw/error.hpp, include/dmw/result.hpp) *)

Inductive ErrorCode :=
  | InvalidArgument | InvalidState | InvalidName | TypeMismatch | AlreadyExists
  | NotFound | AlreadyRegistered | NotRegistered | Busy | Timeout | Unsupported
  | IncompatibleQos | ParentDestroyed | ResourceExhausted | DDSError
  | ContextShutdown | Interrupted | ProtocolFault.

#[export] Instance ErrorCode_eq_dec : EqDecision ErrorCode.
Proof. solve_decision. Defined.

Record Error := MkError { error_code : ErrorCode; error_message : string }.

#[export] Instance Error_eq_dec : EqDecision Error.
Proof. solve_decision. Defined.

(** [Result T] holds a value or an [Error]; [Result<void>] is [Result unit]. *)
Inductive Result (T : Type) :=
  | success (value : T)
  | failure (error : Error).
Arguments success {T} value.
Arguments failure {T} error.

#[export] Instance Result_eq_dec {T} `{EqDecision T} : EqDecision (Result T).
Proof. solve_decision. Defined.

Definition has_value {T} (r : Result T) : bool :=
  match r with success _ => true | failure _ => false end.

(** [value()] and [error()] call [std::terminate] on the wrong alternative. *)
Definition result_value {T} (r : Result T) : option T :=
  match r with success v => Some v | failure _ => None end.

Definition result_error {T} (r : Result T) : option Error :=
  match r with success _ => None | failure e => Some e end.

Definition fail {T} (c : ErrorCode) (m : string) : Result T := failure (MkError c m).

(** [let? x := r in k] is the source's
    [auto x = r; if (!x) return failure(move(x.error())); ...]. *)
Notation "'let?' x := r 'in' k" :=
  (match r with success x => k | failure e => failure e end)
  (at level 10, x pattern, r at level 200, k at level 200).

Definition code_of {T} (r : Result T) : option ErrorCode := error_code <$> result_error r.

(** ** Machine integers *)

Definition INT64_MAX : Z := 9223372036854775807.
Definition INT64_MIN : Z := -9223372036854775808.
Definition UINT64_MAX : Z := 18446744073709551615.
Definition INT32_MAX : Z := 2147483647.
Definition INT32_MIN : Z := -2147483648.
Definition UINT32_MAX : Z := 4294967295.

Definition in_i64 (x : Z) : Prop := (INT64_MIN <= x <= INT64_MAX)%Z.
Definition in_u64 (x : Z) : Prop := (0 <= x <= UINT64_MAX)%Z.
Definition in_i32 (x : Z) : Prop := (INT32_MIN <= x <= INT32_MAX)%Z.
Definition in_u32 (x : Z) : Prop := (0 <= x <= UINT32_MAX)%Z.

(** Wrap-around of unsigned arithmetic and of conversions to a fixed width. *)
Definition wrap_u64 (x : Z) : Z := (x mod 18446744073709551616)%Z.
Definition wrap_u32 (x : Z) : Z := (x mod 4294967296)%Z.
Definition wrap_i64 (x : Z) : Z :=
  let u := wrap_u64 x in
  if (u <=? INT64_MAX)%Z then u else (u - 18446744073709551616)%Z.
Definition wrap_i32 (x : Z) : Z :=
  let u := wrap_u32 x in
  if (u <=? INT32_MAX)%Z then u else (u - 4294967296)%Z.

Ltac unfold_ints :=
  unfold in_i64, in_u64, in_i32, in_u32, wrap_i64, wrap_i32, wrap_u64, wrap_u32,
    INT64_MAX, INT64_MIN, UINT64_MAX, INT32_MAX, INT32_MIN, UINT32_MAX in *.

(** Case analysis on every integer comparison of the goal or the context. *)
Ltac case_cmp :=
  repeat match goal with
  | |- context [(?a <? ?b)%Z] => destruct (Z.ltb_spec a b)
  | |- context [(?a <=? ?b)%Z] => destruct (Z.leb_spec a b)
  | |- context [(?a =? ?b)%Z] => destruct (Z.eqb_spec a b)
  | |- context [(?a >? ?b)%Z] => rewrite (Z.gtb_ltb a b)
  | |- context [(?a >=? ?b)%Z] => rewrite (Z.geb_leb a b)
  | H : context [(?a <? ?b)%Z] |- _ => destruct (Z.ltb_spec a b)
  | H : context [(?a <=? ?b)%Z] |- _ => destruct (Z.leb_spec a b)
  | H : context [(?a =? ?b)%Z] |- _ => destruct (Z.eqb_spec a b)
  end.

Lemma wrap_u64_range x : in_u64 (wrap_u64 x).
Proof. unfold_ints. pose proof (Z.mod_pos_bound x 18446744073709551616). lia. Qed.

Lemma wrap_u32_range x : in_u32 (wrap_u32 x).
Proof. unfold_ints. pose proof (Z.mod_pos_bound x 4294967296). lia. Qed.

Lemma wrap_u64_small x : in_u64 x -> wrap_u64 x = x.
Proof. unfold_ints. intros. apply Z.mod_small. lia. Qed.

Lemma wrap_i64_small x : in_i64 x -> wrap_i64 x = x.
Proof.
  unfold_ints. intros. destruct (Z.leb_spec 0 x).
  - rewrite Z.mod_small by lia. case_cmp; lia.
  - rewrite <- (Z.mod_add x 1) by lia. rewrite Z.mod_small by lia. case_cmp; lia.
Qed.

Lemma wrap_i32_small x : in_i32 x -> wrap_i32 x = x.
Proof.
  unfold_ints. intros. destruct (Z.leb_spec 0 x).
  - rewrite Z.mod_small by lia. case_cmp; lia.
  - rewrite <- (Z.mod_add x 1) by lia. rewrite Z.mod_small by lia. case_cmp; lia.
Qed.

(** ** Hash containers

    [std::unordered_map] fixes no iteration order.  Code that iterates one is
    modelled for every order: a class gives the order, and its law says that
    it lists exactly the entries of the map. *)
Class HashOrder (K : Type) `{Countable K} (V : Type) := {
  hash_order : gmap K V -> list (K * V);
  hash_order_perm : forall m, hash_order m ≡ₚ map_to_list m
}.

(** One concrete order, so that the definitions can be evaluated. *)
#[export] Instance map_to_list_order K `{Countable K} V : HashOrder K V | 100 :=
  {| hash_order := map_to_list; hash_order_perm := fun m => reflexivity _ |}.

Section HashOrderFacts.
Context {K V : Type} `{Countable K} `{!HashOrder K V}.

Lemma elem_of_hash_order (m : gmap K V) k v : (k, v) ∈ hash_order m <-> m !! k = Some v.
Proof. rewrite (hash_order_perm m). apply elem_of_map_to_list. Qed.

Lemma NoDup_hash_order (m : gmap K V) : NoDup (hash_order m).*1.
Proof. rewrite (hash_order_perm m). apply NoDup_fst_map_to_list. Qed.

Lemma hash_order_length (m : gmap K V) : length (hash_order m) = size m.
Proof. rewrite (hash_order_perm m). apply length_map_to_list. Qed.

Lemma list_to_map_hash_order (m : gmap K V) : list_to_map (hash_order m) = m.
Proof.
  rewrite <- (list_to_map_to_list m) at 2.
  apply list_to_map_proper; [apply NoDup_hash_order | apply hash_order_perm].
Qed.
End HashOrderFacts.

(** ** Sums over a map *)

Section MapSum.
Context {K V : Type} `{Countable K} (f : V -> nat).

Definition map_sum (m : gmap K V) : nat := map_fold (fun _ v acc => f v + acc)%nat 0%nat m.

Lemma map_sum_empty : map_sum ∅ = 0%nat.
Proof. apply map_fold_empty. Qed.

Lemma map_sum_new m i x : m !! i = None -> map_sum (<[i := x]> m) = (f x + map_sum m)%nat.
Proof. intros Hi. unfold map_sum. rewrite map_fold_insert_L; [done | intros; lia | done]. Qed.

Lemma map_sum_update m i x y :
  m !! i = Some x -> (map_sum (<[i := y]> m) + f x = map_sum m + f y)%nat.
Proof.
  intros Hi. rewrite <- (insert_delete_id m i x Hi) at 2. rewrite <- insert_delete_eq.
  rewrite !map_sum_new by apply lookup_delete_eq. lia.
Qed.

Lemma map_sum_elem m i x : m !! i = Some x -> (f x <= map_sum m)%nat.
Proof.
  intros Hi. rewrite <- (insert_delete_id m i x Hi).
  rewrite map_sum_new by apply lookup_delete_eq. lia.
Qed.

Lemma map_sum_bound c m : (forall i x, m !! i = Some x -> f x <= c)%nat -> (map_sum m <= c * size m)%nat.
Proof.
  induction m as [|i x m Hi IH] using map_ind; intros Hc.
  - rewrite map_sum_empty. lia.
  - rewrite map_sum_new by done. rewrite map_size_insert_None by done.
    pose proof (Hc i x ltac:(apply lookup_insert_eq)).
    assert (map_sum m <= c * size m)%nat; [|lia].
    apply IH. intros j y Hj. apply (Hc j y). rewrite lookup_insert_ne; congruence.
Qed.
End MapSum.

(** ** [std::vector] searches: [find_if], in-place update, [erase] *)

Section FindIf.
Context {A : Type} (p : A -> bool).

Fixpoint find_if (l : list A) : option A :=
  match l with
  | [] => None
  | x :: l => if p x then Some x else find_if l
  end.

(** Replace the first match by [f] of it. *)
Fixpoint update_first (f : A -> A) (l : list A) : list A :=
  match l with
  | [] => []
  | x :: l => if p x then f x :: l else x :: update_first f l
  end.

(** [erase(find_if(...))]. *)
Fixpoint erase_first (l : list A) : list A :=
  match l with
  | [] => []
  | x :: l => if p x then l else x :: erase_first l
  end.

Lemma find_if_Some l x : find_if l = Some x -> x ∈ l /\ p x = true.
Proof.
  induction l as [|y l IH]; simpl; [done|].
  destruct (p y) eqn:Hy; intros Heq.
  - injection Heq as ->. split; [left | done].
  - destruct (IH Heq). split; [by right | done].
Qed.

Lemma find_if_None l : find_if l = None <-> forall x, x ∈ l -> p x = false.
Proof.
  induction l as [|y l IH]; simpl.
  - split; [intros _ x Hx; by apply not_elem_of_nil in Hx | done].
  - destruct (p y) eqn:Hy; split.
    + done.
    + intros Hall. rewrite (Hall y) in Hy; [done | left].
    + intros Hn x [->|Hx]%elem_of_cons; [done | by apply IH].
    + intros Hall. apply IH. intros x Hx. apply Hall. by right.
Qed.

Lemma update_first_length f l : length (update_first f l) = length l.
Proof. induction l; simpl; [done|]. destruct (p a); simpl; congruence. Qed.

Lemma update_first_None f l : find_if l = None -> update_first f l = l.
Proof. induction l; simpl; [done|]. destruct (p a); [done|]. intros; f_equal; auto. Qed.

Lemma erase_first_None l : find_if l = None -> erase_first l = l.
Proof. induction l; simpl; [done|]. destruct (p a); [done|]. intros; f_equal; auto. Qed.

Lemma elem_of_erase_first l x : x ∈ erase_first l -> x ∈ l.
Proof.
  induction l as [|y l IH]; simpl; [done|].
  destruct (p y); [by right|]. intros [->|Hx]%elem_of_cons; [left | right; auto].
Qed.

(** The list around its first match. *)
Lemma find_if_split l x :
  find_if l = Some x ->
  exists l1 l2, l = l1 ++ x :: l2 /\ (forall y, y ∈ l1 -> p y = false) /\ p x = true /\
    (forall f, update_first f l = l1 ++ f x :: l2) /\ erase_first l = l1 ++ l2.
Proof.
  induction l as [|y l IH]; simpl; [done|].
  destruct (p y) eqn:Hy; intros Heq.
  - injection Heq as ->. exists [], l. split_and!; try done.
    intros z Hz. by apply not_elem_of_nil in Hz.
  - destruct (IH Heq) as (l1 & l2 & -> & Hl1 & Hx & Hu & He).
    exists (y :: l1), l2. split_and!; try done.
    + by intros z [->|Hz]%elem_of_cons; auto.
    + intros f. simpl. by rewrite Hu.
    + simpl. by rewrite He.
Qed.

Lemma find_if_app l1 l2 :
  find_if (l1 ++ l2) = match find_if l1 with Some x => Some x | None => find_if l2 end.
Proof. induction l1; simpl; [done|]. by destruct (p a). Qed.
End FindIf.

Lemma find_if_ext {A} (p q : A -> bool) l :
  (forall x, x ∈ l -> p x = q x) -> find_if p l = find_if q l.
Proof.
  induction l as [|y l IH]; simpl; intros Hext; [done|].
  rewrite (Hext y) by left. destruct (q y); [done|]. apply IH. intros; apply Hext; by right.
Qed.

Lemma list_filter_ext {A} (P Q : A -> Prop) `{!forall x, Decision (P x), !forall x, Decision (Q x)} (l : list A) :
  (forall x, x ∈ l -> P x <-> Q x) -> filter P l = filter Q l.
Proof.
  induction l as [|x l IH]; intros Hext; [done|]. rewrite !filter_cons.
  rewrite IH by (intros; apply Hext; by right).
  specialize (Hext x ltac:(left)). repeat case_decide; tauto || done.
Qed.

(** ** A list around one of its elements *)

Lemma elem_of_middle {A} (x y : A) l1 l2 : x ∈ l1 ++ y :: l2 <-> x = y \/ x ∈ l1 ++ l2.
Proof. rewrite <- Permutation_middle. apply elem_of_cons. Qed.

Lemma NoDup_middle {A} (l1 l2 : list A) x : NoDup (l1 ++ x :: l2) -> x ∉ l1 ++ l2 /\ NoDup (l1 ++ l2).
Proof. rewrite <- Permutation_middle. apply NoDup_cons. Qed.

(** ** Counting *)

Section Counting.
Context {A : Type} (p : A -> bool).

Definition count_if (l : list A) : nat := length (filter (fun x => p x = true) l).

Lemma count_if_app l1 l2 : count_if (l1 ++ l2) = count_if l1 + count_if l2.
Proof. unfold count_if. by rewrite filter_app, length_app. Qed.

Lemma count_if_cons x l : count_if (x :: l) = (if p x then 1 else 0) + count_if l.
Proof. unfold count_if. rewrite filter_cons. case_decide as H; destruct (p x); simpl; congruence || done. Qed.

Lemma count_if_insert l i x y :
  l !! i = Some x -> count_if (<[i := y]> l) + (if p x then 1 else 0) = count_if l + (if p y then 1 else 0).
Proof.
  revert i. induction l as [|z l IH]; intros [|i]; simpl; [done..| |].
  - intros [= ->]. rewrite !count_if_cons. lia.
  - intros H. rewrite !count_if_cons. specialize (IH i H). lia.
Qed.

Lemma count_if_pos l i x : l !! i = Some x -> p x = true -> 0 < count_if l.
Proof. intros Hi Hp. pose proof (count_if_insert l i x x Hi) as H. rewrite Hp in H.
  assert (x ∈ filter (fun x => p x = true) l) as Hin by (apply list_elem_of_filter; split; [done | by eapply list_elem_of_lookup_2]).
  unfold count_if. destruct (filter _ l); [by apply elem_of_nil in Hin | simpl; lia].
Qed.

Lemma count_if_le l : count_if l <= length l.
Proof. apply length_filter. Qed.
End Counting.

Lemma count_if_ext {A} (p q : A -> bool) l : (forall x, x ∈ l -> p x = q x) -> count_if p l = count_if q l.
Proof. intros H. unfold count_if. f_equal. apply list_filter_ext. intros x Hx. by rewrite (H x Hx). Qed.

Lemma count_if_zero {A} (p : A -> bool) l i x : count_if p l = 0 -> l !! i = Some x -> p x = false.
Proof. intros H Hi. destruct (p x) eqn:Hp; [|done]. pose proof (count_if_pos p l i x Hi Hp). lia. Qed.

Lemma count_if_none {A} (p : A -> bool) l : (forall x, x ∈ l -> p x = false) -> count_if p l = 0.
Proof.
  induction l as [|x l IH]; intros H; [done|]. rewrite count_if_cons, (H x) by left. simpl. apply IH. intros y Hy. apply H. by right.
Qed.

Lemma count_if_split {A} (p q : A -> bool) l : count_if p l = count_if (fun y => p y && q y) l + count_if (fun y => p y && negb (q y)) l.
Proof. induction l as [|y l IH]; [done|]. rewrite !count_if_cons, IH. destruct (p y), (q y); simpl; lia. Qed.

Lemma count_if_all {A} (p : A -> bool) l : (forall y, y ∈ l -> p y = true) -> count_if p l = length l.
Proof.
  induction l as [|y l IH]; intros H; [done|]. rewrite count_if_cons, (H y) by left. simpl. f_equal. apply IH. intros z Hz. apply H. by right.
Qed.

(** ** Reachability along an executable step *)

Section Runs.
Context {S Op : Type} (step : Op -> S -> S).

Definition run (ops : list Op) (s : S) : S := fold_left (fun s o => step o s) ops s.

Lemma run_app ops1 ops2 s : run (ops1 ++ ops2) s = run ops2 (run ops1 s).
Proof. apply fold_left_app. Qed.

Lemma run_invariant (P : S -> Prop) :
  (forall o s, P s -> P (step o s)) -> forall ops s, P s -> P (run ops s).
Proof. intros Hstep ops. induction ops; simpl; auto. Qed.

(** A relation between the states of two points of a run. *)
Lemma run_monotone (R : S -> S -> Prop) :
  (forall s, R s s) -> (forall a b c, R a b -> R b c -> R a c) ->
  (forall o s, R s (step o s)) -> forall ops s, R s (run ops s).
Proof.
  intros Hrefl Htrans Hstep ops. induction ops; simpl; eauto.
Qed.
End Runs.

(** Reachability of a step relation. *)
Inductive reachable {S : Type} (init : S -> Prop) (step : S -> S -> Prop) : S -> Prop :=
  | reach_init s : init s -> reachable init step s
  | reach_step s s' : reachable init step s -> step s s' -> reachable init step s'.

Lemma reachable_invariant {S} (init : S -> Prop) (step : S -> S -> Prop) (P : S -> Prop) :
  (forall s, init s -> P s) ->
  (forall s s', P s -> step s s' -> P s') ->
  forall s, reachable init step s -> P s.
Proof. induction 3; eauto. Qed.

(** ** Automation *)

Create HintDb dmw.
#[export] Hint Resolve wrap_u64_range wrap_u32_range : dmw.
Create Rewrite HintDb dmw.
#[export] Hint Rewrite @lookup_insert_eq @lookup_delete_eq @lookup_empty : dmw.

(** Split on the scrutinee of every [match] or [if] of the goal. *)
Ltac case_match_goal :=
  repeat match goal with
  | |- context [match ?x with _ => _ end] => destruct x eqn:?; simplify_eq/=
  end.

Ltac case_match_hyps :=
  repeat match goal with
  | H : context [match ?x with _ => _ end] |- _ => destruct x eqn:?; simplify_eq/=
  end.

(** Extend a reachable state by one step. *)
Ltac extend_with H tac :=
  let H' := fresh in
  eassert (reachable _ _ _) as H' by (eapply reach_step; [exact H | tac]); clear H; rename H' into H.
Tactic Notation "extend" hyp(H) "with" tactic3(tac) := extend_with H tac.
