(* ===== verification/Strings.v ===== *)
(** * Strings: byte strings as the C++ code uses them

    [std::string] and [std::string_view] are lists of characters; the order of
    [std::map<std::string, _>] compares unsigned bytes lexicographically.  The
    searches ([find], [substr], [compare(0, n, p)]) and their lemmas are shared
    by every component that reads names. *)

From Stdlib Require Export Ascii.
From Stdlib Require Import String.
From S2P Require Import Prelude.

Abbreviation str := (list ascii).

Definition lit (s : string) : str := list_ascii_of_string s.
Notation "$ s" := (lit s%string) (at level 1, s at level 0, format "$ s") : dmw_scope.
Local Open Scope dmw_scope.

Definition code (c : ascii) : Z := Z.of_N (N_of_ascii c).

Definition str_eqb (a b : str) : bool := bool_decide (a = b).

Arguments lit : simpl never.
Arguments str_eqb : simpl never.

Lemma str_eqb_true a b : str_eqb a b = true <-> a = b.
Proof. apply bool_decide_eq_true. Qed.

Lemma str_eqb_false a b : str_eqb a b = false <-> a <> b.
Proof. apply bool_decide_eq_false. Qed.

(** ** Order *)

Fixpoint str_leb (a b : str) : bool :=
  match a, b with
  | [], _ => true
  | _ :: _, [] => false
  | x :: a, y :: b => if decide (x = y) then str_leb a b else (code x <? code y)%Z
  end.

Definition str_le (a b : str) : Prop := str_leb a b = true.

#[export] Instance str_le_dec : RelDecision str_le.
Proof. intros a b. unfold str_le. apply _. Defined.

Lemma code_inj x y : code x = code y -> x = y.
Proof.
  unfold code. intros H. apply N2Z.inj in H.
  rewrite <- (ascii_N_embedding x), <- (ascii_N_embedding y). by rewrite H.
Qed.

Lemma code_range c : (0 <= code c < 256)%Z.
Proof. unfold code. pose proof (N_ascii_bounded c). lia. Qed.

#[export] Instance str_le_total : Total str_le.
Proof.
  intros a. unfold str_le. induction a as [|x a IH]; intros [|y b]; simpl; auto.
  destruct (decide (x = y)), (decide (y = x)); try congruence; [apply IH|].
  assert (code x <> code y) by (intros ?%code_inj; done). rewrite !Z.ltb_lt. lia.
Qed.

#[export] Instance str_le_trans : Transitive str_le.
Proof.
  intros a. unfold str_le. induction a as [|x a IH]; intros [|y b] [|z c]; simpl; auto; [done|].
  repeat case_decide; subst; try done; eauto.
  - rewrite !Z.ltb_lt. intros. lia.
  - rewrite !Z.ltb_lt. intros. lia.
Qed.

#[export] Instance str_le_antisymm : AntiSymm (=) str_le.
Proof.
  intros a. unfold str_le. induction a as [|x a IH]; intros [|y b]; simpl; auto; try done.
  repeat case_decide; subst; try congruence.
  - intros. f_equal. by apply IH.
  - rewrite !Z.ltb_lt. lia.
Qed.

(** The elements of a [std::set<std::string>] in iteration order. *)
Definition set_elements (s : gset str) : list str := merge_sort str_le (elements s).

Lemma elem_of_set_elements s x : x ∈ set_elements s <-> x ∈ s.
Proof. unfold set_elements. rewrite merge_sort_Permutation. apply elem_of_elements. Qed.

Lemma set_elements_sorted s : StronglySorted str_le (set_elements s) /\ NoDup (set_elements s).
Proof.
  unfold set_elements. split; [apply StronglySorted_merge_sort; apply _|].
  rewrite merge_sort_Permutation. apply NoDup_elements.
Qed.

(** ** Searches *)

(** [find(c)] as the text before and after the first [c]. *)
Fixpoint split_at (c : ascii) (s : str) : option (str * str) :=
  match s with
  | [] => None
  | x :: s => if decide (x = c) then Some ([], s)
              else '(a, b) ← split_at c s; Some (x :: a, b)
  end.

(** [find("xy")] for a two-character needle, the same way. *)
Fixpoint split_at2 (c d : ascii) (s : str) : option (str * str) :=
  match s with
  | x :: ((y :: r) as s) =>
      if decide (x = c /\ y = d) then Some ([], r)
      else '(a, b) ← split_at2 c d s; Some (x :: a, b)
  | _ => None
  end.

(** [rfind(c)]: before and after the last [c]. *)
Fixpoint rsplit_at (c : ascii) (s : str) : option (str * str) :=
  match s with
  | [] => None
  | x :: s =>
      match rsplit_at c s with
      | Some (a, b) => Some (x :: a, b)
      | None => if decide (x = c) then Some ([], s) else None
      end
  end.

(** [compare(0, p.size(), p) == 0]: the text after the prefix. *)
Fixpoint strip_prefix (p s : str) : option str :=
  match p, s with
  | [], _ => Some s
  | x :: p, y :: s => if decide (x = y) then strip_prefix p s else None
  | _ :: _, [] => None
  end.

Definition starts_with (p s : str) : bool :=
  match strip_prefix p s with Some _ => true | None => false end.

Definition strip_suffix (p s : str) : option str :=
  match strip_prefix (rev p) (rev s) with Some r => Some (rev r) | None => None end.

Lemma strip_prefix_Some p s r : strip_prefix p s = Some r <-> s = p ++ r.
Proof.
  revert s. induction p as [|x p IH]; intros s; simpl; [split; [by intros [= ->] | by intros ->]|].
  destruct s as [|y s]; [done|]. case_decide; subst.
  - rewrite IH. split; [by intros -> | by intros [= ->]].
  - split; [done | congruence].
Qed.

Lemma strip_prefix_app p r : strip_prefix p (p ++ r) = Some r.
Proof. by apply strip_prefix_Some. Qed.

Lemma strip_suffix_Some p s r : strip_suffix p s = Some r <-> s = r ++ p.
Proof.
  unfold strip_suffix. destruct (strip_prefix (rev p) (rev s)) as [q|] eqn:Hq.
  - apply strip_prefix_Some in Hq. apply (f_equal (@rev ascii)) in Hq.
    rewrite rev_involutive, rev_app_distr, rev_involutive in Hq. subst. split.
    + by intros [= <-].
    + intros Heq. apply app_inv_tail in Heq. by rewrite Heq.
  - split; [done|]. intros ->. rewrite rev_app_distr, strip_prefix_app in Hq. done.
Qed.

Lemma strip_suffix_app p r : strip_suffix p (r ++ p) = Some r.
Proof. by apply strip_suffix_Some. Qed.

Lemma split_at_Some c s a b : split_at c s = Some (a, b) <-> s = a ++ c :: b /\ c ∉ a.
Proof.
  revert a b. induction s as [|x s IH]; intros a b; simpl.
  - split; [done | intros [H _]; by destruct a].
  - case_decide as Hx; subst.
    + split; [intros [= <- <-]; split; [done | by apply not_elem_of_nil] |].
      intros [Heq Hn]. destruct a as [|y a]; simplify_eq/=; [done|]. destruct Hn. left.
    + destruct (split_at c s) as [[a' b']|] eqn:Hs; simpl; split.
      * intros [= <- <-]. destruct (proj1 (IH a' b') eq_refl) as [-> Hn]. split; [done|].
        rewrite not_elem_of_cons. auto.
      * intros [Heq Hn]. destruct a as [|y a]; simplify_eq/=.
        rewrite not_elem_of_cons in Hn. destruct Hn as [_ Hn].
        pose proof (proj2 (IH a b) (conj eq_refl Hn)) as H'. by simplify_eq.
      * done.
      * intros [Heq Hn]. destruct a as [|y a]; simplify_eq/=.
        rewrite not_elem_of_cons in Hn. destruct Hn as [_ Hn].
        pose proof (proj2 (IH a b) (conj eq_refl Hn)). done.
Qed.

Lemma split_at_None c s : split_at c s = None <-> c ∉ s.
Proof.
  split.
  - intros Hn Hin. apply list_elem_of_split_l in Hin as (a & b & -> & Ha).
    by rewrite (proj2 (split_at_Some c _ a b) (conj eq_refl Ha)) in Hn.
  - intros Hn. destruct (split_at c s) as [[a b]|] eqn:Hs; [|done].
    apply split_at_Some in Hs as [-> _]. destruct Hn. set_solver.
Qed.

Lemma split_at2_cons2 c d x y r :
  split_at2 c d (x :: y :: r) =
    if decide (x = c /\ y = d) then Some ([], r)
    else '(a, b) ← split_at2 c d (y :: r); Some (x :: a, b).
Proof. reflexivity. Qed.

Lemma split_at2_tail c d x a : split_at2 c d (x :: a) = None -> split_at2 c d a = None.
Proof.
  destruct a as [|y a]; [done|]. rewrite split_at2_cons2. case_decide; [done|].
  by destruct (split_at2 c d (y :: a)) as [[]|].
Qed.

Lemma split_at2_Some c d s a b :
  c <> d -> split_at2 c d s = Some (a, b) <-> s = a ++ c :: d :: b /\ split_at2 c d a = None.
Proof.
  intros Hcd. revert a b. induction s as [|x [|y r] IH]; intros a b.
  - split; [done | intros [H _]; by destruct a].
  - split; [done | intros [H _]; by destruct a as [|? [|? ?]]].
  - rewrite split_at2_cons2. case_decide as Hxy.
    + destruct Hxy as [-> ->]. split; [by intros [= <- <-]|]. intros [Heq Hn].
      destruct a as [|a0 [|a1 a]]; [by injection Heq as -> | by injection Heq as -> ? |].
      injection Heq as <- <- _. rewrite split_at2_cons2, decide_True in Hn; done.
    + assert (forall a, x :: y :: r = a ++ c :: d :: b -> split_at2 c d a = None ->
        exists a', a = x :: a' /\ y :: r = a' ++ c :: d :: b /\ split_at2 c d a' = None) as Hinv.
      { intros a0 Heq Hn. destruct a0 as [|x0 a0]; [injection Heq as -> -> _; tauto|].
        injection Heq as <- Heq. exists a0. eauto using split_at2_tail. }
      destruct (split_at2 c d (y :: r)) as [[a' b']|] eqn:Hs; simpl; split; try done.
      * intros [= <- <-]. destruct (proj1 (IH a' b') eq_refl) as [Heq Hn]. split; [by rewrite Heq|].
        destruct a' as [|a1 a']; [done|]. rewrite split_at2_cons2. injection Heq as <- _.
        rewrite decide_False by done. by rewrite Hn.
      * intros [Heq Hn]. destruct (Hinv a Heq Hn) as (a0 & -> & Heq' & Hn').
        pose proof (proj2 (IH a0 b) (conj Heq' Hn')) as H'. by simplify_eq.
      * intros [Heq Hn]. destruct (Hinv a Heq Hn) as (a0 & -> & Heq' & Hn').
        by pose proof (proj2 (IH a0 b) (conj Heq' Hn')).
Qed.
