(* ===== verification/Identity.v ===== *)
(** * Identity: GIDs, request ids, goal ids and sequence numbers

    Models include/dmw/gid.hpp, include/dmw/request_id.hpp, the [GoalId] part
    of include/dmw/action_common.hpp and src/impl/identity.hpp.  Octets are
    integers in [0, 256); a [std::array] is a list whose length the
    well-formedness predicate fixes. *)

From S2P Require Import Prelude.
Local Open Scope Z_scope.

Definition octets (n : nat) (l : list Z) : Prop :=
  length l = n /\ Forall (fun b => 0 <= b < 256) l.

Record Gid := MkGid { gid_data : list Z }.

#[export] Instance Gid_eq_dec : EqDecision Gid.
Proof. solve_decision. Defined.

#[export] Instance Gid_countable : Countable Gid.
Proof. refine (inj_countable' gid_data MkGid _). by intros []. Defined.

Definition Gid_wf (g : Gid) : Prop := octets 16 (gid_data g).

(** FNV-1a over the octets, in [size_t] arithmetic. *)
Definition fnv_step (value byte : Z) : Z := wrap_u64 (Z.lxor value byte * 1099511628211).

Definition GidHash (g : Gid) : Z := fold_left fnv_step (gid_data g) 1469598103934665603.

Record GoalId := MkGoalId { goal_id_data : list Z }.

#[export] Instance GoalId_eq_dec : EqDecision GoalId.
Proof. solve_decision. Defined.

#[export] Instance GoalId_countable : Countable GoalId.
Proof. refine (inj_countable' goal_id_data MkGoalId _). by intros []. Defined.

Definition GoalIdHash (g : GoalId) : Z := fold_left fnv_step (goal_id_data g) 1469598103934665603.

Definition is_zero_goal_id (g : GoalId) : bool := forallb (fun b => b =? 0) (goal_id_data g).

Record RequestId := MkRequestId { client_gid : Gid; sequence_number : Z }.

#[export] Instance RequestId_eq_dec : EqDecision RequestId.
Proof. solve_decision. Defined.

#[export] Instance RequestId_countable : Countable RequestId.
Proof.
  refine (inj_countable' (fun r => (client_gid r, sequence_number r))
    (fun '(g, s) => MkRequestId g s) _). by intros [].
Defined.

(** [std::hash<int64_t>] is the library's choice: a parameter. *)
Definition RequestIdHash (std_hash_i64 : Z -> Z) (r : RequestId) : Z :=
  let gid_hash := GidHash (client_gid r) in
  let sequence_hash := std_hash_i64 (sequence_number r) in
  Z.lxor gid_hash
    (wrap_u64 (sequence_hash + 2654435769 + wrap_u64 (Z.shiftl gid_hash 6) + Z.shiftr gid_hash 2)).

(** ** Fast DDS identities (the members the code reads) *)

Record GUID_t := MkGUID { guidPrefix : list Z; entityId : list Z }.

#[export] Instance GUID_eq_dec : EqDecision GUID_t.
Proof. solve_decision. Defined.

#[export] Instance GUID_countable : Countable GUID_t.
Proof.
  refine (inj_countable' (fun g => (guidPrefix g, entityId g)) (fun '(p, e) => MkGUID p e) _).
  by intros [].
Defined.

Definition GUID_wf (g : GUID_t) : Prop := octets 12 (guidPrefix g) /\ octets 4 (entityId g).

Record SequenceNumber := MkSequence { high : Z; low : Z }.

#[export] Instance SequenceNumber_eq_dec : EqDecision SequenceNumber.
Proof. solve_decision. Defined.

Definition SequenceNumber_wf (s : SequenceNumber) : Prop := in_i32 (high s) /\ in_u32 (low s).

Record SampleIdentity := MkSampleIdentity { writer_guid : GUID_t; sample_sequence : SequenceNumber }.

#[export] Instance SampleIdentity_eq_dec : EqDecision SampleIdentity.
Proof. solve_decision. Defined.

(** ** Conversions (src/impl/identity.hpp) *)

Definition from_sequence (s : SequenceNumber) : Z :=
  let high_bits := wrap_u32 (high s) in
  let bits := Z.lor (Z.shiftl high_bits 32) (low s) in
  wrap_i64 bits.

Definition to_sequence (value : Z) : SequenceNumber :=
  let bits := wrap_u64 value in
  let high_bits := wrap_u32 (Z.shiftr bits 32) in
  MkSequence (wrap_i32 high_bits) (wrap_u32 bits).

Definition to_gid (g : GUID_t) : Gid := MkGid (take 12 (guidPrefix g) ++ take 4 (entityId g)).

Section Unknown.
(** [c_SequenceNumber_Unknown] is a constant of Fast DDS. *)
Variable c_SequenceNumber_Unknown : SequenceNumber.

Definition to_request_id (identity : SampleIdentity) : option RequestId :=
  if decide (sample_sequence identity = c_SequenceNumber_Unknown) then None
  else Some (MkRequestId (to_gid (writer_guid identity)) (from_sequence (sample_sequence identity))).

Definition to_writer_sequence (s : SequenceNumber) : Z :=
  if decide (s = c_SequenceNumber_Unknown) then 0 else wrap_u64 (from_sequence s).
End Unknown.

(** ** Lemmas *)

Lemma land_shiftl_low h l n :
  0 <= n -> 0 <= l < 2 ^ n -> Z.land (Z.shiftl h n) l = 0.
Proof.
  intros Hn Hl. rewrite <- (Z.mod_small l (2 ^ n)) by lia. rewrite <- Z.land_ones by lia.
  apply Z.bits_inj'; intros i Hi. rewrite !Z.land_spec, Z.bits_0.
  destruct (Z.ltb_spec i n).
  - by rewrite Z.shiftl_spec_low by lia.
  - rewrite Z.ones_spec_high by lia. by rewrite !andb_false_r.
Qed.

Lemma lor_shiftl_32 h l : 0 <= l < 4294967296 -> Z.lor (Z.shiftl h 32) l = h * 4294967296 + l.
Proof.
  intros Hl. pose proof (Z.add_lor_land (Z.shiftl h 32) l) as Heq.
  rewrite (land_shiftl_low h l 32) in Heq by lia.
  rewrite (Z.shiftl_mul_pow2 h 32) in Heq at 2 by lia. change (2 ^ 32) with 4294967296 in Heq. lia.
Qed.

Lemma from_sequence_value s :
  SequenceNumber_wf s -> from_sequence s = high s * 4294967296 + low s.
Proof.
  intros [Hh Hl]. unfold from_sequence. unfold_ints.
  rewrite lor_shiftl_32 by lia.
  pose proof (Z.mod_pos_bound (high s) 4294967296).
  destruct (Z.leb_spec 0 (high s)).
  - rewrite !Z.mod_small by lia. case_cmp; lia.
  - assert (high s mod 4294967296 = high s + 4294967296) as ->.
    { rewrite <- (Z.mod_add (high s) 1) by lia. apply Z.mod_small. lia. }
    rewrite Z.mod_small by lia. case_cmp; lia.
Qed.

Lemma to_sequence_wf v : SequenceNumber_wf (to_sequence v).
Proof.
  unfold to_sequence, SequenceNumber_wf; simpl. split; [|apply wrap_u32_range].
  unfold_ints.
  match goal with |- context [(?a mod 4294967296) mod 4294967296] =>
    pose proof (Z.mod_pos_bound a 4294967296); rewrite (Z.mod_mod a) by lia end.
  case_cmp; lia.
Qed.

(** every 64-bit sequence number survives the trip through the Fast DDS
    (high, low) representation, whatever its sign, and the representation of
    a value is well formed. *)
Theorem sequence_roundtrip v :
  in_i64 v -> SequenceNumber_wf (to_sequence v) /\ from_sequence (to_sequence v) = v.
Proof.
  intros Hv. split; [apply to_sequence_wf|].
  rewrite from_sequence_value by apply to_sequence_wf. unfold to_sequence; simpl.
  unfold_ints. rewrite Z.shiftr_div_pow2 by lia. change (2 ^ 32) with 4294967296.
  Z.div_mod_to_equations. case_cmp; lia.
Qed.

Lemma sequence_roundtrip_witness : in_i64 (-5) /\ from_sequence (to_sequence (-5)) = -5.
Proof. split; [unfold_ints; lia | apply sequence_roundtrip; unfold_ints; lia]. Defined.

Lemma to_from_sequence s : SequenceNumber_wf s -> to_sequence (from_sequence s) = s.
Proof.
  intros Hs. rewrite from_sequence_value by done. destruct Hs as [Hh Hl].
  destruct s as [h l]; unfold to_sequence; simpl in *. unfold_ints.
  rewrite Z.shiftr_div_pow2 by lia. change (2 ^ 32) with 4294967296.
  f_equal; Z.div_mod_to_equations; case_cmp; lia.
Qed.

Lemma from_sequence_inj s1 s2 :
  SequenceNumber_wf s1 -> SequenceNumber_wf s2 -> from_sequence s1 = from_sequence s2 -> s1 = s2.
Proof.
  intros H1 H2 Heq. rewrite <- (to_from_sequence s1), <- (to_from_sequence s2) by done. congruence.
Qed.

Lemma to_gid_inj g1 g2 : GUID_wf g1 -> GUID_wf g2 -> to_gid g1 = to_gid g2 -> g1 = g2.
Proof.
  destruct g1 as [p1 e1], g2 as [p2 e2]. unfold GUID_wf, octets, to_gid; simpl.
  intros [[Hp1 _] [He1 _]] [[Hp2 _] [He2 _]] [= Heq].
  rewrite !take_ge in Heq by lia. apply app_inj_1 in Heq as [-> ->]; [done | lia].
Qed.

Lemma to_gid_wf g : GUID_wf g -> Gid_wf (to_gid g).
Proof.
  destruct g as [p e]. unfold GUID_wf, Gid_wf, octets, to_gid; simpl.
  intros [[Hp Fp] [He Fe]]. rewrite !take_ge by lia. rewrite length_app.
  split; [lia | by apply Forall_app].
Qed.

Lemma fnv_range value byte : in_u64 (fnv_step value byte).
Proof. apply wrap_u64_range. Qed.
