(* ===== verification/Deadline.v ===== *)
(** * Deadline: wait timeouts and saturating steady-clock deadlines

    Models include/dmw/wait_timeout.hpp and src/impl/deadline.hpp.  A steady
    time point is its 64-bit nanosecond count. *)

From S2P Require Import Prelude.
Local Open Scope Z_scope.

Inductive WaitKind := Poll | Finite | Infinite.

#[export] Instance WaitKind_eq_dec : EqDecision WaitKind.
Proof. solve_decision. Defined.

Record WaitTimeout := MkWaitTimeout { timeout_kind : WaitKind; timeout_ns : Z }.

Definition poll : WaitTimeout := MkWaitTimeout Poll 0.
Definition infinite : WaitTimeout := MkWaitTimeout Infinite 0.
Definition finite (timeout : Z) : Result WaitTimeout :=
  if timeout <=? 0 then fail InvalidArgument "Finite wait timeout must be positive"
  else success (MkWaitTimeout Finite timeout).

(** [duration()] terminates unless the timeout is finite. *)
Definition duration (t : WaitTimeout) : option Z :=
  match timeout_kind t with Finite => Some (timeout_ns t) | _ => None end.

(** The code compares the two durations after converting them to
    [duration<long double>].  The conversion is the platform's: the class
    gives the comparison of the converted values.  It is monotone on every
    platform; where [long double] has 64 mantissa bits it also separates two
    different 64-bit counts. *)
Class WideCompare := {
  wide_ge : Z -> Z -> bool;
  wide_ge_monotone : forall r a, a <= r -> wide_ge r a = true
}.

Class WideExact `{!WideCompare} : Prop :=
  wide_ge_separates : forall r a, in_i64 r -> in_i64 a -> r < a -> wide_ge r a = false.

#[export] Instance exact_compare : WideCompare | 100 :=
  {| wide_ge := fun r a => a <=? r; wide_ge_monotone := fun r a H => proj2 (Z.leb_le a r) H |}.

#[export] Instance exact_compare_exact : WideExact.
Proof. intros r a _ _ H. simpl. apply Z.leb_gt. lia. Qed.

Section Deadlines.
Context `{!WideCompare}.

Definition saturating_steady_add (base dur : Z) : Z :=
  if dur <=? 0 then base
  else if wide_ge dur (INT64_MAX - base) then INT64_MAX
  else base + dur.

(** [now] is the steady-clock value the function reads. *)
Definition steady_deadline (timeout : WaitTimeout) (now : Z) : option Z :=
  match timeout_kind timeout with
  | Infinite => Some INT64_MAX
  | Poll => Some now
  | Finite => saturating_steady_add now <$> duration timeout
  end.

Lemma saturating_steady_add_range base dur :
  0 <= base <= INT64_MAX -> in_i64 dur ->
  base <= saturating_steady_add base dur <= INT64_MAX.
Proof.
  intros Hb Hd. unfold saturating_steady_add. case_cmp; [lia|].
  destruct (wide_ge dur (INT64_MAX - base)) eqn:Hw; [lia|].
  destruct (Z.leb_spec (INT64_MAX - base) dur); [|lia].
  rewrite wide_ge_monotone in Hw by lia. done.
Qed.

Lemma saturating_steady_add_exact `{!WideExact} base dur :
  0 <= base <= INT64_MAX -> in_i64 dur ->
  saturating_steady_add base dur = Z.min INT64_MAX (base + Z.max 0 dur).
Proof.
  intros Hb Hd. unfold saturating_steady_add. case_cmp; [lia|].
  destruct (Z.leb_spec (INT64_MAX - base) dur) as [Hle|Hlt].
  - rewrite wide_ge_monotone by lia. lia.
  - rewrite wide_ge_separates; [lia | done | | lia]. unfold_ints. lia.
Qed.

(** The absolute deadline of a wait never overflows and never lies in the
    past, on every platform; with an exact comparison it is the requested
    instant, clamped to the largest time point. *)
Theorem steady_deadline_bounds timeout now :
  0 <= now <= INT64_MAX ->
  (timeout_kind timeout = Finite -> in_i64 (timeout_ns timeout)) ->
  exists d, steady_deadline timeout now = Some d /\ now <= d <= INT64_MAX /\
    (WideExact -> timeout_kind timeout = Finite ->
       d = Z.min INT64_MAX (now + Z.max 0 (timeout_ns timeout))).
Proof.
  intros Hn Hf. unfold steady_deadline, duration.
  destruct (timeout_kind timeout); simpl.
  - exists now. split_and!; [done | lia | lia | done].
  - eexists. split; [done|]. split; [by apply saturating_steady_add_range; auto|].
    intros ? _. apply saturating_steady_add_exact; auto.
  - exists INT64_MAX. split_and!; [done | lia | lia | done].
Qed.
End Deadlines.

Lemma steady_deadline_bounds_witness :
  exists d, steady_deadline (MkWaitTimeout Finite 7) 5 = Some d /\ 5 <= d <= INT64_MAX /\
    (WideExact -> timeout_kind (MkWaitTimeout Finite 7) = Finite ->
       d = Z.min INT64_MAX (5 + Z.max 0 7)).
Proof.
  apply (steady_deadline_bounds (MkWaitTimeout Finite 7) 5); simpl; unfold_ints; lia.
Defined.

Example finite_rejects_zero : code_of (finite 0) = Some InvalidArgument.
Proof. reflexivity. Qed.
