(* ===== verification/Clock.v ===== *)
(** * Clock: system, steady and ROS clocks and their wake targets

    Models include/dmw/clock.hpp, src/impl/clock_impl.hpp and src/clock.cpp.
    The host clocks are read through [Readings]; [operation] tells whether
    [Context::try_acquire_operation] gave a guard.  An operation that collects
    wake targets returns them: the code calls them after releasing the lock. *)

From S2P Require Import Prelude.
Local Open Scope Z_scope.

Inductive ClockType := System | Steady | Ros.

#[export] Instance ClockType_eq_dec : EqDecision ClockType.
Proof. solve_decision. Defined.

Record TimePoint := MkTimePoint { nanoseconds : Z; clock_type : ClockType }.

(** The host's system and steady clocks at the instant of a call. *)
Record Readings := MkReadings { system_nanoseconds : Z; steady_nanoseconds : Z }.

(** A wake target is a callback; an empty [std::function] is [None]. *)
Record ClockState := MkClock {
  type_ : ClockType;
  ros_override : bool;
  ros_time : Z;
  generation : Z;
  next_wake_handle : Z;
  wake_targets : gmap Z (option nat) }.

Definition make_clock (type : ClockType) : ClockState := MkClock type false 0 0 1 ∅.

Section Operations.
Context `{!HashOrder Z (option nat)}.

Definition current_nanoseconds (env : Readings) (c : ClockState) : Z :=
  if bool_decide (type_ c = Ros) && ros_override c then ros_time c
  else if bool_decide (type_ c = Steady) then steady_nanoseconds env
  else system_nanoseconds env.

Definition clock_now (operation : bool) (env : Readings) (c : ClockState) : Result TimePoint :=
  if negb operation then fail ContextShutdown "Context is shut down"
  else success (MkTimePoint (current_nanoseconds env c) (type_ c)).

Definition ros_override_active (c : ClockState) : bool :=
  bool_decide (type_ c = Ros) && ros_override c.

Definition ros_time_override_enabled (c : ClockState) : Result bool :=
  if negb (bool_decide (type_ c = Ros)) then fail InvalidState "Clock is not a ROS clock"
  else success (ros_override c).

Definition collect_wake_targets_locked (c : ClockState) : list nat :=
  omap snd (hash_order (wake_targets c)).

Definition enable_ros_time_override (operation enabled : bool) (c : ClockState)
    : Result unit * ClockState * list nat :=
  if negb (bool_decide (type_ c = Ros)) then (fail InvalidState "Clock is not a ROS clock", c, [])
  else if negb operation then (fail ContextShutdown "Context is shut down", c, [])
  else if eqb (ros_override c) enabled then (success tt, c, [])
  else
    let c' := MkClock (type_ c) enabled (ros_time c) (wrap_u64 (generation c + 1))
                (next_wake_handle c) (wake_targets c) in
    (success tt, c', collect_wake_targets_locked c').

Definition set_ros_time (operation : bool) (time : TimePoint) (c : ClockState)
    : Result unit * ClockState * list nat :=
  if negb (bool_decide (type_ c = Ros)) || negb (bool_decide (clock_type time = Ros)) then
    (fail InvalidArgument "ROS time requires a ROS clock", c, [])
  else if negb operation then (fail ContextShutdown "Context is shut down", c, [])
  else
    let c' := MkClock (type_ c) (ros_override c) (nanoseconds time) (wrap_u64 (generation c + 1))
                (next_wake_handle c) (wake_targets c) in
    (success tt, c', if ros_override c' then collect_wake_targets_locked c' else []).

(** [emplace] does not overwrite an existing handle. *)
Definition register_wake_target (callback : option nat) (c : ClockState) : Z * ClockState :=
  let handle := next_wake_handle c in
  let targets := match wake_targets c !! handle with
                 | Some _ => wake_targets c
                 | None => <[handle := callback]> (wake_targets c) end in
  (handle, MkClock (type_ c) (ros_override c) (ros_time c) (generation c)
             (wrap_u64 (handle + 1)) targets).

Definition unregister_wake_target (handle : Z) (c : ClockState) : ClockState :=
  MkClock (type_ c) (ros_override c) (ros_time c) (generation c) (next_wake_handle c)
    (delete handle (wake_targets c)).

(** ** Runs *)

Inductive ClockOp :=
  | Op_override (operation enabled : bool)
  | Op_set (operation : bool) (time : TimePoint)
  | Op_add_target (callback : option nat)
  | Op_drop_target (handle : Z).

Definition clock_exec (op : ClockOp) (c : ClockState) : ClockState * list nat :=
  match op with
  | Op_override o e => ((enable_ros_time_override o e c).1.2, (enable_ros_time_override o e c).2)
  | Op_set o t => ((set_ros_time o t c).1.2, (set_ros_time o t c).2)
  | Op_add_target f => ((register_wake_target f c).2, [])
  | Op_drop_target h => (unregister_wake_target h c, [])
  end.

(** Handles are handed out in order, and a live target has an issued one. *)
Definition clock_wf (c : ClockState) : Prop :=
  1 <= next_wake_handle c /\
  map_Forall (fun h _ => 1 <= h < next_wake_handle c) (wake_targets c).

Lemma make_clock_wf type : clock_wf (make_clock type).
Proof. split; simpl; [lia | apply map_Forall_empty]. Qed.

Lemma clock_exec_wf op c :
  next_wake_handle c < UINT64_MAX -> clock_wf c -> clock_wf (clock_exec op c).1.
Proof.
  intros Hmax [Hn Ht]. destruct op; simpl.
  - unfold enable_ros_time_override. by repeat case_match.
  - unfold set_ros_time. by repeat case_match.
  - unfold register_wake_target, clock_wf; simpl.
    rewrite wrap_u64_small by (unfold_ints; lia).
    assert (wake_targets c !! next_wake_handle c = None) as Hnone.
    { destruct (wake_targets c !! next_wake_handle c) eqn:Hl; [|done].
      apply Ht in Hl. lia. }
    rewrite Hnone. split; [lia|]. apply map_Forall_insert_2; [lia|].
    intros h x Hh. apply Ht in Hh. lia.
  - split; [done|]. by apply map_Forall_delete.
Qed.

Lemma elem_of_collect c n :
  n ∈ collect_wake_targets_locked c <-> exists h, wake_targets c !! h = Some (Some n).
Proof.
  unfold collect_wake_targets_locked. rewrite list_elem_of_omap. split.
  - intros ([h x] & Hin & Hx). simpl in Hx. subst. exists h. by apply elem_of_hash_order.
  - intros [h Hh]. exists (h, Some n). split; [by apply elem_of_hash_order | done].
Qed.

(** no clock update is missed: whenever an operation changes the value
    the clock shows at some instant, it wakes every registered target; and a
    committed update (one that moves the generation) never touches the type
    or the set of targets. *)
Theorem clock_update_wakes op c env :
  current_nanoseconds env (clock_exec op c).1 <> current_nanoseconds env c ->
  type_ (clock_exec op c).1 = type_ c /\
  wake_targets (clock_exec op c).1 = wake_targets c /\
  generation (clock_exec op c).1 = wrap_u64 (generation c + 1) /\
  forall h n, wake_targets c !! h = Some (Some n) -> n ∈ (clock_exec op c).2.
Proof.
  assert (forall c', wake_targets c' = wake_targets c ->
    forall h n, wake_targets c !! h = Some (Some n) -> n ∈ collect_wake_targets_locked c') as Hall.
  { intros c' Heq h n Hh. apply elem_of_collect. exists h. by rewrite Heq. }
  destruct op; simpl; try (by intros []).
  - unfold enable_ros_time_override. repeat case_match; try (by intros []).
    intros _. split_and!; try done. by apply Hall.
  - unfold set_ros_time. destruct (_ || _); [by intros []|].
    destruct (negb operation); [by intros []|]. simpl.
    destruct (ros_override c) eqn:Ho.
    + intros _. split_and!; try done. by apply Hall.
    + unfold current_nanoseconds; simpl. rewrite Ho, andb_false_r. by intros [].
Qed.
End Operations.

Lemma clock_update_wakes_witness :
  let c := MkClock Ros true 5 0 2 {[1 := Some 9%nat]} in
  let op := Op_set true (MkTimePoint 6 Ros) in
  generation (clock_exec op c).1 = 1 /\ 9%nat ∈ (clock_exec op c).2.
Proof.
  intros c op.
  destruct (clock_update_wakes op c (MkReadings 0 0)) as (_ & _ & Hg & Hw).
  - vm_compute. congruence.
  - split; [exact Hg | by apply (Hw 1)].
Defined.
