(* ===== verification/Timer.v ===== *)
(** * Timer: clock-bound timer schedules

    Models src/timer.cpp and src/impl/timer_impl.hpp.  A call reads the clock
    [c] at the host readings [env]; [operation] tells whether the Context gave
    an operation guard; [wake] is the outcome of the wake callback a WaitSet
    may have installed.  Effects on the WaitSet are listed in order. *)

From S2P Require Import Prelude Clock.
Local Open Scope Z_scope.

(** ** Saturating 64-bit arithmetic *)

Definition saturating_add (lhs rhs : Z) : Z :=
  if (0 <? rhs) && (INT64_MAX - rhs <? lhs) then INT64_MAX
  else if (rhs <? 0) && (lhs <? INT64_MIN - rhs) then INT64_MIN
  else lhs + rhs.

Definition saturating_sub (lhs rhs : Z) : Z :=
  if (0 <? rhs) && (lhs <? INT64_MIN + rhs) then INT64_MIN
  else if (rhs <? 0) && (INT64_MAX + rhs <? lhs) then INT64_MAX
  else lhs - rhs.

Definition saturating_mul (lhs rhs : Z) : Z :=
  if (lhs =? 0) || (rhs =? 0) then 0
  else if Z.quot INT64_MAX rhs <? lhs then INT64_MAX
  else lhs * rhs.

Definition next_period_grid_point (expected period now : Z) : Z :=
  let next := saturating_add expected period in
  if now <? next then next
  else
    let behind := saturating_sub now next in
    let missed := saturating_add 1 (Z.quot behind period) in
    let next := saturating_add next (saturating_mul missed period) in
    if now <? next then next else now.

(** ** State *)

Record TimerState := MkTimer {
  closing : bool;
  wake_callback : bool;      (* a WaitSet installed its wake callback *)
  detach_callback : bool;
  period_ns : Z;
  clock_wake_handle : Z;
  canceled : bool;
  last_call_ns : Z;
  next_call_ns : Z }.

Record TimerInfo := MkTimerInfo {
  expected_call_time : TimePoint;
  actual_call_time : TimePoint;
  elapsed_since_last_call : Z }.

Inductive TimerEffect := Fx_detach | Fx_wake.

Definition make_timer (env : Readings) (c : ClockState) (period : Z) (autostart : bool) : TimerState :=
  let now := current_nanoseconds env c in
  MkTimer false false false period 0 (negb autostart) now (saturating_add now period).

(** [initialize_clock_wake_target] and the destructor. *)
Definition initialize_clock_wake_target (self : nat) (t : TimerState) (c : ClockState)
    : TimerState * ClockState :=
  let '(handle, c') := register_wake_target (Some self) c in
  (MkTimer (closing t) (wake_callback t) (detach_callback t) (period_ns t) handle
     (canceled t) (last_call_ns t) (next_call_ns t), c').

Definition destroy_timer (t : TimerState) (c : ClockState) : ClockState :=
  if negb (clock_wake_handle t =? 0) then unregister_wake_target (clock_wake_handle t) c else c.

Definition notify_wait_set (wake : Result unit) (t : TimerState) : Result unit * list TimerEffect :=
  if wake_callback t then (wake, [Fx_wake]) else (success tt, []).

Definition detach_wait_set (t : TimerState) : list TimerEffect :=
  if detach_callback t then [Fx_detach] else [].

Definition close (wake : Result unit) (t : TimerState) : TimerState * list TimerEffect :=
  let t' := MkTimer true (wake_callback t) (detach_callback t) (period_ns t) (clock_wake_handle t)
              (canceled t) (last_call_ns t) (next_call_ns t) in
  (t', detach_wait_set t' ++ (notify_wait_set wake t').2).

Definition with_schedule (t : TimerState) (period : Z) (cancel : bool) (last next : Z) : TimerState :=
  MkTimer (closing t) (wake_callback t) (detach_callback t) period (clock_wake_handle t)
    cancel last next.

(** The guard every operation starts with. *)
Definition guarded {T} (operation : bool) (t : TimerState) : Result T + unit :=
  if closing t then inl (fail ParentDestroyed "Timer is closing")
  else if negb operation then inl (fail ContextShutdown "Context is shut down")
  else inr tt.

Definition is_canceled (operation : bool) (t : TimerState) : Result bool :=
  match guarded operation t with inl e => e | inr _ => success (canceled t) end.

Definition is_ready (operation : bool) (env : Readings) (c : ClockState) (t : TimerState)
    : Result bool :=
  match guarded operation t with
  | inl e => e
  | inr _ => if canceled t then success false
             else success (next_call_ns t <=? current_nanoseconds env c)
  end.

Definition logically_ready (shutdown : bool) (env : Readings) (c : ClockState) (t : TimerState) : bool :=
  if closing t || shutdown then false
  else if canceled t then false
  else next_call_ns t <=? current_nanoseconds env c.

Definition cancel (operation : bool) (wake : Result unit) (t : TimerState)
    : Result unit * TimerState * list TimerEffect :=
  match guarded operation t with
  | inl e => (e, t, [])
  | inr _ =>
      if canceled t then (success tt, t, [])
      else
        let t' := with_schedule t (period_ns t) true (last_call_ns t) (next_call_ns t) in
        ((notify_wait_set wake t').1, t', (notify_wait_set wake t').2)
  end.

Definition reset (operation : bool) (wake : Result unit) (env : Readings) (c : ClockState)
    (t : TimerState) : Result unit * TimerState * list TimerEffect :=
  match guarded operation t with
  | inl e => (e, t, [])
  | inr _ =>
      let now := current_nanoseconds env c in
      let t' := with_schedule t (period_ns t) false now (saturating_add now (period_ns t)) in
      ((notify_wait_set wake t').1, t', (notify_wait_set wake t').2)
  end.

Definition exchange_period (operation : bool) (wake : Result unit) (new_period : Z) (t : TimerState)
    : Result Z * TimerState * list TimerEffect :=
  if new_period <? 0 then (fail InvalidArgument "Timer period must not be negative", t, [])
  else match guarded operation t with
  | inl e => (e, t, [])
  | inr _ =>
      let previous := period_ns t in
      let t' := with_schedule t new_period (canceled t) (last_call_ns t) (next_call_ns t) in
      let '(notified, effects) := notify_wait_set wake t' in
      (match notified with failure e => failure e | success _ => success previous end, t', effects)
  end.

Definition time_until_next_call (operation : bool) (env : Readings) (c : ClockState) (t : TimerState)
    : Result Z :=
  match guarded operation t with
  | inl e => e
  | inr _ =>
      if canceled t then fail InvalidState "Timer is canceled"
      else success (Z.max (saturating_sub (next_call_ns t) (current_nanoseconds env c)) 0)
  end.

(** [consume(info)]: the caller's [info] is passed in and out. *)
Definition consume (operation : bool) (env : Readings) (c : ClockState) (info : TimerInfo)
    (t : TimerState) : Result bool * TimerInfo * TimerState :=
  match guarded operation t with
  | inl e => (e, info, t)
  | inr _ =>
      let now := current_nanoseconds env c in
      if canceled t || (now <? next_call_ns t) then (success false, info, t)
      else
        let expected := next_call_ns t in
        let elapsed := saturating_sub now (last_call_ns t) in
        let period := period_ns t in
        let t' := with_schedule t period (canceled t) now
                    (if 0 <? period then next_period_grid_point expected period now else now) in
        (success true,
         MkTimerInfo (MkTimePoint expected (type_ c)) (MkTimePoint now (type_ c)) elapsed, t')
  end.

(** [std::chrono::hours(24 * 365 * 10)] in nanoseconds. *)
Definition kMaxNativeWait : Z := 24 * 365 * 10 * 3600000000000.

Definition timer_steady_deadline (shutdown : bool) (env : Readings) (c : ClockState) (t : TimerState)
    : option Z :=
  if closing t || shutdown then None
  else if canceled t then None
  else if ros_override_active c then None
  else
    let steady_now := steady_nanoseconds env in
    let now_ns := current_nanoseconds env c in
    if next_call_ns t <=? now_ns then Some steady_now
    else
      let remaining := saturating_sub (next_call_ns t) now_ns in
      Some (steady_now + Z.min remaining kMaxNativeWait).

(** ** Saturation is clamping *)

Definition clamp (x : Z) : Z := Z.max INT64_MIN (Z.min INT64_MAX x).

Ltac solve_clamp := unfold clamp; unfold_ints; case_cmp; simpl; lia.

Lemma saturating_add_clamp l r : in_i64 l -> in_i64 r -> saturating_add l r = clamp (l + r).
Proof. intros. unfold saturating_add. solve_clamp. Qed.

Lemma saturating_sub_clamp l r : in_i64 l -> in_i64 r -> saturating_sub l r = clamp (l - r).
Proof. intros. unfold saturating_sub. solve_clamp. Qed.

Lemma saturating_mul_clamp l r :
  0 <= l <= INT64_MAX -> 0 <= r <= INT64_MAX -> saturating_mul l r = clamp (l * r).
Proof.
  intros Hl Hr. unfold saturating_mul.
  destruct (Z.eqb_spec l 0) as [->|]; [done|].
  destruct (Z.eqb_spec r 0) as [->|]; [by rewrite Z.mul_0_r|]. simpl.
  rewrite Z.quot_div_nonneg by (unfold_ints; lia).
  pose proof (Z.mul_div_le INT64_MAX r ltac:(lia)).
  pose proof (Z.mul_succ_div_gt INT64_MAX r ltac:(lia)).
  unfold clamp. destruct (Z.ltb_spec (INT64_MAX `div` r) l); unfold_ints; nia.
Qed.

Lemma clamp_range x : in_i64 (clamp x).
Proof. solve_clamp. Qed.

Lemma clamp_id x : in_i64 x -> clamp x = x.
Proof. solve_clamp. Qed.

Lemma next_period_grid_point_range expected period now :
  in_i64 expected -> in_i64 period -> in_i64 now ->
  in_i64 (next_period_grid_point expected period now) /\
  now <= next_period_grid_point expected period now.
Proof.
  intros He Hp Hn. unfold next_period_grid_point. rewrite saturating_add_clamp by done.
  pose proof (clamp_range (expected + period)).
  destruct (Z.ltb_spec now (clamp (expected + period))); [split; [done | lia]|].
  set (x := saturating_add (clamp _) _).
  destruct (Z.ltb_spec now x) as [Hx|]; [|by split; lia || done]. split; [|lia].
  split; [unfold_ints; lia|]. subst x. revert H. generalize (clamp (expected + period)). intros y Hy.
  generalize (saturating_mul (saturating_add 1 (saturating_sub now y ÷ period)) period). intros z.
  clear -Hy. unfold saturating_add. unfold_ints. case_cmp; simpl; lia.
Qed.

(** The exact grid point, away from saturation. *)
Lemma next_period_grid_point_exact expected period now :
  0 < period <= INT64_MAX -> in_i64 expected -> expected <= now -> now - expected <= INT64_MAX ->
  now + period <= INT64_MAX ->
  exists k, 1 <= k /\ next_period_grid_point expected period now = expected + k * period /\
    now < expected + k * period <= now + period.
Proof.
  intros Hp He Hle Hgap Hmax. unfold next_period_grid_point.
  rewrite saturating_add_clamp, clamp_id by (unfold_ints; lia).
  destruct (Z.ltb_spec now (expected + period)); [exists 1; lia|].
  rewrite saturating_sub_clamp, (clamp_id (now - _)) by (unfold_ints; lia).
  set (behind := now - (expected + period)). assert (0 <= behind) by (subst behind; lia).
  rewrite Z.quot_div_nonneg by lia.
  pose proof (Z.div_pos behind period ltac:(lia) ltac:(lia)).
  pose proof (Z.mul_div_le behind period ltac:(lia)).
  pose proof (Z.mul_succ_div_gt behind period ltac:(lia)).
  assert (behind `div` period <= behind) by (apply Z.div_le_upper_bound; nia).
  assert ((1 + behind `div` period) * period <= behind + period) by lia.
  rewrite (saturating_add_clamp 1), (clamp_id (1 + _)) by (subst behind; unfold_ints; lia).
  rewrite saturating_mul_clamp, clamp_id by (subst behind; unfold_ints; nia).
  rewrite saturating_add_clamp, clamp_id by (subst behind; unfold_ints; nia).
  exists (2 + behind `div` period). subst behind. case_cmp; nia.
Qed.

(** The next call point is never before the present and stays a 64-bit
    value whatever the operands; away from saturation it is the first point
    of the period grid strictly later than the present, at most one period
    ahead. *)
Theorem next_period_grid_point_spec expected period now :
  in_i64 expected -> in_i64 now -> 0 < period <= INT64_MAX ->
  let next := next_period_grid_point expected period now in
  in_i64 next /\ now <= next /\
  (expected <= now -> now - expected <= INT64_MAX -> now + period <= INT64_MAX ->
     (period | next - expected) /\ now < next <= now + period).
Proof.
  intros He Hn Hp next.
  destruct (next_period_grid_point_range expected period now) as [Hr Hge];
    [done | unfold_ints; lia | done|].
  split_and!; [done | done |]. intros Hle Hgap Hmax.
  destruct (next_period_grid_point_exact expected period now) as (k & Hk & Heq & Hb); try done.
  subst next. rewrite Heq. split; [|done]. exists k. lia.
Qed.

Lemma next_period_grid_point_spec_witness :
  in_i64 (next_period_grid_point 10 7 40) /\ 40 <= next_period_grid_point 10 7 40.
Proof.
  destruct (next_period_grid_point_spec 10 7 40) as (H1 & H2 & _);
    [unfold_ints; lia.. | by split].
Defined.

(** ** One timer driven by successive [consume] calls *)

Definition blank_info : TimerInfo := MkTimerInfo (MkTimePoint 0 System) (MkTimePoint 0 System) 0.

(** The (expected, actual) instants of the successful calls of a loop that
    calls [consume] at the given host readings. *)
Fixpoint consume_calls (c : ClockState) (envs : list Readings) (t : TimerState) : list (Z * Z) :=
  match envs with
  | [] => []
  | env :: envs =>
      let '(r, info, t') := consume true env c blank_info t in
      match r with
      | success true =>
          (nanoseconds (expected_call_time info), nanoseconds (actual_call_time info))
          :: consume_calls c envs t'
      | _ => consume_calls c envs t'
      end
  end.

(** Each entry is on the grid, due, and before the following ones. *)
Fixpoint calls_on_grid (origin period : Z) (calls : list (Z * Z)) : Prop :=
  match calls with
  | [] => True
  | (expected, actual) :: calls =>
      (period | expected - origin) /\ expected <= actual /\
      Forall (fun '(e', _) => actual < e') calls /\ calls_on_grid origin period calls
  end.

Lemma consume_calls_ge c envs t :
  closing t = false -> canceled t = false -> in_i64 (period_ns t) -> in_i64 (next_call_ns t) ->
  Forall (fun env => in_i64 (current_nanoseconds env c)) envs ->
  Forall (fun '(e, _) => next_call_ns t <= e) (consume_calls c envs t).
Proof.
  intros Hcl Hca Hp. revert t Hcl Hca Hp.
  induction envs as [|env envs IH]; intros t Hcl Hca Hp Hnext Hall; simpl; [done|].
  apply Forall_cons in Hall as [Henv Hall].
  unfold consume, guarded. rewrite Hcl, Hca. simpl.
  destruct (Z.ltb_spec (current_nanoseconds env c) (next_call_ns t)); [by apply IH|].
  constructor; [simpl; lia|].
  set (t' := with_schedule _ _ _ _ _).
  assert (next_call_ns t <= next_call_ns t' /\ in_i64 (next_call_ns t')) as [Hle Hr].
  { subst t'; simpl. destruct (Z.ltb_spec 0 (period_ns t)); [|by split; lia || unfold_ints; lia].
    destruct (next_period_grid_point_range (next_call_ns t) (period_ns t)
      (current_nanoseconds env c)); try done. split; [lia | done]. }
  eapply Forall_impl; [by apply IH|]. intros [e a] He. lia.
Qed.

(** C31: a periodic timer does not drift: however late and however often
    [consume] is called, every call it reports was due, was due at a point of
    the period grid of the first one, and no call that was due at or before
    the instant of an earlier report is reported again. *)
Theorem timer_no_drift c envs t :
  closing t = false -> canceled t = false -> 0 < period_ns t -> 0 <= next_call_ns t <= INT64_MAX ->
  Forall (fun env => 0 <= current_nanoseconds env c <= INT64_MAX - period_ns t) envs ->
  calls_on_grid (next_call_ns t) (period_ns t) (consume_calls c envs t).
Proof.
  intros Hcl Hca Hp Hn Hall.
  destruct envs as [|env0 envs0] eqn:Henvs; [done|]. rewrite <- Henvs in *.
  assert (in_i64 (period_ns t)) as Hpr.
  { subst envs. apply Forall_cons in Hall as [? _]. unfold_ints. lia. }
  clear env0 envs0 Henvs. revert Hn.
  assert (forall t', closing t' = false -> canceled t' = false -> period_ns t' = period_ns t ->
    0 <= next_call_ns t' <= INT64_MAX -> (period_ns t | next_call_ns t' - next_call_ns t) ->
    calls_on_grid (next_call_ns t) (period_ns t) (consume_calls c envs t')) as Hgen.
  2: { intros Hn. apply Hgen; try done. rewrite Z.sub_diag. apply Z.divide_0_r. }
  clear Hcl Hca. induction envs as [|env envs IH]; intros t' Hcl Hca Hper Hn Hdiv; simpl; [done|].
  apply Forall_cons in Hall as [Henv Hall]. specialize (IH Hall).
  unfold consume, guarded. rewrite Hcl, Hca. simpl.
  destruct (Z.ltb_spec (current_nanoseconds env c) (next_call_ns t')); [by apply IH|].
  simpl. rewrite Hper. destruct (Z.ltb_spec 0 (period_ns t)); [|lia].
  destruct (next_period_grid_point_exact (next_call_ns t') (period_ns t)
    (current_nanoseconds env c)) as (k & Hk & Heq & Hb); try (unfold_ints; lia).
  set (t2 := with_schedule _ _ _ _ _).
  assert (next_call_ns t2 = next_call_ns t' + k * period_ns t) as Hn2 by done.
  split_and!; [done | lia | |].
  - eapply Forall_impl; [apply consume_calls_ge; try done|].
    + rewrite Hn2. unfold_ints. lia.
    + eapply Forall_impl; [exact Hall|]. intros. unfold_ints. lia.
    + intros [e a]. rewrite Hn2. lia.
  - apply IH; try done; rewrite Hn2; [lia|].
    replace (_ + _ - _) with ((next_call_ns t' - next_call_ns t) + k * period_ns t) by lia.
    apply Z.divide_add_r; [done | exists k; lia].
Qed.

Definition steady_env (now : Z) : Readings := MkReadings 0 now.

Lemma timer_no_drift_witness :
  let t := make_timer (steady_env 0) (make_clock Steady) 10 true in
  calls_on_grid 10 10 (consume_calls (make_clock Steady) (steady_env <$> [3; 12; 13; 47; 50; 51]) t) /\
  consume_calls (make_clock Steady) (steady_env <$> [3; 12; 13; 47; 50; 51]) t
    = [(10, 12); (20, 47); (50, 50)].
Proof.
  intros t. split; [|vm_compute; reflexivity].
  apply (timer_no_drift (make_clock Steady) (steady_env <$> [3; 12; 13; 47; 50; 51]) t).
  - reflexivity.
  - reflexivity.
  - reflexivity.
  - subst t. vm_compute. split; congruence.
  - unfold_ints. simpl. repeat (apply Forall_cons; split; [unfold current_nanoseconds; simpl; lia|]).
    by apply Forall_nil.
Defined.

(** [consume] is level triggered: it succeeds exactly when [is_ready]
    says so, and otherwise leaves the timer and the caller's record alone;
    when it succeeds it reports the pending call point and the clock's value,
    and at that same instant the timer is not ready again unless the period is
    zero (always ready) or the schedule saturated. *)
Theorem consume_level_triggered operation env c info t :
  in_i64 (next_call_ns t) -> in_i64 (current_nanoseconds env c) -> 0 <= period_ns t <= INT64_MAX ->
  let '(r, info', t') := consume operation env c info t in
  r = is_ready operation env c t /\
  (r <> success true -> info' = info /\ t' = t) /\
  (r = success true ->
     expected_call_time info' = MkTimePoint (next_call_ns t) (type_ c) /\
     actual_call_time info' = MkTimePoint (current_nanoseconds env c) (type_ c) /\
     last_call_ns t' = current_nanoseconds env c /\ canceled t' = false /\
     (period_ns t = 0 -> is_ready operation env c t' = success true) /\
     (0 < period_ns t -> current_nanoseconds env c + period_ns t <= INT64_MAX ->
        current_nanoseconds env c - next_call_ns t <= INT64_MAX ->
        is_ready operation env c t' = success false)).
Proof.
  intros Hn Hc Hp. unfold consume, is_ready, guarded.
  destruct (closing t) eqn:Hcl; [by split_and!|].
  destruct operation; simpl; [|by split_and!].
  destruct (canceled t) eqn:Hca; simpl; [by split_and!|].
  destruct (Z.ltb_spec (current_nanoseconds env c) (next_call_ns t)); simpl.
  - destruct (Z.leb_spec (next_call_ns t) (current_nanoseconds env c)); [lia|]. by split_and!.
  - destruct (Z.leb_spec (next_call_ns t) (current_nanoseconds env c)); [|lia].
    split_and!; try done. intros _. rewrite Hcl. split_and!; try done.
    + intros ->. simpl. by rewrite Z.leb_refl.
    + intros Hpos Hmax Hgap. destruct (Z.ltb_spec 0 (period_ns t)); [|lia].
      destruct (next_period_grid_point_exact (next_call_ns t) (period_ns t)
        (current_nanoseconds env c)) as (k & Hk & -> & Hb); try done; [lia|].
      f_equal. apply Z.leb_gt. lia.
Qed.

Lemma consume_level_triggered_witness :
  let t := make_timer (steady_env 0) (make_clock Steady) 10 true in
  is_ready true (steady_env 12) (make_clock Steady)
    (consume true (steady_env 12) (make_clock Steady) blank_info t).2 = success false.
Proof.
  intros t.
  pose proof (consume_level_triggered true (steady_env 12) (make_clock Steady) blank_info t) as H.
  destruct H as (_ & _ & H); [unfold_ints; vm_compute; by split.. |].
  apply H; try reflexivity; vm_compute; congruence.
Defined.

(** a wait that ends at the steady deadline never oversleeps: while the
    timer's clock keeps pace with the steady clock, the timer is not ready
    before the deadline, and at the deadline it is ready unless the deadline
    was clamped to ten years.  No deadline means that time alone cannot make
    the timer ready. *)
Theorem steady_deadline_never_late shutdown env env' c t :
  in_i64 (next_call_ns t) -> in_i64 (current_nanoseconds env c) ->
  steady_nanoseconds env <= steady_nanoseconds env' ->
  match timer_steady_deadline shutdown env c t with
  | Some d =>
      current_nanoseconds env' c - current_nanoseconds env c =
        steady_nanoseconds env' - steady_nanoseconds env ->
      (logically_ready shutdown env' c t = true -> d <= steady_nanoseconds env') /\
      (d <= steady_nanoseconds env' ->
         logically_ready shutdown env' c t = true \/ d = steady_nanoseconds env + kMaxNativeWait)
  | None => logically_ready shutdown env' c t = logically_ready shutdown env c t
  end.
Proof.
  intros Hn Hc Hle. unfold timer_steady_deadline, logically_ready.
  destruct (closing t || shutdown); [done|]. destruct (canceled t); [done|].
  destruct (ros_override_active c) eqn:Hov.
  - unfold current_nanoseconds, ros_override_active in *. by rewrite Hov.
  - destruct (Z.leb_spec (next_call_ns t) (current_nanoseconds env c)).
    + intros Hpace. split; [lia|]. intros _. left. apply Z.leb_le. lia.
    + rewrite saturating_sub_clamp by done.
      assert (0 < kMaxNativeWait < INT64_MAX) by (vm_compute; by split).
      assert (Z.min (clamp (next_call_ns t - current_nanoseconds env c)) kMaxNativeWait =
        Z.min (next_call_ns t - current_nanoseconds env c) kMaxNativeWait) as ->.
      { unfold clamp, INT64_MIN in *. lia. }
      intros Hpace. rewrite Z.leb_le. lia.
Qed.

Lemma steady_deadline_never_late_witness :
  let t := make_timer (steady_env 0) (make_clock Steady) 10 true in
  timer_steady_deadline false (steady_env 4) (make_clock Steady) t = Some 10 /\
  (logically_ready false (steady_env 10) (make_clock Steady) t = true -> 10 <= 10).
Proof.
  intros t. split; [vm_compute; reflexivity|].
  pose proof (steady_deadline_never_late false (steady_env 4) (steady_env 10) (make_clock Steady) t) as H.
  apply H; try reflexivity; unfold_ints; vm_compute; try (by split); congruence.
Defined.
