(* ===== verification/Arguments.v ===== *)
(** * Arguments: the ROS command line

    Models include/dmw/arguments.hpp and src/arguments.cpp.  The loop over the
    argument index is structural recursion over the remaining arguments. *)

From S2P Require Import Prelude Strings.
Local Open Scope dmw_scope.

Record RemapRule := MkRemap { from : str; to : str }.
Record ParameterOverride := MkOverride { override_name : str; override_value : str }.

Record Arguments := MkArguments {
  remaps : list RemapRule;
  parameter_overrides : list ParameterOverride;
  unparsed_arguments : list str;
  node_name_remap : str;
  namespace_remap : str }.

Definition no_arguments : Arguments := MkArguments [] [] [] [] [].

Definition parse_assignment (value : str) : Result (str * str) :=
  match split_at2 ":"%char "="%char value with
  | Some ((_ :: _) as name, (_ :: _) as text) => success (name, text)
  | _ => fail InvalidArgument "ROS argument must use non-empty name:=value syntax"
  end.

Definition is_option (argument : str) : bool :=
  str_eqb argument $"-r" || str_eqb argument $"--remap" ||
  str_eqb argument $"-p" || str_eqb argument $"--param".

(** The effect of one option and its value on the parsed arguments. *)
Definition apply_option (argument name value : str) (parsed : Arguments) : Arguments :=
  if str_eqb argument $"-p" || str_eqb argument $"--param" then
    MkArguments (remaps parsed) (parameter_overrides parsed ++ [MkOverride name value])
      (unparsed_arguments parsed) (node_name_remap parsed) (namespace_remap parsed)
  else if str_eqb name $"__node" then
    MkArguments (remaps parsed) (parameter_overrides parsed) (unparsed_arguments parsed)
      value (namespace_remap parsed)
  else if str_eqb name $"__ns" then
    MkArguments (remaps parsed) (parameter_overrides parsed) (unparsed_arguments parsed)
      (node_name_remap parsed) value
  else
    MkArguments (remaps parsed ++ [MkRemap name value]) (parameter_overrides parsed)
      (unparsed_arguments parsed) (node_name_remap parsed) (namespace_remap parsed).

Definition add_unparsed (argument : str) (parsed : Arguments) : Arguments :=
  MkArguments (remaps parsed) (parameter_overrides parsed) (unparsed_arguments parsed ++ [argument])
    (node_name_remap parsed) (namespace_remap parsed).

Fixpoint parse_loop (arguments : list str) (in_ros_arguments : bool) (parsed : Arguments)
    : Result Arguments :=
  match arguments with
  | [] => if in_ros_arguments then fail InvalidArgument "--ros-args must be terminated by --"
          else success parsed
  | argument :: rest =>
      if str_eqb argument $"--ros-args" then
        if in_ros_arguments then fail InvalidArgument "Nested --ros-args is not valid"
        else parse_loop rest true parsed
      else if str_eqb argument $"--" && in_ros_arguments then parse_loop rest false parsed
      else if negb in_ros_arguments then parse_loop rest in_ros_arguments (add_unparsed argument parsed)
      else if negb (is_option argument) then fail InvalidArgument "Unsupported ROS argument"
      else match rest with
      | [] => fail InvalidArgument "ROS argument option requires a value"
      | value :: rest =>
          match parse_assignment value with
          | failure e => failure e
          | success (name, text) =>
              parse_loop rest in_ros_arguments (apply_option argument name text parsed)
          end
      end
  end.

Definition parse_arguments (arguments : list str) : Result Arguments :=
  parse_loop arguments false no_arguments.

(** ** The grammar of accepted command lines *)

(** One option of a [--ros-args] block: its flag, name and value. *)
Record Option := MkOption { flag : str; opt_name : str; opt_value : str }.

(** A command line is plain arguments and [--ros-args ... --] blocks. *)
Inductive Piece :=
  | Plain (argument : str)
  | Block (options : list Option).

Definition option_ok (o : Option) : Prop :=
  is_option (flag o) = true /\ opt_name o <> [] /\ opt_value o <> [] /\
  split_at2 ":"%char "="%char (opt_name o) = None.

Definition piece_ok (p : Piece) : Prop :=
  match p with
  | Plain a => a <> $"--ros-args"
  | Block options => Forall option_ok options
  end.

Definition render_option (o : Option) : list str :=
  [flag o; opt_name o ++ $":=" ++ opt_value o].

Definition render_piece (p : Piece) : list str :=
  match p with
  | Plain a => [a]
  | Block options => [$"--ros-args"] ++ concat (render_option <$> options) ++ [$"--"]
  end.

Definition render (l : list Piece) : list str := concat (render_piece <$> l).

(** What a command line means. *)
Definition meaning_piece (parsed : Arguments) (p : Piece) : Arguments :=
  match p with
  | Plain a => add_unparsed a parsed
  | Block options =>
      fold_left (fun parsed o => apply_option (flag o) (opt_name o) (opt_value o) parsed)
        options parsed
  end.

Definition meaning (l : list Piece) : Arguments := fold_left meaning_piece l no_arguments.

Lemma parse_assignment_spec v name text :
  parse_assignment v = success (name, text) <->
  v = name ++ $":=" ++ text /\ name <> [] /\ text <> [] /\ split_at2 ":"%char "="%char name = None.
Proof.
  unfold parse_assignment.
  assert (":"%char <> "="%char) as Hne by done.
  pose proof (split_at2_Some ":"%char "="%char v name text Hne) as Hspec. split.
  - destruct (split_at2 _ _ v) as [[[|n0 n] [|t0 t]]|] eqn:Hs; try done.
    intros [= <- <-]. destruct (proj1 Hspec eq_refl) as [-> Hn]. by split_and!.
  - intros (Hv & Hn & Ht & Hno). rewrite (proj2 Hspec (conj Hv Hno)).
    by destruct name, text.
Qed.

Lemma is_option_not_special flag :
  is_option flag = true -> str_eqb flag $"--ros-args" = false /\ str_eqb flag $"--" = false.
Proof.
  unfold is_option. rewrite !orb_true_iff, !str_eqb_true. by intros [[[-> | ->] | ->] | ->].
Qed.

Lemma parse_loop_option o rest parsed :
  option_ok o ->
  parse_loop (render_option o ++ rest) true parsed =
  parse_loop rest true (apply_option (flag o) (opt_name o) (opt_value o) parsed).
Proof.
  intros (Hf & Hn & Hv & Hno). simpl. destruct (is_option_not_special _ Hf) as [-> ->].
  rewrite Hf. simpl.
  by rewrite (proj2 (parse_assignment_spec _ (opt_name o) (opt_value o))).
Qed.

Lemma parse_loop_options options rest parsed :
  Forall option_ok options ->
  parse_loop (concat (render_option <$> options) ++ rest) true parsed =
  parse_loop rest true (fold_left (fun parsed o =>
    apply_option (flag o) (opt_name o) (opt_value o) parsed) options parsed).
Proof.
  intros Hok. revert parsed. induction Hok as [|o options Ho Hok IH]; intros parsed; [done|].
  rewrite fmap_cons, concat_cons, <- app_assoc, parse_loop_option by done. apply IH.
Qed.

Lemma parse_loop_render l parsed :
  Forall piece_ok l -> parse_loop (render l) false parsed = success (fold_left meaning_piece l parsed).
Proof.
  intros Hok. revert parsed. induction Hok as [|p l Hp Hok IH]; intros parsed; [done|].
  unfold render. rewrite fmap_cons, concat_cons. fold (render l). destruct p as [a|options].
  - simpl in *. rewrite (proj2 (str_eqb_false a _)) by done. rewrite andb_false_r. apply IH.
  - replace (render_piece (Block options) ++ render l)
      with ($"--ros-args" :: concat (render_option <$> options) ++ $"--" :: render l)
      by (simpl; by rewrite <- app_assoc).
    change (parse_loop (_ :: ?r) false parsed) with (parse_loop r true parsed).
    change (parse_loop (concat (render_option <$> options) ++ $"--" :: render l) true parsed =
      success (fold_left meaning_piece (Block options :: l) parsed)).
    rewrite parse_loop_options by done. cbn. apply IH.
Qed.

(** A parse that succeeds read a rendering of some pieces. *)
Lemma parse_loop_inv n arguments in_ros parsed result :
  length arguments <= n -> parse_loop arguments in_ros parsed = success result ->
  exists options l,
    arguments = (if in_ros then concat (render_option <$> options) ++ [$"--"] else []) ++ render l /\
    Forall option_ok options /\ Forall piece_ok l /\ (in_ros = false -> options = []).
Proof.
  revert arguments in_ros parsed. induction n as [|n IH]; intros [|a rest] in_ros parsed Hlen Hp;
    simpl in Hlen; try lia.
  1,2: simpl in Hp; destruct in_ros; [done|]; exists [], []; by split_and!.
  simpl in Hp. destruct (str_eqb a $"--ros-args") eqn:Ha.
  - apply str_eqb_true in Ha as ->. destruct in_ros; [done|].
    apply IH in Hp as (options & l & -> & Ho & Hl & _); [|lia].
    exists [], (Block options :: l). split_and!; [|done | by constructor | done].
    reflexivity.
  - destruct in_ros; simpl in Hp; rewrite ?andb_true_r, ?andb_false_r in Hp.
    + destruct (str_eqb a $"--") eqn:Hd.
      * apply str_eqb_true in Hd as ->. apply IH in Hp as (options & l & -> & Ho & Hl & Hnil); [|lia].
        exists [], l. by split_and!.
      * destruct (is_option a) eqn:Hopt; simpl in Hp; [|done]. destruct rest as [|v rest]; [done|].
        destruct (parse_assignment v) as [[name text]|e] eqn:Hv; [|done].
        apply parse_assignment_spec in Hv as (-> & Hn & Ht & Hno).
        apply IH in Hp as (options & l & -> & Ho & Hl & _); [|simpl in Hlen; lia].
        exists (MkOption a name text :: options), l. split_and!; [|constructor | done | done];
          [|by split_and! | done].
        rewrite fmap_cons, concat_cons. simpl. by rewrite <- ?app_assoc.
    + apply IH in Hp as (options & l & -> & Ho & Hl & _); [|lia].
      apply str_eqb_false in Ha. exists [], (Plain a :: l). split_and!; try done. by constructor.
Qed.

(** the parser accepts exactly the command lines made of plain arguments
    and closed [--ros-args ... --] blocks of well-formed options, and what it
    returns is their meaning: overrides and remaps in order, every other
    argument kept in order, the last [__node] and [__ns]. *)
Theorem parse_arguments_grammar arguments :
  (forall l, Forall piece_ok l -> arguments = render l -> parse_arguments arguments = success (meaning l)) /\
  (forall result, parse_arguments arguments = success result ->
     exists l, Forall piece_ok l /\ arguments = render l /\ result = meaning l) /\
  (forall e, parse_arguments arguments = failure e -> error_code e = InvalidArgument).
Proof.
  split_and!.
  - intros l Hl ->. by apply parse_loop_render.
  - intros result Hr. destruct (parse_loop_inv (length arguments) arguments false no_arguments result)
      as (options & l & -> & _ & Hl & _); [lia | done |].
    exists l. split_and!; [done | done |]. simpl in Hr. unfold parse_arguments in Hr.
    rewrite parse_loop_render in Hr by done. by injection Hr.
  - unfold parse_arguments. generalize false no_arguments.
    assert (forall n arguments b parsed e, length arguments <= n ->
      parse_loop arguments b parsed = failure e -> error_code e = InvalidArgument) as Hgen.
    { clear. induction n as [|n IH]; intros [|a rest] b parsed e Hlen; simpl in *; try lia.
      1,2: destruct b; by intros [= <-].
      destruct (str_eqb a _); [destruct b; [by intros [= <-] | apply IH; lia]|].
      destruct (_ && _); [apply IH; lia|]. destruct (negb b); [apply IH; lia|].
      destruct (negb (is_option a)); [by intros [= <-]|]. destruct rest as [|v rest]; [by intros [= <-]|].
      destruct (parse_assignment v) as [[name text]|e'] eqn:Hv; [apply IH; simpl in *; lia|].
      intros [= <-]. unfold parse_assignment, fail in Hv.
      by repeat case_match; simplify_eq. }
    intros b parsed e. by apply (Hgen (length arguments)).
Qed.

Example parse_example :
  parse_arguments [$"prog"; $"--ros-args"; $"-r"; $"a:=b"; $"-p"; $"x:=1"; $"-r"; $"__node:=n"; $"--"; $"end"]
  = success (MkArguments [MkRemap $"a" $"b"] [MkOverride $"x" $"1"] [$"prog"; $"end"] $"n" []).
Proof. vm_compute. reflexivity. Qed.
