(* ===== verification/Parameters.v ===== *)
(** * Parameters: values, literals, descriptors and the Node's parameter store

    Models include/dmw/parameter.hpp, parameter_descriptor.hpp,
    parameter_change_set.hpp and src/impl/parameter_store.{hpp,cpp}.  A
    [double] is an IEEE binary64 value of the Standard Library's [SpecFloat];
    [std::strtod] depends on the C locale of the process and is a class.  The
    store's mutex makes each operation atomic. *)

From Stdlib Require Import SpecFloat.
From S2P Require Import Prelude Strings Arguments.
Local Open Scope Z_scope.
Local Open Scope dmw_scope.

(** ** Values *)

Inductive ParameterType :=
  | T_NotSet | T_Bool | T_Integer | T_Double | T_String
  | T_ByteArray | T_BoolArray | T_IntegerArray | T_DoubleArray | T_StringArray.

#[export] Instance ParameterType_eq_dec : EqDecision ParameterType.
Proof. solve_decision. Defined.

Abbreviation double := spec_float.

Inductive ParameterValue :=
  | V_NotSet
  | V_Bool (b : bool)
  | V_Integer (z : Z)
  | V_Double (d : double)
  | V_String (s : str)
  | V_ByteArray (l : list Z)
  | V_BoolArray (l : list bool)
  | V_IntegerArray (l : list Z)
  | V_DoubleArray (l : list double)
  | V_StringArray (l : list str).

Definition type (v : ParameterValue) : ParameterType :=
  match v with
  | V_NotSet => T_NotSet | V_Bool _ => T_Bool | V_Integer _ => T_Integer
  | V_Double _ => T_Double | V_String _ => T_String | V_ByteArray _ => T_ByteArray
  | V_BoolArray _ => T_BoolArray | V_IntegerArray _ => T_IntegerArray
  | V_DoubleArray _ => T_DoubleArray | V_StringArray _ => T_StringArray
  end.

Definition is_set (v : ParameterValue) : bool := negb (bool_decide (type v = T_NotSet)).

(** The accessors: the wrong one calls [std::terminate]. *)
Definition as_integer (v : ParameterValue) : option Z :=
  match v with V_Integer z => Some z | _ => None end.

Definition as_double (v : ParameterValue) : option double :=
  match v with V_Double d => Some d | _ => None end.

(** [==] of [std::vector<double>]: IEEE equality element by element. *)
Fixpoint doubles_eqb (l1 l2 : list double) : bool :=
  match l1, l2 with
  | [], [] => true
  | x :: l1, y :: l2 => SFeqb x y && doubles_eqb l1 l2
  | _, _ => false
  end.

Definition value_eqb (a b : ParameterValue) : bool :=
  match a, b with
  | V_NotSet, V_NotSet => true
  | V_Bool x, V_Bool y => bool_decide (x = y)
  | V_Integer x, V_Integer y => bool_decide (x = y)
  | V_Double x, V_Double y => SFeqb x y
  | V_String x, V_String y => bool_decide (x = y)
  | V_ByteArray x, V_ByteArray y => bool_decide (x = y)
  | V_BoolArray x, V_BoolArray y => bool_decide (x = y)
  | V_IntegerArray x, V_IntegerArray y => bool_decide (x = y)
  | V_DoubleArray x, V_DoubleArray y => doubles_eqb x y
  | V_StringArray x, V_StringArray y => bool_decide (x = y)
  | _, _ => false
  end.

Record ParameterEntry := MkParameter { name : str; value : ParameterValue }.

Record IntegerRange := MkIntegerRange { from_value : Z; to_value : Z; step : Z }.

Record FloatingPointRange := MkFloatRange {
  float_from : double; float_to : double; float_step : double }.

Record ParameterDescriptor := MkDescriptor {
  description : str;
  additional_constraints : str;
  read_only : bool;
  dynamic_typing : bool;
  integer_ranges : list IntegerRange;
  floating_point_ranges : list FloatingPointRange }.

Definition default_descriptor : ParameterDescriptor := MkDescriptor [] [] false false [] [].

Record ParameterChangeSet := MkChangeSet {
  new_parameters : list ParameterEntry;
  changed_parameters : list ParameterEntry;
  deleted_parameters : list ParameterEntry }.

Definition empty_changes : ParameterChangeSet := MkChangeSet [] [] [].

Record ParameterListResult := MkListResult { names : list str; prefixes : list str }.

(** ** Literals *)

Definition is_token_start (c : ascii) : bool :=
  ((97 <=? code c) && (code c <=? 122)) || ((65 <=? code c) && (code c <=? 90)) || (code c =? 95).

Definition is_token_char (c : ascii) : bool :=
  is_token_start c || ((48 <=? code c) && (code c <=? 57)).

Definition kMagnitudeCap : Z := INT64_MAX + 1.

(** The digit loop on the [uint64_t] magnitude. *)
Fixpoint magnitude_loop (magnitude : Z) (text : str) : option Z :=
  match text with
  | [] => Some magnitude
  | digit :: text =>
      if (code digit <? 48) || (57 <? code digit) then None
      else
        let unit := code digit - 48 in
        if (kMagnitudeCap - unit) / 10 <? magnitude then None
        else magnitude_loop (magnitude * 10 + unit) text
  end.

Definition parses_as_integer (text : str) : option Z :=
  match text with
  | [] => None
  | c :: rest =>
      let signed := str_eqb [c] $"-" || str_eqb [c] $"+" in
      let negative := str_eqb [c] $"-" in
      let digits := if signed then rest else text in
      match digits with
      | [] => None
      | _ =>
          match magnitude_loop 0 digits with
          | None => None
          | Some magnitude =>
              if negb negative then (if INT64_MAX <? magnitude then None else Some magnitude)
              else if magnitude =? kMagnitudeCap then Some INT64_MIN
              else Some (- magnitude)
          end
      end
  end.

(** [std::strtod]: the value and the number of characters consumed. *)
Class Strtod := { strtod : str -> double * nat }.

(** [c_str()] ends at the first NUL of the text. *)
Fixpoint c_str (s : str) : str :=
  match s with
  | [] => []
  | c :: s => if code c =? 0 then [] else c :: c_str s
  end.

Definition has_marker (text : str) : bool :=
  existsb (fun c => str_eqb [c] $"." || str_eqb [c] $"e" || str_eqb [c] $"E") text.

Section Literals.
Context `{!Strtod}.

Definition parses_as_double (text : str) : option double :=
  match text with
  | [] => None
  | _ =>
      if negb (has_marker text) then None
      else
        let '(parsed, consumed) := strtod (c_str text) in
        (* [*end] is the terminating NUL when everything was consumed *)
        match drop consumed (c_str text) with [] => Some parsed | _ => None end
  end.

Definition parse_parameter_literal (text : str) : ParameterValue :=
  if str_eqb text $"true" then V_Bool true
  else if str_eqb text $"false" then V_Bool false
  else match parses_as_integer text with
  | Some integer => V_Integer integer
  | None =>
      match parses_as_double text with
      | Some floating => V_Double floating
      | None => V_String text
      end
  end.

(** The leading slash of a qualified name or a scope. *)
Definition drop_slash (s : str) : str :=
  match s with c :: r => if decide (c = "/"%char) then r else s | [] => [] end.

Definition select_override (node_name unqualified_fqn : str) (o : ParameterOverride)
    : option ParameterEntry :=
  match split_at ":"%char (override_name o) with
  | None => Some (MkParameter (override_name o) (parse_parameter_literal (override_value o)))
  | Some (scope, rest) =>
      let scope := drop_slash scope in
      if bool_decide (scope = []) || (negb (str_eqb scope node_name) && negb (str_eqb scope unqualified_fqn))
      then None
      else Some (MkParameter rest (parse_parameter_literal (override_value o)))
  end.

Definition select_parameter_overrides (overrides : list ParameterOverride)
    (node_name fully_qualified_name : str) : list ParameterEntry :=
  omap (select_override node_name (drop_slash fully_qualified_name)) overrides.
End Literals.

(** ** Range checks *)

Definition integer_value_is_acceptable (value : Z) (range : IntegerRange) : bool :=
  if to_value range <? from_value range then false
  else if (value <? from_value range) || (to_value range <? value) then false
  else if negb (step range =? 0) then
    let offset := wrap_u64 (wrap_u64 value - wrap_u64 (from_value range)) in
    if negb (offset mod step range =? 0) then false else true
  else true.

Definition prec : Z := 53.
Definition emax : Z := 1024.

(** [kFloatingEpsilon], the binary64 value nearest to 1e-9. *)
Definition kFloatingEpsilon : double := S754_finite false 4835703278458517 (-82).

(** [std::round]: to the nearest integer, halves away from zero.  A finite
    value with a non-negative exponent is an integer already. *)
Definition SFround (x : double) : double :=
  match x with
  | S754_finite s m e =>
      if 0 <=? e then x
      else
        let q := Z.shiftr (Z.pos m + Z.shiftl 1 (- e - 1)) (- e) in
        if q =? 0 then S754_zero s
        else binary_normalize prec emax (if s then - q else q) 0 s
  | _ => x
  end.

Definition SFisnan (x : double) : bool := match x with S754_nan => true | _ => false end.

Definition SFisfinite (x : double) : bool :=
  match x with S754_zero _ | S754_finite _ _ _ => true | _ => false end.

Definition SFzero : double := S754_zero false.

Definition double_value_is_acceptable (value : double) (range : FloatingPointRange) : bool :=
  if SFisnan value then false
  else if SFltb (float_to range) (float_from range) then false
  else if SFltb value (SFsub prec emax (float_from range) kFloatingEpsilon)
          || SFltb (SFadd prec emax (float_to range) kFloatingEpsilon) value then false
  else if SFltb SFzero (float_step range) then
    let offset := SFsub prec emax value (float_from range) in
    let ratio := SFdiv prec emax offset (float_step range) in
    let nearest := SFround ratio in
    if SFltb kFloatingEpsilon (SFabs (SFsub prec emax ratio nearest)) then false else true
  else true.

(** ** Names *)

Definition count_tokens (name : str) : nat :=
  fold_left (fun count c => if decide (c = "."%char) then S count else count) name 1%nat.

(** [truncate_to_depth]: [seen] dots so far. *)
Fixpoint truncate_loop (seen tokens : nat) (name : str) : str :=
  match name with
  | [] => []
  | c :: name =>
      if decide (c = "."%char) then
        if decide (S seen = tokens) then [] else c :: truncate_loop (S seen) tokens name
      else c :: truncate_loop seen tokens name
  end.

Definition truncate_to_depth (name : str) (tokens : nat) : str := truncate_loop 0 tokens name.

(** The token loop; [start] holds when the index is at [token_start]. *)
Fixpoint token_loop (start : bool) (name : str) : Result unit :=
  match name with
  | [] => if start then fail InvalidName "Parameter name contains an empty token" else success tt
  | c :: name =>
      if decide (c = "."%char) then
        if start then fail InvalidName "Parameter name contains an empty token"
        else token_loop true name
      else if start then
        if negb (is_token_start c) then
          fail InvalidName "Parameter name token must start with a letter or underscore"
        else token_loop false name
      else if negb (is_token_char c) then
        fail InvalidName "Parameter name contains an invalid character"
      else token_loop false name
  end.

Definition validate_parameter_name (name : str) : Result unit :=
  match name with
  | [] => fail InvalidName "Parameter name is empty"
  | c :: _ =>
      if bool_decide (c = "."%char) || bool_decide (last name = Some "."%char) then
        fail InvalidName "Parameter name must not start or end with '.'"
      else token_loop true name
  end.

(** ** Store *)

Record StoredParameter := MkStored { stored_value : ParameterValue; descriptor : ParameterDescriptor }.

Record ParameterStoreState := MkStore {
  allow_undeclared_parameters : bool;
  overrides : list ParameterEntry;
  parameters : gmap str StoredParameter;
  pending_changes : ParameterChangeSet }.

Definition make_store (allow : bool) (overrides : list ParameterEntry) : ParameterStoreState :=
  MkStore allow overrides ∅ empty_changes.

Definition with_parameters (s : ParameterStoreState) (p : gmap str StoredParameter)
    (c : ParameterChangeSet) : ParameterStoreState :=
  MkStore (allow_undeclared_parameters s) (overrides s) p c.

Definition float_range_error (range : FloatingPointRange) : option (Result unit) :=
  if negb (SFleb (float_from range) (float_to range)) then
    Some (fail InvalidArgument "Floating point range has from_value > to_value")
  else if SFltb (float_step range) SFzero
          || (negb (SFisfinite (float_step range)) && negb (SFeqb (float_step range) SFzero)) then
    Some (fail InvalidArgument "Floating point range step must be zero or a finite positive value")
  else None.

Definition validate_descriptor (d : ParameterDescriptor) (direct_value : ParameterValue) : Result unit :=
  if existsb (fun r => to_value r <? from_value r) (integer_ranges d) then
    fail InvalidArgument "Integer range has from_value > to_value"
  else match omap float_range_error (floating_point_ranges d) with
  | e :: _ => e
  | [] =>
      if negb (dynamic_typing d) && negb (is_set direct_value) then
        fail InvalidArgument "Fixed-type parameter requires a typed default value"
      else success tt
  end.

Definition validate_value_against_descriptor (v : ParameterValue) (d : ParameterDescriptor) : Result unit :=
  match v with
  | V_Integer integer =>
      if negb (bool_decide (integer_ranges d = [])) &&
         negb (existsb (integer_value_is_acceptable integer) (integer_ranges d)) then
        fail InvalidArgument "Integer parameter value is outside its range"
      else success tt
  | V_Double floating =>
      match floating_point_ranges d with
      | [] => success tt
      | ranges =>
          if negb (existsb (double_value_is_acceptable floating) ranges) then
            fail InvalidArgument "Floating point parameter value is outside its range"
          else success tt
      end
  | _ => success tt
  end.

Definition validate_assignment_locked (s : ParameterStoreState) (n : str) (v : ParameterValue)
    (implicit_declare : bool) : Result unit :=
  let? _ := validate_parameter_name n in
  match parameters s !! n with
  | None =>
      if negb (allow_undeclared_parameters s) && negb implicit_declare then
        fail NotFound "Parameter is not declared"
      else success tt
  | Some found =>
      if read_only (descriptor found) then fail InvalidState "Parameter is read-only"
      else if negb (dynamic_typing (descriptor found)) && is_set (stored_value found)
              && negb (bool_decide (type (stored_value found) = type v)) then
        fail InvalidArgument "Parameter value type does not match its declaration"
      else validate_value_against_descriptor v (descriptor found)
  end.

Fixpoint duplicates_loop (seen : gset str) (params : list ParameterEntry) : Result unit :=
  match params with
  | [] => success tt
  | p :: params =>
      let? _ := validate_parameter_name (name p) in
      if bool_decide (name p ∈ seen) then
        fail InvalidArgument "Duplicate parameter name in one request"
      else duplicates_loop ({[name p]} ∪ seen) params
  end.

Definition validate_name_and_duplicates (params : list ParameterEntry) : Result unit :=
  duplicates_loop ∅ params.

Definition effective_value (s : ParameterStoreState) (n : str) (default_value : ParameterValue)
    (ignore_override : bool) : ParameterValue :=
  if negb ignore_override then
    match find_if (fun o => str_eqb (name o) n) (overrides s) with
    | Some o => value o
    | None => default_value
    end
  else default_value.

Definition declare_locked (n : str) (default_value : ParameterValue) (d : ParameterDescriptor)
    (ignore_override : bool) (s : ParameterStoreState) : Result ParameterEntry * ParameterStoreState :=
  let effective := effective_value s n default_value ignore_override in
  if negb (dynamic_typing d) && is_set effective && is_set default_value
     && negb (bool_decide (type effective = type default_value)) then
    (fail InvalidArgument "Parameter override type does not match the declared type", s)
  else match validate_value_against_descriptor effective d with
  | failure e => (failure e, s)
  | success _ =>
      (* [emplace] keeps an existing entry *)
      let p := match parameters s !! n with
               | Some _ => parameters s
               | None => <[n := MkStored effective d]> (parameters s) end in
      (success (MkParameter n effective), with_parameters s p (pending_changes s))
  end.

Definition record_new (p : ParameterEntry) (c : ParameterChangeSet) : ParameterChangeSet :=
  MkChangeSet (new_parameters c ++ [p]) (changed_parameters c) (deleted_parameters c).

Definition declare (n : str) (default_value : ParameterValue) (d : ParameterDescriptor)
    (ignore_override : bool) (s : ParameterStoreState) : Result ParameterEntry * ParameterStoreState :=
  match validate_parameter_name n with
  | failure e => (failure e, s)
  | success _ =>
      match validate_descriptor d default_value with
      | failure e => (failure e, s)
      | success _ =>
          match parameters s !! n with
          | Some _ => (fail AlreadyExists "Parameter is already declared", s)
          | None =>
              match declare_locked n default_value d ignore_override s with
              | (failure e, s) => (failure e, s)
              | (success p, s) =>
                  (success p, with_parameters s (parameters s) (record_new p (pending_changes s)))
              end
          end
      end
  end.

Definition undeclare (n : str) (s : ParameterStoreState) : Result unit * ParameterStoreState :=
  match validate_parameter_name n with
  | failure e => (failure e, s)
  | success _ =>
      match parameters s !! n with
      | None => (fail NotFound "Parameter is not declared", s)
      | Some found =>
          let c := pending_changes s in
          (success tt, with_parameters s (delete n (parameters s))
             (MkChangeSet (new_parameters c) (changed_parameters c)
                (deleted_parameters c ++ [MkParameter n (stored_value found)])))
      end
  end.

Definition has (n : str) (s : ParameterStoreState) : Result bool :=
  let? _ := validate_parameter_name n in
  success (match parameters s !! n with Some _ => true | None => false end).

Definition get (n : str) (s : ParameterStoreState) : Result ParameterEntry :=
  let? _ := validate_parameter_name n in
  match parameters s !! n with
  | None =>
      if allow_undeclared_parameters s then success (MkParameter n V_NotSet)
      else fail NotFound "Parameter is not declared"
  | Some found => success (MkParameter n (stored_value found))
  end.

Fixpoint get_many (ns : list str) (s : ParameterStoreState) : Result (list ParameterEntry) :=
  match ns with
  | [] => success []
  | n :: ns =>
      let? p := get n s in
      let? ps := get_many ns s in
      success (p :: ps)
  end.

Definition describe (n : str) (s : ParameterStoreState) : Result ParameterDescriptor :=
  let? _ := validate_parameter_name n in
  match parameters s !! n with
  | None => fail NotFound "Parameter is not declared"
  | Some found => success (descriptor found)
  end.

(** ** Listing *)

Definition prefix_matches (n prefix : str) : bool :=
  if bool_decide (prefix = []) then true
  else if str_eqb n prefix then true
  else match strip_prefix prefix n with
       | Some (c :: _) => bool_decide (c = "."%char)
       | _ => false
       end.

Fixpoint first_invalid_prefix (ps : list str) : Result unit :=
  match ps with
  | [] => success tt
  | p :: ps =>
      if bool_decide (p = []) then first_invalid_prefix ps
      else let? _ := validate_parameter_name p in first_invalid_prefix ps
  end.

Definition list_step (ps : list str) (depth : nat) (acc : gset str * gset str) (n : str)
    : gset str * gset str :=
  let '(ns, out) := acc in
  if negb (bool_decide (ps = []) || existsb (prefix_matches n) ps) then acc
  else if decide (depth = 0%nat) then ({[n]} ∪ ns, out)
  else if (count_tokens n <=? depth)%nat then ({[n]} ∪ ns, out)
  else (ns, {[truncate_to_depth n depth]} ∪ out).

(** [std::map] iterates the names in order. *)
Definition list_parameters (ps : list str) (depth : nat) (s : ParameterStoreState)
    : Result ParameterListResult :=
  let? _ := first_invalid_prefix ps in
  let '(ns, out) := fold_left (list_step ps depth) (set_elements (dom (parameters s))) (∅, ∅) in
  success (MkListResult (set_elements ns) (set_elements out)).

(** ** Assignment *)

Fixpoint validate_loop (s : ParameterStoreState) (params : list ParameterEntry) : Result unit :=
  match params with
  | [] => success tt
  | p :: params =>
      let? _ := validate_assignment_locked s (name p) (value p) false in
      validate_loop s params
  end.

Definition validate (params : list ParameterEntry) (s : ParameterStoreState) : Result unit :=
  let? _ := validate_name_and_duplicates params in
  validate_loop s params.

(** One turn of the commit loop on the candidate map and the delta. *)
Definition assign_step (acc : gmap str StoredParameter * ParameterChangeSet) (p : ParameterEntry)
    : gmap str StoredParameter * ParameterChangeSet :=
  let '(candidate, delta) := acc in
  match candidate !! name p with
  | None =>
      (<[name p := MkStored (value p) default_descriptor]> candidate,
       MkChangeSet (new_parameters delta ++ [p]) (changed_parameters delta) (deleted_parameters delta))
  | Some found =>
      if value_eqb (stored_value found) (value p) then acc
      else
        (<[name p := MkStored (value p) (descriptor found)]> candidate,
         MkChangeSet (new_parameters delta) (changed_parameters delta ++ [p]) (deleted_parameters delta))
  end.

Definition set_atomically (params : list ParameterEntry) (s : ParameterStoreState)
    : Result ParameterChangeSet * ParameterStoreState :=
  match validate_name_and_duplicates params with
  | failure e => (failure e, s)
  | success _ =>
      match validate_loop s params with
      | failure e => (failure e, s)
      | success _ =>
          let '(candidate, delta) := fold_left assign_step params (parameters s, empty_changes) in
          let c := pending_changes s in
          (success delta,
           with_parameters s candidate
             (MkChangeSet (new_parameters c ++ new_parameters delta)
                (changed_parameters c ++ changed_parameters delta) (deleted_parameters c)))
      end
  end.

Definition take_changes (s : ParameterStoreState) : Result ParameterChangeSet * ParameterStoreState :=
  (success (pending_changes s), with_parameters s (parameters s) empty_changes).

(** ** Integer literals *)

Definition is_digit (c : ascii) : bool := (48 <=? code c) && (code c <=? 57).

Definition digits_value (m : Z) (text : str) : Z :=
  fold_left (fun m c => m * 10 + (code c - 48)) text m.

(** The unbounded reading of a literal: an optional sign and decimal digits. *)
Definition split_sign (text : str) : bool * str :=
  match text with
  | c :: rest => if str_eqb [c] $"-" then (true, rest)
                 else if str_eqb [c] $"+" then (false, rest) else (false, text)
  | [] => (false, [])
  end.

Definition integer_literal (text : str) : option Z :=
  let '(negative, digits) := split_sign text in
  if bool_decide (digits = []) || negb (forallb is_digit digits) then None
  else Some (if negative then - digits_value 0 digits else digits_value 0 digits).

Lemma digits_value_ge m text : 0 <= m -> forallb is_digit text = true -> m <= digits_value m text.
Proof.
  revert m. induction text as [|c text IH]; simpl; intros m Hm Hd; [lia|].
  apply andb_true_iff in Hd as [Hc Hd]. unfold is_digit in Hc.
  apply andb_true_iff in Hc as [H1%Z.leb_le H2%Z.leb_le].
  specialize (IH (m * 10 + (code c - 48)) ltac:(lia) Hd). lia.
Qed.

Lemma magnitude_loop_spec m text :
  0 <= m <= kMagnitudeCap ->
  magnitude_loop m text =
    if forallb is_digit text && (digits_value m text <=? kMagnitudeCap)
    then Some (digits_value m text) else None.
Proof.
  revert m. induction text as [|c text IH]; simpl; intros m Hm.
  - destruct (Z.leb_spec m kMagnitudeCap); [done | lia].
  - unfold is_digit at 1.
    destruct (Z.ltb_spec (code c) 48), (Z.ltb_spec 57 (code c)),
      (Z.leb_spec 48 (code c)), (Z.leb_spec (code c) 57); try lia; simpl; try done.
    destruct (Z.ltb_spec ((kMagnitudeCap - (code c - 48)) / 10) m) as [Hlt|Hge].
    + assert (kMagnitudeCap < m * 10 + (code c - 48)).
      { pose proof (Z.mul_succ_div_gt (kMagnitudeCap - (code c - 48)) 10). lia. }
      destruct (forallb is_digit text) eqn:Hd; [|done]. simpl.
      pose proof (digits_value_ge (m * 10 + (code c - 48)) text ltac:(lia) Hd).
      destruct (Z.leb_spec (digits_value (m * 10 + (code c - 48)) text) kMagnitudeCap); [lia | done].
    + apply IH. pose proof (Z.mul_div_le (kMagnitudeCap - (code c - 48)) 10). lia.
Qed.

(** an integer literal is recognised exactly when it is an optional sign
    followed by decimal digits whose unbounded value fits 64 bits (both bounds
    included), and it then has that value: the [uint64_t] accumulation never
    wraps. *)
Theorem parses_as_integer_spec text :
  parses_as_integer text =
    match integer_literal text with
    | Some v => if (INT64_MIN <=? v) && (v <=? INT64_MAX) then Some v else None
    | None => None
    end.
Proof.
  unfold parses_as_integer, integer_literal, split_sign. destruct text as [|c rest]; [done|].
  assert (INT64_MIN = - kMagnitudeCap /\ INT64_MAX = kMagnitudeCap - 1 /\ 0 < kMagnitudeCap)
    as (Hmin & Hmax & Hcap) by done.
  assert (forall digits, digits <> [] ->
    magnitude_loop 0 digits = if forallb is_digit digits && (digits_value 0 digits <=? kMagnitudeCap)
      then Some (digits_value 0 digits) else None) as Hloop
    by (intros; apply magnitude_loop_spec; done).
  assert (forall digits, forallb is_digit digits = true -> 0 <= digits_value 0 digits) as Hpos
    by (intros; apply digits_value_ge; done).
  destruct (str_eqb [c] $"-") eqn:Hm; [|destruct (str_eqb [c] $"+") eqn:Hp]; cbn [orb negb].
  1,2: destruct rest as [|d rest]; [done|].
  all: match goal with |- context [magnitude_loop 0 ?x] =>
         rewrite (Hloop x) by discriminate; specialize (Hpos x);
         rewrite (bool_decide_eq_false_2 (x = [])) by discriminate;
         generalize dependent x end; intros digits Hpos; cbn [orb].
  all: destruct (forallb is_digit _); [|done]; specialize (Hpos eq_refl); cbn [andb negb].
  all: rewrite Hmin, Hmax; case_cmp; cbn [andb]; try done; try lia; f_equal; lia.
Qed.

Example integer_bounds :
  parses_as_integer $"-9223372036854775808" = Some INT64_MIN /\
  parses_as_integer $"9223372036854775808" = None /\
  parses_as_integer $"+0012" = Some 12 /\ parses_as_integer $"-" = None.
Proof. vm_compute. by split_and!. Qed.

(** ** Names *)

Definition dot : ascii := "."%char.

Fixpoint join (tokens : list str) : str :=
  match tokens with
  | [] => []
  | [t] => t
  | t :: tokens => t ++ dot :: join tokens
  end.

Arguments join : simpl never.

Definition token_ok (t : str) : Prop :=
  match t with
  | [] => False
  | c :: r => is_token_start c = true /\ Forall (fun c => is_token_char c = true) r
  end.

Lemma is_token_start_dot c : is_token_start c = true -> c <> dot.
Proof. by intros Hc ->. Qed.

Lemma is_token_char_dot c : is_token_char c = true -> c <> dot.
Proof. by intros Hc ->. Qed.

Lemma join_cons c t tokens : join ((c :: t) :: tokens) = c :: join (t :: tokens).
Proof. by destruct tokens. Qed.

Lemma join_cons2 t t' tokens : join (t :: t' :: tokens) = t ++ dot :: join (t' :: tokens).
Proof. done. Qed.

Lemma token_ok_no_dot t : token_ok t -> dot ∉ t.
Proof.
  destruct t as [|c r]; [done|]. intros [Hc Hr] [<-|Hin]%elem_of_cons; [done|].
  rewrite Forall_forall in Hr. by apply Hr in Hin.
Qed.

(** [start]: the loop accepts tokens; otherwise it finishes one first. *)
Lemma token_loop_spec s :
  (token_loop true s = success tt <->
     exists t tokens, token_ok t /\ Forall token_ok tokens /\ s = join (t :: tokens)) /\
  (token_loop false s = success tt <->
     exists t tokens, Forall (fun c => is_token_char c = true) t /\ Forall token_ok tokens /\
       s = join (t :: tokens)).
Proof.
  induction s as [|c s [IHt IHf]]; simpl; split.
  - split; [done|]. intros ([|c t] & tokens & Hok & _ & Heq); [done|].
    by rewrite join_cons in Heq.
  - split; [|done]. intros _. by exists [], [].
  - case_decide as Hc; [|destruct (is_token_start c) eqn:Hs]; simpl.
    + split; [done|]. intros ([|c0 t] & tokens & Hok & _ & Heq); [done|].
      rewrite join_cons in Heq. injection Heq as <- _. by destruct Hok as [Hd%is_token_start_dot _].
    + rewrite IHf. split.
      * intros (t & tokens & Ht & Htok & ->). exists (c :: t), tokens. by rewrite join_cons.
      * intros ([|c0 t] & tokens & Hok & Htok & Heq); [done|]. rewrite join_cons in Heq.
        injection Heq as <- ->. destruct Hok. eauto.
    + split; [done|]. intros ([|c0 t] & tokens & Hok & _ & Heq); [done|].
      rewrite join_cons in Heq. injection Heq as <- _. destruct Hok. congruence.
  - case_decide as Hc; [|destruct (is_token_char c) eqn:Hs]; simpl.
    + rewrite IHt. split.
      * intros (t & tokens & Ht & Htok & ->). exists [], (t :: tokens).
        rewrite join_cons2. simpl. split_and!; [done | by constructor | by rewrite Hc].
      * intros ([|c0 t] & tokens & Ht & Htok & Heq).
        -- destruct tokens as [|t' tokens]; [done|]. rewrite join_cons2 in Heq. simpl in Heq.
           injection Heq as _ ->. apply Forall_cons in Htok as [? ?]. eauto.
        -- rewrite join_cons in Heq. injection Heq as <- _.
           apply Forall_cons in Ht as [Hd%is_token_char_dot _]. done.
    + rewrite IHf. split.
      * intros (t & tokens & Ht & Htok & ->). exists (c :: t), tokens. rewrite join_cons.
        split_and!; [by constructor | done | done].
      * intros ([|c0 t] & tokens & Ht & Htok & Heq).
        -- destruct tokens as [|t' tokens]; [done|]. rewrite join_cons2 in Heq. simpl in Heq.
           injection Heq as -> _. done.
        -- rewrite join_cons in Heq. injection Heq as <- ->. apply Forall_cons in Ht as [_ Ht]. eauto.
    + split; [done|]. intros ([|c0 t] & tokens & Ht & Htok & Heq).
      * destruct tokens as [|t' tokens]; [done|]. rewrite join_cons2 in Heq. simpl in Heq.
        injection Heq as -> _. done.
      * rewrite join_cons in Heq. injection Heq as <- _. apply Forall_cons in Ht as [? _]. congruence.
Qed.

Definition valid_name (n : str) : Prop := validate_parameter_name n = success tt.

Lemma last_join tokens : tokens <> [] -> Forall token_ok tokens -> last (join tokens) <> Some dot.
Proof.
  intros Hne Hok. induction Hok as [|t tokens Ht Hok IH]; [done|].
  destruct tokens as [|t' tokens].
  - change (join [t]) with t. intros Hl. apply last_Some in Hl as [l ->]. apply token_ok_no_dot in Ht. set_solver.
  - rewrite join_cons2. intros Hl. apply last_Some in Hl as [l Hl].
    destruct (join (t' :: tokens)) as [|c r] eqn:Hj using rev_ind.
    + apply Forall_cons in Hok as [Ht' _]. destruct t' as [|c t']; [done|]. by rewrite join_cons in Hj.
    + apply IH; [done|]. rewrite last_snoc.
      rewrite app_comm_cons, app_assoc in Hl. by apply app_inj_tail in Hl as [_ ->].
Qed.

Lemma valid_name_spec n :
  valid_name n <-> exists t tokens, token_ok t /\ Forall token_ok tokens /\ n = join (t :: tokens).
Proof.
  unfold valid_name, validate_parameter_name. rewrite <- (proj1 (token_loop_spec n)).
  destruct n as [|c n]; [done|].
  destruct (bool_decide (c = "."%char) || bool_decide (last (c :: n) = Some "."%char)) eqn:Hd; [|done].
  split; [done|]. intros Hok. apply (proj1 (token_loop_spec _)) in Hok as (t & tokens & Ht & Htok & Heq).
  apply orb_true_iff in Hd as [->%bool_decide_eq_true|Hl%bool_decide_eq_true]; exfalso.
  - destruct t as [|c0 t]; [done|]. rewrite join_cons in Heq. injection Heq as <- _.
    by destruct Ht as [Ht%is_token_start_dot _].
  - rewrite Heq in Hl. by apply (last_join (t :: tokens)) in Hl; [| | constructor].
Qed.

(** ** Listing *)

Definition count_from (n : nat) (s : str) : nat :=
  fold_left (fun count c => if decide (c = "."%char) then S count else count) s n.

Lemma count_from_no_dot n t : dot ∉ t -> count_from n t = n.
Proof.
  revert n. induction t as [|c t IH]; intros n Hn; [done|]. apply not_elem_of_cons in Hn as [Hc Hn].
  simpl. rewrite decide_False by done. by apply IH.
Qed.

Lemma count_tokens_join t tokens :
  dot ∉ t -> Forall token_ok tokens -> count_tokens (join (t :: tokens)) = length (t :: tokens).
Proof.
  intros Ht Htok. change (count_tokens ?s) with (count_from 1 s).
  assert (forall n, count_from n (join (t :: tokens)) = (n + length tokens)%nat) as Hgen; [|by rewrite Hgen].
  revert t Ht. induction Htok as [|t' tokens Ht' Htok IH]; intros t Ht n.
  - change (join [t]) with t. rewrite count_from_no_dot by done. simpl. lia.
  - rewrite join_cons2. unfold count_from at 1. rewrite fold_left_app.
    fold (count_from n t). rewrite count_from_no_dot by done. simpl.
    fold (count_from (S n) (join (t' :: tokens))).
    rewrite IH by (by apply token_ok_no_dot). simpl. lia.
Qed.

Lemma truncate_loop_no_dot seen k t r :
  dot ∉ t -> truncate_loop seen k (t ++ r) = t ++ truncate_loop seen k r.
Proof.
  induction t as [|c t IH]; intros Hn; [done|]. apply not_elem_of_cons in Hn as [Hc Hn].
  simpl. rewrite decide_False by done. by rewrite IH.
Qed.

Lemma truncate_join t tokens k seen :
  dot ∉ t -> Forall token_ok tokens -> (seen < k)%nat -> (k < seen + length (t :: tokens))%nat ->
  truncate_loop seen k (join (t :: tokens)) = join (take (k - seen) (t :: tokens)).
Proof.
  intros Ht Htok. revert t Ht seen. induction Htok as [|t' tokens Ht' Htok IH]; intros t Ht seen Hlt Hle.
  - simpl in Hle. lia.
  - rewrite join_cons2, truncate_loop_no_dot by done. simpl.
    destruct (decide (S seen = k)) as [<-|Hne].
    + replace (S seen - seen)%nat with 1%nat by lia. simpl. rewrite app_nil_r. by destruct tokens.
    + rewrite IH by (try (by apply token_ok_no_dot); simpl in *; lia).
      assert (k - seen = S (k - S seen))%nat as -> by lia.
      destruct (k - S seen)%nat as [|m] eqn:Hm; [lia|]. simpl. by rewrite join_cons2.
Qed.

(** The names a listing covers: all of them, or those at or below a prefix. *)
Definition listed (ps : list str) (n : str) : Prop :=
  ps = [] \/ exists p, p ∈ ps /\ (p = [] \/ n = p \/ exists r, n = p ++ dot :: r).

Lemma prefix_matches_spec n p :
  prefix_matches n p = true <-> p = [] \/ n = p \/ exists r, n = p ++ dot :: r.
Proof.
  unfold prefix_matches. case_bool_decide as Hp; [tauto|].
  destruct (str_eqb n p) eqn:Heq; [apply str_eqb_true in Heq; tauto|]. apply str_eqb_false in Heq.
  destruct (strip_prefix p n) as [r|] eqn:Hs.
  - apply strip_prefix_Some in Hs as ->. destruct r as [|c r].
    + rewrite app_nil_r in Heq. done.
    + rewrite bool_decide_eq_true. split; [intros ->; eauto|].
      intros [?|[?|(r' & Hr)]]; [done | done |]. by apply app_inv_head in Hr as [= -> _].
  - split; [done|]. intros [?|[?|(r & ->)]]; [done | done |].
    by rewrite strip_prefix_app in Hs.
Qed.

Lemma list_step_matches ps n :
  bool_decide (ps = []) || existsb (prefix_matches n) ps = true <-> listed ps n.
Proof.
  unfold listed. rewrite orb_true_iff, bool_decide_eq_true, existsb_exists.
  setoid_rewrite <- prefix_matches_spec. by setoid_rewrite list_elem_of_In.
Qed.

Lemma fold_list_step ps depth l acc :
  let r := fold_left (list_step ps depth) l acc in
  (forall x, x ∈ r.1 <-> x ∈ acc.1 \/ (x ∈ l /\ listed ps x /\
     (depth = 0%nat \/ (count_tokens x <= depth)%nat))) /\
  (forall x, x ∈ r.2 <-> x ∈ acc.2 \/ exists n, n ∈ l /\ listed ps n /\ depth <> 0%nat /\
     (depth < count_tokens n)%nat /\ x = truncate_to_depth n depth).
Proof.
  revert acc. induction l as [|n l IH]; intros [ns out]; simpl.
  - split; intros x; (split; [by left|]).
    + intros [?|[Hin _]]; [done | by apply not_elem_of_nil in Hin].
    + intros [?|(n & Hn & _)]; [done | by apply not_elem_of_nil in Hn].
  - destruct (IH (list_step ps depth (ns, out) n)) as [IH1 IH2]. clear IH. unfold list_step in *.
    destruct (bool_decide (ps = []) || existsb (prefix_matches n) ps) eqn:Hm; simpl in *.
    + apply list_step_matches in Hm. destruct (decide (depth = 0%nat)) as [Hd|Hd];
        [|destruct (Nat.leb_spec (count_tokens n) depth)]; simpl in *; split; intros x;
        rewrite ?IH1, ?IH2; rewrite ?elem_of_union, ?elem_of_singleton, ?elem_of_cons.
      * naive_solver.
      * set_solver.
      * naive_solver.
      * split; [intros [?|(n' & ? & ?)]; [by left | right; exists n'; split; [by right | done]]|].
        intros [?|(n' & [->|?]%elem_of_cons & ? & ? & ? & ?)]; [by left | lia | right; eauto 10].
      * split; [naive_solver|]. intros [?|([-> | ?] & ? & [?|?])]; [by left | done | lia | naive_solver..].
      * split.
        -- intros [[->|?]|(n' & ? & ?)]; [right; exists n; split_and!; [left|..]; done | by left |].
           right; exists n'; split; [by right | done].
        -- intros [?|(n' & [->|?]%elem_of_cons & ? & ? & ? & ?)]; [tauto | tauto | right; eauto 10].
    + assert (~ listed ps n) as Hno by (rewrite <- list_step_matches; by rewrite Hm).
      split; intros x; rewrite ?IH1, ?IH2, ?elem_of_cons.
      * split; [naive_solver|]. intros [?|([-> | ?] & ? & ?)]; [by left | done | naive_solver].
      * split; [intros [?|(n' & ? & ?)]; [by left | right; exists n'; split; [by right | done]]|].
        intros [?|(n' & [->|?]%elem_of_cons & ? & ?)]; [by left | done | right; eauto 10].
Qed.

Definition names_valid (s : ParameterStoreState) : Prop :=
  map_Forall (fun n _ => valid_name n) (parameters s).

Lemma first_invalid_prefix_spec ps :
  match first_invalid_prefix ps with
  | success _ => True
  | failure e => exists p, p ∈ ps /\ p <> [] /\ validate_parameter_name p = failure e
  end.
Proof.
  induction ps as [|p ps IH]; simpl; [done|]. case_bool_decide as Hp.
  - destruct (first_invalid_prefix ps); [done|]. destruct IH as (q & ? & ? & ?).
    exists q. split_and!; [by right | done | done].
  - destruct (validate_parameter_name p) eqn:Hv.
    + destruct (first_invalid_prefix ps); [done|]. destruct IH as (q & ? & ? & ?).
      exists q. split_and!; [by right | done | done].
    + exists p. split_and!; [by left | done | done].
Qed.

(** a listing returns, sorted and without duplicates, exactly the
    declared names at or below one of the prefixes that have at most [depth]
    tokens, and the [depth]-token prefixes of the deeper ones; depth zero is
    unlimited; it fails only on a malformed prefix. *)
Theorem list_parameters_spec ps depth s :
  names_valid s ->
  match list_parameters ps depth s with
  | success r =>
      StronglySorted str_le (names r) /\ NoDup (names r) /\
      StronglySorted str_le (prefixes r) /\ NoDup (prefixes r) /\
      (forall n, n ∈ names r <-> is_Some (parameters s !! n) /\ listed ps n /\
         (depth = 0%nat \/ (count_tokens n <= depth)%nat)) /\
      (forall p, p ∈ prefixes r <-> exists t tokens, token_ok t /\ Forall token_ok tokens /\
         is_Some (parameters s !! join (t :: tokens)) /\ listed ps (join (t :: tokens)) /\
         (0 < depth < length (t :: tokens))%nat /\ p = join (take depth (t :: tokens)))
  | failure e => exists p, p ∈ ps /\ p <> [] /\ validate_parameter_name p = failure e
  end.
Proof.
  intros Hvalid. unfold list_parameters. pose proof (first_invalid_prefix_spec ps) as Hfirst.
  destruct (first_invalid_prefix ps) as [u|e]; [|done].
  pose proof (fold_list_step ps depth (set_elements (dom (parameters s))) (∅, ∅)) as [H1 H2].
  destruct (fold_left _ _ _) as [ns out]. simpl in *.
  split_and!; try apply set_elements_sorted.
  - intros n. rewrite elem_of_set_elements, H1, elem_of_set_elements, elem_of_dom. set_solver.
  - intros p. rewrite elem_of_set_elements, H2. split.
    + intros [?|(n & Hn & Hl & Hd & Hc & ->)]; [set_solver|].
      rewrite elem_of_set_elements, elem_of_dom in Hn. destruct Hn as [st Hst].
      pose proof (Hvalid n st Hst) as Hv. apply valid_name_spec in Hv as (t & tokens & Ht & Htok & ->).
      assert (dot ∉ t) by by apply token_ok_no_dot.
      rewrite count_tokens_join in Hc by done. exists t, tokens. split_and!; try done; try lia.
      unfold truncate_to_depth. rewrite truncate_join by (done || lia).
      by rewrite Nat.sub_0_r.
    + intros (t & tokens & Ht & Htok & Hs & Hl & Hd & ->). right. exists (join (t :: tokens)).
      assert (dot ∉ t) by by apply token_ok_no_dot.
      rewrite elem_of_set_elements, elem_of_dom, count_tokens_join by done.
      destruct Hd as [Hd0 Hd1]. split_and!; try done; try lia. unfold truncate_to_depth.
      rewrite truncate_join by (done || lia). by rewrite Nat.sub_0_r.
Qed.

(** ** Store operations *)

Inductive StoreOp :=
  | Op_declare (n : str) (default_value : ParameterValue) (d : ParameterDescriptor) (ignore : bool)
  | Op_undeclare (n : str)
  | Op_set (params : list ParameterEntry)
  | Op_take_changes.

Definition store_exec (op : StoreOp) (s : ParameterStoreState) : ParameterStoreState :=
  match op with
  | Op_declare n v d i => (declare n v d i s).2
  | Op_undeclare n => (undeclare n s).2
  | Op_set params => (set_atomically params s).2
  | Op_take_changes => (take_changes s).2
  end.

(** The change sets taken so far, with the store. *)
Definition changes_taken (op : StoreOp) (s : ParameterStoreState) : list ParameterChangeSet :=
  match op with Op_take_changes => [pending_changes s] | _ => [] end.

Lemma duplicates_loop_ok seen params :
  duplicates_loop seen params = success tt ->
  NoDup (name <$> params) /\ Forall (fun p => valid_name (name p) /\ name p ∉ seen) params.
Proof.
  revert seen. induction params as [|p params IH]; intros seen; simpl; [by split; constructor|].
  destruct (validate_parameter_name (name p)) as [[]|] eqn:Hv; [|done].
  case_bool_decide as Hin; [done|]. intros [Hnd Hall]%IH. split.
  - constructor; [|done]. intros (q & Heq & Hq)%list_elem_of_fmap.
    rewrite Forall_forall in Hall. destruct (Hall q Hq) as [_ Hns]. set_solver.
  - constructor; [done|]. eapply Forall_impl; [exact Hall|]. intros q [? ?]. split; [done | set_solver].
Qed.

(** What one assignment makes of the entry it names. *)
Definition assigned (old : option StoredParameter) (v : ParameterValue) : StoredParameter :=
  match old with
  | None => MkStored v default_descriptor
  | Some f => if value_eqb (stored_value f) v then f else MkStored v (descriptor f)
  end.

Definition is_new (m : gmap str StoredParameter) (p : ParameterEntry) : bool :=
  bool_decide (m !! name p = None).

Definition is_changed (m : gmap str StoredParameter) (p : ParameterEntry) : bool :=
  match m !! name p with
  | Some f => negb (value_eqb (stored_value f) (value p))
  | None => false
  end.

Lemma fold_assign params m delta :
  NoDup (name <$> params) ->
  let r := fold_left assign_step params (m, delta) in
  (forall n, r.1 !! n =
     match find_if (fun p => str_eqb (name p) n) params with
     | Some p => Some (assigned (m !! n) (value p))
     | None => m !! n
     end) /\
  new_parameters r.2 = new_parameters delta ++ filter (fun p => is_new m p = true) params /\
  changed_parameters r.2 = changed_parameters delta ++ filter (fun p => is_changed m p = true) params /\
  deleted_parameters r.2 = deleted_parameters delta.
Proof.
  revert m delta. induction params as [|p params IH]; intros m delta Hnd.
  - simpl. by rewrite !app_nil_r.
  - rewrite fmap_cons in Hnd. apply NoDup_cons in Hnd as [Hp Hnd].
    set (m' := <[name p := assigned (m !! name p) (value p)]> m).
    assert (exists delta', assign_step (m, delta) p = (m', delta') /\
      new_parameters delta' = new_parameters delta ++ (if is_new m p then [p] else []) /\
      changed_parameters delta' = changed_parameters delta ++ (if is_changed m p then [p] else []) /\
      deleted_parameters delta' = deleted_parameters delta) as (delta' & Hstep & Hn & Hc & Hd).
    { unfold assign_step, is_new, is_changed, m'. destruct (m !! name p) as [f|] eqn:Hm; simpl.
      - destruct (value_eqb (stored_value f) (value p)) eqn:Heq; simpl.
        + exists delta. rewrite insert_id by done. by rewrite !app_nil_r.
        + eexists. split; [done|]. simpl. by rewrite !app_nil_r.
      - eexists. split; [done|]. simpl. by rewrite !app_nil_r. }
    assert (forall q, q ∈ params -> m' !! name q = m !! name q) as Hsame.
    { intros q Hq. unfold m'. rewrite lookup_insert_ne; [done|]. intros Heq. apply Hp.
      rewrite Heq. by apply list_elem_of_fmap_2. }
    change (fold_left assign_step (p :: params) (m, delta))
      with (fold_left assign_step params (assign_step (m, delta) p)). rewrite Hstep. destruct (IH m' delta' Hnd) as (I1 & I2 & I3 & I4).
    split_and!.
    + intros n. rewrite I1. simpl. destruct (str_eqb (name p) n) eqn:Hpn.
      * apply str_eqb_true in Hpn as <-.
        destruct (find_if _ params) as [q|] eqn:Hf.
        -- apply find_if_Some in Hf as [Hq Heq%str_eqb_true]. destruct Hp.
           rewrite <- Heq. by apply list_elem_of_fmap_2.
        -- unfold m'. by rewrite lookup_insert_eq.
      * apply str_eqb_false in Hpn. unfold m'. by rewrite lookup_insert_ne.
    + rewrite I2, Hn, <- app_assoc. f_equal. rewrite filter_cons.
      assert (filter (fun q => is_new m' q = true) params = filter (fun q => is_new m q = true) params) as ->.
      { apply list_filter_ext. intros q Hq. unfold is_new. by rewrite Hsame. }
      by destruct (is_new m p).
    + rewrite I3, Hc, <- app_assoc. f_equal. rewrite filter_cons.
      assert (filter (fun q => is_changed m' q = true) params = filter (fun q => is_changed m q = true) params) as ->.
      { apply list_filter_ext. intros q Hq. unfold is_changed. by rewrite Hsame. }
      by destruct (is_changed m p).
    + by rewrite I4.
Qed.

Lemma validate_ok_spec params s :
  validate params s = success tt <->
  validate_name_and_duplicates params = success tt /\ validate_loop s params = success tt.
Proof.
  unfold validate. destruct (validate_name_and_duplicates params) as [[]|]; [tauto|].
  split; [done | by intros []].
Qed.

(** What an atomic set does, as a predicate of its outcome. *)
Definition atomic_set_spec (params : list ParameterEntry) (s : ParameterStoreState)
    (r : Result ParameterChangeSet * ParameterStoreState) : Prop :=
  match r with
  | (failure e, s') => s' = s /\ validate params s = failure e
  | (success delta, s') =>
      validate params s = success tt /\
      (forall n, parameters s' !! n =
         match find_if (fun p => str_eqb (name p) n) params with
         | Some p => Some (assigned (parameters s !! n) (value p))
         | None => parameters s !! n
         end) /\
      new_parameters delta = filter (fun p => is_new (parameters s) p = true) params /\
      changed_parameters delta = filter (fun p => is_changed (parameters s) p = true) params /\
      deleted_parameters delta = [] /\
      new_parameters (pending_changes s') = new_parameters (pending_changes s) ++ new_parameters delta /\
      changed_parameters (pending_changes s') =
        changed_parameters (pending_changes s) ++ changed_parameters delta /\
      deleted_parameters (pending_changes s') = deleted_parameters (pending_changes s)
  end.

Lemma set_atomically_outcome params s : atomic_set_spec params s (set_atomically params s).
Proof.
  unfold atomic_set_spec, set_atomically, validate.
  destruct (validate_name_and_duplicates params) as [[]|e] eqn:Hd; [|done].
  destruct (validate_loop s params) as [[]|e] eqn:Hv; [|done].
  apply duplicates_loop_ok in Hd as [Hnd _].
  destruct (fold_assign params (parameters s) empty_changes Hnd) as (H1 & H2 & H3 & H4).
  destruct (fold_left assign_step params (parameters s, empty_changes)) as [candidate delta].
  simpl in *. by rewrite H2, H3, H4.
Qed.

(** C25: an atomic set either fails, leaving the store and its change log
    exactly as they were, or every assignment of the request was valid; then
    each named parameter holds its new value (kept where it compares equal to
    the old one), an unknown name is declared with the default descriptor, no
    other parameter moves, and the delta that is returned and logged names
    exactly the new and the changed parameters, in request order. *)
Theorem set_atomically_spec params s :
  match set_atomically params s with
  | (failure e, s') => s' = s /\ validate params s = failure e
  | (success delta, s') =>
      validate params s = success tt /\
      (forall n, parameters s' !! n =
         match find_if (fun p => str_eqb (name p) n) params with
         | Some p => Some (assigned (parameters s !! n) (value p))
         | None => parameters s !! n
         end) /\
      new_parameters delta = filter (fun p => is_new (parameters s) p = true) params /\
      changed_parameters delta = filter (fun p => is_changed (parameters s) p = true) params /\
      deleted_parameters delta = [] /\
      new_parameters (pending_changes s') = new_parameters (pending_changes s) ++ new_parameters delta /\
      changed_parameters (pending_changes s') =
        changed_parameters (pending_changes s) ++ changed_parameters delta /\
      deleted_parameters (pending_changes s') = deleted_parameters (pending_changes s)
  end.
Proof. exact (set_atomically_outcome params s). Qed.

(** ** Invariants of the store *)

Definition stored_wf (n : str) (st : StoredParameter) : Prop :=
  valid_name n /\ validate_value_against_descriptor (stored_value st) (descriptor st) = success tt.

Definition store_wf (s : ParameterStoreState) : Prop := map_Forall stored_wf (parameters s).

Lemma validate_loop_ok s params :
  validate_loop s params = success tt ->
  Forall (fun p => validate_assignment_locked s (name p) (value p) false = success tt) params.
Proof.
  induction params as [|p params IH]; simpl; [constructor|].
  destruct (validate_assignment_locked s (name p) (value p) false) as [[]|] eqn:Hv; [|done].
  constructor; auto.
Qed.

Lemma validate_default_descriptor v :
  validate_value_against_descriptor v default_descriptor = success tt.
Proof. by destruct v. Qed.

(** What a valid assignment requires of the entry it meets. *)
Lemma validate_assignment_ok s n v b :
  validate_assignment_locked s n v b = success tt ->
  valid_name n /\
  match parameters s !! n with
  | None => True
  | Some st => read_only (descriptor st) = false /\
      (dynamic_typing (descriptor st) = false -> is_set (stored_value st) = true ->
         type (stored_value st) = type v) /\
      validate_value_against_descriptor v (descriptor st) = success tt
  end.
Proof.
  unfold validate_assignment_locked, valid_name.
  destruct (validate_parameter_name n) as [[]|]; [|done].
  destruct (parameters s !! n) as [st|]; [|done].
  destruct (read_only (descriptor st)); [done|].
  destruct (dynamic_typing (descriptor st)), (is_set (stored_value st)); simpl; try done.
  case_bool_decide; simpl; [|done]. done.
Qed.

(** The entry an operation leaves under a name. *)
Lemma set_atomically_entry params s n st' :
  parameters (set_atomically params s).2 !! n = Some st' ->
  parameters s !! n = Some st' \/
  exists p, name p = n /\ p ∈ params /\ st' = assigned (parameters s !! n) (value p) /\
    validate_assignment_locked s n (value p) false = success tt.
Proof.
  unfold set_atomically.
  destruct (validate_name_and_duplicates params) as [[]|e] eqn:Hd; [|by left].
  destruct (validate_loop s params) as [[]|e] eqn:Hv; [|by left].
  apply duplicates_loop_ok in Hd as [Hnd _]. apply validate_loop_ok in Hv.
  destruct (fold_assign params (parameters s) empty_changes Hnd) as (H1 & _).
  destruct (fold_left assign_step params (parameters s, empty_changes)) as [candidate delta].
  simpl in *. rewrite H1. destruct (find_if _ params) as [p|] eqn:Hf; [|by left].
  apply find_if_Some in Hf as [Hp <-%str_eqb_true]. intros [= <-]. right. exists p.
  rewrite Forall_forall in Hv. auto.
Qed.

Lemma declare_entry n v d i s k st' :
  parameters (declare n v d i s).2 !! k = Some st' ->
  parameters s !! k = Some st' \/
  (parameters s !! k = None /\ k = n /\ valid_name n /\ st' = MkStored (effective_value s n v i) d /\
   validate_value_against_descriptor (stored_value st') d = success tt).
Proof.
  unfold declare, declare_locked, valid_name.
  destruct (validate_parameter_name n) as [[]|]; [|by left].
  destruct (validate_descriptor d v) as [[]|]; [|by left].
  destruct (parameters s !! n) as [st|] eqn:Hn; [by left|].
  destruct (_ && _); [by left|].
  destruct (validate_value_against_descriptor (effective_value s n v i) d) as [[]|] eqn:Hv; [|by left].
  simpl. rewrite lookup_insert_Some. intros [[-> <-]|[? ?]]; [right; auto | by left].
Qed.

Lemma undeclare_entry n s k :
  parameters (undeclare n s).2 !! k = parameters s !! k \/
  (k = n /\ parameters (undeclare n s).2 !! k = None).
Proof.
  unfold undeclare. destruct (validate_parameter_name n) as [[]|]; [|by left].
  destruct (parameters s !! n) as [st|] eqn:Hn; [|by left]. simpl.
  destruct (decide (k = n)) as [->|]; [right | left].
  - by rewrite lookup_delete_eq.
  - by rewrite lookup_delete_ne.
Qed.

(** in every history of a Node's parameter store, whatever the overrides
    and the requests, every stored parameter has a valid name and a value its
    descriptor's ranges accept. *)
Theorem store_invariant allow ovs ops : store_wf (run store_exec ops (make_store allow ovs)).
Proof.
  apply run_invariant; [|by apply map_Forall_empty]. intros op s Hs n st'. destruct op; simpl.
  - intros [?|(_ & -> & Hv & -> & Hok)]%declare_entry; [by apply Hs | by split].
  - destruct (undeclare_entry n0 s n) as [-> | [_ ->]]; [apply Hs | done].
  - intros [?|(p & _ & _ & -> & Hv)]%set_atomically_entry; [by apply Hs|].
    apply validate_assignment_ok in Hv as [Hn Hv]. split; [done|]. unfold assigned.
    destruct (parameters s !! n) as [st|] eqn:Hst; [|by apply validate_default_descriptor].
    destruct (value_eqb _ _); [by apply (Hs n st) | by apply Hv].
  - apply Hs.
Qed.

(** a declared parameter keeps its descriptor until it is undeclared by
    name; only a set that names it can change its value, never one of a
    read-only parameter, and a parameter of fixed type keeps the type of its
    value. *)
Theorem parameter_stability op s n st :
  parameters s !! n = Some st ->
  (op = Op_undeclare n /\ parameters (store_exec op s) !! n = None) \/
  exists st', parameters (store_exec op s) !! n = Some st' /\ descriptor st' = descriptor st /\
    (dynamic_typing (descriptor st) = false -> is_set (stored_value st) = true ->
       type (stored_value st') = type (stored_value st)) /\
    (st' = st \/ (read_only (descriptor st) = false /\
       exists params p, op = Op_set params /\ p ∈ params /\ name p = n /\ stored_value st' = value p)).
Proof.
  intros Hst. destruct op; simpl.
  - right. exists st. split; [|auto]. unfold declare, declare_locked.
    destruct (validate_parameter_name n0) as [[]|]; [|done].
    destruct (validate_descriptor d default_value) as [[]|]; [|done].
    destruct (parameters s !! n0) eqn:Hn; [done|].
    destruct (_ && _); [done|].
    destruct (validate_value_against_descriptor _ d) as [[]|]; [|done].
    simpl. rewrite lookup_insert_ne; [done | congruence].
  - destruct (undeclare_entry n0 s n) as [-> | [-> ->]]; [right; eauto 10 | by left].
  - right. assert (is_Some (parameters (set_atomically params s).2 !! n)) as [st' Hst'].
    { pose proof (set_atomically_outcome params s) as Hspec. unfold atomic_set_spec in Hspec.
      destruct (set_atomically params s) as [[delta|e] s'].
      - destruct Hspec as (_ & -> & _). rewrite Hst. destruct (find_if _ params); eauto.
      - destruct Hspec as [-> _]. eauto. }
    exists st'. split; [done|].
    apply set_atomically_entry in Hst' as [Hst'|(p & Hn & Hp & -> & Hv)]; [simplify_eq; auto|].
    apply validate_assignment_ok in Hv as [_ Hv]. rewrite Hst in *. destruct Hv as (Hro & Hty & _).
    simpl. destruct (value_eqb (stored_value st) (value p)); [auto|]. simpl. split_and!; [done | |].
    + intros ? ?. symmetry. auto.
    + right. eauto 10.
  - right. eauto 10.
Qed.

(** ** Accounting of the change log *)

Record StoreHistory := MkStoreHistory { store : ParameterStoreState; taken : list ParameterChangeSet }.

Definition store_history_step (op : StoreOp) (h : StoreHistory) : StoreHistory :=
  MkStoreHistory (store_exec op (store h)) (taken h ++ changes_taken op (store h)).

Definition count_name (n : str) (l : list ParameterEntry) : nat :=
  length (filter (fun p => name p = n) l).

(** Declarations and deletions of a name in everything published or pending. *)
Definition declared_times (n : str) (h : StoreHistory) : nat :=
  count_name n (concat (new_parameters <$> taken h) ++ new_parameters (pending_changes (store h))).

Definition deleted_times (n : str) (h : StoreHistory) : nat :=
  count_name n (concat (deleted_parameters <$> taken h) ++ deleted_parameters (pending_changes (store h))).

Definition is_declared (n : str) (s : ParameterStoreState) : nat :=
  match parameters s !! n with Some _ => 1 | None => 0 end.

Lemma count_name_app n l1 l2 : count_name n (l1 ++ l2) = (count_name n l1 + count_name n l2)%nat.
Proof. unfold count_name. by rewrite filter_app, length_app. Qed.

Lemma count_name_single n p : count_name n [p] = if decide (name p = n) then 1%nat else 0%nat.
Proof. unfold count_name. rewrite filter_cons. by case_decide. Qed.

(** Among distinct names, the new ones named [n]. *)
Lemma count_name_new n m params :
  NoDup (name <$> params) ->
  count_name n (filter (fun p => is_new m p = true) params) =
  match find_if (fun p => str_eqb (name p) n) params with
  | Some _ => match m !! n with None => 1%nat | Some _ => 0%nat end
  | None => 0%nat
  end.
Proof.
  induction params as [|p params IH]; [done|].
  rewrite fmap_cons. intros [Hp Hnd]%NoDup_cons. specialize (IH Hnd). simpl.
  assert (name p = n -> find_if (fun q => str_eqb (name q) n) params = None) as Hnone.
  { intros <-. apply find_if_None. intros q Hq. apply str_eqb_false. intros Heq. apply Hp.
    rewrite <- Heq. by apply list_elem_of_fmap_2. }
  rewrite filter_cons. destruct (str_eqb (name p) n) eqn:Heq.
  - apply str_eqb_true in Heq. rewrite Hnone in IH by done.
    assert (is_new m p = true <-> m !! n = None) as Hnew
      by (unfold is_new; by rewrite Heq, bool_decide_eq_true).
    case_decide as Hi; rewrite Hnew in Hi.
    + change (p :: ?l) with ([p] ++ l).
      by rewrite Hi, count_name_app, count_name_single, IH, decide_True.
    + by destruct (m !! n).
  - apply str_eqb_false in Heq. case_decide; [|done]. change (p :: ?l) with ([p] ++ l).
    by rewrite count_name_app, count_name_single, IH, decide_False.
Qed.

(** The balance one operation leaves on the pending log. *)
Definition pending_balance (n : str) (s : ParameterStoreState) : nat * nat :=
  (count_name n (new_parameters (pending_changes s)),
   (count_name n (deleted_parameters (pending_changes s)) + is_declared n s)%nat).

Lemma set_atomically_balance n params s :
  ((pending_balance n (set_atomically params s).2).1 + (pending_balance n s).2 =
   (pending_balance n s).1 + (pending_balance n (set_atomically params s).2).2)%nat.
Proof.
  pose proof (set_atomically_outcome params s) as Hspec. unfold atomic_set_spec in Hspec.
  unfold set_atomically in *.
  destruct (validate_name_and_duplicates params) as [[]|] eqn:Hd; [|simpl; lia].
  apply duplicates_loop_ok in Hd as [Hnd _].
  destruct (validate_loop s params) as [[]|]; [|simpl; lia].
  destruct (fold_left assign_step params (parameters s, empty_changes)) as [candidate delta].
  destruct Hspec as (_ & Hl & Hnew & _). simpl in *. unfold pending_balance, is_declared; simpl.
  rewrite count_name_app, Hnew, count_name_new, Hl by done.
  destruct (find_if _ params); [|lia]. destruct (parameters s !! n); simpl; lia.
Qed.

Lemma declare_balance n k v d i s :
  ((pending_balance n (declare k v d i s).2).1 + (pending_balance n s).2 =
   (pending_balance n s).1 + (pending_balance n (declare k v d i s).2).2)%nat.
Proof.
  unfold declare, declare_locked.
  destruct (validate_parameter_name k) as [[]|]; [|simpl; lia].
  destruct (validate_descriptor d v) as [[]|]; [|simpl; lia].
  destruct (parameters s !! k) eqn:Hk; [simpl; lia|].
  destruct (_ && _); [simpl; lia|].
  destruct (validate_value_against_descriptor _ d) as [[]|]; [|simpl; lia].
  unfold pending_balance, is_declared; simpl. rewrite count_name_app, count_name_single.
  simpl. case_decide as Heq.
  - subst. rewrite lookup_insert_eq, Hk. lia.
  - rewrite lookup_insert_ne by done. lia.
Qed.

Lemma undeclare_balance n k s :
  ((pending_balance n (undeclare k s).2).1 + (pending_balance n s).2 =
   (pending_balance n s).1 + (pending_balance n (undeclare k s).2).2)%nat.
Proof.
  unfold undeclare. destruct (validate_parameter_name k) as [[]|]; [|simpl; lia].
  destruct (parameters s !! k) eqn:Hk; [|simpl; lia].
  unfold pending_balance, is_declared; simpl. rewrite count_name_app, count_name_single.
  simpl. case_decide as Heq.
  - subst. rewrite lookup_delete_eq, Hk. lia.
  - rewrite lookup_delete_ne by done. lia.
Qed.

(** the change sets account for every parameter: over any history, in
    what was taken and what is pending together, a name was announced as new
    exactly as often as it was announced as deleted, plus one if it is
    declared now. *)
Theorem change_log_accounts n allow ovs ops :
  let h := run store_history_step ops (MkStoreHistory (make_store allow ovs) []) in
  declared_times n h = (deleted_times n h + is_declared n (store h))%nat.
Proof.
  apply run_invariant; [|done]. intros op h. unfold declared_times, deleted_times, store_history_step.
  rewrite !count_name_app. simpl.
  rewrite !fmap_app, !concat_app, !count_name_app.
  destruct op; simpl; unfold changes_taken; simpl; rewrite ?app_nil_r.
  - pose proof (declare_balance n n0 default_value d ignore (store h)) as Hb.
    unfold pending_balance in Hb; simpl in *. lia.
  - pose proof (undeclare_balance n n0 (store h)) as Hb. unfold pending_balance in Hb; simpl in *. lia.
  - pose proof (set_atomically_balance n params (store h)) as Hb.
    unfold pending_balance in Hb; simpl in *. lia.
  - change (count_name n []) with 0%nat. unfold is_declared; simpl. lia.
Qed.

(** ** Concrete stores *)

Definition fixed : ParameterDescriptor := MkDescriptor [] [] false false [MkIntegerRange 0 100 10] [].

Definition sample_store : ParameterStoreState :=
  run store_exec
    [Op_declare $"a.b.c" (V_Integer 10) fixed false; Op_declare $"a.x" (V_Bool true) default_descriptor false;
     Op_declare $"z" (V_String $"s") default_descriptor false] (make_store false []).

Lemma list_parameters_spec_witness :
  exists r, list_parameters [$"a"] 2 sample_store = success r /\
    names r = [$"a.x"] /\ prefixes r = [$"a.b"] /\ NoDup (names r).
Proof.
  pose proof (list_parameters_spec [$"a"] 2 sample_store) as H.
  destruct (list_parameters [$"a"] 2 sample_store) as [r|e] eqn:Hr.
  - exists r. split; [reflexivity|]. vm_compute in Hr. injection Hr as <-.
    split; [reflexivity|]. split; [reflexivity|]. apply H.
    unfold names_valid, map_Forall. intros n st Hst.
    apply elem_of_map_to_list in Hst. revert Hst. vm_compute (map_to_list _).
    rewrite !elem_of_cons. intros [[= -> _]|[[= -> _]|[[= -> _]|Hnil]]]; try reflexivity.
    by apply not_elem_of_nil in Hnil.
  - vm_compute in Hr. discriminate Hr.
Defined.

Lemma parameter_stability_witness :
  exists st', parameters (store_exec (Op_set [MkParameter $"a.x" (V_Bool false)]) sample_store) !! $"a.x" = Some st' /\
    descriptor st' = default_descriptor.
Proof.
  destruct (parameter_stability (Op_set [MkParameter $"a.x" (V_Bool false)]) sample_store $"a.x"
    (MkStored (V_Bool true) default_descriptor)) as [[H _]|(st' & H1 & H2 & _)].
  - vm_compute. reflexivity.
  - discriminate H.
  - exists st'. split; [exact H1 | exact H2].
Defined.

Example sample_set_rejected :
  code_of (set_atomically [MkParameter $"a.x" (V_Bool false); MkParameter $"a.b.c" (V_Integer 15)] sample_store).1
  = Some InvalidArgument.
Proof. vm_compute. reflexivity. Qed.

(** A Node-local override, appended behind the Context's, loses to it. *)
Example first_override_wins :
  let context_level := MkParameter $"rate"%dmw (V_Integer 1) in
  let node_local := MkParameter $"rate"%dmw (V_Integer 2) in
  (declare $"rate"%dmw (V_Integer 0) default_descriptor false
     (make_store false ([context_level] ++ [node_local]))).1 = success context_level.
Proof. reflexivity. Qed.
