(* ===== verification/Names.v ===== *)
(** * Names: logical names, remapping and their DDS transport names

    Models src/impl/name.hpp, src/impl/graph_names.hpp, the name functions of
    src/impl/node_impl.cpp and the identity part of [Context::Impl::create_node]
    (src/impl/context_impl.cpp). *)

From S2P Require Import Prelude Strings Arguments.
Local Open Scope dmw_scope.

Definition slash : ascii := "/"%char.

(** [find] of a string: does it occur. *)
Fixpoint contains (needle s : str) : bool :=
  starts_with needle s || match s with [] => false | _ :: s => contains needle s end.

(** [rfind] of a string: the text around its last occurrence. *)
Fixpoint rsplit_sub (needle s : str) : option (str * str) :=
  let here := match strip_prefix needle s with Some r => Some ([], r) | None => None end in
  match s with
  | [] => here
  | x :: s => match rsplit_sub needle s with Some (a, b) => Some (x :: a, b) | None => here end
  end.

Definition has_char (c : ascii) (s : str) : bool := bool_decide (c ∈ s).

(** ** Logical names (src/impl/name.hpp) *)

Definition has_invalid_name_syntax (value : str) : bool :=
  contains $"//" value || has_char "~"%char value || has_char "{"%char value || has_char "}"%char value.

Definition normalize_namespace (value : str) : Result str :=
  match value with
  | [] => success $"/"
  | c :: _ =>
      if has_invalid_name_syntax value then fail InvalidName "Namespace contains unsupported syntax"
      else
        let normalized := if decide (c = slash) then value else slash :: value in
        if (1 <? length normalized)%nat && bool_decide (last normalized = Some slash) then
          fail InvalidName "Namespace must not have a trailing slash"
        else success normalized
  end.

Definition resolve_name (node_namespace value : str) : Result str :=
  match value with
  | [] => fail InvalidName "Name contains unsupported syntax"
  | c :: _ =>
      if has_invalid_name_syntax value || bool_decide (last value = Some slash) then
        fail InvalidName "Name contains unsupported syntax"
      else if decide (c = slash) then success value
      else if str_eqb node_namespace $"/" then success (slash :: value)
      else success (node_namespace ++ $"/" ++ value)
  end.

(** ** Remapping (src/impl/node_impl.cpp) *)

Definition drop_leading_slash (s : str) : str :=
  match s with c :: r => if decide (c = slash) then r else s | [] => [] end.

Definition node_fqn (node_name node_namespace : str) : str :=
  let unqualified_node := drop_leading_slash node_name in
  let unqualified_namespace := drop_leading_slash node_namespace in
  match unqualified_namespace with
  | [] => unqualified_node
  | _ => unqualified_namespace ++ $"/" ++ unqualified_node
  end.

(** The source of a rule for this Node, if the rule addresses it. *)
Definition rule_source (node_name node_namespace : str) (r : RemapRule) : option str :=
  match split_at ":"%char (from r) with
  | None => Some (from r)
  | Some (scope, source) =>
      let scope := drop_leading_slash scope in
      if negb (str_eqb scope (drop_leading_slash node_name)) &&
         negb (str_eqb scope (node_fqn node_name node_namespace)) then None
      else Some source
  end.

Fixpoint remap_loop (node_name node_namespace original : str) (rules : list RemapRule) (result : str)
    : Result str :=
  match rules with
  | [] => success result
  | r :: rules =>
      match rule_source node_name node_namespace r with
      | None => remap_loop node_name node_namespace original rules result
      | Some src =>
          let? source := resolve_name node_namespace src in
          if negb (str_eqb source original) then
            remap_loop node_name node_namespace original rules result
          else
            let? target := resolve_name node_namespace (to r) in
            remap_loop node_name node_namespace original rules target
      end
  end.

Definition resolve_remapped_name (node_name node_namespace : str) (rules : list RemapRule) (value : str)
    : Result str :=
  let? original := resolve_name node_namespace value in
  remap_loop node_name node_namespace original rules original.

(** ** Node identity (Context::Impl::create_node) *)

Record NodeOptions := MkNodeOptions {
  option_name : str;
  option_namespace : str;
  option_arguments : Arguments;
  use_global_arguments : bool;
  option_allow_undeclared : bool }.

Record NodeIdentity := MkNodeIdentity {
  identity_name : str;
  identity_namespace : str;
  identity_remaps : list RemapRule;
  identity_overrides : list ParameterOverride }.

Definition non_empty (s fallback : str) : str := if bool_decide (s = []) then fallback else s.

(** Everything [create_node] computes before it takes the operation guard. *)
Definition node_identity (global : Arguments) (o : NodeOptions) : Result NodeIdentity :=
  let '(name, ns, rules, overrides) :=
    if use_global_arguments o then
      (non_empty (node_name_remap global) (option_name o),
       non_empty (namespace_remap global) (option_namespace o), remaps global, parameter_overrides global)
    else (option_name o, option_namespace o, [], []) in
  let name := non_empty (node_name_remap (option_arguments o)) name in
  let ns := non_empty (namespace_remap (option_arguments o)) ns in
  let rules := rules ++ remaps (option_arguments o) in
  let overrides := overrides ++ parameter_overrides (option_arguments o) in
  if bool_decide (name = []) || has_invalid_name_syntax name || has_char slash name then
    fail InvalidName "Node name contains unsupported syntax"
  else
    let? normalized := normalize_namespace ns in
    success (MkNodeIdentity name normalized rules overrides).

Definition fully_qualified_name (i : NodeIdentity) : str :=
  if str_eqb (identity_namespace i) $"/" then slash :: identity_name i
  else identity_namespace i ++ $"/" ++ identity_name i.

(** ** Transport names *)

Inductive RuntimeMode := DDS | ROS2.

#[export] Instance RuntimeMode_eq_dec : EqDecision RuntimeMode.
Proof. solve_decision. Defined.

Inductive GraphEndpointRole := Topic | ServiceRequest | ServiceResponse.

#[export] Instance GraphEndpointRole_eq_dec : EqDecision GraphEndpointRole.
Proof. solve_decision. Defined.

Record NormalizedEndpointName := MkNormalized { logical_name : str; role : GraphEndpointRole }.

Definition dds_topic_name (mode : RuntimeMode) (logical : str) : str :=
  let path := drop 1 logical in
  match mode with ROS2 => $"rt/" ++ path | DDS => path end.

Definition service_topic_name (mode : RuntimeMode) (logical : str) (request : bool) : str :=
  let path := drop 1 logical in
  match mode with
  | ROS2 => (if request then $"rq/" else $"rr/") ++ path ++ (if request then $"Request" else $"Reply")
  | DDS => path ++ (if request then $"_Request" else $"_Reply")
  end.

Definition name_starts_with (value prefix : str) : bool :=
  match strip_prefix prefix value with Some _ => true | None => false end.

Definition name_ends_with (value suffix : str) : bool :=
  match strip_suffix suffix value with Some _ => true | None => false end.

Definition finish_name (n : NormalizedEndpointName) : option NormalizedEndpointName :=
  if (length (logical_name n) <=? 1)%nat then None else Some n.

(** [substr(pos, len)] with the offsets of the code. *)
Definition substr (s : str) (pos len : nat) : str := take len (drop pos s).

Definition normalize_endpoint_name (mode : RuntimeMode) (dds_name : str) : option NormalizedEndpointName :=
  let size := length dds_name in
  if decide (mode = ROS2) then
    if name_starts_with dds_name $"rt/" then
      finish_name (MkNormalized (slash :: drop 3 dds_name) Topic)
    else if name_starts_with dds_name $"rq/" && name_ends_with dds_name $"Request" then
      finish_name (MkNormalized (slash :: substr dds_name 3 (size - 3 - 7)) ServiceRequest)
    else if name_starts_with dds_name $"rr/" && name_ends_with dds_name $"Reply" then
      finish_name (MkNormalized (slash :: substr dds_name 3 (size - 3 - 5)) ServiceResponse)
    else None
  else if name_ends_with dds_name $"_Request" then
    finish_name (MkNormalized (slash :: substr dds_name 0 (size - 8)) ServiceRequest)
  else if name_ends_with dds_name $"_Reply" then
    finish_name (MkNormalized (slash :: substr dds_name 0 (size - 6)) ServiceResponse)
  else finish_name (MkNormalized (slash :: dds_name) Topic).

(** ** Action endpoints *)

Inductive ActionEndpointRole :=
  | SendGoalRequest | SendGoalResponse | CancelGoalRequest | CancelGoalResponse
  | GetResultRequest | GetResultResponse | Feedback | Status.

#[export] Instance ActionEndpointRole_eq_dec : EqDecision ActionEndpointRole.
Proof. solve_decision. Defined.

Record ActionEndpointClassification := MkClassification {
  action_name : str; action_role : ActionEndpointRole }.

Record ActionEndpointNames := MkActionNames {
  send_goal : str; cancel_goal : str; get_result : str; feedback : str; status : str }.

Definition derive_action_endpoint_names (action_fqn : str) : option ActionEndpointNames :=
  if (length action_fqn <=? 1)%nat || negb (bool_decide (head action_fqn = Some slash))
     || bool_decide (last action_fqn = Some slash) then None
  else if contains $"/_action" action_fqn then None
  else
    let prefix := action_fqn ++ $"/_action/" in
    Some (MkActionNames (prefix ++ $"send_goal") (prefix ++ $"cancel_goal") (prefix ++ $"get_result")
            (prefix ++ $"feedback") (prefix ++ $"status")).

Definition service_role (suffix : str) (request : bool) : option ActionEndpointRole :=
  if str_eqb suffix $"send_goal" then Some (if request then SendGoalRequest else SendGoalResponse)
  else if str_eqb suffix $"cancel_goal" then Some (if request then CancelGoalRequest else CancelGoalResponse)
  else if str_eqb suffix $"get_result" then Some (if request then GetResultRequest else GetResultResponse)
  else None.

Definition topic_role (suffix : str) : option ActionEndpointRole :=
  if str_eqb suffix $"feedback" then Some Feedback
  else if str_eqb suffix $"status" then Some Status else None.

Definition classify_action_endpoint (endpoint : NormalizedEndpointName)
    : option ActionEndpointClassification :=
  match rsplit_sub $"/_action/" (logical_name endpoint) with
  | None => None
  | Some ([], _) => None
  | Some (action, suffix) =>
      if bool_decide (suffix = []) || has_char slash suffix then None
      else
        match (match role endpoint with
               | Topic => topic_role suffix
               | ServiceRequest => service_role suffix true
               | ServiceResponse => service_role suffix false
               end) with
        | Some r => Some (MkClassification action r)
        | None => None
        end
  end.

(** ** Transport names are a faithful encoding *)

(** The transport name the code gives an endpoint of a role. *)
Definition transport_name (mode : RuntimeMode) (n : NormalizedEndpointName) : str :=
  match role n with
  | Topic => dds_topic_name mode (logical_name n)
  | ServiceRequest => service_topic_name mode (logical_name n) true
  | ServiceResponse => service_topic_name mode (logical_name n) false
  end.

Definition absolute (s : str) : Prop := exists p, p <> [] /\ s = slash :: p.

(** In DDS mode a topic name that ends like a service name is ambiguous. *)
Definition unambiguous (mode : RuntimeMode) (n : NormalizedEndpointName) : Prop :=
  mode = DDS -> role n = Topic ->
  name_ends_with (logical_name n) $"_Request" = false /\ name_ends_with (logical_name n) $"_Reply" = false.

Lemma name_starts_with_app p s : name_starts_with (p ++ s) p = true.
Proof. unfold name_starts_with. by rewrite strip_prefix_app. Qed.

Lemma name_ends_with_app p s : name_ends_with (s ++ p) p = true.
Proof. unfold name_ends_with. by rewrite strip_suffix_app. Qed.

Lemma name_ends_with_true s p : name_ends_with s p = true <-> exists r, s = r ++ p.
Proof.
  unfold name_ends_with. destruct (strip_suffix p s) as [r|] eqn:Hs.
  - apply strip_suffix_Some in Hs. split; [eauto | done].
  - split; [done|]. intros [r ->]. by rewrite strip_suffix_app in Hs.
Qed.

Lemma name_starts_with_true s p : name_starts_with s p = true <-> exists r, s = p ++ r.
Proof.
  unfold name_starts_with. destruct (strip_prefix p s) as [r|] eqn:Hs.
  - apply strip_prefix_Some in Hs. simpl in Hs. split; [by eauto | done].
  - split; [done|]. intros [r ->]. by rewrite strip_prefix_app in Hs.
Qed.

(** Two different endings of the same length cannot both match. *)
Lemma name_ends_with_other s p q :
  length p = length q -> p <> q -> name_ends_with (s ++ p) q = false.
Proof.
  intros Hlen Hne. apply not_true_is_false. rewrite name_ends_with_true.
  intros [r Hr]. apply app_inj_2 in Hr as [_ ?]; done.
Qed.

Lemma finish_name_spec p r : p <> [] -> finish_name (MkNormalized (slash :: p) r) = Some (MkNormalized (slash :: p) r).
Proof. intros Hp. unfold finish_name; simpl. by destruct p. Qed.

Lemma finish_name_Some n m : finish_name n = Some m -> m = n /\ (1 < length (logical_name n))%nat.
Proof. unfold finish_name. destruct (Nat.leb_spec (length (logical_name n)) 1); [done|]. by intros [= <-]. Qed.

(** The middle of a string between a prefix and a suffix of known lengths. *)
Lemma substr_between n k p m q :
  length p = n -> length q = k -> substr (p ++ m ++ q) n (length (p ++ m ++ q) - n - k) = m.
Proof.
  intros <- <-. unfold substr. rewrite !length_app.
  replace (length p + (length m + length q) - length p - length q)%nat with (length m) by lia.
  by rewrite drop_app_length, take_app_length.
Qed.

Lemma substr_head k m q : length q = k -> substr (m ++ q) 0 (length (m ++ q) - k) = m.
Proof.
  intros Hq. pose proof (substr_between 0 k [] m q eq_refl Hq) as H. simpl in H.
  by rewrite Nat.sub_0_r in H.
Qed.

Lemma ends_with_drop_slash p q : name_ends_with (slash :: p) q = false -> name_ends_with p q = false.
Proof.
  intros Hf. apply not_true_is_false. rewrite name_ends_with_true. intros [r ->].
  assert (name_ends_with (slash :: r ++ q) q = true) by (apply (name_ends_with_app q (slash :: r))). congruence.
Qed.

Lemma reply_not_request s : name_ends_with (s ++ $"_Reply") $"_Request" = false.
Proof. unfold name_ends_with, strip_suffix. rewrite rev_app_distr. reflexivity. Qed.

Lemma normalize_transport mode n :
  absolute (logical_name n) -> unambiguous mode n ->
  normalize_endpoint_name mode (transport_name mode n) = Some n.
Proof.
  destruct n as [l r]. intros (p & Hp & Hl) Hun. simpl in Hl. subst l.
  unfold transport_name, dds_topic_name, service_topic_name, normalize_endpoint_name, unambiguous in *.
  simpl role in *. simpl logical_name in *. change (drop 1 (slash :: p)) with p. destruct mode, r; simpl decide; cbn iota.
  - destruct (Hun eq_refl eq_refl) as [H1%ends_with_drop_slash H2%ends_with_drop_slash].
    rewrite H1, H2. by apply finish_name_spec.
  - rewrite name_ends_with_app, substr_head by done. by apply finish_name_spec.
  - rewrite reply_not_request, name_ends_with_app, substr_head by done. by apply finish_name_spec.
  - rewrite name_starts_with_app. by apply finish_name_spec.
  - assert (name_starts_with ($"rq/" ++ p ++ $"Request") $"rt/" = false) as -> by reflexivity.
    rewrite name_starts_with_app, app_assoc, name_ends_with_app, <- app_assoc. cbn [andb].
    rewrite (substr_between 3 7) by done. by apply finish_name_spec.
  - assert (name_starts_with ($"rr/" ++ p ++ $"Reply") $"rt/" = false) as -> by reflexivity.
    assert (name_starts_with ($"rr/" ++ p ++ $"Reply") $"rq/" = false) as -> by reflexivity. cbn [andb].
    rewrite name_starts_with_app, app_assoc, name_ends_with_app, <- app_assoc. cbn [andb].
    rewrite (substr_between 3 5) by done. by apply finish_name_spec.
Qed.

Lemma finish_inv s r n :
  finish_name (MkNormalized (slash :: s) r) = Some n ->
  n = MkNormalized (slash :: s) r /\ absolute (logical_name n).
Proof.
  intros [-> Hlen]%finish_name_Some. split; [done|]. simpl in *. exists s. split; [|done].
  intros ->. simpl in Hlen. lia.
Qed.

(** A prefix and a suffix that do not overlap. *)
Lemma prefix_suffix_split d p q :
  name_starts_with d p = true -> name_ends_with d q = true ->
  (length p + length q <= length d)%nat -> exists m, d = p ++ m ++ q.
Proof.
  intros [r ->]%name_starts_with_true [r' Hr']%name_ends_with_true Hlen.
  rewrite length_app in Hlen. exists (take (length r - length q) r). f_equal.
  rewrite <- (take_drop (length r - length q) r) at 1. f_equal.
  assert (length p + length r = length r' + length q)%nat as Hl.
  { apply (f_equal length) in Hr'. by rewrite !length_app in Hr'. }
  apply (f_equal (drop (length p + (length r - length q)))) in Hr'.
  rewrite <- drop_drop, drop_app_length in Hr'. rewrite Hr'.
  replace (length p + (length r - length q))%nat with (length r') by lia.
  by rewrite drop_app_length.
Qed.

(** the transport name of an endpoint determines its logical name and its
    role: normalising the name the code gave a topic, a service request or a
    service response returns them, in both runtime modes (in DDS mode, for a
    topic that does not end like a service); and a name that normalises to an
    endpoint is the transport name of that endpoint. *)
Theorem transport_roundtrip mode n d :
  (absolute (logical_name n) -> unambiguous mode n ->
     normalize_endpoint_name mode (transport_name mode n) = Some n) /\
  (normalize_endpoint_name mode d = Some n -> transport_name mode n = d /\ absolute (logical_name n)).
Proof.
  split; [apply normalize_transport|]. unfold normalize_endpoint_name.
  destruct mode; simpl decide; cbn iota.
  - destruct (name_ends_with d $"_Request") eqn:H1; [|destruct (name_ends_with d $"_Reply") eqn:H2].
    + apply name_ends_with_true in H1 as [r ->]. rewrite substr_head by done.
      by intros [-> ?]%finish_inv.
    + apply name_ends_with_true in H2 as [r ->]. rewrite substr_head by done.
      by intros [-> ?]%finish_inv.
    + by intros [-> ?]%finish_inv.
  - destruct (name_starts_with d $"rt/") eqn:H1.
    + apply name_starts_with_true in H1 as [r ->]. by intros [-> ?]%finish_inv.
    + destruct (name_starts_with d $"rq/" && name_ends_with d $"Request") eqn:H2;
        [|destruct (name_starts_with d $"rr/" && name_ends_with d $"Reply") eqn:H3; [|done]].
      * apply andb_true_iff in H2 as [Ha Hb]. intros [-> Habs]%finish_inv.
        destruct (prefix_suffix_split d $"rq/" $"Request" Ha Hb) as [m ->].
        { destruct Habs as (x & Hx & Heq). simpl in Heq. injection Heq as Heq.
          destruct (decide (3 + 7 <= length d)%nat); [done|]. destruct Hx. rewrite <- Heq.
          unfold substr. by replace (length d - 3 - 7)%nat with 0%nat by lia. }
        split; [|done]. by rewrite (substr_between 3 7) by done.
      * apply andb_true_iff in H3 as [Ha Hb]. intros [-> Habs]%finish_inv.
        destruct (prefix_suffix_split d $"rr/" $"Reply" Ha Hb) as [m ->].
        { destruct Habs as (x & Hx & Heq). simpl in Heq. injection Heq as Heq.
          destruct (decide (3 + 5 <= length d)%nat); [done|]. destruct Hx. rewrite <- Heq.
          unfold substr. by replace (length d - 3 - 5)%nat with 0%nat by lia. }
        split; [|done]. by rewrite (substr_between 3 5) by done.
Qed.

(** A DDS topic whose name ends like a service is read back as one. *)
Example dds_topic_taken_for_service :
  normalize_endpoint_name DDS (dds_topic_name DDS $"/a_Request") = Some (MkNormalized $"/a" ServiceRequest).
Proof. vm_compute. reflexivity. Qed.

(** ** Action endpoints *)

Lemma rsplit_sub_app needle a s x y :
  rsplit_sub needle s = Some (x, y) -> rsplit_sub needle (a ++ s) = Some (a ++ x, y).
Proof. intros Hs. induction a as [|c a IH]; simpl; [done|]. by rewrite IH. Qed.

Lemma rsplit_sub_Some needle s x y : rsplit_sub needle s = Some (x, y) -> s = x ++ needle ++ y.
Proof.
  revert x y. induction s as [|c s IH]; intros x y; simpl.
  - destruct (strip_prefix needle []) as [r|] eqn:Hp; [|done]. apply strip_prefix_Some in Hp.
    intros [= <- <-]. done.
  - destruct (rsplit_sub needle s) as [[a b]|] eqn:Hs.
    + intros [= <- <-]. by rewrite (IH a b).
    + destruct (strip_prefix needle (c :: s)) as [r|] eqn:Hp; [|done].
      apply strip_prefix_Some in Hp. by intros [= <- <-].
Qed.

(** The endpoint names of an action with their roles. *)
Definition action_endpoints (names : ActionEndpointNames) : list (NormalizedEndpointName * ActionEndpointRole) :=
  [(MkNormalized (send_goal names) ServiceRequest, SendGoalRequest);
   (MkNormalized (send_goal names) ServiceResponse, SendGoalResponse);
   (MkNormalized (cancel_goal names) ServiceRequest, CancelGoalRequest);
   (MkNormalized (cancel_goal names) ServiceResponse, CancelGoalResponse);
   (MkNormalized (get_result names) ServiceRequest, GetResultRequest);
   (MkNormalized (get_result names) ServiceResponse, GetResultResponse);
   (MkNormalized (feedback names) Topic, Feedback);
   (MkNormalized (status names) Topic, Status)].

Lemma classify_suffix action suffix r :
  action <> [] -> suffix <> [] -> has_char slash suffix = false ->
  rsplit_sub $"/_action/" ($"/_action/" ++ suffix) = Some ([], suffix) ->
  classify_action_endpoint (MkNormalized (action ++ $"/_action/" ++ suffix) r) =
  match (match r with
         | Topic => topic_role suffix
         | ServiceRequest => service_role suffix true
         | ServiceResponse => service_role suffix false end) with
  | Some ar => Some (MkClassification action ar)
  | None => None
  end.
Proof.
  intros Ha Hs Hc Hr. unfold classify_action_endpoint. simpl logical_name.
  rewrite (rsplit_sub_app _ _ _ _ _ Hr), app_nil_r.
  destruct action; [done|]. by rewrite bool_decide_eq_false_2, Hc.
Qed.

(** the derived endpoint names of an action are classified back to that
    action and to the role each plays; and an endpoint that is classified lies
    directly under [<action>/_action/], for a non-empty action name. *)
Theorem action_names_classified fqn names :
  derive_action_endpoint_names fqn = Some names ->
  Forall (fun '(n, r) => classify_action_endpoint n = Some (MkClassification fqn r))
    (action_endpoints names) /\
  (forall n c, classify_action_endpoint n = Some c -> action_name c = fqn ->
     exists r, (n, r) ∈ action_endpoints names /\ r = action_role c).
Proof.
  intros Hd. assert (fqn <> []) as Hne by by intros ->. revert Hd.
  unfold derive_action_endpoint_names.
  destruct (_ || _); [done|]. destruct (contains _ _); [done|]. intros [= <-]. split.
  - unfold action_endpoints. cbn [send_goal cancel_goal get_result feedback status].
    rewrite <- !app_assoc.
    repeat (apply Forall_cons; split; [rewrite classify_suffix by (done || reflexivity); reflexivity|]).
    by apply Forall_nil.
  - intros [l r] c. unfold classify_action_endpoint. simpl logical_name.
    destruct (rsplit_sub $"/_action/" l) as [[[|a0 a] suffix]|] eqn:Hs; [done | | done].
    apply rsplit_sub_Some in Hs as ->. destruct (_ || _); [done|]. simpl role.
    unfold topic_role, service_role, action_endpoints.
    cbn [send_goal cancel_goal get_result feedback status]. rewrite <- !app_assoc.
    destruct r; repeat case_match; try done; intros [= <-]; simpl; intros <-;
      repeat match goal with H : str_eqb suffix _ = true |- _ => apply str_eqb_true in H; subst suffix end;
      simplify_eq; eexists; (split; [|reflexivity]); set_solver.
Qed.

Lemma action_names_classified_witness :
  exists names, derive_action_endpoint_names $"/ns/fib" = Some names /\
    Forall (fun '(n, r) => classify_action_endpoint n = Some (MkClassification $"/ns/fib" r))
      (action_endpoints names).
Proof.
  eexists. split; [vm_compute; reflexivity|].
  apply (action_names_classified $"/ns/fib"). vm_compute. reflexivity.
Defined.

(** ** Name resolution *)

Lemma contains_app needle a s : contains needle s = true -> contains needle (a ++ s) = true.
Proof. intros Hs. induction a as [|c a IH]; [done|]. simpl. by rewrite IH, orb_true_r. Qed.

Lemma starts_with_two c d s : starts_with [c; d] s = true <-> exists r, s = c :: d :: r.
Proof.
  unfold starts_with. destruct (strip_prefix [c; d] s) as [r|] eqn:Hs.
  - apply strip_prefix_Some in Hs. simpl in Hs. split; [by eauto | done].
  - split; [done|]. intros [r ->]. change (c :: d :: r) with ([c; d] ++ r) in Hs.
    by rewrite strip_prefix_app in Hs.
Qed.

(** No doubled slash is created by joining at a single one. *)
Lemma contains_slashes_join a b :
  last a <> Some slash -> head b <> Some slash ->
  contains $"//" (a ++ slash :: b) = contains $"//" a || contains $"//" b.
Proof.
  intros Ha Hb. change $"//" with [slash; slash]. induction a as [|c a IH].
  - simpl. destruct (starts_with [slash; slash] (slash :: b)) eqn:Hs; [|done].
    apply starts_with_two in Hs as [r Hr]. injection Hr as ->. by simpl in Hb.
  - simpl. rewrite IH.
    + rewrite orb_assoc. f_equal. f_equal. destruct a as [|y a]; simpl.
      * destruct (starts_with [slash; slash] [c; slash]) eqn:Hs.
        -- apply starts_with_two in Hs as [r [= -> ->]]. by simpl in Ha.
        -- unfold starts_with in *; simpl in *. by repeat case_decide.
      * unfold starts_with; simpl. by repeat case_decide.
    + destruct a; [done|]. exact Ha.
Qed.

Lemma has_char_app c a b : has_char c (a ++ b) = has_char c a || has_char c b.
Proof.
  unfold has_char. rewrite <- bool_decide_or. apply bool_decide_ext. apply elem_of_app.
Qed.

Lemma invalid_syntax_join a b :
  last a <> Some slash -> head b <> Some slash ->
  has_invalid_name_syntax (a ++ slash :: b) = has_invalid_name_syntax a || has_invalid_name_syntax b.
Proof.
  intros Ha Hb. unfold has_invalid_name_syntax. rewrite contains_slashes_join by done.
  change (slash :: b) with ([slash] ++ b). rewrite !has_char_app.
  change (has_char "~"%char [slash]) with false. change (has_char "{"%char [slash]) with false.
  change (has_char "}"%char [slash]) with false.
  destruct (contains _ a), (contains _ b), (has_char "~"%char a), (has_char "~"%char b),
    (has_char "{"%char a), (has_char "{"%char b), (has_char "}"%char a), (has_char "}"%char b); done.
Qed.

(** A namespace as [normalize_namespace] leaves it. *)
Definition normalized_namespace (ns : str) : Prop :=
  ns = $"/" \/ (exists p, p <> [] /\ ns = slash :: p /\ has_invalid_name_syntax ns = false /\
                 last ns <> Some slash).

(** A fully qualified name: absolute, valid syntax, no trailing slash. *)
Definition qualified (s : str) : Prop :=
  absolute s /\ has_invalid_name_syntax s = false /\ last s <> Some slash.

Lemma normalize_namespace_ok v ns : normalize_namespace v = success ns -> normalized_namespace ns.
Proof.
  unfold normalize_namespace. destruct v as [|c v]; [intros [= <-]; by left|].
  destruct (has_invalid_name_syntax (c :: v)) eqn:Hi; [done|].
  case_decide as Hc; subst.
  - destruct (_ && _) eqn:Hs; [done|]. intros [= <-]. destruct v as [|d v]; [by left|]. right.
    exists (d :: v). split_and!; [done | done | done |].
    simpl in Hs. by apply bool_decide_eq_false in Hs.
  - destruct (_ && _) eqn:Hs; [done|]. intros [= <-]. right. exists (c :: v). simpl in Hs.
    apply bool_decide_eq_false in Hs. split_and!; [done | done | | exact Hs].
    change (slash :: c :: v) with ([] ++ slash :: c :: v).
    rewrite invalid_syntax_join; [by rewrite Hi | done | simpl; congruence].
Qed.

Lemma resolve_name_ok ns v r :
  normalized_namespace ns -> resolve_name ns v = success r -> qualified r.
Proof.
  intros Hns. unfold resolve_name. destruct v as [|c v]; [done|].
  destruct (has_invalid_name_syntax (c :: v)) eqn:Hi; [done|]. simpl.
  case_bool_decide as Hl; [done|]. simpl. case_decide as Hc; subst.
  - intros [= <-]. split_and!; [|done | done]. exists v. split; [|done]. intros ->. by simpl in Hl.
  - assert (has_invalid_name_syntax (slash :: c :: v) = false) as Hs.
    { change (slash :: c :: v) with ([] ++ slash :: c :: v).
      rewrite invalid_syntax_join; [by rewrite Hi | done | simpl; congruence]. }
    destruct (str_eqb ns $"/") eqn:Hn.
    + intros [= <-]. split_and!; [by exists (c :: v) | done | exact Hl].
    + apply str_eqb_false in Hn. destruct Hns as [?|(p & Hp & -> & Hok & Hlast)]; [done|].
      intros [= <-]. split_and!.
      * exists (p ++ $"/" ++ c :: v). split; [by destruct p | done].
      * change (has_invalid_name_syntax ((slash :: p) ++ slash :: c :: v) = false).
        rewrite invalid_syntax_join; [by rewrite Hok, Hi | done | simpl; congruence].
      * change (last ((slash :: p) ++ ($"/" ++ c :: v)) <> Some slash).
        rewrite app_assoc, last_app. destruct (last (c :: v)) eqn:Hcv; [done|]. by apply last_None in Hcv.
Qed.

Lemma resolve_qualified ns r : qualified r -> resolve_name ns r = success r.
Proof.
  intros ((p & Hp & ->) & Hi & Hl). unfold resolve_name. rewrite Hi. simpl orb.
  by rewrite bool_decide_eq_false_2.
Qed.

(** in a normalised namespace, a name resolves to a fully qualified name
    or is refused; resolving again changes nothing, whatever the namespace;
    [normalize_namespace] only yields such namespaces and keeps them. *)
Theorem resolve_name_spec raw ns v r :
  normalize_namespace raw = success ns -> resolve_name ns v = success r ->
  qualified r /\ (forall ns', resolve_name ns' r = success r) /\ normalize_namespace ns = success ns.
Proof.
  intros Hns%normalize_namespace_ok Hr. pose proof (resolve_name_ok ns v r Hns Hr) as Hq.
  split_and!; [done | by intros; apply resolve_qualified |].
  destruct Hns as [->|(p & Hp & -> & Hi & Hl)]; [done|].
  unfold normalize_namespace. rewrite Hi. simpl decide. cbn iota.
  rewrite (bool_decide_eq_false_2 _ Hl). by rewrite andb_false_r.
Qed.

Lemma resolve_name_spec_witness : qualified $"/ns/a/b".
Proof. apply (resolve_name_spec $"ns" $"/ns" $"a/b"); vm_compute; reflexivity. Defined.

(** ** Remapping *)

(** A rule decides a name: it addresses the Node and its source is the name. *)
Definition rule_matches (node_name ns original : str) (r : RemapRule) : Prop :=
  exists src, rule_source node_name ns r = Some src /\ resolve_name ns src = success original.

Lemma resolve_name_error ns v e : resolve_name ns v = failure e -> error_code e = InvalidName.
Proof.
  unfold resolve_name, fail. intros H. repeat case_match; by simplify_eq.
Qed.

Lemma remap_loop_success node_name ns original rules result0 result :
  remap_loop node_name ns original rules result0 = success result ->
  (result = result0 /\ Forall (fun r => ~ rule_matches node_name ns original r) rules) \/
  exists l1 r l2, rules = l1 ++ r :: l2 /\ rule_matches node_name ns original r /\
    resolve_name ns (to r) = success result /\
    Forall (fun r => ~ rule_matches node_name ns original r) l2.
Proof.
  revert result0. induction rules as [|r rules IH]; intros result0; simpl.
  - intros [= ->]. by left.
  - assert (forall acc, ~ rule_matches node_name ns original r ->
      remap_loop node_name ns original rules acc = success result ->
      (result = acc /\ Forall (fun r => ~ rule_matches node_name ns original r) (r :: rules)) \/
      exists l1 r' l2, r :: rules = l1 ++ r' :: l2 /\ rule_matches node_name ns original r' /\
        resolve_name ns (to r') = success result /\
        Forall (fun r => ~ rule_matches node_name ns original r) l2) as Hskip.
    { intros acc Hno [[-> Hall]|(l1 & r' & l2 & -> & ?)]%IH.
      - left. split; [done | by constructor].
      - right. by exists (r :: l1), r', l2. }
    destruct (rule_source node_name ns r) as [src|] eqn:Hsrc.
    + destruct (resolve_name ns src) as [source|e] eqn:Hres; [|done].
      destruct (str_eqb source original) eqn:Heq; simpl.
      * apply str_eqb_true in Heq as ->.
        destruct (resolve_name ns (to r)) as [target|e] eqn:Ht; [|done].
        assert (rule_matches node_name ns original r) as Hm by by exists src.
        intros [[-> Hall]|(l1 & r' & l2 & -> & ?)]%IH.
        -- right. by exists [], r, rules.
        -- right. by exists (r :: l1), r', l2.
      * apply str_eqb_false in Heq. apply Hskip. intros (src' & Hs' & Hr'). congruence.
    + apply Hskip. intros (src' & Hs' & _). congruence.
Qed.

Lemma remap_loop_error node_name ns original rules result0 e :
  remap_loop node_name ns original rules result0 = failure e -> error_code e = InvalidName.
Proof.
  revert result0. induction rules as [|r rules IH]; intros result0; simpl; [done|].
  destruct (rule_source node_name ns r) as [src|]; [|apply IH].
  destruct (resolve_name ns src) as [source|e'] eqn:Hs; [|intros [= <-]; by apply resolve_name_error in Hs].
  destruct (negb _); [apply IH|].
  destruct (resolve_name ns (to r)) as [target|e'] eqn:Ht; [apply IH|].
  intros [= <-]. by apply resolve_name_error in Ht.
Qed.

Lemma remap_loop_filter node_name ns original rules result0 :
  remap_loop node_name ns original rules result0 =
  remap_loop node_name ns original (filter (fun r => is_Some (rule_source node_name ns r)) rules) result0.
Proof.
  revert result0. induction rules as [|r rules IH]; intros result0; [done|].
  rewrite filter_cons. simpl. case_decide as Hs.
  - simpl. destruct (rule_source node_name ns r) as [src|]; [|done].
    repeat case_match; auto.
  - destruct (rule_source node_name ns r) as [src|]; [by destruct Hs|]. apply IH.
Qed.

(** rules never chain and the last matching one wins: a remapped name is
    the original resolved name when no rule of this Node matches it, and
    otherwise the resolved target of the last one that does; rules scoped to
    other Nodes, valid or not, are ignored; every failure is [InvalidName]. *)
Theorem remap_last_match_wins node_name ns rules v :
  match resolve_remapped_name node_name ns rules v with
  | success result =>
      exists original, resolve_name ns v = success original /\
        ((result = original /\ Forall (fun r => ~ rule_matches node_name ns original r) rules) \/
         exists l1 r l2, rules = l1 ++ r :: l2 /\ rule_matches node_name ns original r /\
           resolve_name ns (to r) = success result /\
           Forall (fun r => ~ rule_matches node_name ns original r) l2)
  | failure e => error_code e = InvalidName
  end /\
  resolve_remapped_name node_name ns rules v =
  resolve_remapped_name node_name ns (filter (fun r => is_Some (rule_source node_name ns r)) rules) v.
Proof.
  unfold resolve_remapped_name. destruct (resolve_name ns v) as [original|e] eqn:Hv.
  - split; [|apply remap_loop_filter].
    destruct (remap_loop node_name ns original rules original) as [result|e] eqn:Hl.
    + exists original. split; [done|]. by apply remap_loop_success.
    + by apply remap_loop_error in Hl.
  - split; [by apply resolve_name_error in Hv | done].
Qed.

Example remap_example :
  resolve_remapped_name $"n" $"/" [MkRemap $"a" $"b"; MkRemap $"b" $"c"; MkRemap $"m:a" $"d"; MkRemap $"/n:/a" $"e"] $"a"
  = success $"/e".
Proof. vm_compute. reflexivity. Qed.

(** The rules of a Node are the global ones, then its own: with
    [remap_last_match_wins] the Node's own rules take precedence. *)
Lemma node_identity_rules global o i :
  node_identity global o = success i ->
  identity_remaps i = (if use_global_arguments o then remaps global else []) ++ remaps (option_arguments o) /\
  identity_overrides i =
    (if use_global_arguments o then parameter_overrides global else []) ++
    parameter_overrides (option_arguments o) /\
  normalized_namespace (identity_namespace i) /\ identity_name i <> [] /\
  has_char slash (identity_name i) = false /\ has_invalid_name_syntax (identity_name i) = false.
Proof.
  unfold node_identity. intros H. destruct (use_global_arguments o).
  all: destruct (bool_decide (_ = []) || _ || _) eqn:Hb; [done|].
  all: destruct (normalize_namespace _) as [ns|] eqn:Hns; [|done]; injection H as <-; simpl.
  all: apply normalize_namespace_ok in Hns.
  all: apply orb_false_iff in Hb as [[Hb1 Hb2]%orb_false_iff Hb3]; apply bool_decide_eq_false in Hb1; done.
Qed.

(** a Node that is created has a valid name without slashes and a
    normalised namespace, hence a fully qualified name; its own [__node] and
    [__ns] remaps win over the Context's, which win over the options. *)
Theorem node_identity_spec global o i :
  node_identity global o = success i ->
  qualified (fully_qualified_name i) /\
  identity_name i = non_empty (node_name_remap (option_arguments o))
    (if use_global_arguments o then non_empty (node_name_remap global) (option_name o) else option_name o) /\
  normalize_namespace (non_empty (namespace_remap (option_arguments o))
    (if use_global_arguments o then non_empty (namespace_remap global) (option_namespace o)
     else option_namespace o)) = success (identity_namespace i).
Proof.
  intros Hi. pose proof (node_identity_rules _ _ _ Hi) as (_ & _ & Hns & Hne & Hsl & Hsyn).
  split_and!.
  - unfold fully_qualified_name.
    assert (last (identity_name i) <> Some slash) as Hlast.
    { intros [l Hl]%last_Some. apply bool_decide_eq_false in Hsl. rewrite Hl in Hsl. set_solver. }
    apply (resolve_name_ok (identity_namespace i) (identity_name i)); [done|].
    unfold resolve_name. destruct (identity_name i) as [|c n]; [done|].
    rewrite Hsyn. simpl orb. rewrite (bool_decide_eq_false_2 _ Hlast).
    rewrite decide_False; [by destruct (str_eqb _ _)|]. intros ->.
    apply bool_decide_eq_false in Hsl. set_solver.
  - clear -Hi. unfold node_identity in Hi. destruct (use_global_arguments o).
    all: destruct (bool_decide (_ = []) || _ || _); [done|].
    all: destruct (normalize_namespace _); [|done]; by injection Hi as <-.
  - clear -Hi. unfold node_identity in Hi. destruct (use_global_arguments o).
    all: destruct (bool_decide (_ = []) || _ || _); [done|].
    all: destruct (normalize_namespace _); [|done]; by injection Hi as <-.
Qed.

Lemma node_identity_spec_witness :
  qualified (fully_qualified_name (MkNodeIdentity $"n" $"/ns" [] [])).
Proof.
  apply (node_identity_spec no_arguments (MkNodeOptions $"n" $"ns" no_arguments true false)).
  vm_compute. reflexivity.
Defined.
