(* ===== verification/Qos.v ===== *)
(** * Qos: neutral QoS descriptors and their Fast DDS counterparts

    Models include/dmw/qos.hpp and src/impl/qos.hpp.  The Fast DDS structures
    are reduced to the members the code reads or writes; an enumerator the code
    does not name is an [Other...] value.  What counts as an infinite
    [Duration_t] is Fast DDS's: a class with the documented facts used. *)

From S2P Require Import Prelude Names.
Local Open Scope Z_scope.

(** ** Neutral descriptors (include/dmw/qos.hpp) *)

Inductive HistoryPolicy := H_SystemDefault | KeepLast | KeepAll.
Inductive ReliabilityPolicy := R_SystemDefault | Reliable | BestEffort.
Inductive DurabilityPolicy := D_SystemDefault | Volatile | TransientLocal.
Inductive LivelinessPolicy := L_SystemDefault | Automatic | ManualByTopic.

#[export] Instance HistoryPolicy_eq_dec : EqDecision HistoryPolicy.
Proof. solve_decision. Defined.
#[export] Instance ReliabilityPolicy_eq_dec : EqDecision ReliabilityPolicy.
Proof. solve_decision. Defined.
#[export] Instance DurabilityPolicy_eq_dec : EqDecision DurabilityPolicy.
Proof. solve_decision. Defined.
#[export] Instance LivelinessPolicy_eq_dec : EqDecision LivelinessPolicy.
Proof. solve_decision. Defined.

(** [QosDuration]: its kind and, when finite, its nanoseconds. *)
Inductive QosDuration := Q_SystemDefault | Q_Infinite | Q_Finite (value : Z).

Definition finite_duration (value : Z) : Result QosDuration :=
  if value <? 0 then fail InvalidArgument "QoS duration must not be negative"
  else success (Q_Finite value).

Record Qos := MkQos {
  history : HistoryPolicy;
  depth : Z;
  reliability : ReliabilityPolicy;
  durability : DurabilityPolicy;
  deadline : QosDuration;
  lifespan : QosDuration;
  liveliness : LivelinessPolicy;
  liveliness_lease_duration : QosDuration }.

Definition system_default : Qos :=
  MkQos H_SystemDefault 0 R_SystemDefault D_SystemDefault Q_SystemDefault Q_SystemDefault
    L_SystemDefault Q_SystemDefault.

Definition preset (d : Z) (r : ReliabilityPolicy) (u : DurabilityPolicy) : Qos :=
  MkQos KeepLast d r u Q_SystemDefault Q_SystemDefault L_SystemDefault Q_SystemDefault.

Definition ros2_default : Qos := preset 10 Reliable Volatile.
Definition ros2_services_default : Qos := ros2_default.
Definition ros2_sensor_data : Qos := preset 5 BestEffort Volatile.
Definition ros2_parameters : Qos := preset 1000 Reliable Volatile.
Definition ros2_parameter_events : Qos := ros2_parameters.
Definition ros2_action_status_default : Qos := preset 1 Reliable TransientLocal.

Definition set_history (h : HistoryPolicy) (d : Z) (q : Qos) : Qos :=
  MkQos h d (reliability q) (durability q) (deadline q) (lifespan q) (liveliness q)
    (liveliness_lease_duration q).

Definition keep_last (d : Z) (q : Qos) : Result unit * Qos :=
  if d =? 0 then (fail InvalidArgument "KeepLast depth must be greater than zero", q)
  else (success tt, set_history KeepLast d q).

Definition keep_all (q : Qos) : Qos := set_history KeepAll 0 q.
Definition history_system_default (q : Qos) : Qos := set_history H_SystemDefault 0 q.

(** [reliable], [best_effort] and [reliability_system_default]. *)
Definition set_reliability (r : ReliabilityPolicy) (q : Qos) : Qos :=
  MkQos (history q) (depth q) r (durability q) (deadline q) (lifespan q) (liveliness q)
    (liveliness_lease_duration q).

(** [transient_local], [volatile_] and [durability_system_default]. *)
Definition set_durability (u : DurabilityPolicy) (q : Qos) : Qos :=
  MkQos (history q) (depth q) (reliability q) u (deadline q) (lifespan q) (liveliness q)
    (liveliness_lease_duration q).

Definition set_deadline (v : QosDuration) (q : Qos) : Qos :=
  MkQos (history q) (depth q) (reliability q) (durability q) v (lifespan q) (liveliness q)
    (liveliness_lease_duration q).

Definition set_lifespan (v : QosDuration) (q : Qos) : Qos :=
  MkQos (history q) (depth q) (reliability q) (durability q) (deadline q) v (liveliness q)
    (liveliness_lease_duration q).

Definition set_liveliness (v : LivelinessPolicy) (q : Qos) : Qos :=
  MkQos (history q) (depth q) (reliability q) (durability q) (deadline q) (lifespan q) v
    (liveliness_lease_duration q).

Definition set_liveliness_lease_duration (v : QosDuration) (q : Qos) : Qos :=
  MkQos (history q) (depth q) (reliability q) (durability q) (deadline q) (lifespan q)
    (liveliness q) v.

Inductive QosCompatibility := Compatible | Warning | Incompatible.

Definition check_qos_compatibility (publisher_qos subscriber_qos : Qos) : QosCompatibility * string :=
  if bool_decide (reliability publisher_qos = BestEffort) &&
     bool_decide (reliability subscriber_qos = Reliable) then
    (Incompatible, "A best-effort publisher cannot satisfy a reliable subscriber"%string)
  else if bool_decide (durability publisher_qos = Volatile) &&
          bool_decide (durability subscriber_qos = TransientLocal) then
    (Incompatible, "A volatile publisher cannot satisfy a transient-local subscriber"%string)
  else if bool_decide (reliability publisher_qos = R_SystemDefault) ||
          bool_decide (reliability subscriber_qos = R_SystemDefault) ||
          bool_decide (durability publisher_qos = D_SystemDefault) ||
          bool_decide (durability subscriber_qos = D_SystemDefault) then
    (Warning, "Compatibility depends on middleware values selected for SystemDefault policies"%string)
  else (Compatible, ""%string).

(** ** Fast DDS structures *)

Record Duration_t := MkDuration { seconds : Z; nanosec : Z }.

Inductive HistoryKind := KEEP_LAST_HISTORY_QOS | KEEP_ALL_HISTORY_QOS | OtherHistory (n : Z).
Inductive ReliabilityKind := RELIABLE_RELIABILITY_QOS | BEST_EFFORT_RELIABILITY_QOS | OtherReliability (n : Z).
Inductive DurabilityKind := VOLATILE_DURABILITY_QOS | TRANSIENT_LOCAL_DURABILITY_QOS | OtherDurability (n : Z).
Inductive LivelinessKind := AUTOMATIC_LIVELINESS_QOS | MANUAL_BY_TOPIC_LIVELINESS_QOS | OtherLiveliness (n : Z).
Inductive MemoryPolicy := PREALLOCATED_WITH_REALLOC_MEMORY_MODE | OtherMemory (n : Z).
Inductive PublishMode := SYNCHRONOUS_PUBLISH_MODE | OtherPublish (n : Z).
Inductive DataSharing := DataSharingOff | OtherSharing (n : Z).

Record EndpointQos := MkEndpointQos {
  history_kind : HistoryKind;
  history_depth : Z;
  reliability_kind : ReliabilityKind;
  max_blocking_time : Duration_t;
  durability_kind : DurabilityKind;
  deadline_period : Duration_t;
  lifespan_duration : Duration_t;
  liveliness_kind : LivelinessKind;
  lease_duration : Duration_t;
  history_memory_policy : MemoryPolicy;
  publish_mode : PublishMode;
  data_sharing : DataSharing }.

Class FastDuration := {
  duration_infinite : Duration_t;
  is_infinite : Duration_t -> bool;
  is_infinite_infinite : is_infinite duration_infinite = true;
  is_infinite_finite : forall d, 0 <= seconds d < INT32_MAX -> 0 <= nanosec d < 1000000000 ->
    is_infinite d = false }.

(** The constants of Fast DDS, which the evaluated examples use. *)
#[export] Instance fastdds_duration : FastDuration | 100.
Proof.
  refine {| duration_infinite := MkDuration INT32_MAX UINT32_MAX;
            is_infinite := fun d => (seconds d =? INT32_MAX) || (nanosec d =? UINT32_MAX) |}.
  - reflexivity.
  - intros d Hs Hn. apply orb_false_iff. split; apply Z.eqb_neq; unfold_ints; lia.
Defined.

(** ** Conversions (src/impl/qos.hpp) *)

Section Conversions.
Context `{!FastDuration}.

Definition kNanosecondsPerSecond : Z := 1000000000.

Definition to_duration (d : QosDuration) : Result Duration_t :=
  match d with
  | Q_SystemDefault => fail InvalidState "SystemDefault duration has no concrete Fast DDS value"
  | Q_Infinite => success duration_infinite
  | Q_Finite value =>
      let seconds := Z.quot value kNanosecondsPerSecond in
      let nanoseconds := Z.rem value kNanosecondsPerSecond in
      if INT32_MAX <? seconds then fail Unsupported "QoS duration exceeds the Fast DDS range"
      else success (MkDuration seconds (wrap_u32 nanoseconds))
  end.

Definition from_duration (d : Duration_t) : Result QosDuration :=
  if is_infinite d then success Q_Infinite
  else if (seconds d <? 0) || (1000000000 <=? nanosec d) then
    fail DDSError "Fast DDS returned an invalid QoS duration"
  else if Z.quot INT64_MAX kNanosecondsPerSecond <? seconds d then
    fail Unsupported "Fast DDS QoS duration exceeds DMW range"
  else finite_duration (seconds d * kNanosecondsPerSecond + nanosec d).

Definition set_dds_history (k : HistoryKind) (d : Z) (q : EndpointQos) : EndpointQos :=
  MkEndpointQos k d (reliability_kind q) (max_blocking_time q) (durability_kind q) (deadline_period q)
    (lifespan_duration q) (liveliness_kind q) (lease_duration q) (history_memory_policy q)
    (publish_mode q) (data_sharing q).
Definition set_dds_reliability (k : ReliabilityKind) (q : EndpointQos) : EndpointQos :=
  MkEndpointQos (history_kind q) (history_depth q) k (max_blocking_time q) (durability_kind q)
    (deadline_period q) (lifespan_duration q) (liveliness_kind q) (lease_duration q)
    (history_memory_policy q) (publish_mode q) (data_sharing q).
Definition set_dds_durability (k : DurabilityKind) (q : EndpointQos) : EndpointQos :=
  MkEndpointQos (history_kind q) (history_depth q) (reliability_kind q) (max_blocking_time q) k
    (deadline_period q) (lifespan_duration q) (liveliness_kind q) (lease_duration q)
    (history_memory_policy q) (publish_mode q) (data_sharing q).
Definition set_dds_deadline (d : Duration_t) (q : EndpointQos) : EndpointQos :=
  MkEndpointQos (history_kind q) (history_depth q) (reliability_kind q) (max_blocking_time q)
    (durability_kind q) d (lifespan_duration q) (liveliness_kind q) (lease_duration q)
    (history_memory_policy q) (publish_mode q) (data_sharing q).
Definition set_dds_lifespan (d : Duration_t) (q : EndpointQos) : EndpointQos :=
  MkEndpointQos (history_kind q) (history_depth q) (reliability_kind q) (max_blocking_time q)
    (durability_kind q) (deadline_period q) d (liveliness_kind q) (lease_duration q)
    (history_memory_policy q) (publish_mode q) (data_sharing q).
Definition set_dds_liveliness (k : LivelinessKind) (q : EndpointQos) : EndpointQos :=
  MkEndpointQos (history_kind q) (history_depth q) (reliability_kind q) (max_blocking_time q)
    (durability_kind q) (deadline_period q) (lifespan_duration q) k (lease_duration q)
    (history_memory_policy q) (publish_mode q) (data_sharing q).
Definition set_dds_lease (d : Duration_t) (q : EndpointQos) : EndpointQos :=
  MkEndpointQos (history_kind q) (history_depth q) (reliability_kind q) (max_blocking_time q)
    (durability_kind q) (deadline_period q) (lifespan_duration q) (liveliness_kind q) d
    (history_memory_policy q) (publish_mode q) (data_sharing q).

Definition apply_ros2_compatibility_defaults (q : EndpointQos) : EndpointQos :=
  set_dds_durability VOLATILE_DURABILITY_QOS
    (set_dds_reliability RELIABLE_RELIABILITY_QOS (set_dds_history KEEP_LAST_HISTORY_QOS 10 q)).

(** One duration policy: left alone when it is the system default. *)
Definition apply_duration (d : QosDuration) (set : Duration_t -> EndpointQos -> EndpointQos)
    (q : EndpointQos) : Result EndpointQos :=
  match d with
  | Q_SystemDefault => success q
  | _ => let? x := to_duration d in success (set x q)
  end.

Definition apply_history (source : Qos) (q : EndpointQos) : Result EndpointQos :=
  match history source with
  | KeepLast =>
      if INT32_MAX <? depth source then fail Unsupported "QoS history depth exceeds the Fast DDS range"
      else success (set_dds_history KEEP_LAST_HISTORY_QOS (depth source) q)
  | KeepAll => success (set_dds_history KEEP_ALL_HISTORY_QOS (history_depth q) q)
  | H_SystemDefault => success q
  end.

Definition apply_neutral_qos (source : Qos) (q : EndpointQos) : Result EndpointQos :=
  let? q := apply_history source q in
  let q := match reliability source with
           | Reliable => set_dds_reliability RELIABLE_RELIABILITY_QOS q
           | BestEffort => set_dds_reliability BEST_EFFORT_RELIABILITY_QOS q
           | R_SystemDefault => q end in
  let q := match durability source with
           | Volatile => set_dds_durability VOLATILE_DURABILITY_QOS q
           | TransientLocal => set_dds_durability TRANSIENT_LOCAL_DURABILITY_QOS q
           | D_SystemDefault => q end in
  let? q := apply_duration (deadline source) set_dds_deadline q in
  let? q := apply_duration (lifespan source) set_dds_lifespan q in
  let q := match liveliness source with
           | Automatic => set_dds_liveliness AUTOMATIC_LIVELINESS_QOS q
           | ManualByTopic => set_dds_liveliness MANUAL_BY_TOPIC_LIVELINESS_QOS q
           | L_SystemDefault => q end in
  apply_duration (liveliness_lease_duration source) set_dds_lease q.

Definition apply_ros2_writer_implementation_policy (q : EndpointQos) : EndpointQos :=
  MkEndpointQos (history_kind q) (history_depth q) (reliability_kind q) (MkDuration 0 100000000)
    (durability_kind q) (deadline_period q) (lifespan_duration q) (liveliness_kind q) (lease_duration q)
    PREALLOCATED_WITH_REALLOC_MEMORY_MODE SYNCHRONOUS_PUBLISH_MODE DataSharingOff.

Definition apply_ros2_reader_implementation_policy (q : EndpointQos) : EndpointQos :=
  MkEndpointQos (history_kind q) (history_depth q) (reliability_kind q) (max_blocking_time q)
    (durability_kind q) (deadline_period q) (lifespan_duration q) (liveliness_kind q) (lease_duration q)
    PREALLOCATED_WITH_REALLOC_MEMORY_MODE (publish_mode q) DataSharingOff.

Definition to_writer_qos (source : Qos) (mode : RuntimeMode) (q : EndpointQos) : Result EndpointQos :=
  let q := match mode with ROS2 => apply_ros2_compatibility_defaults q | DDS => q end in
  let? q := apply_neutral_qos source q in
  success (match mode with ROS2 => apply_ros2_writer_implementation_policy q | DDS => q end).

Definition to_reader_qos (source : Qos) (mode : RuntimeMode) (q : EndpointQos) : Result EndpointQos :=
  let q := match mode with ROS2 => apply_ros2_compatibility_defaults q | DDS => q end in
  let? q := apply_neutral_qos source q in
  success (match mode with ROS2 => apply_ros2_reader_implementation_policy q | DDS => q end).

Definition from_history (q : EndpointQos) (r : Qos) : Result Qos :=
  match history_kind q with
  | KEEP_LAST_HISTORY_QOS =>
      if history_depth q <=? 0 then fail DDSError "Fast DDS returned an invalid KeepLast depth"
      else match keep_last (history_depth q) r with
           | (success _, r) => success r
           | (failure e, _) => failure e
           end
  | KEEP_ALL_HISTORY_QOS => success (keep_all r)
  | OtherHistory _ => success (history_system_default r)
  end.

Definition from_reliability (k : ReliabilityKind) : ReliabilityPolicy :=
  match k with
  | RELIABLE_RELIABILITY_QOS => Reliable
  | BEST_EFFORT_RELIABILITY_QOS => BestEffort
  | OtherReliability _ => R_SystemDefault
  end.

Definition from_durability (k : DurabilityKind) : DurabilityPolicy :=
  match k with
  | VOLATILE_DURABILITY_QOS => Volatile
  | TRANSIENT_LOCAL_DURABILITY_QOS => TransientLocal
  | OtherDurability _ => D_SystemDefault
  end.

(** An unnamed kind leaves the descriptor's default. *)
Definition from_liveliness (k : LivelinessKind) : LivelinessPolicy :=
  match k with
  | AUTOMATIC_LIVELINESS_QOS => Automatic
  | MANUAL_BY_TOPIC_LIVELINESS_QOS => ManualByTopic
  | OtherLiveliness _ => L_SystemDefault
  end.

(** The part [from_neutral_qos] and [from_discovery_qos] share. *)
Definition from_policies (q : EndpointQos) (r : Qos) : Result Qos :=
  let r := set_reliability (from_reliability (reliability_kind q)) r in
  let r := set_durability (from_durability (durability_kind q)) r in
  let? dl := from_duration (deadline_period q) in
  let? ls := from_duration (lifespan_duration q) in
  let? ld := from_duration (lease_duration q) in
  let r := set_liveliness_lease_duration ld (set_lifespan ls (set_deadline dl r)) in
  success (set_liveliness (from_liveliness (liveliness_kind q)) r).

Definition from_neutral_qos (q : EndpointQos) : Result Qos :=
  let? r := from_history q system_default in from_policies q r.

(** Discovery metadata carries no history. *)
Definition from_discovery_qos (q : EndpointQos) : Result Qos := from_policies q system_default.

Definition discovery_qos_or_unknown (q : EndpointQos) : Qos :=
  match from_discovery_qos q with success r => r | failure _ => system_default end.

(** ** Lemmas and properties *)

Definition qos_wf (q : Qos) : Prop :=
  match history q with KeepLast => 0 < depth q | _ => depth q = 0 end.

(** A duration Fast DDS can carry. *)
Definition representable (d : QosDuration) : Prop :=
  match d with Q_Finite v => 0 <= v /\ v < INT32_MAX * kNanosecondsPerSecond | _ => True end.

Lemma duration_roundtrip d :
  representable d -> d <> Q_SystemDefault ->
  exists x, to_duration d = success x /\ from_duration x = success d.
Proof.
  destruct d as [| |v]; intros Hr Hd; [done| |].
  - exists duration_infinite. split; [done|]. unfold from_duration. by rewrite is_infinite_infinite.
  - destruct Hr as [H0 Hmax]. unfold to_duration, from_duration, kNanosecondsPerSecond in *.
    rewrite Z.quot_div_nonneg, Z.rem_mod_nonneg by lia.
    assert (0 <= v `div` 1000000000 < INT32_MAX) as Hs.
    { split; [apply Z.div_pos; lia | apply Z.div_lt_upper_bound; lia]. }
    assert (0 <= v `mod` 1000000000 < 1000000000) as Hn by (apply Z.mod_pos_bound; lia).
    assert (wrap_u32 (v `mod` 1000000000) = v `mod` 1000000000) as Hw.
    { unfold wrap_u32. apply Z.mod_small. lia. }
    rewrite Hw. destruct (Z.ltb_spec INT32_MAX (v `div` 1000000000)); [lia|].
    eexists. split; [done|]. rewrite is_infinite_finite by done. simpl.
    destruct (Z.ltb_spec (v `div` 1000000000) 0); [lia|].
    destruct (Z.leb_spec 1000000000 (v `mod` 1000000000)); [lia|]. simpl.
    destruct (Z.ltb_spec (INT64_MAX ÷ 1000000000) (v `div` 1000000000)) as [Hbig|_].
    { exfalso. unfold_ints. change (9223372036854775807 ÷ 1000000000) with 9223372036 in Hbig. lia. }
    unfold finite_duration. pose proof (Z.div_mod v 1000000000).
    destruct (Z.ltb_spec (v `div` 1000000000 * 1000000000 + v `mod` 1000000000) 0); [lia|].
    do 2 f_equal. lia.
Qed.

(** The descriptor an endpoint ends up with: the policies the source sets,
    and the endpoint's own value for those left to the system. *)
Definition overlay_duration (s b : QosDuration) : QosDuration :=
  match s with Q_SystemDefault => b | _ => s end.

Definition overlay (s b : Qos) : Qos :=
  MkQos (match history s with H_SystemDefault => history b | h => h end)
    (match history s with H_SystemDefault => depth b | _ => depth s end)
    (match reliability s with R_SystemDefault => reliability b | r => r end)
    (match durability s with D_SystemDefault => durability b | d => d end)
    (overlay_duration (deadline s) (deadline b))
    (overlay_duration (lifespan s) (lifespan b))
    (match liveliness s with L_SystemDefault => liveliness b | l => l end)
    (overlay_duration (liveliness_lease_duration s) (liveliness_lease_duration b)).

(** A source the conversion does not refuse. *)
Definition supported (s : Qos) : Prop :=
  qos_wf s /\ depth s <= INT32_MAX /\ representable (deadline s) /\ representable (lifespan s) /\
  representable (liveliness_lease_duration s).

(** What [from_neutral_qos] reads. *)
Lemma from_neutral_qos_inv q b :
  from_neutral_qos q = success b <->
  (exists h, from_history q system_default = success h /\
     history h = history b /\ depth h = depth b) /\
  reliability b = from_reliability (reliability_kind q) /\
  durability b = from_durability (durability_kind q) /\
  from_duration (deadline_period q) = success (deadline b) /\
  from_duration (lifespan_duration q) = success (lifespan b) /\
  from_duration (lease_duration q) = success (liveliness_lease_duration b) /\
  liveliness b = from_liveliness (liveliness_kind q).
Proof.
  unfold from_neutral_qos, from_policies. split.
  - destruct (from_history q system_default) as [h|]; [|done].
    destruct (from_duration (deadline_period q)); [|done].
    destruct (from_duration (lifespan_duration q)); [|done].
    destruct (from_duration (lease_duration q)); [|done].
    intros [= <-]. simpl. split_and!; try done. by exists h.
  - intros ((h & -> & Hh & Hd) & Hr & Hu & -> & -> & -> & Hl). f_equal.
    destruct b, h; simpl in *. by subst.
Qed.

(** One duration policy, read back through its getter. *)
Lemma apply_duration_ok d (get : EndpointQos -> Duration_t) set q b :
  representable d -> set (get q) q = q -> from_duration (get q) = success b ->
  exists x, apply_duration d set q = success (set x q) /\ from_duration x = success (overlay_duration d b).
Proof.
  intros Hr Hset Hb. unfold apply_duration, overlay_duration. destruct d as [| |v].
  - exists (get q). by rewrite Hset.
  - destruct (duration_roundtrip Q_Infinite) as (x & -> & Hx); [done | done | eauto].
  - destruct (duration_roundtrip (Q_Finite v)) as (x & -> & Hx); [done | done | eauto].
Qed.

(** The three stages of [apply_neutral_qos], each read back. *)
Lemma apply_history_roundtrip s q h :
  qos_wf s -> depth s <= INT32_MAX -> from_history q system_default = success h ->
  exists q' h', apply_history s q = success q' /\ from_history q' system_default = success h' /\
    history h' = match history s with H_SystemDefault => history h | x => x end /\
    depth h' = match history s with H_SystemDefault => depth h | _ => depth s end /\
    reliability_kind q' = reliability_kind q /\ durability_kind q' = durability_kind q /\
    deadline_period q' = deadline_period q /\ lifespan_duration q' = lifespan_duration q /\
    lease_duration q' = lease_duration q /\ liveliness_kind q' = liveliness_kind q.
Proof.
  unfold qos_wf, apply_history. destruct (history s) eqn:Hs; intros Hwf Hmax Hh.
  - exists q, h. by split_and!.
  - destruct (Z.ltb_spec INT32_MAX (depth s)); [lia|].
    exists (set_dds_history KEEP_LAST_HISTORY_QOS (depth s) q), (set_history KeepLast (depth s) system_default).
    split_and!; try done. unfold from_history, keep_last; simpl.
    destruct (Z.leb_spec (depth s) 0); [lia|]. by destruct (Z.eqb_spec (depth s) 0); [lia|].
  - exists (set_dds_history KEEP_ALL_HISTORY_QOS (history_depth q) q), (keep_all system_default).
    by split_and!.
Qed.

Lemma apply_neutral_qos_roundtrip s q b :
  supported s -> from_neutral_qos q = success b ->
  exists q', apply_neutral_qos s q = success q' /\ from_neutral_qos q' = success (overlay s b).
Proof.
  intros (Hwf & Hmax & Hdl & Hls & Hld) Hb.
  apply from_neutral_qos_inv in Hb as ((h & Hh & Hhh & Hhd) & Hr & Hu & Hd & Hl & Hz & Hv).
  destruct (apply_history_roundtrip s q h Hwf Hmax Hh)
    as (q1 & h1 & Hq1 & Hf1 & Eh & Ed & E1 & E2 & E3 & E4 & E5 & E6).
  unfold apply_neutral_qos. rewrite Hq1.
  set (q2 := match reliability s with Reliable => _ | _ => _ end).
  set (q3 := match durability s with Volatile => _ | _ => _ end).
  assert (deadline_period q3 = deadline_period q /\ lifespan_duration q3 = lifespan_duration q /\
    lease_duration q3 = lease_duration q) as (D1 & D2 & D3).
  { rewrite <- E3, <- E4, <- E5. subst q3 q2. by destruct (durability s), (reliability s). }
  destruct (apply_duration_ok (deadline s) deadline_period set_dds_deadline q3 (deadline b))
    as (x4 & -> & H4); [done | by destruct q3 | by rewrite D1 |].
  destruct (apply_duration_ok (lifespan s) lifespan_duration set_dds_lifespan
    (set_dds_deadline x4 q3) (lifespan b)) as (x5 & -> & H5); [done | by destruct q3 | by rewrite <- D2 in Hl |].
  set (q6 := match liveliness s with Automatic => _ | _ => _ end).
  destruct (apply_duration_ok (liveliness_lease_duration s) lease_duration set_dds_lease q6
    (liveliness_lease_duration b)) as (x7 & -> & H7);
    [done | by destruct q6 | rewrite <- D3 in Hz; subst q6; by destruct (liveliness s) |].
  eexists. split; [done|]. apply from_neutral_qos_inv. unfold overlay; simpl.
  assert (deadline_period q6 = x4 /\ lifespan_duration q6 = x5) as [-> ->]
    by (subst q6; by destruct (liveliness s)).
  assert (from_history (set_dds_lease x7 q6) system_default = from_history q1 system_default) as ->.
  { subst q6 q3 q2. by destruct (liveliness s), (durability s), (reliability s). }
  split_and!; try done.
  - exists h1. by rewrite Hf1, Eh, Ed, Hhh, Hhd.
  - rewrite Hr, <- E1. subst q6 q3 q2. by destruct (liveliness s), (durability s), (reliability s).
  - rewrite Hu, <- E2. subst q6 q3 q2. by destruct (liveliness s), (durability s), (reliability s).
  - rewrite Hv, <- E6. subst q6 q3 q2. by destruct (liveliness s), (durability s), (reliability s).
Qed.

(** What the code does to the base QoS of a new endpoint before the source. *)
Definition endpoint_base (mode : RuntimeMode) (b : Qos) : Qos :=
  match mode with
  | DDS => b
  | ROS2 => MkQos KeepLast 10 Reliable Volatile (deadline b) (lifespan b) (liveliness b)
              (liveliness_lease_duration b)
  end.

Lemma ros2_defaults_read q b :
  from_neutral_qos q = success b ->
  from_neutral_qos (apply_ros2_compatibility_defaults q) = success (endpoint_base ROS2 b).
Proof.
  rewrite !from_neutral_qos_inv. intros (_ & _ & _ & ? & ? & ? & ?).
  split_and!; try done. by eexists.
Qed.

Lemma implementation_policy_read q :
  from_neutral_qos (apply_ros2_writer_implementation_policy q) = from_neutral_qos q /\
  from_neutral_qos (apply_ros2_reader_implementation_policy q) = from_neutral_qos q.
Proof. done. Qed.

(** the QoS an endpoint is created with is the one asked for: reading the
    writer's or reader's Fast DDS QoS back gives every policy the source
    sets, and for each SystemDefault policy the endpoint's own value, or in
    ROS 2 mode the ROS 2 default; no supported source is refused. *)
Theorem endpoint_qos_roundtrip s mode q b :
  supported s -> from_neutral_qos q = success b ->
  (exists w, to_writer_qos s mode q = success w /\
     from_neutral_qos w = success (overlay s (endpoint_base mode b))) /\
  (exists r, to_reader_qos s mode q = success r /\
     from_neutral_qos r = success (overlay s (endpoint_base mode b))).
Proof.
  intros Hs Hb. unfold to_writer_qos, to_reader_qos. destruct mode.
  - destruct (apply_neutral_qos_roundtrip s q b Hs Hb) as (q' & -> & Hq').
    split; by exists q'.
  - apply ros2_defaults_read in Hb.
    destruct (apply_neutral_qos_roundtrip s _ _ Hs Hb) as (q' & -> & Hq').
    split; eexists; (split; [done|]); by rewrite ?(proj1 (implementation_policy_read q')),
      ?(proj2 (implementation_policy_read q')).
Qed.

(** every finite duration the source can express in whole Fast DDS
    seconds survives the trip to [Duration_t] and back, as does the infinite
    one; a longer one is refused, never truncated; and a [Duration_t] that is
    read as finite is a non-negative 64-bit number of nanoseconds. *)
Theorem duration_conversions d x :
  (representable d -> d <> Q_SystemDefault ->
     exists y, to_duration d = success y /\ from_duration y = success d) /\
  (forall v, 0 <= v -> (INT32_MAX + 1) * kNanosecondsPerSecond <= v ->
     code_of (to_duration (Q_Finite v)) = Some Unsupported) /\
  (forall v, in_i32 (seconds x) -> 0 <= nanosec x -> from_duration x = success (Q_Finite v) ->
     v = seconds x * kNanosecondsPerSecond + nanosec x /\ 0 <= v <= INT64_MAX).
Proof.
  split_and!; [apply duration_roundtrip | |].
  - intros v H0 Hv. unfold to_duration. rewrite Z.quot_div_nonneg by (unfold kNanosecondsPerSecond; lia).
    destruct (Z.ltb_spec INT32_MAX (v `div` kNanosecondsPerSecond)) as [|Hle]; [done|].
    exfalso. unfold kNanosecondsPerSecond in *.
    pose proof (Z.div_le_lower_bound v 1000000000 (INT32_MAX + 1)). lia.
  - intros v Hs Hn. unfold from_duration. destruct (is_infinite x); [done|].
    destruct (Z.ltb_spec (seconds x) 0); [done|].
    destruct (Z.leb_spec 1000000000 (nanosec x)); [done|]. simpl.
    destruct (Z.ltb_spec (INT64_MAX ÷ kNanosecondsPerSecond) (seconds x)) as [|Hle]; [done|].
    unfold finite_duration, kNanosecondsPerSecond in *.
    destruct (Z.ltb_spec (seconds x * 1000000000 + nanosec x) 0); [done|].
    intros [= <-]. split; [done|]. unfold_ints.
    change (9223372036854775807 ÷ 1000000000) with 9223372036 in Hle. lia.
Qed.
End Conversions.

(** ** Requested versus offered *)

(** A middleware's choice for the SystemDefault policies. *)
Record Resolution := MkResolution {
  resolved_reliability : ReliabilityPolicy -> ReliabilityPolicy;
  resolved_durability : DurabilityPolicy -> DurabilityPolicy }.

Definition resolution_ok (m : Resolution) : Prop :=
  resolved_reliability m Reliable = Reliable /\ resolved_reliability m BestEffort = BestEffort /\
  resolved_reliability m R_SystemDefault <> R_SystemDefault /\
  resolved_durability m Volatile = Volatile /\ resolved_durability m TransientLocal = TransientLocal /\
  resolved_durability m D_SystemDefault <> D_SystemDefault.

(** The DDS rule: offered at least as strong as requested. *)
Definition rxo (m : Resolution) (p s : Qos) : Prop :=
  (resolved_reliability m (reliability s) = Reliable -> resolved_reliability m (reliability p) = Reliable) /\
  (resolved_durability m (durability s) = TransientLocal ->
     resolved_durability m (durability p) = TransientLocal).

(** whatever concrete values the middleware picks for SystemDefault
    policies, a publisher and subscriber judged compatible satisfy the
    requested-versus-offered rule for reliability and durability, a pair
    judged incompatible violates it, and a warning is only given when some
    policy is left to the middleware. *)
Theorem compatibility_sound p s m :
  resolution_ok m ->
  match (check_qos_compatibility p s).1 with
  | Compatible => rxo m p s
  | Incompatible => ~ rxo m p s
  | Warning => reliability p = R_SystemDefault \/ reliability s = R_SystemDefault \/
               durability p = D_SystemDefault \/ durability s = D_SystemDefault
  end.
Proof.
  intros (R1 & R2 & R3 & D1 & D2 & D3). unfold check_qos_compatibility, rxo.
  destruct (reliability p), (reliability s), (durability p), (durability s); simpl;
    rewrite ?R1, ?R2, ?D1, ?D2; try tauto; intuition congruence.
Qed.

Lemma compatibility_sound_witness :
  ~ rxo (MkResolution (fun r => match r with R_SystemDefault => Reliable | r => r end)
           (fun d => match d with D_SystemDefault => Volatile | d => d end))
      ros2_sensor_data ros2_default.
Proof.
  apply (compatibility_sound ros2_sensor_data ros2_default). by split_and!.
Defined.

Definition plain_endpoint : EndpointQos :=
  MkEndpointQos KEEP_LAST_HISTORY_QOS 1 BEST_EFFORT_RELIABILITY_QOS (MkDuration 0 0)
    VOLATILE_DURABILITY_QOS (MkDuration INT32_MAX UINT32_MAX) (MkDuration INT32_MAX UINT32_MAX)
    AUTOMATIC_LIVELINESS_QOS (MkDuration INT32_MAX UINT32_MAX) (OtherMemory 0) (OtherPublish 0)
    (OtherSharing 0).

Lemma endpoint_qos_roundtrip_witness :
  exists w, to_writer_qos ros2_action_status_default ROS2 plain_endpoint = success w /\
    from_neutral_qos w = success (MkQos KeepLast 1 Reliable TransientLocal Q_Infinite Q_Infinite Automatic Q_Infinite).
Proof.
  destruct (endpoint_qos_roundtrip ros2_action_status_default ROS2 plain_endpoint
    (MkQos KeepLast 1 BestEffort Volatile Q_Infinite Q_Infinite Automatic Q_Infinite)) as [Hw _].
  - unfold supported, qos_wf. simpl. unfold_ints. split_and!; try done; lia.
  - vm_compute. reflexivity.
  - exact Hw.
Defined.

(** ** Fast DDS return codes (src/impl/return_code.hpp) *)

Inductive ReturnCode :=
  | RETCODE_BAD_PARAMETER | RETCODE_OUT_OF_RESOURCES | RETCODE_UNSUPPORTED
  | RETCODE_NOT_ALLOWED_BY_SECURITY | RETCODE_INCONSISTENT_POLICY | RETCODE_TIMEOUT
  | RETCODE_PRECONDITION_NOT_MET | RETCODE_NOT_ENABLED | RETCODE_IMMUTABLE_POLICY
  | RETCODE_ALREADY_DELETED | RETCODE_ILLEGAL_OPERATION | OtherReturnCode (n : Z).

Definition to_return_code (c : ReturnCode) : ErrorCode :=
  match c with
  | RETCODE_BAD_PARAMETER => InvalidArgument
  | RETCODE_OUT_OF_RESOURCES => ResourceExhausted
  | RETCODE_UNSUPPORTED | RETCODE_NOT_ALLOWED_BY_SECURITY => Unsupported
  | RETCODE_INCONSISTENT_POLICY => IncompatibleQos
  | RETCODE_TIMEOUT => Timeout
  | RETCODE_PRECONDITION_NOT_MET | RETCODE_NOT_ENABLED | RETCODE_IMMUTABLE_POLICY
  | RETCODE_ALREADY_DELETED | RETCODE_ILLEGAL_OPERATION => InvalidState
  | OtherReturnCode _ => DDSError
  end.

Definition to_error (c : ReturnCode) (message : string) : Error := MkError (to_return_code c) message.

(** ** The class invariant of [Qos] *)

Lemma presets_wf :
  Forall qos_wf [system_default; ros2_default; ros2_services_default; ros2_sensor_data;
    ros2_parameters; ros2_parameter_events; ros2_action_status_default].
Proof. repeat constructor. Qed.

Lemma setters_wf q d :
  qos_wf q -> 0 <= d ->
  qos_wf (keep_last d q).2 /\ qos_wf (keep_all q) /\ qos_wf (history_system_default q) /\
  (forall r, qos_wf (set_reliability r q)) /\ (forall u, qos_wf (set_durability u q)).
Proof.
  intros Hq Hd. unfold keep_last. split_and!; try done.
  destruct (Z.eqb_spec d 0); [done|]. unfold qos_wf; simpl. lia.
Qed.
