(* ===== verification/Discovery.v ===== *)
(** * Discovery: the discovery graph of a Context

    Models src/impl/discovery_graph.hpp: remote participants and endpoints,
    local Nodes and endpoints, remote Node metadata, the revision, the health
    and the subscriptions.  [participants_] only grows, so the [shared_ptr] an
    endpoint keeps to its participant is a position in that vector; a later
    change of the participant is seen through it.  Each operation runs under
    the graph's mutex; the callbacks [notify] makes afterwards are returned.
    [Subscriptions] has the callbacks as they run, throwing ones included; a
    failed allocation is not modelled. *)

From S2P Require Import Prelude Strings Identity Qos.
Local Open Scope Z_scope.

Inductive DiscoveryChange := Added | Removed.
Inductive DiscoveryHealth := Healthy | Unavailable.
Inductive EndpointKind := Reader | Writer.
Inductive EndpointState := E_Unknown | E_Active | E_Removed | E_Unavailable.
Inductive ServiceState := S_Unknown | S_Complete | S_Incomplete | S_Unavailable.
Inductive GraphMutation := M_Changed | M_Unchanged | M_Invalid.

#[export] Instance DiscoveryChange_eq_dec : EqDecision DiscoveryChange.
Proof. solve_decision. Defined.
#[export] Instance DiscoveryHealth_eq_dec : EqDecision DiscoveryHealth.
Proof. solve_decision. Defined.
#[export] Instance EndpointKind_eq_dec : EqDecision EndpointKind.
Proof. solve_decision. Defined.
#[export] Instance EndpointState_eq_dec : EqDecision EndpointState.
Proof. solve_decision. Defined.
#[export] Instance ServiceState_eq_dec : EqDecision ServiceState.
Proof. solve_decision. Defined.

Abbreviation GuidPrefix := (list Z).

Record ParticipantRecord := MkParticipant {
  prefix : GuidPrefix; p_lifecycle : DiscoveryChange; p_generation : Z }.

Record EndpointRecord := MkEndpoint {
  guid : GUID_t;
  kind : EndpointKind;
  topic : str;
  type : str;
  qos : Qos;
  participant : nat;
  lifecycle : DiscoveryChange }.

Record LocalNodeRecord := MkLocalNode {
  id : Z; node_name : str; node_namespace : str; references : Z }.

Record LocalEndpointRecord := MkLocalEndpoint {
  l_guid : GUID_t; l_kind : EndpointKind; l_topic : str; l_type : str; l_qos : Qos; node_id : Z }.

Record RemoteNodeRecord := MkRemoteNode {
  r_namespace : str; r_name : str; reader_gids : list (list Z); writer_gids : list (list Z) }.

#[export] Instance RemoteNodeRecord_eq_dec : EqDecision RemoteNodeRecord.
Proof. solve_decision. Defined.

Record RemoteParticipantNodes := MkRemoteNodes { rp_prefix : GuidPrefix; nodes : list RemoteNodeRecord }.

Record DiscoveryGraph := MkGraph {
  health : DiscoveryHealth;
  revision : Z;
  next_subscription : Z;
  next_local_node_id : Z;
  local_nodes : list LocalNodeRecord;
  local_endpoints : list LocalEndpointRecord;
  remote_nodes : list RemoteParticipantNodes;
  participants : list ParticipantRecord;
  endpoints : list EndpointRecord;
  subscriptions : list Z }.

Definition new_graph : DiscoveryGraph := MkGraph Healthy 0 0 0 [] [] [] [] [] [].

Definition with_health (h : DiscoveryHealth) (g : DiscoveryGraph) : DiscoveryGraph :=
  MkGraph h (revision g) (next_subscription g) (next_local_node_id g) (local_nodes g)
    (local_endpoints g) (remote_nodes g) (participants g) (endpoints g) (subscriptions g).
Definition with_revision (r : Z) (g : DiscoveryGraph) : DiscoveryGraph :=
  MkGraph (health g) r (next_subscription g) (next_local_node_id g) (local_nodes g)
    (local_endpoints g) (remote_nodes g) (participants g) (endpoints g) (subscriptions g).
Definition with_subscriptions (n : Z) (s : list Z) (g : DiscoveryGraph) : DiscoveryGraph :=
  MkGraph (health g) (revision g) n (next_local_node_id g) (local_nodes g)
    (local_endpoints g) (remote_nodes g) (participants g) (endpoints g) s.
Definition with_local (n : Z) (ns : list LocalNodeRecord) (es : list LocalEndpointRecord)
    (g : DiscoveryGraph) : DiscoveryGraph :=
  MkGraph (health g) (revision g) (next_subscription g) n ns es (remote_nodes g) (participants g)
    (endpoints g) (subscriptions g).
Definition with_remote_nodes (ns : list RemoteParticipantNodes) (g : DiscoveryGraph) : DiscoveryGraph :=
  MkGraph (health g) (revision g) (next_subscription g) (next_local_node_id g) (local_nodes g)
    (local_endpoints g) ns (participants g) (endpoints g) (subscriptions g).
Definition with_discovered (ps : list ParticipantRecord) (es : list EndpointRecord)
    (g : DiscoveryGraph) : DiscoveryGraph :=
  MkGraph (health g) (revision g) (next_subscription g) (next_local_node_id g) (local_nodes g)
    (local_endpoints g) (remote_nodes g) ps es (subscriptions g).

(** ** Notification and mutation *)

(** The callbacks of [notify]: every subscriber, with the revision. *)
Definition notify (g : DiscoveryGraph) : list (Z * Z) := (fun s => (s, revision g)) <$> subscriptions g.

Definition mutate (change : DiscoveryGraph -> GraphMutation * DiscoveryGraph) (g : DiscoveryGraph)
    : DiscoveryGraph * list (Z * Z) :=
  if decide (health g = Healthy) then
    match change g with
    | (M_Invalid, g) => let g := with_health Unavailable g in (g, notify g)
    | (M_Changed, g) =>
        let g := if revision g =? UINT64_MAX then with_health Unavailable g
                 else with_revision (revision g + 1) g in
        (g, notify g)
    | (M_Unchanged, g) => (g, [])
    end
  else (g, []).

Definition unavailable (g : DiscoveryGraph) : DiscoveryGraph * list (Z * Z) :=
  let g := with_health Unavailable g in (g, notify g).

(** ** Remote participants and endpoints *)

(** [find_if] on a vector, as a position. *)
Fixpoint find_index {A} (p : A -> bool) (l : list A) : option nat :=
  match l with
  | [] => None
  | x :: l => if p x then Some 0%nat else S <$> find_index p l
  end.

Definition prefix_is (q : GuidPrefix) (p : ParticipantRecord) : bool := bool_decide (prefix p = q).
Definition guid_is (q : GUID_t) (e : EndpointRecord) : bool := bool_decide (guid e = q).
Definition l_guid_is (q : GUID_t) (e : LocalEndpointRecord) : bool := bool_decide (l_guid e = q).
Definition id_is (q : Z) (n : LocalNodeRecord) : bool := id n =? q.
Definition rp_prefix_is (q : GuidPrefix) (r : RemoteParticipantNodes) : bool := bool_decide (rp_prefix r = q).

Definition participant_change (q : GuidPrefix) (change : DiscoveryChange) (g : DiscoveryGraph)
    : GraphMutation * DiscoveryGraph :=
  match find_if (prefix_is q) (participants g) with
  | None => (M_Changed, with_discovered (participants g ++ [MkParticipant q change 0]) (endpoints g) g)
  | Some p =>
      match change, p_lifecycle p with
      | Added, Removed => (M_Invalid, g)
      | Removed, Added =>
          if p_generation p =? UINT64_MAX then (M_Invalid, g)
          else (M_Changed, with_discovered
                  (update_first (prefix_is q)
                     (fun p => MkParticipant (prefix p) Removed (p_generation p + 1)) (participants g))
                  (endpoints g) g)
      | _, _ => (M_Unchanged, g)
      end
  end.

Definition apply_participant (q : GuidPrefix) (change : DiscoveryChange) (g : DiscoveryGraph)
    : DiscoveryGraph * list (Z * Z) :=
  mutate (participant_change q change) g.

(** [participant_for]: the position of the participant, pushed if missing. *)
Definition participant_for (q : GuidPrefix) (g : DiscoveryGraph) : nat * DiscoveryGraph :=
  match find_index (prefix_is q) (participants g) with
  | Some i => (i, g)
  | None => (length (participants g),
             with_discovered (participants g ++ [MkParticipant q Added 0]) (endpoints g) g)
  end.

Definition participant_removed (g : DiscoveryGraph) (i : nat) : bool :=
  match participants g !! i with Some p => bool_decide (p_lifecycle p = Removed) | None => false end.

Definition endpoint_change (q : GUID_t) (k : EndpointKind) (t ty : str) (change : DiscoveryChange)
    (qs : Qos) (g : DiscoveryGraph) : GraphMutation * DiscoveryGraph :=
  let '(i, g) := participant_for (guidPrefix q) g in
  if bool_decide (change = Added) && participant_removed g i then (M_Invalid, g)
  else match find_if (guid_is q) (endpoints g) with
  | None => (M_Changed, with_discovered (participants g) (endpoints g ++ [MkEndpoint q k t ty qs i change]) g)
  | Some found =>
      if bool_decide (change = Added) && bool_decide (lifecycle found = Removed) then (M_Invalid, g)
      else if bool_decide (kind found = k) && str_eqb (topic found) t && str_eqb (type found) ty
              && bool_decide (lifecycle found = change) then (M_Unchanged, g)
      else (M_Changed, with_discovered (participants g)
              (update_first (guid_is q) (fun e => MkEndpoint (guid e) k t ty qs (participant e) change)
                 (endpoints g)) g)
  end.

Definition apply_endpoint (q : GUID_t) (k : EndpointKind) (t ty : str) (change : DiscoveryChange)
    (qs : Qos) (g : DiscoveryGraph) : DiscoveryGraph * list (Z * Z) :=
  mutate (endpoint_change q k t ty change qs) g.

Definition find_participant (q : GuidPrefix) (g : DiscoveryGraph) : option ParticipantRecord :=
  find_if (prefix_is q) (participants g).

Definition endpoint_snapshot (q : GUID_t) (g : DiscoveryGraph) : option EndpointRecord :=
  find_if (guid_is q) (endpoints g).

Definition endpoint (q : GUID_t) (g : DiscoveryGraph) : EndpointState :=
  if decide (health g = Healthy) then
    match find_if (guid_is q) (endpoints g) with
    | None => E_Unknown
    | Some found =>
        if bool_decide (lifecycle found = Removed) || participant_removed g (participant found)
        then E_Removed else E_Active
    end
  else E_Unavailable.

(** ** Local nodes and endpoints *)

Definition local_node_change (name ns : str) (g : DiscoveryGraph) : GraphMutation * DiscoveryGraph :=
  if next_local_node_id g =? UINT64_MAX then (M_Invalid, g)
  else
    let candidate := next_local_node_id g + 1 in
    (M_Changed, with_local candidate (local_nodes g ++ [MkLocalNode candidate name ns 1])
                  (local_endpoints g) g).

(** The returned id is 0 unless the change was made. *)
Definition add_local_node (name ns : str) (g : DiscoveryGraph) : Z * (DiscoveryGraph * list (Z * Z)) :=
  (if decide (health g = Healthy) then
     (if next_local_node_id g =? UINT64_MAX then 0 else next_local_node_id g + 1)
   else 0,
   mutate (local_node_change name ns) g).

Definition set_references (f : Z -> Z) (n : LocalNodeRecord) : LocalNodeRecord :=
  MkLocalNode (id n) (node_name n) (node_namespace n) (f (references n)).

(** [references] counts live objects, so its [size_t] does not wrap.
    Drop one reference of a node; erase the record that has none left. *)
Definition drop_reference (i : Z) (ns : list LocalNodeRecord) : list LocalNodeRecord * bool :=
  match find_if (id_is i) ns with
  | None => (ns, false)
  | Some n =>
      let r := if 0 <? references n then references n - 1 else references n in
      if r =? 0 then (erase_first (id_is i) ns, true)
      else (update_first (id_is i) (set_references (fun _ => r)) ns, false)
  end.

Definition release_change (i : Z) (g : DiscoveryGraph) : GraphMutation * DiscoveryGraph :=
  let '(ns, erased) := drop_reference i (local_nodes g) in
  (if erased then M_Changed else M_Unchanged,
   with_local (next_local_node_id g) ns (local_endpoints g) g).

Definition release_local_node (i : Z) (g : DiscoveryGraph) : DiscoveryGraph * list (Z * Z) :=
  if i =? 0 then (g, []) else mutate (release_change i) g.

Definition local_endpoint_change (q : GUID_t) (k : EndpointKind) (t ty : str) (node : Z) (qs : Qos)
    (g : DiscoveryGraph) : GraphMutation * DiscoveryGraph :=
  match find_if (id_is node) (local_nodes g) with
  | None => (M_Invalid, g)
  | Some _ =>
      match find_if (l_guid_is q) (local_endpoints g) with
      | Some found =>
          if bool_decide (l_kind found = k) && str_eqb (l_topic found) t && str_eqb (l_type found) ty
             && (node_id found =? node) then (M_Unchanged, g)
          else (M_Changed, with_local (next_local_node_id g) (local_nodes g)
                  (update_first (l_guid_is q) (fun e => MkLocalEndpoint (l_guid e) k t ty qs node)
                     (local_endpoints g)) g)
      | None =>
          (M_Changed, with_local (next_local_node_id g)
             (update_first (id_is node) (set_references (fun r => r + 1)) (local_nodes g))
             (local_endpoints g ++ [MkLocalEndpoint q k t ty qs node]) g)
      end
  end.

Definition add_local_endpoint (q : GUID_t) (k : EndpointKind) (t ty : str) (node : Z) (qs : Qos)
    (g : DiscoveryGraph) : DiscoveryGraph * list (Z * Z) :=
  if node =? 0 then (g, []) else mutate (local_endpoint_change q k t ty node qs) g.

Definition remove_endpoint_change (q : GUID_t) (g : DiscoveryGraph) : GraphMutation * DiscoveryGraph :=
  match find_if (l_guid_is q) (local_endpoints g) with
  | None => (M_Unchanged, g)
  | Some found =>
      let '(ns, _) := drop_reference (node_id found) (local_nodes g) in
      (M_Changed, with_local (next_local_node_id g) ns (erase_first (l_guid_is q) (local_endpoints g)) g)
  end.

Definition remove_local_endpoint (q : GUID_t) (g : DiscoveryGraph) : DiscoveryGraph * list (Z * Z) :=
  mutate (remove_endpoint_change q) g.

(** ** Remote node metadata *)

Definition remote_nodes_change (q : GuidPrefix) (ns : list RemoteNodeRecord) (g : DiscoveryGraph)
    : GraphMutation * DiscoveryGraph :=
  match find_if (rp_prefix_is q) (remote_nodes g) with
  | None =>
      match ns with
      | [] => (M_Unchanged, g)
      | _ => (M_Changed, with_remote_nodes (remote_nodes g ++ [MkRemoteNodes q ns]) g)
      end
  | Some found =>
      if bool_decide (nodes found = ns) then (M_Unchanged, g)
      else match ns with
      | [] => (M_Changed, with_remote_nodes (erase_first (rp_prefix_is q) (remote_nodes g)) g)
      | _ => (M_Changed, with_remote_nodes
                (update_first (rp_prefix_is q) (fun r => MkRemoteNodes (rp_prefix r) ns) (remote_nodes g)) g)
      end
  end.

Definition apply_remote_nodes (q : GuidPrefix) (ns : list RemoteNodeRecord) (g : DiscoveryGraph)
    : DiscoveryGraph * list (Z * Z) :=
  mutate (remote_nodes_change q ns) g.

(** ** Subscriptions *)

Definition subscribe (g : DiscoveryGraph) : option Z * DiscoveryGraph :=
  if next_subscription g =? UINT64_MAX then (None, with_health Unavailable g)
  else
    let i := next_subscription g + 1 in
    (Some i, with_subscriptions i (subscriptions g ++ [i]) g).

Definition unsubscribe (i : Z) (g : DiscoveryGraph) : DiscoveryGraph :=
  with_subscriptions (next_subscription g) (erase_first (Z.eqb i) (subscriptions g)) g.

(** ** Service availability *)

Definition live_in (q : GuidPrefix) (g : DiscoveryGraph) (e : EndpointRecord) : bool :=
  bool_decide (guidPrefix (guid e) = q) && negb (bool_decide (lifecycle e = Removed)) &&
  negb (participant_removed g (participant e)).

Definition carries (t ty : str) (e : EndpointRecord) : bool := str_eqb (topic e) t && str_eqb (type e) ty.

Definition wire_gid (q : GUID_t) : list Z := take 12 (guidPrefix q) ++ take 4 (entityId q).

Definition service (q : GuidPrefix) (request_topic request_type response_topic response_type : str)
    (require_node_association : bool) (g : DiscoveryGraph) : ServiceState :=
  if decide (health g = Healthy) then
    let live := filter (fun e => live_in q g e = true) (endpoints g) in
    let relevant := existsb (fun e => carries request_topic request_type e ||
                                      carries response_topic response_type e) live in
    let request_readers := filter (fun e => carries request_topic request_type e = true /\ kind e = Reader) live in
    let response_writers := filter (fun e => carries response_topic response_type e = true /\ kind e = Writer) live in
    if bool_decide (request_readers = []) || bool_decide (response_writers = []) then
      (if relevant then S_Incomplete else S_Unknown)
    else if negb require_node_association then S_Complete
    else match find_if (rp_prefix_is q) (remote_nodes g) with
    | None => S_Incomplete
    | Some p =>
        if existsb (fun n =>
             existsb (fun e => bool_decide (wire_gid (guid e) ∈ reader_gids n)) request_readers &&
             existsb (fun e => bool_decide (wire_gid (guid e) ∈ writer_gids n)) response_writers) (nodes p)
        then S_Complete else S_Incomplete
    end
  else S_Unavailable.

(** ** Views *)

Record GraphView := MkView {
  v_revision : Z;
  v_participants : list ParticipantRecord;
  v_endpoints : list EndpointRecord;
  v_local_nodes : list LocalNodeRecord;
  v_local_endpoints : list LocalEndpointRecord;
  v_remote_nodes : list RemoteParticipantNodes }.

Definition view (g : DiscoveryGraph) : GraphView :=
  MkView (revision g) (participants g) (endpoints g) (local_nodes g) (local_endpoints g) (remote_nodes g).

(** ** Runs *)

Inductive GraphOp :=
  | Op_participant (q : GuidPrefix) (change : DiscoveryChange)
  | Op_endpoint (q : GUID_t) (k : EndpointKind) (t ty : str) (change : DiscoveryChange) (qs : Qos)
  | Op_add_node (name ns : str)
  | Op_release (i : Z)
  | Op_add_endpoint (q : GUID_t) (k : EndpointKind) (t ty : str) (node : Z) (qs : Qos)
  | Op_remove_endpoint (q : GUID_t)
  | Op_remote (q : GuidPrefix) (ns : list RemoteNodeRecord)
  | Op_subscribe
  | Op_unsubscribe (i : Z)
  | Op_unavailable.

Definition graph_exec (op : GraphOp) (g : DiscoveryGraph) : DiscoveryGraph * list (Z * Z) :=
  match op with
  | Op_participant q c => apply_participant q c g
  | Op_endpoint q k t ty c qs => apply_endpoint q k t ty c qs g
  | Op_add_node name ns => (add_local_node name ns g).2
  | Op_release i => release_local_node i g
  | Op_add_endpoint q k t ty node qs => add_local_endpoint q k t ty node qs g
  | Op_remove_endpoint q => remove_local_endpoint q g
  | Op_remote q ns => apply_remote_nodes q ns g
  | Op_subscribe => ((subscribe g).2, [])
  | Op_unsubscribe i => (unsubscribe i g, [])
  | Op_unavailable => unavailable g
  end.

Definition graph_step (op : GraphOp) (g : DiscoveryGraph) : DiscoveryGraph := (graph_exec op g).1.

(** What a graph query can see of the state, besides the revision. *)
Definition observable (g : DiscoveryGraph) :=
  (participants g, endpoints g,
   (fun n => (id n, node_name n, node_namespace n)) <$> local_nodes g, local_endpoints g, remote_nodes g).

(** ** Well-formed graphs *)

(** Participants are unique and an endpoint points to its own. *)
Record graph_wf (g : DiscoveryGraph) : Prop := {
  wf_prefixes : NoDup (prefix <$> participants g);
  wf_pointers : Forall (fun e => exists p, participants g !! participant e = Some p /\
                          prefix p = guidPrefix (guid e)) (endpoints g) }.

Lemma find_index_None {A} (p : A -> bool) l : find_index p l = None <-> find_if p l = None.
Proof.
  induction l as [|x l IH]; simpl; [done|]. destruct (p x); [done|].
  destruct (find_index p l), (find_if p l); simpl; intuition congruence.
Qed.

Lemma find_index_Some {A} (p : A -> bool) l i :
  find_index p l = Some i -> exists x, l !! i = Some x /\ p x = true.
Proof.
  revert i. induction l as [|x l IH]; intros i; simpl; [done|]. destruct (p x) eqn:Hx.
  - intros [= <-]. by exists x.
  - destruct (find_index p l) as [j|]; [|done]. intros [= <-]. apply (IH j eq_refl).
Qed.

Lemma update_first_lookup {A} (p : A -> bool) f l i y :
  update_first p f l !! i = Some y ->
  exists x, l !! i = Some x /\ (y = x \/ (p x = true /\ y = f x)).
Proof.
  revert i. induction l as [|x l IH]; intros i; simpl; [done|]. destruct (p x) eqn:Hx.
  - destruct i as [|i]; simpl; [intros [= <-]; eauto | eauto].
  - destruct i as [|i]; simpl; [intros [= <-]; eauto | apply IH].
Qed.

Lemma update_first_lookup' {A} (p : A -> bool) f l i x :
  l !! i = Some x -> exists y, update_first p f l !! i = Some y /\ (y = x \/ (p x = true /\ y = f x)).
Proof.
  revert i. induction l as [|z l IH]; intros i; simpl; [done|]. destruct (p z) eqn:Hz.
  - destruct i as [|i]; simpl; [intros [= <-]; eauto | eauto].
  - destruct i as [|i]; simpl; [intros [= <-]; eauto | apply IH].
Qed.

Lemma update_first_fmap {A B} (p : A -> bool) f (h : A -> B) l :
  (forall x, p x = true -> h (f x) = h x) -> h <$> update_first p f l = h <$> l.
Proof.
  intros Hh. induction l as [|x l IH]; [done|]. simpl. destruct (p x) eqn:Hx; simpl.
  - by rewrite Hh.
  - f_equal. apply IH.
Qed.

Lemma update_first_neq {A} (p : A -> bool) f l x :
  find_if p l = Some x -> f x <> x -> update_first p f l <> l.
Proof.
  intros (l1 & l2 & -> & _ & _ & Hu & _)%find_if_split Hne. rewrite Hu.
  intros Heq. apply app_inv_head in Heq. congruence.
Qed.

Lemma erase_first_neq {A} (p : A -> bool) l x : find_if p l = Some x -> erase_first p l <> l.
Proof.
  intros (l1 & l2 & -> & _ & _ & _ & He)%find_if_split. rewrite He. intros Heq.
  apply (f_equal length) in Heq. rewrite !length_app in Heq. simpl in Heq. lia.
Qed.

Lemma snoc_neq {A} (l : list A) x : l ++ [x] <> l.
Proof. intros Heq. apply (f_equal length) in Heq. rewrite length_app in Heq. simpl in Heq. lia. Qed.

Lemma participant_for_spec q g :
  NoDup (prefix <$> participants g) ->
  exists p, participants (participant_for q g).2 !! (participant_for q g).1 = Some p /\ prefix p = q /\
    endpoints (participant_for q g).2 = endpoints g /\
    NoDup (prefix <$> participants (participant_for q g).2) /\
    (forall i x, participants g !! i = Some x -> participants (participant_for q g).2 !! i = Some x) /\
    ((exists x, x ∈ participants g /\ prefix x = q) -> (participant_for q g).2 = g).
Proof.
  intros Hnd. unfold participant_for. destruct (find_index _ _) as [i|] eqn:Hi; simpl.
  - apply find_index_Some in Hi as (p & Hp & Hq%bool_decide_eq_true). exists p. by split_and!.
  - apply find_index_None in Hi. rewrite find_if_None in Hi.
    assert (forall x, x ∈ participants g -> prefix x <> q) as Hno
      by (intros x Hx; apply Hi in Hx; by apply bool_decide_eq_false in Hx).
    eexists. split_and!; [apply list_lookup_middle; done | done | done | | |].
    + rewrite fmap_app. apply NoDup_app. split_and!; [done | | by apply NoDup_singleton].
      intros x (y & -> & Hy)%list_elem_of_fmap Hx%list_elem_of_singleton. by apply (Hno y).
    + intros i x Hx. by apply lookup_app_l_Some.
    + intros (x & Hx & Hq). by apply Hno in Hx.
Qed.

(** Appending or updating participants keeps every pointer meaningful. *)
Lemma pointers_mono (ps ps' : list ParticipantRecord) (es : list EndpointRecord) :
  (forall i p, ps !! i = Some p -> exists p', ps' !! i = Some p' /\ prefix p' = prefix p) ->
  Forall (fun e => exists p, ps !! participant e = Some p /\ prefix p = guidPrefix (guid e)) es ->
  Forall (fun e => exists p, ps' !! participant e = Some p /\ prefix p = guidPrefix (guid e)) es.
Proof.
  intros Hmono Hes. eapply Forall_impl; [exact Hes|]. intros e (p & Hp & Hq).
  destruct (Hmono _ _ Hp) as (p' & Hp' & Hq'). exists p'. by rewrite Hq'.
Qed.

Lemma Forall_update_first {A} (P : A -> Prop) (p : A -> bool) f l :
  Forall P l -> (forall x, x ∈ l -> P x -> P (f x)) -> Forall P (update_first p f l).
Proof.
  intros Hl Hf. apply Forall_lookup. intros i y Hy.
  apply update_first_lookup in Hy as (x & Hx & [->|[_ ->]]).
  - by eapply Forall_lookup_1 in Hl.
  - apply Hf; [by eapply list_elem_of_lookup_2 | by eapply Forall_lookup_1 in Hl].
Qed.

Lemma participant_change_wf q c g : graph_wf g -> graph_wf (participant_change q c g).2.
Proof.
  intros [Hnd Hpt]. unfold participant_change.
  destruct (find_if (prefix_is q) (participants g)) as [p|] eqn:Hf.
  - destruct c, (p_lifecycle p); simpl; try by split.
    destruct (p_generation p =? UINT64_MAX); simpl; [by split|]. split; simpl.
    + by rewrite update_first_fmap.
    + apply (pointers_mono (participants g)); [|done]. intros i x Hx.
      apply (update_first_lookup' (prefix_is q)
        (fun p => MkParticipant (prefix p) Removed (p_generation p + 1))) in Hx
        as (y & Hy & [->|[_ ->]]); eauto.
  - simpl. rewrite find_if_None in Hf. split; simpl.
    + rewrite fmap_app. apply NoDup_app. split_and!; [done | | by apply NoDup_singleton].
      intros x (y & -> & Hy)%list_elem_of_fmap Hx%list_elem_of_singleton.
      apply Hf in Hy. by apply bool_decide_eq_false in Hy.
    + apply (pointers_mono (participants g)); [|done]. intros i x Hx. exists x.
      split; [by apply lookup_app_l_Some | done].
Qed.

Lemma endpoint_change_wf q k t ty c qs g : graph_wf g -> graph_wf (endpoint_change q k t ty c qs g).2.
Proof.
  intros [Hnd Hpt]. unfold endpoint_change.
  destruct (participant_for_spec (guidPrefix q) g Hnd) as (p & Hp & Hq & He & Hnd' & Hmono & _).
  destruct (participant_for (guidPrefix q) g) as [i g1]; simpl in *.
  assert (graph_wf g1) as Hwf1.
  { split; [done|]. rewrite He. apply (pointers_mono (participants g)); [|done].
    intros j x Hx. exists x. split; [by apply Hmono | done]. }
  destruct Hwf1 as [_ Hpt1].
  destruct (_ && participant_removed g1 i); simpl; [by split|].
  destruct (find_if (guid_is q) (endpoints g1)) as [found|] eqn:Hf; simpl.
  - destruct (_ && _); simpl; [by split|]. destruct (_ && _); simpl; [by split|].
    split; [done|]. simpl. apply Forall_update_first; [done|]. by intros x _ Hx.
  - split; [done|]. simpl. apply Forall_app. split; [done|].
    apply Forall_singleton. simpl. eauto.
Qed.

Lemma frame_graph_wf g g' :
  participants g' = participants g -> endpoints g' = endpoints g -> graph_wf g -> graph_wf g'.
Proof. intros Hp He [? ?]. split; by rewrite ?Hp, ?He. Qed.

Lemma mutate_wf change g : graph_wf (change g).2 -> graph_wf g -> graph_wf (mutate change g).1.
Proof.
  intros Hc Hg. unfold mutate. case_decide; [|done]. destruct (change g) as [[] g']; simpl in *.
  - destruct (revision g' =? UINT64_MAX); by apply (frame_graph_wf g').
  - done.
  - by apply (frame_graph_wf g').
Qed.

Lemma graph_step_wf op g : graph_wf g -> graph_wf (graph_step op g).
Proof.
  intros Hg. destruct op; unfold graph_step; simpl.
  - apply mutate_wf; [by apply participant_change_wf | done].
  - apply mutate_wf; [by apply endpoint_change_wf | done].
  - apply mutate_wf; [|done]. unfold local_node_change. destruct (_ =? _); [done|].
    by apply (frame_graph_wf g).
  - unfold release_local_node. destruct (i =? 0); [done|]. apply mutate_wf; [|done].
    unfold release_change. destruct (drop_reference i (local_nodes g)). by apply (frame_graph_wf g).
  - unfold add_local_endpoint. destruct (node =? 0); [done|]. apply mutate_wf; [|done].
    unfold local_endpoint_change. repeat case_match; done || by apply (frame_graph_wf g).
  - apply mutate_wf; [|done]. unfold remove_endpoint_change.
    repeat case_match; done || by apply (frame_graph_wf g).
  - apply mutate_wf; [|done]. unfold remote_nodes_change.
    repeat case_match; done || by apply (frame_graph_wf g).
  - unfold subscribe. destruct (_ =? _); by apply (frame_graph_wf g).
  - by apply (frame_graph_wf g).
  - by apply (frame_graph_wf g).
Qed.

Lemma new_graph_wf : graph_wf new_graph.
Proof. split; constructor. Qed.

(** ** The revision *)

(** What a mutation may do, by the value it returns. *)
Definition change_spec (change : DiscoveryGraph -> GraphMutation * DiscoveryGraph) (g : DiscoveryGraph) : Prop :=
  match change g with
  | (M_Invalid, _) => True
  | (M_Changed, g') => observable g' <> observable g /\ revision g' = revision g /\
      subscriptions g' = subscriptions g /\ health g' = health g
  | (M_Unchanged, g') => observable g' = observable g /\ revision g' = revision g /\
      subscriptions g' = subscriptions g /\ health g' = health g
  end.

Lemma observable_inj g g' :
  observable g = observable g' ->
  participants g = participants g' /\ endpoints g = endpoints g' /\
  (fun n => (id n, node_name n, node_namespace n)) <$> local_nodes g =
    (fun n => (id n, node_name n, node_namespace n)) <$> local_nodes g' /\
  local_endpoints g = local_endpoints g' /\ remote_nodes g = remote_nodes g'.
Proof. by intros [= ? ? ? ? ?]. Qed.

(** The effect of one operation on the revision and the subscribers. *)
Definition revision_spec (g g' : DiscoveryGraph) (calls : list (Z * Z)) : Prop :=
  (health g = Unavailable -> health g' = Unavailable /\ observable g' = observable g /\
     revision g' = revision g) /\
  (health g' = Healthy ->
     (observable g' = observable g /\ revision g' = revision g /\ calls = []) \/
     (observable g' <> observable g /\ revision g' = revision g + 1 /\
      calls = (fun s => (s, revision g')) <$> subscriptions g)).

Lemma mutate_revision change g :
  change_spec change g -> revision_spec g (mutate change g).1 (mutate change g).2.
Proof.
  unfold change_spec, mutate, revision_spec. case_decide as Hh.
  - destruct (change g) as [[] g']; simpl.
    + intros (Hne & Hr & Hs & Hg). split; [congruence|]. rewrite Hr.
      destruct (revision g =? UINT64_MAX); simpl; [done|]. intros _. right.
      unfold notify; simpl. by rewrite Hs, ?Hr.
    + intros (Heq & Hr & Hs & Hg). split; [congruence|]. intros _. by left.
    + intros _. split; [congruence | done].
  - intros _. split; [done|]. by left.
Qed.

Lemma participant_change_spec q c g : change_spec (participant_change q c) g.
Proof.
  unfold change_spec, participant_change. destruct (find_if (prefix_is q) (participants g)) as [p|] eqn:Hf.
  - destruct c, (p_lifecycle p) eqn:Hp; try done. destruct (p_generation p =? UINT64_MAX); [done|].
    split_and!; try done. unfold observable; simpl. intros Heq. simplify_eq.
    revert H. apply (update_first_neq _ _ _ p Hf). destruct p; simpl in *. congruence.
  - split_and!; try done. unfold observable; simpl. intros Heq. simplify_eq. by eapply snoc_neq.
Qed.

Lemma endpoint_change_spec q k t ty c qs g :
  graph_wf g -> change_spec (endpoint_change q k t ty c qs) g.
Proof.
  intros [Hnd Hpt]. unfold change_spec, endpoint_change.
  destruct (participant_for_spec (guidPrefix q) g Hnd) as (p & _ & _ & He & _ & _ & Hsame).
  assert (revision (participant_for (guidPrefix q) g).2 = revision g /\
    subscriptions (participant_for (guidPrefix q) g).2 = subscriptions g /\
    health (participant_for (guidPrefix q) g).2 = health g /\
    local_nodes (participant_for (guidPrefix q) g).2 = local_nodes g /\
    local_endpoints (participant_for (guidPrefix q) g).2 = local_endpoints g) as (Hr & Hs & Hh & _ & _).
  { unfold participant_for. by destruct (find_index _ _). }
  destruct (participant_for (guidPrefix q) g) as [i g1]; simpl in *.
  destruct (_ && participant_removed g1 i); [done|].
  destruct (find_if (guid_is q) (endpoints g1)) as [found|] eqn:Hf.
  - assert (g1 = g) as ->.
    { apply Hsame. rewrite He in Hf. apply find_if_Some in Hf as [Hin Hg%bool_decide_eq_true].
      rewrite Forall_forall in Hpt. destruct (Hpt _ Hin) as (p' & Hp' & Hq').
      exists p'. split; [by eapply list_elem_of_lookup_2 | congruence]. }
    destruct (_ && bool_decide (lifecycle found = Removed)); [done|].
    destruct (bool_decide (kind found = k) && str_eqb (topic found) t && str_eqb (type found) ty
              && bool_decide (lifecycle found = c)) eqn:Hsm; [done|].
    split_and!; try done. unfold observable; simpl. intros Heq. simplify_eq. revert H.
    apply (update_first_neq _ _ _ found Hf). intros Hfe.
    assert (kind found = k /\ topic found = t /\ type found = ty /\ lifecycle found = c)
      as (Ek & Et & Ety & El) by by rewrite <- Hfe.
    rewrite Ek, Et, Ety, El in Hsm. unfold str_eqb in Hsm. by rewrite !bool_decide_eq_true_2 in Hsm.
  - split_and!; try done. intros (_ & Heq & _)%observable_inj. simpl in Heq.
    rewrite He in Heq. by eapply snoc_neq.
Qed.

Lemma drop_reference_strip {B} (h : LocalNodeRecord -> B) i ns :
  (forall n r, h (set_references r n) = h n) ->
  (drop_reference i ns).2 = false -> h <$> (drop_reference i ns).1 = h <$> ns.
Proof.
  intros Hh. unfold drop_reference. destruct (find_if (id_is i) ns) as [n|]; [|done].
  set (r := if 0 <? references n then references n - 1 else references n).
  destruct (r =? 0); simpl; [done|]. intros _. by apply update_first_fmap.
Qed.

Lemma drop_reference_erased i ns :
  (drop_reference i ns).2 = true -> length (drop_reference i ns).1 <> length ns.
Proof.
  unfold drop_reference. destruct (find_if (id_is i) ns) as [n|] eqn:Hf; [|done].
  set (r := if 0 <? references n then references n - 1 else references n).
  destruct (r =? 0); simpl; [|done]. intros _.
  apply find_if_split in Hf as (l1 & l2 & -> & _ & _ & _ & ->). rewrite !length_app. simpl. lia.
Qed.

Lemma release_change_spec i g : change_spec (release_change i) g.
Proof.
  unfold change_spec, release_change.
  pose proof (drop_reference_strip (fun n => (id n, node_name n, node_namespace n)) i (local_nodes g)) as Hs.
  pose proof (drop_reference_erased i (local_nodes g)) as He.
  destruct (drop_reference i (local_nodes g)) as [ns []]; simpl in *; split_and!; try done.
  - unfold observable; simpl. intros Heq. simplify_eq. apply He; [done|].
    apply (f_equal length) in H. by rewrite !length_fmap in H.
  - unfold observable; simpl. by rewrite Hs.
Qed.

Lemma local_endpoint_change_spec q k t ty node qs g : change_spec (local_endpoint_change q k t ty node qs) g.
Proof.
  unfold change_spec, local_endpoint_change.
  destruct (find_if (id_is node) (local_nodes g)); [|done].
  destruct (find_if (l_guid_is q) (local_endpoints g)) as [found|] eqn:Hf.
  - destruct (bool_decide (l_kind found = k) && str_eqb (l_topic found) t && str_eqb (l_type found) ty
              && (node_id found =? node)) eqn:Hsm; [done|].
    split_and!; try done. unfold observable; simpl. intros Heq. simplify_eq. revert H.
    apply (update_first_neq _ _ _ found Hf). intros Hfe.
    assert (l_kind found = k /\ l_topic found = t /\ l_type found = ty /\ node_id found = node)
      as (Ek & Et & Ety & En) by by rewrite <- Hfe.
    rewrite Ek, Et, Ety, En, Z.eqb_refl in Hsm. unfold str_eqb in Hsm.
    by rewrite !bool_decide_eq_true_2 in Hsm.
  - split_and!; try done. unfold observable; simpl. intros Heq. simplify_eq. by eapply snoc_neq.
Qed.

Lemma remote_nodes_change_spec q ns g : change_spec (remote_nodes_change q ns) g.
Proof.
  unfold change_spec, remote_nodes_change.
  destruct (find_if (rp_prefix_is q) (remote_nodes g)) as [found|] eqn:Hf.
  - case_bool_decide as Heq; [done|]. destruct ns as [|n ns]; split_and!; try done;
      intros (_ & _ & _ & _ & Hob)%observable_inj; simpl in Hob; revert Hob.
    + by eapply erase_first_neq.
    + apply (update_first_neq _ _ _ found Hf). intros Hfe. apply Heq. by rewrite <- Hfe.
  - destruct ns as [|n ns]; [done|]. split_and!; try done.
    intros (_ & _ & _ & _ & Hob)%observable_inj. simpl in Hob. by eapply snoc_neq.
Qed.

Lemma local_node_change_spec name ns g : change_spec (local_node_change name ns) g.
Proof.
  unfold change_spec, local_node_change. destruct (_ =? _); [done|].
  split_and!; try done. intros (_ & _ & H & _)%observable_inj. simpl in H.
  apply (f_equal length) in H. rewrite !length_fmap, length_app in H. simpl in H. lia.
Qed.

Lemma remove_endpoint_change_spec q g : change_spec (remove_endpoint_change q) g.
Proof.
  unfold change_spec, remove_endpoint_change.
  destruct (find_if (l_guid_is q) (local_endpoints g)) as [found|] eqn:Hf; [|done].
  destruct (drop_reference (node_id found) (local_nodes g)). split_and!; try done.
  intros (_ & _ & _ & H & _)%observable_inj. simpl in H. revert H. by eapply erase_first_neq.
Qed.

Lemma graph_exec_spec op g :
  graph_wf g -> revision_spec g (graph_exec op g).1 (graph_exec op g).2.
Proof.
  intros Hg. destruct op; simpl.
  - apply mutate_revision, participant_change_spec.
  - by apply mutate_revision, endpoint_change_spec.
  - apply mutate_revision, local_node_change_spec.
  - unfold release_local_node. destruct (i =? 0); [|apply mutate_revision, release_change_spec].
    split; [done|]. by left.
  - unfold add_local_endpoint. destruct (node =? 0);
      [|apply mutate_revision, local_endpoint_change_spec]. split; [done|]. by left.
  - apply mutate_revision, remove_endpoint_change_spec.
  - apply mutate_revision, remote_nodes_change_spec.
  - unfold subscribe. destruct (_ =? _); split; simpl; try done. intros _. by left.
  - split; [done|]. by left.
  - split; done.
Qed.



(** ** Removal is terminal *)

Definition removed_at (q : GUID_t) (g : DiscoveryGraph) : Prop :=
  exists found, find_if (guid_is q) (endpoints g) = Some found /\
    (lifecycle found = Removed \/ participant_removed g (participant found) = true).

Lemma endpoint_removed q g : endpoint q g = E_Removed <-> health g = Healthy /\ removed_at q g.
Proof.
  unfold endpoint, removed_at. case_decide as Hh; [|split; [done | by intros [? _]]].
  destruct (find_if (guid_is q) (endpoints g)) as [found|].
  - destruct (bool_decide (lifecycle found = Removed)) eqn:Hl; simpl.
    + apply bool_decide_eq_true in Hl. split; [eauto 10 | done].
    + apply bool_decide_eq_false in Hl. destruct (participant_removed g (participant found)) eqn:Hp.
      * split; [eauto 10 | done].
      * split; [done|]. intros (_ & x & [= <-] & [?|?]); congruence.
  - split; [done|]. by intros (_ & x & ? & _).
Qed.

Lemma participant_removed_mono g g' i :
  (forall p, participants g !! i = Some p -> exists p', participants g' !! i = Some p' /\
     (p_lifecycle p = Removed -> p_lifecycle p' = Removed)) ->
  participant_removed g i = true -> participant_removed g' i = true.
Proof.
  unfold participant_removed. intros Hm. destruct (participants g !! i) as [p|]; [|done].
  intros Hl%bool_decide_eq_true. destruct (Hm p eq_refl) as (p' & -> & Hl').
  apply bool_decide_eq_true. auto.
Qed.

Lemma find_if_update_guid q q' f es found :
  (forall e, guid (f e) = guid e) ->
  find_if (guid_is q) es = Some found ->
  find_if (guid_is q) (update_first (guid_is q') f es) = Some (if decide (q' = q) then f found else found).
Proof.
  intros Hf. induction es as [|e es IH]; simpl; [done|].
  destruct (guid_is q e) eqn:Hq.
  - intros [= ->]. apply bool_decide_eq_true in Hq as Hg. case_decide as Hqq.
    + subst q'. unfold guid_is at 2. rewrite Hg, bool_decide_eq_true_2 by done. simpl.
      unfold guid_is. by rewrite Hf, Hg, bool_decide_eq_true_2.
    + unfold guid_is at 2. rewrite bool_decide_eq_false_2 by congruence. simpl. by rewrite Hq.
  - intros Hs. destruct (guid_is q' e) eqn:Hq'; simpl.
    + unfold guid_is at 1. rewrite Hf. fold (guid_is q e). rewrite Hq.
      apply bool_decide_eq_true in Hq'. apply bool_decide_eq_false in Hq.
      rewrite decide_False by congruence. done.
    + rewrite Hq. by apply IH.
Qed.

Lemma participant_change_removed q' q c g :
  removed_at q g -> removed_at q (participant_change q' c g).2.
Proof.
  intros (found & Hf & Hr). unfold participant_change.
  assert (forall ps, (forall i p, participants g !! i = Some p -> exists p', ps !! i = Some p' /\
      (p_lifecycle p = Removed -> p_lifecycle p' = Removed)) ->
    removed_at q (with_discovered ps (endpoints g) g)) as Hmono.
  { intros ps Hps. exists found. split; [done|]. destruct Hr as [Hr|Hr]; [by left | right].
    revert Hr. apply participant_removed_mono. auto. }
  assert (removed_at q g) as Hsame by by exists found.
  destruct (find_if (prefix_is q') (participants g)) as [p|].
  - destruct c, (p_lifecycle p); simpl; try done. destruct (_ =? _); simpl; [done|].
    apply Hmono. intros i x Hx.
    apply (update_first_lookup' (prefix_is q')
      (fun p => MkParticipant (prefix p) Removed (p_generation p + 1))) in Hx
      as (y & Hy & [->|[_ ->]]); eauto.
  - simpl. apply Hmono. intros i x Hx. exists x. split; [by apply lookup_app_l_Some | done].
Qed.

Lemma endpoint_change_removed q' q k t ty c qs g :
  graph_wf g -> removed_at q g ->
  (endpoint_change q' k t ty c qs g).1 = M_Invalid \/ removed_at q (endpoint_change q' k t ty c qs g).2.
Proof.
  intros [Hnd Hpt] (found & Hf & Hr). unfold endpoint_change.
  destruct (participant_for_spec (guidPrefix q') g Hnd) as (p & Hp & Hpq & He & Hnd1 & Hmono & _).
  assert (forall i, participant_removed g i = true ->
    participant_removed (participant_for (guidPrefix q') g).2 i = true) as Hpr.
  { intros i. apply participant_removed_mono. intros x Hx. exists x. eauto. }
  destruct (participant_for (guidPrefix q') g) as [i g1]; simpl in *. rewrite He.
  destruct (bool_decide (c = Added) && participant_removed g1 i) eqn:Hinv; [by left|].
  destruct (find_if (guid_is q') (endpoints g)) as [found'|] eqn:Hf'.
  - destruct (bool_decide (c = Added) && bool_decide (lifecycle found' = Removed)) eqn:Hinv'; [by left|].
    right. destruct (_ && bool_decide (lifecycle found' = c)).
    + exists found. simpl. rewrite He. split; [done|]. destruct Hr; [by left | right; auto].
    + eexists. simpl. split.
      * by apply find_if_update_guid.
      * destruct (decide (q' = q)) as [->|Hqq].
        -- rewrite Hf in Hf'. injection Hf' as <-. simpl.
           change (participant_removed (with_discovered (participants g1)
             (update_first (guid_is q) (fun e => MkEndpoint (guid e) k t ty qs (participant e) c) (endpoints g)) g1)
             (participant found)) with (participant_removed g1 (participant found)).
           destruct c; [|by left]. right. destruct Hr as [Hr|Hr]; [|auto].
           simpl in Hinv'. by rewrite bool_decide_eq_true_2 in Hinv'.
        -- destruct Hr as [Hr|Hr]; [by left | right; by apply Hpr].
  - right. exists found. simpl. rewrite find_if_app, Hf. split; [done|].
    destruct Hr as [Hr|Hr]; [by left | right; by apply Hpr].
Qed.

Definition removal_holds (q : GUID_t) (g : DiscoveryGraph) : Prop :=
  health g = Unavailable \/ removed_at q g.

Lemma mutate_removal q change g :
  ((change g).1 = M_Invalid \/ removed_at q (change g).2) ->
  removed_at q g -> removal_holds q (mutate change g).1.
Proof.
  intros Hc Hr. unfold mutate, removal_holds. case_decide as Hh.
  - destruct (change g) as [[] g']; simpl in *; destruct Hc as [Hc|Hc]; try done.
    + destruct (revision g' =? UINT64_MAX); [by left | by right].
    + by right.
    + by left.
    + by left.
  - by right.
Qed.

Lemma removed_frame q g g' :
  participants g' = participants g -> endpoints g' = endpoints g -> removed_at q g -> removed_at q g'.
Proof.
  intros Hp He (found & Hf & Hr). exists found. rewrite He. split; [done|].
  unfold participant_removed in *. by rewrite Hp.
Qed.

Lemma graph_step_removal q op g : graph_wf g -> removal_holds q g -> removal_holds q (graph_step op g).
Proof.
  intros Hg [Hh|Hr].
  - left. destruct (graph_exec_spec op g Hg) as [Hu _]. by apply Hu.
  - destruct op; unfold graph_step; simpl.
    + apply mutate_removal; [right; by apply participant_change_removed | done].
    + apply mutate_removal; [by apply endpoint_change_removed | done].
    + apply mutate_removal; [|done]. right. unfold local_node_change. destruct (_ =? _); [done|].
      by apply (removed_frame q g).
    + unfold release_local_node. destruct (i =? 0); [by right|]. apply mutate_removal; [|done]. right.
      unfold release_change. destruct (drop_reference i (local_nodes g)). by apply (removed_frame q g).
    + unfold add_local_endpoint. destruct (node =? 0); [by right|]. apply mutate_removal; [|done]. right.
      unfold local_endpoint_change. repeat case_match; done || by apply (removed_frame q g).
    + apply mutate_removal; [|done]. right. unfold remove_endpoint_change.
      repeat case_match; done || by apply (removed_frame q g).
    + apply mutate_removal; [|done]. right. unfold remote_nodes_change.
      repeat case_match; done || by apply (removed_frame q g).
    + unfold subscribe. destruct (_ =? _); [by left | right]; by apply (removed_frame q g).
    + right. by apply (removed_frame q g).
    + by left.
Qed.

Lemma run_graph_wf ops g : graph_wf g -> graph_wf (run graph_step ops g).
Proof. apply run_invariant. intros o s. apply graph_step_wf. Qed.

(** a removed endpoint, or one whose participant was removed, stays
    removed: whatever discovery reports afterwards, a query answers Removed,
    or Unavailable once the graph has given up. *)
Theorem removed_is_terminal q ops1 ops2 :
  endpoint q (run graph_step ops1 new_graph) = E_Removed ->
  endpoint q (run graph_step (ops1 ++ ops2) new_graph) = E_Removed \/
  endpoint q (run graph_step (ops1 ++ ops2) new_graph) = E_Unavailable.
Proof.
  intros [_ Hr]%endpoint_removed. rewrite run_app.
  assert (graph_wf (run graph_step ops1 new_graph)) as Hwf by apply run_graph_wf, new_graph_wf.
  revert Hwf Hr. generalize (run graph_step ops1 new_graph). intros g Hwf Hr.
  assert (graph_wf (run graph_step ops2 g) /\ removal_holds q (run graph_step ops2 g)) as [_ [Hh|Hr']].
  { apply (run_invariant graph_step (fun g => graph_wf g /\ removal_holds q g)).
    - intros o s [Hs Hrs]. split; [by apply graph_step_wf | by apply graph_step_removal].
    - split; [done | by right]. }
  - right. unfold endpoint. by rewrite Hh.
  - destruct (health (run graph_step ops2 g)) eqn:Hh.
    + left. by apply endpoint_removed.
    + right. unfold endpoint. by rewrite Hh.
Qed.

Definition guid_a : GUID_t := MkGUID (replicate 12 1) (replicate 4 1).

Lemma removed_is_terminal_witness :
  endpoint guid_a (run graph_step
    ([Op_endpoint guid_a Writer $"t"%dmw $"T"%dmw Added system_default; Op_participant (replicate 12 1) Removed] ++
     [Op_endpoint guid_a Writer $"t"%dmw $"T"%dmw Added system_default]) new_graph) = E_Unavailable.
Proof.
  destruct (removed_is_terminal guid_a
    [Op_endpoint guid_a Writer $"t"%dmw $"T"%dmw Added system_default; Op_participant (replicate 12 1) Removed]
    [Op_endpoint guid_a Writer $"t"%dmw $"T"%dmw Added system_default]) as [H|H].
  - vm_compute. reflexivity.
  - vm_compute in H. discriminate H.
  - exact H.
Defined.

(** A re-announcement that changes only the QoS is taken for a repetition. *)
Example qos_update_ignored :
  let g := run graph_step
    [Op_endpoint guid_a Writer $"t"%dmw $"T"%dmw Added ros2_sensor_data;
     Op_endpoint guid_a Writer $"t"%dmw $"T"%dmw Added ros2_default] new_graph in
  qos <$> endpoint_snapshot guid_a g = Some ros2_sensor_data /\ revision g = 1.
Proof. vm_compute. by split. Qed.

(** ** Service availability *)

(** An endpoint announced, not removed, of a participant not removed. *)
Definition live_endpoint (q : GuidPrefix) (g : DiscoveryGraph) (e : EndpointRecord) : Prop :=
  e ∈ endpoints g /\ guidPrefix (guid e) = q /\ lifecycle e = Added /\
  exists p, participants g !! participant e = Some p /\ p_lifecycle p = Added.

Lemma live_in_spec q g e :
  graph_wf g -> e ∈ filter (fun e => live_in q g e = true) (endpoints g) <-> live_endpoint q g e.
Proof.
  intros [_ Hpt]. rewrite list_elem_of_filter. unfold live_in, live_endpoint, participant_removed.
  rewrite !andb_true_iff, bool_decide_eq_true, !negb_true_iff, bool_decide_eq_false.
  split.
  - intros [[[Hq Hl] Hp] Hin]. split_and!; try done; [by destruct (lifecycle e)|].
    rewrite Forall_forall in Hpt. destruct (Hpt e Hin) as (p & Hpp & _). rewrite Hpp in Hp.
    exists p. split; [done|]. apply bool_decide_eq_false in Hp. by destruct (p_lifecycle p).
  - intros (Hin & Hq & Hl & p & Hpp & Hpl). rewrite Hpp, Hpl, Hl. by split_and!.
Qed.

Definition offers (q : GuidPrefix) (g : DiscoveryGraph) (t ty : str) (k : EndpointKind) (e : EndpointRecord) : Prop :=
  live_endpoint q g e /\ topic e = t /\ type e = ty /\ kind e = k.

(** A claim of a remote Node on one of the endpoints [P] describes. *)
Lemma existsb_claims (P : EndpointRecord -> Prop) (gids : list (list Z)) l :
  (forall e, e ∈ l <-> P e) ->
  existsb (fun e => bool_decide (wire_gid (guid e) ∈ gids)) l = true <->
  exists e, P e /\ wire_gid (guid e) ∈ gids.
Proof.
  intros HP. rewrite existsb_exists. split.
  - intros (e & He%list_elem_of_In & Hb%bool_decide_eq_true). exists e. by rewrite <- HP.
  - intros (e & He & Hg). exists e. by rewrite <- list_elem_of_In, HP, bool_decide_eq_true.
Qed.

Lemma elem_of_offers q g t ty k e :
  graph_wf g ->
  e ∈ filter (fun e => carries t ty e = true /\ kind e = k) (filter (fun e => live_in q g e = true) (endpoints g)) <->
  offers q g t ty k e.
Proof.
  intros Hwf. unfold offers. rewrite list_elem_of_filter, live_in_spec by done.
  unfold carries. rewrite andb_true_iff, !str_eqb_true. tauto.
Qed.

Lemma empty_offers (P : EndpointRecord -> Prop) l :
  (forall e, e ∈ l <-> P e) -> (exists e, P e) <-> l <> [].
Proof.
  intros HP. split.
  - intros (e & He%HP) ->. by apply not_elem_of_nil in He.
  - destruct l as [|e l]; [done|]. intros _. exists e. apply HP. left.
Qed.

Lemma service_complete_iff q rt rty st sty assoc g :
  graph_wf g ->
  service q rt rty st sty assoc g = S_Complete <->
  health g = Healthy /\
  exists r w, offers q g rt rty Reader r /\ offers q g st sty Writer w /\
    (assoc = true -> exists p n, find_if (rp_prefix_is q) (remote_nodes g) = Some p /\ n ∈ nodes p /\
       (exists r', offers q g rt rty Reader r' /\ wire_gid (guid r') ∈ reader_gids n) /\
       (exists w', offers q g st sty Writer w' /\ wire_gid (guid w') ∈ writer_gids n)).
Proof.
  intros Hwf.
  unfold service. case_decide as Hh; [|split; [done | by intros [? _]]].
  set (live := filter (fun e => live_in q g e = true) (endpoints g)).
  set (readers := filter _ live). set (writers := filter _ live).
  assert (forall e, e ∈ readers <-> offers q g rt rty Reader e) as Hr by (intros e; by apply elem_of_offers).
  assert (forall e, e ∈ writers <-> offers q g st sty Writer e) as Hw by (intros e; by apply elem_of_offers).
  clearbody readers writers. pose proof (empty_offers _ _ Hr) as Er. pose proof (empty_offers _ _ Hw) as Ew.
  destruct (bool_decide (readers = [])) eqn:Br; [|destruct (bool_decide (writers = [])) eqn:Bw]; simpl.
  - apply bool_decide_eq_true in Br. split; [by destruct (existsb _ _)|].
    intros (_ & r & w & Hor & _). destruct Er as [Er _]. by destruct Er; [exists r|].
  - apply bool_decide_eq_true in Bw. split; [by destruct (existsb _ _)|].
    intros (_ & r & w & _ & How & _). destruct Ew as [Ew _]. by destruct Ew; [exists w|].
  - apply bool_decide_eq_false in Br, Bw. apply Er in Br as [r Hor]. apply Ew in Bw as [w How].
    destruct assoc; simpl; [|split; [intros _; split; [done|]; by exists r, w | done]].
    destruct (find_if (rp_prefix_is q) (remote_nodes g)) as [p|].
    2: { split; [done|]. intros (_ & _ & _ & _ & _ & Ha). by destruct (Ha eq_refl) as (? & ? & ? & _). }
    match goal with |- context [existsb ?f (nodes p)] => destruct (existsb f (nodes p)) eqn:Hex end.
    + split; [|done]. intros _. split; [done|]. exists r, w. split_and!; try done. intros _.
      apply existsb_exists in Hex as (n & Hn%list_elem_of_In & [H1 H2]%andb_true_iff).
      exists p, n. by rewrite <- (existsb_claims _ _ _ Hr), <- (existsb_claims _ _ _ Hw).
    + split; [done|]. intros (_ & _ & _ & _ & _ & Ha).
      destruct (Ha eq_refl) as (p' & n & [= <-] & Hn & Hc1 & Hc2). apply not_true_iff_false in Hex.
      destruct Hex. apply existsb_exists. exists n. split; [by apply list_elem_of_In|].
      by rewrite andb_true_iff, (existsb_claims _ _ _ Hr), (existsb_claims _ _ _ Hw).
Qed.

(** a service is complete exactly when the graph is healthy and the
    participant has a live request reader and a live response writer of the
    service's topics and types, and, where the association is required, one
    remote Node of that participant claims both. *)
Theorem service_complete_spec q rt rty st sty assoc ops :
  let g := run graph_step ops new_graph in
  service q rt rty st sty assoc g = S_Complete <->
  health g = Healthy /\
  exists r w, offers q g rt rty Reader r /\ offers q g st sty Writer w /\
    (assoc = true -> exists p n, find_if (rp_prefix_is q) (remote_nodes g) = Some p /\ n ∈ nodes p /\
       (exists r', offers q g rt rty Reader r' /\ wire_gid (guid r') ∈ reader_gids n) /\
       (exists w', offers q g st sty Writer w' /\ wire_gid (guid w') ∈ writer_gids n)).
Proof. intros g. by apply service_complete_iff, run_graph_wf, new_graph_wf. Qed.

(** ** Local nodes live as long as their facade or an endpoint *)

(** The graph with the Node facades that have not been destroyed. *)
Record LocalHistory := MkLocalHistory { graph : DiscoveryGraph; facades : gset Z }.

Inductive LocalOp :=
  | L_create (name ns : str)
  | L_release (i : Z)
  | L_add (q : GUID_t) (k : EndpointKind) (t ty : str) (node : Z) (qs : Qos)
  | L_remove (q : GUID_t).

(** A client that destroys a facade once and never re-binds a GUID that is
    still registered to another Node; other requests are not made. *)
Definition local_step (op : LocalOp) (h : LocalHistory) : LocalHistory :=
  let g := graph h in
  match op with
  | L_create name ns =>
      let '(i, (g', _)) := add_local_node name ns g in
      MkLocalHistory g' (if i =? 0 then facades h else {[i]} ∪ facades h)
  | L_release i =>
      if decide (i ∈ facades h) then MkLocalHistory (release_local_node i g).1 (facades h ∖ {[i]}) else h
  | L_add q k t ty node qs =>
      match find_if (l_guid_is q) (local_endpoints g) with
      | Some e => if decide (node_id e = node)
                  then MkLocalHistory (add_local_endpoint q k t ty node qs g).1 (facades h) else h
      | None => MkLocalHistory (add_local_endpoint q k t ty node qs g).1 (facades h)
      end
  | L_remove q => MkLocalHistory (remove_local_endpoint q g).1 (facades h)
  end.

Definition endpoints_of (i : Z) (es : list LocalEndpointRecord) : nat :=
  length (filter (fun e => node_id e = i) es).

Definition holders (i : Z) (fs : gset Z) (es : list LocalEndpointRecord) : Z :=
  (if decide (i ∈ fs) then 1 else 0) + Z.of_nat (endpoints_of i es).

(** Every holder's node is registered once, with exactly its holders. *)
Record local_wf (g : DiscoveryGraph) (fs : gset Z) : Prop := {
  lw_next : 0 <= next_local_node_id g;
  lw_ids : NoDup (id <$> local_nodes g);
  lw_bound : Forall (fun n => 1 <= id n <= next_local_node_id g) (local_nodes g);
  lw_refs : Forall (fun n => references n = holders (id n) fs (local_endpoints g) /\ 1 <= references n)
              (local_nodes g);
  lw_present : forall i, 1 <= holders i fs (local_endpoints g) -> i ∈ id <$> local_nodes g }.

Lemma endpoints_of_app i es1 es2 : endpoints_of i (es1 ++ es2) = (endpoints_of i es1 + endpoints_of i es2)%nat.
Proof. unfold endpoints_of. by rewrite filter_app, length_app. Qed.

Lemma endpoints_of_cons i e es :
  endpoints_of i (e :: es) = ((if decide (node_id e = i) then 1 else 0) + endpoints_of i es)%nat.
Proof. unfold endpoints_of. rewrite filter_cons. by case_decide. Qed.

Lemma find_id i ns :
  match find_if (id_is i) ns with
  | Some n => n ∈ ns /\ id n = i
  | None => i ∉ id <$> ns
  end.
Proof.
  destruct (find_if (id_is i) ns) as [n|] eqn:Hf.
  - apply find_if_Some in Hf as [? ?%Z.eqb_eq]. done.
  - rewrite find_if_None in Hf. intros (n & -> & Hn)%list_elem_of_fmap.
    apply Hf in Hn. by apply Z.eqb_neq in Hn.
Qed.

(** Updating the references of node [i] to match new holders. *)
Lemma local_wf_update g g' fs fs' i f :
  local_wf g fs -> next_local_node_id g' = next_local_node_id g ->
  local_nodes g' = update_first (id_is i) (set_references f) (local_nodes g) ->
  i ∈ id <$> local_nodes g ->
  (forall j, j <> i -> holders j fs' (local_endpoints g') = holders j fs (local_endpoints g)) ->
  (f (holders i fs (local_endpoints g)) = holders i fs' (local_endpoints g')) ->
  1 <= holders i fs' (local_endpoints g') ->
  local_wf g' fs'.
Proof.
  intros [H0 Hnd Hb Hrefs Hp] Hnext Hns Hi Hother Hf Hpos.
  assert (id <$> local_nodes g' = id <$> local_nodes g) as Hids by (rewrite Hns; by apply update_first_fmap).
  split.
  - by rewrite Hnext.
  - by rewrite Hids.
  - rewrite Hns, Hnext. by apply Forall_update_first.
  - rewrite Hns. pose proof (find_id i (local_nodes g)) as Hfind.
    destruct (find_if (id_is i) (local_nodes g)) as [n|] eqn:Hfi; [|done].
    apply find_if_split in Hfi as (l1 & l2 & Heq & Hl1 & Hn & Hu & _). rewrite Hu.
    rewrite Heq in Hrefs, Hnd. apply Forall_app in Hrefs as [R1 [Rn R2]%Forall_cons].
    destruct Hfind as [_ Hid]. rewrite fmap_app, fmap_cons in Hnd.
    apply NoDup_app in Hnd as (_ & D1 & [D2 _]%NoDup_cons).
    assert (forall m, m ∈ l1 \/ m ∈ l2 -> id m <> i) as Hne.
    { intros m [Hm|Hm] Hmi; rewrite <- Hid in Hmi.
      - apply (D1 (id m)); [by apply list_elem_of_fmap_2 | rewrite Hmi; left].
      - apply D2. rewrite <- Hmi. by apply list_elem_of_fmap_2. }
    apply Forall_app. split; [|apply Forall_cons; split].
    + apply Forall_forall. intros m Hm. rewrite Forall_forall in R1. rewrite Hother by auto. by apply R1.
    + simpl. rewrite Hid in *. destruct Rn as [-> _]. by rewrite Hf.
    + apply Forall_forall. intros m Hm. rewrite Forall_forall in R2. rewrite Hother by auto. by apply R2.
  - intros j Hj. rewrite Hids. destruct (decide (j = i)) as [->|Hne]; [done|].
    rewrite Hother in Hj by done. by apply Hp.
Qed.

(** Dropping one holder of node [i]. *)
Lemma local_wf_drop g g' fs fs' i :
  local_wf g fs -> next_local_node_id g' = next_local_node_id g ->
  local_nodes g' = (drop_reference i (local_nodes g)).1 ->
  (forall j, j <> i -> holders j fs' (local_endpoints g') = holders j fs (local_endpoints g)) ->
  (holders i fs' (local_endpoints g') = holders i fs (local_endpoints g) - 1) ->
  1 <= holders i fs (local_endpoints g) ->
  local_wf g' fs'.
Proof.
  intros Hwf Hnext Hns Hother Hi Hpos. destruct Hwf as [H0 Hnd Hb Hrefs Hp] eqn:Hwfe.
  assert (local_wf g fs) as Hwf0 by done. clear Hwfe.
  pose proof (Hp i Hpos) as Hin. unfold drop_reference in Hns. pose proof (find_id i (local_nodes g)) as Hfind.
  destruct (find_if (id_is i) (local_nodes g)) as [n|] eqn:Hfi; [|done].
  destruct Hfind as [Hnin Hid].
  assert (references n = holders i fs (local_endpoints g)) as Hrn.
  { rewrite Forall_forall in Hrefs. destruct (Hrefs n Hnin) as [-> _]. by rewrite Hid. }
  rewrite Hrn in Hns. destruct (Z.ltb_spec 0 (holders i fs (local_endpoints g))); [|lia].
  destruct (Z.eqb_spec (holders i fs (local_endpoints g) - 1) 0) as [Hz|Hz]; simpl in Hns.
  - apply find_if_split in Hfi as (l1 & l2 & Heq & Hl1 & _ & _ & He). rewrite He in Hns.
    rewrite Heq in Hrefs, Hb, Hnd, Hp.
    rewrite fmap_app, fmap_cons in Hnd. apply NoDup_app in Hnd as (D0 & D1 & [D2 D3]%NoDup_cons).
    apply Forall_app in Hrefs as [R1 [_ R2]%Forall_cons], Hb as [B1 [_ B2]%Forall_cons].
    assert (forall m, m ∈ l1 ++ l2 -> id m <> i) as Hne.
    { intros m [Hm|Hm]%elem_of_app Hmi; rewrite <- Hid in Hmi.
      - apply (D1 (id m)); [by apply list_elem_of_fmap_2 | rewrite Hmi; left].
      - apply D2. rewrite <- Hmi. by apply list_elem_of_fmap_2. }
    split.
    + by rewrite Hnext.
    + rewrite Hns, fmap_app. apply NoDup_app. split_and!; [done | | done].
      intros x Hx Hx2. apply (D1 x Hx). by right.
    + rewrite Hns, Hnext. by apply Forall_app.
    + rewrite Hns. apply Forall_forall. intros m Hm. rewrite Hother by by apply Hne.
      assert (m ∈ l1 ++ l2) as [Hm1|Hm2]%elem_of_app by done.
      * rewrite Forall_forall in R1. by apply R1.
      * rewrite Forall_forall in R2. by apply R2.
    + intros j Hj. destruct (decide (j = i)) as [->|Hji]; [lia|]. rewrite Hother in Hj by done.
      apply Hp in Hj. rewrite Hns. rewrite fmap_app, fmap_cons in Hj. rewrite fmap_app. set_solver.
  - apply (local_wf_update g g' fs fs' i (fun _ => holders i fs (local_endpoints g) - 1)); try done; lia.
Qed.

Lemma local_wf_frame g g' fs :
  next_local_node_id g' = next_local_node_id g -> local_nodes g' = local_nodes g ->
  local_endpoints g' = local_endpoints g -> local_wf g fs -> local_wf g' fs.
Proof. intros Hn Hl He [? ? ? ? ?]. split; by rewrite ?Hn, ?Hl, ?He. Qed.

Lemma holders_other_facade i j fs fs' es :
  (j ∈ fs' <-> j ∈ fs) -> j <> i -> holders j fs' es = holders j fs es.
Proof. intros Hj _. unfold holders. by repeat case_decide; tauto || done. Qed.

Definition local_inv (h : LocalHistory) : Prop :=
  health (graph h) = Healthy -> local_wf (graph h) (facades h).

Lemma mutate_local change g fs :
  (forall m g', health g = Healthy -> change g = (m, g') -> m <> M_Invalid -> local_wf g' fs) ->
  health (mutate change g).1 = Healthy -> local_wf (mutate change g).1 fs.
Proof.
  intros Hc. unfold mutate. case_decide as Hh; [|by simpl; intros ?].
  destruct (change g) as [[] g'] eqn:Hch; simpl.
  - destruct (revision g' =? UINT64_MAX); simpl; [done|]. intros _.
    by apply (local_wf_frame g'), (Hc M_Changed).
  - intros _. by apply (Hc M_Unchanged).
  - done.
Qed.

Lemma create_inv name ns h : local_inv h -> local_inv (local_step (L_create name ns) h).
Proof.
  intros Hi. unfold local_inv, local_step, add_local_node.
  destruct (mutate (local_node_change name ns) (graph h)) as [g' calls] eqn:Hm. simpl.
  intros Hh. replace g' with (mutate (local_node_change name ns) (graph h)).1 in * by by rewrite Hm.
  clear Hm. revert Hh. apply mutate_local. intros m g2 Hh Hch Hne.
  specialize (Hi Hh). rewrite Hh. simpl decide. cbn iota. unfold local_node_change in Hch.
  destruct (next_local_node_id (graph h) =? UINT64_MAX); [by simplify_eq|].
  injection Hch as <- <-. destruct Hi as [H0 Hnd Hb Hrefs Hp].
  set (i := next_local_node_id (graph h) + 1). destruct (Z.eqb_spec i 0); [lia|].
  assert (forall n, n ∈ local_nodes (graph h) -> id n <> i) as Hfresh.
  { intros n0 Hn0. rewrite Forall_forall in Hb. apply Hb in Hn0. lia. }
  assert (i ∉ id <$> local_nodes (graph h)) as Hni.
  { intros (n0 & Heq & Hn0)%list_elem_of_fmap. by apply (Hfresh n0). }
  assert (holders i (facades h) (local_endpoints (graph h)) < 1) as Hzero.
  { destruct (Z.lt_ge_cases (holders i (facades h) (local_endpoints (graph h))) 1); [done|].
    by apply Hp in H. }
  assert (holders i ({[i]} ∪ facades h) (local_endpoints (graph h)) = 1) as Hone.
  { unfold holders in *. rewrite decide_True by set_solver. case_decide; lia. }
  assert (forall j, j <> i -> holders j ({[i]} ∪ facades h) (local_endpoints (graph h)) =
    holders j (facades h) (local_endpoints (graph h))) as Hother.
  { intros j Hj. apply (holders_other_facade i); [set_solver | done]. }
  replace (if i =? 0 then facades h else {[i]} ∪ facades h) with ({[i]} ∪ facades h : gset Z)
    by (destruct (Z.eqb_spec i 0); [lia | done]).
  split; simpl.
  - lia.
  - rewrite fmap_app. apply NoDup_app. split_and!; [done | | by apply NoDup_singleton].
    by intros x Hx ->%list_elem_of_singleton.
  - apply Forall_app. split; [|apply Forall_singleton; simpl; lia].
    eapply Forall_impl; [exact Hb|]. simpl. intros; lia.
  - apply Forall_app. split; [|apply Forall_singleton; simpl; fold i; lia].
    apply Forall_forall. intros n0 Hn0. rewrite Hother by by apply Hfresh.
    rewrite Forall_forall in Hrefs. by apply Hrefs.
  - intros j Hj. rewrite fmap_app. destruct (decide (j = i)) as [->|Hne'].
    + apply elem_of_app. right. left.
    + rewrite Hother in Hj by done. apply elem_of_app. left. by apply Hp.
Qed.

Lemma release_inv i h : local_inv h -> local_inv (local_step (L_release i) h).
Proof.
  intros Hi. unfold local_inv, local_step. case_decide as Hin; [|done]. simpl.
  unfold release_local_node. destruct (Z.eqb_spec i 0) as [->|Hne].
  - intros Hh. specialize (Hi Hh). exfalso. destruct Hi as [_ _ Hb _ Hp].
    assert (0 ∈ id <$> local_nodes (graph h)) as (n & Heq & Hn)%list_elem_of_fmap.
    { apply Hp. unfold holders. rewrite decide_True by done. lia. }
    rewrite Forall_forall in Hb. apply Hb in Hn. lia.
  - apply mutate_local. intros m g2 Hh Hch _. specialize (Hi Hh). unfold release_change in Hch.
    destruct (drop_reference i (local_nodes (graph h))) as [ns b] eqn:Hd. injection Hch as <- <-.
    apply (local_wf_drop (graph h) _ (facades h) _ i); try done; simpl.
    + by rewrite Hd.
    + intros j Hj. apply (holders_other_facade i); [set_solver | done].
    + unfold holders. rewrite decide_False by set_solver. rewrite decide_True by done. lia.
    + unfold holders. rewrite decide_True by done. lia.
Qed.

Lemma add_inv q k t ty node qs h : local_inv h -> local_inv (local_step (L_add q k t ty node qs) h).
Proof.
  intros Hi. unfold local_inv, local_step.
  assert (forall m g2, health (graph h) = Healthy ->
    (forall e, find_if (l_guid_is q) (local_endpoints (graph h)) = Some e -> node_id e = node) ->
    local_endpoint_change q k t ty node qs (graph h) = (m, g2) -> m <> M_Invalid ->
    local_wf g2 (facades h)) as Hmain.
  { intros m g2 Hh Hdisc Hch Hm. specialize (Hi Hh). unfold local_endpoint_change in Hch.
    pose proof (find_id node (local_nodes (graph h))) as Hfn.
    destruct (find_if (id_is node) (local_nodes (graph h))) as [n|]; [|by simplify_eq].
    destruct (find_if (l_guid_is q) (local_endpoints (graph h))) as [e|] eqn:He.
    - destruct (_ && (node_id e =? node)); injection Hch as <- <-; [done|].
      specialize (Hdisc e eq_refl).
      assert (forall j, holders j (facades h) (update_first (l_guid_is q)
        (fun e => MkLocalEndpoint (l_guid e) k t ty qs node) (local_endpoints (graph h))) =
        holders j (facades h) (local_endpoints (graph h))) as Hsame.
      { intros j. unfold holders. do 2 f_equal.
        apply find_if_split in He as (l1 & l2 & -> & _ & _ & -> & _).
        rewrite !endpoints_of_app, !endpoints_of_cons. simpl. by rewrite Hdisc. }
      destruct Hi as [? ? ? Hrefs Hp]. split; simpl; try done.
      + eapply Forall_impl; [exact Hrefs|]. intros x. by rewrite Hsame.
      + intros j. rewrite Hsame. apply Hp.
    - injection Hch as <- <-. destruct Hfn as [Hn Hid].
      apply (local_wf_update (graph h) _ (facades h) _ node (fun r => r + 1)); try done; simpl.
      + rewrite <- Hid. by apply list_elem_of_fmap_2.
      + intros j Hj. unfold holders. rewrite endpoints_of_app, endpoints_of_cons. simpl.
        rewrite (decide_False (P := node = j)) by done. unfold endpoints_of at 2. simpl. lia.
      + unfold holders. rewrite endpoints_of_app, endpoints_of_cons. simpl.
        rewrite (decide_True (P := node = node)) by done. unfold endpoints_of at 3. simpl. lia.
      + unfold holders. rewrite endpoints_of_app, endpoints_of_cons. simpl.
        rewrite (decide_True (P := node = node)) by done. case_decide; lia. }
  unfold add_local_endpoint. destruct (find_if (l_guid_is q) (local_endpoints (graph h))) as [e|] eqn:He.
  - case_decide as Hn; [|done]. simpl. destruct (node =? 0); [done|].
    apply mutate_local. intros m g2 Hh. apply Hmain; [done|]. intros e'. by intros [= <-].
  - simpl. destruct (node =? 0); [done|]. apply mutate_local. intros m g2 Hh. by apply Hmain.
Qed.

Lemma remove_inv q h : local_inv h -> local_inv (local_step (L_remove q) h).
Proof.
  intros Hi. unfold local_inv, local_step. simpl. apply mutate_local. intros m g2 Hh Hch _.
  specialize (Hi Hh). unfold remove_endpoint_change in Hch.
  destruct (find_if (l_guid_is q) (local_endpoints (graph h))) as [e|] eqn:He; [|by simplify_eq].
  destruct (drop_reference (node_id e) (local_nodes (graph h))) as [ns b] eqn:Hd.
  injection Hch as <- <-. apply find_if_split in He as (l1 & l2 & Heq & _ & _ & _ & Her).
  apply (local_wf_drop (graph h) _ (facades h) _ (node_id e)); try done; simpl.
  - by rewrite Hd.
  - intros j Hj. unfold holders. rewrite Her, Heq, !endpoints_of_app, endpoints_of_cons.
    rewrite (decide_False (P := node_id e = j)) by congruence. done.
  - unfold holders. rewrite Her, Heq, !endpoints_of_app, endpoints_of_cons.
    rewrite (decide_True (P := node_id e = node_id e)) by done. lia.
  - unfold holders. rewrite Heq, endpoints_of_app, endpoints_of_cons.
    rewrite (decide_True (P := node_id e = node_id e)) by done. case_decide; lia.
Qed.

(** a local Node is visible in the graph exactly as long as its facade
    or one of its endpoints lives: while the graph is healthy, its record is
    there, once, if and only if somebody holds it, and its reference count is
    the number of holders. *)
Theorem local_nodes_lifetime ops i :
  let h := run local_step ops (MkLocalHistory new_graph ∅) in
  health (graph h) = Healthy ->
  NoDup (id <$> local_nodes (graph h)) /\
  (i ∈ id <$> local_nodes (graph h) <->
     i ∈ facades h \/ exists e, e ∈ local_endpoints (graph h) /\ node_id e = i) /\
  (forall n, n ∈ local_nodes (graph h) -> id n = i ->
     references n = holders i (facades h) (local_endpoints (graph h))).
Proof.
  intros h Hh. assert (local_inv h) as Hi.
  { apply run_invariant.
    - intros [] s Hs; [by apply create_inv | by apply release_inv | by apply add_inv | by apply remove_inv].
    - intros _. split; simpl; try constructor; [lia|]. intros j. unfold holders, endpoints_of; simpl.
      rewrite decide_False by set_solver. lia. }
  destruct (Hi Hh) as [_ Hnd _ Hrefs Hp]. rewrite Forall_forall in Hrefs. split_and!; [done | |].
  - split.
    + intros (n & -> & Hn)%list_elem_of_fmap. destruct (Hrefs n Hn) as [Heq Hpos]. rewrite Heq in Hpos.
      unfold holders in Hpos. case_decide; [by left | right].
      unfold endpoints_of in Hpos. destruct (filter _ _) as [|e r] eqn:Hf; [simpl in Hpos; lia|].
      assert (e ∈ filter (fun e => node_id e = id n) (local_endpoints (graph h))) as He by (rewrite Hf; left).
      apply list_elem_of_filter in He. exists e. tauto.
    + intros Hhold. apply Hp. unfold holders. destruct Hhold as [Hf|(e & He & Hn)].
      * rewrite decide_True by done. lia.
      * assert (e ∈ filter (fun e => node_id e = i) (local_endpoints (graph h))) as Hin
          by by apply list_elem_of_filter.
        unfold endpoints_of. destruct (filter _ _); [by apply not_elem_of_nil in Hin|].
        simpl. case_decide; lia.
  - intros n Hn <-. by apply Hrefs.
Qed.

Definition sample_locals : list LocalOp :=
  [L_create $"a"%dmw $"/"%dmw; L_add guid_a Writer $"t"%dmw $"T"%dmw 1 system_default; L_release 1].

Lemma local_nodes_lifetime_witness :
  1 ∈ id <$> local_nodes (graph (run local_step sample_locals (MkLocalHistory new_graph ∅))).
Proof.
  apply (local_nodes_lifetime sample_locals 1); [vm_compute; reflexivity|].
  right. eexists. split; [vm_compute; left | reflexivity].
Defined.

(** Re-binding a registered GUID to another Node moves no reference: the old
    Node outlives its facade and its endpoints, and the new Node's record is
    gone while its facade lives. *)
Example rebinding_breaks_references :
  let g := run graph_step
    [Op_add_node $"a"%dmw $"/"%dmw; Op_add_node $"b"%dmw $"/"%dmw;
     Op_add_endpoint guid_a Writer $"t"%dmw $"T"%dmw 1 system_default;
     Op_add_endpoint guid_a Writer $"t"%dmw $"T"%dmw 2 system_default;
     Op_remove_endpoint guid_a] new_graph in
  id <$> local_nodes g = [1] /\ references <$> local_nodes g = [2] /\ local_endpoints g = [].
Proof. vm_compute. by split_and!. Qed.

(** ** Remote participants are listed once *)

Definition remote_wf (g : DiscoveryGraph) : Prop :=
  NoDup (rp_prefix <$> remote_nodes g) /\ Forall (fun r => nodes r <> []) (remote_nodes g).

(** The snapshot a participant's query finds after it has been replaced. *)
Definition replaced (q : GuidPrefix) (ns : list RemoteNodeRecord) : option RemoteParticipantNodes :=
  match ns with [] => None | _ => Some (MkRemoteNodes q ns) end.

Lemma rp_prefix_is_true q r : rp_prefix_is q r = true <-> rp_prefix r = q.
Proof. unfold rp_prefix_is. by rewrite bool_decide_eq_true. Qed.

Lemma find_prefix_None q l : find_if (rp_prefix_is q) l = None <-> q ∉ rp_prefix <$> l.
Proof.
  rewrite find_if_None. split.
  - intros Hall (r & -> & Hr)%list_elem_of_fmap. apply Hall in Hr.
    by rewrite (proj2 (rp_prefix_is_true _ _)) in Hr.
  - intros Hn r Hr. destruct (rp_prefix_is q r) eqn:Hq; [|done]. apply rp_prefix_is_true in Hq as <-.
    by destruct Hn; apply list_elem_of_fmap_2.
Qed.

Lemma remote_nodes_change_replaces q ns g :
  remote_wf g ->
  let g' := (remote_nodes_change q ns g).2 in
  remote_wf g' /\ find_if (rp_prefix_is q) (remote_nodes g') = replaced q ns.
Proof.
  intros [Hnd Hne]. unfold remote_wf, remote_nodes_change, replaced.
  destruct (find_if (rp_prefix_is q) (remote_nodes g)) as [r|] eqn:Hf.
  - pose proof Hf as Hf'. apply find_if_split in Hf' as (l1 & l2 & Heq & Hl1 & Hp & Hu & He).
    apply rp_prefix_is_true in Hp as <-. pose proof Hne as Hne'. rewrite Heq in Hne'.
    apply Forall_app in Hne' as [N1 [Nr N2]%Forall_cons].
    pose proof Hnd as Hnd'. rewrite Heq, fmap_app, fmap_cons in Hnd'.
    apply NoDup_app in Hnd' as (D1 & D2 & [D3 D4]%NoDup_cons).
    assert (rp_prefix r ∉ rp_prefix <$> l1) as Hr1.
    { intros Hin. apply (D2 _ Hin). left. }
    case_bool_decide as Hsame; [subst ns|destruct ns as [|n ns]; simpl].
    + simpl. rewrite Hf. destruct (nodes r) eqn:Hn; [done|]. split; [done|]. by destruct r; simpl in *; subst.
    + rewrite He. split_and!; [| by apply Forall_app |].
      * rewrite fmap_app. apply NoDup_app. split_and!; try done. intros x Hx Hx2. apply (D2 x Hx). by right.
      * apply find_prefix_None. rewrite fmap_app. set_solver.
    + rewrite Hu. split_and!.
      * by rewrite fmap_app, fmap_cons, Heq, fmap_app, fmap_cons in *.
      * apply Forall_app. split; [done|]. by constructor.
      * rewrite find_if_app. rewrite (proj2 (find_prefix_None _ l1)) by done. simpl.
        by rewrite (proj2 (rp_prefix_is_true _ _)).
  - pose proof (proj1 (find_prefix_None _ _) Hf) as Hn. destruct ns as [|n ns]; simpl; [by split_and!|].
    split_and!.
    + rewrite fmap_app. apply NoDup_app. split_and!; [done | | by apply NoDup_singleton].
      intros x Hx. simpl. rewrite list_elem_of_singleton. by intros ->.
    + apply Forall_app. split; [done|]. by constructor.
    + rewrite find_if_app, Hf. simpl. by rewrite (proj2 (rp_prefix_is_true _ _)).
Qed.

Lemma mutate_remote_wf change g :
  remote_wf g -> remote_wf (change g).2 -> remote_wf (mutate change g).1.
Proof.
  intros Hg Hc. unfold mutate. case_decide; [|done].
  destruct (change g) as [[] g']; simpl in *; try done. by destruct (_ =? _).
Qed.

Lemma graph_step_remote_wf op g : remote_wf g -> remote_wf (graph_step op g).
Proof.
  intros Hg. unfold graph_step. destruct op; simpl; try done.
  - apply mutate_remote_wf; [done|]. unfold participant_change. by repeat case_match.
  - apply mutate_remote_wf; [done|]. unfold endpoint_change, participant_for. by repeat (case_match; simplify_eq/=).
  - apply mutate_remote_wf; [done|]. unfold local_node_change. by repeat case_match.
  - unfold release_local_node. case_match; [done|]. apply mutate_remote_wf; [done|].
    unfold release_change. by repeat case_match.
  - unfold add_local_endpoint. case_match; [done|]. apply mutate_remote_wf; [done|].
    unfold local_endpoint_change. by repeat case_match.
  - apply mutate_remote_wf; [done|]. unfold remove_endpoint_change. by repeat case_match.
  - apply mutate_remote_wf; [done|]. by apply remote_nodes_change_replaces.
  - unfold subscribe. by case_match.
Qed.

Lemma run_remote_wf ops : remote_wf (run graph_step ops new_graph).
Proof.
  apply run_invariant; [apply graph_step_remote_wf|]. split; constructor.
Qed.

(** A healthy graph holds exactly the last snapshot of a participant. *)
Lemma apply_remote_nodes_replaces q ns g :
  remote_wf g -> health g = Healthy ->
  find_if (rp_prefix_is q) (remote_nodes (apply_remote_nodes q ns g).1) = replaced q ns.
Proof.
  intros Hg Hh. destruct (remote_nodes_change_replaces q ns g Hg) as [_ <-].
  unfold apply_remote_nodes, mutate. rewrite decide_True by done.
  destruct (remote_nodes_change q ns g) as [[] g']; simpl; try done. by destruct (_ =? _).
Qed.
