(* ===== verification/Subscriptions.v ===== *)
(** * Subscriptions: the callbacks of the discovery graph as they run

    [Discovery] treats [notify] as one step.  Here [notify] and [unsubscribe]
    (src/impl/discovery_graph.hpp) are cut at the mutexes of the graph and of
    each [Subscriber], and interleaved for any number of threads: after a
    change a thread copies the subscribers and the revision, and calls the
    subscribers one by one; a [Subscription] that is reset is erased first,
    then stops accepting, and waits for the calls in flight if it drains. *)

From S2P Require Import Prelude Strings Discovery.
Local Open Scope Z_scope.

(** [since]: the revision at the time of [subscribe] (not in the code). *)
Record Subscriber := MkSubscriber { accepting : bool; in_flight : nat; since : Z }.

(** What a thread still has to do. *)
Inductive Thread :=
  | N_begin                                        (** [notify], before it copies *)
  | N_next (revision : Z) (todo : list Z)          (** about to look at the next subscriber *)
  | N_calling (revision : Z) (s : Z) (todo : list Z)   (** in the callback *)
  | N_leaving (revision : Z) (s : Z) (todo : list Z)   (** the callback is over *)
  | U_erased (s : Z) (drain : bool)                (** [unsubscribe], after the erase *)
  | U_asleep (s : Z) (signalled : bool)            (** in [cv.wait] *)
  | U_drained (s : Z).                             (** [close_and_drain] has returned *)

(** [calls]: the callbacks made, latest first. *)
Record GraphRun := MkGraphRun {
  graph : DiscoveryGraph; subscribers : gmap Z Subscriber; threads : list Thread; calls : list (Z * Z) }.

Definition stop_accepting (x : Subscriber) : Subscriber := MkSubscriber false (in_flight x) (since x).
Definition enter (x : Subscriber) : Subscriber := MkSubscriber (accepting x) (S (in_flight x)) (since x).
Definition leave (x : Subscriber) : Subscriber := MkSubscriber (accepting x) (in_flight x - 1) (since x).

(** [cv.notify_all] of a subscriber. *)
Definition signal (s : Z) (t : Thread) : Thread :=
  match t with U_asleep s' b => U_asleep s' (b || (s' =? s)) | t => t end.

(** The predicate of [cv.wait]. *)
Definition after_close (s : Z) (drain : bool) (x : Subscriber) : list Thread :=
  if negb drain then [] else if (in_flight x =? 0)%nat then [U_drained s] else [U_asleep s false].

(** [subscribe] and [unsubscribe] have steps of their own. *)
Definition is_change (op : GraphOp) : bool :=
  match op with Op_subscribe | Op_unsubscribe _ => false | _ => true end.

(** [mutate] notifies of a new revision or health, [unavailable] always. *)
Definition notifies (op : GraphOp) (g : DiscoveryGraph) : bool :=
  match op with
  | Op_unavailable => true
  | _ => negb (revision (graph_step op g) =? revision g) || bool_decide (health (graph_step op g) <> health g)
  end.

Inductive sub_step : GraphRun -> GraphRun -> Prop :=
  | ss_change op g m ts c :
      is_change op = true ->
      sub_step (MkGraphRun g m ts c)
        (MkGraphRun (graph_step op g) m ((if notifies op g then [N_begin] else []) ++ ts) c)
  | ss_subscribe g m ts c :
      sub_step (MkGraphRun g m ts c)
        (MkGraphRun (subscribe g).2
           (match (subscribe g).1 with Some s => <[s := MkSubscriber true 0 (revision g)]> m | None => m end) ts c)
  | ss_unsubscribe g m ts c s drain :
      s ∈ subscriptions g ->
      sub_step (MkGraphRun g m ts c) (MkGraphRun (unsubscribe s g) m (U_erased s drain :: ts) c)
  | ss_copy g m ts1 ts2 c :
      sub_step (MkGraphRun g m (ts1 ++ N_begin :: ts2) c)
        (MkGraphRun g m (ts1 ++ N_next (revision g) (subscriptions g) :: ts2) c)
  | ss_skip g m ts1 ts2 c r s todo x :
      m !! s = Some x -> accepting x = false ->
      sub_step (MkGraphRun g m (ts1 ++ N_next r (s :: todo) :: ts2) c) (MkGraphRun g m (ts1 ++ N_next r todo :: ts2) c)
  | ss_enter g m ts1 ts2 c r s todo x :
      m !! s = Some x -> accepting x = true ->
      sub_step (MkGraphRun g m (ts1 ++ N_next r (s :: todo) :: ts2) c)
        (MkGraphRun g (<[s := enter x]> m) (ts1 ++ N_calling r s todo :: ts2) ((s, r) :: c))
  | ss_return g m ts1 ts2 c r s todo (threw : bool) :
      sub_step (MkGraphRun g m (ts1 ++ N_calling r s todo :: ts2) c)
        (MkGraphRun (if threw then with_health Unavailable g else g) m (ts1 ++ N_leaving r s todo :: ts2) c)
  | ss_leave g m ts1 ts2 c r s todo x :
      m !! s = Some x ->
      sub_step (MkGraphRun g m (ts1 ++ N_leaving r s todo :: ts2) c)
        (MkGraphRun g (<[s := leave x]> m)
           (let ts := ts1 ++ N_next r todo :: ts2 in if (in_flight (leave x) =? 0)%nat then signal s <$> ts else ts) c)
  | ss_done g m ts1 ts2 c r :
      sub_step (MkGraphRun g m (ts1 ++ N_next r [] :: ts2) c) (MkGraphRun g m (ts1 ++ ts2) c)
  | ss_close g m ts1 ts2 c s drain x :
      m !! s = Some x ->
      sub_step (MkGraphRun g m (ts1 ++ U_erased s drain :: ts2) c)
        (MkGraphRun g (<[s := stop_accepting x]> m) (ts1 ++ after_close s drain x ++ ts2) c)
  | ss_wake g m ts1 ts2 c s signalled x :        (* spurious when not signalled *)
      m !! s = Some x ->
      sub_step (MkGraphRun g m (ts1 ++ U_asleep s signalled :: ts2) c)
        (MkGraphRun g m (ts1 ++ after_close s true x ++ ts2) c).

Definition starts (y : GraphRun) : Prop := y = MkGraphRun new_graph ∅ [] [].

(** ** The invariant *)

Definition in_call (s : Z) (t : Thread) : bool :=
  match t with N_calling _ s' _ | N_leaving _ s' _ => s' =? s | _ => false end.

(** [t] will look at [s] with the revision [r]. *)
Definition pending (s r : Z) (t : Thread) : Prop :=
  match t with
  | N_begin => True
  | N_next r' todo | N_calling r' _ todo | N_leaving r' _ todo => r' = r /\ s ∈ todo
  | _ => False
  end.

Definition thread_ok (g : DiscoveryGraph) (m : gmap Z Subscriber) (t : Thread) : Prop :=
  match t with
  | N_calling _ s _ | N_leaving _ s _ => is_Some (m !! s)
  | U_erased s _ => is_Some (m !! s) /\ s ∉ subscriptions g
  | U_asleep s b => exists x, m !! s = Some x /\ accepting x = false /\ (b = false -> in_flight x <> 0%nat)
  | U_drained s => exists x, m !! s = Some x /\ accepting x = false /\ in_flight x = 0%nat
  | _ => True
  end.

Record sub_inv (y : GraphRun) : Prop := {
  i_flight : forall s x, subscribers y !! s = Some x -> in_flight x = count_if (in_call s) (threads y);
  i_threads : forall t, t ∈ threads y -> thread_ok (graph y) (subscribers y) t;
  i_open : forall s, s ∈ subscriptions (graph y) -> exists x, subscribers y !! s = Some x /\ accepting x = true;
  i_once : NoDup (subscriptions (graph y));
  i_ids : forall s, is_Some (subscribers y !! s) -> s <= next_subscription (graph y);
  i_latest : forall s x, s ∈ subscriptions (graph y) -> subscribers y !! s = Some x ->
    since x = revision (graph y) \/ (s, revision (graph y)) ∈ calls y \/
    exists t, t ∈ threads y /\ pending s (revision (graph y)) t }.

Lemma mutate_frame change g :
  subscriptions (change g).2 = subscriptions g /\ next_subscription (change g).2 = next_subscription g ->
  subscriptions (mutate change g).1 = subscriptions g /\ next_subscription (mutate change g).1 = next_subscription g.
Proof.
  intros [H1 H2]. unfold mutate. case_decide; [|done]. destruct (change g) as [[] g1]; simpl in *; [|done..].
  by destruct (revision g1 =? UINT64_MAX).
Qed.

(** A change leaves the subscriptions alone. *)
Lemma change_frame op g :
  is_change op = true ->
  subscriptions (graph_step op g) = subscriptions g /\ next_subscription (graph_step op g) = next_subscription g.
Proof.
  unfold graph_step, graph_exec. destruct op; intros Hop; try done.
  - apply mutate_frame.  unfold participant_change. repeat case_match; done.
  - apply mutate_frame.  unfold endpoint_change, participant_for. repeat case_match; simplify_eq; done.
  - apply mutate_frame.  unfold local_node_change. repeat case_match; done.
  - unfold release_local_node. destruct (i =? 0); [done|]. apply mutate_frame.  unfold release_change. by destruct (drop_reference _ _).
  - unfold add_local_endpoint. destruct (node =? 0); [done|]. apply mutate_frame.  unfold local_endpoint_change. repeat case_match; done.
  - apply mutate_frame.  unfold remove_endpoint_change. repeat case_match; done.
  - apply mutate_frame.  unfold remote_nodes_change. repeat case_match; done.
Qed.

(** ** One step *)

Lemma count_signal s s' ts : count_if (in_call s) (signal s' <$> ts) = count_if (in_call s) ts.
Proof. induction ts as [|t ts IH]; [done|]. rewrite fmap_cons, !count_if_cons, IH. by destruct t. Qed.

Lemma pending_signal s r s' t : pending s r (signal s' t) <-> pending s r t.
Proof. by destruct t. Qed.

Lemma thread_ok_insert g m s x x' t :
  m !! s = Some x -> (accepting x = false -> accepting x' = false) -> (in_flight x <> 0 -> in_flight x' <> 0)%nat ->
  (accepting x = false -> in_flight x = 0 -> in_flight x' = 0)%nat -> thread_ok g m t -> thread_ok g (<[s := x']> m) t.
Proof.
  intros Hs Ha Hf Hz. assert (forall k, is_Some (m !! k) -> is_Some (<[s := x']> m !! k)) as Hk
    by (intros k Hk; apply lookup_insert_is_Some'; by right).
  destruct t as [| | | |k ?|k b|k]; simpl; try done; try apply Hk.
  - intros [? ?]. split; [by apply Hk | done].
  - intros (u & Hu & Hau & Hfu). destruct (decide (k = s)) as [->|Hne].
    + rewrite lookup_insert_eq. rewrite Hs in Hu. injection Hu as <-. exists x'. auto.
    + rewrite lookup_insert_ne by done. by exists u.
  - intros (u & Hu & Hau & Hfu). destruct (decide (k = s)) as [->|Hne].
    + rewrite lookup_insert_eq. rewrite Hs in Hu. injection Hu as <-. exists x'. auto.
    + rewrite lookup_insert_ne by done. by exists u.
Qed.

(** The last call in flight leaves. *)
Lemma thread_ok_signal g m s x t :
  m !! s = Some x -> in_flight x <> 0%nat -> in_flight (leave x) = 0%nat -> thread_ok g m t ->
  thread_ok g (<[s := leave x]> m) (signal s t).
Proof.
  intros Hs Hx Hz. assert (forall k, is_Some (m !! k) -> is_Some (<[s := leave x]> m !! k)) as Hk
    by (intros k Hk; apply lookup_insert_is_Some'; by right).
  destruct t as [| | | |k ?|k b|k]; simpl; try done; try apply Hk.
  - intros [? ?]. split; [by apply Hk | done].
  - intros (u & Hu & Hau & Hfu). destruct (decide (k = s)) as [->|Hne].
    + rewrite lookup_insert_eq. rewrite Hs in Hu. injection Hu as <-. exists (leave x). split_and!; [done..|].
      rewrite Z.eqb_refl, orb_true_r. done.
    + rewrite lookup_insert_ne by done. exists u. split_and!; [done..|]. rewrite (proj2 (Z.eqb_neq k s)) by done. by rewrite orb_false_r.
  - intros (u & Hu & Hau & Hfu). destruct (decide (k = s)) as [->|Hne].
    + rewrite Hs in Hu. injection Hu as <-. done.
    + rewrite lookup_insert_ne by done. by exists u.
Qed.

Lemma thread_ok_graph g g' m m' t :
  (forall s, s ∈ subscriptions g' -> s ∈ subscriptions g \/ m !! s = None) ->
  (forall s x, m !! s = Some x -> m' !! s = Some x) -> thread_ok g m t -> thread_ok g' m' t.
Proof.
  intros Hg Hm. destruct t as [| | | |k ?|k b|k]; simpl; try done.
  - intros [x Hx]. exists x. by apply Hm.
  - intros [x Hx]. exists x. by apply Hm.
  - intros [[x Hx] Hn]. split; [exists x; by apply Hm|]. intros [?|?]%Hg; [done | congruence].
  - intros (x & ? & ?). exists x. split; [by apply Hm | done].
  - intros (x & ? & ?). exists x. split; [by apply Hm | done].
Qed.

(** Where [since], [calls] and the threads that are pending stay. *)
Definition heard (y : GraphRun) (s : Z) (x : Subscriber) : Prop :=
  since x = revision (graph y) \/ (s, revision (graph y)) ∈ calls y \/ exists t, t ∈ threads y /\ pending s (revision (graph y)) t.

Lemma replace_inv g g' m ts1 t ts ts2 c :
  sub_inv (MkGraphRun g m (ts1 ++ t :: ts2) c) ->
  subscriptions g' = subscriptions g -> next_subscription g' = next_subscription g -> revision g' = revision g ->
  (forall s, count_if (in_call s) ts = if in_call s t then 1 else 0)%nat -> (forall u, u ∈ ts -> thread_ok g m u) ->
  (forall s, s ∈ subscriptions g -> pending s (revision g) t -> exists u, u ∈ ts /\ pending s (revision g) u) ->
  sub_inv (MkGraphRun g' m (ts1 ++ ts ++ ts2) c).
Proof.
  intros [Hf Ht Ho Hn Hi Hl] E1 E2 E3 Hc Hok Hp. split; simpl in *.
  - intros s x Hx. rewrite (Hf s x Hx), !count_if_app, count_if_cons, Hc. lia.
  - intros u Hu. apply (thread_ok_graph g _ m); [rewrite E1; auto | done |].
    rewrite !elem_of_app in Hu. destruct Hu as [Hu|[Hu|Hu]]; [|by apply Hok|]; apply Ht; set_solver.
  - rewrite E1. exact Ho.
  - by rewrite E1.
  - rewrite E2. exact Hi.
  - rewrite E1, E3. intros s x Hs Hx. destruct (Hl s x Hs Hx) as [?|[?|(u & Hu & Hpu)]]; [by left | by right; left|]. right. right.
    rewrite elem_of_app, elem_of_cons in Hu. destruct Hu as [Hu|[->|Hu]]; [exists u; set_solver | | exists u; set_solver].
    destruct (Hp s Hs Hpu) as (v & Hv & Hpv). exists v. set_solver.
Qed.

Lemma stop_inv g m ts c s drain x :
  sub_inv (MkGraphRun g m ts c) -> U_erased s drain ∈ ts -> m !! s = Some x ->
  sub_inv (MkGraphRun g (<[s := stop_accepting x]> m) ts c).
Proof.
  intros [Hf Ht Ho Hn Hi Hl] Hin Hs. simpl in *. destruct (Ht _ Hin) as [_ Hns]. split; simpl; [| | |done| |].
  - intros k u. rewrite lookup_insert_Some. intros [[<- <-]|[_ Hk]]; [simpl|]; by apply Hf.
  - intros t Hit. eapply thread_ok_insert; [done..|]. by apply Ht.
  - intros k Hk. assert (k <> s) by congruence. destruct (Ho k Hk) as (u & ? & ?). exists u. by rewrite lookup_insert_ne.
  - intros k. rewrite lookup_insert_is_Some. intros [<-|[_ ?]]; apply Hi; [by exists x | done].
  - intros k u Hk. assert (k <> s) by congruence. rewrite lookup_insert_ne by done. by apply Hl.
Qed.

Lemma close_thread_ok g m s drain x u :
  m !! s = Some x -> accepting x = false -> u ∈ after_close s drain x -> thread_ok g m u /\ forall k, in_call k u = false.
Proof.
  intros Hs Ha. unfold after_close. destruct (negb drain); [by intros ?%elem_of_nil|].
  destruct (Nat.eqb_spec (in_flight x) 0) as [Hz|Hz]; intros ->%list_elem_of_singleton; (split; [|done]); simpl; exists x; auto.
Qed.

Lemma after_close_count s drain x k : count_if (in_call k) (after_close s drain x) = 0%nat.
Proof. unfold after_close. destruct (negb drain); [done|]. by destruct (_ =? _)%nat. Qed.

Lemma enter_inv g m ts1 ts2 c r s todo x :
  sub_inv (MkGraphRun g m (ts1 ++ N_next r (s :: todo) :: ts2) c) -> m !! s = Some x -> accepting x = true ->
  sub_inv (MkGraphRun g (<[s := enter x]> m) (ts1 ++ N_calling r s todo :: ts2) ((s, r) :: c)).
Proof.
  intros [Hf Ht Ho Hn Hi Hl] Hs Ha. split; simpl in *; [| | |done| |].
  - intros k u. rewrite lookup_insert_Some, count_if_app, count_if_cons. simpl. intros [[<- <-]|[Hne Hk]].
    + rewrite Z.eqb_refl. simpl. rewrite (Hf s x Hs), count_if_app, count_if_cons. simpl. lia.
    + rewrite (proj2 (Z.eqb_neq s k)) by done. rewrite (Hf k u Hk), count_if_app, count_if_cons. done.
  - intros t. rewrite elem_of_app, elem_of_cons. intros [Hit|[->|Hit]]; [|simpl; rewrite lookup_insert_eq; by eexists|];
      (eapply thread_ok_insert; [exact Hs | simpl; congruence.. | simpl; congruence | apply Ht; set_solver]).
  - intros k Hk. destruct (Ho k Hk) as (u & Hu & ?). destruct (decide (k = s)) as [->|Hne].
    + exists (enter x). rewrite lookup_insert_eq. done.
    + exists u. by rewrite lookup_insert_ne.
  - intros k. rewrite lookup_insert_is_Some. intros [<-|[_ ?]]; apply Hi; [by exists x | done].
  - intros k u Hk Hu. assert (exists v, m !! k = Some v /\ since u = since v) as (v & Hv & ->).
    { apply lookup_insert_Some in Hu as [[<- <-]|[_ ?]]; [by exists x | by exists u]. }
    destruct (Hl k v Hk Hv) as [?|[?|(t & Hit & Hp)]]; [by left | right; left; by right|]. right.
    rewrite elem_of_app, elem_of_cons in Hit. destruct Hit as [Hit|[->|Hit]]; [right; exists t; set_solver | | right; exists t; set_solver].
    simpl in Hp. destruct Hp as [-> Hp]. apply elem_of_cons in Hp as [->|Hp]; [left; left|]. right. exists (N_calling (revision g) s todo). set_solver.
Qed.

Lemma leave_inv g m ts1 ts2 c r s todo x :
  sub_inv (MkGraphRun g m (ts1 ++ N_leaving r s todo :: ts2) c) -> m !! s = Some x ->
  sub_inv (MkGraphRun g (<[s := leave x]> m)
    (let ts := ts1 ++ N_next r todo :: ts2 in if (in_flight (leave x) =? 0)%nat then signal s <$> ts else ts) c).
Proof.
  intros [Hf Ht Ho Hn Hi Hl] Hs. simpl in *. set (ts := ts1 ++ N_next r todo :: ts2).
  assert (in_flight x = S (count_if (in_call s) ts)) as Hx.
  { rewrite (Hf s x Hs). unfold ts. rewrite !count_if_app, !count_if_cons. simpl. rewrite Z.eqb_refl. lia. }
  set (ts' := if (in_flight (leave x) =? 0)%nat then signal s <$> ts else ts).
  change (let ts0 := ts1 ++ N_next r todo :: ts2 in _) with ts'.
  assert (forall k, count_if (in_call k) ts' = count_if (in_call k) ts) as Hcount
    by (intros k; unfold ts'; destruct (_ =? _)%nat; [apply count_signal | done]).
  assert (forall k q, (exists t, t ∈ ts /\ pending k q t) -> exists t, t ∈ ts' /\ pending k q t) as Hpend.
  { intros k q (t & Hit & Hp). unfold ts'. destruct (_ =? _)%nat; [|by exists t]. exists (signal s t).
    split; [by apply list_elem_of_fmap_2 | by apply pending_signal]. }
  assert (forall t, t ∈ ts -> thread_ok g m t) as Hts.
  { intros t. unfold ts. rewrite elem_of_app, elem_of_cons. intros [?|[->|?]]; [apply Ht; set_solver | done | apply Ht; set_solver]. }
  split; simpl; [| | |done| |].
  - intros k u. rewrite Hcount, lookup_insert_Some. intros [[<- <-]|[Hne Hk]]; [simpl; lia|].
    rewrite (Hf k u Hk). unfold ts. rewrite !count_if_app, !count_if_cons. simpl. by rewrite (proj2 (Z.eqb_neq s k)).
  - intros t Hit. unfold ts' in Hit. cbn [in_flight leave] in Hit; destruct (Nat.eqb_spec (in_flight x - 1) 0) as [Hz|Hz].
    + apply list_elem_of_fmap in Hit as (u & -> & Hu). apply thread_ok_signal; [done | lia | done | by apply Hts].
    + eapply thread_ok_insert; [exact Hs | done | intros _; exact Hz | lia | by apply Hts].
  - intros k Hk. destruct (Ho k Hk) as (u & Hu & ?). destruct (decide (k = s)) as [->|Hne].
    + exists (leave x). rewrite lookup_insert_eq. simplify_eq. done.
    + exists u. by rewrite lookup_insert_ne.
  - intros k. rewrite lookup_insert_is_Some. intros [<-|[_ ?]]; apply Hi; [by exists x | done].
  - intros k u Hk Hu. assert (exists v, m !! k = Some v /\ since u = since v) as (v & Hv & ->).
    { apply lookup_insert_Some in Hu as [[<- <-]|[_ ?]]; [by exists x | by exists u]. }
    destruct (Hl k v Hk Hv) as [?|[?|(t & Hit & Hp)]]; [by left | by right; left|]. right. right. apply Hpend.
    unfold ts. rewrite elem_of_app, elem_of_cons in Hit. destruct Hit as [Hit|[->|Hit]]; [exists t; set_solver | | exists t; set_solver].
    exists (N_next r todo). split; [set_solver | exact Hp].
Qed.

Lemma graph_change_inv op g m ts c :
  is_change op = true -> sub_inv (MkGraphRun g m ts c) ->
  sub_inv (MkGraphRun (graph_step op g) m ((if notifies op g then [N_begin] else []) ++ ts) c).
Proof.
  intros Hop [Hf Ht Ho Hn Hi Hl]. destruct (change_frame op g Hop) as [E1 E2]. split; simpl in *; rewrite ?E1, ?E2; try done.
  - intros s x Hx. rewrite count_if_app, (Hf s x Hx). by destruct (notifies op g).
  - intros t Hit. apply (thread_ok_graph g _ m); [rewrite E1; auto | done |].
    destruct (notifies op g); simpl in Hit; [apply elem_of_cons in Hit as [->|Hit]; [done|]|]; by apply Ht.
  - intros s x Hs Hx. destruct (notifies op g) eqn:Hnot; [right; right; exists N_begin; split; [left | done]|].
    assert (revision (graph_step op g) = revision g) as ->; [|by apply Hl].
    unfold notifies in Hnot. destruct op; try done; apply orb_false_iff in Hnot as [H%negb_false_iff%Z.eqb_eq _]; exact H.
Qed.

Lemma subscribe_inv g m ts c :
  sub_inv (MkGraphRun g m ts c) ->
  sub_inv (MkGraphRun (subscribe g).2 (match (subscribe g).1 with Some s => <[s := MkSubscriber true 0 (revision g)]> m | None => m end) ts c).
Proof.
  intros [Hf Ht Ho Hn Hi Hl]. unfold subscribe. destruct (next_subscription g =? UINT64_MAX); [by split|]. simpl in *.
  set (s := next_subscription g + 1). assert (m !! s = None) as Hs.
  { destruct (m !! s) as [x|] eqn:Hs; [|done]. specialize (Hi s ltac:(by exists x)). lia. }
  assert (forall k x, m !! k = Some x -> <[s := MkSubscriber true 0 (revision g)]> m !! k = Some x) as Hm
    by (intros k x Hk; rewrite lookup_insert_ne by congruence; done).
  split; simpl.
  - intros k x. rewrite lookup_insert_Some. intros [[<- <-]|[_ Hk]]; [simpl|by apply Hf]. symmetry. apply count_if_none.
    intros t Hit. specialize (Ht t Hit). destruct t; simpl in *; try done; apply Z.eqb_neq; intros ->; rewrite Hs in Ht; by destruct Ht.
  - intros t Hit. apply (thread_ok_graph g _ m); [|done|by apply Ht]. simpl. intros k. rewrite elem_of_app, list_elem_of_singleton.
    intros [?| ->]; [by left | by right].
  - intros k. rewrite elem_of_app, list_elem_of_singleton. intros [Hk| ->].
    + destruct (Ho k Hk) as (x & ? & ?). exists x. auto.
    + rewrite lookup_insert_eq. by eexists.
  - apply NoDup_app. split_and!; [done | | apply NoDup_singleton]. intros k Hk ->%list_elem_of_singleton.
    destruct (Ho s Hk) as (x & Hx & _). congruence.
  - intros k. rewrite lookup_insert_is_Some. intros [<-|[_ Hk]]; [unfold s; lia|]. specialize (Hi k Hk). lia.
  - intros k x Hk Hx. apply lookup_insert_Some in Hx as [[<- <-]|[Hne Hx]]; [by left|]. apply Hl; [|done].
    apply elem_of_app in Hk as [?|Hk]; [done|]. apply list_elem_of_singleton in Hk. congruence.
Qed.

Lemma unsubscribe_inv g m ts c s drain :
  s ∈ subscriptions g -> sub_inv (MkGraphRun g m ts c) -> sub_inv (MkGraphRun (unsubscribe s g) m (U_erased s drain :: ts) c).
Proof.
  intros Hs [Hf Ht Ho Hn Hi Hl]. simpl in *.
  assert (NoDup (erase_first (Z.eqb s) (subscriptions g)) /\ s ∉ erase_first (Z.eqb s) (subscriptions g)) as [Hn' Hns].
  { destruct (find_if (Z.eqb s) (subscriptions g)) as [k|] eqn:Hf'.
    - apply find_if_split in Hf' as (l1 & l2 & Hl12 & _ & Hk%Z.eqb_eq & _ & ->). subst k. rewrite Hl12 in Hn.
      by apply NoDup_middle in Hn as [? ?].
    - exfalso. pose proof (proj1 (find_if_None _ _) Hf' s Hs) as H. simpl in H. by rewrite Z.eqb_refl in H. }
  split; simpl; [| | |done|done|].
  - intros k x Hx. rewrite count_if_cons. simpl. by apply Hf.
  - intros t [->|Hit]%elem_of_cons.
    + simpl. split; [|done]. destruct (Ho s Hs) as (x & ? & _). by exists x.
    + apply (thread_ok_graph g _ m); [|done|by apply Ht]. intros k Hk. left. exact (elem_of_erase_first _ _ _ Hk).
  - intros k Hk. apply Ho. by eapply elem_of_erase_first.
  - intros k x Hk Hx. destruct (Hl k x (elem_of_erase_first _ _ _ Hk) Hx) as [?|[?|(t & ? & ?)]]; [by left | by right; left|].
    right. right. exists t. split; [by right | done].
Qed.

Lemma sub_step_inv y y' : sub_inv y -> sub_step y y' -> sub_inv y'.
Proof.
  intros Hinv Hstep. destruct Hstep as [op g m ts c Hop|g m ts c|g m ts c s drain Hs|g m ts1 ts2 c|g m ts1 ts2 c r s todo x Hs Ha
    |g m ts1 ts2 c r s todo x Hs Ha|g m ts1 ts2 c r s todo threw|g m ts1 ts2 c r s todo x Hs|g m ts1 ts2 c r
    |g m ts1 ts2 c s drain x Hs|g m ts1 ts2 c s b x Hs].
  - by apply graph_change_inv.
  - by apply subscribe_inv.
  - by apply unsubscribe_inv.
  - apply (replace_inv g g m ts1 N_begin [N_next (revision g) (subscriptions g)] ts2 c); try done.
    + intros u ->%list_elem_of_singleton. done.
    + intros s Hs _. eexists. split; [left | done].
  - apply (replace_inv g g m ts1 (N_next r (s :: todo)) [N_next r todo] ts2 c); try done.
    + intros u ->%list_elem_of_singleton. done.
    + intros k Hk [-> [->|Hin]%elem_of_cons]; [|eexists; split; [left | done]].
      destruct (i_open _ Hinv s Hk) as (u & Hu & ?). simpl in Hu. congruence.
  - by apply enter_inv.
  - apply (replace_inv g _ m ts1 (N_calling r s todo) [N_leaving r s todo] ts2 c); try done; try (by destruct threw).
    + intros k. rewrite count_if_cons. simpl. by destruct (s =? k).
    + intros u ->%list_elem_of_singleton. apply (i_threads _ Hinv (N_calling r s todo)). simpl. set_solver.
    + intros k Hk Hp. eexists. split; [left | exact Hp].
  - by apply leave_inv.
  - apply (replace_inv g g m ts1 (N_next r []) [] ts2 c); try done.
    + by intros u ?%elem_of_nil.
    + intros k _ [_ ?%elem_of_nil]. done.
  - apply (stop_inv _ _ _ _ s drain x) in Hinv; [|set_solver | done].
    apply (replace_inv g g _ ts1 (U_erased s drain) (after_close s drain x) ts2 c); try done.
    + intros k. by rewrite after_close_count.
    + intros u Hu. eapply (close_thread_ok _ _ s drain (stop_accepting x)); [apply lookup_insert_eq | done | exact Hu].
  - destruct (i_threads _ Hinv (U_asleep s b)) as (u & Hu & Ha & _); [simpl; set_solver|]. simpl in Hu. simplify_eq.
    apply (replace_inv g g m ts1 (U_asleep s b) (after_close s true x) ts2 c); try done.
    + intros k. by rewrite after_close_count.
    + intros v Hv. by eapply close_thread_ok.
Qed.

Lemma starts_inv y : starts y -> sub_inv y.
Proof.
  intros ->. split; simpl; try done; first [apply NoDup_nil_2 | by intros ? ?%elem_of_nil | by intros ? [] | by intros ? ? ?%elem_of_nil].
Qed.

Lemma reachable_sub_inv y : reachable starts sub_step y -> sub_inv y.
Proof. apply reachable_invariant; [apply starts_inv | apply sub_step_inv]. Qed.

(** ** What subscribers are promised *)

(** Threads keep what they have returned. *)
Lemma drained_stays y y' s : sub_step y y' -> U_drained s ∈ threads y -> U_drained s ∈ threads y'.
Proof.
  intros Hstep Hin. destruct Hstep; simpl in *; try set_solver.
  case_match; [|set_solver]. apply list_elem_of_fmap. exists (U_drained s). split; [done | set_solver].
Qed.

Lemma drained_quiet y y' s :
  sub_inv y -> U_drained s ∈ threads y -> sub_step y y' ->
  filter (fun c => c.1 = s) (calls y') = filter (fun c => c.1 = s) (calls y).
Proof.
  intros Hinv Hin Hstep. destruct Hstep as [| | | | |g m ts1 ts2 c r k todo x Hk Ha| | | | |]; try done. simpl.
  rewrite filter_cons. case_decide as Hks; [|done]. simpl in Hks. subst k.
  destruct (i_threads _ Hinv _ Hin) as (u & Hu & Hau & _). simpl in Hu. congruence.
Qed.

(** C20: when [close_and_drain] has returned, no callback of the subscription
    runs and none is ever made again, whatever the other threads do; and it
    waits without having been woken only while a callback is in flight. *)
Theorem drained_is_final y y' s :
  reachable starts sub_step y -> rtc sub_step y y' ->
  (U_drained s ∈ threads y ->
     (forall t, t ∈ threads y' -> in_call s t = false) /\
     filter (fun c => c.1 = s) (calls y') = filter (fun c => c.1 = s) (calls y)) /\
  (U_asleep s false ∈ threads y -> exists t, t ∈ threads y /\ in_call s t = true).
Proof.
  intros Hy%reachable_sub_inv Hrun. split.
  - intros Hin. assert (sub_inv y' /\ U_drained s ∈ threads y' /\
      filter (fun c => c.1 = s) (calls y') = filter (fun c => c.1 = s) (calls y)) as (Hy' & Hin' & Hc).
    { induction Hrun as [y|y y1 y2 Hs _ IH]; [done|].
      destruct IH as (? & ? & Hc); [by eapply sub_step_inv | by eapply drained_stays|]. split_and!; [done..|].
      rewrite Hc. by apply drained_quiet. }
    split; [|done]. intros t Ht. destruct (i_threads _ Hy' _ Hin') as (x & Hx & _ & Hz).
    rewrite (i_flight _ Hy' s x Hx) in Hz. apply list_elem_of_lookup in Ht as [i Hi]. by eapply count_if_zero.
  - intros Hin. destruct (i_threads _ Hy _ Hin) as (x & Hx & _ & Hf). specialize (Hf eq_refl).
    rewrite (i_flight _ Hy s x Hx) in Hf. unfold count_if in Hf.
    destruct (filter _ (threads y)) as [|t l] eqn:Hfl; [done|]. exists t.
    assert (t ∈ filter (fun u => in_call s u = true) (threads y)) as Ht by (rewrite Hfl; left). apply list_elem_of_filter in Ht as [? ?]. done.
Qed.

Definition is_notifier (t : Thread) : bool :=
  match t with N_begin | N_next _ _ | N_calling _ _ _ | N_leaving _ _ _ => true | _ => false end.

(** C30: no revision is missed: when no thread is notifying, every subscriber has
    been called with the current revision of the graph, unless it has not
    changed since the subscription. *)
Theorem latest_is_heard y s x :
  reachable starts sub_step y -> (forall t, t ∈ threads y -> is_notifier t = false) ->
  s ∈ subscriptions (graph y) -> subscribers y !! s = Some x -> since x <> revision (graph y) ->
  (s, revision (graph y)) ∈ calls y.
Proof.
  intros Hy%reachable_sub_inv Hidle Hs Hx Hne. destruct (i_latest _ Hy s x Hs Hx) as [?|[?|(t & Ht & Hp)]]; [done | done|].
  specialize (Hidle t Ht). by destruct t.
Qed.

(** ** At a concrete input *)

(** A subscriber, and a Node that is added. *)
Definition demo_op : GraphOp := Op_add_node $"n"%dmw $"/"%dmw.
Definition demo_graph : DiscoveryGraph := graph_step demo_op (subscribe new_graph).2.

Lemma demo_called : reachable starts sub_step
  (MkGraphRun demo_graph (<[1 := enter (MkSubscriber true 0 0)]> {[1 := MkSubscriber true 0 0]}) [N_calling 1 1 []] [(1, 1)]).
Proof.
  eapply reach_step; [|apply (ss_enter demo_graph {[1 := MkSubscriber true 0 0]} [] [] [] 1 1 []); reflexivity].
  eapply reach_step; [|apply (ss_copy demo_graph {[1 := MkSubscriber true 0 0]} [] [] [])].
  eapply reach_step; [|apply (ss_change demo_op (subscribe new_graph).2 {[1 := MkSubscriber true 0 0]} [] []); reflexivity].
  eapply reach_step; [|apply (ss_subscribe new_graph ∅ [] [])]. by apply reach_init.
Qed.

Lemma latest_is_heard_witness : exists y, revision (graph y) = 1 /\ (1, revision (graph y)) ∈ calls y.
Proof.
  set (m := <[1 := leave (enter (MkSubscriber true 0 0))]> (<[1 := enter (MkSubscriber true 0 0)]> ({[1 := MkSubscriber true 0 0]} : gmap Z Subscriber))).
  exists (MkGraphRun demo_graph m [] [(1, 1)]). split; [reflexivity|].
  apply (latest_is_heard _ 1 (leave (enter (MkSubscriber true 0 0)))).
  - eapply reach_step; [|apply (ss_done demo_graph m [] [] [(1, 1)] 1)].
    eapply reach_step; [|apply (ss_leave demo_graph _ [] [] [(1, 1)] 1 1 [] (enter (MkSubscriber true 0 0))); reflexivity].
    eapply reach_step; [|apply (ss_return demo_graph _ [] [] [(1, 1)] 1 1 [] false)]. exact demo_called.
  - intros t Ht. inversion Ht.
  - vm_compute. left.
  - reflexivity.
  - discriminate.
Defined.

Lemma drained_is_final_witness :
  exists y, U_asleep 1 false ∈ threads y /\ exists t, t ∈ threads y /\ in_call 1 t = true.
Proof.
  set (m := <[1 := enter (MkSubscriber true 0 0)]> ({[1 := MkSubscriber true 0 0]} : gmap Z Subscriber)).
  set (y := MkGraphRun (unsubscribe 1 demo_graph) (<[1 := stop_accepting (enter (MkSubscriber true 0 0))]> m)
              [U_asleep 1 false; N_calling 1 1 []] [(1, 1)]).
  assert (U_asleep 1 false ∈ threads y) as Hin by left. exists y. split; [exact Hin|].
  refine (proj2 (drained_is_final y y 1 _ (rtc_refl _ _)) Hin).
  eapply reach_step; [|apply (ss_close (unsubscribe 1 demo_graph) m [] [N_calling 1 1 []] [(1, 1)] 1 true (enter (MkSubscriber true 0 0))); reflexivity].
  eapply reach_step; [exact demo_called|]. apply (ss_unsubscribe demo_graph m [N_calling 1 1 []] [(1, 1)] 1 true). vm_compute. left.
Defined.
