(* ===== verification/Metadata.v ===== *)
(** * Metadata: the ROS 2 graph metadata transport

    Models src/impl/graph_metadata.hpp and src/impl/graph_metadata.cpp: the
    [ParticipantEntitiesInfo] message and its wire form, the snapshot a
    participant publishes of its own Nodes, and the folding of a remote
    snapshot into the discovery graph.  The primitive types are written and
    read by Fast CDR: [CdrCodec] is that interface, with the law that what was
    written at the end of a buffer is read back at that place.  An exception
    of Fast CDR is [None]. *)

From S2P Require Import Prelude Strings Identity Qos Discovery.
Local Open Scope Z_scope.

(** ** Fast CDR *)

Class CdrCodec := {
  put_u8 : list Z -> Z -> list Z;
  put_u32 : list Z -> Z -> list Z;
  put_string : list Z -> str -> list Z;
  encapsulation : list Z;
  get_u8 : list Z -> nat -> option (Z * nat);
  get_u32 : list Z -> nat -> option (Z * nat);
  get_string : list Z -> nat -> option (str * nat);
  read_encapsulation : list Z -> option nat;
  (** the strings CDR can carry *)
  string_ok : str -> Prop;
  put_u8_prefix b v : b `prefix_of` put_u8 b v;
  put_u32_prefix b v : b `prefix_of` put_u32 b v;
  put_string_prefix b v : b `prefix_of` put_string b v;
  get_put_u8 b v rest : 0 <= v < 256 -> get_u8 (put_u8 b v ++ rest) (length b) = Some (v, length (put_u8 b v));
  get_put_u32 b v rest : in_u32 v -> get_u32 (put_u32 b v ++ rest) (length b) = Some (v, length (put_u32 b v));
  get_put_string b v rest :
    string_ok v -> get_string (put_string b v ++ rest) (length b) = Some (v, length (put_string b v));
  read_put_encapsulation rest : read_encapsulation (encapsulation ++ rest) = Some (length encapsulation) }.

(** *** Little-endian CDR *)

Section Plain.
Definition padding (n : nat) : nat := Nat.modulo (4 - Nat.modulo n 4) 4.
Definition align4 (b : list Z) : list Z := b ++ replicate (padding (length b)) 0.

Definition u32_octets (v : Z) : list Z :=
  [v mod 256; Z.shiftr v 8 mod 256; Z.shiftr v 16 mod 256; Z.shiftr v 24 mod 256].

Definition plain_put_u32 (b : list Z) (v : Z) : list Z := align4 b ++ u32_octets v.

Definition plain_get_u32 (b : list Z) (pos : nat) : option (Z * nat) :=
  let pos := (pos + padding pos)%nat in
  match drop pos b with
  | b0 :: b1 :: b2 :: b3 :: _ =>
      Some (b0 + Z.shiftl b1 8 + Z.shiftl b2 16 + Z.shiftl b3 24, (pos + 4)%nat)
  | _ => None
  end.

Definition plain_put_u8 (b : list Z) (v : Z) : list Z := b ++ [v].
Definition plain_get_u8 (b : list Z) (pos : nat) : option (Z * nat) :=
  match b !! pos with Some v => Some (v, S pos) | None => None end.

(** Length with the terminating NUL, the characters, the NUL. *)
Definition plain_put_string (b : list Z) (s : str) : list Z :=
  plain_put_u32 b (Z.of_nat (length s) + 1) ++ (code <$> s) ++ [0].

Definition plain_get_string (b : list Z) (pos : nat) : option (str * nat) :=
  match plain_get_u32 b pos with
  | None => None
  | Some (n, pos) =>
      let octets := take (Z.to_nat n) (drop pos b) in
      if decide (Z.of_nat (length octets) = n /\ 1 <= n) then
        Some ((fun c => Ascii.ascii_of_N (Z.to_N c)) <$> take (Z.to_nat n - 1) octets,
              (pos + Z.to_nat n)%nat)
      else None
  end.

Lemma u32_octets_value v :
  in_u32 v ->
  v mod 256 + Z.shiftl (Z.shiftr v 8 mod 256) 8 + Z.shiftl (Z.shiftr v 16 mod 256) 16 +
  Z.shiftl (Z.shiftr v 24 mod 256) 24 = v.
Proof.
  unfold_ints. intros Hv. rewrite !Z.shiftr_div_pow2, !Z.shiftl_mul_pow2 by lia.
  change (2 ^ 8) with 256. change (2 ^ 16) with 65536. change (2 ^ 24) with 16777216.
  Z.div_mod_to_equations. lia.
Qed.

Lemma align4_length b : length (align4 b) = (length b + padding (length b))%nat.
Proof. unfold align4. by rewrite length_app, length_replicate. Qed.

Lemma plain_put_u32_length b v : length (plain_put_u32 b v) = (length (align4 b) + 4)%nat.
Proof. unfold plain_put_u32. by rewrite length_app. Qed.

Lemma plain_get_put_u32 b v rest :
  in_u32 v -> plain_get_u32 (plain_put_u32 b v ++ rest) (length b) = Some (v, length (plain_put_u32 b v)).
Proof.
  intros Hv. unfold plain_get_u32. rewrite <- align4_length, plain_put_u32_length.
  unfold plain_put_u32. rewrite <- app_assoc, drop_app_length. simpl. by rewrite u32_octets_value.
Qed.

Lemma plain_put_string_length b s :
  length (plain_put_string b s) =
  (length (plain_put_u32 b (Z.of_nat (length s) + 1)) + (length s + 1))%nat.
Proof. unfold plain_put_string. by rewrite !length_app, length_fmap. Qed.

Lemma plain_get_put_string b s rest :
  Z.of_nat (length s) < UINT32_MAX ->
  plain_get_string (plain_put_string b s ++ rest) (length b) = Some (s, length (plain_put_string b s)).
Proof.
  intros Hs. unfold plain_get_string. rewrite plain_put_string_length. unfold plain_put_string.
  rewrite <- app_assoc, plain_get_put_u32 by (unfold_ints; lia). cbn iota beta zeta.
  assert (Z.to_nat (Z.of_nat (length s) + 1) = length s + 1)%nat as -> by lia.
  rewrite drop_app_length, take_app_length' by (rewrite length_app, length_fmap; done).
  rewrite decide_True by (rewrite length_app, length_fmap; simpl; lia).
  do 2 f_equal. rewrite Nat.add_sub, take_app_length' by by rewrite length_fmap.
  rewrite <- list_fmap_compose. rewrite <- (list_fmap_id s) at 2. apply list_fmap_ext. intros _ c _. simpl.
  unfold code. by rewrite N2Z.id, Ascii.ascii_N_embedding.
Qed.
End Plain.

(** CDR ends a string at its first NUL, so a string that has one is lost. *)
#[export] Program Instance plain_cdr : CdrCodec | 100 := {|
  put_u8 := plain_put_u8; put_u32 := plain_put_u32; put_string := plain_put_string;
  encapsulation := [0; 1; 0; 0];
  get_u8 := plain_get_u8; get_u32 := plain_get_u32; get_string := plain_get_string;
  read_encapsulation b := if decide (take 4 b = [0; 1; 0; 0]) then Some 4%nat else None;
  string_ok s := Z.of_nat (length s) < UINT32_MAX /\ Forall (fun c => code c <> 0) s |}.
Next Obligation. intros. by eexists. Qed.
Next Obligation. intros. unfold plain_put_u32, align4. rewrite <- app_assoc. by eexists. Qed.
Next Obligation. intros. unfold plain_put_string, plain_put_u32, align4. rewrite <- !app_assoc. by eexists. Qed.
Next Obligation.
  intros b v rest _. unfold plain_get_u8, plain_put_u8.
  rewrite <- app_assoc, lookup_app_r, Nat.sub_diag by lia. simpl. rewrite length_app. simpl. do 2 f_equal. lia.
Qed.
Next Obligation. intros. by apply plain_get_put_u32. Qed.
Next Obligation. intros b v rest [Hl _]. by apply plain_get_put_string. Qed.
Next Obligation. done. Qed.

(** ** The message *)

(** [RmwGid::data]; the size is fixed when dmw is built. *)
Abbreviation RmwGid := (list Z).

Record RmwNodeEntitiesInfo := MkNodeInfo {
  n_namespace : str; n_name : str; n_reader_gids : list RmwGid; n_writer_gids : list RmwGid }.

Record RmwParticipantEntitiesInfo := MkEntities {
  gid : RmwGid; node_entities_info_seq : list RmwNodeEntitiesInfo }.

Definition kMetadataPayloadSize : Z := 65536.
Definition kGraphMetadataTopicName : str := $"ros_discovery_info"%dmw.

Definition rmw_gid_to_guid (g : RmwGid) : list Z := take 16 g.

Section Codec.
Context `{!CdrCodec} (kRmwGidSize : nat).

Definition write_gid (b : list Z) (g : RmwGid) : list Z := fold_left put_u8 g b.

Definition write_gid_sequence (b : list Z) (gids : list RmwGid) : list Z :=
  fold_left write_gid gids (put_u32 b (wrap_u32 (Z.of_nat (length gids)))).

Definition write_node (b : list Z) (n : RmwNodeEntitiesInfo) : list Z :=
  let b := put_string b (n_namespace n) in
  let b := put_string b (n_name n) in
  let b := write_gid_sequence b (n_reader_gids n) in
  write_gid_sequence b (n_writer_gids n).

Definition write_participant_entities (b : list Z) (v : RmwParticipantEntitiesInfo) : list Z :=
  let b := write_gid b (gid v) in
  let b := put_u32 b (wrap_u32 (Z.of_nat (length (node_entities_info_seq v)))) in
  fold_left write_node (node_entities_info_seq v) b.

(** Read [n] values one after the other. *)
Fixpoint read_n {A} (get : list Z -> nat -> option (A * nat)) (n : nat) (b : list Z) (pos : nat)
    : option (list A * nat) :=
  match n with
  | O => Some ([], pos)
  | S n =>
      '(x, pos) ← get b pos;
      '(l, pos) ← read_n get n b pos;
      Some (x :: l, pos)
  end.

Definition read_gid : list Z -> nat -> option (RmwGid * nat) := read_n get_u8 kRmwGidSize.

Definition read_gid_sequence (b : list Z) (pos : nat) : option (list RmwGid * nat) :=
  '(size, pos) ← get_u32 b pos;
  read_n read_gid (Z.to_nat size) b pos.

Definition read_node (b : list Z) (pos : nat) : option (RmwNodeEntitiesInfo * nat) :=
  '(node_namespace, pos) ← get_string b pos;
  '(node_name, pos) ← get_string b pos;
  '(readers, pos) ← read_gid_sequence b pos;
  '(writers, pos) ← read_gid_sequence b pos;
  Some (MkNodeInfo node_namespace node_name readers writers, pos).

Definition read_participant_entities (b : list Z) (pos : nat) : option (RmwParticipantEntitiesInfo * nat) :=
  '(g, pos) ← read_gid b pos;
  '(size, pos) ← get_u32 b pos;
  '(nodes, pos) ← read_n read_node (Z.to_nat size) b pos;
  Some (MkEntities g nodes, pos).

(** [serialize]: [None] when the message does not fit the payload. *)
Definition serialize (v : RmwParticipantEntitiesInfo) : option (list Z) :=
  let b := write_participant_entities encapsulation v in
  if Z.of_nat (length b) <=? kMetadataPayloadSize then Some b else None.

Definition deserialize (payload : list Z) : option RmwParticipantEntitiesInfo :=
  pos ← read_encapsulation payload;
  '(v, _) ← read_participant_entities payload pos;
  Some v.

(** ** Round trip *)

(** [w] appends, and [r] reads back what it appended to any buffer. *)
Definition reads_back {A} (ok : A -> Prop) (w : list Z -> A -> list Z)
    (r : list Z -> nat -> option (A * nat)) : Prop :=
  (forall b v, b `prefix_of` w b v) /\
  forall b v rest, ok v -> r (w b v ++ rest) (length b) = Some (v, length (w b v)).

Lemma fold_prefix {A} (w : list Z -> A -> list Z) :
  (forall b v, b `prefix_of` w b v) -> forall l b, b `prefix_of` fold_left w l b.
Proof.
  intros Hw l. induction l as [|v l IH]; intros b; [done|]. simpl.
  etrans; [apply (Hw b v) | apply IH].
Qed.

Lemma reads_back_later {A} (ok : A -> Prop) w r b v b' rest :
  reads_back ok w r -> ok v -> w b v `prefix_of` b' -> r (b' ++ rest) (length b) = Some (v, length (w b v)).
Proof. intros [_ Hr] Hv [k ->]. rewrite <- app_assoc. by apply Hr. Qed.

Lemma reads_back_list {A} (ok : A -> Prop) (w : list Z -> A -> list Z) r :
  reads_back ok w r ->
  forall l b rest, Forall ok l ->
    read_n r (length l) (fold_left w l b ++ rest) (length b) = Some (l, length (fold_left w l b)).
Proof.
  intros Hwr l. induction l as [|v l IH]; intros b rest Hl; [done|].
  apply Forall_cons in Hl as [Hv Hl]. simpl.
  rewrite (reads_back_later ok w r b v _ rest Hwr Hv) by apply fold_prefix, Hwr. simpl.
  by rewrite IH.
Qed.

Definition gid_ok (g : RmwGid) : Prop := length g = kRmwGidSize /\ Forall (fun b => 0 <= b < 256) g.

Definition sequence_ok {A} (ok : A -> Prop) (l : list A) : Prop :=
  Z.of_nat (length l) <= UINT32_MAX /\ Forall ok l.

Definition node_ok (n : RmwNodeEntitiesInfo) : Prop :=
  string_ok (n_namespace n) /\ string_ok (n_name n) /\
  sequence_ok gid_ok (n_reader_gids n) /\ sequence_ok gid_ok (n_writer_gids n).

Definition entities_ok (v : RmwParticipantEntitiesInfo) : Prop :=
  gid_ok (gid v) /\ sequence_ok node_ok (node_entities_info_seq v).

Lemma u8_reads_back : reads_back (fun v => 0 <= v < 256) put_u8 get_u8.
Proof. split; [apply put_u8_prefix | intros; by apply get_put_u8]. Qed.
Lemma u32_reads_back : reads_back in_u32 put_u32 get_u32.
Proof. split; [apply put_u32_prefix | intros; by apply get_put_u32]. Qed.
Lemma string_reads_back : reads_back string_ok put_string get_string.
Proof. split; [apply put_string_prefix | intros; by apply get_put_string]. Qed.

Lemma gid_reads_back : reads_back gid_ok write_gid read_gid.
Proof.
  split; [intros; apply fold_prefix, put_u8_prefix|]. intros b g rest [Hl Hg].
  unfold read_gid. rewrite <- Hl. by apply (reads_back_list _ _ _ u8_reads_back).
Qed.

(** A size, then that many values. *)
Lemma sized_reads_back {A} (ok : A -> Prop) w r :
  reads_back ok w r ->
  reads_back (sequence_ok ok)
    (fun b l => fold_left w l (put_u32 b (wrap_u32 (Z.of_nat (length l)))))
    (fun b pos => '(size, pos) ← get_u32 b pos; read_n r (Z.to_nat size) b pos).
Proof.
  intros Hwr. split.
  - intros b l. etrans; [apply put_u32_prefix | apply fold_prefix, Hwr].
  - intros b l rest [Hlen Hl].
    assert (wrap_u32 (Z.of_nat (length l)) = Z.of_nat (length l)) as Hw.
    { unfold_ints. apply Z.mod_small. lia. }
    rewrite (reads_back_later in_u32 put_u32 get_u32 b _ _ rest u32_reads_back) by
      (apply fold_prefix, Hwr || apply wrap_u32_range).
    simpl. rewrite Hw, Nat2Z.id. by apply (reads_back_list ok).
Qed.

Lemma gid_sequence_reads_back : reads_back (sequence_ok gid_ok) write_gid_sequence read_gid_sequence.
Proof. apply sized_reads_back, gid_reads_back. Qed.

Lemma node_reads_back : reads_back node_ok write_node read_node.
Proof.
  destruct gid_sequence_reads_back as [Hseq _]. split.
  - intros b n. unfold write_node. etrans; [apply put_string_prefix|]. etrans; [apply put_string_prefix|].
    etrans; [apply Hseq | apply Hseq].
  - intros b n rest (H1 & H2 & H3 & H4). unfold read_node, write_node.
    rewrite (reads_back_later string_ok put_string get_string b (n_namespace n) _ rest string_reads_back H1)
      by (etrans; [apply put_string_prefix|]; etrans; [apply Hseq | apply Hseq]). simpl.
    rewrite (reads_back_later string_ok put_string get_string _ (n_name n) _ rest string_reads_back H2)
      by (etrans; [apply Hseq | apply Hseq]). simpl.
    rewrite (reads_back_later _ write_gid_sequence read_gid_sequence _ (n_reader_gids n) _ rest
      gid_sequence_reads_back H3) by apply Hseq. simpl.
    rewrite (reads_back_later _ write_gid_sequence read_gid_sequence _ (n_writer_gids n) _ rest
      gid_sequence_reads_back H4) by done. simpl.
    by destruct n.
Qed.

Lemma entities_reads_back : reads_back entities_ok write_participant_entities read_participant_entities.
Proof.
  destruct (sized_reads_back node_ok write_node read_node node_reads_back) as [Hp Hr].
  destruct gid_reads_back as [Hg _]. split.
  - intros b v. unfold write_participant_entities. etrans; [apply Hg | apply Hp].
  - intros b v rest [H1 H2]. unfold read_participant_entities, write_participant_entities.
    rewrite (reads_back_later gid_ok write_gid read_gid b (gid v) _ rest gid_reads_back H1) by apply Hp. simpl.
    specialize (Hr (write_gid b (gid v)) _ rest H2). simpl in Hr.
    destruct (get_u32 _ _) as [[size pos]|]; [|done]. simpl in *. rewrite Hr. simpl. by destruct v.
Qed.

Lemma deserialize_written v rest :
  entities_ok v -> deserialize (write_participant_entities encapsulation v ++ rest) = Some v.
Proof.
  intros Hv. destruct entities_reads_back as [Hp Hr]. destruct (Hp encapsulation v) as [k Hk].
  unfold deserialize. rewrite Hk, <- app_assoc, read_put_encapsulation. simpl.
  rewrite app_assoc, <- Hk. by rewrite Hr.
Qed.

(** the metadata message survives the wire: whatever primitive codec
    keeps its law, a message whose gids have the built size, whose strings CDR
    can carry and that fits the payload is read back as it was written, even
    when the payload is followed by other octets. *)
Theorem metadata_roundtrip v payload rest :
  entities_ok v -> serialize v = Some payload ->
  Z.of_nat (length payload) <= kMetadataPayloadSize /\ deserialize (payload ++ rest) = Some v.
Proof.
  intros Hv. unfold serialize. destruct (Z.leb_spec (Z.of_nat (length (write_participant_entities encapsulation v)))
    kMetadataPayloadSize); [|done]. intros [= <-]. split; [done|]. by apply deserialize_written.
Qed.
End Codec.

(** ** Publishing and ingesting snapshots *)

Section Transport.
Context `{!CdrCodec} (kRmwGidSize : nat).

(** The 16 octets of a DDS GUID at the front of a zeroed [RmwGid]. *)
Definition to_rmw_gid (g : GUID_t) : RmwGid :=
  take 16 (gid_data (to_gid g)) ++ replicate (kRmwGidSize - 16) 0.

(** The gids of a Node's endpoints of one kind. *)
Definition node_gids (k : EndpointKind) (node : Z) (es : list LocalEndpointRecord) : list RmwGid :=
  (fun e => to_rmw_gid (l_guid e)) <$>
  filter (fun e => node_id e = node /\ l_topic e <> kGraphMetadataTopicName /\ l_kind e = k) es.

Definition build_local_snapshot (v : GraphView) (participant_guid : GUID_t) : RmwParticipantEntitiesInfo :=
  MkEntities (to_rmw_gid participant_guid)
    ((fun n => MkNodeInfo (node_namespace n) (node_name n)
       (node_gids Reader (id n) (v_local_endpoints v)) (node_gids Writer (id n) (v_local_endpoints v)))
     <$> v_local_nodes v).

(** What [publish_local_snapshot] puts on the wire. *)
Definition publish_local_snapshot (g : DiscoveryGraph) (participant_guid : GUID_t) : option (list Z) :=
  serialize (build_local_snapshot (view g) participant_guid).

Definition to_remote_node (n : RmwNodeEntitiesInfo) : RemoteNodeRecord :=
  MkRemoteNode (n_namespace n) (n_name n) (rmw_gid_to_guid <$> n_reader_gids n) (rmw_gid_to_guid <$> n_writer_gids n).

(** One valid sample; a snapshot of the participant itself is ignored. *)
Definition ingest_sample (local_prefix : GuidPrefix) (sample : RmwParticipantEntitiesInfo) (g : DiscoveryGraph)
    : DiscoveryGraph :=
  let prefix := take 12 (rmw_gid_to_guid (gid sample)) in
  if decide (prefix = local_prefix) then g
  else (apply_remote_nodes prefix (to_remote_node <$> node_entities_info_seq sample) g).1.

(** The results of [take_next_sample]. *)
Inductive MetadataTake :=
  | Take_stops
  | Take_sample (valid_data : bool) (sample : RmwParticipantEntitiesInfo).

Fixpoint ingest (local_prefix : GuidPrefix) (remaining : nat) (takes : list MetadataTake) (g : DiscoveryGraph)
    : DiscoveryGraph :=
  match remaining, takes with
  | O, _ | _, [] | _, Take_stops :: _ => g
  | S remaining, Take_sample valid_data sample :: takes =>
      ingest local_prefix remaining takes (if valid_data then ingest_sample local_prefix sample g else g)
  end.

(** *** Observers of pending metadata: weak pointers, [alive] or expired *)

Fixpoint observe_loop (alive : nat -> bool) (observer : nat) (entries : list nat) : bool * list nat :=
  match entries with
  | [] => (false, [])
  | entry :: entries =>
      if negb (alive entry) then observe_loop alive observer entries
      else if Nat.eqb entry observer then (true, entry :: entries)
      else let '(found, kept) := observe_loop alive observer entries in (found, entry :: kept)
  end.

Definition observe_pending (alive : nat -> bool) (observer : nat) (observers : list nat) : list nat :=
  let '(found, kept) := observe_loop alive observer observers in
  if found then kept else kept ++ [observer].

(** The observers that are woken, and the ones that stay. *)
Definition ingest_from_listener (alive : nat -> bool) (observers : list nat) : list nat * list nat :=
  let live := filter (fun o => alive o = true) observers in (live, live).

(** ** What another participant learns *)

Lemma to_gid_length g : GUID_wf g -> length (gid_data (to_gid g)) = 16%nat.
Proof. intros Hg. by destruct (to_gid_wf g Hg). Qed.

Lemma to_rmw_gid_guid g : GUID_wf g -> rmw_gid_to_guid (to_rmw_gid g) = wire_gid g.
Proof.
  intros Hg. pose proof (to_gid_length g Hg) as Hl. unfold rmw_gid_to_guid, to_rmw_gid.
  rewrite (take_ge (gid_data _)) by lia. rewrite take_app_length' by done. done.
Qed.

Lemma to_rmw_gid_ok g : (16 <= kRmwGidSize)%nat -> GUID_wf g -> gid_ok kRmwGidSize (to_rmw_gid g).
Proof.
  intros Hs Hg. destruct (to_gid_wf g Hg) as [Hl Hf]. unfold gid_ok, to_rmw_gid.
  rewrite take_ge by lia. rewrite length_app, length_replicate. split; [lia|].
  apply Forall_app. split; [done|]. apply Forall_replicate. lia.
Qed.

Lemma wire_prefix g : GUID_wf g -> take 12 (wire_gid g) = guidPrefix g.
Proof.
  intros [[Hp _] _]. unfold wire_gid. rewrite (take_ge (guidPrefix g)) by lia. by apply take_app_length'.
Qed.

(** The part of a graph its participant announces. *)
Definition announced_node (g : DiscoveryGraph) (n : LocalNodeRecord) : RemoteNodeRecord :=
  MkRemoteNode (node_namespace n) (node_name n)
    ((fun e => wire_gid (l_guid e)) <$>
       filter (fun e => node_id e = id n /\ l_topic e <> kGraphMetadataTopicName /\ l_kind e = Reader)
         (local_endpoints g))
    ((fun e => wire_gid (l_guid e)) <$>
       filter (fun e => node_id e = id n /\ l_topic e <> kGraphMetadataTopicName /\ l_kind e = Writer)
         (local_endpoints g)).

Definition announced (g : DiscoveryGraph) : list RemoteNodeRecord := announced_node g <$> local_nodes g.

(** What the wire can carry of a graph. *)
Definition announceable (g : DiscoveryGraph) : Prop :=
  Forall (fun n => string_ok (node_namespace n) /\ string_ok (node_name n)) (local_nodes g) /\
  Forall (fun e => GUID_wf (l_guid e)) (local_endpoints g) /\
  Z.of_nat (length (local_nodes g)) <= UINT32_MAX /\ Z.of_nat (length (local_endpoints g)) <= UINT32_MAX.

Lemma node_gids_guids k i es :
  Forall (fun e => GUID_wf (l_guid e)) es ->
  rmw_gid_to_guid <$> node_gids k i es =
  (fun e => wire_gid (l_guid e)) <$>
    filter (fun e => node_id e = i /\ l_topic e <> kGraphMetadataTopicName /\ l_kind e = k) es.
Proof.
  intros Hes. unfold node_gids. rewrite <- list_fmap_compose. apply Forall_fmap_ext_1.
  apply Forall_forall. intros e [_ He]%list_elem_of_filter. rewrite Forall_forall in Hes.
  by apply to_rmw_gid_guid, Hes.
Qed.

Lemma node_gids_ok k i es :
  (16 <= kRmwGidSize)%nat -> Forall (fun e => GUID_wf (l_guid e)) es ->
  Z.of_nat (length es) <= UINT32_MAX ->
  sequence_ok (gid_ok kRmwGidSize) (node_gids k i es).
Proof.
  intros Hs Hes Hlen. unfold node_gids. split.
  - rewrite length_fmap. match goal with |- context [filter ?P es] => pose proof (length_filter P es) end. lia.
  - apply Forall_fmap, Forall_forall. intros e [_ He]%list_elem_of_filter. simpl.
    rewrite Forall_forall in Hes. by apply to_rmw_gid_ok, Hes.
Qed.

Lemma snapshot_ok g guid :
  (16 <= kRmwGidSize)%nat -> GUID_wf guid -> announceable g ->
  entities_ok kRmwGidSize (build_local_snapshot (view g) guid).
Proof.
  intros Hs Hg (Hn & He & Hl1 & Hl2). split; [by apply to_rmw_gid_ok|]. split; simpl.
  - by rewrite length_fmap.
  - apply Forall_fmap. eapply Forall_impl; [exact Hn|]. intros n [H1 H2].
    split_and!; [done | done | by apply node_gids_ok | by apply node_gids_ok].
Qed.

Lemma snapshot_announces g :
  Forall (fun e => GUID_wf (l_guid e)) (local_endpoints g) ->
  forall guid, to_remote_node <$> node_entities_info_seq (build_local_snapshot (view g) guid) = announced g.
Proof.
  intros He guid. simpl. rewrite <- list_fmap_compose. apply list_fmap_ext. intros _ n _. simpl.
  unfold to_remote_node; simpl. by rewrite !node_gids_guids.
Qed.

(** Ingesting a published snapshot. *)
Lemma ingest_snapshot other guid local_prefix g :
  GUID_wf guid -> announceable other -> guidPrefix guid <> local_prefix ->
  ingest local_prefix 1 [Take_sample true (build_local_snapshot (view other) guid)] g =
  graph_step (Op_remote (guidPrefix guid) (announced other)) g.
Proof.
  intros Hg Ha Hp. simpl. unfold ingest_sample.
  change (gid (build_local_snapshot (view other) guid)) with (to_rmw_gid guid).
  rewrite to_rmw_gid_guid, wire_prefix by done. rewrite snapshot_announces by apply Ha.
  by rewrite decide_False.
Qed.

Lemma published_read_back other guid payload :
  (16 <= kRmwGidSize)%nat -> GUID_wf guid -> announceable other ->
  publish_local_snapshot other guid = Some payload ->
  deserialize kRmwGidSize payload = Some (build_local_snapshot (view other) guid).
Proof.
  intros Hs Hg Ha. unfold publish_local_snapshot, serialize. case_match; [|done]. intros [= <-].
  rewrite <- (app_nil_r (write_participant_entities _ _)). by apply deserialize_written, snapshot_ok.
Qed.

(** C23: a participant that ingests the published snapshot of another one then
    holds for it exactly that participant's local Nodes, each with the GUIDs
    of its readers and writers, whatever it held before; nothing is held for a
    participant without Nodes; and the snapshot of one's own participant
    changes nothing. *)
Theorem snapshot_agreement ops other guid payload local_prefix :
  (16 <= kRmwGidSize)%nat -> GUID_wf guid -> announceable other ->
  let g := run graph_step ops new_graph in
  health g = Healthy -> publish_local_snapshot other guid = Some payload ->
  exists sample, deserialize kRmwGidSize payload = Some sample /\
    let g' := ingest local_prefix 1 [Take_sample true sample] g in
    (guidPrefix guid <> local_prefix ->
       find_if (rp_prefix_is (guidPrefix guid)) (remote_nodes g') =
         match local_nodes other with [] => None | _ => Some (MkRemoteNodes (guidPrefix guid) (announced other)) end) /\
    (guidPrefix guid = local_prefix -> g' = g).
Proof.
  intros Hs Hg Ha g Hh Hpub. exists (build_local_snapshot (view other) guid).
  split; [by apply published_read_back|]. cbn zeta. split; intros Hp.
  - rewrite ingest_snapshot by done. unfold graph_step; simpl.
    rewrite apply_remote_nodes_replaces; [|apply run_remote_wf|done].
    unfold replaced, announced. by destruct (local_nodes other).
  - simpl. unfold ingest_sample. change (gid (build_local_snapshot (view other) guid)) with (to_rmw_gid guid).
    rewrite to_rmw_gid_guid, wire_prefix by done. by rewrite decide_True.
Qed.

(** An endpoint the participant announces for a Node. *)
Definition announces (other : DiscoveryGraph) (n : LocalNodeRecord) (k : EndpointKind) (wire : list Z) : Prop :=
  exists e, e ∈ local_endpoints other /\ node_id e = id n /\ l_topic e <> kGraphMetadataTopicName /\
    l_kind e = k /\ wire_gid (l_guid e) = wire.

Lemma elem_of_announced k n other wire :
  wire ∈ (fun e => wire_gid (l_guid e)) <$>
    filter (fun e => node_id e = id n /\ l_topic e <> kGraphMetadataTopicName /\ l_kind e = k) (local_endpoints other) <->
  announces other n k wire.
Proof.
  rewrite list_elem_of_fmap. split.
  - intros (e & -> & [(? & ? & ?) ?]%list_elem_of_filter). by exists e.
  - intros (e & He & ? & ? & ? & <-). exists e. split; [done|]. by apply list_elem_of_filter.
Qed.

(** where the Node association is required, a service of another
    participant is complete, once its published snapshot has been ingested,
    exactly when discovery knows a live request reader and a live response
    writer of it that one and the same of its Nodes owns. *)
Theorem association_end_to_end ops other guid payload sample local_prefix rt rty st sty :
  (16 <= kRmwGidSize)%nat -> GUID_wf guid -> announceable other -> guidPrefix guid <> local_prefix ->
  health (run graph_step ops new_graph) = Healthy ->
  publish_local_snapshot other guid = Some payload -> deserialize kRmwGidSize payload = Some sample ->
  let g' := ingest local_prefix 1 [Take_sample true sample] (run graph_step ops new_graph) in
  service (guidPrefix guid) rt rty st sty true g' = S_Complete <->
  health g' = Healthy /\
  exists n r w, n ∈ local_nodes other /\
    offers (guidPrefix guid) g' rt rty Reader r /\ announces other n Reader (wire_gid (Discovery.guid r)) /\
    offers (guidPrefix guid) g' st sty Writer w /\ announces other n Writer (wire_gid (Discovery.guid w)).
Proof.
  intros Hs Hg Ha Hp Hh Hpub Hd g'. rewrite (published_read_back other guid payload) in Hd by done.
  injection Hd as <-. assert (graph_wf g') as Hwf.
  { unfold g'. rewrite ingest_snapshot by done. apply graph_step_wf, run_graph_wf, new_graph_wf. }
  assert (find_if (rp_prefix_is (guidPrefix guid)) (remote_nodes g') = replaced (guidPrefix guid) (announced other)) as Hf.
  { unfold g'. rewrite ingest_snapshot by done. apply apply_remote_nodes_replaces; [apply run_remote_wf | done]. }
  rewrite service_complete_iff by done. clearbody g'. split; intros [Hh' Hex]; (split; [done|]).
  - destruct Hex as (_ & _ & _ & _ & Has). destruct (Has eq_refl) as (p & m & Hfp & Hm & (r & Hr & Hr2) & (w & Hw & Hw2)).
    rewrite Hf in Hfp. unfold replaced in Hfp. destruct (announced other) as [|a l] eqn:Hl; [done|].
    injection Hfp as <-. simpl in Hm. rewrite <- Hl in Hm. apply list_elem_of_fmap in Hm as (n & -> & Hn).
    simpl in *. exists n, r, w. by rewrite <- !elem_of_announced.
  - destruct Hex as (n & r & w & Hn & Hr & Hr2 & Hw & Hw2). exists r, w. split_and!; [done..|]. intros _.
    exists (MkRemoteNodes (guidPrefix guid) (announced other)), (announced_node other n).
    assert (announced_node other n ∈ announced other) as Hin by by apply list_elem_of_fmap_2.
    split_and!; [| done | exists r | exists w].
    + rewrite Hf. unfold replaced. destruct (announced other); [by apply not_elem_of_nil in Hin | done].
    + split; [done|]. by apply elem_of_announced.
    + split; [done|]. by apply elem_of_announced.
Qed.
End Transport.

(** A participant with one Node that serves [/a]. *)
Definition serving : list GraphOp :=
  [Op_add_node $"server"%dmw $"/"%dmw;
   Op_add_endpoint (MkGUID (replicate 12 1) [0; 0; 1; 4]) Reader $"rq/aRequest"%dmw $"T_Request"%dmw 1 ros2_services_default;
   Op_add_endpoint (MkGUID (replicate 12 1) [0; 0; 2; 3]) Writer $"rr/aReply"%dmw $"T_Response"%dmw 1 ros2_services_default].

Definition server_graph : DiscoveryGraph := run graph_step serving new_graph.
Definition server_guid : GUID_t := MkGUID (replicate 12 1) [0; 0; 1; 193].

(** What its peer discovers. *)
Definition discovered : list GraphOp :=
  [Op_endpoint (MkGUID (replicate 12 1) [0; 0; 1; 4]) Reader $"rq/aRequest"%dmw $"T_Request"%dmw Added ros2_services_default;
   Op_endpoint (MkGUID (replicate 12 1) [0; 0; 2; 3]) Writer $"rr/aReply"%dmw $"T_Response"%dmw Added ros2_services_default].

Lemma server_guid_wf : GUID_wf server_guid.
Proof. unfold GUID_wf, octets. split; (split; [reflexivity | repeat constructor; simpl; lia]). Qed.

Lemma server_announceable : announceable server_graph.
Proof.
  unfold announceable. split_and!; [| | vm_compute; discriminate | vm_compute; discriminate].
  - assert (local_nodes server_graph = [MkLocalNode 1 $"server"%dmw $"/"%dmw 3]) as -> by (vm_compute; reflexivity).
    apply Forall_singleton; simpl. split; (split; [reflexivity | apply (bool_decide_unpack _); vm_compute; exact I]).
  - repeat (apply Forall_cons; split); try apply Forall_nil;
      (unfold GUID_wf, octets; split; (split; [reflexivity | repeat constructor; simpl; lia])).
Qed.

Definition server_payload : list Z := default [] (publish_local_snapshot 16 server_graph server_guid).
Definition server_sample : RmwParticipantEntitiesInfo := build_local_snapshot 16 (view server_graph) server_guid.

Lemma metadata_roundtrip_witness : deserialize 16 (server_payload ++ [7]) = Some server_sample.
Proof.
  apply (metadata_roundtrip 16 server_sample server_payload [7]); [|vm_compute; reflexivity].
  apply (snapshot_ok 16 server_graph server_guid); [lia | apply server_guid_wf | apply server_announceable].
Defined.

Lemma snapshot_agreement_witness :
  exists sample, deserialize 16 server_payload = Some sample /\
    is_Some (find_if (rp_prefix_is (replicate 12 1))
      (remote_nodes (ingest (replicate 12 2) 1 [Take_sample true sample] (run graph_step discovered new_graph)))).
Proof.
  destruct (snapshot_agreement 16 discovered server_graph server_guid server_payload (replicate 12 2)
    ltac:(lia) server_guid_wf server_announceable ltac:(reflexivity) ltac:(vm_compute; reflexivity)) as (sample & Hd & Hs & _).
  exists sample. split; [exact Hd|]. exists (MkRemoteNodes (replicate 12 1) (announced server_graph)).
  apply Hs. vm_compute. congruence.
Defined.

Lemma association_end_to_end_witness :
  exists n r w, n ∈ local_nodes server_graph /\ announces server_graph n Reader (wire_gid (guid r)) /\
    announces server_graph n Writer (wire_gid (guid w)).
Proof.
  destruct (proj1 (association_end_to_end 16 discovered server_graph server_guid server_payload server_sample (replicate 12 2)
    $"rq/aRequest"%dmw $"T_Request"%dmw $"rr/aReply"%dmw $"T_Response"%dmw
    ltac:(lia) server_guid_wf server_announceable ltac:(vm_compute; congruence) ltac:(reflexivity)
    ltac:(vm_compute; reflexivity) ltac:(vm_compute; reflexivity)) ltac:(vm_compute; reflexivity))
    as (_ & n & r & w & Hn & _ & Hr & _ & Hw).
  by exists n, r, w.
Defined.
