(* ===== verification/Services.v ===== *)
(** * Services: matched endpoints, response targets and callback gates

    Models src/impl/request.hpp, src/impl/response.hpp and
    src/impl/availability_wait_state.hpp.  Fast DDS reports a matched endpoint
    by an instance handle and a change of its match count; [Handles] is the
    part of Fast DDS that turns a handle into a GUID.  A [weak_ptr] to the
    discovery graph that may have expired is an [option]. *)

From S2P Require Import Prelude Strings Identity Qos Discovery.
Local Open Scope Z_scope.

Class Handles := {
  InstanceHandle : Type;
  isDefined : InstanceHandle -> bool;
  iHandle2GUID : InstanceHandle -> GUID_t;
  c_Guid_Unknown : GUID_t }.

(** One concrete choice, so that the definitions can be evaluated. *)
#[export] Instance guid_handles : Handles | 100 := {|
  InstanceHandle := option GUID_t;
  isDefined h := bool_decide (h <> None);
  iHandle2GUID h := default (MkGUID (replicate 12 0) (replicate 4 0)) h;
  c_Guid_Unknown := MkGUID (replicate 12 0) (replicate 4 0) |}.

(** ** Match counts ([ParticipantCount], [ReaderCount]) *)

Record Counted (K : Type) := MkCounted { counted_key : K; count : Z }.
Arguments MkCounted {K} _ _.
Arguments counted_key {K} _.
Arguments count {K} _.

Section Counts.
Context {K : Type} `{!EqDecision K}.

Definition key_is (k : K) (c : Counted K) : bool := bool_decide (counted_key c = k).

Definition apply_count (k : K) (change : Z) (l : list (Counted K)) : list (Counted K) :=
  match find_if (key_is k) l with
  | None => if 0 <? change then l ++ [MkCounted k change] else l
  | Some found =>
      if 0 <? change then
        update_first (key_is k) (fun c => MkCounted (counted_key c) (wrap_u64 (count c + change))) l
      else
        let decrement := - change in
        if count found <=? decrement then erase_first (key_is k) l
        else update_first (key_is k) (fun c => MkCounted (counted_key c) (count c - decrement)) l
  end.

Definition count_of (k : K) (l : list (Counted K)) : Z :=
  match find_if (key_is k) l with Some c => count c | None => 0 end.

(** The running balance of a key, never below zero. *)
Definition balance_step (k : K) (b : Z) (event : K * Z) : Z :=
  if decide (event.1 = k) then Z.max 0 (b + event.2) else b.

Definition balance (k : K) (events : list (K * Z)) : Z := fold_left (balance_step k) events 0.

Definition counts_wf (bound : Z) (l : list (Counted K)) : Prop :=
  NoDup (counted_key <$> l) /\ Forall (fun c => 0 < count c <= bound) l.

Lemma key_is_true k c : key_is k c = true <-> counted_key c = k.
Proof. unfold key_is. by rewrite bool_decide_eq_true. Qed.

Lemma count_of_None k l : k ∉ counted_key <$> l -> count_of k l = 0.
Proof.
  intros Hk. unfold count_of. destruct (find_if (key_is k) l) as [c|] eqn:Hf; [|done].
  apply find_if_Some in Hf as [Hin <-%key_is_true]. exfalso. by apply Hk, list_elem_of_fmap_2.
Qed.

Lemma count_of_cons k c l :
  count_of k (c :: l) = if decide (counted_key c = k) then count c else count_of k l.
Proof.
  unfold count_of; simpl. case_decide as Hk.
  - by rewrite (proj2 (key_is_true k c)).
  - destruct (key_is k c) eqn:Hkc; [|done]. by apply key_is_true in Hkc.
Qed.

Lemma count_of_app k l1 l2 :
  k ∉ counted_key <$> l1 -> count_of k (l1 ++ l2) = count_of k l2.
Proof.
  induction l1 as [|c l1 IH]; intros Hk; [done|]. rewrite <- app_comm_cons, count_of_cons.
  rewrite decide_False by set_solver. apply IH. set_solver.
Qed.

Lemma count_of_skip k c l1 l2 :
  counted_key c <> k -> count_of k (l1 ++ c :: l2) = count_of k (l1 ++ l2).
Proof.
  intros Hne. induction l1 as [|d l1 IH]; simpl; rewrite !count_of_cons; [by rewrite decide_False|].
  by case_decide.
Qed.

(** One change, for the key and for the others. *)
Lemma apply_count_spec bound k change l :
  counts_wf bound l -> in_i32 change -> change <> 0 -> 0 <= bound -> bound + INT32_MAX <= UINT64_MAX ->
  counts_wf (bound + INT32_MAX) (apply_count k change l) /\
  forall k', count_of k' (apply_count k change l) = balance_step k' (count_of k' l) (k, change).
Proof.
  intros [Hnd Hc] Hi Hz Hb Hm. unfold apply_count, balance_step; simpl.
  assert (counts_wf (bound + INT32_MAX) l) as Hwf.
  { split; [done|]. eapply Forall_impl; [exact Hc|]. simpl. intros. unfold_ints. lia. }
  destruct (find_if (key_is k) l) as [c|] eqn:Hf.
  - pose proof Hf as Hf'. apply find_if_split in Hf' as (l1 & l2 & -> & Hl1 & Hkc & Hu & He).
    apply key_is_true in Hkc. rewrite fmap_app, fmap_cons in Hnd.
    pose proof Hnd as Hnd0. apply NoDup_app in Hnd as (N1 & N2 & [N3 N4]%NoDup_cons).
    assert (k ∉ counted_key <$> l1) as Hk1.
    { intros Hin. apply (N2 k Hin). rewrite Hkc. left. }
    rewrite Hkc in N3. apply Forall_app in Hc as [C1 [Cc C2]%Forall_cons].
    assert (forall x, x ≠ 0 -> 0 < x <= bound + INT32_MAX ->
      counts_wf (bound + INT32_MAX) (l1 ++ MkCounted k x :: l2)) as Hwf'.
    { intros x Hx Hr. split; [rewrite fmap_app, fmap_cons; simpl; by rewrite <- Hkc|].
      destruct Hwf as [_ [W1 [_ W2]%Forall_cons]%Forall_app]. by apply Forall_app; auto. }
    assert (forall x k', count_of k' (l1 ++ MkCounted k x :: l2) =
      if decide (k = k') then x else count_of k' (l1 ++ c :: l2)) as Hcount.
    { intros x k'. destruct (decide (k = k')) as [<-|Hne].
      - rewrite count_of_app, count_of_cons by done. simpl. by rewrite (decide_True (P := k = k)).
      - rewrite !count_of_skip; simpl; congruence. }
    assert (count_of k (l1 ++ c :: l2) = count c) as Hck.
    { rewrite count_of_app, count_of_cons by done. by rewrite decide_True. }
    destruct (Z.ltb_spec 0 change); [|destruct (Z.leb_spec (count c) (- change))].
    + rewrite Hu, Hkc. rewrite wrap_u64_small by (unfold_ints; lia).
      split; [apply Hwf'; unfold_ints; lia|]. intros k'. rewrite Hcount.
      destruct (decide (k = k')) as [<-|]; [|done]. rewrite Hck. lia.
    + rewrite He. split.
      * split; [rewrite fmap_app; apply NoDup_app; split_and!; try done|].
        -- intros x Hx Hx2. apply (N2 x Hx). by right.
        -- destruct Hwf as [_ [W1 [_ W2]%Forall_cons]%Forall_app]. by apply Forall_app.
      * intros k'. destruct (decide (k = k')) as [<-|Hne]; [|by rewrite count_of_skip by congruence].
        rewrite Hck, count_of_app by done. rewrite count_of_None by done. lia.
    + rewrite Hu, Hkc. split; [apply Hwf'; unfold_ints; lia|]. intros k'. rewrite Hcount.
      destruct (decide (k = k')) as [<-|]; [|done]. rewrite Hck. lia.
  - assert (k ∉ counted_key <$> l) as Hk.
    { intros (c & -> & Hin)%list_elem_of_fmap.
      apply (proj1 (find_if_None _ _)) with (x := c) in Hf; [|done].
      by rewrite (proj2 (key_is_true _ _)) in Hf. }
    destruct (Z.ltb_spec 0 change).
    + split; [split|].
      * rewrite fmap_app. apply NoDup_app. split_and!; [done | | by apply NoDup_singleton].
        intros x Hx. simpl. rewrite list_elem_of_singleton. by intros ->.
      * apply Forall_app. split; [apply Hwf|]. apply Forall_singleton. simpl. unfold_ints. lia.
      * intros k'. destruct (decide (k = k')) as [<-|Hne].
        -- rewrite count_of_app, count_of_cons by done. simpl. rewrite (decide_True (P := k = k)) by done.
           rewrite count_of_None by done. lia.
        -- rewrite count_of_skip by done. by rewrite app_nil_r.
    + split; [done|]. intros k'. destruct (decide (k = k')) as [<-|]; [|done].
      rewrite count_of_None by done. lia.
Qed.
End Counts.

(** ** RequestState *)

Section Requests.
Context `{!Handles}.

Definition c_GuidPrefix_Unknown : GuidPrefix := guidPrefix c_Guid_Unknown.

Record RequestState := MkRequestState {
  degraded : bool;
  request_participants : list (Counted GuidPrefix);
  response_participants : list (Counted GuidPrefix) }.

Record ServiceNames := MkServiceNames {
  request_topic : str; request_type : str; response_topic : str; response_type : str;
  require_node_association : bool }.

Definition new_request_state : RequestState := MkRequestState false [] [].

Definition update (participants : list (Counted GuidPrefix)) (handle : InstanceHandle) (change : Z)
    : list (Counted GuidPrefix) :=
  if negb (isDefined handle) || (change =? 0) then participants
  else
    let q := guidPrefix (iHandle2GUID handle) in
    if decide (q = c_GuidPrefix_Unknown) then participants
    else apply_count q change participants.

Definition observe_request_reader (handle : InstanceHandle) (change : Z) (s : RequestState) : RequestState :=
  MkRequestState (degraded s) (update (request_participants s) handle change) (response_participants s).

Definition observe_response_writer (handle : InstanceHandle) (change : Z) (s : RequestState) : RequestState :=
  MkRequestState (degraded s) (request_participants s) (update (response_participants s) handle change).

Definition degrade_requests (s : RequestState) : RequestState := MkRequestState true [] [].

(** The loop of [is_available] over the request participants; the discovery
    graph is read as one snapshot. *)
Fixpoint availability_loop (names : ServiceNames) (discovery : option DiscoveryGraph)
    (responses requests : list (Counted GuidPrefix)) : bool :=
  match requests with
  | [] => false
  | request :: requests =>
      match find_if (key_is (counted_key request)) responses with
      | None => availability_loop names discovery responses requests
      | Some response =>
          if negb (count request =? count response) then availability_loop names discovery responses requests
          else match discovery with
          | None => true
          | Some graph =>
              match service (counted_key request) (request_topic names) (request_type names)
                      (response_topic names) (response_type names)
                      (require_node_association names) graph with
              | S_Unavailable => false
              | S_Complete => true
              | _ => availability_loop names discovery responses requests
              end
          end
      end
  end.

Definition is_available (names : ServiceNames) (discovery : option DiscoveryGraph) (s : RequestState) : bool :=
  if degraded s then false
  else
    if match discovery with
       | Some graph => negb (bool_decide (health graph = Healthy))
       | None => false
       end then false
    else availability_loop names discovery (response_participants s) (request_participants s).

Definition is_degraded (discovery : option DiscoveryGraph) (s : RequestState) : bool :=
  degraded s ||
  match discovery with
  | Some graph => negb (bool_decide (health graph = Healthy))
  | None => false
  end.

(** A history of match callbacks. *)
Inductive MatchEvent :=
  | RequestReader (handle : InstanceHandle) (change : Z)
  | ResponseWriter (handle : InstanceHandle) (change : Z).

Definition match_step (e : MatchEvent) (s : RequestState) : RequestState :=
  match e with
  | RequestReader h c => observe_request_reader h c s
  | ResponseWriter h c => observe_response_writer h c s
  end.

Definition change_of (e : MatchEvent) : Z :=
  match e with RequestReader _ c | ResponseWriter _ c => c end.

(** The changes of known participants. *)
Definition known_change (handle : InstanceHandle) (change : Z) : option (GuidPrefix * Z) :=
  let q := guidPrefix (iHandle2GUID handle) in
  if isDefined handle && negb (bool_decide (q = c_GuidPrefix_Unknown)) then Some (q, change) else None.

Definition reader_changes (events : list MatchEvent) : list (GuidPrefix * Z) :=
  omap (fun e => match e with RequestReader h c => known_change h c | _ => None end) events.

Definition writer_changes (events : list MatchEvent) : list (GuidPrefix * Z) :=
  omap (fun e => match e with ResponseWriter h c => known_change h c | _ => None end) events.

Lemma update_spec bound l handle change :
  counts_wf bound l -> in_i32 change -> 0 <= bound -> bound + INT32_MAX <= UINT64_MAX ->
  counts_wf (bound + INT32_MAX) (update l handle change) /\
  forall k, 0 <= count_of k l ->
    count_of k (update l handle change) =
    fold_left (balance_step k) (option_list (known_change handle change)) (count_of k l).
Proof.
  intros Hwf Hc Hb Hm. unfold update, known_change.
  assert (counts_wf (bound + INT32_MAX) l) as Hwf'.
  { destruct Hwf as [? Hf]. split; [done|]. eapply Forall_impl; [exact Hf|]. simpl. intros; unfold_ints; lia. }
  destruct (isDefined handle); simpl; [|done].
  case_bool_decide as Hq; simpl.
  - rewrite decide_True by done. by destruct (change =? 0).
  - rewrite decide_False by done. destruct (Z.eqb_spec change 0) as [->|Hz].
    + split; [done|]. intros k Hk. simpl. unfold balance_step; simpl. case_decide; lia.
    + destruct (apply_count_spec bound (guidPrefix (iHandle2GUID handle)) change l) as [H1 H2]; auto.
Qed.

Lemma count_of_nonneg {K} `{!EqDecision K} bound k (l : list (Counted K)) : counts_wf bound l -> 0 <= count_of k l.
Proof.
  intros [_ Hf]. unfold count_of. destruct (find_if _ _) eqn:He; [|done].
  apply find_if_Some in He as [Hin _]. rewrite Forall_forall in Hf. apply Hf in Hin. lia.
Qed.

Lemma fold_balance {K} `{!EqDecision K} (k : K) l1 l2 : balance k (l1 ++ l2) = fold_left (balance_step k) l2 (balance k l1).
Proof. apply fold_left_app. Qed.

Definition counts_match (bound : Z) (events : list MatchEvent) (s : RequestState) : Prop :=
  counts_wf bound (request_participants s) /\ counts_wf bound (response_participants s) /\
  (forall k, count_of k (request_participants s) = balance k (reader_changes events)) /\
  (forall k, count_of k (response_participants s) = balance k (writer_changes events)).

Lemma counts_wf_weaken {K} b b' (l : list (Counted K)) : b <= b' -> counts_wf b l -> counts_wf b' l.
Proof.
  intros Hb [? Hf]. split; [done|]. eapply Forall_impl; [exact Hf|]. simpl. intros; lia.
Qed.

Lemma run_counts_match events :
  Forall (fun e => in_i32 (change_of e)) events ->
  INT32_MAX * Z.of_nat (length events) <= UINT64_MAX ->
  counts_match (INT32_MAX * Z.of_nat (length events)) events (run match_step events new_request_state) /\
  degraded (run match_step events new_request_state) = false.
Proof.
  induction events as [|e events IH] using rev_ind; intros Hi Hlen.
  { split; [|done]. by split_and!; try done; constructor; constructor. }
  apply Forall_app in Hi as [Hi [He _]%Forall_cons]. rewrite length_app in *. simpl in Hlen |- *.
  destruct IH as [(W1 & W2 & C1 & C2) Hd]; [done | unfold_ints; lia |]. rewrite run_app; simpl.
  set (s := run match_step events new_request_state) in *.
  set (bound := INT32_MAX * Z.of_nat (length events)) in *.
  assert (INT32_MAX * Z.of_nat (length events + 1) = bound + INT32_MAX) as -> by (unfold bound; lia).
  assert (0 <= bound) by (unfold bound, INT32_MAX; lia).
  assert (bound + INT32_MAX <= UINT64_MAX) by (unfold bound; lia).
  assert (bound <= bound + INT32_MAX) by (unfold_ints; lia).
  unfold counts_match, reader_changes, writer_changes. rewrite !omap_app.
  destruct e as [h c|h c]; simpl in *; split; try done; split_and!; simpl;
    try (by eapply counts_wf_weaken; eauto).
  - by apply (update_spec bound).
  - intros k. destruct (update_spec bound (request_participants s) h c) as [_ Hu]; auto.
    rewrite Hu by by eapply count_of_nonneg. rewrite fold_balance, C1. by destruct (known_change h c).
  - intros k. rewrite app_nil_r. apply C2.
  - by apply (update_spec bound).
  - intros k. rewrite app_nil_r. apply C1.
  - intros k. destruct (update_spec bound (response_participants s) h c) as [_ Hu]; auto.
    rewrite Hu by by eapply count_of_nonneg. rewrite fold_balance, C2. by destruct (known_change h c).
Qed.

Lemma availability_loop_spec names discovery responses requests :
  (forall g, discovery = Some g -> health g = Healthy) ->
  availability_loop names discovery responses requests = true <->
  exists request response, request ∈ requests /\
    find_if (key_is (counted_key request)) responses = Some response /\ count request = count response /\
    forall g, discovery = Some g ->
      service (counted_key request) (request_topic names) (request_type names) (response_topic names)
        (response_type names) (require_node_association names) g = S_Complete.
Proof.
  intros Hh. induction requests as [|r rs IH]; simpl.
  { split; [done|]. intros (? & ? & Hin & _). by apply not_elem_of_nil in Hin. }
  assert (forall P : Prop, (P <-> exists response, find_if (key_is (counted_key r)) responses = Some response /\
      count r = count response /\ forall g, discovery = Some g ->
      service (counted_key r) (request_topic names) (request_type names) (response_topic names)
        (response_type names) (require_node_association names) g = S_Complete) ->
    (exists request response, request ∈ r :: rs /\
      find_if (key_is (counted_key request)) responses = Some response /\ count request = count response /\
      forall g, discovery = Some g ->
      service (counted_key request) (request_topic names) (request_type names) (response_topic names)
        (response_type names) (require_node_association names) g = S_Complete) <->
    P \/ availability_loop names discovery responses rs = true) as Hcons.
  { intros P HP. rewrite HP, IH. split.
    - intros (x & y & [->|Hx]%elem_of_cons & Hx'); [left; by exists y | right; by exists x, y].
    - intros [(y & Hx')|(x & y & Hx & Hx')]; [exists r, y; split; [left | done] | exists x, y; split; [by right | done]]. }
  destruct (find_if _ responses) as [resp|] eqn:Hf.
  - destruct (Z.eqb_spec (count r) (count resp)) as [Hc|Hc]; simpl.
    + destruct discovery as [g|].
      * specialize (Hh g eq_refl).
        destruct (service _ _ _ _ _ _ g) eqn:Hs.
        -- rewrite (Hcons False); [tauto|]. split; [done|]. intros (y & _ & _ & Hx'). specialize (Hx' g eq_refl). congruence.
        -- rewrite (Hcons True); [tauto|]. split; [|done]. intros _. exists resp. split_and!; try done. congruence.
        -- rewrite (Hcons False); [tauto|]. split; [done|]. intros (y & _ & _ & Hx'). specialize (Hx' g eq_refl). congruence.
        -- exfalso. revert Hs. unfold service. rewrite (decide_True (P := health g = Healthy)) by done.
           by repeat case_match.
      * rewrite (Hcons True); [tauto|]. split; [|done]. intros _. by exists resp.
    + rewrite (Hcons False); [tauto|]. split; [done|]. intros (y & Hx' & ? & _). congruence.
  - rewrite (Hcons False); [tauto|]. split; [done|]. intros (y & Hx' & _). congruence.
Qed.

(** after any history of match callbacks (too short to overflow a
    [size_t]), a service is available exactly when discovery is healthy and
    some known participant has the same positive number of matched request
    readers and response writers, each count being the running balance of the
    reported changes, and the discovery graph, where there is one, calls the
    service complete for that participant. *)
Theorem is_available_spec names discovery events :
  Forall (fun e => in_i32 (change_of e)) events ->
  INT32_MAX * Z.of_nat (length events) <= UINT64_MAX ->
  is_available names discovery (run match_step events new_request_state) = true <->
  (forall g, discovery = Some g -> health g = Healthy) /\
  exists q, 0 < balance q (reader_changes events) /\
    balance q (reader_changes events) = balance q (writer_changes events) /\
    forall g, discovery = Some g ->
      service q (request_topic names) (request_type names) (response_topic names)
        (response_type names) (require_node_association names) g = S_Complete.
Proof.
  intros Hi Hlen. destruct (run_counts_match events Hi Hlen) as [(W1 & W2 & C1 & C2) Hd].
  set (s := run match_step events new_request_state) in *. unfold is_available. rewrite Hd.
  assert ((if match discovery with Some graph => negb (bool_decide (health graph = Healthy)) | None => false end
           then false else availability_loop names discovery (response_participants s) (request_participants s)) = true
    <-> (forall g, discovery = Some g -> health g = Healthy) /\
        availability_loop names discovery (response_participants s) (request_participants s) = true) as ->.
  { destruct discovery as [g|]; simpl; [case_bool_decide as Hh; simpl|].
    - split; [|tauto]. intros; split; [by intros ? [= <-] | done].
    - split; [done|]. intros [Hg _]. by specialize (Hg g eq_refl).
    - split; [|tauto]. intros; split; [by intros | done]. }
  split; intros [Hh Hex]; split; try done.
  - apply availability_loop_spec in Hex as (r & resp & Hr & Hf & Hc & Hs); [|done].
    exists (counted_key r). rewrite <- C1, <- C2. destruct W1 as [N1 F1].
    assert (count_of (counted_key r) (request_participants s) = count r) as ->.
    { apply list_elem_of_split in Hr as (l1 & l2 & Heq). rewrite Heq in *.
      rewrite count_of_app, count_of_cons; [by rewrite decide_True|].
      rewrite fmap_app, fmap_cons in N1. apply NoDup_app in N1 as (_ & Hx & _).
      intros Hin. apply (Hx _ Hin). left. }
    split_and!; [| unfold count_of; by rewrite Hf | done].
    rewrite Forall_forall in F1. apply F1 in Hr. lia.
  - apply availability_loop_spec; [done|]. destruct Hex as (q & Hpos & Heq & Hs).
    rewrite <- C1 in Hpos. rewrite <- C1, <- C2 in Heq. unfold count_of in Hpos, Heq.
    destruct (find_if (key_is q) (request_participants s)) as [r|] eqn:Hr; [|lia].
    destruct (find_if (key_is q) (response_participants s)) as [w|] eqn:Hw; [|lia].
    apply find_if_Some in Hr as [Hin Hq%key_is_true]. exists r, w. by rewrite Hq.
Qed.
End Requests.

Definition sample_matches : list MatchEvent :=
  [RequestReader (Some guid_a) 2; ResponseWriter (Some guid_a) 1; RequestReader None 4; RequestReader (Some guid_a) (-1)].

Lemma is_available_spec_witness :
  is_available (MkServiceNames $"rq/aRequest"%dmw $"T"%dmw $"rr/aReply"%dmw $"U"%dmw false) None
    (run match_step sample_matches new_request_state) = true.
Proof.
  apply (is_available_spec _ None sample_matches).
  - repeat constructor; unfold_ints; simpl; lia.
  - vm_compute. discriminate.
  - split; [done|]. exists (replicate 12 1). split_and!; [vm_compute; reflexivity | vm_compute; reflexivity | done].
Defined.

(** ** CallbackInFlightGate *)

Record CallbackInFlightGate := MkGate { accepting_callbacks : bool; callbacks_in_flight : Z }.

Definition new_gate : CallbackInFlightGate := MkGate true 0.

(** [enter]: whether a guard was given. *)
Definition enter (g : CallbackInFlightGate) : bool * CallbackInFlightGate :=
  if accepting_callbacks g
  then (true, MkGate true (wrap_u64 (callbacks_in_flight g + 1)))
  else (false, g).

(** [Guard::release] of a guard that holds the gate; [true] if it notifies. *)
Definition leave (g : CallbackInFlightGate) : bool * CallbackInFlightGate :=
  let n := wrap_u64 (callbacks_in_flight g - 1) in
  (n =? 0, MkGate (accepting_callbacks g) n).

(** [close_and_drain] stops new callbacks, then waits on this predicate. *)
Definition stop_accepting (g : CallbackInFlightGate) : CallbackInFlightGate :=
  MkGate false (callbacks_in_flight g).
Definition drained (g : CallbackInFlightGate) : bool := callbacks_in_flight g =? 0.

(** The gate, the callbacks that run under a guard, and whether the owner
    waits in, or has returned from, [close_and_drain]. *)
Inductive Owner := Open | Draining | Returned.
Record GateRun := MkGateRun { gate : CallbackInFlightGate; running : list nat; owner : Owner }.

Inductive gate_step : GateRun -> GateRun -> Prop :=
  | step_enter g rs o t g' :
      enter g = (true, g') -> Z.of_nat (S (length rs)) <= UINT64_MAX ->
      gate_step (MkGateRun g rs o) (MkGateRun g' (t :: rs) o)
  | step_refused g rs o g' :
      enter g = (false, g') -> gate_step (MkGateRun g rs o) (MkGateRun g' rs o)
  | step_leave g rs1 t rs2 o b g' :
      leave g = (b, g') -> gate_step (MkGateRun g (rs1 ++ t :: rs2) o) (MkGateRun g' (rs1 ++ rs2) o)
  | step_close g rs :
      gate_step (MkGateRun g rs Open) (MkGateRun (stop_accepting g) rs Draining)
  | step_drained g rs :
      drained g = true -> gate_step (MkGateRun g rs Draining) (MkGateRun g rs Returned).

Definition gate_inv (r : GateRun) : Prop :=
  callbacks_in_flight (gate r) = Z.of_nat (length (running r)) /\
  Z.of_nat (length (running r)) <= UINT64_MAX /\
  (owner r <> Open -> accepting_callbacks (gate r) = false) /\
  (owner r = Returned -> running r = []).

Lemma gate_step_inv r r' : gate_inv r -> gate_step r r' -> gate_inv r'.
Proof.
  intros (Hn & Hb & Ha & Hr). destruct 1; unfold gate_inv, enter, leave, stop_accepting, drained in *; simpl in *.
  - destruct (accepting_callbacks g) eqn:Hacc; simplify_eq/=. rewrite Hn.
    split_and!; [rewrite wrap_u64_small; unfold_ints; lia | lia | |].
    + intros Ho. specialize (Ha Ho). congruence.
    + intros ->. by specialize (Ha ltac:(done)).
  - destruct (accepting_callbacks g) eqn:Hacc; simplify_eq/=. by split_and!.
  - simplify_eq/=. rewrite length_app in *. simpl in *. rewrite Hn.
    split_and!; [rewrite wrap_u64_small; unfold_ints; lia | lia | done |].
    intros ->. specialize (Hr eq_refl). by destruct rs1.
  - split_and!; try done.
  - split_and!; try done; [intros _; by apply Ha|]. intros _. apply Z.eqb_eq in H. destruct rs; [done|simpl in Hn; lia].
Qed.

(** once [close_and_drain] has returned, no callback holds the gate and
    none is admitted any more, in every interleaving of fewer than 2^64
    callbacks with the owner. *)
Theorem drain_safety r :
  reachable (fun r => r = MkGateRun new_gate [] Open) gate_step r ->
  owner r = Returned -> running r = [] /\ (enter (gate r)).1 = false.
Proof.
  intros Hreach Ho. assert (gate_inv r) as (_ & _ & Ha & Hr).
  { revert r Hreach Ho. intros r Hreach _. revert r Hreach. apply reachable_invariant; [|apply gate_step_inv].
    intros s ->. by split_and!. }
  split; [by apply Hr|]. unfold enter. rewrite Ha by congruence. done.
Qed.

Lemma drain_safety_witness :
  running (MkGateRun (MkGate false 0) [] Returned) = [] /\ (enter (MkGate false 0)).1 = false.
Proof.
  apply (drain_safety (MkGateRun (MkGate false 0) [] Returned)); [|reflexivity].
  eapply reach_step; [|apply (step_drained (MkGate false 0) []); reflexivity].
  eapply reach_step; [|apply (step_leave (MkGate false 1) [] 7%nat [] Draining true); reflexivity].
  eapply reach_step; [|apply (step_close (MkGate true 1) [7%nat])].
  eapply reach_step; [by apply reach_init|].
  apply (step_enter new_gate [] Open 7%nat); [reflexivity | vm_compute; discriminate].
Defined.

(** ** ResponseState *)

Inductive TargetStatus := T_Ready | T_Removed | T_TimedOut | T_Unavailable.

#[export] Instance TargetStatus_eq_dec : EqDecision TargetStatus.
Proof. solve_decision. Defined.

Record ResponseState := MkResponseState { rs_degraded : bool; readers : list (Counted GUID_t) }.

Section Responses.
Context `{!Handles}.

Definition observe_reader (handle : InstanceHandle) (change : Z) (s : ResponseState) : ResponseState :=
  if negb (isDefined handle) || (change =? 0) then s
  else
    let guid := iHandle2GUID handle in
    if decide (guid = c_Guid_Unknown) then s
    else MkResponseState (rs_degraded s) (apply_count guid change (readers s)).

Definition degrade_responses (s : ResponseState) : ResponseState := MkResponseState true [].

Definition target_status (graph : option DiscoveryGraph) (reader : GUID_t) : TargetStatus :=
  match graph with
  | None => T_Unavailable
  | Some g =>
      if negb (bool_decide (health g = Healthy)) then T_Unavailable
      else match endpoint reader g with
      | E_Removed => T_Removed
      | E_Unavailable => T_Unavailable
      | E_Active | E_Unknown => T_TimedOut
      end
  end.

Definition target_ready (reader : GUID_t) (s : ResponseState) : bool := existsb (key_is reader) (readers s).

Definition check_target (graph : option DiscoveryGraph) (reader : GUID_t) (s : ResponseState) : TargetStatus :=
  let status := target_status graph reader in
  if rs_degraded s || bool_decide (status = T_Unavailable) then T_Unavailable
  else if bool_decide (status = T_Removed) then T_Removed
  else if target_ready reader s then T_Ready else T_TimedOut.

(** How one [cv.wait_until] ends: at the deadline, or woken, with the graph
    the status is then read from and the state found under the lock again. *)
Inductive Wake := Deadline_passed | Woken (graph : option DiscoveryGraph) (s : ResponseState).

(** The loop of [wait_for_target]; [None] while it still waits. *)
Fixpoint target_loop (reader : GUID_t) (status : TargetStatus) (s : ResponseState) (wakes : list Wake)
    : option TargetStatus :=
  if rs_degraded s || bool_decide (status = T_Unavailable) then Some T_Unavailable
  else if bool_decide (status = T_Removed) then Some T_Removed
  else if target_ready reader s then Some T_Ready
  else match wakes with
  | [] => None
  | Deadline_passed :: _ => Some T_TimedOut
  | Woken graph s' :: wakes => target_loop reader (target_status graph reader) s' wakes
  end.

Definition wait_for_target (reader : GUID_t) (graph : option DiscoveryGraph) (s : ResponseState)
    (wakes : list Wake) : option TargetStatus :=
  let status := target_status graph reader in
  if rs_degraded s then Some T_Unavailable else target_loop reader status s wakes.

(** What the waiter has observed when it makes each of its decisions. *)
Fixpoint observations (graph : option DiscoveryGraph) (s : ResponseState) (wakes : list Wake)
    : list (option DiscoveryGraph * ResponseState) :=
  (graph, s) ::
  match wakes with
  | Woken graph' s' :: wakes => observations graph' s' wakes
  | _ => []
  end.

Definition undecided (reader : GUID_t) (o : option DiscoveryGraph * ResponseState) : Prop :=
  check_target o.1 reader o.2 = T_TimedOut.

Lemma target_loop_unfold reader graph s wakes :
  target_loop reader (target_status graph reader) s wakes =
  match check_target graph reader s with
  | T_TimedOut => match wakes with
      | [] => None
      | Deadline_passed :: _ => Some T_TimedOut
      | Woken graph s' :: wakes => target_loop reader (target_status graph reader) s' wakes
      end
  | t => Some t
  end.
Proof. unfold check_target. destruct wakes; simpl; by repeat case_match. Qed.

(** waiting for a response target ends with the first observation that
    [check_target] decides, and with that decision; it times out only at the
    deadline, with every observation undecided; and a wait that meets its
    deadline always ends. *)
Theorem wait_for_target_spec reader graph s wakes :
  (forall t, t <> T_TimedOut ->
    (wait_for_target reader graph s wakes = Some t <->
     exists before o after, observations graph s wakes = before ++ o :: after /\
       Forall (undecided reader) before /\ check_target o.1 reader o.2 = t)) /\
  (wait_for_target reader graph s wakes = Some T_TimedOut ->
     Forall (undecided reader) (observations graph s wakes) /\ Deadline_passed ∈ wakes) /\
  (Deadline_passed ∈ wakes -> wait_for_target reader graph s wakes <> None).
Proof.
  assert (wait_for_target reader graph s wakes = target_loop reader (target_status graph reader) s wakes) as ->.
  { unfold wait_for_target. destruct (rs_degraded s) eqn:Hd; [|done]. destruct wakes; simpl; by rewrite Hd. }
  revert graph s. induction wakes as [|w wakes IH]; intros graph s; rewrite target_loop_unfold.
  - simpl. split_and!.
    + intros t Ht. split.
      * intros Heq. exists [], (graph, s), []. split_and!; try done. simpl. destruct (check_target graph reader s); by simplify_eq.
      * intros (b & o & a & Heq & _ & Hc). destruct b; [|by destruct b]. injection Heq as <- _.
        simpl in Hc. rewrite Hc. by destruct t.
    + by destruct (check_target graph reader s).
    + intros Hin. by apply not_elem_of_nil in Hin.
  - destruct (check_target graph reader s) eqn:Hct.
    3: { destruct w as [|g' s'].
      - simpl. split_and!; [|intros _; split; [by repeat constructor | left] | done].
        intros t Ht. split; [by intros [= <-]|]. intros (b & o & a & Heq & _ & Hc).
        destruct b; [|by destruct b]. injection Heq as <- _. simpl in Hc. congruence.
      - simpl. destruct (IH g' s') as (H1 & H2 & H3). split_and!.
        + intros t Ht. rewrite H1 by done. split.
          * intros (b & o & a & -> & Hb & Hc). exists ((graph, s) :: b), o, a.
            split_and!; try done. by constructor.
          * intros (b & o & a & Heq & Hb & Hc). destruct b as [|x b].
            -- injection Heq as <- _. simpl in Hc. congruence.
            -- injection Heq as <- Heq. apply Forall_cons in Hb as [_ Hb]. by exists b, o, a.
        + intros Ht. destruct (H2 Ht). split; [by constructor | by right].
        + intros [?|Hin]%elem_of_cons; [done | by apply H3]. }
    all: split_and!; [| done | done]; intros t Ht; split;
      [intros [= <-]; exists [], (graph, s); eexists; by split_and!
      | intros (b & o & a & Heq & Hb & Hc); destruct b as [|x b];
        [injection Heq as <- _; simpl in Hc; congruence
        | injection Heq as <- _; apply Forall_cons in Hb as [Hb _]; unfold undecided in Hb; simpl in Hb; congruence]].
Qed.
End Responses.

(** ** AvailabilityWaitState *)

(** A token remembers which state it was prepared for and the generation. *)
Record AvailabilityWaitToken := MkToken { token_identity : nat; token_generation : Z }.

Record AvailabilityWaitState := MkAvailability {
  identity : nat; wait_revision : Z; interruption_generation : Z }.

Definition prepare (s : AvailabilityWaitState) : AvailabilityWaitToken :=
  MkToken (identity s) (interruption_generation s).

Definition owns (s : AvailabilityWaitState) (token : AvailabilityWaitToken) : bool :=
  Nat.eqb (token_identity token) (identity s).

Definition interrupted (s : AvailabilityWaitState) (token : AvailabilityWaitToken) : bool :=
  negb (token_generation token =? interruption_generation s).

Definition notify_revision (s : AvailabilityWaitState) : AvailabilityWaitState :=
  MkAvailability (identity s) (wrap_u64 (wait_revision s + 1)) (interruption_generation s).

Definition interrupt (s : AvailabilityWaitState) : AvailabilityWaitState :=
  MkAvailability (identity s) (wrap_u64 (wait_revision s + 1)) (wrap_u64 (interruption_generation s + 1)).
