(* ===== verification/Servers.v ===== *)
(** * Servers: pending requests and responses

    Models src/impl/server_impl.hpp and src/impl/server_impl.cpp.  The first
    part gives each operation as it runs alone; the second interleaves their
    critical sections.  Fast DDS is seen through the results of its calls: the
    samples [take_next_sample] returns, the type support's [commit], the
    outcome of a write. *)

From S2P Require Import Prelude Strings Identity Qos Discovery Services.
Local Open Scope Z_scope.

Inductive PendingPhase := Pending | Responding.

#[export] Instance PendingPhase_eq_dec : EqDecision PendingPhase.
Proof. solve_decision. Defined.

Record PendingRequest := MkPending { sample_identity : SampleIdentity; phase : PendingPhase }.

(** [blocking_enabled] is the flag of the request reader's wait state,
    [request_scratch] whether the scratch sample exists. *)
Record ServerState := MkServer {
  max_pending_requests : Z;
  pending : gmap RequestId PendingRequest;
  reservations : Z;
  blocking_enabled : bool;
  request_scratch : bool }.

Definition new_server (max : Z) : ServerState := MkServer max ∅ 0 true false.

Definition with_pending (m : gmap RequestId PendingRequest) (s : ServerState) : ServerState :=
  MkServer (max_pending_requests s) m (reservations s) (blocking_enabled s) (request_scratch s).
Definition with_reservations (n : Z) (s : ServerState) : ServerState :=
  MkServer (max_pending_requests s) (pending s) n (blocking_enabled s) (request_scratch s).
Definition set_blocking_enabled (b : bool) (s : ServerState) : ServerState :=
  MkServer (max_pending_requests s) (pending s) (reservations s) b (request_scratch s).
Definition with_scratch (s : ServerState) : ServerState :=
  MkServer (max_pending_requests s) (pending s) (reservations s) (blocking_enabled s) true.

(** [pending_.size() + reservations_]. *)
Definition occupied (s : ServerState) : Z := Z.of_nat (size (pending s)) + reservations s.

(** ** Critical sections *)

(** [None] when there is no slot, else whether the server became full. *)
Definition reserve_request_slot (s : ServerState) : option (bool * ServerState) :=
  if max_pending_requests s <=? occupied s then None
  else
    let s := with_reservations (reservations s + 1) s in
    Some (occupied s =? max_pending_requests s, s).

Definition release_request_reservation (s : ServerState) : bool * ServerState :=
  let s := with_reservations (reservations s - 1) s in
  (occupied s + 1 =? max_pending_requests s, s).

Definition release_pending_request (id : RequestId) (s : ServerState) : bool * ServerState :=
  (occupied s =? max_pending_requests s, with_pending (delete id (pending s)) s).

(** [pending_.emplace] and the end of the reservation. *)
Definition insert_pending (id : RequestId) (identity : SampleIdentity) (s : ServerState) : bool * ServerState :=
  match pending s !! id with
  | Some _ => (false, with_reservations (reservations s - 1) s)
  | None =>
      (true, with_reservations (reservations s - 1)
               (with_pending (<[id := MkPending identity Pending]> (pending s)) s))
  end.

(** Set the phase of a request that is still there. *)
Definition set_phase (ph : PendingPhase) (id : RequestId) (s : ServerState) : ServerState :=
  match pending s !! id with
  | Some p => with_pending (<[id := MkPending (sample_identity p) ph]> (pending s)) s
  | None => s
  end.

Definition check_pending_request (id : RequestId) (s : ServerState) : Result unit :=
  match pending s !! id with
  | None => fail NotFound "Request is not pending"
  | Some p =>
      if decide (phase p = Responding) then fail Busy "Response is in progress" else success tt
  end.

(** The locked part of [discard_request]: the result and [was_full]. *)
Definition discard_locked (id : RequestId) (s : ServerState) : Result bool * ServerState :=
  match pending s !! id with
  | None => (fail NotFound "Request is not pending", s)
  | Some p =>
      if decide (phase p = Responding) then (fail Busy "Response is in progress", s)
      else (success (occupied s =? max_pending_requests s), with_pending (delete id (pending s)) s)
  end.

Definition claim_locked (id : RequestId) (s : ServerState) : Result SampleIdentity * ServerState :=
  match pending s !! id with
  | None => (fail NotFound "Request is not pending", s)
  | Some p =>
      if decide (phase p = Responding) then (fail Busy "Response is in progress", s)
      else (success (sample_identity p), set_phase Responding id s)
  end.

(** [if (...) request_wait_state_->set_blocking_enabled(true)] *)
Definition enable_if (r : bool * ServerState) : ServerState :=
  if r.1 then set_blocking_enabled true r.2 else r.2.

(** ** Reading a request *)

Record SampleInfo := MkSampleInfo {
  valid_data : bool; info_identity : SampleIdentity; related_sample_identity : SampleIdentity }.

Section Server.
Context `{!Handles}.
(** [Payload] is what a sample deserializes to, [commit] the type support's
    copy into the caller's object, [create_sample] the allocation of the
    scratch sample. *)
Context {Payload : Type} (commit : Payload -> Result unit) (create_sample : Result unit).
Variable c_SequenceNumber_Unknown : SequenceNumber.

Inductive TakeResult :=
  | NoData
  | TakeError (code : ReturnCode)
  | Taken (info : SampleInfo) (data : Payload).

(** The identity a request is answered under. *)
Definition request_identity (info : SampleInfo) (id : RequestId) : RequestId * SampleIdentity :=
  let response_reader_guid := writer_guid (related_sample_identity info) in
  if decide (response_reader_guid = c_Guid_Unknown) then (id, info_identity info)
  else (MkRequestId (to_gid response_reader_guid) (sequence_number id),
        MkSampleIdentity response_reader_guid (sample_sequence (info_identity info))).

(** The loop of [read_request]; [success None] is the source's [false]. *)
Fixpoint read_loop (remaining : nat) (takes : list TakeResult) (s : ServerState)
    : Result (option (RequestId * Payload)) * ServerState :=
  match remaining with
  | O => (success None, s)
  | S remaining =>
      match reserve_request_slot s with
      | None => (fail ResourceExhausted "Server pending request capacity is exhausted", s)
      | Some (became_full, s) =>
          let s := if became_full then set_blocking_enabled false s else s in
          match (if request_scratch s then success tt else create_sample) with
          | failure e => (failure e, enable_if (release_request_reservation s))
          | success _ =>
              let s := with_scratch s in
              match takes with
              | [] | NoData :: _ => (success None, enable_if (release_request_reservation s))
              | TakeError code :: _ =>
                  (failure (to_error code "Fast DDS request take failed"),
                   enable_if (release_request_reservation s))
              | Taken info data :: takes =>
                  if negb (valid_data info) then
                    read_loop remaining takes (enable_if (release_request_reservation s))
                  else
                    match to_request_id c_SequenceNumber_Unknown (info_identity info) with
                    | None =>
                        (fail DDSError "Fast DDS request has an unknown sequence",
                         enable_if (release_request_reservation s))
                    | Some id =>
                        let '(id, identity) := request_identity info id in
                        let '(inserted, s) := insert_pending id identity s in
                        if negb inserted then
                          read_loop remaining takes (if became_full then set_blocking_enabled true s else s)
                        else
                          match commit data with
                          | success _ => (success (Some (id, data)), s)
                          | failure e => (failure e, enable_if (release_pending_request id s))
                          end
                    end
              end
          end
      end
  end.

Definition read_request (request_null operation : bool) (unread : nat) (takes : list TakeResult) (s : ServerState)
    : Result (option (RequestId * Payload)) * ServerState :=
  if request_null then (fail InvalidArgument "Request must not be null", s)
  else if negb operation then (fail ContextShutdown "Context is shut down", s)
  else read_loop unread takes s.

(** ** Discarding, claiming and answering *)

Definition discard_request (operation : bool) (id : RequestId) (s : ServerState) : Result unit * ServerState :=
  if negb operation then (fail ContextShutdown "Context is shut down", s)
  else match discard_locked id s with
  | (failure e, s) => (failure e, s)
  | (success was_full, s) => (success tt, enable_if (was_full, s))
  end.

Definition claim_response (operation : bool) (id : RequestId) (s : ServerState)
    : Result SampleIdentity * ServerState :=
  if negb operation then (fail ContextShutdown "Context is shut down", s) else claim_locked id s.

Definition is_reader_guid (guid : GUID_t) : bool :=
  negb (bool_decide (guid = c_Guid_Unknown)) &&
  negb (Z.land (nth 3 (entityId guid) 0) 4 =? 0).

(** What [write_claimed_response] meets, in the order it meets it; the two
    waits and the recheck are [ResponseState]'s. *)
Record ResponseEnv := MkResponseEnv {
  response_null : bool;
  operation : bool;
  deadline : Result Z;
  first_target : TargetStatus;
  is_shutdown : bool;
  rechecked_target : TargetStatus;
  second_target : TargetStatus;
  written : bool }.

Definition restore_pending (id : RequestId) (s : ServerState) : ServerState := set_phase Pending id s.

(** The body, before the [RestorePending] guard runs. *)
Definition write_claimed_body (id : RequestId) (identity : SampleIdentity) (env : ResponseEnv) (s : ServerState)
    : Result unit * ServerState :=
  if response_null env then (fail InvalidArgument "Response must not be null", s)
  else if negb (operation env) then (fail ContextShutdown "Context is shut down", s)
  else
    let has_target_reader := is_reader_guid (writer_guid identity) in
    match deadline env with
    | failure e => (failure e, restore_pending id s)
    | success _ =>
        let target := if has_target_reader then first_target env else T_Ready in
        match target with
        | T_Removed => (success tt, enable_if (release_pending_request id s))
        | T_Unavailable =>
            (fail DDSError "Response reader discovery context is unavailable", restore_pending id s)
        | T_TimedOut =>
            (fail Timeout "Response reader did not match before the deadline", restore_pending id s)
        | T_Ready =>
            if is_shutdown env then (fail ContextShutdown "Context is shut down", restore_pending id s)
            else
              let final_target :=
                if has_target_reader then
                  if decide (rechecked_target env = T_TimedOut) then second_target env
                  else rechecked_target env
                else T_Ready in
              match final_target with
              | T_Removed => (success tt, enable_if (release_pending_request id s))
              | T_Unavailable =>
                  (fail DDSError "Response reader discovery context is unavailable", restore_pending id s)
              | T_TimedOut =>
                  (fail Timeout "Response reader is unavailable before write", restore_pending id s)
              | T_Ready =>
                  if written env then (success tt, enable_if (release_pending_request id s))
                  else (fail DDSError "Fast DDS response write failed", restore_pending id s)
              end
        end
    end.

Definition write_claimed_response (id : RequestId) (identity : SampleIdentity) (env : ResponseEnv)
    (s : ServerState) : Result unit * ServerState :=
  let '(result, s) := write_claimed_body id identity env s in
  (result, restore_pending id s).

Definition write_response (id : RequestId) (claim_operation : bool) (env : ResponseEnv) (s : ServerState)
    : Result unit * ServerState :=
  if response_null env then (fail InvalidArgument "Response must not be null", s)
  else match claim_response claim_operation id s with
  | (failure e, s) => (failure e, s)
  | (success identity, s) => write_claimed_response id identity env s
  end.
End Server.

(** ** The deadline of a response *)

(** The reliability's [max_blocking_time]. *)
Record BlockingTime := MkBlocking { blocking_infinite : bool; blocking_seconds : Z; blocking_nanosec : Z }.

(** [qos_error] is the return code of [get_qos] unless it is [RETCODE_OK]. *)
Definition response_target_deadline (qos_error : option ReturnCode) (d : BlockingTime) (now : Z) : Result Z :=
  match qos_error with
  | Some code => failure (to_error code "Fast DDS response writer QoS query failed")
  | None =>
  if blocking_infinite d then success INT64_MAX
  else if (blocking_seconds d <? 0) || (1000000000 <=? blocking_nanosec d) then
    fail DDSError "Fast DDS response writer has an invalid max blocking time"
  else if Z.quot INT64_MAX 1000000000 <? blocking_seconds d then success INT64_MAX
  else
    let wait_duration := blocking_seconds d * 1000000000 + blocking_nanosec d in
    if INT64_MAX - now <? wait_duration then success INT64_MAX else success (now + wait_duration)
  end.

(** ** One operation at a time *)

Section Sequential.
Context `{!Handles} {Payload : Type} (commit : Payload -> Result unit) (create_sample : Result unit).
Variable c_SequenceNumber_Unknown : SequenceNumber.

(** [write_claimed_response] is only called by the holder of a claim. *)
Inductive ServerOp :=
  | S_read (null op : bool) (unread : nat) (takes : list (TakeResult (Payload := Payload)))
  | S_discard (op : bool) (id : RequestId)
  | S_claim (op : bool) (id : RequestId)
  | S_write_claimed (id : RequestId) (identity : SampleIdentity) (env : ResponseEnv)
  | S_write (id : RequestId) (op : bool) (env : ResponseEnv).

Definition claimed (id : RequestId) (s : ServerState) : bool :=
  match pending s !! id with Some p => bool_decide (phase p = Responding) | None => false end.

Definition server_exec (o : ServerOp) (s : ServerState) : ServerState :=
  match o with
  | S_read null op unread takes =>
      (read_request commit create_sample c_SequenceNumber_Unknown null op unread takes s).2
  | S_discard op id => (discard_request op id s).2
  | S_claim op id => (claim_response op id s).2
  | S_write_claimed id identity env =>
      if claimed id s then (write_claimed_response id identity env s).2 else s
  | S_write id op env => (write_response id op env s).2
  end.

Variable max : Z.
Hypothesis max_positive : 1 <= max.

(** Between operations: nothing reserved, never over capacity, and the reader
    wakes its wait set exactly while a slot is free. *)
Record server_inv (s : ServerState) : Prop := {
  si_max : max_pending_requests s = max;
  si_res : reservations s = 0;
  si_size : Z.of_nat (size (pending s)) <= max_pending_requests s;
  si_blocking : blocking_enabled s = (Z.of_nat (size (pending s)) <? max_pending_requests s) }.

Lemma size_delete_some (m : gmap RequestId PendingRequest) id :
  is_Some (m !! id) -> Z.of_nat (size (delete id m)) = Z.of_nat (size m) - 1.
Proof.
  intros Hp. rewrite map_size_delete_Some by done.
  assert (size m <> 0)%nat; [|lia]. intros Hz. apply map_size_empty_inv in Hz. subst. by destruct Hp.
Qed.

(** Releasing a pending entry and telling the reader. *)
Lemma released_inv id s :
  server_inv s -> is_Some (pending s !! id) -> server_inv (enable_if (release_pending_request id s)).
Proof.
  intros [Hm Hr Hs Hb] Hp. pose proof (size_delete_some _ _ Hp) as Hsz.
  unfold enable_if, release_pending_request, occupied; simpl. rewrite Hr.
  destruct (Z.eqb_spec (Z.of_nat (size (pending s)) + 0) (max_pending_requests s)) as [Hf|Hf]; simpl;
    split; simpl; try done; rewrite ?Hsz, ?Hb; case_cmp; done || lia.
Qed.

Lemma set_phase_inv ph id s : server_inv s -> server_inv (set_phase ph id s).
Proof.
  intros [Hm Hr Hs Hb]. unfold set_phase. destruct (pending s !! id) as [p|] eqn:Hp; [|done].
  split; simpl; rewrite ?map_size_insert_Some by done; done.
Qed.

Lemma set_phase_lookup ph id s : is_Some (pending s !! id) -> is_Some (pending (set_phase ph id s) !! id).
Proof. intros [p Hp]. unfold set_phase. rewrite Hp. simpl. by rewrite lookup_insert_eq. Qed.

(** Inside [read_loop], with a slot reserved and the flag set. *)
Record mid_inv (became_full : bool) (s : ServerState) : Prop := {
  mi_max : max_pending_requests s = max;
  mi_res : reservations s = 1;
  mi_size : Z.of_nat (size (pending s)) + 1 <= max_pending_requests s;
  mi_full : became_full = (Z.of_nat (size (pending s)) + 1 =? max_pending_requests s);
  mi_blocking : blocking_enabled s = negb became_full }.

Lemma reserve_inv s b s' :
  server_inv s -> reserve_request_slot s = Some (b, s') ->
  mid_inv b (if b then set_blocking_enabled false s' else s').
Proof.
  intros [Hm Hr Hs Hb]. unfold reserve_request_slot, occupied. rewrite Hr; simpl.
  destruct (Z.leb_spec (max_pending_requests s) (Z.of_nat (size (pending s)) + 0)); [done|].
  intros [= <- <-]. rewrite Z.add_0_l. destruct (Z.eqb_spec (Z.of_nat (size (pending s)) + 1) (max_pending_requests s)) as [He|He];
    split; simpl; rewrite ?Hb; case_cmp; done || lia.
Qed.

Lemma give_back_inv b s : mid_inv b s -> server_inv (enable_if (release_request_reservation s)).
Proof.
  intros [Hm Hr Hs Hf Hb]. unfold enable_if, release_request_reservation, occupied; simpl. rewrite Hr; simpl.
  rewrite Z.add_0_r. rewrite <- Hf. destruct b; split; simpl; rewrite ?Hb; symmetry in Hf;
    [apply Z.eqb_eq in Hf .. | apply Z.eqb_neq in Hf | apply Z.eqb_neq in Hf | apply Z.eqb_neq in Hf | apply Z.eqb_neq in Hf];
    case_cmp; done || lia.
Qed.

Lemma insert_new_inv b id identity s s' :
  mid_inv b s -> insert_pending id identity s = (true, s') -> server_inv s' /\ is_Some (pending s' !! id).
Proof.
  intros [Hm Hr Hs Hf Hb]. unfold insert_pending. destruct (pending s !! id) eqn:Hp; [done|]. intros [= <-]; simpl.
  split; [|by rewrite lookup_insert_eq]. split; simpl; try lia; rewrite ?map_size_insert_None by done; [lia|].
  rewrite Hb, Hf. case_cmp; done || lia.
Qed.

Lemma insert_dup_inv b id identity s s' :
  mid_inv b s -> insert_pending id identity s = (false, s') ->
  server_inv (if b then set_blocking_enabled true s' else s').
Proof.
  intros [Hm Hr Hs Hf Hb]. unfold insert_pending. destruct (pending s !! id) eqn:Hp; [|done]. intros [= <-].
  destruct b; split; simpl; try lia; rewrite ?Hb; case_cmp; done || lia.
Qed.

Lemma mid_scratch b s : mid_inv b s -> mid_inv b (with_scratch s).
Proof. by intros [? ? ? ? ?]. Qed.

Lemma read_loop_inv remaining takes s :
  server_inv s -> server_inv (read_loop commit create_sample c_SequenceNumber_Unknown remaining takes s).2.
Proof.
  revert takes s. induction remaining as [|remaining IH]; intros takes s Hs; [done|]. simpl.
  destruct (reserve_request_slot s) as [[b s1]|] eqn:Hres; [|done].
  pose proof (reserve_inv s b s1 Hs Hres) as Hmid. set (s2 := if b then _ else _) in *. clearbody s2.
  destruct (if request_scratch s2 then _ else _); [|by eapply give_back_inv].
  apply mid_scratch in Hmid. set (s3 := with_scratch s2) in *. clearbody s3.
  destruct takes as [|[|code|info data] takes]; try by eapply give_back_inv.
  destruct (valid_data info); simpl; [|by eapply IH, give_back_inv].
  destruct (to_request_id _ _) as [id0|]; [|by eapply give_back_inv].
  destruct (request_identity info id0) as [id identity].
  destruct (insert_pending id identity s3) as [[] s4] eqn:Hins; simpl.
  - destruct (insert_new_inv _ _ _ _ _ Hmid Hins) as [H4 Hin].
    destruct (commit data); [done|]. by apply released_inv.
  - by eapply IH, insert_dup_inv.
Qed.

Lemma write_claimed_inv id identity env s :
  server_inv s -> is_Some (pending s !! id) -> server_inv (write_claimed_response id identity env s).2.
Proof.
  intros Hs Hp. unfold write_claimed_response.
  assert (server_inv (write_claimed_body id identity env s).2) as Hbody.
  { unfold write_claimed_body, restore_pending.
    repeat case_match; simpl; try done; by apply released_inv || apply set_phase_inv. }
  destruct (write_claimed_body id identity env s) as [r s']. by apply set_phase_inv.
Qed.

Lemma server_exec_inv o s : server_inv s -> server_inv (server_exec o s).
Proof.
  intros Hs. destruct o as [null op unread takes | op id | op id | id identity env | id op env]; simpl.
  - unfold read_request. destruct null, op; simpl; try done. by apply read_loop_inv.
  - unfold discard_request, discard_locked. destruct op; simpl; [|done].
    destruct (pending s !! id) as [p|] eqn:Hp; [|done]. case_decide; [done|].
    by apply (released_inv id s).
  - unfold claim_response, claim_locked. repeat case_match; try done. by apply set_phase_inv.
  - unfold claimed. destruct (pending s !! id) eqn:Hp; [|done].
    case_bool_decide; [|done]. by apply write_claimed_inv.
  - unfold write_response, claim_response, claim_locked.
    destruct (response_null env), op; simpl; try done.
    destruct (pending s !! id) eqn:Hp; simpl; [|done]. case_decide; simpl; [done|].
    apply write_claimed_inv; [by apply set_phase_inv | by apply set_phase_lookup].
Qed.

(** when the operations of a server run one after the other, whatever
    the middleware answers, the server never holds more requests than its
    capacity, leaks no reservation, and its request reader is enabled in the
    wait set exactly while a slot is free. *)
Theorem blocking_tracks_capacity ops :
  let s := run server_exec ops (new_server max) in
  Z.of_nat (size (pending s)) <= max /\ reservations s = 0 /\
  (blocking_enabled s = true <-> Z.of_nat (size (pending s)) < max).
Proof.
  intros s. assert (server_inv s) as [H1 H2 H3 H4].
  { apply run_invariant; [apply server_exec_inv|].
    split; simpl; rewrite ?map_size_empty; try lia. symmetry. apply Z.ltb_lt. lia. }
  rewrite H1 in *. split_and!; [done..|]. rewrite H4. apply Z.ltb_lt.
Qed.
End Sequential.

(** ** The outcome of a response *)

Section Outcome.
Context `{!Handles}.

Lemma set_phase_twice ph1 ph2 id s : set_phase ph1 id (set_phase ph2 id s) = set_phase ph1 id s.
Proof.
  unfold set_phase. destruct (pending s !! id) as [p|] eqn:Hp; [|by rewrite Hp].
  simpl. rewrite lookup_insert_eq. simpl. unfold with_pending; simpl. by rewrite insert_insert_eq.
Qed.

Lemma set_phase_same ph id s p : pending s !! id = Some p -> phase p = ph -> set_phase ph id s = s.
Proof.
  intros Hp <-. unfold set_phase. rewrite Hp. destruct p, s; unfold with_pending; simpl in *.
  by rewrite insert_id.
Qed.

Lemma restore_released id s :
  restore_pending id (enable_if (release_pending_request id s)) = enable_if (release_pending_request id s).
Proof.
  unfold restore_pending, set_phase, enable_if, release_pending_request.
  by destruct (occupied s =? max_pending_requests s); simpl; rewrite lookup_delete_eq.
Qed.

Lemma released_pending id s : pending (enable_if (release_pending_request id s)) = delete id (pending s).
Proof. unfold enable_if, release_pending_request. by destruct (occupied s =? max_pending_requests s). Qed.

(** The response was written, or its reader had gone. *)
Definition answered (identity : SampleIdentity) (env : ResponseEnv) : Prop :=
  written env = true \/
  is_reader_guid (writer_guid identity) = true /\
  T_Removed ∈ [first_target env; rechecked_target env; second_target env].

Lemma write_claimed_body_outcome id identity env s :
  let '(r, s') := write_claimed_body id identity env s in
  match r with
  | success _ => s' = enable_if (release_pending_request id s) /\ answered identity env
  | failure _ => s' = s \/ s' = restore_pending id s
  end.
Proof.
  unfold write_claimed_body, answered.
  destruct (response_null env), (operation env); simpl; auto. destruct (deadline env); simpl; auto.
  destruct (is_reader_guid (writer_guid identity)).
  - destruct (first_target env); simpl; auto; [|split; [done|]; right; split; [done | set_solver]].
    destruct (is_shutdown env); simpl; auto. case_decide.
    + destruct (second_target env); simpl; auto; [|split; [done|]; right; split; [done | set_solver]].
      destruct (written env); simpl; auto.
    + destruct (rechecked_target env); simpl; auto; [|split; [done|]; right; split; [done | set_solver]].
      destruct (written env); simpl; auto.
  - destruct (is_shutdown env), (written env); simpl; auto.
Qed.

(** an attempt to answer is all or nothing: when it succeeds the request
    was pending, is gone, and the response was written or its reader had been
    removed; when it fails the server is unchanged, so that the request, if it
    is there, can be answered again. *)
Theorem write_response_outcome id op env s :
  let '(r, s') := write_response id op env s in
  match r with
  | success _ =>
      exists p, pending s !! id = Some p /\ phase p = Pending /\
        pending s' = delete id (pending s) /\ answered (sample_identity p) env
  | failure e =>
      s' = s /\
      (response_null env = false -> op = true ->
       match pending s !! id with
       | None => error_code e = NotFound
       | Some p => phase p = Responding -> error_code e = Busy
       end)
  end.
Proof.
  unfold write_response, claim_response, claim_locked.
  destruct (response_null env) eqn:Hnull; [by split_and!|]. destruct op; simpl; [|by split_and!].
  destruct (pending s !! id) as [p|] eqn:Hp; simpl; [|by split_and!].
  destruct (decide (phase p = Responding)) as [Hph|Hph]; simpl; [by split_and!|].
  assert (phase p = Pending) as HP by by destruct (phase p). unfold write_claimed_response.
  assert (restore_pending id (set_phase Responding id s) = s) as Hback.
  { unfold restore_pending. rewrite set_phase_twice. by eapply set_phase_same. }
  pose proof (write_claimed_body_outcome id (sample_identity p) env (set_phase Responding id s)) as Hout.
  destruct (write_claimed_body _ _ _ _) as [[[]|e] s'].
  - destruct Hout as [-> Ha]. exists p. split_and!; try done.
    rewrite restore_released, released_pending. unfold set_phase. rewrite Hp. simpl. by rewrite delete_insert_eq.
  - split; [|done].
    destruct Hout as [->| ->]; [done|]. unfold restore_pending in *. by rewrite set_phase_twice.
Qed.
End Outcome.

(** ** Interleaved operations

    Each step is one critical section, or one call between two of them.  One
    thread at a time reads ([request_read_mutex_]); any number discard, claim
    and answer.  [enablers] counts the discarding threads that left the lock
    with [was_full] and have not yet enabled the reader.  [seen] records the
    ids inserted so far: DDS delivers a sample once, so an id never comes
    back. *)

Inductive ReaderPc :=
  | R_idle
  | R_reserved (became_full : bool)    (** slot reserved, flag not yet cleared *)
  | R_holding (became_full : bool)
  | R_committing (id : RequestId)      (** inserted, copying to the caller *)
  | R_enabling.

Inductive WriterPc :=
  | W_writing                          (** holds the claim *)
  | W_enabling                         (** erased a request of a full server *)
  | W_restoring.                       (** about to run [~RestorePending] *)

Record Interleaving := MkInterleaving {
  server : ServerState;
  reader_pc : ReaderPc;
  writers : list (RequestId * WriterPc);
  enablers : nat;
  seen : gset RequestId }.

(** [fails]: whether a response attempt may fail. *)
Inductive server_step (fails : bool) : Interleaving -> Interleaving -> Prop :=
  | reader_reserves s ws n q b s' :
      reserve_request_slot s = Some (b, s') ->
      server_step fails (MkInterleaving s R_idle ws n q) (MkInterleaving s' (R_reserved b) ws n q)
  | reader_disables s b ws n q :
      server_step fails (MkInterleaving s (R_reserved b) ws n q)
        (MkInterleaving (if b then set_blocking_enabled false s else s) (R_holding b) ws n q)
  | reader_gives_back s b ws n q full s' :
      release_request_reservation s = (full, s') ->
      server_step fails (MkInterleaving s (R_holding b) ws n q)
        (MkInterleaving s' (if full then R_enabling else R_idle) ws n q)
  | reader_inserts s b ws n q id identity s' :
      id ∉ q -> insert_pending id identity s = (true, s') ->
      server_step fails (MkInterleaving s (R_holding b) ws n q)
        (MkInterleaving s' (R_committing id) ws n ({[id]} ∪ q))
  | reader_duplicate s b ws n q id identity s' :
      insert_pending id identity s = (false, s') ->
      server_step fails (MkInterleaving s (R_holding b) ws n q)
        (MkInterleaving s' (if b then R_enabling else R_idle) ws n q)
  | reader_commits s id ws n q :
      server_step fails (MkInterleaving s (R_committing id) ws n q) (MkInterleaving s R_idle ws n q)
  | reader_commit_fails s id ws n q full s' :
      release_pending_request id s = (full, s') ->
      server_step fails (MkInterleaving s (R_committing id) ws n q)
        (MkInterleaving s' (if full then R_enabling else R_idle) ws n q)
  | reader_enables s ws n q :
      server_step fails (MkInterleaving s R_enabling ws n q)
        (MkInterleaving (set_blocking_enabled true s) R_idle ws n q)
  | discards s r ws n q id full s' :
      discard_locked id s = (success full, s') ->
      server_step fails (MkInterleaving s r ws n q)
        (MkInterleaving s' r ws (if full then S n else n) q)
  | discard_enables s r ws n q :
      server_step fails (MkInterleaving s r ws (S n) q)
        (MkInterleaving (set_blocking_enabled true s) r ws n q)
  | claims s r ws n q id identity s' :
      claim_locked id s = (success identity, s') ->
      server_step fails (MkInterleaving s r ws n q) (MkInterleaving s' r ((id, W_writing) :: ws) n q)
  | answers s r ws1 ws2 n q id full s' :
      release_pending_request id s = (full, s') ->
      server_step fails (MkInterleaving s r (ws1 ++ (id, W_writing) :: ws2) n q)
        (MkInterleaving s' r (ws1 ++ (id, if full then W_enabling else W_restoring) :: ws2) n q)
  | answer_enables s r ws1 ws2 n q id :
      server_step fails (MkInterleaving s r (ws1 ++ (id, W_enabling) :: ws2) n q)
        (MkInterleaving (set_blocking_enabled true s) r (ws1 ++ (id, W_restoring) :: ws2) n q)
  | answer_fails s r ws1 ws2 n q id :
      fails = true ->
      server_step fails (MkInterleaving s r (ws1 ++ (id, W_writing) :: ws2) n q)
        (MkInterleaving (restore_pending id s) r (ws1 ++ (id, W_restoring) :: ws2) n q)
  | answer_refused s r ws1 ws2 n q id :
      (** rejected before the target is looked at *)
      fails = true ->
      server_step fails (MkInterleaving s r (ws1 ++ (id, W_writing) :: ws2) n q)
        (MkInterleaving s r (ws1 ++ (id, W_restoring) :: ws2) n q)
  | restores s r ws1 ws2 n q id :
      server_step fails (MkInterleaving s r (ws1 ++ (id, W_restoring) :: ws2) n q)
        (MkInterleaving (restore_pending id s) r (ws1 ++ ws2) n q).

Definition started (max : Z) (x : Interleaving) : Prop :=
  x = MkInterleaving (new_server max) R_idle [] 0 ∅.

(** The ids somebody is writing a response for. *)
Definition writing (x : Interleaving) : list RequestId :=
  omap (fun w => match w with (id, W_writing) => Some id | _ => None end) (writers x).

(** Slots held by the reader. *)
Definition held (r : ReaderPc) : Z :=
  match r with R_reserved _ | R_holding _ => 1 | _ => 0 end.

Definition capacity_inv (max : Z) (x : Interleaving) : Prop :=
  max_pending_requests (server x) = max /\ reservations (server x) = held (reader_pc x) /\
  occupied (server x) <= max.

Lemma size_delete_le (m : gmap RequestId PendingRequest) id : (size (delete id m) <= size m)%nat.
Proof. rewrite map_size_delete. destruct (m !! id); simpl; lia. Qed.

Lemma restore_size id s : size (pending (restore_pending id s)) = size (pending s).
Proof.
  unfold restore_pending, set_phase. destruct (pending s !! id) eqn:Hp; [|done]. simpl.
  by rewrite map_size_insert_Some.
Qed.

Lemma set_phase_fields ph id s :
  max_pending_requests (set_phase ph id s) = max_pending_requests s /\
  reservations (set_phase ph id s) = reservations s /\
  size (pending (set_phase ph id s)) = size (pending s).
Proof.
  unfold set_phase. destruct (pending s !! id) eqn:Hp; [|done]. simpl. by rewrite map_size_insert_Some.
Qed.

Lemma capacity_step fails max x x' :
  capacity_inv max x -> server_step fails x x' -> capacity_inv max x'.
Proof.
  intros (Hm & Hr & Ho). destruct 1; unfold capacity_inv, occupied in *; simpl in *.
  - unfold reserve_request_slot, occupied in H. case_cmp; simplify_eq/=; split_and!; lia.
  - destruct b; simpl; by split_and!.
  - unfold release_request_reservation in H. injection H as <- <-. simpl in *.
    destruct (_ =? _); simpl; split_and!; lia.
  - unfold insert_pending in H0. destruct (pending s !! id) eqn:Hp; simplify_eq/=.
    rewrite map_size_insert_None by done. split_and!; lia.
  - unfold insert_pending in H. destruct (pending s !! id) eqn:Hp; simplify_eq/=.
    destruct b; simpl; split_and!; lia.
  - done.
  - unfold release_pending_request in H. injection H as <- <-. simpl.
    pose proof (size_delete_le (pending s) id). destruct (_ =? _); simpl; split_and!; lia.
  - by split_and!.
  - unfold discard_locked in H. destruct (pending s !! id) as [p|]; [|done]. case_decide; [done|].
    simplify_eq/=. pose proof (size_delete_le (pending s) id). split_and!; lia.
  - by split_and!.
  - unfold claim_locked in H. destruct (pending s !! id) as [p|]; [|done]. case_decide; [done|].
    injection H as <- <-. destruct (set_phase_fields Responding id s) as (-> & -> & ->). by split_and!.
  - unfold release_pending_request in H. injection H as <- <-. simpl.
    pose proof (size_delete_le (pending s) id). split_and!; lia.
  - by split_and!.
  - unfold restore_pending. destruct (set_phase_fields Pending id s) as (-> & -> & ->). by split_and!.
  - by split_and!.
  - unfold restore_pending. destruct (set_phase_fields Pending id s) as (-> & -> & ->). by split_and!.
Qed.

(** C36: in every interleaving of readers, discards and answers, the pending
    requests and the reservations together never exceed the capacity, and a
    reservation is held exactly while a read is between its reservation and
    its insertion or return. *)
Theorem capacity_never_exceeded fails max x :
  0 <= max -> reachable (started max) (server_step fails) x ->
  Z.of_nat (size (pending (server x))) + reservations (server x) <= max /\
  reservations (server x) = held (reader_pc x).
Proof.
  intros Hmax Hx. assert (capacity_inv max x) as (_ & Hr & Ho).
  { revert x Hx. apply reachable_invariant; [|intros ??; apply capacity_step].
    intros x ->. unfold capacity_inv, occupied; simpl. by rewrite map_size_empty. }
  by split.
Qed.

Definition sample_reserved : Interleaving :=
  MkInterleaving (MkServer 1 ∅ 1 true false) (R_reserved true) [] 0 ∅.

Lemma capacity_never_exceeded_witness :
  Z.of_nat (size (pending (server sample_reserved))) + reservations (server sample_reserved) <= 1 /\
  reservations (server sample_reserved) = held (reader_pc sample_reserved).
Proof.
  apply (capacity_never_exceeded true 1); [lia|].
  eapply reach_step; [apply reach_init; reflexivity|].
  apply (reader_reserves true (new_server 1) [] 0 ∅ true). vm_compute. reflexivity.
Defined.

(** What holds of a responding thread while no attempt has failed. *)
Definition writer_ok (s : ServerState) (q : gset RequestId) (w : RequestId * WriterPc) : Prop :=
  w.1 ∈ q /\
  match w.2 with
  | W_writing => forall p, pending s !! w.1 = Some p -> phase p = Responding
  | _ => pending s !! w.1 = None
  end.

Definition exclusive_inv (x : Interleaving) : Prop :=
  NoDup (writers x).*1 /\ Forall (writer_ok (server x) (seen x)) (writers x) /\
  forall id, is_Some (pending (server x) !! id) -> id ∈ seen x.

Lemma writer_ok_mono s s' q q' w :
  q ⊆ q' -> pending s' !! w.1 = pending s !! w.1 \/ pending s' !! w.1 = None ->
  writer_ok s q w -> writer_ok s' q' w.
Proof.
  intros Hq Hs [Hin Hw]. split; [set_solver|].
  destruct Hs as [->|Hn]; [done|]. destruct w.2; by rewrite Hn.
Qed.

Lemma writers_ok_mono s s' q q' ws :
  q ⊆ q' -> (forall id, id ∈ q -> pending s' !! id = pending s !! id \/ pending s' !! id = None) ->
  Forall (writer_ok s q) ws -> Forall (writer_ok s' q') ws.
Proof.
  intros Hq Hs Hf. eapply Forall_impl; [exact Hf|]. intros w Hw.
  eapply writer_ok_mono; [done | apply Hs, Hw | done].
Qed.

Lemma lookup_delete_or (m : gmap RequestId PendingRequest) i j : delete i m !! j = m !! j \/ delete i m !! j = None.
Proof. destruct (decide (i = j)) as [<-|]; [right; by rewrite lookup_delete_eq | left; by rewrite lookup_delete_ne]. Qed.

(** A shared state whose pending requests are the same, or some of them. *)
Lemma exclusive_shrink s s' r r' ws n n' q :
  (forall id, pending s' !! id = pending s !! id \/ pending s' !! id = None) ->
  exclusive_inv (MkInterleaving s r ws n q) -> exclusive_inv (MkInterleaving s' r' ws n' q).
Proof.
  intros Hs (Hnd & Hw & Hp). split_and!; simpl in *; [done | by eapply writers_ok_mono |].
  intros id [p Hid]. apply Hp. destruct (Hs id) as [<-|Hn]; [by exists p | congruence].
Qed.

Lemma release_lookup id s full s' j :
  release_pending_request id s = (full, s') -> pending s' !! j = pending s !! j \/ pending s' !! j = None.
Proof. intros [= <- <-]. apply lookup_delete_or. Qed.

(** Replace, or drop, one responding thread. *)
Lemma exclusive_replace s s' r ws1 ws2 n q w pc :
  (forall id, pending s' !! id = pending s !! id \/ pending s' !! id = None) ->
  writer_ok s' q (w.1, pc) ->
  exclusive_inv (MkInterleaving s r (ws1 ++ w :: ws2) n q) ->
  exclusive_inv (MkInterleaving s' r (ws1 ++ (w.1, pc) :: ws2) n q).
Proof.
  intros Hs Hok Hi. apply (exclusive_shrink s s' r r _ n n) in Hi as (Hnd & Hw & Hp); [|done].
  split_and!; simpl in *; [by rewrite !fmap_app, !fmap_cons in * | | done].
  apply Forall_app in Hw as [? [_ ?]%Forall_cons]. apply Forall_app; split; [done|]. by constructor.
Qed.

Lemma claim_lookup id s identity s' :
  claim_locked id s = (success identity, s') ->
  exists p, pending s !! id = Some p /\ phase p = Pending /\
    pending s' = <[id := MkPending (sample_identity p) Responding]> (pending s).
Proof.
  unfold claim_locked, set_phase. destruct (pending s !! id) as [p|]; [|done]. case_decide; [done|].
  intros [= <- <-]. exists p. by destruct (phase p).
Qed.

Lemma exclusive_step x x' : exclusive_inv x -> server_step false x x' -> exclusive_inv x'.
Proof.
  intros Hi. destruct 1; try done.
  - apply (exclusive_shrink s s' R_idle _ ws n); [|done]. unfold reserve_request_slot in H.
    destruct (_ <=? _); by simplify_eq/=; auto.
  - apply (exclusive_shrink s _ (R_reserved b) _ ws n); [|done]. intros ?; destruct b; by left.
  - apply (exclusive_shrink s s' (R_holding b) _ ws n); [|done]. injection H as <- <-. intros ?; by left.
  - destruct Hi as (Hnd & Hw & Hp). simpl in *. unfold insert_pending in H0.
    destruct (pending s !! id); simplify_eq/=. split_and!; simpl; [done | |].
    + eapply writers_ok_mono; [| |exact Hw]; [set_solver|]. intros j Hj. left; simpl.
      rewrite lookup_insert_ne; [done | set_solver].
    + intros j [p Hj]. apply lookup_insert_Some in Hj as [[<- _]|[_ Hj]]; [set_solver|].
      assert (j ∈ q) by by apply Hp. set_solver.
  - apply (exclusive_shrink s s' (R_holding b) _ ws n); [|done]. unfold insert_pending in H.
    destruct (pending s !! id); simplify_eq/=; auto.
  - apply (exclusive_shrink s s' (R_committing id) _ ws n); [|done]. intros j. by eapply release_lookup.
  - apply (exclusive_shrink s s' r _ ws n); [|done]. unfold discard_locked in H.
    destruct (pending s !! id); [|done]. case_decide; simplify_eq/=. intros j. apply lookup_delete_or.
  - apply claim_lookup in H as (p & Hp & Hph & Heq). destruct Hi as (Hnd & Hw & Hd); simpl in *.
    rewrite Forall_forall in Hw.
    assert (id ∉ ws.*1) as Hnin.
    { intros (w & -> & Hin)%list_elem_of_fmap. specialize (Hw w Hin) as [_ Hc].
      destruct w.2; [|congruence..]. apply Hc in Hp. congruence. }
    split_and!; simpl; [by constructor | |].
    + constructor; [split; [by apply Hd|]|].
      * simpl. intros p'. rewrite Heq, lookup_insert_eq. by intros [= <-].
      * apply Forall_forall. intros w Hin. eapply writer_ok_mono; [done | | by apply Hw].
        left. rewrite Heq. apply lookup_insert_ne. intros ->. by apply Hnin, list_elem_of_fmap_2.
    + intros j [p' Hj]. rewrite Heq in Hj. apply lookup_insert_Some in Hj as [[<- _]|[_ Hj]]; by apply Hd.
  - apply (exclusive_replace s s' r ws1 ws2 n q (id, W_writing)); [intros j; by eapply release_lookup | | done].
    destruct Hi as (_ & Hw & _). apply Forall_app in Hw as [_ [[Hq _] _]%Forall_cons]. injection H as <- <-.
    split; [done|]. simpl in *. by destruct (_ =? _); apply lookup_delete_eq.
  - apply (exclusive_replace s _ r ws1 ws2 n q (id, W_enabling)); [intros ?; by left | | done].
    by destruct Hi as (_ & Hw & _); apply Forall_app in Hw as [_ [? _]%Forall_cons].
  - destruct Hi as (Hnd & Hw & Hp). simpl in *.
    apply Forall_app in Hw as [? [[_ Hn] ?]%Forall_cons]. simpl in Hn.
    unfold restore_pending, set_phase. rewrite Hn. split_and!; simpl; [| by apply Forall_app | done].
    rewrite fmap_app, fmap_cons in Hnd. rewrite fmap_app.
    apply NoDup_app in Hnd as (? & Hx & [_ ?]%NoDup_cons). apply NoDup_app. split_and!; try done.
    intros j Hj Hj2. apply (Hx j Hj). by right.
Qed.

(** C6: as long as no response attempt fails, at most one thread answers a
    request, whatever the interleaving, and a request being answered can be
    neither claimed again nor discarded. *)
Theorem claim_exclusive max x :
  reachable (started max) (server_step false) x ->
  NoDup (writers x).*1 /\
  forall id, id ∈ writing x ->
    has_value (claim_locked id (server x)).1 = false /\ has_value (discard_locked id (server x)).1 = false.
Proof.
  intros Hx. assert (exclusive_inv x) as (Hnd & Hw & _).
  { revert x Hx. apply reachable_invariant; [|apply exclusive_step].
    intros x ->. split_and!; [constructor | constructor | by intros ? [? ?]]. }
  split; [done|]. intros id Hid. apply list_elem_of_omap in Hid as ([id' pc] & Hin & Hpc).
  rewrite Forall_forall in Hw. specialize (Hw _ Hin) as [_ Hok]. destruct pc; simplify_eq/=.
  unfold claim_locked, discard_locked. destruct (pending (server x) !! id) as [p|]; [|done].
  rewrite (Hok p) by done. by rewrite !(decide_True (P := Responding = Responding)).
Qed.

Definition request_a : RequestId := MkRequestId (MkGid (replicate 16 1)) 1.
Definition request_b : RequestId := MkRequestId (MkGid (replicate 16 1)) 2.
Definition identity_a : SampleIdentity := MkSampleIdentity guid_a (MkSequence 0 1).

(** A server of the given capacity with [request_a] pending. *)
Definition one_pending (max : Z) (ph : PendingPhase) (ws : list (RequestId * WriterPc)) : Interleaving :=
  MkInterleaving (MkServer max {[request_a := MkPending identity_a ph]} 0 true false) R_idle ws 0 ({[request_a]} ∪ ∅).

Lemma one_pending_reachable fails : reachable (started 2) (server_step fails) (one_pending 2 Pending []).
Proof.
  assert (reachable (started 2) (server_step fails) (MkInterleaving (new_server 2) R_idle [] 0 ∅)) as H
    by by apply reach_init.
  extend H with (eapply (reader_reserves fails); vm_compute; reflexivity). extend H with (apply (reader_disables fails)). simpl in H.
  extend H with (eapply (reader_inserts fails _ false _ _ _ request_a identity_a);
    [apply not_elem_of_empty | vm_compute; reflexivity]).
  extend H with (apply (reader_commits fails)). exact H.
Qed.

Lemma claim_exclusive_witness :
  NoDup (writers (one_pending 2 Responding [(request_a, W_writing)])).*1.
Proof.
  apply (claim_exclusive 2). eapply reach_step; [apply one_pending_reachable|].
  eapply (claims false _ _ _ _ _ request_a identity_a); vm_compute; reflexivity.
Defined.

(** A failed attempt resets the phase before its [RestorePending] guard does
    so again: in between another thread can claim the request, the guard then
    releases that claim, and a third thread claims it too. *)
Example failed_attempt_breaks_exclusivity :
  exists x, reachable (started 2) (server_step true) x /\ writing x = [request_a; request_a].
Proof.
  pose proof (one_pending_reachable true) as H.
  extend H with (eapply (claims true _ _ _ _ _ request_a identity_a); vm_compute; reflexivity).
  extend H with (apply (answer_fails true _ _ [] [] _ _ request_a); reflexivity).
  extend H with (eapply (claims true _ _ _ _ _ request_a identity_a); vm_compute; reflexivity).
  extend H with (apply (restores true _ _ [(request_a, W_writing)] [] _ _ request_a)).
  extend H with (eapply (claims true _ _ _ _ _ request_a identity_a); vm_compute; reflexivity).
  eexists. split; [exact H | reflexivity].
Qed.

(** A discard between a read's reservation of the last slot and its clearing
    of the flag re-enables the reader too early: at the end every thread is
    idle, a slot is free, and the reader stays disabled. *)
Example discard_race_disables_reader :
  exists x, reachable (started 2) (server_step false) x /\
    reader_pc x = R_idle /\ writers x = [] /\ enablers x = 0%nat /\
    pending (server x) = ∅ /\ reservations (server x) = 0 /\ blocking_enabled (server x) = false.
Proof.
  pose proof (one_pending_reachable false) as H.
  extend H with (eapply (reader_reserves false); vm_compute; reflexivity). extend H with (eapply (discards false _ _ _ _ _ request_a true); vm_compute; reflexivity).
  extend H with (apply (discard_enables false)). extend H with (apply (reader_disables false)).
  extend H with (eapply (reader_inserts false _ true _ _ _ request_b identity_a);
    [by apply (bool_decide_unpack _) | vm_compute; reflexivity]).
  extend H with (apply (reader_commits false _ request_b)). extend H with (eapply (discards false _ _ _ _ _ request_b false); vm_compute; reflexivity).
  eexists. split; [exact H | vm_compute; by split_and!].
Qed.

(** One request is read, the queue is full, then it is answered. *)
Definition sample_ops : list (ServerOp (Payload := unit)) :=
  [S_read false true 1 [Taken (MkSampleInfo true identity_a identity_a) tt];
   S_write (MkRequestId (to_gid guid_a) 1) true
     (MkResponseEnv false true (success 0) T_TimedOut false T_TimedOut T_TimedOut true)].

Lemma blocking_tracks_capacity_witness :
  blocking_enabled (run (server_exec (fun _ => success tt) (success tt) (MkSequence (-1) 0)) sample_ops (new_server 1)) = true.
Proof.
  apply (blocking_tracks_capacity (fun _ => success tt) (success tt) (MkSequence (-1) 0) 1 ltac:(lia) sample_ops).
  vm_compute. reflexivity.
Defined.

(** What a read returns, and what it leaves pending. *)
Lemma read_loop_spec `{!Handles} {Payload} (commit : Payload -> Result unit) create_sample unknown remaining takes s :
  let '(r, s') := read_loop commit create_sample unknown remaining takes s in
  match r with
  | success (Some (id, data)) =>
      exists info id0 identity, Taken info data ∈ takes /\ valid_data info = true /\
        to_request_id unknown (info_identity info) = Some id0 /\
        request_identity info id0 = (id, identity) /\
        pending s !! id = None /\ pending s' = <[id := MkPending identity Pending]> (pending s) /\
        commit data = success tt
  | _ => pending s' = pending s
  end.
Proof.
  revert takes s. induction remaining as [|remaining IH]; intros takes s; [done|]. simpl.
  assert (forall r : bool * ServerState, pending (enable_if r) = pending r.2) as Hen by by intros [[] ?].
  destruct (reserve_request_slot s) as [[b s1]|] eqn:Hres; [|done].
  assert (pending (if b then set_blocking_enabled false s1 else s1) = pending s) as Hs2.
  { unfold reserve_request_slot in Hres. destruct (_ <=? _); simplify_eq/=. by case_match. }
  set (s2 := if b then _ else _) in *. clearbody s2.
  destruct (if request_scratch s2 then _ else _); [|by rewrite Hen].
  destruct takes as [|[|code|info data] takes]; [by rewrite Hen.. |].
  assert (forall s3, pending s3 = pending s ->
    let '(r, s') := read_loop commit create_sample unknown remaining takes s3 in
    match r with
    | success (Some (id, d)) =>
        exists info0 id0 identity, Taken info0 d ∈ Taken info data :: takes /\ valid_data info0 = true /\
          to_request_id unknown (info_identity info0) = Some id0 /\
          request_identity info0 id0 = (id, identity) /\
          pending s !! id = None /\ pending s' = <[id := MkPending identity Pending]> (pending s) /\
          commit d = success tt
    | _ => pending s' = pending s
    end) as Hrec.
  { intros s3 H3. specialize (IH takes s3). destruct (read_loop _ _ _ _ _ _) as [[[[id d]|]|e] s']; rewrite H3 in IH; try done.
    destruct IH as (i & id0 & iden & Hin & Hrest). exists i, id0, iden. split; [by right | done]. }
  destruct (valid_data info) eqn:Hv; simpl; [|by apply Hrec; rewrite Hen].
  destruct (to_request_id _ _) as [id0|] eqn:Hid; [|by rewrite Hen].
  destruct (request_identity info id0) as [id identity] eqn:Hreq.
  unfold insert_pending; simpl. destruct (pending s2 !! id) eqn:Hp; simpl.
  - apply Hrec. by destruct b.
  - destruct (commit data) as [[]|e] eqn:Hc; simpl.
    + exists info, id0, identity. rewrite Hs2 in *. split_and!; try done. left.
    + rewrite released_pending. simpl. rewrite Hs2 in *. by rewrite delete_insert_id.
Qed.
