(* ===== verification/Clients.v ===== *)
(** * Clients: requests, responses and waiting for a service

    Models src/impl/client_impl.cpp: writing a request, reading the responses
    addressed to this client, the availability check and the wait for a
    service, and proves that client and server agree on the identity of a
    request.  Waiting is a sequence of rounds, each with what the loop
    observes in it. *)

From S2P Require Import Prelude Strings Identity Deadline Names Qos Discovery Services Servers.
Local Open Scope Z_scope.

Section Client.
Context `{!Handles}.
Variable c_SequenceNumber_Unknown : SequenceNumber.
(** The GUIDs of the client's endpoints. *)
Variables request_writer_guid response_reader_guid : GUID_t.

(** [write] is the outcome of [DataWriter::write]: the identity Fast DDS gives
    the sample.  The second component is the [related_sample_identity] writer
    the sample carries, when one is written. *)
Definition write_request (request_null operation : bool) (write : option SampleIdentity)
    : Result RequestId * option GUID_t :=
  if request_null then (fail InvalidArgument "Request must not be null", None)
  else if negb operation then (fail ContextShutdown "Context is shut down", None)
  else match write with
  | None => (fail DDSError "Fast DDS request write failed", None)
  | Some sample_identity =>
      match to_request_id c_SequenceNumber_Unknown sample_identity with
      | None => (fail DDSError "Fast DDS request write returned an unknown sequence", Some response_reader_guid)
      | Some request_id =>
          (success (MkRequestId (to_gid response_reader_guid) (sequence_number request_id)),
           Some response_reader_guid)
      end
  end.

Section Reading.
Context {Payload : Type} (commit : Payload -> Result unit) (create_sample : Result unit).

(** The loop of [read_response]; [scratch] is whether the sample exists. *)
Fixpoint response_loop (remaining : nat) (takes : list (TakeResult (Payload := Payload))) (scratch : bool)
    : Result (option (RequestId * Payload)) * bool :=
  match remaining with
  | O => (success None, scratch)
  | S remaining =>
      match (if scratch then success tt else create_sample) with
      | failure e => (failure e, scratch)
      | success _ =>
          match takes with
          | [] | NoData :: _ => (success None, true)
          | TakeError code :: _ => (failure (to_error code "Fast DDS response take failed"), true)
          | Taken info data :: takes =>
              if negb (valid_data info) then response_loop remaining takes true
              else
                let related_guid := writer_guid (related_sample_identity info) in
                if negb (bool_decide (related_guid = request_writer_guid)) &&
                   negb (bool_decide (related_guid = response_reader_guid))
                then response_loop remaining takes true
                else match to_request_id c_SequenceNumber_Unknown (related_sample_identity info) with
                | None => response_loop remaining takes true
                | Some response_id =>
                    match commit data with
                    | failure e => (failure e, true)
                    | success _ => (success (Some (response_id, data)), true)
                    end
                end
          end
      end
  end.

Definition read_response (response_null operation : bool) (unread : nat)
    (takes : list (TakeResult (Payload := Payload))) (scratch : bool)
    : Result (option (RequestId * Payload)) * bool :=
  if response_null then (fail InvalidArgument "Response must not be null", scratch)
  else if negb operation then (fail ContextShutdown "Context is shut down", scratch)
  else response_loop unread takes scratch.
End Reading.

(** ** Availability *)

(** [metadata] tells whether the ROS 2 graph transport exists; [discovery] is
    the graph after [ingest_pending]. *)
Definition service_is_available (operation : bool) (mode : RuntimeMode) (metadata : bool)
    (names : ServiceNames) (discovery : option DiscoveryGraph) (s : RequestState) : Result bool :=
  if negb operation then fail ContextShutdown "Context is shut down"
  else if bool_decide (mode = ROS2) && negb metadata then
    fail DDSError "ROS 2 graph metadata transport is unavailable"
  else if is_degraded discovery s then fail DDSError "Service discovery context is unavailable"
  else success (is_available names discovery s).

(** One round of [wait_for_service]: the wait state and the shutdown flag at
    the first lock, the availability check made without the lock, the same
    at the second lock, the steady clock read there, and the value of the
    predicate when the sleep ends. *)
Record Round := MkRound {
  before : AvailabilityWaitState; before_shutdown : bool;
  available : Result bool;
  after : AvailabilityWaitState; after_shutdown : bool;
  round_now : Z;
  changed : bool }.

(** [None] while the loop still waits. *)
Fixpoint wait_loop (kind : WaitKind) (deadline : Z) (token : AvailabilityWaitToken) (rounds : list Round)
    : option (Result bool) :=
  match rounds with
  | [] => None
  | r :: rounds =>
      if before_shutdown r then Some (fail ContextShutdown "Context is shut down")
      else if interrupted (before r) token then Some (fail Interrupted "Availability wait interrupted")
      else
        let observed_revision := wait_revision (before r) in
        match available r with
        | failure e => Some (failure e)
        | success true => Some (success true)
        | success false =>
            if decide (kind = Poll) then Some (success false)
            else if after_shutdown r then Some (fail ContextShutdown "Context is shut down")
            else if interrupted (after r) token then Some (fail Interrupted "Availability wait interrupted")
            else if negb (wait_revision (after r) =? observed_revision) then wait_loop kind deadline token rounds
            else if decide (kind = Finite) then
              if deadline <=? round_now r then Some (success false)
              else if negb (changed r) then Some (success false)
              else wait_loop kind deadline token rounds
            else wait_loop kind deadline token rounds
        end
  end.

(** [state] is the client's own wait state, [start] the steady clock read. *)
Definition wait_for_service `{!WideCompare} (operation : bool) (state : AvailabilityWaitState)
    (timeout : WaitTimeout) (token : AvailabilityWaitToken) (start : Z) (rounds : list Round)
    : option (Result bool) :=
  if negb operation then Some (fail ContextShutdown "Context is shut down")
  else if negb (owns state token) then
    Some (fail InvalidArgument "Availability token belongs to another endpoint")
  else
    deadline ← steady_deadline timeout start;
    wait_loop (timeout_kind timeout) deadline token rounds.

Definition prepare_availability_wait (operation : bool) (state : AvailabilityWaitState)
    : Result AvailabilityWaitToken :=
  if negb operation then fail ContextShutdown "Context is shut down" else success (prepare state).

Definition interrupt_waits (state : AvailabilityWaitState) : Result unit * AvailabilityWaitState :=
  (success tt, interrupt state).

(** [wait_for_service] without a token prepares its own first; the second
    [operation] is the one the wait itself acquires. *)
Definition wait_for_service_now `{!WideCompare} (operation1 operation2 : bool) (state : AvailabilityWaitState)
    (timeout : WaitTimeout) (start : Z) (rounds : list Round) : option (Result bool) :=
  match prepare_availability_wait operation1 state with
  | failure e => Some (failure e)
  | success token => wait_for_service operation2 state timeout token start rounds
  end.
End Client.

(** ** Client and server agree on a request *)

Section Correlation.
Context `{!Handles}.
Variable unknown : SequenceNumber.

Lemma to_request_id_Some identity id :
  to_request_id unknown identity = Some id ->
  sample_sequence identity <> unknown /\
  id = MkRequestId (to_gid (writer_guid identity)) (from_sequence (sample_sequence identity)).
Proof. unfold to_request_id. case_decide; [done|]. by intros [= <-]. Qed.

Lemma response_loop_first {Payload} (commit : Payload -> Result unit) create writer reader remaining info data takes scratch :
  has_value create = true \/ scratch = true ->
  valid_data info = true -> writer_guid (related_sample_identity info) = reader ->
  sample_sequence (related_sample_identity info) <> unknown -> commit data = success tt ->
  (response_loop unknown writer reader commit create (S remaining) (Taken info data :: takes) scratch).1 =
  success (Some (MkRequestId (to_gid reader) (from_sequence (sample_sequence (related_sample_identity info))), data)).
Proof.
  intros Hcr Hv Hg Hs Hc. cbn [response_loop]. rewrite Hv, Hg. cbn [negb].
  rewrite (bool_decide_eq_true_2 (reader = reader)) by done. rewrite andb_false_r.
  unfold to_request_id. rewrite decide_False by done. rewrite Hc, Hg.
  destruct scratch, create; simpl; try done. by destruct Hcr.
Qed.

(** A sample addressed to another client is skipped. *)
Lemma response_loop_skips {Payload} (commit : Payload -> Result unit) create writer reader remaining info data takes :
  valid_data info = true ->
  writer_guid (related_sample_identity info) <> writer -> writer_guid (related_sample_identity info) <> reader ->
  response_loop unknown writer reader commit create (S remaining) (Taken info data :: takes) true =
  response_loop unknown writer reader commit create remaining takes true.
Proof.
  intros Hv H1 H2. cbn [response_loop]. rewrite Hv. cbn [negb]. by rewrite !bool_decide_eq_false_2.
Qed.

(** C26: a request keeps one identity on its whole way: the id the client gets
    from writing it is the id the server reads it under; the response the
    server writes for that id carries the identity under which the client,
    and no client with other endpoints, accepts it, and is reported with that
    same id. *)
Theorem request_response_correlation {P Q : Type} (commit_request : P -> Result unit)
    (commit_response : Q -> Result unit) writer reader assigned id request response s rinfo :
  reader <> c_Guid_Unknown -> valid_data rinfo = true ->
  (forall q, commit_response q = success tt) ->
  (** the client writes a request *)
  write_request unknown reader false true (Some assigned) = (success id, Some reader) ->
  (** the server reads it *)
  let info := MkSampleInfo true assigned (MkSampleIdentity reader (sample_sequence (related_sample_identity rinfo))) in
  let '(r, s') := read_request commit_request (success tt) unknown false true 1 [Taken info request] s in
  forall id' data, r = success (Some (id', data)) ->
  id' = id /\ data = request /\
  (** and answers under the identity it kept *)
  forall identity s'', claim_response true id' s' = (success identity, s'') ->
    related_sample_identity rinfo = identity ->
    (read_response unknown writer reader commit_response (success tt) false true 1
       [Taken rinfo response] false).1 = success (Some (id, response)) /\
    forall writer2 reader2, writer2 <> reader -> reader2 <> reader ->
      (read_response unknown writer2 reader2 commit_response (success tt) false true 1
         [Taken rinfo response] false).1 = success None.
Proof.
  intros Hr Hv Hc Hw info. unfold write_request in Hw; simpl in Hw.
  destruct (to_request_id unknown assigned) as [rid|] eqn:Hrid; [|done]. injection Hw as <-.
  unfold read_request; cbn [negb].
  pose proof (read_loop_spec commit_request (success tt) unknown 1 [Taken info request] s) as Hspec.
  destruct (read_loop _ _ _ _ _ _) as [r s']. intros id' data ->.
  destruct Hspec as (info' & id0 & identity & Hin & _ & Hid0 & Hreq & _ & Hp & _).
  apply list_elem_of_singleton in Hin as [= -> ->]. simpl in Hid0. rewrite Hrid in Hid0. injection Hid0 as <-.
  unfold request_identity in Hreq; simpl in Hreq. rewrite decide_False in Hreq by done. injection Hreq as <- <-.
  split_and!; [done..|]. intros identity s'' Hcl Hri. unfold claim_response, claim_locked in Hcl; simpl in Hcl.
  rewrite Hp, lookup_insert_eq in Hcl. simpl in Hcl. injection Hcl as <- _.
  apply to_request_id_Some in Hrid as [Hseq ->]. unfold read_response. cbn [negb].
  split.
  - rewrite response_loop_first; rewrite ?Hri; auto.
  - intros w2 r2 H1 H2. cbn [response_loop]. rewrite Hv, Hri. cbn [negb writer_guid].
    by rewrite !bool_decide_eq_false_2.
Qed.
End Correlation.

Definition guid_w : GUID_t := MkGUID (replicate 12 1) (replicate 4 2).
Definition no_sequence : SequenceNumber := MkSequence (-1) 0.
Definition sent : SampleIdentity := MkSampleIdentity guid_w (MkSequence 0 9).
Definition reply : SampleInfo :=
  MkSampleInfo true (MkSampleIdentity guid_w (MkSequence 0 1)) (MkSampleIdentity guid_a (MkSequence 0 9)).

Lemma request_response_correlation_witness :
  (read_response no_sequence guid_w guid_a (fun _ : nat => success tt) (success tt) false true 1
     [Taken reply 5%nat] false).1 = success (Some (MkRequestId (to_gid guid_a) 9, 5%nat)).
Proof.
  refine (proj1 (proj2 (proj2 (request_response_correlation no_sequence (fun _ : nat => success tt)
    (fun _ : nat => success tt) guid_w guid_a sent (MkRequestId (to_gid guid_a) 9) 7%nat 5%nat (new_server 1) reply
    ltac:(by apply (bool_decide_unpack _)) eq_refl (fun _ => eq_refl) eq_refl _ _ eq_refl)) _ _ eq_refl eq_refl)).
Defined.

(** ** Waiting for a service *)

(** A round after which the loop goes round again. *)
Definition round_continues (kind : WaitKind) (deadline : Z) (token : AvailabilityWaitToken) (r : Round) : Prop :=
  before_shutdown r = false /\ interrupted (before r) token = false /\ available r = success false /\
  kind <> Poll /\ after_shutdown r = false /\ interrupted (after r) token = false /\
  (wait_revision (after r) <> wait_revision (before r) \/
   (kind = Finite -> round_now r < deadline /\ changed r = true)).

(** What the last round must have seen for each result. *)
Definition round_decides (kind : WaitKind) (deadline : Z) (token : AvailabilityWaitToken) (r : Round)
    (result : Result bool) : Prop :=
  match result with
  | success true =>
      before_shutdown r = false /\ interrupted (before r) token = false /\ available r = success true
  | success false =>
      before_shutdown r = false /\ interrupted (before r) token = false /\ available r = success false /\
      (kind = Poll \/
       kind = Finite /\ after_shutdown r = false /\ interrupted (after r) token = false /\
       wait_revision (after r) = wait_revision (before r) /\ (deadline <= round_now r \/ changed r = false))
  | failure e =>
      before_shutdown r = true /\ error_code e = ContextShutdown \/
      before_shutdown r = false /\
        (interrupted (before r) token = true /\ error_code e = Interrupted \/
         interrupted (before r) token = false /\
           (available r = failure e \/
            available r = success false /\ kind <> Poll /\
              (after_shutdown r = true /\ error_code e = ContextShutdown \/
               after_shutdown r = false /\ interrupted (after r) token = true /\ error_code e = Interrupted)))
  end.

Lemma wait_loop_head kind deadline token r rounds :
  (round_continues kind deadline token r /\
   wait_loop kind deadline token (r :: rounds) = wait_loop kind deadline token rounds) \/
  exists result, round_decides kind deadline token r result /\
    wait_loop kind deadline token (r :: rounds) = Some result.
Proof.
  unfold round_continues. cbn [wait_loop].
  destruct (before_shutdown r) eqn:Hbs; [right; eexists; split; [|done]; by left|].
  destruct (interrupted (before r) token) eqn:Hbi; [right; eexists; split; [|done]; right; by auto|].
  destruct (available r) as [[]|e] eqn:Hav.
  - right. exists (success true). by split.
  - destruct (decide (kind = Poll)) as [Hk|Hk]; [right; exists (success false); split; [|done]; simpl; tauto|].
    destruct (after_shutdown r) eqn:Has; [right; eexists; split; [|done]; simpl; tauto|].
    destruct (interrupted (after r) token) eqn:Hai; [right; eexists; split; [|done]; simpl; tauto|].
    destruct (Z.eqb_spec (wait_revision (after r)) (wait_revision (before r))) as [Hrev|Hrev]; simpl.
    + destruct (decide (kind = Finite)) as [Hf|Hf].
      * destruct (Z.leb_spec deadline (round_now r)).
        { right. exists (success false). split; [|done]. simpl. tauto. }
        destruct (changed r) eqn:Hch; simpl.
        -- left. split; [|done]. split_and!; try done. by right.
        -- right. exists (success false). split; [|done]. simpl. tauto.
      * left. split; [|done]. split_and!; try done. right. done.
    + left. split; [|done]. split_and!; try done. by left.
  - right. exists (failure e). split; [|done]. simpl. tauto.
Qed.

(** waiting for a service returns what its last round decided, after
    rounds that could not decide: it reports the service only when the
    availability check did, and gives up only at the deadline of a finite
    wait (or when polling), never after a revision that came since the check,
    so no wake-up is lost; an interrupt after the token was prepared ends it.  A
    poll always returns in its first round. *)
Theorem wait_for_service_spec `{!WideCompare} state timeout token start rounds :
  owns state token = true ->
  (forall result, wait_for_service true state timeout token start rounds = Some result ->
     exists deadline earlier r later, steady_deadline timeout start = Some deadline /\
       rounds = earlier ++ r :: later /\
       Forall (round_continues (timeout_kind timeout) deadline token) earlier /\
       round_decides (timeout_kind timeout) deadline token r result) /\
  (timeout_kind timeout = Poll -> rounds <> [] ->
     is_Some (wait_for_service true state timeout token start rounds)) /\
  (forall r, in_u64 (interruption_generation state) -> token = prepare state ->
     before r = interrupt state -> before_shutdown r = false -> head rounds = Some r ->
     code_of <$> wait_for_service true state timeout token start rounds = Some (Some Interrupted)).
Proof.
  intros Hown. unfold wait_for_service. rewrite Hown. cbn [negb].
  destruct (steady_deadline timeout start) as [deadline|] eqn:Hd; simpl.
  2: { unfold steady_deadline, duration in Hd. by destruct (timeout_kind timeout). }
  set (kind := timeout_kind timeout) in *. split_and!.
  - intros result Hres. exists deadline. revert Hres.
    induction rounds as [|r rounds IH]; [done|].
    destruct (wait_loop_head kind deadline token r rounds) as [[Hc ->]|(res & Hdec & ->)].
    + intros Hres. destruct (IH Hres) as (l1 & r' & l2 & _ & -> & Hl & Hr).
      exists (r :: l1), r', l2. split_and!; try done. by constructor.
    + intros [= <-]. by exists [], r, rounds.
  - intros Hk Hne. destruct rounds as [|r rounds]; [done|].
    destruct (wait_loop_head kind deadline token r rounds) as [[(_ & _ & _ & Hp & _) _]|(res & _ & ->)]; done.
  - intros r Hg -> Hb Hs Hh. destruct rounds as [|r' rounds]; [done|]. injection Hh as ->. cbn [wait_loop].
    rewrite Hs, Hb. assert (interrupted (interrupt state) (prepare state) = true) as ->; [|done].
    unfold interrupted, interrupt, prepare; simpl. apply negb_true_iff, Z.eqb_neq.
    unfold_ints. destruct (Z.eq_dec (interruption_generation state) 18446744073709551615) as [->|];
      [by vm_compute | rewrite Z.mod_small; lia].
Qed.

Definition idle_state : AvailabilityWaitState := MkAvailability 3 7 0.

Lemma wait_for_service_spec_witness :
  code_of <$> wait_for_service true idle_state infinite (prepare idle_state) 0
    [MkRound (interrupt idle_state) false (success false) idle_state false 0 true] = Some (Some Interrupted).
Proof.
  apply (wait_for_service_spec idle_state infinite (prepare idle_state) 0
    [MkRound (interrupt idle_state) false (success false) idle_state false 0 true] eq_refl)
    with (r := MkRound (interrupt idle_state) false (success false) idle_state false 0 true);
    try reflexivity. unfold_ints. simpl. lia.
Defined.
