(* ===== verification/AvailabilityWait.v ===== *)
(** * AvailabilityWait: waiting threads and notifications

    [Clients.wait_for_service] and [ActionClients.wait_for_server] are
    sequences of rounds.  This file interleaves such a wait, mutex section by
    mutex section, with the threads that change what it waits for: the graph
    and its subscribers' callbacks, the context's shutdown and its callbacks,
    and [interrupt_waits] (src/impl/availability_wait_state.hpp, the loops of
    src/impl/client_impl.cpp and src/impl/action_impl.cpp). *)

From S2P Require Import Prelude Deadline Services.
Local Open Scope Z_scope.

(** Where the waiting thread is. *)
Inductive WaiterPc :=
  | Deciding                                  (** about to take the mutex for the first time in a round *)
  | Checking (observed : Z)                   (** the mutex is free, availability not yet checked *)
  | Checked (observed : Z)                    (** not available; about to take the mutex again *)
  | Sleeping (observed : Z) (signalled : bool)  (** blocked in [cv.wait]; [signalled] by [notify_all] *)
  | Returned (result : Result bool).

Section Wait.
(** [Graph] is all the check depends on, metadata not yet ingested included. *)
Context {Graph : Type} (check : Graph -> Result bool).
Variables (kind : WaitKind) (token : AvailabilityWaitToken).

(** [notifying] counts the changes whose callback has yet to take the mutex,
    [signals] the [notify_all] calls that follow a section which has run. *)
Record WaitRun := MkWaitRun {
  graph : Graph;
  shutdown : bool;
  notifying : nat;
  signals : nat;
  wait_state : AvailabilityWaitState;
  waiter : WaiterPc }.

Definition decide_round (x : WaitRun) : WaiterPc :=
  if shutdown x then Returned (fail ContextShutdown "Context is shut down")
  else if interrupted (wait_state x) token then Returned (fail Interrupted "Availability wait interrupted")
  else Checking (wait_revision (wait_state x)).

Definition check_round (o : Z) (x : WaitRun) : WaiterPc :=
  match check (graph x) with
  | success false => if decide (kind = Poll) then Returned (success false) else Checked o
  | available => Returned available
  end.

(** The predicate of the condition variable. *)
Definition changed (o : Z) (x : WaitRun) : bool :=
  shutdown x || interrupted (wait_state x) token || negb (wait_revision (wait_state x) =? o).

(** The second section, up to the first evaluation of the predicate; [late]:
    the steady clock has reached the deadline. *)
Definition sleep_round (late : bool) (o : Z) (x : WaitRun) : WaiterPc :=
  if shutdown x then Returned (fail ContextShutdown "Context is shut down")
  else if interrupted (wait_state x) token then Returned (fail Interrupted "Availability wait interrupted")
  else if negb (wait_revision (wait_state x) =? o) then Deciding
  else if bool_decide (kind = Finite) && late then Returned (success false)
  else if changed o x then Deciding
  else Sleeping o false.

Definition signal (w : WaiterPc) : WaiterPc := match w with Sleeping o _ => Sleeping o true | _ => w end.

Definition goes (x : WaitRun) (w : WaiterPc) : WaitRun :=
  MkWaitRun (graph x) (shutdown x) (notifying x) (signals x) (wait_state x) w.
Definition in_state (x : WaitRun) (n s : nat) (st : AvailabilityWaitState) (w : WaiterPc) : WaitRun :=
  MkWaitRun (graph x) (shutdown x) n s st w.

(** The revision counts fewer than 2^64 notifications. *)
Inductive wait_step (x : WaitRun) : WaitRun -> Prop :=
  | graph_changes g :
      wait_step x (MkWaitRun g (shutdown x) (S (notifying x)) (signals x) (wait_state x) (waiter x))
  | shutdown_begins :
      wait_step x (MkWaitRun (graph x) true (S (notifying x)) (signals x) (wait_state x) (waiter x))
  | notifies n :
      notifying x = S n -> wait_revision (wait_state x) < UINT64_MAX ->
      wait_step x (in_state x n (S (signals x)) (notify_revision (wait_state x)) (waiter x))
  | interrupts :
      wait_revision (wait_state x) < UINT64_MAX ->
      wait_step x (in_state x (notifying x) (S (signals x)) (interrupt (wait_state x)) (waiter x))
  | signalling n :
      signals x = S n ->
      wait_step x (in_state x (notifying x) n (wait_state x) (signal (waiter x)))
  | waiter_decides :
      waiter x = Deciding -> wait_step x (goes x (decide_round x))
  | waiter_checks o :
      waiter x = Checking o -> wait_step x (goes x (check_round o x))
  | waiter_sleeps late o :
      waiter x = Checked o -> wait_step x (goes x (sleep_round late o x))
  | waiter_wakes o s :
      (** signalled, or spuriously *)
      waiter x = Sleeping o s ->
      wait_step x (goes x (if changed o x then Deciding else Sleeping o false))
  | waiter_times_out o s :
      waiter x = Sleeping o s -> kind = Finite ->
      wait_step x (goes x (if changed o x then Deciding else Returned (success false))).

Definition wait_starts (x : WaitRun) : Prop :=
  notifying x = 0%nat /\ signals x = 0%nat /\ waiter x = Deciding /\ 0 <= wait_revision (wait_state x) <= UINT64_MAX.

(** ** Nothing is missed *)

(** What is settled while the revision is still the observed one and no
    change is on its way to it. *)
Definition settled (o : Z) (x : WaitRun) : Prop :=
  wait_revision (wait_state x) = o -> notifying x = 0%nat -> check (graph x) = success false.

Definition wait_inv (x : WaitRun) : Prop :=
  0 <= wait_revision (wait_state x) <= UINT64_MAX /\
  match waiter x with
  | Checking o => o <= wait_revision (wait_state x)
  | Checked o => o <= wait_revision (wait_state x) /\ settled o x
  | Sleeping o signalled =>
      o <= wait_revision (wait_state x) /\ settled o x /\
      (signalled = false -> signals x = 0%nat -> wait_revision (wait_state x) = o) /\
      (wait_revision (wait_state x) = o ->
         interrupted (wait_state x) token = false /\ (notifying x = 0%nat -> shutdown x = false))
  | _ => True
  end.

Lemma next_revision r : 0 <= r < UINT64_MAX -> wrap_u64 (r + 1) = r + 1.
Proof. intros. apply wrap_u64_small. unfold_ints. lia. Qed.

(** A section that moves the revision leaves nothing to settle. *)
Lemma revision_moves x n s st :
  wait_inv x -> wait_revision (wait_state x) < UINT64_MAX -> wait_revision st = wait_revision (wait_state x) + 1 ->
  wait_inv (in_state x n (S s) st (waiter x)).
Proof.
  intros [Hr Hw] Hlt Hst. split; [simpl; lia|]. unfold settled. simpl.
  destruct (waiter x); try done; simpl in *; rewrite Hst.
  - lia.
  - split; [lia | intros; lia].
  - split_and!; [lia | intros; lia | done | intros; lia].
Qed.

(** Nor does a change that has not been notified yet. *)
Lemma change_pends x g b :
  wait_inv x -> wait_inv (MkWaitRun g b (S (notifying x)) (signals x) (wait_state x) (waiter x)).
Proof.
  intros [Hr Hw]. split; [done|]. unfold settled in *. simpl.
  destruct (waiter x); try done; simpl in *.
  - by destruct Hw.
  - destruct Hw as (? & _ & ? & Hq). split_and!; [done.. |]. intros Hrev. split; [by apply Hq | done].
Qed.

Lemma changed_false o x :
  changed o x = false ->
  shutdown x = false /\ interrupted (wait_state x) token = false /\ wait_revision (wait_state x) = o.
Proof. unfold changed. rewrite !orb_false_iff, negb_false_iff, Z.eqb_eq. tauto. Qed.

Lemma wait_inv_step x x' : wait_inv x -> wait_step x x' -> wait_inv x'.
Proof.
  intros Hx Hstep. pose proof Hx as [Hr Hw]. destruct Hstep.
  - by apply change_pends.
  - by apply change_pends.
  - apply revision_moves; [done..|]. simpl. apply next_revision. lia.
  - apply revision_moves; [done..|]. simpl. apply next_revision. lia.
  - split; [done|]. unfold settled in *. simpl. destruct (waiter x); simpl in *; try done.
    destruct Hw as (? & ? & _ & ?). by split_and!.
  - split; [done|]. simpl. unfold decide_round. repeat case_match; simplify_eq/=; try done; lia.
  - rewrite H in Hw. split; [done|]. simpl. unfold check_round.
    destruct (check (graph x)) as [[]|] eqn:Hc; try done.
    destruct (decide (kind = Poll)); [done|]. split; [done|]. by intros _ _.
  - rewrite H in Hw. destruct Hw as [Ho Hs]. split; [done|]. simpl. unfold sleep_round.
    destruct (shutdown x) eqn:Hsh, (interrupted (wait_state x) token) eqn:Hin; try done.
    destruct (Z.eqb_spec (wait_revision (wait_state x)) o) as [He|]; simpl; [|done].
    destruct (bool_decide (kind = Finite) && late); [done|].
    destruct (changed o x); [done|]. by split_and!.
  - rewrite H in Hw. destruct Hw as (Ho & Hs & _ & Hq). split; [done|]. simpl.
    destruct (changed o x) eqn:Hc; [done|]. apply changed_false in Hc as (H1 & H2 & H3). by split_and!.
  - split; [done|]. simpl. by destruct (changed o x).
Qed.

Lemma wait_reachable_inv x : reachable wait_starts wait_step x -> wait_inv x.
Proof.
  apply reachable_invariant; [|apply wait_inv_step]. intros y (_ & _ & Hw & Hr). split; [done|]. by rewrite Hw.
Qed.

Lemma blocked_inv x o :
  wait_inv x -> waiter x = Sleeping o false -> notifying x = 0%nat -> signals x = 0%nat ->
  check (graph x) = success false /\ shutdown x = false /\ interrupted (wait_state x) token = false.
Proof.
  intros [_ Hinv] Hw Hn Hs. rewrite Hw in Hinv. destruct Hinv as (_ & Hset & Hrev & Hq). specialize (Hrev eq_refl Hs).
  split; [by apply Hset|]. destruct (Hq Hrev) as [Hi Hsh]. auto.
Qed.

(** C12: no notification is lost.  Whatever the graph, the context and other
    threads do, a waiting thread that is blocked, has not been signalled and
    will not be by anything that has happened so far, has nothing to wait
    for: the check still fails, the context is open, and nobody has
    interrupted the wait. *)
Theorem blocked_in_vain x o :
  reachable wait_starts wait_step x ->
  waiter x = Sleeping o false -> notifying x = 0%nat -> signals x = 0%nat ->
  check (graph x) = success false /\ shutdown x = false /\ interrupted (wait_state x) token = false.
Proof. intros Hx%wait_reachable_inv. by apply blocked_inv. Qed.

(** ** A wait that has something to find *)

(** What still happens when nothing changes any more: pending notifications
    and signals arrive, and the waiting thread runs, woken only by signals. *)
Inductive quiet_step (x : WaitRun) : WaitRun -> Prop :=
  | quiet_notifies n :
      notifying x = S n -> wait_revision (wait_state x) < UINT64_MAX ->
      quiet_step x (in_state x n (S (signals x)) (notify_revision (wait_state x)) (waiter x))
  | quiet_signalling n :
      signals x = S n -> quiet_step x (in_state x (notifying x) n (wait_state x) (signal (waiter x)))
  | quiet_decides : waiter x = Deciding -> quiet_step x (goes x (decide_round x))
  | quiet_checks o : waiter x = Checking o -> quiet_step x (goes x (check_round o x))
  | quiet_sleeps o : waiter x = Checked o -> quiet_step x (goes x (sleep_round false o x))
  | quiet_wakes o :
      waiter x = Sleeping o true -> quiet_step x (goes x (if changed o x then Deciding else Sleeping o false)).

Definition pc_work (w : WaiterPc) : nat :=
  match w with
  | Returned _ => 0 | Checking _ => 1 | Deciding => 2 | Sleeping _ false => 3 | Checked _ | Sleeping _ true => 4
  end.

(** A bound on the steps left. *)
Definition work (x : WaitRun) : nat := 3 * notifying x + 2 * signals x + pc_work (waiter x).

Definition findable (x : WaitRun) : Prop :=
  wait_inv x /\ check (graph x) = success true /\ shutdown x = false /\
  interrupted (wait_state x) token = false /\
  (forall r, waiter x = Returned r -> r = success true) /\
  wait_revision (wait_state x) + Z.of_nat (notifying x) <= UINT64_MAX.

Lemma quiet_wait_step x y : quiet_step x y -> wait_step x y.
Proof. destruct 1; by econstructor. Qed.

Lemma findable_step x y : findable x -> quiet_step x y -> findable y.
Proof.
  intros (Hinv & Hc & Hsh & Hi & Hret & Hrev) Hstep.
  pose proof (wait_inv_step x y Hinv (quiet_wait_step x y Hstep)) as Hinv'. destruct Hinv as [Hr _].
  unfold findable. split; [done|]. clear Hinv'. destruct Hstep; simpl; split_and!; try done.
  - rewrite next_revision; lia.
  - intros r Hw. apply Hret. by destruct (waiter x).
  - unfold decide_round. by rewrite Hsh, Hi.
  - unfold check_round. rewrite Hc. by intros r [= <-].
  - unfold sleep_round, changed. rewrite Hsh, Hi, andb_false_r. simpl. by destruct (_ =? o).
  - by destruct (changed o x).
Qed.

Lemma quiet_works x y : findable x -> quiet_step x y -> (work y < work x)%nat.
Proof.
  intros (_ & Hc & Hsh & Hi & _) Hstep. unfold work. destruct Hstep; simpl.
  - lia.
  - rewrite H. destruct (waiter x) as [| | |? []|]; simpl; lia.
  - rewrite H. unfold decide_round. rewrite Hsh, Hi. simpl. lia.
  - rewrite H. unfold check_round. rewrite Hc. simpl. lia.
  - rewrite H. unfold sleep_round, changed. rewrite Hsh, Hi, andb_false_r. simpl. destruct (_ =? o); simpl; lia.
  - rewrite H. destruct (changed o x); simpl; lia.
Qed.

(** C29: a wait that has something to find finds it.  Once the check would
    succeed, with the context open and the wait not interrupted, and if
    nothing changes from then on, a wait that has not returned yet and does
    not reach its deadline takes a bounded number of steps, however they are
    scheduled, and where no step is left it has returned [true]. *)
Theorem wait_finds x :
  reachable wait_starts wait_step x -> check (graph x) = success true -> shutdown x = false ->
  interrupted (wait_state x) token = false -> (forall r, waiter x <> Returned r) ->
  wait_revision (wait_state x) + Z.of_nat (notifying x) <= UINT64_MAX ->
  forall n y, nsteps quiet_step n x y ->
    (n <= work x)%nat /\ ((forall z, ~ quiet_step y z) -> waiter y = Returned (success true)).
Proof.
  intros Hx%wait_reachable_inv Hc Hsh Hi Hret Hrev n y Hsteps.
  assert (findable x) as Hf by (split_and!; try done; by intros r ?%Hret). clear Hx Hc Hsh Hi Hret Hrev.
  induction Hsteps as [x|n x x' y Hstep _ IH].
  - split; [lia|]. intros Hstuck. destruct Hf as (Hinv & Hc & Hsh & Hi & Hret & Hrev).
    destruct (notifying x) as [|k] eqn:Hn.
    2: { destruct (Hstuck _ (quiet_notifies x k Hn ltac:(lia))). }
    destruct (signals x) as [|k] eqn:Hs; [|destruct (Hstuck _ (quiet_signalling x k Hs))].
    destruct (waiter x) as [|o|o|o []|r] eqn:Hw.
    + destruct (Hstuck _ (quiet_decides x Hw)).
    + destruct (Hstuck _ (quiet_checks x o Hw)).
    + destruct (Hstuck _ (quiet_sleeps x o Hw)).
    + destruct (Hstuck _ (quiet_wakes x o Hw)).
    + destruct (blocked_inv x o Hinv Hw Hn Hs) as [? _]. congruence.
    + f_equal. by apply Hret.
  - destruct (IH (findable_step _ _ Hf Hstep)) as [Hle Hend]. split; [|done].
    pose proof (quiet_works _ _ Hf Hstep). lia.
Qed.
End Wait.

(** ** Concrete runs *)

(** The graph is whether the service is there. *)
Definition look (there : bool) : Result bool := success there.

Definition idle_wait : AvailabilityWaitState := MkAvailability 3 0 0.

Definition waiting (there : bool) (n : nat) (w : WaiterPc) : WaitRun := MkWaitRun there false n 0 idle_wait w.

Lemma sleeper_reachable :
  reachable wait_starts (wait_step look Infinite (prepare idle_wait)) (waiting false 0 (Sleeping 0 false)).
Proof.
  assert (reachable wait_starts (wait_step look Infinite (prepare idle_wait)) (waiting false 0 Deciding)) as H
    by by apply reach_init.
  extend H with (by apply waiter_decides). extend H with (by apply (waiter_checks _ _ _ _ 0)).
  extend H with (by apply (waiter_sleeps _ _ _ _ false 0)). exact H.
Qed.

Lemma blocked_in_vain_witness : look (graph (waiting false 0 (Sleeping 0 false))) = success false.
Proof.
  exact (proj1 (blocked_in_vain look Infinite (prepare idle_wait) (waiting false 0 (Sleeping 0 false)) 0
    sleeper_reachable eq_refl eq_refl eq_refl)).
Defined.

(** The service appears while the thread sleeps. *)
Lemma wait_finds_witness :
  exists y, nsteps (quiet_step look Infinite (prepare idle_wait)) 5 (waiting true 1 (Sleeping 0 false)) y /\
    waiter y = Returned (success true) /\ (5 <= work (waiting true 1 (Sleeping 0 false)))%nat.
Proof.
  assert (reachable wait_starts (wait_step look Infinite (prepare idle_wait)) (waiting true 1 (Sleeping 0 false))) as H.
  { eapply reach_step; [exact sleeper_reachable|]. exact (graph_changes look Infinite (prepare idle_wait) (waiting false 0 (Sleeping 0 false)) true). }
  assert (exists y, nsteps (quiet_step look Infinite (prepare idle_wait)) 5 (waiting true 1 (Sleeping 0 false)) y /\
    notifying y = 0%nat /\ signals y = 0%nat /\ waiter y = Returned (success true)) as (y & Hy & Hn & Hs & Hw).
  { eexists. split.
    - eapply nsteps_l; [eapply quiet_notifies; [reflexivity | vm_compute; reflexivity]|].
      eapply nsteps_l; [eapply quiet_signalling; reflexivity|].
      eapply nsteps_l; [by apply (quiet_wakes _ _ _ _ 0)|].
      eapply nsteps_l; [by apply quiet_decides|].
      eapply nsteps_l; [by apply (quiet_checks _ _ _ _ 1)|]. apply nsteps_O.
    - by split_and!. }
  exists y. split; [exact Hy|].
  destruct (wait_finds look Infinite (prepare idle_wait) _ H eq_refl eq_refl eq_refl ltac:(done) ltac:(vm_compute; done) 5 y Hy)
    as [Hle Hend].
  split; [|exact Hle]. apply Hend. intros z Hz. destruct Hz; congruence.
Defined.
