(* ===== verification/ActionGoals.v ===== *)
(** * ActionGoals: the Action goal registry

    Models the goal part of include/dmw/action_common.hpp and
    src/impl/action_goal_registry.{hpp,cpp}: the goal state machine, accept
    reservations, pending result requests, cancel selection and result expiry.

    The registry mutex makes each operation atomic: an operation is a function
    from the registry to its result and the next registry.  [now] is the value
    of the steady clock the operation reads; [alive] tells which observers'
    [weak_ptr]s still lock; the operations that notify return the observers
    they woke.  The hash map's iteration order is a [HashOrder]: since the order
    is arbitrary, sorting it with a stable sort gives every tie order
    [std::sort] may leave. *)

From S2P Require Import Prelude Identity.
Local Open Scope Z_scope.

(** ** Goal state machine *)

Inductive GoalState := Unknown | Accepted | Executing | Canceling | Succeeded | Canceled | Aborted.
Inductive GoalEvent := Ev_Execute | Ev_CancelGoal | Ev_Succeed | Ev_Abort | Ev_Canceled.
Inductive GoalAcceptMode := Mode_Defer | Mode_Execute.

#[export] Instance GoalState_eq_dec : EqDecision GoalState.
Proof. solve_decision. Defined.

#[export] Instance GoalEvent_eq_dec : EqDecision GoalEvent.
Proof. solve_decision. Defined.

Record GoalInfo := MkGoalInfo { goal_id : GoalId; accepted_stamp : Z }.

Record GoalTransition := MkGoalTransition {
  previous : GoalState; current : GoalState; became_terminal : bool }.

Record GoalStatusInfo := MkGoalStatusInfo { goal_info : GoalInfo; status_state : GoalState }.

Record CancelGoalCriteria := MkCancelGoalCriteria { criteria_goal_id : GoalId; criteria_stamp : Z }.

Inductive ResultRequestDisposition := UnknownGoal | Pending | Terminal.

Definition is_terminal_goal_state (s : GoalState) : bool :=
  match s with Succeeded | Canceled | Aborted => true | _ => false end.

Definition is_cancelable_goal_state (s : GoalState) : bool :=
  match s with Accepted | Executing => true | _ => false end.

Definition next_goal_state (s : GoalState) (e : GoalEvent) : option GoalState :=
  match s, e with
  | Accepted, Ev_Execute => Some Executing
  | Accepted, Ev_CancelGoal => Some Canceling
  | Executing, Ev_CancelGoal => Some Canceling
  | Executing, Ev_Succeed => Some Succeeded
  | Executing, Ev_Abort => Some Aborted
  | Canceling, Ev_Succeed => Some Succeeded
  | Canceling, Ev_Abort => Some Aborted
  | Canceling, Ev_Canceled => Some Canceled
  | _, _ => None
  end.

(** ** Registry state *)

Record GoalRecord := MkGoalRecord {
  info : GoalInfo;
  state : GoalState;
  committed : bool;
  expiry_scheduled : bool;
  terminal_time : Z;
  pending_result_requests : list RequestId }.

Definition default_record : GoalRecord :=
  MkGoalRecord (MkGoalInfo (MkGoalId (replicate 16 0)) 0) Unknown false false 0 [].

Abbreviation GoalMap := (gmap GoalId GoalRecord).

Record ActionGoalRegistry := MkRegistry {
  result_timeout : Z;
  goals : GoalMap;
  expired_notifications : list GoalId;
  expiry_observers : list nat }.

Definition make_registry (timeout : Z) : ActionGoalRegistry :=
  MkRegistry (if timeout <? 0 then 0 else timeout) ∅ [] [].

Definition with_goals (r : ActionGoalRegistry) (g : GoalMap) : ActionGoalRegistry :=
  MkRegistry (result_timeout r) g (expired_notifications r) (expiry_observers r).
Definition with_notifications (r : ActionGoalRegistry) (n : list GoalId) : ActionGoalRegistry :=
  MkRegistry (result_timeout r) (goals r) n (expiry_observers r).
Definition with_observers (r : ActionGoalRegistry) (o : list nat) : ActionGoalRegistry :=
  MkRegistry (result_timeout r) (goals r) (expired_notifications r) o.

(** ** Operations *)

Section Operations.
Context `{!HashOrder GoalId GoalRecord}.

Definition reserve (id : GoalId) (r : ActionGoalRegistry) : bool * ActionGoalRegistry :=
  match goals r !! id with
  | Some _ => (false, r)
  | None => (true, with_goals r (<[id := default_record]> (goals r)))
  end.

Definition rollback_reservation (id : GoalId) (r : ActionGoalRegistry) : ActionGoalRegistry :=
  match goals r !! id with
  | Some rec => if committed rec then r else with_goals r (delete id (goals r))
  | None => r
  end.

Definition is_reserved (id : GoalId) (r : ActionGoalRegistry) : bool :=
  match goals r !! id with Some _ => true | None => false end.

Definition commit (i : GoalInfo) (mode : GoalAcceptMode) (r : ActionGoalRegistry)
    : bool * ActionGoalRegistry :=
  match goals r !! goal_id i with
  | None => (false, r)
  | Some rec =>
      if committed rec then (false, r)
      else
        let rec' := MkGoalRecord i
          (match mode with Mode_Execute => Executing | Mode_Defer => Accepted end)
          true false (terminal_time rec) [] in
        (true, with_goals r (<[goal_id i := rec']> (goals r)))
  end.

Definition expired_locked (r : ActionGoalRegistry) (rec : GoalRecord) (now : Z) : bool :=
  if negb (expiry_scheduled rec) then false else now - terminal_time rec >=? result_timeout r.

(** [notify_expiry_locked]: wake the live observers, drop the dead ones. *)
Fixpoint notify_loop (alive : nat -> bool) (obs : list nat) : list nat * list nat :=
  match obs with
  | [] => ([], [])
  | o :: obs =>
      let '(kept, woken) := notify_loop alive obs in
      if alive o then (o :: kept, o :: woken) else (kept, woken)
  end.

Definition notify_expiry_locked (alive : nat -> bool) (r : ActionGoalRegistry)
    : ActionGoalRegistry * list nat :=
  let '(kept, woken) := notify_loop alive (expiry_observers r) in (with_observers r kept, woken).

(** The pruning loop over the iterated entries: push the id, erase, notify. *)
Fixpoint prune_loop (now : Z) (alive : nat -> bool) (entries : list (GoalId * GoalRecord))
    (r : ActionGoalRegistry) : ActionGoalRegistry * list nat :=
  match entries with
  | [] => (r, [])
  | (id, rec) :: entries =>
      if committed rec && expired_locked r rec now then
        let r1 := with_notifications r (expired_notifications r ++ [id]) in
        let r2 := with_goals r1 (delete id (goals r1)) in
        let '(r3, woken) := notify_expiry_locked alive r2 in
        let '(r4, woken') := prune_loop now alive entries r3 in
        (r4, woken ++ woken')
      else prune_loop now alive entries r
  end.

Definition prune_expired_locked (now : Z) (alive : nat -> bool) (r : ActionGoalRegistry)
    : ActionGoalRegistry * list nat :=
  prune_loop now alive (hash_order (goals r)) r.

Definition goal_state (id : GoalId) (r : ActionGoalRegistry) : Result GoalState :=
  match goals r !! id with
  | Some rec => if committed rec then success (state rec)
                else fail NotFound "Goal is not registered"
  | None => fail NotFound "Goal is not registered"
  end.

Definition update_state (id : GoalId) (event : GoalEvent) (now : Z) (alive : nat -> bool)
    (r : ActionGoalRegistry) : Result GoalTransition * ActionGoalRegistry * list nat :=
  match goals r !! id with
  | None => (fail NotFound "Goal is not registered", r, [])
  | Some rec =>
      if negb (committed rec) then (fail NotFound "Goal is not registered", r, [])
      else if is_terminal_goal_state (state rec) then
        (fail InvalidState "Goal is already terminal", r, [])
      else match next_goal_state (state rec) event with
      | None => (fail InvalidState "Goal transition is not allowed", r, [])
      | Some next =>
          if is_terminal_goal_state next then
            let rec' := MkGoalRecord (info rec) next (committed rec) true now
                          (pending_result_requests rec) in
            let '(r', woken) :=
              notify_expiry_locked alive (with_goals r (<[id := rec']> (goals r))) in
            (success (MkGoalTransition (state rec) next true), r', woken)
          else
            let rec' := MkGoalRecord (info rec) next (committed rec) (expiry_scheduled rec)
                          (terminal_time rec) (pending_result_requests rec) in
            (success (MkGoalTransition (state rec) next false),
             with_goals r (<[id := rec']> (goals r)), [])
      end
  end.

Definition stamp_le (a b : GoalInfo) : Prop := accepted_stamp a <= accepted_stamp b.

#[export] Instance stamp_le_dec : RelDecision stamp_le.
Proof. intros a b. unfold stamp_le. apply _. Defined.

(** The selection predicate of the loop body. *)
Definition cancel_selected (c : CancelGoalCriteria) (rec : GoalRecord) : bool :=
  let wildcard := is_zero_goal_id (criteria_goal_id c) in
  let time_bounded := negb (criteria_stamp c =? 0) in
  if negb (committed rec) || negb (is_cancelable_goal_state (state rec)) then false
  else
    let exact_match := negb wildcard && bool_decide (goal_id (info rec) = criteria_goal_id c) in
    let before_stamp := time_bounded && (accepted_stamp (info rec) <=? criteria_stamp c) in
    if wildcard then (if time_bounded then before_stamp else true)
    else (if time_bounded then exact_match || before_stamp else exact_match).

Definition select_cancel_goals (c : CancelGoalCriteria) (r : ActionGoalRegistry)
    : Result (list GoalInfo) :=
  if criteria_stamp c <? 0 then fail InvalidArgument "Cancel stamp must not be negative"
  else
    let selected := omap (fun '(_, rec) => if cancel_selected c rec then Some (info rec) else None)
                      (hash_order (goals r)) in
    success (merge_sort stamp_le selected).

Definition register_result_request (id : GoalId) (request_id : RequestId) (now : Z)
    (alive : nat -> bool) (r : ActionGoalRegistry)
    : Result ResultRequestDisposition * ActionGoalRegistry * list nat :=
  let '(r, woken) := prune_expired_locked now alive r in
  match goals r !! id with
  | None => (success UnknownGoal, r, woken)
  | Some rec =>
      if negb (committed rec) then (success UnknownGoal, r, woken)
      else if is_terminal_goal_state (state rec) then (success Terminal, r, woken)
      else if existsb (fun '(_, rec') =>
                bool_decide (request_id ∈ pending_result_requests rec')) (hash_order (goals r))
      then (fail AlreadyExists "Result request is already associated", r, woken)
      else
        let rec' := MkGoalRecord (info rec) (state rec) (committed rec) (expiry_scheduled rec)
          (terminal_time rec) (pending_result_requests rec ++ [request_id]) in
        (success Pending, with_goals r (<[id := rec']> (goals r)), woken)
  end.

Definition drop_request (request_id : RequestId) (rec : GoalRecord) : GoalRecord :=
  MkGoalRecord (info rec) (state rec) (committed rec) (expiry_scheduled rec) (terminal_time rec)
    (filter (fun q => q <> request_id) (pending_result_requests rec)).

Definition remove_result_request (request_id : RequestId) (r : ActionGoalRegistry)
    : ActionGoalRegistry :=
  with_goals r (drop_request request_id <$> goals r).

Definition clear_requests (rec : GoalRecord) : GoalRecord :=
  MkGoalRecord (info rec) (state rec) (committed rec) (expiry_scheduled rec) (terminal_time rec) [].

Definition take_pending_result_requests (id : GoalId) (r : ActionGoalRegistry)
    : Result (list RequestId) * ActionGoalRegistry :=
  match goals r !! id with
  | Some rec =>
      if committed rec then
        (success (pending_result_requests rec),
         with_goals r (<[id := clear_requests rec]> (goals r)))
      else (fail NotFound "Goal is not registered", r)
  | None => (fail NotFound "Goal is not registered", r)
  end.

Definition status_le (a b : GoalStatusInfo) : Prop := stamp_le (goal_info a) (goal_info b).

#[export] Instance status_le_dec : RelDecision status_le.
Proof. intros a b. unfold status_le. apply _. Defined.

Definition status_snapshot (now : Z) (alive : nat -> bool) (r : ActionGoalRegistry)
    : Result (list GoalStatusInfo) * ActionGoalRegistry * list nat :=
  let '(r, woken) := prune_expired_locked now alive r in
  let snapshot := omap (fun '(_, rec) =>
    if committed rec then Some (MkGoalStatusInfo (info rec) (state rec)) else None)
    (hash_order (goals r)) in
  (success (merge_sort status_le snapshot), r, woken).

Definition take_expired_goals (now : Z) (alive : nat -> bool) (r : ActionGoalRegistry)
    : Result (list GoalId) * ActionGoalRegistry * list nat :=
  let '(r, woken) := prune_expired_locked now alive r in
  (success (expired_notifications r), with_notifications r [], woken).

Definition observe_expiry (observer : nat) (alive : nat -> bool) (r : ActionGoalRegistry)
    : ActionGoalRegistry :=
  if existsb (fun o => alive o && Nat.eqb o observer) (expiry_observers r) then r
  else with_observers r (expiry_observers r ++ [observer]).

Definition expiry_ready (now : Z) (r : ActionGoalRegistry) : bool :=
  match expired_notifications r with
  | _ :: _ => true
  | [] => existsb (fun '(_, rec) => committed rec && expired_locked r rec now)
            (hash_order (goals r))
  end.

(** The body of the loop of [earliest_expiry]. *)
Definition earliest_step (add : Z -> Z -> Z) (timeout : Z) (earliest : option Z)
    (entry : GoalId * GoalRecord) : option Z :=
  let rec := entry.2 in
  if negb (committed rec) || negb (expiry_scheduled rec) then earliest
  else
    let deadline := add (terminal_time rec) timeout in
    match earliest with
    | None => Some deadline
    | Some e => if deadline <? e then Some deadline else earliest
    end.

(** [earliest_expiry]; [add] is [saturating_steady_add] of impl/deadline.hpp. *)
Definition earliest_expiry (add : Z -> Z -> Z) (r : ActionGoalRegistry) : option Z :=
  fold_left (earliest_step add (result_timeout r)) (hash_order (goals r)) None.

Definition committed_goal_count (r : ActionGoalRegistry) : nat :=
  length (filter (fun '(_, rec) => committed rec = true) (hash_order (goals r))).
End Operations.

(** ** Histories *)

(** One operation of the registry, with the clock value it reads and the
    observers alive when it runs. *)
Inductive GoalOp :=
  | Op_reserve (id : GoalId)
  | Op_rollback (id : GoalId)
  | Op_commit (i : GoalInfo) (mode : GoalAcceptMode)
  | Op_update (id : GoalId) (event : GoalEvent) (now : Z) (alive : nat -> bool)
  | Op_register (id : GoalId) (q : RequestId) (now : Z) (alive : nat -> bool)
  | Op_remove (q : RequestId)
  | Op_take_pending (id : GoalId)
  | Op_snapshot (now : Z) (alive : nat -> bool)
  | Op_take_expired (now : Z) (alive : nat -> bool)
  | Op_observe (observer : nat) (alive : nat -> bool).

Section Histories.
Context `{!HashOrder GoalId GoalRecord}.

Definition exec (op : GoalOp) (r : ActionGoalRegistry) : ActionGoalRegistry :=
  match op with
  | Op_reserve id => (reserve id r).2
  | Op_rollback id => rollback_reservation id r
  | Op_commit i mode => (commit i mode r).2
  | Op_update id event now alive => (update_state id event now alive r).1.2
  | Op_register id q now alive => (register_result_request id q now alive r).1.2
  | Op_remove q => remove_result_request q r
  | Op_take_pending id => (take_pending_result_requests id r).2
  | Op_snapshot now alive => (status_snapshot now alive r).1.2
  | Op_take_expired now alive => (take_expired_goals now alive r).1.2
  | Op_observe o alive => observe_expiry o alive r
  end.

(** The goal ids an operation accepts, and those it reports as expired. *)
Definition accepted_by (op : GoalOp) (r : ActionGoalRegistry) : list GoalId :=
  match op with
  | Op_commit i mode => if (commit i mode r).1 then [goal_id i] else []
  | _ => []
  end.

Definition reported_by (op : GoalOp) (r : ActionGoalRegistry) : list GoalId :=
  match op with
  | Op_take_expired now alive => default [] (result_value (take_expired_goals now alive r).1.1)
  | _ => []
  end.

(** The clock value at which an operation prunes. *)
Definition prune_time (op : GoalOp) : option Z :=
  match op with
  | Op_register _ _ now _ | Op_snapshot now _ | Op_take_expired now _ => Some now
  | _ => None
  end.

Record History := MkHistory {
  registry : ActionGoalRegistry;
  accepted_log : list GoalId;
  reported_log : list GoalId }.

Definition history_step (op : GoalOp) (h : History) : History :=
  MkHistory (exec op (registry h))
    (accepted_log h ++ accepted_by op (registry h))
    (reported_log h ++ reported_by op (registry h)).

Definition new_history (timeout : Z) : History := MkHistory (make_registry timeout) [] [].

(** ** Invariant *)

Definition lapsed (timeout now : Z) (rec : GoalRecord) : bool :=
  committed rec && expiry_scheduled rec && (now - terminal_time rec >=? timeout).

Definition record_wf (id : GoalId) (rec : GoalRecord) : Prop :=
  if committed rec then
    goal_id (info rec) = id /\ state rec <> Unknown /\
    expiry_scheduled rec = is_terminal_goal_state (state rec) /\
    NoDup (pending_result_requests rec)
  else rec = default_record.

Definition exclusive_requests (g : GoalMap) : Prop :=
  forall id1 id2 rec1 rec2 q,
    g !! id1 = Some rec1 -> g !! id2 = Some rec2 ->
    q ∈ pending_result_requests rec1 -> q ∈ pending_result_requests rec2 -> id1 = id2.

Record registry_wf (r : ActionGoalRegistry) : Prop := {
  wf_timeout : 0 <= result_timeout r;
  wf_records : map_Forall record_wf (goals r);
  wf_exclusive : exclusive_requests (goals r) }.

(** ** Pruning *)

Definition lapsed_ids (r : ActionGoalRegistry) (now : Z) : list GoalId :=
  (filter (fun '(_, rec) => lapsed (result_timeout r) now rec = true) (hash_order (goals r))).*1.

Lemma expired_locked_lapsed r rec now :
  committed rec && expired_locked r rec now = lapsed (result_timeout r) now rec.
Proof.
  unfold expired_locked, lapsed. by destruct (committed rec), (expiry_scheduled rec).
Qed.

Lemma notify_expiry_locked_frame alive r :
  let r' := (notify_expiry_locked alive r).1 in
  goals r' = goals r /\ result_timeout r' = result_timeout r /\
  expired_notifications r' = expired_notifications r.
Proof. unfold notify_expiry_locked. by destruct (notify_loop _ _). Qed.

Lemma prune_loop_spec now alive entries r :
  let ids := (filter (fun '(_, rec) => lapsed (result_timeout r) now rec = true) entries).*1 in
  let r' := (prune_loop now alive entries r).1 in
  result_timeout r' = result_timeout r /\
  expired_notifications r' = expired_notifications r ++ ids /\
  (forall id, goals r' !! id = if decide (id ∈ ids) then None else goals r !! id).
Proof.
  revert r. induction entries as [|[id rec] entries IH]; intros r; simpl.
  - split_and!; [done | by rewrite app_nil_r | done].
  - rewrite expired_locked_lapsed, filter_cons. case_decide as Hl; rewrite ?Hl; simpl.
    + pose proof (notify_expiry_locked_frame alive
        (with_goals (with_notifications r (expired_notifications r ++ [id])) (delete id (goals r))))
        as (Hg & Ht & Hn).
      destruct (notify_expiry_locked alive _) as [r3 woken]; simpl in *.
      specialize (IH r3). rewrite Ht in IH.
      destruct (prune_loop now alive entries r3) as [r4 woken']; simpl in *.
      destruct IH as (-> & Hn4 & Hg4). split_and!; [done | |].
      * rewrite Hn4, Hn, <- app_assoc. done.
      * intros k. rewrite Hg4, Hg, lookup_delete.
        repeat case_decide; set_solver.
    + apply not_true_is_false in Hl. rewrite Hl. apply IH.
Qed.

Lemma elem_of_lapsed_ids r now id :
  id ∈ lapsed_ids r now <->
  exists rec, goals r !! id = Some rec /\ lapsed (result_timeout r) now rec = true.
Proof.
  unfold lapsed_ids. rewrite list_elem_of_fmap. split.
  - intros ([k rec] & -> & [Hl Hin]%list_elem_of_filter). exists rec.
    by rewrite elem_of_hash_order in Hin.
  - intros (rec & Hr & Hl). exists (id, rec). split; [done|].
    apply list_elem_of_filter. by rewrite elem_of_hash_order.
Qed.

Lemma NoDup_lapsed_ids r now : NoDup (lapsed_ids r now).
Proof.
  unfold lapsed_ids. generalize (NoDup_hash_order (goals r)).
  induction (hash_order (goals r)) as [|[k rec] l IH]; simpl; [constructor|].
  rewrite NoDup_cons. intros [Hk Hl]. rewrite filter_cons. case_decide; simpl; [|auto].
  constructor; [|auto]. intros ([k' rec'] & -> & [_ Hin]%list_elem_of_filter)%list_elem_of_fmap.
  apply Hk. by apply (list_elem_of_fmap_2 fst) in Hin.
Qed.

Lemma prune_spec now alive r :
  let r' := (prune_expired_locked now alive r).1 in
  result_timeout r' = result_timeout r /\
  expired_notifications r' = expired_notifications r ++ lapsed_ids r now /\
  (forall id rec, goals r' !! id = Some rec <->
     goals r !! id = Some rec /\ lapsed (result_timeout r) now rec = false).
Proof.
  simpl. unfold prune_expired_locked.
  destruct (prune_loop_spec now alive (hash_order (goals r)) r) as (Ht & Hn & Hg).
  split_and!; [done | done |]. intros id rec. rewrite Hg. fold (lapsed_ids r now).
  case_decide as Hin; rewrite elem_of_lapsed_ids in Hin.
  - split; [done|]. destruct Hin as (rec' & Hr & Hl). intros [Hr' Hl']. congruence.
  - split; [|by intros []]. intros Hr. split; [done|].
    destruct (lapsed _ _ _) eqn:Hl; [|done]. destruct Hin. eauto.
Qed.

Lemma prune_wf now alive r : registry_wf r -> registry_wf (prune_expired_locked now alive r).1.
Proof.
  intros [Ht Hr He]. destruct (prune_spec now alive r) as (Ht' & _ & Hg). split.
  - by rewrite Ht'.
  - intros id rec [Hl _]%Hg. by apply Hr.
  - intros id1 id2 rec1 rec2 q [H1 _]%Hg [H2 _]%Hg. by apply He.
Qed.

(** ** Preservation *)

Lemma make_registry_wf timeout : registry_wf (make_registry timeout).
Proof.
  split; simpl; [case_cmp; lia | apply map_Forall_empty |].
  intros id1 id2 rec1 rec2 q H1. by rewrite lookup_empty in H1.
Qed.

(** Writing a well-formed record that waits for no new request. *)
Lemma insert_wf r id rec' :
  registry_wf r -> record_wf id rec' ->
  (forall q, q ∈ pending_result_requests rec' ->
     (exists rec, goals r !! id = Some rec /\ q ∈ pending_result_requests rec) \/
     (forall id2 rec2, goals r !! id2 = Some rec2 -> q ∉ pending_result_requests rec2)) ->
  registry_wf (with_goals r (<[id := rec']> (goals r))).
Proof.
  intros [Ht Hr He] Hrec Hq. split; simpl; [done | by apply map_Forall_insert_2 |].
  intros id1 id2 rec1 rec2 q [[<- <-]|[Hn1 H1]]%lookup_insert_Some
    [[<- <-]|[Hn2 H2]]%lookup_insert_Some Hq1 Hq2; [done | | | by eapply He].
  - destruct (Hq q Hq1) as [(rec & Hl & Hin)|Hno]; [by eapply He | by destruct (Hno id2 rec2)].
  - destruct (Hq q Hq2) as [(rec & Hl & Hin)|Hno]; [by eapply He | by destruct (Hno id1 rec1)].
Qed.

Lemma frame_wf r r' :
  goals r' = goals r -> result_timeout r' = result_timeout r -> registry_wf r -> registry_wf r'.
Proof. intros Hg Ht [? ? ?]. split; by rewrite ?Hg, ?Ht. Qed.

Lemma record_wf_committed id rec :
  record_wf id rec -> committed rec = true ->
  goal_id (info rec) = id /\ state rec <> Unknown /\
  expiry_scheduled rec = is_terminal_goal_state (state rec) /\
  NoDup (pending_result_requests rec).
Proof. unfold record_wf. intros H Hc. by rewrite Hc in H. Qed.

Lemma next_goal_state_not_unknown s e s' : next_goal_state s e = Some s' -> s' <> Unknown.
Proof. by destruct s, e; simpl; intros [= <-]. Qed.

Lemma next_goal_state_live s e s' :
  next_goal_state s e = Some s' -> is_terminal_goal_state s = false.
Proof. by destruct s, e. Qed.

Lemma update_state_wf id event now alive r :
  registry_wf r -> registry_wf (update_state id event now alive r).1.2.
Proof.
  intros Hwf. unfold update_state.
  destruct (goals r !! id) as [rec|] eqn:Hrec; [|done].
  destruct (committed rec) eqn:Hc; simpl; [|done].
  destruct (is_terminal_goal_state (state rec)) eqn:Hterm; [done|].
  destruct (next_goal_state _ _) as [next|] eqn:Hnext; [|done].
  pose proof (wf_records _ Hwf id rec Hrec) as Hr.
  apply record_wf_committed in Hr as (Hid & _ & Hexp & Hnd); [|done].
  assert (forall rec', committed rec' = true -> info rec' = info rec -> state rec' = next ->
    expiry_scheduled rec' = is_terminal_goal_state next ->
    pending_result_requests rec' = pending_result_requests rec ->
    registry_wf (with_goals r (<[id := rec']> (goals r)))) as Hins.
  { intros rec' Hc' Hi' Hs' He' Hp'. apply insert_wf; [done | |].
    - unfold record_wf. rewrite Hc', Hs', He', Hp', Hi'.
      split_and!; eauto using next_goal_state_not_unknown.
    - intros q Hq. left. exists rec. by rewrite Hp' in Hq. }
  destruct (is_terminal_goal_state next) eqn:Hn; simpl.
  - match goal with |- context [notify_expiry_locked ?a ?s] =>
      destruct (notify_expiry_locked_frame a s) as (Hg & Ht & _);
      destruct (notify_expiry_locked a s) end; simpl in *.
    refine (frame_wf (with_goals r _) _ Hg Ht _). by apply Hins.
  - apply Hins; simpl; congruence.
Qed.

Lemma register_result_request_wf id q now alive r :
  registry_wf r -> registry_wf (register_result_request id q now alive r).1.2.
Proof.
  intros Hwf. unfold register_result_request.
  pose proof (prune_wf now alive r Hwf) as Hwf'.
  destruct (prune_expired_locked now alive r) as [r' woken]; simpl in *.
  destruct (goals r' !! id) as [rec|] eqn:Hrec; [|done].
  destruct (committed rec) eqn:Hc; simpl; [|done].
  destruct (is_terminal_goal_state (state rec)) eqn:Hterm; [done|].
  destruct (existsb _ _) eqn:Hex; simpl; [done|].
  assert (forall id2 rec2, goals r' !! id2 = Some rec2 -> q ∉ pending_result_requests rec2) as Hno.
  { intros id2 rec2 H2 Hin. apply not_true_iff_false in Hex. apply Hex.
    apply existsb_exists. exists (id2, rec2). split.
    - by apply list_elem_of_In, elem_of_hash_order.
    - by apply bool_decide_eq_true. }
  pose proof (wf_records _ Hwf' id rec Hrec) as Hr.
  apply record_wf_committed in Hr as (Hid & Hs & Hexp & Hnd); [|done].
  apply insert_wf; [done | |].
  - unfold record_wf; simpl. split_and!; [done | done | done |].
    apply NoDup_app. split_and!; [done | | by apply NoDup_singleton].
    intros x Hx ->%list_elem_of_singleton. by eapply Hno.
  - simpl. intros q' [Hq'| ->%list_elem_of_singleton]%elem_of_app; [left; eauto | by right].
Qed.

Lemma exec_wf op r : registry_wf r -> registry_wf (exec op r).
Proof.
  intros Hwf. destruct op; simpl.
  - unfold reserve. destruct (goals r !! id) eqn:Hg; [done|].
    apply insert_wf; [done | done |]. simpl. intros q Hq. by apply not_elem_of_nil in Hq.
  - unfold rollback_reservation. case_match_goal; try done.
    destruct Hwf as [Ht Hr He]. split; simpl; [done | by apply map_Forall_delete |].
    intros id1 id2 rec1 rec2 q [_ H1]%lookup_delete_Some [_ H2]%lookup_delete_Some. by eapply He.
  - unfold commit. destruct (goals r !! goal_id i); [|done]. destruct (committed g); [done|].
    apply insert_wf; simpl; [done | | by intros q Hq; apply not_elem_of_nil in Hq].
    unfold record_wf; simpl; split_and!; [done | by destruct mode | by destruct mode | constructor].
  - by apply update_state_wf.
  - by apply register_result_request_wf.
  - destruct Hwf as [Ht Hr He]. split; simpl; [done | |].
    + intros id rec. rewrite lookup_fmap_Some. intros (rec0 & <- & H0).
      specialize (Hr id rec0 H0). unfold record_wf, drop_request in *; simpl.
      destruct (committed rec0); [|by subst]. destruct Hr as (? & ? & ? & ?).
      split_and!; try done. by apply NoDup_filter.
    + intros id1 id2 rec1 rec2 q'. rewrite !lookup_fmap_Some.
      intros (rec3 & <- & H3) (rec4 & <- & H4) [_ H5]%list_elem_of_filter [_ H6]%list_elem_of_filter.
      by eapply He.
  - unfold take_pending_result_requests. case_match_goal; try done.
    apply insert_wf; [done | |]; simpl.
    + pose proof (wf_records _ Hwf _ _ Heqo) as Hr.
      apply record_wf_committed in Hr as (? & ? & ? & ?); [|done].
      unfold record_wf, clear_requests; simpl. case_match; [|congruence].
      split_and!; try done. constructor.
    + intros q Hq. by apply not_elem_of_nil in Hq.
  - unfold status_snapshot. pose proof (prune_wf now alive r Hwf).
    destruct (prune_expired_locked now alive r); simpl in *; done.
  - unfold take_expired_goals. pose proof (prune_wf now alive r Hwf).
    destruct (prune_expired_locked now alive r); simpl in *.
    by apply (frame_wf a).
  - unfold observe_expiry. destruct (existsb _ _); [done|].
    by apply (frame_wf r).
Qed.

(** in every history of the registry, whatever the clock and the map
    order, each committed goal is filed under its own id, is never in the
    [Unknown] state, has its expiry scheduled exactly when it is terminal, and
    every result request waits for at most one goal, once. *)
Theorem registry_invariant timeout ops : registry_wf (run exec ops (make_registry timeout)).
Proof. apply run_invariant; [exact exec_wf | apply make_registry_wf]. Qed.

(** ** Life of one goal *)

(** How one operation may change a committed record that stays. *)
Definition record_step (op : GoalOp) (id : GoalId) (rec rec' : GoalRecord) : Prop :=
  committed rec' = true /\ info rec' = info rec /\
  ((state rec' = state rec /\ terminal_time rec' = terminal_time rec) \/
   exists event now alive, op = Op_update id event now alive /\
     next_goal_state (state rec) event = Some (state rec') /\
     (is_terminal_goal_state (state rec') = true -> terminal_time rec' = now)).

Definition goal_step (op : GoalOp) (r : ActionGoalRegistry) (id : GoalId) (rec : GoalRecord) : Prop :=
  (exists rec', goals (exec op r) !! id = Some rec' /\ record_step op id rec rec') \/
  (goals (exec op r) !! id = None /\ is_terminal_goal_state (state rec) = true /\
   (exists now, prune_time op = Some now /\ result_timeout r <= now - terminal_time rec) /\
   id ∈ expired_notifications (exec op r) ++ reported_by op r).

Lemma record_step_same op id rec : committed rec = true -> record_step op id rec rec.
Proof. unfold record_step. auto. Qed.

(** Pruning keeps a record or reports it as expired. *)
Lemma prune_step now alive r id rec :
  registry_wf r -> goals r !! id = Some rec -> committed rec = true ->
  let r' := (prune_expired_locked now alive r).1 in
  goals r' !! id = Some rec \/
  (goals r' !! id = None /\ is_terminal_goal_state (state rec) = true /\
   result_timeout r <= now - terminal_time rec /\ id ∈ expired_notifications r').
Proof.
  intros Hwf Hrec Hc r'. destruct (prune_spec now alive r) as (_ & Hn & Hg). fold r' in Hn, Hg.
  destruct (lapsed (result_timeout r) now rec) eqn:Hl.
  - right. assert (id ∈ lapsed_ids r now) as Hin by (apply elem_of_lapsed_ids; eauto).
    split_and!.
    + destruct (goals r' !! id) as [rec'|] eqn:H'; [|done].
      apply Hg in H' as [H' Hl']. congruence.
    + pose proof (wf_records _ Hwf id rec Hrec) as Hr.
      apply record_wf_committed in Hr as (_ & _ & <- & _); [|done].
      unfold lapsed in Hl. by destruct (committed rec), (expiry_scheduled rec).
    + unfold lapsed in Hl. destruct (committed rec), (expiry_scheduled rec); try done.
      simpl in Hl. apply Z.geb_le in Hl. lia.
    + rewrite Hn. apply elem_of_app. by right.
  - left. by apply Hg.
Qed.

(** The step of an operation that only writes at [id']. *)
Lemma write_step op r r' id id' rec rec' :
  goals (exec op r) = <[id' := rec']> (goals r') ->
  goals r' !! id = Some rec -> committed rec = true ->
  (id = id' -> record_step op id rec rec') ->
  exists rec2, goals (exec op r) !! id = Some rec2 /\ record_step op id rec rec2.
Proof.
  intros -> Hrec Hc Hstep. destruct (decide (id' = id)) as [->|Hne].
  - exists rec'. rewrite lookup_insert_eq. auto.
  - exists rec. rewrite lookup_insert_ne by done. auto using record_step_same.
Qed.

Lemma update_goal_step id' event now alive r id rec :
  goals r !! id = Some rec -> committed rec = true ->
  goal_step (Op_update id' event now alive) r id rec.
Proof.
  intros Hrec Hc. left.
  assert (goals (exec (Op_update id' event now alive) r) = goals r ->
    exists rec2, goals (exec (Op_update id' event now alive) r) !! id = Some rec2 /\
      record_step (Op_update id' event now alive) id rec rec2) as Hsame.
  { intros ->. eauto using record_step_same. }
  unfold exec, update_state in *.
  destruct (goals r !! id') as [rec1|] eqn:Hrec1; [|by apply Hsame].
  destruct (committed rec1) eqn:Hc1; simpl in *; [|by apply Hsame].
  destruct (is_terminal_goal_state (state rec1)) eqn:Hterm; [by apply Hsame|].
  destruct (next_goal_state (state rec1) event) as [next|] eqn:Hnext; [|by apply Hsame].
  clear Hsame. destruct (decide (id' = id)) as [->|Hne].
  - simplify_eq. destruct (is_terminal_goal_state next) eqn:Hn; simpl.
    + match goal with |- context [notify_expiry_locked ?a ?s] =>
        destruct (notify_expiry_locked_frame a s) as (Hg & _);
        destruct (notify_expiry_locked a s) end; simpl in *.
      rewrite Hg, lookup_insert_eq. eexists; split; [done|].
      split_and!; [done | done | right]. eexists _, _, _. split_and!; done.
    + rewrite lookup_insert_eq. eexists; split; [done|].
      split_and!; [done | done | right]. eexists _, _, _. split_and!; [done | done | simpl; congruence].
  - exists rec. split; [|by apply record_step_same].
    destruct (is_terminal_goal_state next) eqn:Hn; simpl.
    + match goal with |- context [notify_expiry_locked ?a ?s] =>
        destruct (notify_expiry_locked_frame a s) as (Hg & _);
        destruct (notify_expiry_locked a s) end; simpl in *.
      by rewrite Hg, lookup_insert_ne.
    + by rewrite lookup_insert_ne.
Qed.

Lemma register_goal_step id' q now alive r id rec :
  registry_wf r -> goals r !! id = Some rec -> committed rec = true ->
  goal_step (Op_register id' q now alive) r id rec.
Proof.
  intros Hwf Hrec Hc.
  destruct (prune_step now alive r id rec Hwf Hrec Hc) as [Hk | (Hg & Hterm & Hlate & Hq)];
    unfold goal_step; simpl; unfold register_result_request;
    destruct (prune_expired_locked now alive r) as [r' woken]; simpl in *.
  - left. destruct (decide (id' = id)) as [->|Hne].
    + rewrite Hk, Hc; simpl. repeat case_match; simpl.
      1,2: exists rec; auto using record_step_same.
      rewrite lookup_insert_eq. eexists; split; [done|]. unfold record_step; simpl. auto.
    + exists rec. split; [|by apply record_step_same].
      repeat case_match; simpl; rewrite ?lookup_insert_ne by done; done.
  - right. rewrite app_nil_r.
    assert (forall (res : Result ResultRequestDisposition * ActionGoalRegistry * list nat),
      goals res.1.2 !! id = None -> expired_notifications res.1.2 = expired_notifications r' ->
      goals res.1.2 !! id = None /\ is_terminal_goal_state (state rec) = true /\
      (exists now0, Some now = Some now0 /\ result_timeout r <= now0 - terminal_time rec) /\
      id ∈ expired_notifications res.1.2) as Hwrap.
    { intros res H1 H2. rewrite H2. eauto 10. }
    apply Hwrap; repeat case_match; simpl; try done.
    destruct (decide (id' = id)) as [->|Hne]; [congruence | by rewrite lookup_insert_ne].
Qed.

Lemma exec_goal_step op r id rec :
  registry_wf r -> goals r !! id = Some rec -> committed rec = true -> goal_step op r id rec.
Proof.
  intros Hwf Hrec Hc.
  destruct op; try (by apply update_goal_step); try (by apply register_goal_step);
    unfold goal_step; simpl.
  - left. exists rec. unfold reserve. split; [|by apply record_step_same].
    destruct (goals r !! id0) eqn:Hg; [done|]. simpl. rewrite lookup_insert_ne; congruence.
  - left. exists rec. unfold rollback_reservation. split; [|by apply record_step_same].
    destruct (goals r !! id0) as [rec0|] eqn:Hg; [|done].
    destruct (committed rec0) eqn:Hc0; [done|]. simpl. rewrite lookup_delete_ne; congruence.
  - left. exists rec. unfold commit. split; [|by apply record_step_same].
    destruct (goals r !! goal_id i) as [rec0|] eqn:Hg; [|done].
    destruct (committed rec0) eqn:Hc0; [done|]. simpl. rewrite lookup_insert_ne; congruence.
  - left. exists (drop_request q rec). rewrite lookup_fmap, Hrec. split; [done|].
    unfold record_step; simpl. auto.
  - left. unfold take_pending_result_requests.
    destruct (goals r !! id0) as [rec0|] eqn:Hg; [|by eauto using record_step_same].
    destruct (committed rec0) eqn:Hc0; [|by eauto using record_step_same]. simpl.
    destruct (decide (id0 = id)) as [->|Hne].
    + simplify_eq. rewrite lookup_insert_eq. eexists; split; [done|].
      unfold record_step; simpl; auto.
    + rewrite lookup_insert_ne by done. eauto using record_step_same.
  - unfold status_snapshot.
    destruct (prune_step now alive r id rec Hwf Hrec Hc) as [Hk | (Hg & ? & ? & ?)];
      destruct (prune_expired_locked now alive r) as [r' woken]; simpl in *.
    + left. eauto using record_step_same.
    + right. rewrite app_nil_r. eauto 10.
  - unfold take_expired_goals.
    destruct (prune_step now alive r id rec Hwf Hrec Hc) as [Hk | (Hg & ? & ? & ?)];
      destruct (prune_expired_locked now alive r) as [r' woken]; simpl in *.
    + left. eauto using record_step_same.
    + right. eauto 10.
  - left. exists rec. split; [|by apply record_step_same].
    unfold observe_expiry. by destruct (existsb _ _).
Qed.

(** a committed goal keeps its information and moves only along the goal
    state machine, by an [update_state] of its own id (a terminal state
    moves no more); it disappears only by pruning, when it is terminal and the
    result timeout has passed since it became so, and its id is then queued
    for [take_expired_goals] or reported by it. *)
Theorem goal_step_sound op r id rec :
  registry_wf r -> goals r !! id = Some rec -> committed rec = true ->
  goal_step op r id rec /\
  (is_terminal_goal_state (state rec) = true ->
     forall rec', goals (exec op r) !! id = Some rec' ->
       state rec' = state rec /\ terminal_time rec' = terminal_time rec).
Proof.
  intros Hwf Hrec Hc.
  pose proof (exec_goal_step op r id rec Hwf Hrec Hc) as Hstep.
  split; [done|]. intros Hterm rec' Hrec'.
  destruct Hstep as [(rec2 & H2 & _ & _ & [[? ?]|(ev & now & alive & _ & Hn & _)]) | (Hno & _)].
  - simplify_eq. done.
  - apply next_goal_state_live in Hn. congruence.
  - congruence.
Qed.

(** ** Accounting *)

Definition committed_ids (g : GoalMap) : list GoalId :=
  (filter (fun kv => committed kv.2 = true) (map_to_list g)).*1.

Lemma elem_of_committed_ids g id :
  id ∈ committed_ids g <-> exists rec, g !! id = Some rec /\ committed rec = true.
Proof.
  unfold committed_ids. rewrite list_elem_of_fmap. split.
  - intros ([k rec] & -> & [Hc Hin]%list_elem_of_filter). exists rec.
    by rewrite elem_of_map_to_list in Hin.
  - intros (rec & Hr & Hc). exists (id, rec). split; [done|].
    apply list_elem_of_filter. by rewrite elem_of_map_to_list.
Qed.

Lemma NoDup_committed_ids g : NoDup (committed_ids g).
Proof.
  unfold committed_ids. generalize (NoDup_fst_map_to_list g).
  induction (map_to_list g) as [|[k rec] l IH]; simpl; [constructor|].
  rewrite NoDup_cons. intros [Hk Hl]. rewrite filter_cons. case_decide; simpl; [|auto].
  constructor; [|auto]. intros ([k' rec'] & -> & [_ Hin]%list_elem_of_filter)%list_elem_of_fmap.
  apply Hk. by apply (list_elem_of_fmap_2 fst) in Hin.
Qed.

(** Writing a record of the same commitment keeps the committed ids. *)
Lemma committed_ids_same g g' :
  (forall id, committed <$> g' !! id = committed <$> g !! id) -> committed_ids g' ≡ₚ committed_ids g.
Proof.
  intros Heq. apply NoDup_Permutation; [apply NoDup_committed_ids..|].
  intros id. rewrite !elem_of_committed_ids. specialize (Heq id).
  split; intros (rec & Hr & Hc); rewrite Hr in Heq; simpl in Heq.
  - destruct (g !! id) as [rec2|]; simpl in Heq; [|done]. exists rec2. split; congruence.
  - destruct (g' !! id) as [rec2|]; simpl in Heq; [|done]. exists rec2. split; congruence.
Qed.

Lemma committed_ids_insert g id rec rec' :
  g !! id = Some rec -> committed rec = committed rec' ->
  committed_ids (<[id := rec']> g) ≡ₚ committed_ids g.
Proof.
  intros Hg Hc. apply committed_ids_same. intros k. destruct (decide (id = k)) as [->|].
  - rewrite lookup_insert_eq, Hg. simpl. congruence.
  - by rewrite lookup_insert_ne.
Qed.

Lemma committed_ids_prune now alive r :
  committed_ids (goals r) ≡ₚ
  committed_ids (goals (prune_expired_locked now alive r).1) ++ lapsed_ids r now.
Proof.
  destruct (prune_spec now alive r) as (_ & _ & Hg).
  apply NoDup_Permutation; [apply NoDup_committed_ids | apply NoDup_app; split_and! |].
  - apply NoDup_committed_ids.
  - intros id. rewrite elem_of_committed_ids, elem_of_lapsed_ids.
    intros (rec & [H1 H2]%Hg & _) (rec' & H3 & H4). congruence.
  - apply NoDup_lapsed_ids.
  - intros id. rewrite elem_of_app, !elem_of_committed_ids, elem_of_lapsed_ids. split.
    + intros (rec & Hr & Hc). destruct (lapsed (result_timeout r) now rec) eqn:Hl; [eauto|].
      left. exists rec. by rewrite Hg.
    + intros [(rec & [Hr _]%Hg & Hc)|(rec & Hr & Hl)]; [eauto|]. exists rec. split; [done|].
      unfold lapsed in Hl. by destruct (committed rec).
Qed.

(** What an operation does to the goals accounted for. *)
Definition accounted (r : ActionGoalRegistry) : list GoalId :=
  committed_ids (goals r) ++ expired_notifications r.

Lemma accounted_frame r r' :
  committed_ids (goals r') ≡ₚ committed_ids (goals r) ->
  expired_notifications r' = expired_notifications r -> accounted r' ≡ₚ accounted r.
Proof. unfold accounted. by intros -> ->. Qed.

Lemma accounted_prune now alive r : accounted (prune_expired_locked now alive r).1 ≡ₚ accounted r.
Proof.
  unfold accounted. destruct (prune_spec now alive r) as (_ & Hn & _).
  rewrite (committed_ids_prune now alive r), Hn. solve_Permutation.
Qed.

Lemma accounted_update id event now alive r :
  accounted (update_state id event now alive r).1.2 ≡ₚ accounted r.
Proof.
  unfold update_state. destruct (goals r !! id) as [rec|] eqn:Hg; [|done].
  destruct (committed rec) eqn:Hc; [|done]. simpl.
  destruct (is_terminal_goal_state (state rec)); [done|].
  destruct (next_goal_state _ _) as [next|]; [|done].
  destruct (is_terminal_goal_state next); simpl.
  - match goal with |- context [notify_expiry_locked ?a ?s] =>
      destruct (notify_expiry_locked_frame a s) as (Hg' & _ & Hn');
      destruct (notify_expiry_locked a s) end; simpl in *.
    apply accounted_frame; [|done]. rewrite Hg'. by apply (committed_ids_insert _ _ rec).
  - apply accounted_frame; [|done]. by apply (committed_ids_insert _ _ rec).
Qed.

Lemma accounted_register id q now alive r :
  accounted (register_result_request id q now alive r).1.2 ≡ₚ accounted r.
Proof.
  rewrite <- (accounted_prune now alive r). unfold register_result_request.
  destruct (prune_expired_locked now alive r) as [r' woken]; simpl.
  destruct (goals r' !! id) as [rec|] eqn:Hg; [|done].
  destruct (committed rec) eqn:Hc; [|done]. simpl.
  destruct (is_terminal_goal_state (state rec)); [done|].
  destruct (existsb _ _); [done|]. apply accounted_frame; [|done].
  by apply (committed_ids_insert _ _ rec).
Qed.

Lemma accounted_commit i mode r :
  accounted (commit i mode r).2 ≡ₚ (if (commit i mode r).1 then [goal_id i] else []) ++ accounted r.
Proof.
  unfold commit, accounted. destruct (goals r !! goal_id i) as [rec|] eqn:Hg; [|done].
  destruct (committed rec) eqn:Hc; [done|]. simpl. rewrite app_comm_cons.
  f_equiv. apply NoDup_Permutation; [apply NoDup_committed_ids | constructor |].
  - rewrite elem_of_committed_ids. intros (rec2 & H2 & Hc2). congruence.
  - apply NoDup_committed_ids.
  - intros id. rewrite elem_of_cons, !elem_of_committed_ids.
    destruct (decide (id = goal_id i)) as [->|Hne].
    + rewrite lookup_insert_eq. split; [by left | eauto].
    + rewrite lookup_insert_ne by done. split; [by right | by intros [?|?]].
Qed.

Lemma accounted_exec op r :
  accounted (exec op r) ++ reported_by op r ≡ₚ accepted_by op r ++ accounted r.
Proof.
  destruct op; simpl; rewrite ?app_nil_r.
  - unfold reserve. destruct (goals r !! id) eqn:Hg; [done|]. apply accounted_frame; [|done].
    simpl. apply NoDup_Permutation; [apply NoDup_committed_ids.. |].
    intros k. rewrite !elem_of_committed_ids. destruct (decide (id = k)) as [->|].
    + rewrite lookup_insert_eq, Hg. split; intros (? & [= <-] & ?); done.
    + by rewrite lookup_insert_ne.
  - unfold rollback_reservation. destruct (goals r !! id) as [rec|] eqn:Hg; [|done].
    destruct (committed rec) eqn:Hc; [done|]. apply accounted_frame; [|done].
    simpl. apply NoDup_Permutation; [apply NoDup_committed_ids.. |].
    intros k. rewrite !elem_of_committed_ids. destruct (decide (id = k)) as [->|].
    + rewrite lookup_delete_eq, Hg. split; intros (? & ? & ?); congruence.
    + by rewrite lookup_delete_ne.
  - apply accounted_commit.
  - apply accounted_update.
  - apply accounted_register.
  - apply accounted_frame; [|done]. simpl. apply committed_ids_same.
    intros k. rewrite lookup_fmap. by destruct (goals r !! k).
  - unfold take_pending_result_requests. destruct (goals r !! id) as [rec|] eqn:Hg; [|done].
    destruct (committed rec) eqn:Hc; [|done]. apply accounted_frame; [|done].
    by apply (committed_ids_insert _ _ rec).
  - unfold status_snapshot. rewrite <- (accounted_prune now alive r).
    by destruct (prune_expired_locked now alive r).
  - unfold take_expired_goals. rewrite <- (accounted_prune now alive r).
    destruct (prune_expired_locked now alive r). simpl. unfold accounted; simpl.
    by rewrite app_nil_r.
  - apply accounted_frame; unfold observe_expiry; by destruct (existsb _ _).
Qed.

(** C9: no goal is lost and none is reported twice: in every history, the
    goals accepted so far are, counted with multiplicity, the goals the
    registry still holds, those queued as expired and those already
    reported. *)
Theorem goal_conservation timeout ops :
  let h := run history_step ops (new_history timeout) in
  accepted_log h ≡ₚ
    committed_ids (goals (registry h)) ++ expired_notifications (registry h) ++ reported_log h.
Proof.
  apply run_invariant; [|done]. intros op h Hh. unfold history_step; simpl.
  rewrite Hh. rewrite app_assoc. fold (accounted (registry h)).
  rewrite (app_assoc _ _ (reported_log h ++ _)). fold (accounted (exec op (registry h))).
  transitivity ((accepted_by op (registry h) ++ accounted (registry h)) ++ reported_log h);
    [solve_Permutation|].
  rewrite <- accounted_exec. solve_Permutation.
Qed.

(** ** Cancel selection *)

(** The four documented forms of a cancel request, as the header of
    [CancelGoalCriteria] states them. *)
Inductive cancels (c : CancelGoalCriteria) (i : GoalInfo) : Prop :=
  | cancels_all :
      is_zero_goal_id (criteria_goal_id c) = true -> criteria_stamp c = 0 -> cancels c i
  | cancels_before :
      criteria_stamp c <> 0 -> accepted_stamp i <= criteria_stamp c -> cancels c i
  | cancels_exactly :
      is_zero_goal_id (criteria_goal_id c) = false -> goal_id i = criteria_goal_id c -> cancels c i.

Lemma cancel_selected_spec c rec :
  cancel_selected c rec = true <->
  committed rec = true /\ is_cancelable_goal_state (state rec) = true /\ cancels c (info rec).
Proof.
  unfold cancel_selected.
  destruct (committed rec), (is_cancelable_goal_state (state rec)); simpl;
    try (split; [done | by intros (? & ? & ?)]).
  destruct (is_zero_goal_id (criteria_goal_id c)) eqn:Hz; simpl;
    destruct (Z.eqb_spec (criteria_stamp c) 0) as [H0|H0]; simpl.
  - split; [|done]. intros _. split_and!; try done. by apply cancels_all.
  - split.
    + intros Hle%Z.leb_le. split_and!; try done. by apply cancels_before.
    + intros (_ & _ & [? ?|? ?|? ?]); [done | by apply Z.leb_le | congruence].
  - rewrite bool_decide_eq_true. split.
    + intros Heq. split_and!; try done. by apply cancels_exactly.
    + intros (_ & _ & [? ?|? ?|? ?]); [congruence | done | done].
  - rewrite orb_true_iff, bool_decide_eq_true, Z.leb_le. split.
    + intros [Heq|Hle]; split_and!; try done; [by apply cancels_exactly | by apply cancels_before].
    + intros (_ & _ & [? ?|? ?|? ?]); [done | by right | by left].
Qed.

#[local] Instance stamp_le_total : Total stamp_le.
Proof. intros a b. unfold stamp_le. lia. Qed.

#[local] Instance stamp_le_trans : Transitive stamp_le.
Proof. intros a b c. unfold stamp_le. lia. Qed.

(** a cancel request selects, in the order of their accept stamps,
    exactly the cancelable goals one of the documented forms covers (all of
    them, those accepted up to the bound, the named one), each once; a
    negative bound is refused. *)
Theorem select_cancel_goals_spec c r :
  registry_wf r ->
  match select_cancel_goals c r with
  | success l =>
      0 <= criteria_stamp c /\ StronglySorted stamp_le l /\ NoDup l /\
      (forall i, i ∈ l <-> exists rec, goals r !! goal_id i = Some rec /\ info rec = i /\
         committed rec = true /\ is_cancelable_goal_state (state rec) = true /\ cancels c i)
  | failure e => error_code e = InvalidArgument /\ criteria_stamp c < 0
  end.
Proof.
  intros Hwf. unfold select_cancel_goals. case_cmp; simpl; [done|].
  set (f := fun kv : GoalId * GoalRecord => _).
  assert (forall k rec, goals r !! k = Some rec -> committed rec = true -> goal_id (info rec) = k)
    as Hid.
  { intros k rec Hk Hc. pose proof (wf_records _ Hwf k rec Hk) as Hr.
    by apply record_wf_committed in Hr as (? & _); [|done]. }
  split_and!; [done | apply StronglySorted_merge_sort; apply _ | |].
  - rewrite merge_sort_Permutation.
    assert (forall k rec, (k, rec) ∈ hash_order (goals r) -> goals r !! k = Some rec) as Hin
      by (intros; by apply elem_of_hash_order).
    generalize (NoDup_hash_order (goals r)) Hin. clear Hin.
    induction (hash_order (goals r)) as [|[k rec] l IH]; simpl; [constructor|].
    rewrite NoDup_cons. intros [Hk Hl] Hin. specialize (IH Hl ltac:(set_solver)).
    destruct (cancel_selected c rec) eqn:Hsel; [|exact IH].
    apply cancel_selected_spec in Hsel as (Hc & _).
    constructor; [|exact IH]. rewrite list_elem_of_omap. intros ([k' rec'] & Hin' & Hf).
    simpl in Hf. destruct (cancel_selected c rec') eqn:Hsel'; [|done]. simplify_eq.
    apply cancel_selected_spec in Hsel' as (Hc' & _). apply Hk.
    assert (k = k') as ->.
    { rewrite <- (Hid k rec), <- (Hid k' rec') by (try apply Hin; set_solver). congruence. }
    by apply (list_elem_of_fmap_2 fst) in Hin'.
  - intros i. rewrite merge_sort_Permutation, list_elem_of_omap. split.
    + intros ([k rec] & Hk & Hf). simpl in Hf. destruct (cancel_selected c rec) eqn:Hsel; [|done].
      simplify_eq. apply cancel_selected_spec in Hsel as (Hc & Hs & Hcan).
      apply elem_of_hash_order in Hk. exists rec. by rewrite (Hid k rec).
    + intros (rec & Hk & <- & Hc & Hs & Hcan). exists (goal_id (info rec), rec).
      split; [by apply elem_of_hash_order|]. simpl.
      assert (cancel_selected c rec = true) as -> by by apply cancel_selected_spec. done.
Qed.

(** ** Expiry *)

Lemma expiry_ready_spec now r :
  expiry_ready now r = true <-> expired_notifications r ++ lapsed_ids r now <> [].
Proof.
  unfold expiry_ready. destruct (expired_notifications r); [|done]. simpl.
  rewrite existsb_exists. split.
  - intros ([k rec] & Hin & Hl) Hnil. rewrite expired_locked_lapsed in Hl.
    apply list_elem_of_In, elem_of_hash_order in Hin.
    assert (k ∈ lapsed_ids r now) as Hk by (apply elem_of_lapsed_ids; eauto).
    rewrite Hnil in Hk. by apply not_elem_of_nil in Hk.
  - destruct (lapsed_ids r now) as [|k l] eqn:Hl; [done|]. intros _.
    assert (k ∈ lapsed_ids r now) as Hk by (rewrite Hl; left).
    apply elem_of_lapsed_ids in Hk as (rec & Hg & Hlap). exists (k, rec).
    rewrite expired_locked_lapsed. split; [|done]. by apply list_elem_of_In, elem_of_hash_order.
Qed.

Lemma earliest_expiry_fold add timeout entries acc d :
  fold_left (earliest_step add timeout) entries acc = Some d ->
  (acc = Some d \/ exists k rec, (k, rec) ∈ entries /\ committed rec = true /\
     expiry_scheduled rec = true /\ d = add (terminal_time rec) timeout) /\
  (forall e, acc = Some e -> d <= e) /\
  (forall k rec, (k, rec) ∈ entries -> committed rec = true -> expiry_scheduled rec = true ->
     d <= add (terminal_time rec) timeout).
Proof.
  revert acc. induction entries as [|[k rec] entries IH]; simpl; intros acc Hfold.
  - subst. split_and!; [by left | by intros ? [= ->] | by intros ?? H%not_elem_of_nil].
  - apply IH in Hfold as (Hsrc & Hle & Hall). clear IH. unfold earliest_step in *; simpl in *.
    destruct (committed rec && expiry_scheduled rec) eqn:Hce;
      rewrite <- negb_andb, Hce in *; simpl in *.
    + apply andb_true_iff in Hce as [Hc He]. set (dl := add (terminal_time rec) timeout) in *.
      assert (d <= dl /\ (forall e, acc = Some e -> d <= e) /\
        ((if acc is Some e then if dl <? e then Some dl else acc else Some dl) = Some d ->
           acc = Some d \/ d = dl)) as (Hdl & Hacc & Hcase).
      { destruct acc as [e|]; [destruct (Z.ltb_spec dl e)|]; specialize (Hle _ eq_refl);
          (split_and!; [lia | intros e1 He1; simplify_eq; lia | intros He1; simplify_eq; auto]). }
      split_and!; [| done |].
      * destruct Hsrc as [Hsrc|(k' & rec' & Hin & ?)].
        -- destruct (Hcase Hsrc) as [?| ->]; [by left|]. right. exists k, rec. by split_and!; [left|..].
        -- right. exists k', rec'. split; [by right | done].
      * intros k' rec' [[= -> ->]|Hin]%elem_of_cons ??; [done | eauto].
    + split_and!; [|done|].
      * destruct Hsrc as [?|(k' & rec' & ? & ?)]; [by left|].
        right; exists k', rec'; split; [by right | done].
      * intros k' rec' [[= -> ->]|Hin]%elem_of_cons H1 H2; [by rewrite H1, H2 in Hce | eauto].
Qed.

Lemma earliest_step_some add timeout acc kv : is_Some acc -> is_Some (earliest_step add timeout acc kv).
Proof. unfold earliest_step. intros [e ->]. repeat case_match; eauto. Qed.

Lemma earliest_expiry_None add timeout entries acc :
  fold_left (earliest_step add timeout) entries acc = None ->
  forall k rec, (k, rec) ∈ entries -> committed rec = true -> expiry_scheduled rec = false.
Proof.
  intros Hfold k rec Hin Hc. destruct (expiry_scheduled rec) eqn:He; [|done]. exfalso.
  assert (forall l acc0, is_Some acc0 -> is_Some (fold_left (earliest_step add timeout) l acc0)) as Hsome.
  { induction l; simpl; eauto using earliest_step_some. }
  apply list_elem_of_split in Hin as (l1 & l2 & ->). rewrite fold_left_app in Hfold. simpl in Hfold.
  destruct (Hsome l2 (earliest_step add timeout (fold_left (earliest_step add timeout) l1 acc) (k, rec)))
    as [? Hx]; [|congruence].
  unfold earliest_step at 1; simpl. rewrite Hc, He; simpl. repeat case_match; eauto.
Qed.

(** the waiting side and the taking side agree: [expiry_ready] says yes
    exactly when [take_expired_goals] would return a goal at that instant,
    and, for a registry with nothing queued, exactly when the deadline
    [earliest_expiry] gives has come.  [take_expired_goals] returns what was
    queued, then what lapsed, and leaves nothing to take at that instant. *)
Theorem expiry_agreement now alive r :
  (expiry_ready now r = true <->
     result_value (take_expired_goals now alive r).1.1 <> Some []) /\
  result_value (take_expired_goals now alive r).1.1 =
     Some (expired_notifications r ++ lapsed_ids r now) /\
  expiry_ready now (take_expired_goals now alive r).1.2 = false /\
  (expired_notifications r = [] ->
     (expiry_ready now r = true <->
        exists d, earliest_expiry Z.add r = Some d /\ d <= now)).
Proof.
  assert (result_value (take_expired_goals now alive r).1.1 =
    Some (expired_notifications r ++ lapsed_ids r now)) as Htake.
  { unfold take_expired_goals. destruct (prune_spec now alive r) as (_ & Hn & _).
    destruct (prune_expired_locked now alive r); simpl in *. by rewrite Hn. }
  split_and!; [rewrite Htake, expiry_ready_spec | done | |].
  - split; [by intros H [= ?] | intros H Hn; apply H; by rewrite Hn].
  - apply not_true_iff_false. rewrite expiry_ready_spec. intros H. apply H. clear H.
    unfold take_expired_goals. destruct (prune_spec now alive r) as (Ht & _ & Hg).
    destruct (prune_expired_locked now alive r) as [r' ?]; simpl in *.
    destruct (lapsed_ids (with_notifications r' []) now) as [|k l0] eqn:Hl; [done|].
    assert (k ∈ lapsed_ids (with_notifications r' []) now) as Hk by (rewrite Hl; left).
    apply elem_of_lapsed_ids in Hk as (rec & [_ Hno]%Hg & Hlap). simpl in Hlap. congruence.
  - intros Hn. rewrite expiry_ready_spec, Hn. simpl. unfold earliest_expiry. split.
    + intros Hne. destruct (lapsed_ids r now) as [|k l] eqn:Hl; [done|].
      assert (k ∈ lapsed_ids r now) as Hk by (rewrite Hl; left).
      apply elem_of_lapsed_ids in Hk as (rec & Hg & Hlap).
      apply elem_of_hash_order in Hg. unfold lapsed in Hlap.
      destruct (committed rec) eqn:Hc, (expiry_scheduled rec) eqn:He; try done. simpl in Hlap.
      apply Z.geb_le in Hlap.
      destruct (fold_left _ _ _) as [d|] eqn:Hd.
      * exists d. split; [done|]. apply earliest_expiry_fold in Hd as (_ & _ & Hall).
        specialize (Hall k rec Hg Hc He). lia.
      * pose proof (earliest_expiry_None _ _ _ _ Hd k rec Hg Hc). congruence.
    + intros (d & Hd & Hle) Hnil. apply earliest_expiry_fold in Hd as (Hsrc & _ & _).
      destruct Hsrc as [?|(k & rec & Hin & Hc & He & ->)]; [done|].
      assert (k ∈ lapsed_ids r now) as Hk.
      { apply elem_of_lapsed_ids. exists rec. rewrite <- elem_of_hash_order. split; [done|].
        unfold lapsed. rewrite Hc, He. simpl. apply Z.geb_le. lia. }
      rewrite Hnil in Hk. by apply not_elem_of_nil in Hk.
Qed.
End Histories.

(** ** Concrete runs *)

Definition goal_a : GoalId := MkGoalId (replicate 16 1).
Definition goal_b : GoalId := MkGoalId (replicate 16 2).

(** Two goals, the first of them succeeded at time 10 with a timeout of 5. *)
Definition sample_ops : list GoalOp :=
  [Op_reserve goal_a; Op_commit (MkGoalInfo goal_a 7) Mode_Execute;
   Op_reserve goal_b; Op_commit (MkGoalInfo goal_b 3) Mode_Defer;
   Op_update goal_a Ev_Succeed 10 (fun _ => true)].

Definition sample_registry : ActionGoalRegistry := run exec sample_ops (make_registry 5).

Definition sample_record : GoalRecord :=
  MkGoalRecord (MkGoalInfo goal_a 7) Succeeded true true 10 [].

Lemma sample_registry_wf : registry_wf sample_registry.
Proof. unfold sample_registry. apply run_invariant; [exact exec_wf | apply make_registry_wf]. Qed.

Lemma goal_step_sound_witness :
  goal_step (Op_take_expired 15 (fun _ => true)) sample_registry goal_a sample_record.
Proof.
  apply (goal_step_sound (Op_take_expired 15 (fun _ => true)) sample_registry goal_a sample_record).
  - exact sample_registry_wf.
  - vm_compute. reflexivity.
  - reflexivity.
Defined.

Example sample_expires :
  goals (exec (Op_take_expired 15 (fun _ => true)) sample_registry) !! goal_a = None /\
  reported_by (Op_take_expired 15 (fun _ => true)) sample_registry = [goal_a] /\
  is_Some (goals (exec (Op_take_expired 14 (fun _ => true)) sample_registry) !! goal_a).
Proof. split_and!; vm_compute; [done | done | eauto]. Qed.

Lemma select_cancel_goals_spec_witness :
  match select_cancel_goals (MkCancelGoalCriteria (MkGoalId (replicate 16 0)) 0) sample_registry with
  | success l => l = [MkGoalInfo goal_b 3] /\ NoDup l
  | failure _ => False
  end.
Proof.
  pose proof (select_cancel_goals_spec (MkCancelGoalCriteria (MkGoalId (replicate 16 0)) 0)
    sample_registry sample_registry_wf) as H.
  revert H. vm_compute. intros (_ & _ & Hnd & _). split; [reflexivity | exact Hnd].
Defined.
