(* ===== verification/Waitables.v ===== *)
(** * Waitables: what a wait set observes, and its registrations

    Models include/dmw/waitable_registration.hpp, wait_result.hpp (the detail
    bits), src/impl/guard_condition_impl, reader_wait_state.hpp and
    [Registration] of src/impl/wait_set_impl.hpp.  The waitables live in one
    [Store], because a wait set, its registrations and the owner of a waitable
    share them.  Fast DDS calls on a reader's condition succeed as [Dds] says.

    The waitable locks are not recursive: a thread that locks a mutex it holds
    never returns.  Where the code can do that the result is an [option], and
    [None] is the call that never returns. *)

From S2P Require Import Prelude.
From stdpp Require Import gmap.
Local Open Scope Z_scope.

(** ** Kinds and detail bits *)

Inductive WaitableKind :=
  | Subscriber | Client | Server | Timer | ActionClient | ActionServer | Event | GraphEvent
  | GuardCondition.

#[export] Instance WaitableKind_eq_dec : EqDecision WaitableKind.
Proof. solve_decision. Defined.

Record WaitableRegistration := MkToken {
  token_wait_set_id : Z; token_registration_id : Z; token_kind : WaitableKind }.

#[export] Instance WaitableRegistration_eq_dec : EqDecision WaitableRegistration.
Proof. solve_decision. Defined.

Definition no_registration : WaitableRegistration := MkToken 0 0 Subscriber.

Definition token_valid (t : WaitableRegistration) : bool :=
  negb (token_wait_set_id t =? 0) && negb (token_registration_id t =? 0).

Definition kWaitableReadyBit : Z := Z.shiftl 1 0.
Definition kActionGoalResponseBit : Z := Z.shiftl 1 0.
Definition kActionCancelResponseBit : Z := Z.shiftl 1 1.
Definition kActionResultResponseBit : Z := Z.shiftl 1 2.
Definition kActionFeedbackBit : Z := Z.shiftl 1 3.
Definition kActionStatusBit : Z := Z.shiftl 1 4.
Definition kActionGoalRequestBit : Z := Z.shiftl 1 0.
Definition kActionCancelRequestBit : Z := Z.shiftl 1 1.
Definition kActionResultRequestBit : Z := Z.shiftl 1 2.
Definition kActionGoalExpiredBit : Z := Z.shiftl 1 3.

Definition reader_detail_bit (kind : WaitableKind) (index : nat) : Z :=
  match kind with
  | ActionClient =>
      default kWaitableReadyBit
        ([kActionGoalResponseBit; kActionCancelResponseBit; kActionResultResponseBit;
          kActionFeedbackBit; kActionStatusBit] !! index)
  | ActionServer =>
      default kWaitableReadyBit
        ([kActionGoalRequestBit; kActionCancelRequestBit; kActionResultRequestBit] !! index)
  | _ => kWaitableReadyBit
  end.

(** ** The waitables *)

(** The members a waitable of any class has for its registration.  A callback
    is what it captured: the wake callback its wait set, the detach callback
    its wait set and registration. *)
Record Link := MkLink {
  link_context : nat;
  closing : bool;
  wait_set_id : Z;
  registration_id : Z;
  wake_callback : option Z;
  detach_callback : option (Z * Z) }.

Definition new_link (context : nat) : Link := MkLink context false 0 0 None None.

Definition link_close (l : Link) : Link :=
  MkLink (link_context l) true (wait_set_id l) (registration_id l) (wake_callback l) (detach_callback l).

Definition link_bind (ws id : Z) (l : Link) : Link :=
  MkLink (link_context l) (closing l) ws id (Some ws) (Some (ws, id)).

Definition link_clear (l : Link) : Link := MkLink (link_context l) (closing l) 0 0 None None.

Definition linked_to (ws id : Z) (l : Link) : bool :=
  (wait_set_id l =? ws) && (registration_id l =? id).

(** [GuardConditionState] besides its link; an [Event] has one too. *)
Record GuardConditionState := MkGuard {
  trigger_generation : Z; consumed_generation : Z; pending : bool }.

Definition new_guard : GuardConditionState := MkGuard 0 0 false.

Definition consume_trigger (g : GuardConditionState) : bool * GuardConditionState :=
  if consumed_generation g =? trigger_generation g then (false, g)
  else (true, MkGuard (trigger_generation g) (trigger_generation g) false).

Definition set_pending (b : bool) (g : GuardConditionState) : GuardConditionState :=
  MkGuard (trigger_generation g) (consumed_generation g) b.

(** The part of [trigger] before it notifies. *)
Definition raise_trigger (operation : bool) (g : GuardConditionState)
    : Result unit * GuardConditionState :=
  if negb operation then (fail ContextShutdown "Context is shut down", g)
  else if trigger_generation g =? UINT64_MAX then
    (fail ResourceExhausted "GuardCondition trigger generation is exhausted", g)
  else (success tt, MkGuard (trigger_generation g + 1) (consumed_generation g) true).

Inductive Lifecycle := Open | DeleteDeferredByWaitSet | Closed.

#[export] Instance Lifecycle_eq_dec : EqDecision Lifecycle.
Proof. solve_decision. Defined.

Record ReaderWaitState := MkReader {
  r_link : Link;
  blocking_enabled : bool;
  lifecycle : Lifecycle;
  reader : bool;                                  (* the pointer is not null *)
  claim_in_progress : bool;
  topology_callback : option (Z * Z * nat);       (* wait set, registration, index *)
  quarantined_wait_set : option Z }.

Definition new_reader (context : nat) : ReaderWaitState :=
  MkReader (new_link context) true Open true false None None.

Definition r_closing (r : ReaderWaitState) : bool := closing (r_link r).

Definition with_link (f : Link -> Link) (r : ReaderWaitState) : ReaderWaitState :=
  MkReader (f (r_link r)) (blocking_enabled r) (lifecycle r) (reader r) (claim_in_progress r)
    (topology_callback r) (quarantined_wait_set r).

Definition with_claim (b : bool) (r : ReaderWaitState) : ReaderWaitState :=
  MkReader (r_link r) (blocking_enabled r) (lifecycle r) (reader r) b (topology_callback r)
    (quarantined_wait_set r).

Definition with_blocking (b : bool) (r : ReaderWaitState) : ReaderWaitState :=
  MkReader (r_link r) b (lifecycle r) (reader r) (claim_in_progress r) (topology_callback r)
    (quarantined_wait_set r).

Definition with_lifecycle (l : Lifecycle) (r : ReaderWaitState) : ReaderWaitState :=
  MkReader (r_link r) (blocking_enabled r) l (reader r) (claim_in_progress r) (topology_callback r)
    (quarantined_wait_set r).

Definition with_topology (t : option (Z * Z * nat)) (r : ReaderWaitState) : ReaderWaitState :=
  MkReader (r_link r) (blocking_enabled r) (lifecycle r) (reader r) (claim_in_progress r) t
    (quarantined_wait_set r).

Definition drop_reader (r : ReaderWaitState) : ReaderWaitState :=
  MkReader (r_link r) (blocking_enabled r) Closed false (claim_in_progress r) (topology_callback r)
    (quarantined_wait_set r).

Definition quarantine_wait_set (ws : Z) (r : ReaderWaitState) : ReaderWaitState :=
  MkReader (r_link r) (blocking_enabled r) (lifecycle r) (reader r) (claim_in_progress r)
    (topology_callback r) (Some ws).

(** [unread] is what [get_unread_count] returns. *)
Definition reader_is_ready (unread : Z) (r : ReaderWaitState) : bool :=
  blocking_enabled r && negb (r_closing r) && reader r && negb (unread =? 0).

(** [deleted]: [delete_datareader] returned RETCODE_OK. *)
Definition complete_deferred_delete (deleted : bool) (r : ReaderWaitState) : ReaderWaitState :=
  if negb (bool_decide (lifecycle r = DeleteDeferredByWaitSet)) || negb (wait_set_id (r_link r) =? 0)
  then r
  else if negb (reader r) then with_lifecycle Closed r
  else if deleted then drop_reader r
  else r.

(** The identity, the callbacks and the quarantine that [release] clears. *)
Definition release_reader (r : ReaderWaitState) : ReaderWaitState :=
  MkReader (link_clear (r_link r)) (blocking_enabled r) (lifecycle r) (reader r)
    (claim_in_progress r) None None.

(** ** The store *)

(** A waitable without a native condition.  The three classes share
    [claim_logical_waitable] and [release_logical_waitable]. *)
Inductive Logical := GuardOf (g : nat) | TimerOf (t : nat) | GraphEventOf (e : nat).

#[export] Instance Logical_eq_dec : EqDecision Logical.
Proof. solve_decision. Defined.

#[export] Instance Logical_countable : Countable Logical.
Proof.
  apply (inj_countable'
    (fun l => match l with GuardOf g => inl g | TimerOf t => inr (inl t) | GraphEventOf e => inr (inr e) end)
    (fun s => match s with inl g => GuardOf g | inr (inl t) => TimerOf t | inr (inr e) => GraphEventOf e end)).
  by intros [].
Defined.

#[export] Instance Link_inhabited : Inhabited Link := populate (new_link 0).
#[export] Instance Guard_inhabited : Inhabited GuardConditionState := populate new_guard.
#[export] Instance Reader_inhabited : Inhabited ReaderWaitState := populate (new_reader 0).

Record Store := MkStore {
  links : gmap Logical Link;
  guards : gmap nat GuardConditionState;
  readers : gmap nat ReaderWaitState }.

Definition link_of (st : Store) (l : Logical) : Link := links st !!! l.
Definition guard_of (st : Store) (g : nat) : GuardConditionState := guards st !!! g.
Definition reader_of (st : Store) (r : nat) : ReaderWaitState := readers st !!! r.

Definition set_link (l : Logical) (v : Link) (st : Store) : Store :=
  MkStore (<[l := v]> (links st)) (guards st) (readers st).
Definition set_guard (g : nat) (v : GuardConditionState) (st : Store) : Store :=
  MkStore (links st) (<[g := v]> (guards st)) (readers st).
Definition set_reader (r : nat) (v : ReaderWaitState) (st : Store) : Store :=
  MkStore (links st) (guards st) (<[r := v]> (readers st)).

Definition update_reader (r : nat) (f : ReaderWaitState -> ReaderWaitState) (st : Store) : Store :=
  set_reader r (f (reader_of st r)) st.

(** Outcomes of the Fast DDS calls an operation makes: attaching and detaching
    a reader's StatusCondition, deleting a DataReader, setting the control
    condition's trigger value. *)
Record Dds := MkDds {
  attach_ok : nat -> bool; detach_ok : nat -> bool; delete_ok : nat -> bool; trigger_ok : bool }.

Definition dds_ok : Dds := MkDds (fun _ => true) (fun _ => true) (fun _ => true) true.

(** ** Registrations *)

Inductive RegistrationPhase := PhaseAttached | PhaseDetaching | PhaseDetached.

#[export] Instance RegistrationPhase_eq_dec : EqDecision RegistrationPhase.
Proof. solve_decision. Defined.

Inductive AttachResult := ClaimAttached | ClaimAlreadyRegistered | ClaimClosing | ClaimDDSError.

#[export] Instance AttachResult_eq_dec : EqDecision AttachResult.
Proof. solve_decision. Defined.

(** [channels] are the parallel vectors [readers] and [reader_conditions]: a
    reader and whether its condition is attached.  [logical_detail] and
    [runtime_deadline] say whether those functions were given. *)
Record Registration := MkRegistration {
  id : Z;
  kind : WaitableKind;
  guard : option nat;
  timer : option nat;
  graph_event : option nat;
  channels : list (nat * bool);
  logical_detail : bool;
  runtime_deadline : bool;
  phase : RegistrationPhase;
  interest : Z }.

Definition with_channels (cs : list (nat * bool)) (R : Registration) : Registration :=
  MkRegistration (id R) (kind R) (guard R) (timer R) (graph_event R) cs (logical_detail R)
    (runtime_deadline R) (phase R) (interest R).

Definition with_phase (p : RegistrationPhase) (R : Registration) : Registration :=
  MkRegistration (id R) (kind R) (guard R) (timer R) (graph_event R) (channels R)
    (logical_detail R) (runtime_deadline R) p (interest R).

Definition with_interest (m : Z) (R : Registration) : Registration :=
  MkRegistration (id R) (kind R) (guard R) (timer R) (graph_event R) (channels R)
    (logical_detail R) (runtime_deadline R) (phase R) m.

(** The member functions look at [guard], [timer], [graph_event] in this
    order, and at the readers if all three are null. *)
Definition logical_of (R : Registration) : option Logical :=
  match guard R, timer R, graph_event R with
  | Some g, _, _ => Some (GuardOf g)
  | None, Some t, _ => Some (TimerOf t)
  | None, None, Some e => Some (GraphEventOf e)
  | None, None, None => None
  end.

Definition reader_interested (R : Registration) (index : nat) : bool :=
  negb (Z.land (interest R) (reader_detail_bit (kind R) index) =? 0).

Definition registration_is_closing (st : Store) (R : Registration) : bool :=
  match logical_of R with
  | Some l => closing (link_of st l)
  | None => existsb (fun c => r_closing (reader_of st c.1)) (channels R)
  end.

(** What a scan observes outside the store: unread counts, the readiness of
    timers and graph events, the value of [logical_detail]. *)
Record Readiness := MkReadiness {
  unread : nat -> Z; timer_ready : nat -> bool; graph_ready : nat -> bool; detail : Z -> Z }.

Fixpoint readers_mask (rd : Readiness) (st : Store) (R : Registration) (index : nat)
    (cs : list (nat * bool)) : Z :=
  match cs with
  | [] => 0
  | (r, _) :: cs =>
      let rest := readers_mask rd st R (S index) cs in
      if reader_interested R index && reader_is_ready (unread rd r) (reader_of st r)
      then Z.lor (reader_detail_bit (kind R) index) rest
      else rest
  end.

Definition bit_if (b : bool) : Z := if b then kWaitableReadyBit else 0.

(** The mask, and the store after a GuardCondition's trigger was consumed. *)
Definition ready_mask (rd : Readiness) (R : Registration) (st : Store) : Z * Store :=
  match logical_of R with
  | Some (GuardOf g) =>
      if decide (kind R = Event) then (bit_if (pending (guard_of st g)), st)
      else
        let '(consumed, g') := consume_trigger (guard_of st g) in
        (bit_if consumed, set_guard g g' st)
  | Some (TimerOf t) => (bit_if (timer_ready rd t), st)
  | Some (GraphEventOf e) => (bit_if (graph_ready rd e), st)
  | None =>
      let mask := readers_mask rd st R 0 (channels R) in
      let mask := if logical_detail R then Z.lor mask (detail rd (id R)) else mask in
      (Z.land mask (interest R), st)
  end.

(** ** Claims *)

(** [held] is the reader whose callback mutex the calling thread holds. *)
Fixpoint clear_reader_claims (held : option nat) (rs : list nat) (st : Store) : option Store :=
  match rs with
  | [] => Some st
  | r :: rs =>
      if decide (held = Some r) then None
      else clear_reader_claims held rs
             (if claim_in_progress (reader_of st r) then update_reader r (with_claim false) st else st)
  end.

(** The first loop of [claim]: [rs] are the readers left, [all] the readers. *)
Fixpoint mark_claims (all rs : list nat) (st : Store) : option (AttachResult * Store) :=
  match rs with
  | [] => Some (ClaimAttached, st)
  | r :: rs =>
      if r_closing (reader_of st r) then
        (fun st => (ClaimClosing, st)) <$> clear_reader_claims (Some r) all st
      else if negb (wait_set_id (r_link (reader_of st r)) =? 0) || claim_in_progress (reader_of st r) then
        (fun st => (ClaimAlreadyRegistered, st)) <$> clear_reader_claims (Some r) all st
      else mark_claims all rs (update_reader r (with_claim true) st)
  end.

(** [attach_single_reader_condition]: the result, the channel's new
    [reader_conditions] entry and the native wait set. *)
Definition attach_single (dds : Dds) (st : Store) (R : Registration) (index : nat) (c : nat * bool)
    (native : gset nat) : AttachResult * bool * gset nat :=
  let r := reader_of st c.1 in
  if negb (reader_interested R index) || negb (blocking_enabled r) then (ClaimAttached, c.2, native)
  else if r_closing r || negb (reader r) then (ClaimClosing, c.2, native)
  else if attach_ok dds c.1 then (ClaimAttached, true, {[c.1]} ∪ native)
  else (ClaimDDSError, c.2, native).

Fixpoint attach_channels (dds : Dds) (st : Store) (R : Registration) (index : nat)
    (cs : list (nat * bool)) (native : gset nat) : AttachResult * list (nat * bool) * gset nat :=
  match cs with
  | [] => (ClaimAttached, [], native)
  | c :: cs =>
      match attach_single dds st R index c native with
      | (ClaimAttached, b, native) =>
          let '(res, cs, native) := attach_channels dds st R (S index) cs native in
          (res, (c.1, b) :: cs, native)
      | (res, b, native) => (res, (c.1, b) :: cs, native)
      end
  end.

(** [detach_attached_reader_conditions]: a failed detach is ignored. *)
Fixpoint detach_attached (dds : Dds) (cs : list (nat * bool)) (native : gset nat)
    : list (nat * bool) * gset nat :=
  match cs with
  | [] => ([], native)
  | (r, b) :: cs =>
      let native := if b && detach_ok dds r then native ∖ {[r]} else native in
      let '(cs, native) := detach_attached dds cs native in
      ((r, false) :: cs, native)
  end.

Definition attach_reader_conditions (dds : Dds) (st : Store) (R : Registration) (native : gset nat)
    : AttachResult * Registration * gset nat :=
  let '(outcome, cs, native) := attach_channels dds st R 0 (channels R) native in
  if decide (outcome = ClaimAttached) then (outcome, with_channels cs R, native)
  else
    let '(cs, native) := detach_attached dds cs native in
    (outcome, with_channels cs R, native).

(** The second loop of [claim], and whether it found a reader closed. *)
Fixpoint bind_readers (ws rid : Z) (rs : list nat) (st : Store) : bool * Store :=
  match rs with
  | [] => (false, st)
  | r :: rs =>
      let st := update_reader r (fun v => with_link (link_bind ws rid) (with_claim false v)) st in
      let '(closed, st') := bind_readers ws rid rs st in
      (r_closing (reader_of st r) || closed, st')
  end.

(** Readers other threads close while they are being claimed: before the
    conditions are attached, and between that and the second loop; and whether
    a closer of the second kind starts its detach before the claim's rollback
    does. *)
Record Race := MkRace {
  before_attach : list nat; before_bind : list nat; closer_detaches : bool }.
Definition no_race : Race := MkRace [] [] false.

Definition close_readers (rs : list nat) (st : Store) : Store :=
  fold_right (fun r => update_reader r (with_link link_close)) st rs.

Definition reader_ids (R : Registration) : list nat := (channels R).*1.

(** [claim]: the result, [closed_during_claim] — the caller then runs the
    rollback —, the registration with its conditions, the store. *)
Definition claim_readers (dds : Dds) (race : Race) (ws : Z) (R : Registration) (native : gset nat)
    (st : Store) : option (AttachResult * bool * Registration * gset nat * Store) :=
  let rs := reader_ids R in
  match mark_claims rs rs st with
  | None => None
  | Some (ClaimAttached, st) =>
      let st := close_readers (before_attach race) st in
      let '(attached, R, native) := attach_reader_conditions dds st R native in
      if decide (attached = ClaimAttached) then
        let st := close_readers (before_bind race) st in
        let '(closed, st) := bind_readers ws (id R) rs st in
        Some (if closed then ClaimClosing else ClaimAttached, closed, R, native, st)
      else (fun st => (attached, false, R, native, st)) <$> clear_reader_claims None rs st
  | Some (res, st) => Some (res, false, R, native, st)
  end.

Definition claim_logical_waitable (ws rid : Z) (l : Logical) (st : Store) : AttachResult * Store :=
  if closing (link_of st l) then (ClaimClosing, st)
  else if negb (wait_set_id (link_of st l) =? 0) then (ClaimAlreadyRegistered, st)
  else (ClaimAttached, set_link l (link_bind ws rid (link_of st l)) st).

Definition claim (dds : Dds) (race : Race) (ws : Z) (R : Registration) (native : gset nat)
    (st : Store) : option (AttachResult * bool * Registration * gset nat * Store) :=
  match logical_of R with
  | Some l =>
      let '(res, st) := claim_logical_waitable ws (id R) l st in
      Some (res, false, R, native, st)
  | None => claim_readers dds race ws R native st
  end.

(** ** Releases *)

Definition release_logical_waitable (ws rid : Z) (l : Logical) (st : Store) : Store :=
  if linked_to ws rid (link_of st l) then set_link l (link_clear (link_of st l)) st else st.

(** Each reader still linked here is detached, cleared and, if its deletion
    was deferred, deleted; the loop stops at the first failed detach. *)
Fixpoint release_channels (dds : Dds) (ws rid : Z) (cs : list (nat * bool)) (native : gset nat)
    (st : Store) : bool * list (nat * bool) * gset nat * Store :=
  match cs with
  | [] => (true, [], native, st)
  | (r, b) :: cs =>
      if negb (linked_to ws rid (r_link (reader_of st r))) then
        let '(ok, cs, native, st) := release_channels dds ws rid cs native st in
        (ok, (r, b) :: cs, native, st)
      else if b && negb (detach_ok dds r) then (false, (r, b) :: cs, native, st)
      else
        let native := if b then native ∖ {[r]} else native in
        let st := update_reader r
                    (fun v => complete_deferred_delete (delete_ok dds r) (release_reader v)) st in
        let '(ok, cs, native, st) := release_channels dds ws rid cs native st in
        (ok, (r, false) :: cs, native, st)
  end.

Definition release (dds : Dds) (ws : Z) (R : Registration) (native : gset nat) (st : Store)
    : bool * Registration * gset nat * Store :=
  match logical_of R with
  | Some l => (true, R, native, release_logical_waitable ws (id R) l st)
  | None =>
      let '(ok, cs, native, st) := release_channels dds ws (id R) (channels R) native st in
      (ok, with_channels cs R, native, st)
  end.

(** ** Reading the store after a write *)

Lemma reader_of_update st r f r' :
  reader_of (update_reader r f st) r' = if decide (r = r') then f (reader_of st r) else reader_of st r'.
Proof.
  unfold reader_of at 1, update_reader. simpl. destruct (decide (r = r')) as [->|Hne].
  - apply lookup_total_insert_eq.
  - by apply lookup_total_insert_ne.
Qed.

Lemma link_of_update st r f l : link_of (update_reader r f st) l = link_of st l.
Proof. done. Qed.

Lemma guard_of_update st r f g : guard_of (update_reader r f st) g = guard_of st g.
Proof. done. Qed.

Lemma link_of_set st l v l' : link_of (set_link l v st) l' = if decide (l = l') then v else link_of st l'.
Proof.
  unfold link_of, set_link. simpl. destruct (decide (l = l')) as [->|Hne].
  - apply lookup_total_insert_eq.
  - by apply lookup_total_insert_ne.
Qed.

Lemma guard_of_set st g v g' : guard_of (set_guard g v st) g' = if decide (g = g') then v else guard_of st g'.
Proof.
  unfold guard_of, set_guard. simpl. destruct (decide (g = g')) as [->|Hne].
  - apply lookup_total_insert_eq.
  - by apply lookup_total_insert_ne.
Qed.

Lemma reader_of_set_link st l v r : reader_of (set_link l v st) r = reader_of st r.
Proof. done. Qed.

Create Rewrite HintDb store.
#[export] Hint Rewrite reader_of_update link_of_update guard_of_update link_of_set guard_of_set
  reader_of_set_link : store.

(** ** When a claim returns *)

(** Nothing stands in the way of claiming the reader. *)
Definition claimable (st : Store) (r : nat) : Prop :=
  r_closing (reader_of st r) = false /\ wait_set_id (r_link (reader_of st r)) = 0 /\
  claim_in_progress (reader_of st r) = false.

#[export] Instance claimable_dec st r : Decision (claimable st r).
Proof. unfold claimable. apply _. Defined.

Lemma clear_reader_claims_held r rs st : r ∈ rs -> clear_reader_claims (Some r) rs st = None.
Proof.
  revert st. induction rs as [|r' rs IH]; intros st Hr; [by apply not_elem_of_nil in Hr|].
  simpl. destruct (decide (Some r = Some r')); [done|].
  apply IH. apply elem_of_cons in Hr as [->|]; done.
Qed.

Lemma with_claim_same v : claim_in_progress v = false -> with_claim false v = v.
Proof. destruct v; unfold with_claim; simpl; by intros ->. Qed.

Lemma clear_reader_claims_free rs st :
  exists st', clear_reader_claims None rs st = Some st' /\
    (forall r, reader_of st' r = if decide (r ∈ rs) then with_claim false (reader_of st r) else reader_of st r) /\
    links st' = links st /\ guards st' = guards st.
Proof.
  revert st. induction rs as [|r rs IH]; intros st.
  - exists st. split_and!; [done| |done..]. intros r. by rewrite decide_False by apply not_elem_of_nil.
  - simpl. destruct (IH (if claim_in_progress (reader_of st r) then update_reader r (with_claim false) st else st))
      as (st' & -> & Hr & Hl & Hg).
    exists st'. split_and!; [done| |by rewrite Hl; destruct (claim_in_progress _)|by rewrite Hg; destruct (claim_in_progress _)].
    pose proof (with_claim_same (reader_of st r)) as Hsame.
    intros r'. rewrite Hr. destruct (decide (r' ∈ r :: rs)) as [Hin|Hin]; rewrite elem_of_cons in Hin;
      destruct (claim_in_progress (reader_of st r)) eqn:Hc; autorewrite with store;
      repeat case_decide; subst; naive_solver.
Qed.

(** The claims are marked exactly when every reader can be claimed. *)
Lemma mark_claims_spec all rs st :
  (forall r, r ∈ rs -> r ∈ all) ->
  if decide (NoDup rs /\ Forall (claimable st) rs) then
    exists st', mark_claims all rs st = Some (ClaimAttached, st') /\
      (forall r, reader_of st' r = if decide (r ∈ rs) then with_claim true (reader_of st r) else reader_of st r) /\
      links st' = links st /\ guards st' = guards st
  else mark_claims all rs st = None.
Proof.
  revert st. induction rs as [|r rs IH]; intros st Hall.
  { rewrite decide_True by (split; constructor). exists st. split_and!; [done| |done..].
    intros r. by rewrite decide_False by apply not_elem_of_nil. }
  assert (Hr : r ∈ all) by (apply Hall; left).
  specialize (IH (update_reader r (with_claim true) st) ltac:(intros; apply Hall; by right)).
  destruct (decide (claimable st r)) as [(Hc & Hw & Hp)|Hnc].
  - assert (Hm : mark_claims all (r :: rs) st = mark_claims all rs (update_reader r (with_claim true) st))
      by (simpl; by rewrite Hc, Hw, Hp).
    assert (Heq : NoDup (r :: rs) /\ Forall (claimable st) (r :: rs) <->
                  NoDup rs /\ Forall (claimable (update_reader r (with_claim true) st)) rs).
    { rewrite NoDup_cons, Forall_cons, !Forall_forall. unfold claimable.
      setoid_rewrite reader_of_update. split.
      - intros ((Hni & Hnd) & _ & Hf). split; [done|]. intros x Hx. rewrite decide_False by congruence.
        by apply Hf.
      - intros (Hnd & Hf).
        assert (Hni : r ∉ rs) by (intros Hin; specialize (Hf r Hin); rewrite decide_True in Hf by done; naive_solver).
        split_and!; [done..|]. intros x Hx. specialize (Hf x Hx). by rewrite decide_False in Hf by congruence. }
    rewrite Hm. rewrite (decide_ext _ _ _ _ Heq). case_decide as Hd; [|done].
    destruct IH as (st' & -> & Hrd & Hl & Hg). exists st'. split_and!; try done.
    apply Heq in Hd as [[Hni _]%NoDup_cons _].
    intros x. rewrite Hrd, reader_of_update.
    destruct (decide (x ∈ r :: rs)) as [Hin|Hin]; rewrite elem_of_cons in Hin; repeat case_decide; subst; naive_solver.
  - rewrite decide_False by (rewrite Forall_cons; naive_solver).
    simpl. rewrite !clear_reader_claims_held by done. unfold claimable in Hnc.
    destruct (r_closing (reader_of st r)); [done|].
    destruct (Z.eqb_spec (wait_set_id (r_link (reader_of st r))) 0); simpl; [|done].
    destruct (claim_in_progress (reader_of st r)); [done | naive_solver].
Qed.

Lemma claim_readers_returns dds race ws R n st :
  is_Some (claim_readers dds race ws R n st) <->
  NoDup (reader_ids R) /\ Forall (claimable st) (reader_ids R).
Proof.
  unfold claim_readers. pose proof (mark_claims_spec (reader_ids R) (reader_ids R) st (fun _ H => H)) as Hm.
  case_decide as Hd; [|rewrite Hm; split; [by intros [? ?] | tauto]].
  split; [tauto | intros _]. destruct Hm as (st' & -> & _).
  destruct (attach_reader_conditions _ _ _ _) as [[res R'] n'].
  case_decide; [by destruct (bind_readers _ _ _ _)|].
  destruct (clear_reader_claims_free (reader_ids R) (close_readers (before_attach race) st')) as (? & -> & _).
  by eexists.
Qed.

(** ** What a claim and a release do to the store *)

(** The part of a link that [claim] writes and [release] clears. *)
Definition binding (l : Link) : Z * Z * option Z * option (Z * Z) :=
  (wait_set_id l, registration_id l, wake_callback l, detach_callback l).
Definition bound (ws rid : Z) : Z * Z * option Z * option (Z * Z) := (ws, rid, Some ws, Some (ws, rid)).
Definition unbound : Z * Z * option Z * option (Z * Z) := (0, 0, None, None).

Lemma linked_to_bound ws rid ws' rid' l :
  binding l = bound ws' rid' -> linked_to ws rid l = bool_decide (ws = ws' /\ rid = rid').
Proof.
  unfold binding, bound, linked_to. intros [= -> -> _ _].
  case_bool_decide as H; [destruct H as [-> ->]; by rewrite !Z.eqb_refl|].
  destruct (Z.eqb_spec ws' ws), (Z.eqb_spec rid' rid); simpl; naive_solver.
Qed.

Lemma linked_to_unbound ws rid l : ws <> 0 -> binding l = unbound -> linked_to ws rid l = false.
Proof.
  unfold binding, unbound, linked_to. intros Hws [= -> -> _ _].
  destruct (Z.eqb_spec 0 ws); simpl; congruence.
Qed.

(** Two readers with the same binding, topology callback and claim. *)
Definition reader_sim (v v' : ReaderWaitState) : Prop :=
  binding (r_link v') = binding (r_link v) /\ topology_callback v' = topology_callback v /\
  claim_in_progress v' = claim_in_progress v.

Definition store_sim (st st' : Store) : Prop :=
  (forall l, binding (link_of st' l) = binding (link_of st l)) /\
  (forall r, reader_sim (reader_of st r) (reader_of st' r)).

#[export] Instance reader_sim_preorder : PreOrder reader_sim.
Proof. split; [done|]. intros x y z (? & ? & ?) (? & ? & ?). split_and!; congruence. Qed.

#[export] Instance store_sim_preorder : PreOrder store_sim.
Proof.
  split; [done|]. intros x y z [Hl Hr] [Hl' Hr']. split.
  - intros l. congruence.
  - intros r. by transitivity (reader_of y r).
Qed.

Lemma store_sim_update st r f :
  (forall v, reader_sim v (f v)) -> store_sim st (update_reader r f st).
Proof.
  intros Hf. split; [done|]. intros r'. rewrite reader_of_update. case_decide; subst; [apply Hf | done].
Qed.

Lemma store_sim_updates st f rs :
  (forall v, reader_sim v (f v)) -> store_sim st (fold_right (fun r => update_reader r f) st rs).
Proof. intros Hf. induction rs; simpl; [done|]. etrans; [done | by apply store_sim_update]. Qed.

Lemma close_readers_sim rs st : store_sim st (close_readers rs st).
Proof. by apply store_sim_updates. Qed.

Lemma close_readers_frame rs st :
  links (close_readers rs st) = links st /\ guards (close_readers rs st) = guards st.
Proof. induction rs as [|r rs [IHl IHg]]; simpl; done. Qed.

(** Registrations that differ in the attached conditions only. *)
Definition same_registration (R R' : Registration) : Prop :=
  reader_ids R' = reader_ids R /\ R' = with_channels (channels R') R.

Lemma same_registration_intro cs R :
  cs.*1 = reader_ids R -> same_registration R (with_channels cs R).
Proof. done. Qed.

Lemma attach_channels_ids dds st R index cs n :
  (attach_channels dds st R index cs n).1.2.*1 = cs.*1.
Proof.
  revert index n. induction cs as [|c cs IH]; intros index n; [done|]. simpl.
  destruct (attach_single dds st R index c n) as [[[] b] n']; simpl; try done.
  specialize (IH (S index) n'). destruct (attach_channels _ _ _ _ _ _) as [[res cs'] n'']. simpl in *.
  by f_equal.
Qed.

Lemma detach_attached_ids dds cs n : (detach_attached dds cs n).1.*1 = cs.*1.
Proof.
  revert n. induction cs as [|[r b] cs IH]; intros n; [done|]. simpl.
  specialize (IH (if b && detach_ok dds r then n ∖ {[r]} else n)).
  destruct (detach_attached _ _ _). simpl in *. by f_equal.
Qed.

Lemma attach_reader_conditions_same dds st R n :
  same_registration R (attach_reader_conditions dds st R n).1.2.
Proof.
  unfold attach_reader_conditions. pose proof (attach_channels_ids dds st R 0 (channels R) n) as Ha.
  destruct (attach_channels _ _ _ _ _ _) as [[res cs] n']. simpl in Ha.
  case_decide; [by apply same_registration_intro|].
  pose proof (detach_attached_ids dds cs n') as Hd. destruct (detach_attached _ _ _) as [cs' n'']. simpl in *.
  apply same_registration_intro. unfold reader_ids. congruence.
Qed.

Lemma bind_readers_spec ws rid rs st :
  NoDup rs ->
  (bind_readers ws rid rs st).1 = existsb (fun r => r_closing (reader_of st r)) rs /\
  (forall r, reader_of (bind_readers ws rid rs st).2 r =
     if decide (r ∈ rs) then with_link (link_bind ws rid) (with_claim false (reader_of st r))
     else reader_of st r) /\
  links (bind_readers ws rid rs st).2 = links st /\ guards (bind_readers ws rid rs st).2 = guards st.
Proof.
  revert st. induction rs as [|r rs IH]; intros st Hnd.
  { split_and!; [done| |done..]. intros r. by rewrite decide_False by apply not_elem_of_nil. }
  apply NoDup_cons in Hnd as [Hni Hnd]. cbn [bind_readers existsb].
  set (st1 := update_reader r _ st). specialize (IH st1 Hnd).
  destruct (bind_readers ws rid rs st1) as [closed st']. simpl in IH.
  destruct IH as (Hc & Hr & Hl & Hg). cbn [fst snd].
  assert (Hother : forall x, x ∈ rs -> reader_of st1 x = reader_of st x).
  { intros x Hx. subst st1. rewrite reader_of_update. rewrite decide_False; [done | congruence]. }
  split_and!.
  - rewrite Hc. f_equal; [subst st1; rewrite reader_of_update; by rewrite decide_True|].
    clear -Hother. induction rs as [|x rs IH]; [done|]. simpl.
    rewrite IH by (intros; apply Hother; by right). by rewrite Hother by left.
  - intros x. rewrite Hr. destruct (decide (x ∈ r :: rs)) as [Hin|Hin]; rewrite elem_of_cons in Hin.
    + case_decide as Hx; [by rewrite Hother|]. destruct Hin as [->|]; [|done].
      subst st1. rewrite reader_of_update. by rewrite decide_True.
    + rewrite decide_False by naive_solver. subst st1. rewrite reader_of_update.
      by rewrite decide_False by naive_solver.
  - done.
  - done.
Qed.

(** The store after [claim_readers]: bound readers if it got as far as the
    second loop, the old bindings otherwise. *)
Lemma claim_readers_store dds race ws R n st res closed R' n' st' :
  claim_readers dds race ws R n st = Some (res, closed, R', n', st') ->
  (forall r, r ∈ reader_ids R -> claimable st r) /\ NoDup (reader_ids R) /\ same_registration R R' /\
  links st' = links st /\ guards st' = guards st /\
  (forall r, r ∉ reader_ids R -> reader_sim (reader_of st r) (reader_of st' r)) /\
  (forall r, r ∈ reader_ids R -> claim_in_progress (reader_of st' r) = false /\
     topology_callback (reader_of st' r) = topology_callback (reader_of st r) /\
     binding (r_link (reader_of st' r)) =
       if bool_decide (res = ClaimAttached) || closed then bound ws (id R)
       else binding (r_link (reader_of st r))).
Proof.
  intros Hc. pose proof (proj1 (claim_readers_returns dds race ws R n st) (ex_intro _ _ Hc)) as [Hnd Hcl].
  unfold claim_readers in Hc.
  pose proof (mark_claims_spec (reader_ids R) (reader_ids R) st (fun _ H => H)) as Hm.
  rewrite decide_True in Hm by done. destruct Hm as (st1 & Hm & Hr1 & Hl1 & Hg1). rewrite Hm in Hc. clear Hm.
  set (st2 := close_readers (before_attach race) st1) in *.
  pose proof (attach_reader_conditions_same dds st2 R n) as Hsame.
  destruct (attach_reader_conditions dds st2 R n) as [[att R1] n1]. simpl in Hsame.
  pose proof (close_readers_sim (before_attach race) st1) as [_ Hs2].
  destruct (close_readers_frame (before_attach race) st1) as [Hl2 Hg2]. fold st2 in Hs2, Hl2, Hg2.
  assert (Hid : id R1 = id R) by (destruct Hsame as [_ ->]; done).
  split; [by apply Forall_forall|]. split; [done|].
  case_decide as Ha.
  - set (st3 := close_readers (before_bind race) st2) in *.
    pose proof (close_readers_sim (before_bind race) st2) as [_ Hs3].
    destruct (close_readers_frame (before_bind race) st2) as [Hl3 Hg3]. fold st3 in Hs3, Hl3, Hg3.
    destruct (bind_readers_spec ws (id R1) (reader_ids R) st3 Hnd) as (Hb & Hr4 & Hl4 & Hg4).
    destruct (bind_readers ws (id R1) (reader_ids R) st3) as [cl st4]. simplify_eq/=.
    assert (Hsim : forall r, reader_sim (reader_of st1 r) (reader_of st3 r))
      by (intros r; by transitivity (reader_of st2 r)).
    split; [done|]. split; [congruence|]. split; [congruence|]. split.
    + intros r Hni. rewrite Hr4, decide_False by done. specialize (Hsim r).
      by rewrite Hr1, decide_False in Hsim by done.
    + intros r Hin. rewrite Hr4, decide_True by done. simpl. rewrite Hid.
      destruct (Hsim r) as (_ & -> & _). rewrite Hr1, decide_True by done.
      split_and!; [done..|]. match goal with |- context [if ?x then ClaimClosing else _] => by destruct x end.
  - destruct (clear_reader_claims_free (reader_ids R) st2) as (st3 & Hcr & Hr3 & Hl3 & Hg3).
    rewrite Hcr in Hc. simplify_eq/=.
    split; [done|]. split; [congruence|]. split; [congruence|]. split.
    + intros r Hni. rewrite Hr3, decide_False by done. specialize (Hs2 r).
      by rewrite Hr1, decide_False in Hs2 by done.
    + intros r Hin. rewrite Hr3, decide_True by done. specialize (Hs2 r).
      rewrite Hr1, decide_True in Hs2 by done. destruct Hs2 as (Hb & Ht & _). simpl.
      rewrite bool_decide_eq_false_2 by done. simpl. done.
Qed.

Lemma claim_frame dds race ws R n st res closed R' n' st' :
  claim dds race ws R n st = Some (res, closed, R', n', st') ->
  same_registration R R' /\ guards st' = guards st /\ (logical_of R <> None -> closed = false).
Proof.
  unfold claim. intros Hc. destruct (logical_of R) as [l|] eqn:Hl.
  - unfold claim_logical_waitable in Hc. destruct R. case_match_hyps; done.
  - apply claim_readers_store in Hc as (_ & _ & ? & _ & ? & _). done.
Qed.

(** ** Releases *)

Lemma complete_deferred_delete_sim b v : reader_sim v (complete_deferred_delete b v).
Proof. unfold complete_deferred_delete. by repeat case_match. Qed.

Lemma release_reader_binding b v :
  binding (r_link (complete_deferred_delete b (release_reader v))) = unbound /\
  topology_callback (complete_deferred_delete b (release_reader v)) = None /\
  claim_in_progress (complete_deferred_delete b (release_reader v)) = claim_in_progress v.
Proof. destruct (complete_deferred_delete_sim b (release_reader v)) as (-> & -> & ->). done. Qed.

Definition released (v v' : ReaderWaitState) : Prop :=
  binding (r_link v') = unbound /\ topology_callback v' = None /\
  claim_in_progress v' = claim_in_progress v.

Lemma release_channels_spec dds ws rid cs n st ok cs' n' st' :
  ws <> 0 -> NoDup cs.*1 ->
  release_channels dds ws rid cs n st = (ok, cs', n', st') ->
  cs'.*1 = cs.*1 /\ links st' = links st /\ guards st' = guards st /\
  (forall r, reader_of st' r = reader_of st r \/
     r ∈ cs.*1 /\ linked_to ws rid (r_link (reader_of st r)) = true /\
     released (reader_of st r) (reader_of st' r)) /\
  (ok = true -> forall r, r ∈ cs.*1 -> linked_to ws rid (r_link (reader_of st' r)) = false) /\
  (forall r, r ∈ n' -> r ∈ n) /\
  (forall r, r ∈ n -> r ∉ n' -> r ∈ cs.*1 /\ linked_to ws rid (r_link (reader_of st r)) = true).
Proof.
  intros Hws. revert n st ok cs' n' st'. induction cs as [|[r b] cs IH]; intros n st ok cs' n' st' Hnd Hrel.
  { simpl in Hrel. simplify_eq. split_and!; try done; [by left | set_solver]. }
  apply NoDup_cons in Hnd as [Hni Hnd]. cbn [release_channels] in Hrel.
  destruct (linked_to ws rid (r_link (reader_of st r))) eqn:Hlk; cbn [negb] in Hrel.
  - destruct (b && negb (detach_ok dds r)) eqn:Hd.
    { simplify_eq. split_and!; try done; by left. }
    set (st1 := update_reader r _ st) in Hrel. set (n1 := if b then _ else _) in Hrel.
    destruct (release_channels dds ws rid cs n1 st1) as [[[ok1 cs1] n1'] st1'] eqn:Hrec.
    simplify_eq. destruct (IH _ _ _ _ _ _ Hnd Hrec) as (Hcs & Hl & Hg & Hr & Hok & Hn & Hn').
    assert (Hst1 : forall x, reader_of st1 x = if decide (r = x) then
               complete_deferred_delete (delete_ok dds r) (release_reader (reader_of st r)) else reader_of st x)
      by (intros; subst st1; apply reader_of_update).
    assert (Hself : reader_of st' r = complete_deferred_delete (delete_ok dds r) (release_reader (reader_of st r))).
    { destruct (Hr r) as [-> | (Hin & _)]; [|done]. by rewrite Hst1, decide_True. }
    split_and!; [by simpl; f_equal | done | done | | | |].
    + intros x. destruct (decide (r = x)) as [<-|Hne].
      * right. split; [left|]. split; [done|]. rewrite Hself. apply release_reader_binding.
      * specialize (Hr x). rewrite Hst1, decide_False in Hr by done.
        destruct Hr as [?|(? & ? & ?)]; [by left | right]. split; [by right | done].
    + intros -> x Hx. cbn in Hx. apply elem_of_cons in Hx as [->|Hx]; [|by apply Hok].
      rewrite Hself. apply linked_to_unbound; [done | apply release_reader_binding].
    + intros x Hx. apply Hn in Hx. subst n1. destruct b; set_solver.
    + intros x Hx Hx'. destruct (decide (r = x)) as [<-|Hne]; [split; [left | done]|].
      destruct (Hn' x) as [Hin Hlx]; [subst n1; destruct b; set_solver | done |].
      rewrite Hst1, decide_False in Hlx by done. split; [by right | done].
  - destruct (release_channels dds ws rid cs n st) as [[[ok1 cs1] n1'] st1'] eqn:Hrec.
    simplify_eq. destruct (IH _ _ _ _ _ _ Hnd Hrec) as (Hcs & Hl & Hg & Hr & Hok & Hn & Hn').
    split_and!; [by simpl; f_equal | done | done | | | done |].
    + intros x. destruct (Hr x) as [?|(? & ? & ?)]; [by left | right]. split; [by right | done].
    + intros -> x Hx. cbn in Hx. apply elem_of_cons in Hx as [->|Hx]; [|by apply Hok].
      destruct (Hr r) as [-> | (? & ? & ?)]; done.
    + intros x Hx Hx'. destruct (Hn' x Hx Hx'). split; [by right | done].
Qed.
