(* ===== verification/Wakeup.v ===== *)
(** * Wakeup: a wait set's control condition and its handoff with waiters

    Models [WaitSetWake] of src/impl/wait_set_impl.hpp, and how [notify],
    [wait_for_notification] and [TopologyMutationGuard] interleave.  The
    sequential operations come first; the step relation cuts them at the points
    where another thread can run. *)

From S2P Require Import Prelude.
From stdpp Require Import gmap.

(** ** The operations *)

(** [trigger_value] is that of the control GuardCondition. *)
Record WaitSetWake := MkWake { generation : Z; broken : bool; trigger_value : bool }.

Definition new_wake : WaitSetWake := MkWake 0 false false.

#[export] Instance WaitSetWake_inhabited : Inhabited WaitSetWake := populate new_wake.

(** The two parts of [notify]: the counter, then the trigger value. *)
Definition bump (w : WaitSetWake) : WaitSetWake :=
  MkWake (wrap_u64 (generation w + 1)) (broken w) (trigger_value w).

Definition set_trigger (value ok : bool) (w : WaitSetWake) : WaitSetWake :=
  if ok then MkWake (generation w) (broken w) value
  else MkWake (generation w) true (trigger_value w).

(** [ok] tells whether Fast DDS accepted the trigger value. *)
Definition notify (ok : bool) (w : WaitSetWake) : Result unit * WaitSetWake :=
  (if ok then success tt else fail DDSError "Fast DDS control condition trigger failed",
   set_trigger true ok (bump w)).

Definition clear_if_unchanged (ok : bool) (observed : Z) (w : WaitSetWake) : bool * WaitSetWake :=
  if negb (generation w =? observed)%Z then (false, w) else (ok, set_trigger false ok w).

(** [replace] detaches the control condition and attaches a fresh one, whose
    trigger value is false. *)
Definition replace (detached attached : bool) (w : WaitSetWake) : bool * WaitSetWake :=
  if negb detached then (false, w)
  else if negb attached then (false, w)
  else (true, MkWake (generation w) false false).

(** ** The handoff

    One waiter and any number of other threads.  A notifier triggers a
    GuardCondition and calls [notify]; a mutator adds, removes or reconciles
    under a [TopologyMutationGuard] and needs [native_mutex_], which the waiter
    holds during its native wait. *)

Inductive Waiter :=
  | Idle                        (* at the head of wait's loop, or not in wait *)
  | Scanning (observed : Z)     (* has read wake_->generation *)
  | Scanned (observed : Z)      (* found nothing ready *)
  | Handoff (observed : Z)      (* saw no mutation; holds topology_handoff_mutex_ *)
  | Locked (observed : Z)       (* holds native_mutex_ as well *)
  | Clearing                    (* in clear_if_unchanged, the generation compared *)
  | Sleeping.                   (* in the native wait; holds native_mutex_ *)

Inductive Thread :=
  | NRaise (g : nat) | NBump (g : nat) | NSet (g : nat)
  | MEnter | MBump1 | MSet1 | MNative | MNote | MLeave | MBump2 | MSet2
  | Done.

#[export] Instance Thread_eq_dec : EqDecision Thread.
Proof. solve_decision. Defined.

(** [ready]: the GuardConditions triggered and not yet consumed. *)
Record HState := MkH {
  wake : WaitSetWake;
  ready : gset nat;
  active_topology_mutations : nat;
  topology : Z;
  waiter : Waiter;
  threads : gmap nat Thread }.

Definition holds_handoff (w : Waiter) : bool :=
  match w with Handoff _ | Locked _ | Clearing => true | _ => false end.
Definition holds_native (w : Waiter) : bool :=
  match w with Locked _ | Clearing | Sleeping => true | _ => false end.
Definition holds_wake (w : Waiter) : bool :=
  match w with Clearing => true | _ => false end.

(** A thread's next step, [None] when it is blocked or has finished. *)
Definition thread_next (s : HState) (t : Thread) : option (WaitSetWake * gset nat * nat * Z * Thread) :=
  let '(w, rd, act, top) := (wake s, ready s, active_topology_mutations s, topology s) in
  match t with
  | NRaise g => Some (w, {[g]} ∪ rd, act, top, NBump g)
  | NBump g => Some (bump w, rd, act, top, NSet g)
  | NSet g => if holds_wake (waiter s) then None else Some (set_trigger true true w, rd, act, top, Done)
  | MEnter => if holds_handoff (waiter s) then None else Some (w, rd, S act, top, MBump1)
  | MBump1 => Some (bump w, rd, act, top, MSet1)
  | MSet1 => if holds_wake (waiter s) then None else Some (set_trigger true true w, rd, act, top, MNative)
  | MNative => if holds_native (waiter s) then None else Some (w, rd, act, top, MNote)
  | MNote => Some (w, rd, act, top + 1, MLeave)%Z
  | MLeave => if holds_handoff (waiter s) then None else Some (w, rd, pred act, top, MBump2)
  | MBump2 => Some (bump w, rd, act, top, MSet2)
  | MSet2 => if holds_wake (waiter s) then None else Some (set_trigger true true w, rd, act, top, Done)
  | Done => None
  end.

Inductive other_step (s : HState) : HState -> Prop :=
  | other_step_intro i t w rd act top t' :
      threads s !! i = Some t ->
      thread_next s t = Some (w, rd, act, top, t') ->
      other_step s (MkH w rd act top (waiter s) (<[i := t']> (threads s))).

Definition move (s : HState) (w : Waiter) : HState :=
  MkH (wake s) (ready s) (active_topology_mutations s) (topology s) w (threads s).

Inductive waiter_step : HState -> HState -> Prop :=
  | w_observe s : waiter s = Idle -> waiter_step s (move s (Scanning (generation (wake s))))
  | w_report s o : waiter s = Scanning o -> ready s <> ∅ ->
      waiter_step s (MkH (wake s) ∅ (active_topology_mutations s) (topology s) Idle (threads s))
  | w_nothing s o : waiter s = Scanning o -> ready s = ∅ -> waiter_step s (move s (Scanned o))
  | w_retry s o : waiter s = Scanned o -> waiter_step s (move s Idle)
  | w_handoff s o : waiter s = Scanned o -> active_topology_mutations s = 0 ->
      waiter_step s (move s (Handoff o))
  | w_lock s o : waiter s = Handoff o -> waiter_step s (move s (Locked o))
  | w_changed s o : waiter s = Locked o -> generation (wake s) <> o -> waiter_step s (move s Idle)
  | w_unchanged s o : waiter s = Locked o -> generation (wake s) = o ->
      waiter_step s (move s Clearing)
  | w_clear s : waiter s = Clearing ->
      waiter_step s (MkH (set_trigger false true (wake s)) (ready s) (active_topology_mutations s)
                       (topology s) Sleeping (threads s))
  | w_wake s : waiter s = Sleeping -> waiter_step s (move s Idle).

Definition handoff_step (s s' : HState) : Prop := waiter_step s s' \/ other_step s s'.

(** Threads that have not begun; fewer than 2^63, so that their two bumps each
    do not bring the counter back. *)
Definition handoff_init (s : HState) : Prop :=
  wake s = new_wake /\ ready s = ∅ /\ active_topology_mutations s = 0 /\ waiter s = Idle /\
  (forall i t, threads s !! i = Some t -> t = MEnter \/ exists g, t = NRaise g) /\
  (Z.of_nat (size (threads s)) < 2 ^ 63)%Z.

(** ** The invariant *)

Definition bumps_left (t : Thread) : nat :=
  match t with
  | MEnter | MBump1 => 2
  | NRaise _ | NBump _ | MSet1 | MNative | MNote | MLeave | MBump2 => 1
  | _ => 0
  end.

Definition in_mutation (t : Thread) : nat :=
  match t with MBump1 | MSet1 | MNative | MNote | MLeave => 1 | _ => 0 end.

Definition reconciling (t : Thread) : bool :=
  match t with MNative | MNote | MLeave => true | _ => false end.

Definition at_bump (s : HState) (g : nat) : Prop := exists i, threads s !! i = Some (NBump g).

(** A thread that has raised [g] and not yet set the trigger value. *)
Definition notifying (s : HState) (g : nat) : Prop :=
  exists i, threads s !! i = Some (NBump g) \/ threads s !! i = Some (NSet g).

(** A GuardCondition raised since the waiter read [o] has moved the counter or
    is about to. *)
Definition raised_after (s : HState) (o : Z) : Prop :=
  forall g, g ∈ ready s -> (o < generation (wake s))%Z \/ at_bump s g.

Definition waiter_ok (s : HState) : Prop :=
  match waiter s with
  | Idle => True
  | Scanning o => (o <= generation (wake s))%Z
  | Scanned o => (o <= generation (wake s))%Z /\ raised_after s o
  | Handoff o | Locked o =>
      active_topology_mutations s = 0 /\ (o <= generation (wake s))%Z /\ raised_after s o
  | Clearing => active_topology_mutations s = 0 /\ forall g, g ∈ ready s -> notifying s g
  | Sleeping =>
      trigger_value (wake s) = true \/
      (forall g, g ∈ ready s -> notifying s g) /\
      (forall i t, threads s !! i = Some t -> reconciling t = false)
  end.

Record HandoffInv (s : HState) : Prop := {
  inv_generation : (0 <= generation (wake s))%Z /\
    (generation (wake s) + Z.of_nat (map_sum bumps_left (threads s)) < 2 ^ 64)%Z;
  inv_active : active_topology_mutations s = map_sum in_mutation (threads s);
  inv_waiter : waiter_ok s }.

Lemma handoff_init_inv s : handoff_init s -> HandoffInv s.
Proof.
  intros (Hw & Hr & Ha & Hi & Ht & Hn). constructor.
  - rewrite Hw. simpl. split; [lia|].
    enough (map_sum bumps_left (threads s) <= 2 * size (threads s)) by lia.
    apply map_sum_bound. intros i t [-> | [g ->]]%Ht; simpl; lia.
  - rewrite Ha. enough (map_sum in_mutation (threads s) <= 0 * size (threads s)) by lia.
    apply map_sum_bound. intros i t [-> | [g ->]]%Ht; simpl; lia.
  - unfold waiter_ok. by rewrite Hi.
Qed.

(** No thread is inside a mutation while the counter is 0. *)
Lemma no_mutation s i t :
  active_topology_mutations s = map_sum in_mutation (threads s) ->
  active_topology_mutations s = 0 -> threads s !! i = Some t -> in_mutation t = 0.
Proof. intros Ha H0 Ht. pose proof (map_sum_elem in_mutation _ _ _ Ht). lia. Qed.

Lemma waiter_step_inv s s' : HandoffInv s -> waiter_step s s' -> HandoffInv s'.
Proof.
  intros [Hg Ha Hw] Hs. unfold waiter_ok in Hw.
  destruct Hs as [s H|s o H Hr|s o H Hr|s o H|s o H H0|s o H|s o H Hn|s o H Hn|s H|s H];
    rewrite H in Hw; constructor; unfold waiter_ok, raised_after, notifying, at_bump in *;
    simpl in *; intuition auto; try lia.
  - rewrite Hr in *. set_solver.
  - match goal with Hr : forall g, _ -> _ \/ _, Hin : _ ∈ ready _ |- _ => destruct (Hr _ Hin) as [|[i Hi]] end;
      [lia | eauto].
  - right. split; [done|]. intros i t Ht.
    enough (in_mutation t = 0) by (by destruct t). eauto using no_mutation.
Qed.

#[local] Arguments bump : simpl never.

Ltac thread_cases t Hn :=
  destruct t; cbn in Hn; case_match_hyps; simplify_eq/=.

Lemma bump_generation w : (0 <= generation w < UINT64_MAX)%Z -> generation (bump w) = (generation w + 1)%Z.
Proof. intros H. unfold bump. simpl. apply wrap_u64_small. unfold_ints. lia. Qed.

(** A step moves what is left to bump into the counter, and keeps the number
    of mutations under way. *)
Lemma thread_next_counts s t w rd act top t' :
  (0 <= generation (wake s) /\ generation (wake s) + Z.of_nat (bumps_left t) < 2 ^ 64)%Z ->
  in_mutation t <= active_topology_mutations s ->
  thread_next s t = Some (w, rd, act, top, t') ->
  (generation w + Z.of_nat (bumps_left t') = generation (wake s) + Z.of_nat (bumps_left t))%Z /\
  bumps_left t' <= bumps_left t /\
  act + in_mutation t = active_topology_mutations s + in_mutation t'.
Proof.
  intros Hg Ha Hn. pose proof (bump_generation (wake s)) as Hb. unfold UINT64_MAX in Hb.
  thread_cases t Hn; rewrite ?Hb; lia.
Qed.

(** What a thread's step adds to the GuardConditions raised. *)
Lemma thread_next_ready s t w rd act top t' g :
  thread_next s t = Some (w, rd, act, top, t') -> g ∈ rd -> g ∈ ready s \/ t' = NBump g.
Proof.
  intros Hn Hg. thread_cases t Hn; auto.
  apply elem_of_union in Hg as [->%elem_of_singleton | ?]; auto.
Qed.

Section OtherStep.
Context (s : HState) (i : nat) (t t' : Thread) (w : WaitSetWake) (rd : gset nat) (act : nat) (top : Z).
Context (Hinv : HandoffInv s) (Hi : threads s !! i = Some t).
Context (Hn : thread_next s t = Some (w, rd, act, top, t')).

Local Notation s' := (MkH w rd act top (waiter s) (<[i := t']> (threads s))).

Lemma other_step_counts :
  (generation w + Z.of_nat (bumps_left t') = generation (wake s) + Z.of_nat (bumps_left t))%Z /\
  bumps_left t' <= bumps_left t /\
  act + in_mutation t = active_topology_mutations s + in_mutation t'.
Proof.
  destruct Hinv as [Hg Ha _]. pose proof (map_sum_elem bumps_left _ _ _ Hi).
  pose proof (map_sum_elem in_mutation _ _ _ Hi).
  eapply thread_next_counts; [lia | lia | done].
Qed.

Lemma other_step_sums :
  (0 <= generation w /\ generation w + Z.of_nat (map_sum bumps_left (threads s')) < 2 ^ 64)%Z /\
  act = map_sum in_mutation (threads s').
Proof.
  destruct Hinv as [Hg Ha _]. pose proof other_step_counts. simpl.
  pose proof (map_sum_update bumps_left (threads s) i t t' Hi).
  pose proof (map_sum_update in_mutation (threads s) i t t' Hi). lia.
Qed.

Lemma notifying_step g : t <> NSet g -> notifying s g -> notifying s' g.
Proof.
  intros Ht [j Hj]. exists j. simpl. destruct (decide (i = j)) as [->|Hij].
  - destruct Hj as [Hj|Hj]; [|congruence]. assert (t = NBump g) as Hb by congruence.
    clear -Hn Hb. rewrite lookup_insert_eq, Hb in *. simpl in Hn. injection Hn as <- <- <- <- <-. auto.
  - by rewrite lookup_insert_ne.
Qed.

Lemma raised_after_step o :
  (o <= generation (wake s))%Z -> raised_after s o -> (o <= generation w)%Z /\ raised_after s' o.
Proof.
  intros Ho Hr. pose proof other_step_counts as (Hc & Hb & _). split; [lia|].
  intros g Hg. destruct (thread_next_ready _ _ _ _ _ _ _ g Hn Hg) as [Hg' | ->].
  - destruct (Hr g Hg') as [Hlt | [j Hj]]; [left; simpl; lia|].
    destruct (decide (i = j)) as [->|Hij].
    + assert (t = NBump g) as -> by congruence. simpl in Hn. injection Hn as <- <- <- <- <-. left. simpl in *. lia.
    + right. exists j. simpl. by rewrite lookup_insert_ne.
  - right. exists i. simpl. by rewrite lookup_insert_eq.
Qed.

Lemma notifying_all_step :
  (forall g, t <> NSet g) -> (forall g, g ∈ ready s -> notifying s g) ->
  forall g, g ∈ rd -> notifying s' g.
Proof.
  intros Ht Hall g Hg. destruct (thread_next_ready _ _ _ _ _ _ _ g Hn Hg) as [Hg' | ->].
  - apply notifying_step; auto.
  - exists i. left. simpl. by rewrite lookup_insert_eq.
Qed.

Lemma other_step_waiter : waiter_ok s'.
Proof.
  destruct Hinv as [_ _ Hw]. pose proof other_step_counts as (Hc & Hb & Hm).
  assert (Hact : holds_handoff (waiter s) = true -> act <= active_topology_mutations s).
  { intros Hh. clear -Hn Hm Hh. thread_cases t Hn; lia || congruence. }
  unfold waiter_ok in *. simpl. destruct (waiter s) eqn:Hwt; try done; simpl in Hact.
  - lia.
  - destruct Hw. by apply raised_after_step.
  - destruct Hw as (? & ? & ?). split; [specialize (Hact eq_refl); lia|]. by apply raised_after_step.
  - destruct Hw as (? & ? & ?). split; [specialize (Hact eq_refl); lia|]. by apply raised_after_step.
  - destruct Hw as [? Hw]. split; [specialize (Hact eq_refl); lia|].
    apply notifying_all_step; [|done]. intros g Ht. rewrite Ht in Hn. cbn in Hn. by rewrite Hwt in Hn.
  - destruct (trigger_value w) eqn:Htw; [by left | right].
    destruct Hw as [Hw | [Hw Hr]].
    { exfalso. thread_cases t Hn; congruence. }
    split.
    + apply notifying_all_step; [|done]. intros g Ht. rewrite Ht in Hn. cbn in Hn. rewrite Hwt in Hn. by simplify_eq/=.
    + intros j u. destruct (decide (i = j)) as [->|Hij].
      * rewrite lookup_insert_eq. intros [= <-]. pose proof (Hr _ _ Hi).
        destruct t; cbn in Hn; rewrite ?Hwt in Hn; simplify_eq/=; done.
      * rewrite lookup_insert_ne by done. apply Hr.
Qed.

Lemma other_step_inv : HandoffInv s'.
Proof.
  pose proof other_step_sums as [? ?]. constructor; [done | done | apply other_step_waiter].
Qed.
End OtherStep.

Lemma handoff_invariant s : reachable handoff_init handoff_step s -> HandoffInv s.
Proof.
  apply reachable_invariant; [apply handoff_init_inv|].
  intros s0 s1 Hinv [Hs|[i t w rd act top t' Hi Hn]]; [by eapply waiter_step_inv|].
  by eapply other_step_inv.
Qed.

(** ** Termination of the other threads *)

Definition rank (t : Thread) : nat :=
  match t with
  | MEnter => 8 | MBump1 => 7 | MSet1 => 6 | MNative => 5 | MNote => 4
  | MLeave | NRaise _ => 3 | MBump2 | NBump _ => 2 | MSet2 | NSet _ => 1 | Done => 0
  end.

Lemma other_step_rank s s' : other_step s s' -> map_sum rank (threads s') < map_sum rank (threads s).
Proof.
  intros [i t w rd act top t' Hi Hn]. simpl. pose proof (map_sum_update rank _ _ _ t' Hi).
  enough (rank t' < rank t) by lia. thread_cases t Hn; lia.
Qed.

Lemma other_steps_terminate s : Acc (fun b a => other_step a b) s.
Proof.
  induction (Wf_nat.well_founded_ltof _ (fun s => map_sum rank (threads s)) s) as [s _ IH].
  constructor. intros s' Hs. apply IH. by apply other_step_rank.
Qed.

Lemma other_step_keeps s s' :
  other_step s s' -> waiter s' = waiter s /\ ready s ⊆ ready s' /\
  (waiter s = Sleeping -> forall i, threads s !! i = Some MNative -> threads s' !! i = Some MNative).
Proof.
  intros [i t w rd act top t' Hi Hn]. simpl. split_and!; [done | |].
  - thread_cases t Hn; set_solver.
  - intros Hw j Hj. destruct (decide (i = j)) as [->|Hij]; [|by rewrite lookup_insert_ne].
    assert (t = MNative) as -> by congruence. cbn in Hn. by rewrite Hw in Hn.
Qed.

Lemma other_steps_keep s s' :
  rtc other_step s s' -> waiter s' = waiter s /\ ready s ⊆ ready s' /\
  (waiter s = Sleeping -> forall i, threads s !! i = Some MNative -> threads s' !! i = Some MNative).
Proof.
  induction 1 as [s|s s1 s2 Hs _ (Hw & Hr & Ht)]; [done|].
  apply other_step_keeps in Hs as (Hw1 & Hr1 & Ht1). split_and!.
  - congruence.
  - set_solver.
  - intros Hsl i Hi. apply Ht; [congruence | auto].
Qed.

Lemma other_steps_inv s s' : HandoffInv s -> rtc other_step s s' -> HandoffInv s'.
Proof.
  intros Hinv Hs. induction Hs as [|a b c [i t w rd act top t' Hi Hn] _ IH]; [done|].
  apply IH. by eapply other_step_inv.
Qed.

(** Beside a sleeping waiter only a thread that wants the native wait set, or
    one that has finished, cannot move. *)
Lemma stuck_threads s i t :
  waiter s = Sleeping -> (forall s', ~ other_step s s') -> threads s !! i = Some t ->
  t = MNative \/ t = Done.
Proof.
  intros Hw Hstuck Hi.
  destruct (thread_next s t) as [[[[[w rd] act] top] t']|] eqn:Hn.
  - exfalso. eapply Hstuck. by econstructor.
  - destruct t; cbn in Hn; rewrite ?Hw in Hn; simplify_eq/=; auto.
Qed.

(** C7: No wake-up is lost: while a waiter sleeps in the native wait with the
    control condition unset, every GuardCondition triggered and not consumed
    belongs to a trigger call that has yet to set it, and no thread that
    changes the topology waits for the native wait set. *)
Theorem no_lost_wakeup s :
  reachable handoff_init handoff_step s -> waiter s = Sleeping -> trigger_value (wake s) = false ->
  (forall g, g ∈ ready s -> notifying s g) /\
  (forall i t, threads s !! i = Some t -> reconciling t = false).
Proof.
  intros Hr Hw Ht. destruct (handoff_invariant s Hr) as [_ _ Hi].
  unfold waiter_ok in Hi. rewrite Hw in Hi. destruct Hi; [congruence | done].
Qed.

(** C28: A sleeping waiter is woken: once a GuardCondition is triggered, or a
    thread waits to change the topology, the other threads run only finitely
    often, and when they can run no further the control condition is set. *)
Theorem sleeper_is_woken s :
  reachable handoff_init handoff_step s -> waiter s = Sleeping ->
  (ready s <> ∅ \/ exists i, threads s !! i = Some MNative) ->
  Acc (fun b a => other_step a b) s /\
  forall s', rtc other_step s s' -> (forall s'', ~ other_step s' s'') ->
    waiter s' = Sleeping /\ trigger_value (wake s') = true.
Proof.
  intros Hr Hw Hneed. split; [apply other_steps_terminate|].
  intros s' Hs Hstuck. destruct (other_steps_keep s s' Hs) as (Hw' & Hrd & Hnat).
  rewrite Hw in Hw'. split; [done|].
  destruct (other_steps_inv s s' (handoff_invariant s Hr) Hs) as [_ _ Hi].
  unfold waiter_ok in Hi. rewrite Hw' in Hi. destruct Hi as [|[Hall Hrec]]; [done|].
  destruct Hneed as [Hne | [i Hn]].
  - apply set_choose_L in Hne as [g Hg]. destruct (Hall g (Hrd g Hg)) as [i [Hi|Hi]];
      destruct (stuck_threads s' i _ Hw' Hstuck Hi); done.
  - pose proof (Hrec i MNative (Hnat Hw i Hn)). done.
Qed.

(** ** A waiter asleep while thread 0 is in the middle of a trigger call *)

Definition asleep_threads : gmap nat Thread := {[0 := NRaise 5; 1 := MEnter]}.

Definition asleep (w : Waiter) : HState := MkH new_wake ∅ 0 0 w asleep_threads.

Definition asleep_example : HState :=
  MkH new_wake ({[5]} ∪ ∅) 0 0 Sleeping (<[0 := NBump 5]> asleep_threads).

Lemma asleep_reachable : reachable handoff_init handoff_step asleep_example.
Proof.
  apply (reach_step _ _ (asleep Sleeping)).
  2:{ right. exact (other_step_intro (asleep Sleeping) 0 _ _ _ _ _ _ eq_refl eq_refl). }
  assert (Hgo : forall a b, reachable handoff_init handoff_step (asleep a) ->
                  waiter_step (asleep a) (asleep b) -> reachable handoff_init handoff_step (asleep b)).
  { intros a b Ha Hs. eapply reach_step; [exact Ha | by left]. }
  apply (Hgo Clearing); [|exact (w_clear (asleep Clearing) eq_refl)].
  apply (Hgo (Locked 0)); [|exact (w_unchanged (asleep (Locked 0)) 0 eq_refl eq_refl)].
  apply (Hgo (Handoff 0)); [|exact (w_lock (asleep (Handoff 0)) 0 eq_refl)].
  apply (Hgo (Scanned 0)); [|exact (w_handoff (asleep (Scanned 0)) 0 eq_refl eq_refl)].
  apply (Hgo (Scanning 0)); [|exact (w_nothing (asleep (Scanning 0)) 0 eq_refl eq_refl)].
  apply (Hgo Idle); [|exact (w_observe (asleep Idle) eq_refl)].
  apply reach_init. split_and!; try done.
  intros i t Hi. unfold asleep, asleep_threads in Hi. simpl in Hi.
  apply lookup_insert_Some in Hi as [[_ <-]|[_ [_ <-]%lookup_singleton_Some]]; eauto.
Qed.

Lemma no_lost_wakeup_witness :
  (forall g, g ∈ ready asleep_example -> notifying asleep_example g) /\
  (forall i t, threads asleep_example !! i = Some t -> reconciling t = false).
Proof. apply (no_lost_wakeup asleep_example); [apply asleep_reachable | done | done]. Defined.

Lemma sleeper_is_woken_witness :
  Acc (fun b a => other_step a b) asleep_example /\
  forall s', rtc other_step asleep_example s' -> (forall s'', ~ other_step s' s'') ->
    waiter s' = Sleeping /\ trigger_value (wake s') = true.
Proof.
  apply (sleeper_is_woken asleep_example); [apply asleep_reachable | done | left; done].
Defined.
