(* ===== verification/WaitSet.v ===== *)
(** * WaitSet: wait sets, their registrations and their waits

    Models [WaitSetState] and the registration helpers of
    src/impl/wait_set_impl.hpp, and src/impl/wait_set_impl.cpp.  A [World] is
    the store of waitables and every wait set of the process by its id.  An
    operation is atomic, [dds] gives the outcomes of its Fast DDS calls, and
    what other threads do meanwhile is an argument where the code can see it;
    [Wakeup] has the interleaving of a wait with its wake-ups.  [None] is an
    operation that never returns. *)

From S2P Require Import Prelude Deadline Waitables Wakeup.
From stdpp Require Import gmap.
Local Open Scope Z_scope.

(** ** State *)

Record WaitSetState := MkWaitSet {
  ws_context : nat;
  next_registration_id : Z;
  shutdown_callback_id : Z;
  control_condition_attached : bool;
  ws_closing : bool;
  waiting : bool;
  poisoned : bool;
  topology_generation : Z;
  ws_active_mutations : nat;
  registrations : gmap Z Registration;
  native : gset nat;                        (* the reader conditions attached *)
  ws_wake : WaitSetWake }.

Definition new_wait_set (context : nat) : WaitSetState :=
  MkWaitSet context 1 0 false false false false 1 0 ∅ ∅ new_wake.

#[export] Instance WaitSetState_inhabited : Inhabited WaitSetState := populate (new_wait_set 0).

Definition with_registrations (m : gmap Z Registration) (s : WaitSetState) : WaitSetState :=
  MkWaitSet (ws_context s) (next_registration_id s) (shutdown_callback_id s)
    (control_condition_attached s) (ws_closing s) (waiting s) (poisoned s) (topology_generation s)
    (ws_active_mutations s) m (native s) (ws_wake s).

Definition with_native (n : gset nat) (s : WaitSetState) : WaitSetState :=
  MkWaitSet (ws_context s) (next_registration_id s) (shutdown_callback_id s)
    (control_condition_attached s) (ws_closing s) (waiting s) (poisoned s) (topology_generation s)
    (ws_active_mutations s) (registrations s) n (ws_wake s).

Definition with_wake (v : WaitSetWake) (s : WaitSetState) : WaitSetState :=
  MkWaitSet (ws_context s) (next_registration_id s) (shutdown_callback_id s)
    (control_condition_attached s) (ws_closing s) (waiting s) (poisoned s) (topology_generation s)
    (ws_active_mutations s) (registrations s) (native s) v.

Definition with_next_id (n : Z) (s : WaitSetState) : WaitSetState :=
  MkWaitSet (ws_context s) n (shutdown_callback_id s) (control_condition_attached s) (ws_closing s)
    (waiting s) (poisoned s) (topology_generation s) (ws_active_mutations s) (registrations s)
    (native s) (ws_wake s).

Definition with_waiting (b : bool) (s : WaitSetState) : WaitSetState :=
  MkWaitSet (ws_context s) (next_registration_id s) (shutdown_callback_id s)
    (control_condition_attached s) (ws_closing s) b (poisoned s) (topology_generation s)
    (ws_active_mutations s) (registrations s) (native s) (ws_wake s).

Definition with_mutations (n : nat) (s : WaitSetState) : WaitSetState :=
  MkWaitSet (ws_context s) (next_registration_id s) (shutdown_callback_id s)
    (control_condition_attached s) (ws_closing s) (waiting s) (poisoned s) (topology_generation s)
    n (registrations s) (native s) (ws_wake s).

Definition poison (s : WaitSetState) : WaitSetState :=
  MkWaitSet (ws_context s) (next_registration_id s) (shutdown_callback_id s)
    (control_condition_attached s) (ws_closing s) (waiting s) true (topology_generation s)
    (ws_active_mutations s) (registrations s) (native s) (ws_wake s).

Definition with_control (callback : Z) (attached : bool) (s : WaitSetState) : WaitSetState :=
  MkWaitSet (ws_context s) (next_registration_id s) callback attached (ws_closing s) (waiting s)
    (poisoned s) (topology_generation s) (ws_active_mutations s) (registrations s) (native s)
    (ws_wake s).

(** The first critical section of [close]. *)
Definition begin_close (s : WaitSetState) : WaitSetState :=
  MkWaitSet (ws_context s) (next_registration_id s) 0 (control_condition_attached s) true (waiting s)
    (poisoned s) (topology_generation s) (ws_active_mutations s) (registrations s) (native s)
    (ws_wake s).

Definition note_topology_mutation (s : WaitSetState) : WaitSetState :=
  if topology_generation s =? UINT64_MAX then poison s
  else MkWaitSet (ws_context s) (next_registration_id s) (shutdown_callback_id s)
         (control_condition_attached s) (ws_closing s) (waiting s) (poisoned s)
         (topology_generation s + 1) (ws_active_mutations s) (registrations s) (native s) (ws_wake s).

Definition notify_wake (dds : Dds) (s : WaitSetState) : WaitSetState :=
  with_wake (notify (trigger_ok dds) (ws_wake s)).2 s.

(** The constructor and the destructor of [TopologyMutationGuard]. *)
Definition begin_mutation (dds : Dds) (s : WaitSetState) : WaitSetState :=
  notify_wake dds (with_mutations (S (ws_active_mutations s)) s).

Definition end_mutation (dds : Dds) (s : WaitSetState) : WaitSetState :=
  let s := note_topology_mutation s in
  notify_wake dds (with_mutations (pred (ws_active_mutations s)) s).

Record World := MkWorld { store : Store; wait_sets : gmap Z WaitSetState }.

Definition ws_of (w : World) (i : Z) : WaitSetState := wait_sets w !!! i.

Definition with_store (st : Store) (w : World) : World := MkWorld st (wait_sets w).

Definition set_ws (i : Z) (s : WaitSetState) (w : World) : World :=
  MkWorld (store w) (<[i := s]> (wait_sets w)).

Definition on_ws (i : Z) (f : WaitSetState -> WaitSetState) (w : World) : World :=
  set_ws i (f (ws_of w i)) w.

(** A waitable's [notify_wait_set]: its wake callback, if it has one. *)
Definition notify_link (dds : Dds) (l : Link) (w : World) : Result unit * World :=
  match wake_callback l with
  | Some i => ((notify (trigger_ok dds) (ws_wake (ws_of w i))).1, on_ws i (notify_wake dds) w)
  | None => (success tt, w)
  end.

(** ** Detaching *)

Definition quarantine_readers (i : Z) (rs : list nat) (st : Store) : Store :=
  fold_right (fun r => update_reader r (quarantine_wait_set i)) st rs.

(** [detach]: the registration is [R]; it may not be in the map yet. *)
Definition detach (dds : Dds) (i : Z) (R : Registration) (w : World) : bool * World :=
  if decide (phase R = PhaseAttached) then
    let w := on_ws i (begin_mutation dds) w in
    let '(ok, R, n, st) := release dds i R (native (ws_of w i)) (store w) in
    if ok then
      (true, on_ws i (fun s => end_mutation dds
               (with_registrations (delete (Waitables.id R) (registrations s)) (with_native n s))) (with_store st w))
    else
      (false, on_ws i (fun s => end_mutation dds
                (poison (with_registrations (alter (fun _ => R) (Waitables.id R) (registrations s)) (with_native n s))))
                (with_store (quarantine_readers i (reader_ids R) st) w))
  else (false, w).

(** [detach] by a thread that holds [mutex_], which both its outcomes lock. *)
Definition detach_holding_mutex (R : Registration) (w : World) : option (bool * World) :=
  if decide (phase R = PhaseAttached) then None else Some (false, w).

(** A waitable's detach callback: both its weak pointers must be live. *)
Definition run_detach_callback (dds : Dds) (l : Link) (w : World) : bool * World :=
  match detach_callback l with
  | None => (true, w)
  | Some (i, rid) =>
      match registrations (ws_of w i) !! rid with
      | Some R => detach dds i R w
      | None => (false, w)
      end
  end.

(** ** Adding *)

Fixpoint set_topology_callbacks (i rid : Z) (index : nat) (rs : list nat) (st : Store) : Store :=
  match rs with
  | [] => st
  | r :: rs => set_topology_callbacks i rid (S index) rs
                 (update_reader r (with_topology (Some (i, rid, index))) st)
  end.

Definition claim_error (res : AttachResult) : Result Z :=
  match res with
  | ClaimAlreadyRegistered => fail AlreadyRegistered "Waitable is already registered"
  | ClaimClosing => fail ParentDestroyed "Waitable is closing"
  | _ => fail DDSError "Fast DDS failed to attach a reader condition"
  end.

Definition add (dds : Dds) (race : Race) (i : Z) (g t e : option nat) (rs : list nat)
    (k : WaitableKind) (ld rd : bool) (w : World) : option (Result Z * World) :=
  let s := ws_of w i in
  let rid := next_registration_id s in
  if ws_closing s then Some (fail ParentDestroyed "WaitSet is closing", w)
  else if poisoned s then Some (fail DDSError "WaitSet topology is poisoned", w)
  else if rid =? 0 then Some (fail ResourceExhausted "WaitSet registration IDs are exhausted", w)
  else
    let R := MkRegistration rid k g t e ((fun r => (r, false)) <$> rs) ld rd PhaseAttached UINT32_MAX in
    let w := on_ws i (begin_mutation dds) w in
    match claim dds race i R (native (ws_of w i)) (store w) with
    | None => None
    | Some (res, closed, R, n, st) =>
        let w := on_ws i (with_native n) (with_store st w) in
        let finish := on_ws i (end_mutation dds) in
        if closed && negb (closer_detaches race) then
          (fun x : bool * World => (fail ParentDestroyed "Waitable is closing", finish x.2))
            <$> detach_holding_mutex R w
        else if closed then
          Some (fail ParentDestroyed "Waitable is closing", (detach dds i R (finish w)).2)
        else if negb (bool_decide (res = ClaimAttached)) then Some (claim_error res, finish w)
        else if negb (bool_decide (phase R = PhaseAttached)) then
          (* only if a closer detaches between the claim and this test *)
          let '(_, R, n, st) := release dds i R (native (ws_of w i)) (store w) in
          Some (fail ParentDestroyed "Waitable is closing",
                finish (on_ws i (with_native n) (with_store st w)))
        else
          let w := with_store (set_topology_callbacks i rid 0 (reader_ids R) (store w)) w in
          Some (success rid, on_ws i (fun s => end_mutation dds
                  (with_next_id (wrap_u64 (rid + 1))
                    (with_registrations (<[rid := R]> (registrations s)) s))) w)
    end.

(** ** Reconciling, removing, closing *)

(** [reconcile_reader_condition] on the channel at [index]. *)
Definition reconcile_channel (dds : Dds) (st : Store) (R : Registration) (index : nat)
    (c : nat * bool) (n : gset nat) : bool * (nat * bool) * gset nat :=
  let r := reader_of st c.1 in
  if negb (reader_interested R index && blocking_enabled r && negb (r_closing r)) then
    if c.2 && negb (detach_ok dds c.1) then (false, c, n)
    else (true, (c.1, false), if c.2 then n ∖ {[c.1]} else n)
  else if negb c.2 then
    match attach_single dds st R index c n with
    | (ClaimAttached, b, n) => (true, (c.1, b), n)
    | (_, _, n) => (false, c, n)
    end
  else (true, c, n).

Definition reconcile_reader_condition (dds : Dds) (i rid : Z) (index : nat) (w : World) : bool * World :=
  match registrations (ws_of w i) !! rid with
  | None => (true, w)
  | Some R =>
      match channels R !! index with
      | None => (true, w)
      | Some c =>
          let '(ok, c, n) := reconcile_channel dds (store w) R index c (native (ws_of w i)) in
          let R := with_channels (<[index := c]> (channels R)) R in
          let f s := with_registrations (<[rid := R]> (registrations s)) (with_native n s) in
          (ok, on_ws i (fun s => if ok then f s else poison (f s)) w)
      end
  end.

Definition remove (dds : Dds) (i rid : Z) (k : WaitableKind) (w : World) : bool * World :=
  match registrations (ws_of w i) !! rid with
  | Some R => if decide (kind R = k) then detach dds i R w else (false, w)
  | None => (false, w)
  end.

Definition allowed_interest : Z :=
  Z.lor (Z.lor (Z.lor kActionGoalRequestBit kActionCancelRequestBit) kActionResultRequestBit)
    kActionGoalExpiredBit.

(** The loop of [set_interest] over the indices of the readers. *)
Fixpoint reconcile_all (dds : Dds) (i rid : Z) (indices : list nat) (w : World) : bool * World :=
  match indices with
  | [] => (true, w)
  | index :: indices =>
      match reconcile_reader_condition dds i rid index w with
      | (true, w) => reconcile_all dds i rid indices w
      | (false, w) => (false, w)
      end
  end.

Definition set_interest (dds : Dds) (i rid : Z) (k : WaitableKind) (mask : Z) (w : World)
    : Result unit * World :=
  match registrations (ws_of w i) !! rid with
  | None => (fail NotRegistered "Registration is stale", w)
  | Some R =>
      if negb (bool_decide (kind R = k)) then (fail NotRegistered "Registration is stale", w)
      else if negb (bool_decide (phase R = PhaseAttached)) then
        (fail NotRegistered "Registration is stale", w)
      else if negb (bool_decide (k = ActionServer)) then
        (fail Unsupported "Interest requires ActionServer", w)
      else if negb (Z.ldiff mask allowed_interest =? 0) then
        (fail InvalidArgument "Unknown ActionServer interest bit", w)
      else
        let w := on_ws i (fun s => begin_mutation dds
                   (with_registrations (<[rid := with_interest mask R]> (registrations s)) s)) w in
        let '(ok, w) := reconcile_all dds i rid (seq 0 (length (channels R))) w in
        (if ok then success tt else fail DDSError "Interest reconciliation failed",
         on_ws i (end_mutation dds) w)
  end.

Definition set_reader_blocking (dds : Dds) (i rid : Z) (index : nat) (w : World) : World :=
  match registrations (ws_of w i) !! rid with
  | None => w
  | Some R =>
      if (length (channels R) <=? index)%nat || negb (bool_decide (phase R = PhaseAttached)) then w
      else
        let w := on_ws i (begin_mutation dds) w in
        on_ws i (end_mutation dds) (reconcile_reader_condition dds i rid index w).2
  end.

Section Waits.
Context `{!HashOrder Z Registration}.

(** The loop of [close]; [None] when the fuel runs out. *)
Fixpoint close_loop (dds : Dds) (fuel : nat) (i : Z) (w : World) : option World :=
  match fuel with
  | O => None
  | S fuel =>
      match hash_order (registrations (ws_of w i)) with
      | [] => Some w
      | (_, R) :: _ =>
          match detach dds i R w with
          | (true, w) => close_loop dds fuel i w
          | (false, w) => Some w
          end
      end
  end.

Definition close (dds : Dds) (fuel : nat) (i : Z) (w : World) : option World :=
  if ws_closing (ws_of w i) then Some w
  else
    on_ws i (fun s => notify_wake dds (with_control (shutdown_callback_id s) false s))
      <$> close_loop dds fuel i (on_ws i (fun s => notify_wake dds (begin_close s)) w).

(** ** Waitables that act on their wait set *)

Definition trigger (dds : Dds) (operation : bool) (g : nat) (w : World) : Result unit * World :=
  let '(res, v) := raise_trigger operation (guard_of (store w) g) in
  let w := with_store (set_guard g v (store w)) w in
  match res with
  | success _ => notify_link dds (link_of (store w) (GuardOf g)) w
  | failure _ => (res, w)
  end.

(** [GuardConditionState::close]; a Timer and a GraphEvent close alike. *)
Definition close_logical (dds : Dds) (l : Logical) (w : World) : World :=
  let w := with_store (set_link l (link_close (link_of (store w) l)) (store w)) w in
  let w := (run_detach_callback dds (link_of (store w) l) w).2 in
  (notify_link dds (link_of (store w) l) w).2.

(** [ReaderWaitState::close] waits until no claim is in progress. *)
Definition close_reader (dds : Dds) (r : nat) (w : World) : option (bool * World) :=
  if claim_in_progress (reader_of (store w) r) then None
  else
    let w := with_store (update_reader r (with_link link_close) (store w)) w in
    let '(detached, w) := run_detach_callback dds (r_link (reader_of (store w) r)) w in
    let f := if detached then drop_reader else with_lifecycle DeleteDeferredByWaitSet in
    let w := with_store (update_reader r f (store w)) w in
    Some (detached, (notify_link dds (r_link (reader_of (store w) r)) w).2).

Definition set_blocking_enabled (dds : Dds) (r : nat) (enabled : bool) (w : World) : World :=
  if bool_decide (blocking_enabled (reader_of (store w) r) = enabled) then w
  else
    let w := with_store (update_reader r (with_blocking enabled) (store w)) w in
    let w := match topology_callback (reader_of (store w) r) with
             | Some (i, rid, index) => set_reader_blocking dds i rid index w
             | None => w
             end in
    (notify_link dds (r_link (reader_of (store w) r)) w).2.

(** ** Creation and the registration facade *)

(** [initialize_shutdown_callback]: whether the control condition could be
    attached, and the id the Context gave (0 once it is shut down). *)
Definition initialize_shutdown_callback (attached : bool) (callback : Z) (s : WaitSetState)
    : Result unit * WaitSetState :=
  if negb attached then (fail DDSError "Fast DDS failed to attach the control condition", s)
  else
    let s := note_topology_mutation (with_control (shutdown_callback_id s) true s) in
    if negb (callback =? 0) then (success tt, with_control callback true s)
    else (fail ContextShutdown "Context is shut down", with_control 0 false s).

(** [next] is the process-wide [next_wait_set_id]. *)
Definition create_wait_set (operation attached : bool) (callback : Z) (context : nat) (next : Z)
    (w : World) : Result Z * Z * World :=
  if negb operation then (fail ContextShutdown "Context is shut down", next, w)
  else
    let next' := wrap_u64 (next + 1) in
    if next =? 0 then (fail ResourceExhausted "WaitSet IDs are exhausted", next', w)
    else
      match initialize_shutdown_callback attached callback (new_wait_set context) with
      | (success _, s) => (success next, next', set_ws next s w)
      | (failure e, _) => (failure e, next', w)
      end.

Definition token (i : Z) (k : WaitableKind) (r : option (Result Z * World))
    : option (Result WaitableRegistration * World) :=
  (fun '(res, w) =>
     (match res with success rid => success (MkToken i rid k) | failure e => failure e end, w)) <$> r.

Definition wrong_context : Error := MkError InvalidArgument "Waitable belongs to another Context".
Definition context_shut_down : Error := MkError ContextShutdown "Context is shut down".

(** [add_guard], [add_timer] and [add_graph_event]. *)
Definition add_logical (dds : Dds) (operation : bool) (i : Z) (l : Logical) (k : WaitableKind)
    (w : World) : option (Result Z * World) :=
  if negb (Nat.eqb (link_context (link_of (store w) l)) (ws_context (ws_of w i)))
  then Some (failure wrong_context, w)
  else if negb operation then Some (failure context_shut_down, w)
  else match l with
       | GuardOf g => add dds no_race i (Some g) None None [] k false false w
       | TimerOf t => add dds no_race i None (Some t) None [] Timer false false w
       | GraphEventOf e => add dds no_race i None None (Some e) [] GraphEvent false false w
       end.

Definition add_readers (dds : Dds) (race : Race) (operation : bool) (i : Z) (rs : list nat)
    (k : WaitableKind) (ld rd : bool) (w : World) : option (Result Z * World) :=
  if bool_decide (rs = []) then
    Some (fail InvalidArgument "Waitable has no readable channel", w)
  else if existsb (fun r => negb (Nat.eqb (link_context (r_link (reader_of (store w) r)))
                                          (ws_context (ws_of w i)))) rs
  then Some (failure wrong_context, w)
  else if negb operation then Some (failure context_shut_down, w)
  else add dds race i None None None rs k ld rd w.

(** [WaitSet::Impl::add]: the kind a waitable's class allows. *)
Definition impl_add (dds : Dds) (operation : bool) (i : Z) (l : Logical) (k : WaitableKind)
    (w : World) : option (Result WaitableRegistration * World) :=
  match l with
  | TimerOf _ =>
      if negb (bool_decide (k = Timer)) then
        Some (fail InvalidArgument "Timer registration requires the Timer waitable kind", w)
      else token i k (add_logical dds operation i l k w)
  | GraphEventOf _ =>
      if negb (bool_decide (k = GraphEvent)) then
        Some (fail InvalidArgument "GraphEvent registration requires the GraphEvent kind", w)
      else token i k (add_logical dds operation i l k w)
  | GuardOf _ => token i k (add_logical dds operation i l k w)
  end.

Definition impl_add_composite (dds : Dds) (race : Race) (operation : bool) (i : Z) (rs : list nat)
    (k : WaitableKind) (ld rd : bool) (w : World) : option (Result WaitableRegistration * World) :=
  token i k (add_readers dds race operation i rs k ld rd w).

Definition foreign (i : Z) (t : WaitableRegistration) : bool :=
  negb (token_valid t) || negb (token_wait_set_id t =? i).

Definition impl_remove (dds : Dds) (operation : bool) (i : Z) (t : WaitableRegistration) (w : World)
    : Result unit * World :=
  if foreign i t then (fail InvalidArgument "Registration belongs to another WaitSet", w)
  else if negb operation then (failure context_shut_down, w)
  else
    let '(ok, w) := remove dds i (token_registration_id t) (token_kind t) w in
    (if ok then success tt else fail NotRegistered "WaitSet registration is stale", w).

Definition impl_set_interest (dds : Dds) (operation : bool) (i : Z) (t : WaitableRegistration)
    (mask : Z) (w : World) : Result unit * World :=
  if foreign i t then (fail NotRegistered "Registration is stale", w)
  else if negb operation then (failure context_shut_down, w)
  else set_interest dds i (token_registration_id t) (token_kind t) mask w.

(** ** Waiting *)

Inductive WaitStatus := Ready | TimedOut.

Record ReadyWaitable := MkReadyWaitable {
  ready_registration : WaitableRegistration; ready_kind : WaitableKind; detail_mask : Z }.

Record WaitResult := MkWaitResult { wait_status : WaitStatus; wait_ready : list ReadyWaitable }.

Definition begin_wait (s : WaitSetState) : Result unit * WaitSetState :=
  if ws_closing s then (fail ParentDestroyed "WaitSet is closing", s)
  else if poisoned s then (fail DDSError "WaitSet topology is poisoned", s)
  else if waiting s then (fail Busy "WaitSet already has an active wait", s)
  else (success tt, with_waiting true s).

Definition snapshot (s : WaitSetState) : list Registration :=
  filter (fun R => phase R = PhaseAttached) (hash_order (registrations s)).*2.

(** [replaced] are the outcomes of detaching the control condition and of
    attaching its replacement. *)
Definition repair_control_guard_if_needed (replaced : bool * bool) (s : WaitSetState)
    : Result unit * WaitSetState :=
  if negb (broken (ws_wake s)) then (success tt, s)
  else
    match replace replaced.1 replaced.2 (ws_wake s) with
    | (true, v) => (success tt, note_topology_mutation (with_wake v s))
    | (false, v) =>
        (fail DDSError "Fast DDS control guard replacement failed", poison (with_wake v s))
    end.

(** The scan: registrations that close are detached, the others asked. *)
Fixpoint scan (dds : Dds) (rd : Readiness) (i : Z) (rs : list Registration) (w : World)
    : list ReadyWaitable * World :=
  match rs with
  | [] => ([], w)
  | R :: rs =>
      if registration_is_closing (store w) R then scan dds rd i rs (detach dds i R w).2
      else
        let '(mask, st) := ready_mask rd R (store w) in
        let '(found, w) := scan dds rd i rs (with_store st w) in
        (if mask =? 0 then found
         else MkReadyWaitable (MkToken i (Waitables.id R) (kind R)) (kind R) mask :: found, w)
  end.

(** [duration_cast] of a native wait slice to (seconds, nanoseconds). *)
Definition max_native_wait : Z := INT32_MAX * 1000000000 + 999999999.

Definition native_duration (timeout : Z) : Z * Z :=
  if timeout <=? 0 then (0, 0)
  else
    let clamped := Z.min timeout max_native_wait in
    (Z.quot clamped 1000000000, Z.rem clamped 1000000000).

(** What the native wait returned: RETCODE_OK, RETCODE_TIMEOUT or an error. *)
Inductive NativeResult := Woken | Expired | NativeFailure (code : ErrorCode).

(** After the handoff (no mutation under way).  [during] is what other threads
    do while the native wait lasts. *)
Definition wait_for_notification (dds : Dds) (observed : Z) (res : NativeResult)
    (during : World -> World) (i : Z) (w : World) : Result unit * World :=
  let '(cleared, v) := clear_if_unchanged (trigger_ok dds) observed (ws_wake (ws_of w i)) in
  let w := on_ws i (with_wake v) w in
  if negb cleared then (success tt, w)
  else (match res with
        | NativeFailure c => fail c "Fast DDS WaitSet wait failed"
        | _ => success tt
        end, during w).

Definition earlier (deadline : Z) (candidate : option Z) : Z :=
  match candidate with
  | Some d => if d <? deadline then d else deadline
  | None => deadline
  end.

(** Fold the deadlines of Timers and of Action goals into the wait's own. *)
Definition fold_deadlines (timer_deadline : nat -> option Z) (runtime : Z -> option Z)
    (rs : list Registration) (deadline : Z) : Z :=
  fold_left (fun d R =>
    let d := match Waitables.timer R with Some t => earlier d (timer_deadline t) | None => d end in
    if runtime_deadline R &&
       (negb (bool_decide (kind R = ActionServer)) ||
        negb (Z.land (interest R) kActionGoalExpiredBit =? 0))
    then earlier d (runtime (Waitables.id R)) else d) rs deadline.

(** What one turn of the loop observes. *)
Record Turn := MkTurn {
  turn_dds : Dds;
  replaced : bool * bool;
  is_shutdown : bool;
  readiness : Readiness;
  during_scan : World -> World;          (* before the first topology check *)
  now_scan : Z;
  timer_deadline : nat -> option Z;
  runtime_deadlines : Z -> option Z;
  during_fold : World -> World;          (* before the second one *)
  now_native : Z;
  native_result : NativeResult;
  during_native : World -> World }.

(** One turn: [Some] when wait returns, [None] when it loops. *)
Definition wait_turn (i : Z) (timeout : WaitTimeout) (deadline : Z) (u : Turn) (w : World)
    : option (Result WaitResult) * World :=
  let '(repaired, s) := repair_control_guard_if_needed (replaced u) (ws_of w i) in
  let w := set_ws i s w in
  match repaired with
  | failure e => (Some (failure e), w)
  | success _ =>
      if is_shutdown u then (Some (failure context_shut_down), w)
      else if ws_closing (ws_of w i) then (Some (fail ParentDestroyed "WaitSet is closing"), w)
      else
        let observed_topology := topology_generation (ws_of w i) in
        let observed_wake := generation (ws_wake (ws_of w i)) in
        let rs := snapshot (ws_of w i) in
        let '(found, w) := scan (turn_dds u) (readiness u) i rs w in
        let w := during_scan u w in
        if negb (topology_generation (ws_of w i) =? observed_topology) then (None, w)
        else if negb (bool_decide (found = [] :> list _)) then
          (Some (success (MkWaitResult Ready found)), w)
        else if bool_decide (timeout_kind timeout = Poll) then
          (Some (success (MkWaitResult TimedOut [])), w)
        else if bool_decide (timeout_kind timeout = Finite) && (deadline <=? now_scan u) then
          (Some (success (MkWaitResult TimedOut [])), w)
        else
          let native_deadline :=
            fold_deadlines (timer_deadline u) (runtime_deadlines u) rs deadline in
          let w := during_fold u w in
          if negb (topology_generation (ws_of w i) =? observed_topology) then (None, w)
          else if negb (native_deadline =? INT64_MAX) && (native_deadline - now_native u <=? 0)
          then (None, w)
          else
            match wait_for_notification (turn_dds u) observed_wake (native_result u)
                    (during_native u) i w with
            | (failure e, w) => (Some (failure e), w)
            | (success _, w) => (None, w)
            end
  end.

Fixpoint wait_turns (i : Z) (timeout : WaitTimeout) (deadline : Z) (us : list Turn) (w : World)
    : option (Result WaitResult) * World :=
  match us with
  | [] => (None, w)
  | u :: us =>
      match wait_turn i timeout deadline u w with
      | (Some res, w) => (Some res, on_ws i (with_waiting false) w)
      | (None, w) => wait_turns i timeout deadline us w
      end
  end.

(** [wait] over the turns [us]; [None]: it still waits. *)
Definition wait `{!WideCompare} (operation : bool) (now : Z) (i : Z) (timeout : WaitTimeout)
    (us : list Turn) (w : World) : option (Result WaitResult) * World :=
  if negb operation then (Some (failure context_shut_down), w)
  else
    match begin_wait (ws_of w i) with
    | (failure e, _) => (Some (failure e), w)
    | (success _, s) =>
        match steady_deadline timeout now with
        | None => (None, w)
        | Some deadline => wait_turns i timeout deadline us (set_ws i s w)
        end
    end.
End Waits.
