(* ===== verification/WaitInvariant.v ===== *)
(** * WaitInvariant: what links waitables to the wait sets that hold them

    The invariant of a [World] and its preservation by every operation of
    [WaitSet]: a waitable's link names the registration that holds it, and a
    registration's waitables point back to it, until a failed Fast DDS detach
    poisons the wait set.

    A history is a sequence of whole operations ([world_step]): adding,
    removing, closing, detaching and each turn of a wait are steps.  In the
    code they take [mutex_] of the wait set and the mutexes of the waitables in
    turn, so operations of different threads also meet halfway; of that the
    steps have only what [Race] and [Turn] carry.  The theorems of this file
    are about histories at this granularity. *)

From S2P Require Import Prelude Deadline Waitables Wakeup WaitSet.
From stdpp Require Import gmap.
Local Open Scope Z_scope.

(** ** Reading the world after a write *)

Lemma ws_of_on_ws i f w j : ws_of (on_ws i f w) j = if decide (i = j) then f (ws_of w i) else ws_of w j.
Proof.
  unfold ws_of at 1, on_ws, set_ws. simpl. destruct (decide (i = j)) as [->|Hne].
  - apply lookup_total_insert_eq.
  - by apply lookup_total_insert_ne.
Qed.

Lemma ws_of_set_ws i s w j : ws_of (set_ws i s w) j = if decide (i = j) then s else ws_of w j.
Proof. apply (ws_of_on_ws i (fun _ => s)). Qed.

Lemma ws_of_with_store st w i : ws_of (with_store st w) i = ws_of w i.
Proof. done. Qed.

Create Rewrite HintDb world.
#[export] Hint Rewrite ws_of_on_ws ws_of_set_ws ws_of_with_store : world.

(** Case analysis on which wait set is read. *)
Ltac world_cases :=
  autorewrite with world in *; repeat case_decide; simplify_eq.

(** ** Worlds with the same registrations

    Most steps leave the links between waitables and registrations alone. *)

Definition reg_sim (R R' : Registration) : Prop :=
  Waitables.id R' = Waitables.id R /\ kind R' = kind R /\ phase R' = phase R /\
  logical_of R' = logical_of R /\ reader_ids R' = reader_ids R.

Definition ws_sim (s s' : WaitSetState) : Prop :=
  (forall rid, option_Forall2 reg_sim (registrations s !! rid) (registrations s' !! rid)) /\
  next_registration_id s' = next_registration_id s /\
  (poisoned s = true -> poisoned s' = true).

Definition world_sim (w w' : World) : Prop :=
  store_sim (store w) (store w') /\ forall i, ws_sim (ws_of w i) (ws_of w' i).

#[export] Instance reg_sim_preorder : PreOrder reg_sim.
Proof.
  split; [done|]. intros x y z (? & ? & ? & ? & ?) (? & ? & ? & ? & ?).
  split_and!; congruence.
Qed.

#[export] Instance ws_sim_preorder : PreOrder ws_sim.
Proof.
  split.
  - intros s. split_and!; [|done..]. intros rid. by destruct (registrations s !! rid); constructor.
  - intros x y z (Hr & Hn & Hp) (Hr' & Hn' & Hp'). split_and!; [|congruence|auto].
    intros rid. specialize (Hr rid). specialize (Hr' rid). destruct Hr; inversion Hr'; subst; constructor.
    etrans; done.
Qed.

#[export] Instance world_sim_preorder : PreOrder world_sim.
Proof.
  split; [by split|]. intros x y z [Hs Hw] [Hs' Hw']. split; [by transitivity (store y)|].
  intros i. by transitivity (ws_of y i).
Qed.

Lemma same_registration_sim R R' : same_registration R R' -> reg_sim R R'.
Proof. intros [Hids Heq]. unfold reg_sim. rewrite Heq at 1 2 3 4. split_and!; done. Qed.

Lemma world_sim_store w st : store_sim (store w) st -> world_sim w (with_store st w).
Proof. by intros Hs. Qed.

Lemma world_sim_on_ws_at i f w : ws_sim (ws_of w i) (f (ws_of w i)) -> world_sim w (on_ws i f w).
Proof. intros Hf. split; [done|]. intros j. by world_cases. Qed.

Lemma world_sim_on_ws i f w : (forall s, ws_sim s (f s)) -> world_sim w (on_ws i f w).
Proof. intros Hf. by apply world_sim_on_ws_at. Qed.

(** The functions on a wait set that leave its registrations alone. *)
Lemma ws_sim_frame s s' :
  registrations s' = registrations s -> next_registration_id s' = next_registration_id s ->
  (poisoned s = true -> poisoned s' = true) -> ws_sim s s'.
Proof.
  intros Hr Hn Hp. split_and!; [|done..]. intros rid. rewrite Hr.
  by destruct (registrations s !! rid); constructor.
Qed.

Ltac ws_frame := intros; apply ws_sim_frame; try done.

Lemma note_topology_mutation_sim s : ws_sim s (note_topology_mutation s).
Proof. unfold note_topology_mutation. case_match; by ws_frame. Qed.

Lemma begin_mutation_sim dds s : ws_sim s (begin_mutation dds s).
Proof. by ws_frame. Qed.

Lemma end_mutation_sim dds s : ws_sim s (end_mutation dds s).
Proof. unfold end_mutation. etrans; [apply note_topology_mutation_sim | by ws_frame]. Qed.

Lemma with_native_sim n s : ws_sim s (with_native n s).
Proof. by ws_frame. Qed.

Lemma poison_sim s : ws_sim s (poison s).
Proof. by ws_frame. Qed.

Lemma with_registration_sim rid R R' s :
  registrations s !! rid = Some R -> reg_sim R R' ->
  ws_sim s (with_registrations (<[rid := R']> (registrations s)) s).
Proof.
  intros HR Hsim. split_and!; [|done..]. intros rid'. simpl.
  destruct (decide (rid = rid')) as [<-|Hne].
  - rewrite HR, lookup_insert_eq. by constructor.
  - rewrite lookup_insert_ne by done. by destruct (registrations s !! rid'); constructor.
Qed.

Lemma notify_link_sim dds l w : world_sim w (notify_link dds l w).2.
Proof.
  unfold notify_link. destruct (wake_callback l); [|done]. apply world_sim_on_ws. by ws_frame.
Qed.

(** ** The registration invariant

    [owns w i rid R]: the wait set [i] holds [R] under [rid]. *)

Definition owns (w : World) (i rid : Z) (R : Registration) : Prop :=
  registrations (ws_of w i) !! rid = Some R.

Record WInv (w : World) : Prop := {
  wi_reg i rid R : owns w i rid R ->
    Waitables.id R = rid /\ phase R = PhaseAttached /\ i <> 0 /\ rid <> 0 /\ NoDup (reader_ids R) /\
    (next_registration_id (ws_of w i) = 0 \/ 0 < rid < next_registration_id (ws_of w i));
  wi_next i : in_u64 (next_registration_id (ws_of w i));
  wi_logical i rid R l : owns w i rid R -> logical_of R = Some l ->
    binding (link_of (store w) l) = bound i rid;
  wi_reader i rid R r : owns w i rid R -> logical_of R = None -> r ∈ reader_ids R ->
    poisoned (ws_of w i) = true \/ binding (r_link (reader_of (store w) r)) = bound i rid;
  wi_link l : binding (link_of (store w) l) = unbound \/
    exists i rid R, owns w i rid R /\ logical_of R = Some l /\ binding (link_of (store w) l) = bound i rid;
  wi_rlink r :
    binding (r_link (reader_of (store w) r)) = unbound \/
    exists i rid, binding (r_link (reader_of (store w) r)) = bound i rid /\ i <> 0 /\
      if registrations (ws_of w i) !! rid is Some R then logical_of R = None /\ r ∈ reader_ids R
      else poisoned (ws_of w i) = true;
  wi_claim r : claim_in_progress (reader_of (store w) r) = false }.

Lemma owns_sim w w' i rid R' :
  world_sim w w' -> owns w' i rid R' -> exists R, owns w i rid R /\ reg_sim R R'.
Proof.
  intros [_ Hw] HR. destruct (Hw i) as [Hr _]. specialize (Hr rid). unfold owns in *. rewrite HR in Hr.
  inversion Hr; eauto.
Qed.

Lemma owns_sim_fwd w w' i rid R :
  world_sim w w' -> owns w i rid R -> exists R', owns w' i rid R' /\ reg_sim R R'.
Proof.
  intros [_ Hw] HR. destruct (Hw i) as [Hr _]. specialize (Hr rid). unfold owns in *. rewrite HR in Hr.
  inversion Hr; eauto.
Qed.

Lemma WInv_sim w w' : WInv w -> world_sim w w' -> WInv w'.
Proof.
  intros [Hreg Hnext Hlog Hrd Hlink Hrl Hcl] Hsim. pose proof Hsim as [[Hl Hr] Hw].
  assert (Hn : forall i, next_registration_id (ws_of w' i) = next_registration_id (ws_of w i))
    by (intros i; apply Hw).
  assert (Hp : forall i, poisoned (ws_of w i) = true -> poisoned (ws_of w' i) = true)
    by (intros i; apply Hw).
  constructor.
  - intros i rid R' HR. destruct (owns_sim _ _ _ _ _ Hsim HR) as (R & HR0 & Hid & _ & Hph & _ & Hids).
    rewrite Hid, Hph, Hids, Hn. by apply Hreg.
  - intros i. rewrite Hn. apply Hnext.
  - intros i rid R' l HR Hlg. destruct (owns_sim _ _ _ _ _ Hsim HR) as (R & HR0 & _ & _ & _ & Hlo & _).
    rewrite Hl. apply (Hlog i rid R); [done | congruence].
  - intros i rid R' r HR Hlg Hin.
    destruct (owns_sim _ _ _ _ _ Hsim HR) as (R & HR0 & _ & _ & _ & Hlo & Hids).
    destruct (Hr r) as [-> _]. destruct (Hrd i rid R r) as [?|?]; auto; congruence.
  - intros l. rewrite Hl. destruct (Hlink l) as [?|(i & rid & R & HR & Hlg & Hb)]; [by left | right].
    destruct (owns_sim_fwd _ _ _ _ _ Hsim HR) as (R' & HR' & _ & _ & _ & Hlo & _).
    exists i, rid, R'. split_and!; [done | congruence | done].
  - intros r. destruct (Hr r) as (-> & _). destruct (Hrl r) as [?|(i & rid & Hb & Hi & Hc)]; [by left | right].
    exists i, rid. split_and!; [done..|]. destruct (Hw i) as [Hri _]. specialize (Hri rid).
    destruct (registrations (ws_of w i) !! rid); inversion Hri as [? R' (_ & _ & _ & Hlo & Hids)|]; subst.
    + rewrite Hlo, Hids. done.
    + auto.
  - intros r. destruct (Hr r) as (_ & _ & ->). done.
Qed.

(** A bound waitable has one registration. *)
Lemma bound_inj i rid i' rid' : bound i rid = bound i' rid' -> i = i' /\ rid = rid'.
Proof. by intros [= -> ->]. Qed.

(** ** Detaching keeps the invariant *)

(** What remains once [R] is gone from the map: nothing points to it, or the
    wait set is poisoned and some readers still do. *)
Lemma WInv_forget w w' i rid R :
  WInv w -> owns w i rid R ->
  (forall j k, registrations (ws_of w' j) !! k =
     if decide (i = j /\ rid = k) then None else registrations (ws_of w j) !! k) ->
  (forall j, in_u64 (next_registration_id (ws_of w' j))) ->
  (forall j k R', owns w' j k R' ->
     next_registration_id (ws_of w' j) = 0 \/ 0 < k < next_registration_id (ws_of w' j)) ->
  (forall j, poisoned (ws_of w j) = true -> poisoned (ws_of w' j) = true) ->
  (forall l, if decide (logical_of R = Some l) then binding (link_of (store w') l) = unbound
             else binding (link_of (store w') l) = binding (link_of (store w) l)) ->
  (forall r, reader_sim (reader_of (store w) r) (reader_of (store w') r) /\
               (binding (r_link (reader_of (store w) r)) = bound i rid -> poisoned (ws_of w' i) = true) \/
             binding (r_link (reader_of (store w) r)) = bound i rid /\
               released (reader_of (store w) r) (reader_of (store w') r)) ->
  WInv w'.
Proof.
  intros [Hreg Hnext Hlog Hrd Hlink Hrl Hcl] HR Hregs Hn Hnk Hp Hl Hr.
  assert (Howns : forall j k R', owns w' j k R' -> owns w j k R' /\ (j <> i \/ k <> rid)).
  { intros j k R'. unfold owns. rewrite Hregs. case_decide; [done | intros ?; split; [done | lia]]. }
  assert (Hkeep : forall j k R', owns w j k R' -> (j <> i \/ k <> rid) -> owns w' j k R').
  { intros j k R'. unfold owns. rewrite Hregs. case_decide; [lia | done]. }
  pose proof (Hreg _ _ _ HR) as (_ & _ & Hi & _).
  constructor.
  - intros j k R' HR'. pose proof (Hnk _ _ _ HR'). apply Howns in HR' as [HR' _].
    destruct (Hreg _ _ _ HR') as (? & ? & ? & ? & ? & _). done.
  - apply Hn.
  - intros j k R' l [HR' Hne]%Howns Hlg. specialize (Hl l). case_decide as Hd; [|by rewrite Hl; eauto].
    pose proof (Hlog _ _ _ _ HR Hd) as H1. rewrite (Hlog _ _ _ _ HR' Hlg) in H1.
    apply bound_inj in H1. lia.
  - intros j k R' r [HR' Hne]%Howns Hlg Hin. destruct (Hrd _ _ _ _ HR' Hlg Hin) as [?|Hb]; [auto|].
    right. destruct (Hr r) as [[(-> & _) _]|[Hb' _]]; [done|].
    rewrite Hb in Hb'. apply bound_inj in Hb'. lia.
  - intros l. specialize (Hl l). case_decide as Hd; [by left|]. rewrite Hl.
    destruct (Hlink l) as [?|(j & k & R' & HR' & Hlg & Hb)]; [by left | right].
    exists j, k, R'. split_and!; [|done..]. apply Hkeep; [done|].
    destruct (decide (j = i /\ k = rid)) as [[-> ->]|]; [|lia].
    unfold owns in *. congruence.
  - intros r. destruct (Hr r) as [[(-> & _) Hpo]|[_ (Hu & _)]]; [|by left].
    destruct (Hrl r) as [?|(j & k & Hb & Hj & Hc)]; [by left | right].
    exists j, k. split_and!; [done..|]. rewrite Hregs. case_decide as Hd.
    + destruct Hd as [<- <-]. auto.
    + destruct (registrations (ws_of w j) !! k); auto.
  - intros r. destruct (Hr r) as [[(_ & _ & ->) _]|[_ (_ & _ & ->)]]; apply Hcl.
Qed.

(** A failed detach: some readers of [R] are released, and [i] is poisoned. *)
Lemma WInv_partly_released w w' i rid R :
  WInv w -> owns w i rid R -> (forall j, ws_sim (ws_of w j) (ws_of w' j)) ->
  poisoned (ws_of w' i) = true ->
  (forall l, binding (link_of (store w') l) = binding (link_of (store w) l)) ->
  (forall r, reader_sim (reader_of (store w) r) (reader_of (store w') r) \/
     binding (r_link (reader_of (store w) r)) = bound i rid /\
     released (reader_of (store w) r) (reader_of (store w') r)) ->
  WInv w'.
Proof.
  intros Hinv HR Hws Hp Hl Hr.
  set (w1 := MkWorld (store w) (wait_sets w')).
  assert (Hs1 : world_sim w w1) by (split; [done | exact Hws]).
  pose proof (WInv_sim _ _ Hinv Hs1) as [Hreg Hnext Hlog Hrd Hlink Hrl Hcl].
  constructor.
  - exact Hreg.
  - exact Hnext.
  - intros j k R' l HR' Hlg. rewrite Hl. by apply (Hlog j k R').
  - intros j k R' r HR' Hlg Hin. destruct (Hr r) as [[-> _]|[Hb _]].
    + by apply (Hrd j k R').
    + left. destruct (Hrd j k R' r HR' Hlg Hin) as [?|Hb']; [done|].
      change (store w1) with (store w) in Hb'. rewrite Hb in Hb'. apply bound_inj in Hb' as [<- <-]. done.
  - intros l. rewrite Hl. apply (Hlink l).
  - intros r. destruct (Hr r) as [(-> & _)|[_ (Hu & _)]]; [apply (Hrl r) | by left].
  - intros r. destruct (Hr r) as [(_ & _ & ->)|[_ (_ & _ & ->)]]; apply Hcl.
Qed.

Lemma linked_bound w i rid r :
  WInv w -> i <> 0 ->
  linked_to i rid (r_link (reader_of (store w) r)) = true <->
  binding (r_link (reader_of (store w) r)) = bound i rid.
Proof.
  intros Hinv Hi. destruct (wi_rlink w Hinv r) as [Hu|(j & k & Hb & _)].
  - rewrite (linked_to_unbound _ _ _ Hi Hu), Hu. unfold unbound, bound. split; [done|]. congruence.
  - rewrite (linked_to_bound _ _ _ _ _ Hb), Hb, bool_decide_eq_true. split; [by intros [-> ->] | intros H%bound_inj; lia].
Qed.

(** A release that succeeds, or stops at a detach that fails. *)
Lemma release_effect dds w i rid R ok R' n' st' :
  WInv w -> owns w i rid R -> release dds i R (native (ws_of w i)) (store w) = (ok, R', n', st') ->
  same_registration R R' /\ guards st' = guards (store w) /\
  (forall l, if decide (ok = true /\ logical_of R = Some l) then link_of st' l = link_clear (link_of (store w) l)
             else link_of st' l = link_of (store w) l) /\
  (forall r, reader_of st' r = reader_of (store w) r \/
     logical_of R = None /\ binding (r_link (reader_of (store w) r)) = bound i rid /\
     released (reader_of (store w) r) (reader_of st' r)) /\
  (ok = true -> logical_of R = None ->
     forall r, binding (r_link (reader_of (store w) r)) = bound i rid ->
       released (reader_of (store w) r) (reader_of st' r)).
Proof.
  intros Hinv HR Hrel. pose proof (wi_reg w Hinv i rid R HR) as (Hid & _ & Hi & Hrid & Hnd & _).
  unfold release in Hrel. destruct (logical_of R) as [l|] eqn:Hlg.
  - unfold release_logical_waitable in Hrel. rewrite Hid in Hrel.
    rewrite (linked_to_bound _ _ _ _ _ (wi_logical w Hinv i rid R l HR Hlg)) in Hrel.
    rewrite bool_decide_eq_true_2 in Hrel by done. simplify_eq. split_and!; try done.
    + by destruct R'.
    + intros l'. rewrite link_of_set. repeat case_decide; naive_solver.
    + by left.
  - destruct (release_channels _ _ _ _ _ _) as [[[ok' cs] n1] st1] eqn:Hc. simplify_eq.
    destruct (release_channels_spec _ _ _ _ _ _ _ _ _ _ Hi Hnd Hc) as (Hcs & Hl & Hg & Hr & Hok & _ & _).
    split; [by split|]. split; [done|]. split_and!.
    + intros l. rewrite decide_False by naive_solver. unfold link_of. by rewrite Hl.
    + intros r. destruct (Hr r) as [?|(Hin & Hlk & Hrl)]; [by left | right].
      split_and!; [done | by apply linked_bound | done].
    + intros -> _ r Hb. pose proof (proj2 (linked_bound w i (Waitables.id R) r Hinv Hi) Hb) as Hlk.
      destruct (wi_rlink w Hinv r) as [Hu|(j & k & Hb2 & _ & Hc2)].
      { rewrite Hu in Hb. unfold unbound, bound in Hb. congruence. }
      rewrite Hb in Hb2. apply bound_inj in Hb2 as [<- <-]. unfold owns in HR. rewrite HR in Hc2.
      pose proof (Hok eq_refl r (proj2 Hc2)) as Hun.
      destruct (Hr r) as [Heq|(_ & _ & ?)]; [congruence | done].
Qed.

Lemma end_mutation_frame dds s :
  registrations (end_mutation dds s) = registrations s /\ native (end_mutation dds s) = native s /\
  next_registration_id (end_mutation dds s) = next_registration_id s /\
  ws_closing (end_mutation dds s) = ws_closing s /\ ws_context (end_mutation dds s) = ws_context s /\
  waiting (end_mutation dds s) = waiting s /\
  (poisoned s = true -> poisoned (end_mutation dds s) = true).
Proof. unfold end_mutation, note_topology_mutation. by case_match. Qed.

Lemma quarantine_readers_sim i rs st : store_sim st (quarantine_readers i rs st).
Proof. by apply store_sim_updates. Qed.

Lemma quarantine_readers_frame i rs st :
  links (quarantine_readers i rs st) = links st /\ guards (quarantine_readers i rs st) = guards st.
Proof. induction rs as [|r rs [IHl IHg]]; simpl; done. Qed.

Lemma link_of_quarantine i rs st l : link_of (quarantine_readers i rs st) l = link_of st l.
Proof. unfold link_of. by destruct (quarantine_readers_frame i rs st) as [-> _]. Qed.

(** The wait set after a detach of [R] that released [R'] and left the
    conditions [n]. *)
Definition after_detach (dds : Dds) (ok : bool) (R' : Registration) (n : gset nat) (s : WaitSetState)
    : WaitSetState :=
  end_mutation dds
    (if ok then with_registrations (delete (Waitables.id R') (registrations s)) (with_native n (begin_mutation dds s))
     else poison (with_registrations (alter (fun _ => R') (Waitables.id R') (registrations s))
                    (with_native n (begin_mutation dds s)))).

Lemma detach_shape dds w i R ok R' n st :
  phase R = PhaseAttached -> release dds i R (native (ws_of w i)) (store w) = (ok, R', n, st) ->
  (detach dds i R w).1 = ok /\
  store (detach dds i R w).2 = (if ok then st else quarantine_readers i (reader_ids R') st) /\
  forall j, ws_of (detach dds i R w).2 j =
    if decide (i = j) then after_detach dds ok R' n (ws_of w i) else ws_of w j.
Proof.
  intros Hph Hrel. unfold detach. rewrite decide_True by done.
  rewrite ws_of_on_ws, decide_True by done. cbn [store on_ws set_ws].
  change (native (begin_mutation dds (ws_of w i))) with (native (ws_of w i)). rewrite Hrel.
  destruct ok; split; [done | | done |]; (split; [done|]); intros j; cbn [snd];
    rewrite ws_of_on_ws, !ws_of_with_store, !ws_of_on_ws; by repeat case_decide.
Qed.

Lemma after_detach_frame dds ok R' n s :
  registrations (after_detach dds ok R' n s) =
    (if ok then delete (Waitables.id R') (registrations s)
     else alter (fun _ => R') (Waitables.id R') (registrations s)) /\
  native (after_detach dds ok R' n s) = n /\
  next_registration_id (after_detach dds ok R' n s) = next_registration_id s /\
  (poisoned s = true \/ ok = false -> poisoned (after_detach dds ok R' n s) = true).
Proof.
  unfold after_detach.
  match goal with |- context [end_mutation dds ?s'] =>
    destruct (end_mutation_frame dds s') as (-> & -> & -> & _ & _ & _ & Hp) end.
  destruct ok; split_and!; try done; intros [?|?]; by apply Hp.
Qed.

(** A detach that succeeds forgets the registration and unbinds what it held. *)
Lemma detach_succeeds dds w i rid R w' :
  WInv w -> owns w i rid R -> detach dds i R w = (true, w') ->
  WInv w' /\
  (forall j, j <> i -> ws_of w' j = ws_of w j) /\
  registrations (ws_of w' i) = delete rid (registrations (ws_of w i)) /\
  (forall l, link_of (store w') l =
     if decide (logical_of R = Some l) then link_clear (link_of (store w) l) else link_of (store w) l) /\
  (forall r, reader_of (store w') r = reader_of (store w) r \/
     logical_of R = None /\ binding (r_link (reader_of (store w) r)) = bound i rid /\
     released (reader_of (store w) r) (reader_of (store w') r)) /\
  (logical_of R = None -> forall r, binding (r_link (reader_of (store w) r)) = bound i rid ->
     released (reader_of (store w) r) (reader_of (store w') r)).
Proof.
  intros Hinv HR Hd. pose proof (wi_reg w Hinv i rid R HR) as (Hid & Hph & _).
  destruct (release dds i R (native (ws_of w i)) (store w)) as [[[ok R'] n'] st'] eqn:Hrel.
  destruct (release_effect dds w i rid R ok R' n' st' Hinv HR Hrel) as (Hsame & _ & Hl & Hr & Hrok).
  pose proof (same_registration_sim _ _ Hsame) as (Hid' & _). rewrite Hid in Hid'.
  destruct (detach_shape dds w i R ok R' n' st' Hph Hrel) as (Hok & Hst & Hws). rewrite Hd in Hok, Hst, Hws.
  simpl in Hok. subst ok. simpl in Hst, Hws.
  destruct (after_detach_frame dds true R' n' (ws_of w i)) as (Hfr & _ & Hfn & Hfp). rewrite Hid' in Hfr.
  assert (Hl' : forall l, link_of (store w') l =
    if decide (logical_of R = Some l) then link_clear (link_of (store w) l) else link_of (store w) l).
  { intros l. specialize (Hl l). rewrite Hst.
    destruct (decide (logical_of R = Some l)); [by rewrite decide_True in Hl | rewrite decide_False in Hl by tauto; done]. }
  rewrite <- Hst in Hr, Hrok. split; [|split_and!; auto].
  - eapply (WInv_forget w _ i rid R Hinv HR).
    + intros j k. rewrite Hws. destruct (decide (i = j)) as [<-|Hij].
      * rewrite Hfr. destruct (decide (i = i /\ rid = k)) as [[_ <-]|Hk]; [by rewrite lookup_delete_eq|].
        rewrite lookup_delete_ne; [done | naive_solver].
      * by rewrite decide_False by naive_solver.
    + intros j. rewrite Hws. destruct (decide (i = j)) as [<-|]; [rewrite Hfn|]; apply Hinv.
    + intros j k R2. unfold owns. rewrite Hws. destruct (decide (i = j)) as [<-|].
      * rewrite Hfr, Hfn. intros [_ HR2]%lookup_delete_Some. by apply (wi_reg w Hinv i k R2).
      * intros HR2. by apply (wi_reg w Hinv j k R2).
    + intros j. rewrite Hws. destruct (decide (i = j)) as [<-|]; auto.
    + intros l. rewrite Hl'. by destruct (decide (logical_of R = Some l)).
    + intros r. destruct (Hr r) as [Heq|(? & ? & ?)]; [|by right].
      destruct (decide (binding (r_link (reader_of (store w) r)) = bound i rid)) as [Hb|]; [|left; by rewrite Heq].
      destruct (logical_of R) as [l|] eqn:Hlo; [|right; auto].
      exfalso. destruct (wi_rlink w Hinv r) as [Hu|(j & k & Hb2 & _ & Hc2)].
      * rewrite Hu in Hb. unfold unbound, bound in Hb. pose proof (wi_reg w Hinv i rid R HR). naive_solver.
      * rewrite Hb in Hb2. apply bound_inj in Hb2 as [<- <-]. unfold owns in HR. rewrite HR in Hc2.
        destruct Hc2. congruence.
  - intros j Hj. rewrite Hws. by rewrite decide_False by done.
  - rewrite Hws. by rewrite decide_True.
Qed.

(** A detach that fails concerns readers, keeps the registration and poisons
    the wait set. *)
Lemma detach_fails dds w i rid R w' :
  WInv w -> owns w i rid R -> detach dds i R w = (false, w') ->
  WInv w' /\ (forall j, j <> i -> ws_of w' j = ws_of w j) /\
  logical_of R = None /\ poisoned (ws_of w' i) = true /\
  ws_sim (ws_of w i) (ws_of w' i).
Proof.
  intros Hinv HR Hd. pose proof (wi_reg w Hinv i rid R HR) as (Hid & Hph & _).
  destruct (release dds i R (native (ws_of w i)) (store w)) as [[[ok R'] n'] st'] eqn:Hrel.
  destruct (release_effect dds w i rid R ok R' n' st' Hinv HR Hrel) as (Hsame & _ & Hl & Hr & _).
  pose proof (same_registration_sim _ _ Hsame) as Hrs. pose proof (proj1 Hrs) as Hid'. rewrite Hid in Hid'.
  destruct (detach_shape dds w i R ok R' n' st' Hph Hrel) as (Hok & Hst & Hws). rewrite Hd in Hok, Hst, Hws.
  simpl in Hok. subst ok. simpl in Hst, Hws.
  destruct (after_detach_frame dds false R' n' (ws_of w i)) as (Hfr & _ & Hfn & Hfp). rewrite Hid' in Hfr.
  pose proof (quarantine_readers_sim i (reader_ids R') st') as [_ Hqr].
  assert (Hsim : ws_sim (ws_of w i) (ws_of w' i)).
  { rewrite Hws, decide_True by done. split_and!; [|done|auto]. intros k. rewrite Hfr.
    destruct (decide (k = rid)) as [->|Hk].
    - rewrite lookup_alter_eq, HR. by constructor.
    - rewrite lookup_alter_ne by done. by destruct (registrations (ws_of w i) !! k); constructor. }
  assert (Hp : poisoned (ws_of w' i) = true) by (rewrite Hws, decide_True by done; auto).
  split; [|split_and!; auto].
  - apply (WInv_partly_released w w' i rid R Hinv HR); [|done| |].
    + intros j. destruct (decide (i = j)) as [<-|]; [done|]. by rewrite Hws, decide_False.
    + intros l. rewrite Hst, link_of_quarantine. specialize (Hl l).
      rewrite decide_False in Hl by naive_solver. by rewrite <- Hl.
    + intros r. rewrite Hst. destruct (Hr r) as [Heq|(_ & Hb & Hu & Ht & Hc)].
      * left. rewrite <- Heq. apply Hqr.
      * right. split; [done|]. destruct (Hqr r) as (H1 & H2 & H3). unfold released. by rewrite H1, H2, H3.
  - intros j Hj. rewrite Hws. by rewrite decide_False by done.
  - unfold release in Hrel. by destruct (logical_of R).
Qed.

Lemma detach_others dds w i rid R k :
  WInv w -> owns w i rid R -> k <> rid ->
  registrations (ws_of (detach dds i R w).2 i) !! k = registrations (ws_of w i) !! k.
Proof.
  intros Hinv HR Hk. pose proof (wi_reg w Hinv i rid R HR) as (Hid & Hph & _).
  destruct (release dds i R (native (ws_of w i)) (store w)) as [[[ok R'] n'] st'] eqn:Hrel.
  destruct (release_effect dds w i rid R ok R' n' st' Hinv HR Hrel) as (Hsame & _).
  pose proof (proj1 (same_registration_sim _ _ Hsame)) as Hid'.
  destruct (detach_shape dds w i R ok R' n' st' Hph Hrel) as (_ & _ & ->). rewrite decide_True by done.
  destruct (after_detach_frame dds ok R' n' (ws_of w i)) as (-> & _).
  destruct ok; [apply lookup_delete_ne | apply lookup_alter_ne]; congruence.
Qed.

Lemma ready_mask_sim rd R st : store_sim st (ready_mask rd R st).2.
Proof.
  unfold ready_mask. destruct (logical_of R) as [[g|t|e]|]; try done.
  case_decide; [done|]. by destruct (consume_trigger _).
Qed.

Lemma detach_inv dds w i rid R : WInv w -> owns w i rid R -> WInv (detach dds i R w).2.
Proof.
  intros Hinv HR. destruct (detach dds i R w) as [[] w'] eqn:Hd.
  - by eapply detach_succeeds.
  - by eapply detach_fails.
Qed.

(** ** Adding keeps the invariant *)

Lemma free_link_unbound w l : WInv w -> wait_set_id (link_of (store w) l) = 0 -> binding (link_of (store w) l) = unbound.
Proof.
  intros Hinv H0. destruct (wi_link w Hinv l) as [?|(i & rid & R & HR & _ & Hb)]; [done|].
  pose proof (wi_reg w Hinv _ _ _ HR) as (_ & _ & Hi & _). unfold binding, bound in Hb. congruence.
Qed.

Lemma free_reader_unbound w r :
  WInv w -> wait_set_id (r_link (reader_of (store w) r)) = 0 ->
  binding (r_link (reader_of (store w) r)) = unbound.
Proof.
  intros Hinv H0. destruct (wi_rlink w Hinv r) as [?|(i & rid & Hb & Hi & _)]; [done|].
  unfold binding, bound in Hb. congruence.
Qed.

Lemma next_id_fresh w i :
  WInv w -> next_registration_id (ws_of w i) <> 0 ->
  registrations (ws_of w i) !! next_registration_id (ws_of w i) = None.
Proof.
  intros Hinv Hn. destruct (registrations _ !! _) as [R|] eqn:HR; [|done].
  pose proof (wi_reg w Hinv i _ R HR) as (_ & _ & _ & _ & _ & [?|?]); lia.
Qed.

(** A new registration [R] whose waitables were free and now point to it. *)
Lemma WInv_registered w w' i R :
  let rid := next_registration_id (ws_of w i) in
  WInv w -> i <> 0 -> rid <> 0 -> poisoned (ws_of w i) = false ->
  Waitables.id R = rid -> phase R = PhaseAttached -> NoDup (reader_ids R) ->
  (forall j k, registrations (ws_of w' j) !! k =
     if decide (i = j /\ rid = k) then Some R else registrations (ws_of w j) !! k) ->
  (forall j, next_registration_id (ws_of w' j) =
     if decide (i = j) then wrap_u64 (rid + 1) else next_registration_id (ws_of w j)) ->
  (forall j, poisoned (ws_of w j) = true -> poisoned (ws_of w' j) = true) ->
  (forall l, if decide (logical_of R = Some l)
             then binding (link_of (store w) l) = unbound /\ binding (link_of (store w') l) = bound i rid
             else binding (link_of (store w') l) = binding (link_of (store w) l)) ->
  (forall r, claim_in_progress (reader_of (store w') r) = false /\
             if decide (logical_of R = None /\ r ∈ reader_ids R)
             then binding (r_link (reader_of (store w) r)) = unbound /\
                  binding (r_link (reader_of (store w') r)) = bound i rid
             else binding (r_link (reader_of (store w') r)) = binding (r_link (reader_of (store w) r))) ->
  WInv w'.
Proof.
  intros rid Hinv Hi Hrid Hnp Hid Hph Hnd Hregs Hn Hp Hl Hr.
  pose proof (next_id_fresh w i Hinv Hrid) as Hfresh. fold rid in Hfresh.
  pose proof (wi_next w Hinv i) as Hu. fold rid in Hu. pose proof (wrap_u64_range (rid + 1)) as Hu'.
  assert (Hnew : owns w' i rid R) by (unfold owns; by rewrite Hregs, decide_True).
  assert (Howns : forall j k R', owns w' j k R' -> (j = i /\ k = rid /\ R' = R) \/ owns w j k R').
  { intros j k R'. unfold owns. rewrite Hregs. case_decide as Hd; [|auto]. destruct Hd. naive_solver. }
  assert (Hkeep : forall j k R', owns w j k R' -> owns w' j k R').
  { intros j k R' HR'. unfold owns in *. rewrite Hregs. case_decide as Hd; [|done].
    destruct Hd as [<- <-]. congruence. }
  assert (Hub : unbound <> bound i rid) by (unfold unbound, bound; congruence).
  assert (Hubj : forall j k R', owns w j k R' -> unbound <> bound j k).
  { intros j k R' HR'. pose proof (wi_reg w Hinv _ _ _ HR'). unfold unbound, bound. naive_solver. }
  destruct Hinv as [Hreg Hnext Hlog Hrd Hlink Hrl Hcl]. constructor.
  - intros j k R' [(-> & -> & ->)|HR']%Howns.
    + split_and!; try done. rewrite Hn, decide_True by done. unfold_ints.
      destruct (decide (rid = 18446744073709551615)) as [->|]; [by left|].
      rewrite Z.mod_small by lia. lia.
    + destruct (Hreg _ _ _ HR') as (? & ? & ? & ? & ? & Hk). split_and!; try done.
      rewrite Hn. destruct (decide (i = j)) as [<-|]; [|done]. fold rid in Hk. unfold_ints.
      destruct (decide (rid = 18446744073709551615)) as [->|]; [by left|].
      rewrite Z.mod_small by lia. lia.
  - intros j. rewrite Hn. destruct (decide (i = j)); auto.
  - intros j k R' l [(-> & -> & ->)|HR']%Howns Hlg; specialize (Hl l).
    + rewrite decide_True in Hl by done. apply Hl.
    + pose proof (Hlog _ _ _ _ HR' Hlg) as Hb. destruct (decide (logical_of R = Some l)) as [Hd|]; [|congruence].
      destruct Hl as [Hl _]. exfalso. eapply Hubj; [done | congruence].
  - intros j k R' r [(-> & -> & ->)|HR']%Howns Hlg Hin; destruct (Hr r) as [_ Hb].
    + rewrite decide_True in Hb by done. right. apply Hb.
    + destruct (Hrd _ _ _ _ HR' Hlg Hin) as [?|Hb']; [auto|].
      right. destruct (decide _); [|congruence]. exfalso. eapply Hubj; [done|]. destruct Hb. congruence.
  - intros l. specialize (Hl l). destruct (decide (logical_of R = Some l)) as [Hd|].
    + right. exists i, rid, R. split_and!; [done..|apply Hl].
    + rewrite Hl. destruct (Hlink l) as [?|(j & k & R' & HR' & ? & ?)]; [by left | right; eauto 8].
  - intros r. destruct (Hr r) as [_ Hb]. destruct (decide _) as [[Hlg Hin]|].
    + right. exists i, rid. split_and!; [apply Hb | done |]. unfold owns in Hnew. by rewrite Hnew.
    + rewrite Hb. destruct (Hrl r) as [?|(j & k & Hb' & Hj & Hc)]; [by left | right].
      exists j, k. split_and!; [done..|]. rewrite Hregs. destruct (decide (i = j /\ rid = k)) as [[<- <-]|].
      * rewrite Hfresh in Hc. congruence.
      * destruct (registrations (ws_of w j) !! k); auto.
  - intros r. apply Hr.
Qed.

(** Two stores whose waitables have the same bindings and claims. *)
Definition same_bindings (st st' : Store) : Prop :=
  (forall l, binding (link_of st' l) = binding (link_of st l)) /\
  (forall r, binding (r_link (reader_of st' r)) = binding (r_link (reader_of st r)) /\
             claim_in_progress (reader_of st' r) = claim_in_progress (reader_of st r)).

Lemma set_topology_callbacks_bindings i rid index rs st :
  same_bindings st (set_topology_callbacks i rid index rs st).
Proof.
  revert index st. induction rs as [|r rs IH]; intros index st; [done|]. simpl.
  destruct (IH (S index) (update_reader r (with_topology (Some (i, rid, index))) st)) as [Hl Hr].
  split; [done|]. intros x. destruct (Hr x) as [-> ->]. rewrite reader_of_update. by case_decide; subst.
Qed.

(** The wait sets of [w'] are those of [w] with [R] registered in [i]. *)
Definition registered_in (w w' : World) (i : Z) (R : Registration) : Prop :=
  let rid := next_registration_id (ws_of w i) in
  (forall j k, registrations (ws_of w' j) !! k =
     if decide (i = j /\ rid = k) then Some R else registrations (ws_of w j) !! k) /\
  (forall j, next_registration_id (ws_of w' j) =
     if decide (i = j) then wrap_u64 (rid + 1) else next_registration_id (ws_of w j)) /\
  (forall j, poisoned (ws_of w j) = true -> poisoned (ws_of w' j) = true).

Lemma claim_logical_cases ws rid l st :
  (claim_logical_waitable ws rid l st = (ClaimAttached, set_link l (link_bind ws rid (link_of st l)) st) /\
   closing (link_of st l) = false /\ wait_set_id (link_of st l) = 0) \/
  exists res, res <> ClaimAttached /\ claim_logical_waitable ws rid l st = (res, st).
Proof.
  unfold claim_logical_waitable. destruct (closing (link_of st l)); [right; by exists ClaimClosing|].
  destruct (Z.eqb_spec (wait_set_id (link_of st l)) 0); [by left | right; by exists ClaimAlreadyRegistered].
Qed.

(** The bindings [claim] leaves: the new ones if it attached or must be rolled
    back, the old ones otherwise. *)
Lemma claim_bindings dds race w i R n res closed R' n' st' :
  WInv w -> claim dds race i R n (store w) = Some (res, closed, R', n', st') ->
  let won := bool_decide (res = ClaimAttached) || closed in
  (logical_of R = None -> NoDup (reader_ids R)) /\
  (forall r, claim_in_progress (reader_of st' r) = false) /\
  (forall l, if decide (won = true /\ logical_of R = Some l)
     then binding (link_of (store w) l) = unbound /\ binding (link_of st' l) = bound i (Waitables.id R)
     else binding (link_of st' l) = binding (link_of (store w) l)) /\
  (forall r, topology_callback (reader_of st' r) = topology_callback (reader_of (store w) r)) /\
  (forall r, if decide (won = true /\ logical_of R = None /\ r ∈ reader_ids R)
     then binding (r_link (reader_of (store w) r)) = unbound /\
          binding (r_link (reader_of st' r)) = bound i (Waitables.id R)
     else binding (r_link (reader_of st' r)) = binding (r_link (reader_of (store w) r))).
Proof.
  intros Hinv Hclaim won. unfold claim in Hclaim. destruct (logical_of R) as [l0|] eqn:Hlg.
  - assert (Hc : exists res1 st1, claim_logical_waitable i (Waitables.id R) l0 (store w) = (res1, st1) /\
                   res = res1 /\ closed = false /\ st' = st1)
      by (destruct (claim_logical_waitable _ _ _ _); simplify_eq; eauto 10).
    destruct Hc as (? & ? & Hc & -> & -> & ->).
    destruct (claim_logical_cases i (Waitables.id R) l0 (store w)) as [(Hc' & _ & H0)|(res1 & Hne & Hc')];
      rewrite Hc in Hc'; simplify_eq; subst won.
    + rewrite bool_decide_eq_true_2 by done. simpl. split_and!; [done | apply Hinv | | done |].
      * intros l. rewrite link_of_set. destruct (decide (l0 = l)) as [->|].
        -- rewrite decide_True by done. split; [by apply free_link_unbound | done].
        -- by rewrite decide_False by naive_solver.
      * done.
    + rewrite bool_decide_eq_false_2 by done.
      split_and!; [done | apply Hinv | | done |]; intros; by rewrite decide_False by naive_solver.
  - destruct (claim_readers_store _ _ _ _ _ _ _ _ _ _ _ Hclaim) as (Hcl0 & Hnd & _ & Hl & _ & Ho & Hin).
    split_and!.
    + done.
    + intros r. destruct (decide (r ∈ reader_ids R)) as [Hr|Hr]; [by apply Hin|].
      destruct (Ho r Hr) as (_ & _ & ->). apply Hinv.
    + intros l. rewrite decide_False by naive_solver. unfold link_of. by rewrite Hl.
    + intros r. destruct (decide (r ∈ reader_ids R)) as [Hr|Hr]; [by apply Hin | by apply Ho].
    + intros r. destruct (decide (r ∈ reader_ids R)) as [Hr|Hr].
      * destruct (Hin r Hr) as (_ & _ & Hb). fold won in Hb. rewrite Hb. destruct won.
        -- rewrite decide_True by done. split; [apply free_reader_unbound; [done | apply Hcl0, Hr] | done].
        -- by rewrite decide_False by naive_solver.
      * rewrite decide_False by tauto. by destruct (Ho r Hr) as (-> & _).
Qed.

Lemma claim_registers dds race w i R n res closed R' n' st' w' :
  WInv w -> claim dds race i R n (store w) = Some (res, closed, R', n', st') ->
  i <> 0 -> next_registration_id (ws_of w i) <> 0 -> poisoned (ws_of w i) = false ->
  Waitables.id R = next_registration_id (ws_of w i) -> phase R = PhaseAttached ->
  (logical_of R <> None -> reader_ids R = []) ->
  bool_decide (res = ClaimAttached) || closed = true ->
  registered_in w w' i R' -> same_bindings st' (store w') -> WInv w'.
Proof.
  intros Hinv Hclaim Hi Hrid Hnp Hid Hph Hnil Hwon (Hregs & Hnext & Hp) [Hbl Hbr].
  destruct (claim_frame _ _ _ _ _ _ _ _ _ _ _ Hclaim) as (Hsame & _ & _).
  destruct (same_registration_sim _ _ Hsame) as (Hid' & _ & Hph' & Hlo' & Hids').
  destruct (claim_bindings _ _ _ _ _ _ _ _ _ _ _ Hinv Hclaim) as (Hnd & Hc & Hl & _ & Hr). rewrite Hwon in Hl, Hr.
  apply (WInv_registered w w' i R'); try done; try congruence.
  - rewrite Hids'. destruct (logical_of R) eqn:Hlg; [rewrite Hnil by done; constructor | auto].
  - intros l. rewrite Hlo', Hbl, <- Hid. specialize (Hl l).
    destruct (decide (logical_of R = Some l)); [by rewrite decide_True in Hl | by rewrite decide_False in Hl by tauto].
  - intros r. rewrite Hlo', Hids', <- Hid. destruct (Hbr r) as [-> ->]. split; [apply Hc|]. specialize (Hr r).
    destruct (decide (logical_of R = None /\ r ∈ reader_ids R));
      [by rewrite decide_True in Hr | by rewrite decide_False in Hr by tauto].
Qed.

Lemma claim_fails dds race w i R n res closed R' n' st' :
  WInv w -> claim dds race i R n (store w) = Some (res, closed, R', n', st') ->
  bool_decide (res = ClaimAttached) || closed = false -> store_sim (store w) st'.
Proof.
  intros Hinv Hclaim Hwon.
  destruct (claim_bindings _ _ _ _ _ _ _ _ _ _ _ Hinv Hclaim) as (_ & Hc & Hl & Ht & Hr). rewrite Hwon in Hl, Hr.
  split; [intros l; specialize (Hl l); by rewrite decide_False in Hl by naive_solver|].
  intros r. specialize (Hr r). rewrite decide_False in Hr by naive_solver.
  split_and!; [done | done | by rewrite Hc, (wi_claim w Hinv)].
Qed.

(** A registration that is detached before it reached the map: as if it had
    been there, except that a failed detach leaves orphaned readers. *)
Lemma detach_unregistered dds w w1 wp i R :
  let rid := next_registration_id (ws_of w i) in
  WInv w -> WInv wp -> owns wp i rid R -> store wp = store w1 -> native (ws_of wp i) = native (ws_of w1 i) ->
  registered_in w wp i R -> next_registration_id (ws_of w i) <> 0 ->
  (forall j, ws_sim (ws_of w j) (ws_of w1 j)) ->
  (forall j, registrations (ws_of w1 j) = registrations (ws_of w j)) ->
  (forall j, poisoned (ws_of wp j) = true -> poisoned (ws_of w1 j) = true) ->
  WInv (detach dds i R w1).2.
Proof.
  intros rid Hinv Hinvp HR Hst Hnat (Hregs & _ & _) Hrid Hsim Hregs1 Hpp.
  pose proof (wi_reg wp Hinvp i rid R HR) as (Hid & Hph & Hi & _).
  destruct (release dds i R (native (ws_of w1 i)) (store w1)) as [[[ok R'] n'] st'] eqn:Hrel.
  destruct (detach_shape dds w1 i R ok R' n' st' Hph Hrel) as (Hok & Hst' & Hws).
  rewrite <- Hst, <- Hnat in Hrel.
  destruct (release_effect dds wp i rid R ok R' n' st' Hinvp HR Hrel) as (Hsame & _ & Hl & Hr & Hrok).
  pose proof (proj1 (same_registration_sim _ _ Hsame)) as Hid'. rewrite Hid in Hid'.
  destruct (after_detach_frame dds ok R' n' (ws_of w1 i)) as (Hfr & _ & Hfn & Hfp). rewrite Hid' in Hfr.
  set (w' := (detach dds i R w1).2) in *.
  assert (Hnone : registrations (ws_of w i) !! rid = None) by (by apply next_id_fresh).
  assert (Hregs' : forall j k, registrations (ws_of w' j) !! k = registrations (ws_of w j) !! k).
  { intros j k. rewrite Hws. destruct (decide (i = j)) as [<-|]; [|by rewrite Hregs1].
    rewrite Hfr, Hregs1. destruct ok.
    - rewrite delete_id by done. done.
    - destruct (decide (k = rid)) as [->|]; [by rewrite lookup_alter_eq, Hnone | by rewrite lookup_alter_ne]. }
  assert (Hnext' : forall j, next_registration_id (ws_of w' j) = next_registration_id (ws_of w j)).
  { intros j. rewrite Hws. destruct (Hsim j) as (_ & <- & _). destruct (decide (i = j)) as [<-|]; done. }
  apply (WInv_forget wp w' i rid R Hinvp HR).
  - intros j k. rewrite Hregs', Hregs. fold rid. destruct (decide (i = j /\ rid = k)) as [[<- <-]|]; [exact Hnone | done].
  - intros j. rewrite Hnext'. apply Hinv.
  - intros j k R2. unfold owns. rewrite Hregs', Hnext'. intros HR2. by apply (wi_reg w Hinv j k R2).
  - intros j Hp. rewrite Hws. destruct (decide (i = j)) as [<-|]; auto.
  - intros l. specialize (Hl l). rewrite Hst'.
    assert (Hlq : link_of (if ok then st' else quarantine_readers i (reader_ids R') st') l = link_of st' l)
      by (destruct ok; [done | apply link_of_quarantine]). rewrite Hlq.
    destruct (decide (logical_of R = Some l)) as [Hlo|Hlo].
    + assert (ok = true) as -> by (unfold release in Hrel; rewrite Hlo in Hrel; congruence).
      rewrite decide_True in Hl by done. by rewrite Hl.
    + rewrite decide_False in Hl by tauto. by rewrite Hl.
  - intros r. rewrite Hst'. destruct ok.
    + destruct (decide (logical_of R = None /\ binding (r_link (reader_of (store wp) r)) = bound i rid)) as [[Hlo Hb]|Hd].
      * right. auto.
      * destruct (Hr r) as [->|(? & ? & ?)]; [|tauto]. left. split; [done|]. intros Hb. exfalso.
        destruct (wi_rlink wp Hinvp r) as [Hu|(j & k & Hb2 & _ & Hc2)].
        -- rewrite Hu in Hb. unfold unbound, bound in Hb. congruence.
        -- rewrite Hb in Hb2. apply bound_inj in Hb2 as [<- <-]. unfold owns in HR. rewrite HR in Hc2. tauto.
    + pose proof (quarantine_readers_sim i (reader_ids R') st') as [_ Hq]. specialize (Hq r).
      destruct (Hr r) as [<-|(_ & Hb & Hu & Ht & Hc)].
      * left. split; [done|]. intros _. rewrite Hws, decide_True by done. auto.
      * right. split; [done|]. destruct Hq as (H1 & H2 & H3). unfold released. by rewrite H1, H2, H3.
Qed.

(** The registration [add] builds. *)
Definition fresh_registration (rid : Z) (g t e : option nat) (rs : list nat) (k : WaitableKind)
    (ld rd : bool) : Registration :=
  MkRegistration rid k g t e ((fun r => (r, false)) <$> rs) ld rd PhaseAttached UINT32_MAX.

Lemma fresh_registration_ids rid g t e rs k ld rd :
  reader_ids (fresh_registration rid g t e rs k ld rd) = rs.
Proof. unfold reader_ids. simpl. rewrite <- list_fmap_compose. apply list_fmap_id. Qed.

(** A registration of readers has no logical waitable, and conversely. *)
Definition one_waitable (g t e : option nat) (rs : list nat) : Prop :=
  (g <> None \/ t <> None \/ e <> None) -> rs = [].

Lemma registered_intro w w' i R :
  let rid := next_registration_id (ws_of w i) in
  (forall j, i <> j -> ws_of w' j = ws_of w j) ->
  registrations (ws_of w' i) = <[rid := R]> (registrations (ws_of w i)) ->
  next_registration_id (ws_of w' i) = wrap_u64 (rid + 1) ->
  (poisoned (ws_of w i) = true -> poisoned (ws_of w' i) = true) -> registered_in w w' i R.
Proof.
  intros rid Ho Hr Hn Hp. unfold registered_in. fold rid. split_and!.
  - intros j k. destruct (decide (i = j)) as [<-|Hij].
    + rewrite Hr. destruct (decide (i = i /\ rid = k)) as [[_ <-]|Hk]; [apply lookup_insert_eq|].
      apply lookup_insert_ne. tauto.
    + rewrite Ho by done. by rewrite decide_False by tauto.
  - intros j. destruct (decide (i = j)) as [<-|Hij]; [done | by rewrite Ho].
  - intros j. destruct (decide (i = j)) as [<-|Hij]; [done | by rewrite Ho].
Qed.

(** The outcomes of [add] past its guards: [w0] has the mutation begun, [w1]
    what the claim left. *)
Section AddOutcomes.
Context (dds : Dds) (w w1 : World) (i : Z) (R' : Registration) (n' : gset nat) (st' : Store).
Context (Hinv : WInv w) (Hrid : next_registration_id (ws_of w i) <> 0).
Context (Hw1 : w1 = on_ws i (with_native n') (with_store st' w)).
Context (Hreg : forall w2, registered_in w w2 i R' -> same_bindings st' (store w2) -> WInv w2).

Lemma add_succeeds topology :
  same_bindings st' topology ->
  WInv (on_ws i (fun s => end_mutation dds
         (with_next_id (wrap_u64 (next_registration_id (ws_of w i) + 1))
           (with_registrations (<[next_registration_id (ws_of w i) := R']> (registrations s)) s)))
         (with_store topology w1)).
Proof.
  intros Ht. apply Hreg; [|done].
  match goal with |- registered_in _ (on_ws _ ?f _) _ _ =>
    destruct (end_mutation_frame dds (with_next_id (wrap_u64 (next_registration_id (ws_of w i) + 1))
      (with_registrations (<[next_registration_id (ws_of w i) := R']> (registrations (ws_of w1 i))) (ws_of w1 i))))
      as (Hf1 & _ & Hf2 & _ & _ & _ & Hf3) end.
  apply registered_intro.
  - intros j Hj. rewrite ws_of_on_ws, decide_False by done. subst w1. simpl.
    by rewrite ws_of_with_store, ws_of_on_ws, decide_False by done.
  - rewrite ws_of_on_ws, decide_True, ws_of_with_store, Hf1 by done. subst w1. simpl.
    by rewrite ws_of_on_ws, decide_True.
  - by rewrite ws_of_on_ws, decide_True, ws_of_with_store, Hf2 by done.
  - rewrite ws_of_on_ws, decide_True, ws_of_with_store by done. intros Hp. apply Hf3. simpl.
    subst w1. by rewrite ws_of_on_ws, decide_True.
Qed.

Lemma add_rolled_back :
  WInv (detach dds i R' (on_ws i (end_mutation dds) w1)).2.
Proof.
  set (wp := on_ws i (fun s => with_next_id (wrap_u64 (next_registration_id (ws_of w i) + 1))
               (with_registrations (<[next_registration_id (ws_of w i) := R']> (registrations s)) s)) w1).
  assert (Hi1 : ws_of w1 i = with_native n' (ws_of w i)) by (subst w1; by rewrite ws_of_on_ws, decide_True).
  assert (Hj1 : forall j, i <> j -> ws_of w1 j = ws_of w j)
    by (intros; subst w1; by rewrite ws_of_on_ws, decide_False).
  assert (Hip : ws_of wp i = with_next_id (wrap_u64 (next_registration_id (ws_of w i) + 1))
      (with_registrations (<[next_registration_id (ws_of w i) := R']> (registrations (ws_of w i)))
        (with_native n' (ws_of w i)))) by (subst wp; by rewrite ws_of_on_ws, decide_True, Hi1).
  assert (Hjp : forall j, i <> j -> ws_of wp j = ws_of w j)
    by (intros; subst wp; rewrite ws_of_on_ws, decide_False by done; auto).
  assert (Hr : registered_in w wp i R') by (apply registered_intro; [done | by rewrite Hip..]).
  destruct (end_mutation_frame dds (ws_of w1 i)) as (Hf1 & Hf2 & Hf3 & _ & _ & _ & Hf4).
  assert (Hx : forall j, ws_of (on_ws i (end_mutation dds) w1) j =
            if decide (i = j) then end_mutation dds (ws_of w1 i) else ws_of w j).
  { intros j. rewrite ws_of_on_ws. destruct (decide (i = j)); [done | auto]. }
  apply (detach_unregistered dds w _ wp); try done.
  - apply Hreg; [done|]. subst wp w1. done.
  - unfold owns. rewrite Hip. apply lookup_insert_eq.
  - by rewrite Hx, decide_True, Hip, Hf2, Hi1.
  - intros j. rewrite Hx. destruct (decide (i = j)) as [<-|]; [|done].
    etrans; [|apply end_mutation_sim]. rewrite Hi1. apply with_native_sim.
  - intros j. rewrite Hx. destruct (decide (i = j)) as [<-|]; [|done]. by rewrite Hf1, Hi1.
  - intros j. rewrite Hx. destruct (decide (i = j)) as [<-|]; [|by rewrite Hjp].
    rewrite Hip. simpl. intros Hp. apply Hf4. by rewrite Hi1.
Qed.

Lemma add_refused : store_sim (store w) st' -> WInv (on_ws i (end_mutation dds) w1).
Proof.
  intros Hs. apply (WInv_sim w); [done|]. transitivity w1; [|apply world_sim_on_ws; intros; apply end_mutation_sim].
  subst w1. transitivity (with_store st' w); [by apply world_sim_store|].
  apply world_sim_on_ws. intros. apply with_native_sim.
Qed.
End AddOutcomes.

Lemma world_add_inv dds race i g t e rs k ld rd w res w' :
  WInv w -> i <> 0 -> one_waitable g t e rs ->
  add dds race i g t e rs k ld rd w = Some (res, w') -> WInv w'.
Proof.
  intros Hinv Hi Hone Hadd. unfold add in Hadd.
  destruct (ws_closing (ws_of w i)); [by simplify_eq|].
  destruct (poisoned (ws_of w i)) eqn:Hnp; [by simplify_eq|].
  destruct (Z.eqb_spec (next_registration_id (ws_of w i)) 0) as [|Hrid]; [by simplify_eq|].
  set (w0 := on_ws i (begin_mutation dds) w) in Hadd.
  assert (Hinv0 : WInv w0)
    by (apply (WInv_sim w); [done | apply world_sim_on_ws; intros; apply begin_mutation_sim]).
  assert (Hwi : ws_of w0 i = begin_mutation dds (ws_of w i)) by (subst w0; by rewrite ws_of_on_ws, decide_True).
  assert (Hn0 : next_registration_id (ws_of w i) = next_registration_id (ws_of w0 i)) by (by rewrite Hwi).
  rewrite Hn0 in Hadd, Hrid.
  fold (fresh_registration (next_registration_id (ws_of w0 i)) g t e rs k ld rd) in Hadd.
  set (R := fresh_registration _ g t e rs k ld rd) in Hadd.
  destruct (claim dds race i R (native (ws_of w0 i)) (store w0)) as [[[[[res1 closed] R'] n'] st']|] eqn:Hclaim;
    [|done].
  destruct (claim_frame _ _ _ _ _ _ _ _ _ _ _ Hclaim) as (Hsame & _ & _).
  pose proof (same_registration_sim _ _ Hsame) as (_ & _ & Hph' & _).
  assert (Hnil : logical_of R <> None -> reader_ids R = []).
  { intros Hlg. subst R. rewrite fresh_registration_ids. apply Hone. destruct g, t, e; naive_solver. }
  assert (Hreg : bool_decide (res1 = ClaimAttached) || closed = true ->
            forall w1, registered_in w0 w1 i R' -> same_bindings st' (store w1) -> WInv w1).
  { intros Hwon w1 Hr1 Hb1. eapply (claim_registers dds race w0 i R); try done. by rewrite Hwi. }
  destruct closed.
  - destruct (closer_detaches race); simpl in Hadd.
    + simplify_eq. eapply add_rolled_back; [done..|]. apply Hreg. apply orb_true_r.
    + unfold detach_holding_mutex in Hadd. by rewrite Hph' in Hadd.
  - simpl in Hadd. case_bool_decide as Hres; simpl in Hadd.
    + rewrite Hph' in Hadd. simpl in Hadd. simplify_eq.
      eapply add_succeeds; [done | by apply Hreg | apply set_topology_callbacks_bindings].
    + simplify_eq. eapply add_refused; [done..|]. eapply claim_fails; try done. by rewrite bool_decide_eq_false_2.
Qed.

(** ** Every other operation keeps the invariant *)

Lemma reconcile_reader_condition_sim dds i rid index w :
  world_sim w (reconcile_reader_condition dds i rid index w).2.
Proof.
  unfold reconcile_reader_condition. destruct (registrations (ws_of w i) !! rid) as [R|] eqn:HR; [|done].
  destruct (channels R !! index) as [c|] eqn:Hc; [|done].
  destruct (reconcile_channel _ _ _ _ _ _) as [[ok c'] n] eqn:Hrc.
  assert (Hfst : c'.1 = c.1).
  { unfold reconcile_channel in Hrc. destruct (attach_single dds (store w) R index c (native (ws_of w i))) as [[[] ?] ?];
      case_match_hyps; done. }
  assert (Hsim : reg_sim R (with_channels (<[index := c']> (channels R)) R)).
  { apply same_registration_sim, same_registration_intro. rewrite list_fmap_insert, Hfst.
    apply list_insert_id. unfold reader_ids. by rewrite list_lookup_fmap, Hc. }
  split; [done|]. intros j. cbn [snd]. rewrite ws_of_on_ws. destruct (decide (i = j)) as [<-|]; [|done].
  set (s1 := with_native n (ws_of w i)).
  assert (H1 : ws_sim (ws_of w i) (with_registrations (<[rid := with_channels (<[index := c']> (channels R)) R]> (registrations s1)) s1)).
  { transitivity s1; [apply with_native_sim | by apply (with_registration_sim rid R)]. }
  destruct ok; [done|]. etrans; [done | apply poison_sim].
Qed.

Lemma reconcile_all_sim dds i rid indices w : world_sim w (reconcile_all dds i rid indices w).2.
Proof.
  revert w. induction indices as [|index indices IH]; intros w; [done|]. simpl.
  pose proof (reconcile_reader_condition_sim dds i rid index w) as Hs.
  destruct (reconcile_reader_condition dds i rid index w) as [[] w1]; [by transitivity w1 | done].
Qed.

Lemma set_interest_sim dds i rid k mask w : world_sim w (set_interest dds i rid k mask w).2.
Proof.
  unfold set_interest. destruct (registrations (ws_of w i) !! rid) as [R|] eqn:HR; [|done].
  repeat (case_match; [done|]).
  match goal with |- context [reconcile_all dds i rid ?l ?w0] =>
    pose proof (reconcile_all_sim dds i rid l w0) as Hs; assert (Hw0 : world_sim w w0) end.
  { apply world_sim_on_ws_at. etrans; [by apply (with_registration_sim rid R (with_interest mask R))|]. apply begin_mutation_sim. }
  destruct (reconcile_all _ _ _ _ _) as [ok w1]. simpl in *.
  etrans; [exact Hw0|]. etrans; [exact Hs|]. apply world_sim_on_ws. intros. apply end_mutation_sim.
Qed.

Lemma set_reader_blocking_sim dds i rid index w : world_sim w (set_reader_blocking dds i rid index w).
Proof.
  unfold set_reader_blocking. destruct (registrations (ws_of w i) !! rid) as [R|]; [|done].
  case_match; [done|]. etrans; [apply world_sim_on_ws; intros; apply (begin_mutation_sim dds)|].
  etrans; [apply reconcile_reader_condition_sim|]. apply world_sim_on_ws. intros. apply end_mutation_sim.
Qed.

Lemma update_reader_sim w r f :
  (forall v, reader_sim v (f v)) -> world_sim w (with_store (update_reader r f (store w)) w).
Proof. intros Hf. apply world_sim_store. by apply store_sim_update. Qed.

Lemma set_blocking_enabled_sim dds r b w : world_sim w (set_blocking_enabled dds r b w).
Proof.
  unfold set_blocking_enabled. case_match; [done|]. etrans; [by apply (update_reader_sim w r (with_blocking b))|].
  etrans; [|apply notify_link_sim]. case_match; [|done]. destruct p as [[? ?] ?].
  apply set_reader_blocking_sim.
Qed.

Lemma set_guard_sim w g v : world_sim w (with_store (set_guard g v (store w)) w).
Proof. by apply world_sim_store. Qed.

Lemma trigger_sim dds operation g w : world_sim w (trigger dds operation g w).2.
Proof.
  unfold trigger. destruct (raise_trigger operation _) as [[] v]; [|apply set_guard_sim].
  etrans; [apply set_guard_sim | apply notify_link_sim].
Qed.

Lemma world_remove_inv dds i rid k w : WInv w -> WInv (WaitSet.remove dds i rid k w).2.
Proof.
  intros Hinv. unfold WaitSet.remove. destruct (registrations _ !! rid) eqn:HR; [|done].
  case_decide; [by eapply detach_inv | done].
Qed.

Lemma run_detach_callback_inv dds l w : WInv w -> WInv (run_detach_callback dds l w).2.
Proof.
  intros Hinv. unfold run_detach_callback. destruct (detach_callback l) as [[i rid]|]; [|done].
  destruct (registrations _ !! rid) eqn:HR; [by eapply detach_inv | done].
Qed.

Lemma close_logical_inv dds l w : WInv w -> WInv (close_logical dds l w).
Proof.
  intros Hinv. unfold close_logical. eapply WInv_sim; [|apply notify_link_sim].
  apply run_detach_callback_inv. apply (WInv_sim w); [done|]. apply world_sim_store. split; [|done].
  intros l'. rewrite link_of_set. by case_decide; subst.
Qed.

Lemma close_reader_inv dds r w ok w' : WInv w -> close_reader dds r w = Some (ok, w') -> WInv w'.
Proof.
  intros Hinv Hc. unfold close_reader in Hc. destruct (claim_in_progress _); [done|].
  match type of Hc with context [run_detach_callback ?d ?l ?w0] =>
    pose proof (run_detach_callback_inv d l w0) as Hd; assert (H0 : world_sim w w0) end.
  { by apply update_reader_sim. }
  specialize (Hd (WInv_sim _ _ Hinv H0)).
  destruct (run_detach_callback _ _ _) as [det w1]. simplify_eq. eapply WInv_sim; [|apply notify_link_sim].
  eapply WInv_sim; [exact Hd|]. apply update_reader_sim. by destruct ok.
Qed.

Section WaitInvariants.
Context `{!HashOrder Z Registration}.

Lemma close_loop_inv dds fuel i w w' : WInv w -> close_loop dds fuel i w = Some w' -> WInv w'.
Proof.
  revert w. induction fuel as [|fuel IH]; intros w Hinv Hc; [done|]. simpl in Hc.
  destruct (hash_order (registrations (ws_of w i))) as [|[rid R] l] eqn:Ho; [by simplify_eq|].
  assert (HR : owns w i rid R) by (apply elem_of_hash_order; rewrite Ho; left).
  pose proof (detach_inv dds w i rid R Hinv HR) as Hd.
  destruct (detach dds i R w) as [[] w1]; [by eapply IH | by simplify_eq].
Qed.

Lemma close_inv dds fuel i w w' : WInv w -> close dds fuel i w = Some w' -> WInv w'.
Proof.
  intros Hinv Hc. unfold close in Hc. destruct (ws_closing _); [by simplify_eq|].
  destruct (close_loop _ _ _ _) as [w1|] eqn:Hl; [|done]. simplify_eq/=.
  eapply WInv_sim; [|apply world_sim_on_ws; by ws_frame].
  eapply close_loop_inv; [|exact Hl]. apply (WInv_sim w); [done|]. apply world_sim_on_ws. by ws_frame.
Qed.

Lemma snapshot_owned w i R :
  WInv w -> R ∈ snapshot (ws_of w i) -> owns w i (Waitables.id R) R.
Proof.
  intros Hinv Hin. unfold snapshot in Hin. apply list_elem_of_filter in Hin as [_ Hin].
  apply list_elem_of_fmap in Hin as ([rid R'] & -> & Hin). apply elem_of_hash_order in Hin.
  simpl. destruct (wi_reg w Hinv i rid R' Hin) as (Hid & _). by rewrite Hid.
Qed.

Lemma NoDup_fmap_filter {A B} (f : A -> B) (P : A -> Prop) `{!forall x, Decision (P x)} (l : list A) :
  NoDup (f <$> l) -> NoDup (f <$> filter P l).
Proof.
  induction l as [|x l IH]; [done|]. rewrite fmap_cons, NoDup_cons, filter_cons. intros [Hni Hnd].
  case_decide; [|auto]. rewrite fmap_cons. constructor; [|auto].
  intros (y & Heq & [_ Hy]%list_elem_of_filter)%list_elem_of_fmap. apply Hni. rewrite Heq. by apply list_elem_of_fmap_2.
Qed.

Lemma snapshot_ids i w : WInv w -> NoDup (Waitables.id <$> snapshot (ws_of w i)).
Proof.
  intros Hinv. unfold snapshot.
  assert (Heq : (Waitables.id <$> (hash_order (registrations (ws_of w i))).*2) =
                (hash_order (registrations (ws_of w i))).*1).
  { rewrite <- list_fmap_compose. apply list_fmap_ext. intros _ [rid R] Hin%list_elem_of_lookup_2.
    apply elem_of_hash_order in Hin. simpl. by apply (wi_reg w Hinv i rid R). }
  pose proof (NoDup_hash_order (registrations (ws_of w i))) as Hnd. rewrite <- Heq in Hnd.
  by apply NoDup_fmap_filter.
Qed.

(** The registrations of a snapshot stay registered while others of it are
    detached, since their ids differ. *)
Lemma scan_inv dds rd i rs w :
  WInv w -> NoDup (Waitables.id <$> rs) -> (forall R, R ∈ rs -> owns w i (Waitables.id R) R) ->
  WInv (scan dds rd i rs w).2.
Proof.
  revert w. induction rs as [|R rs IH]; intros w Hinv Hnd Hall; [done|].
  rewrite fmap_cons in Hnd. apply NoDup_cons in Hnd as [Hni Hnd]. cbn [scan].
  pose proof (Hall R ltac:(left)) as HR.
  destruct (registration_is_closing (store w) R).
  - apply IH; [by eapply detach_inv | done |]. intros R2 HR2. unfold owns.
    rewrite (detach_others dds w i (Waitables.id R) R (Waitables.id R2) Hinv HR); [apply Hall; by right|].
    intros Heq. apply Hni. rewrite <- Heq. by apply list_elem_of_fmap_2.
  - pose proof (ready_mask_sim rd R (store w)) as Hs.
    destruct (ready_mask rd R (store w)) as [mask st]. simpl in Hs.
    specialize (IH (with_store st w)). destruct (scan dds rd i rs (with_store st w)) as [found w2]. simpl.
    apply IH; [|done|]; [|intros; apply Hall; by right].
    apply (WInv_sim w); [done | by apply world_sim_store].
Qed.
End WaitInvariants.

(** ** Histories *)

(** What other threads do during a turn of wait are steps of their own. *)
Definition quiet (u : Turn) : Prop :=
  during_scan u = (fun w => w) /\ during_fold u = (fun w => w) /\ during_native u = (fun w => w).

Section Histories.
Context `{!HashOrder Z Registration}.

Inductive world_step (w : World) : World -> Prop :=
  | ws_add dds race i g t e rs k ld rd res w' :
      i <> 0 -> one_waitable g t e rs ->
      add dds race i g t e rs k ld rd w = Some (res, w') -> world_step w w'
  | ws_remove dds i rid k : world_step w (WaitSet.remove dds i rid k w).2
  | ws_set_interest dds i rid k mask : world_step w (set_interest dds i rid k mask w).2
  | ws_close dds fuel i w' : close dds fuel i w = Some w' -> world_step w w'
  | ws_trigger dds operation g : world_step w (trigger dds operation g w).2
  | ws_set_pending g b :
      world_step w (with_store (set_guard g (set_pending b (guard_of (store w) g)) (store w)) w)
  | ws_close_logical dds l : world_step w (close_logical dds l w)
  | ws_close_reader dds r ok w' : close_reader dds r w = Some (ok, w') -> world_step w w'
  | ws_set_blocking dds r b : world_step w (set_blocking_enabled dds r b w)
  | ws_begin_wait i : world_step w (on_ws i (fun s => (begin_wait s).2) w)
  | ws_turn i timeout deadline u : quiet u -> world_step w (wait_turn i timeout deadline u w).2
  | ws_end_wait i : world_step w (on_ws i (with_waiting false) w)
  | ws_notify dds l : world_step w (notify_link dds (link_of (store w) l) w).2.

(** Waitables and wait sets just made; wait set ids are never 0. *)
Definition fresh_world (w : World) : Prop :=
  (forall l, binding (link_of (store w) l) = unbound) /\
  (forall r, binding (r_link (reader_of (store w) r)) = unbound /\
     topology_callback (reader_of (store w) r) = None /\ claim_in_progress (reader_of (store w) r) = false) /\
  (forall g, guard_of (store w) g = new_guard) /\
  (forall i, exists context, ws_of w i = new_wait_set context).

Lemma fresh_world_inv w : fresh_world w -> WInv w.
Proof.
  intros (Hl & Hr & _ & Hw).
  assert (Hno : forall i rid R, ~ owns w i rid R).
  { intros i rid R. unfold owns. destruct (Hw i) as [c ->]. simpl. by rewrite lookup_empty. }
  constructor; try (intros; exfalso; by eapply Hno).
  - intros i. destruct (Hw i) as [c ->]. done.
  - intros l. by left.
  - intros r. left. apply Hr.
  - intros r. apply Hr.
Qed.

Lemma repair_sim replaced s : ws_sim s (repair_control_guard_if_needed replaced s).2.
Proof.
  unfold repair_control_guard_if_needed. destruct (broken (ws_wake s)); [|done]. simpl.
  destruct (replace _ _ _) as [[] v]; simpl; [|by ws_frame].
  etrans; [|apply note_topology_mutation_sim]. by ws_frame.
Qed.

Lemma wait_for_notification_sim dds observed res i w :
  world_sim w (wait_for_notification dds observed res (fun w => w) i w).2.
Proof.
  unfold wait_for_notification. destruct (clear_if_unchanged _ _ _) as [cleared v].
  destruct cleared; apply world_sim_on_ws; by ws_frame.
Qed.

Lemma wait_turn_inv i timeout deadline u w :
  quiet u -> WInv w -> WInv (wait_turn i timeout deadline u w).2.
Proof.
  intros (Hq1 & Hq2 & Hq3) Hinv. unfold wait_turn. rewrite Hq1, Hq2, Hq3.
  pose proof (repair_sim (replaced u) (ws_of w i)) as Hs.
  destruct (repair_control_guard_if_needed _ _) as [repaired s].
  assert (Hi0 : WInv (set_ws i s w)) by (apply (WInv_sim w); [done | by apply (world_sim_on_ws_at i (fun _ => s))]).
  destruct repaired; [|done]. destruct (is_shutdown u); [done|].
  destruct (ws_closing _); [done|].
  pose proof (scan_inv (turn_dds u) (readiness u) i (snapshot (ws_of (set_ws i s w) i)) (set_ws i s w)
    Hi0 (snapshot_ids _ _ Hi0) (fun R HR => snapshot_owned _ _ _ Hi0 HR)) as Hsc.
  destruct (scan _ _ _ _ _) as [found w1]. simpl in Hsc.
  repeat (match goal with |- context [if ?b then (?x, w1) else _] => destruct b end; [done|]).
  match goal with |- context [wait_for_notification ?d ?o ?r ?f i w1] =>
    pose proof (wait_for_notification_sim d o r i w1) as Hn; destruct (wait_for_notification d o r f i w1) as [[] w2] end;
    by eapply WInv_sim.
Qed.

Lemma world_step_inv w w' : WInv w -> world_step w w' -> WInv w'.
Proof.
  intros Hinv [dds race i g t e rs k ld rd res w1 Hi Ho Ha|dds i rid k|dds i rid k mask|dds fuel i w1 Hc
    |dds op g|g b|dds l|dds r ok w1 Hc|dds r b|i|i timeout deadline u Hq|i|dds l].
  - by eapply world_add_inv.
  - by apply world_remove_inv.
  - by eapply WInv_sim; [|apply set_interest_sim].
  - by eapply close_inv.
  - by eapply WInv_sim; [|apply trigger_sim].
  - by eapply WInv_sim; [|apply set_guard_sim].
  - by apply close_logical_inv.
  - by eapply close_reader_inv.
  - by eapply WInv_sim; [|apply set_blocking_enabled_sim].
  - eapply WInv_sim; [done|]. apply world_sim_on_ws. intros s. unfold begin_wait.
    repeat (case_match; [done|]). by ws_frame.
  - by apply wait_turn_inv.
  - eapply WInv_sim; [done|]. apply world_sim_on_ws. by ws_frame.
  - by eapply WInv_sim; [|apply notify_link_sim].
Qed.

Lemma world_invariant w : reachable fresh_world world_step w -> WInv w.
Proof. apply reachable_invariant; [apply fresh_world_inv | apply world_step_inv]. Qed.
End Histories.

(** C8: In every sequence of operations each waitable is registered at most
    once, apart from readers of wait sets that a failed Fast DDS detach has
    poisoned: any two registrations that share a GuardCondition, Timer or
    GraphEvent are the same, and so are two registrations of unpoisoned wait
    sets that share a reader; and a registered waitable wakes the wait set that
    holds it and detaches from it.  (A poisoned wait set keeps a registration
    some of whose readers have been let go: [reader_registered_twice].) *)
Theorem registered_once `{!HashOrder Z Registration} w i rid R :
  reachable fresh_world world_step w -> owns w i rid R ->
  (forall l, logical_of R = Some l ->
     wake_callback (link_of (store w) l) = Some i /\ detach_callback (link_of (store w) l) = Some (i, rid) /\
     forall j k R', owns w j k R' -> logical_of R' = Some l -> j = i /\ k = rid) /\
  (forall r, logical_of R = None -> r ∈ reader_ids R -> poisoned (ws_of w i) = false ->
     let l := r_link (reader_of (store w) r) in
     wake_callback l = Some i /\ detach_callback l = Some (i, rid) /\
     forall j k R', owns w j k R' -> poisoned (ws_of w j) = false -> logical_of R' = None ->
       r ∈ reader_ids R' -> j = i /\ k = rid).
Proof.
  intros Hr HR. pose proof (world_invariant w Hr) as Hinv. split.
  - intros l Hl. pose proof (wi_logical w Hinv i rid R l HR Hl) as Hb.
    assert (Hcb : wake_callback (link_of (store w) l) = Some i /\ detach_callback (link_of (store w) l) = Some (i, rid))
      by (unfold binding, bound in Hb; split; congruence).
    split_and!; [apply Hcb..|]. intros j k R' HR' Hl'. pose proof (wi_logical w Hinv j k R' l HR' Hl') as Hb'.
    rewrite Hb in Hb'. apply bound_inj in Hb'. lia.
  - intros r Hl Hin Hp v. subst v.
    destruct (wi_reader w Hinv i rid R r HR Hl Hin) as [|Hb]; [congruence|].
    assert (Hcb : wake_callback (r_link (reader_of (store w) r)) = Some i /\
                  detach_callback (r_link (reader_of (store w) r)) = Some (i, rid))
      by (unfold binding, bound in Hb; split; congruence).
    split_and!; [apply Hcb..|]. intros j k R' HR' Hp' Hl' Hin'.
    destruct (wi_reader w Hinv j k R' r HR' Hl' Hin') as [|Hb']; [congruence|].
    rewrite Hb in Hb'. apply bound_inj in Hb'. lia.
Qed.

(** A waitable that says it is registered is: the registration it names
    exists and holds it, unless a failed detach has poisoned the wait set. *)
Theorem links_lead_to_registrations `{!HashOrder Z Registration} w :
  reachable fresh_world world_step w ->
  (forall l, wait_set_id (link_of (store w) l) <> 0 -> exists R,
     owns w (wait_set_id (link_of (store w) l)) (registration_id (link_of (store w) l)) R /\
     logical_of R = Some l) /\
  (forall r, let l := r_link (reader_of (store w) r) in
     wait_set_id l <> 0 -> poisoned (ws_of w (wait_set_id l)) = false -> exists R,
     owns w (wait_set_id l) (registration_id l) R /\ logical_of R = None /\ r ∈ reader_ids R).
Proof.
  intros Hr. pose proof (world_invariant w Hr) as Hinv. split.
  - intros l Hne. destruct (wi_link w Hinv l) as [Hu|(i & rid & R & HR & Hl & Hb)].
    + unfold binding, unbound in Hu. congruence.
    + exists R. unfold binding, bound in Hb. injection Hb as -> -> _ _. done.
  - intros r l Hne Hp. subst l. destruct (wi_rlink w Hinv r) as [Hu|(i & rid & Hb & Hi & Hc)].
    + unfold binding, unbound in Hu. congruence.
    + unfold binding, bound in Hb. injection Hb as Hw Hid _ _. rewrite Hw in *. rewrite Hid.
      unfold owns. destruct (registrations (ws_of w i) !! rid) as [R|]; [by exists R | congruence].
Qed.

(** ** A reachable world: a GuardCondition in wait set 1, two readers in 2 *)

Definition empty_world : World := MkWorld (MkStore ∅ ∅ ∅) ∅.

Definition world_after (r : option (Result Z * World)) : World :=
  match r with Some (_, w) => w | None => empty_world end.

Definition guard_added : World := world_after (add dds_ok no_race 1 (Some 0%nat) None None [] GuardCondition false false empty_world).
Definition example_world : World :=
  world_after (add dds_ok no_race 2 None None None [3%nat; 4%nat] ActionServer true true guard_added).

Lemma empty_world_fresh : fresh_world empty_world.
Proof. split_and!; try done. intros i. exists 0%nat. unfold ws_of. simpl. by rewrite lookup_total_empty. Qed.

Lemma example_reachable `{!HashOrder Z Registration} : reachable fresh_world world_step example_world.
Proof.
  eapply (reach_step _ _ guard_added).
  - eapply (reach_step _ _ empty_world); [apply reach_init, empty_world_fresh|].
    eapply (ws_add _ dds_ok no_race 1 (Some 0%nat) None None [] GuardCondition false false (success 1)); done.
  - eapply (ws_add _ dds_ok no_race 2 None None None [3%nat; 4%nat] ActionServer true true (success 1)); [done | | done].
    intros [?|[?|?]]; done.
Qed.

(** Fast DDS refuses to detach reader 4: wait set 2 keeps the registration of
    both readers and is poisoned, but reader 3 is free for another wait set. *)
Definition keeps_four : Dds := MkDds (fun _ => true) (fun r => negb (Nat.eqb r 4)) (fun _ => true) true.
Definition half_detached : World := (WaitSet.remove keeps_four 2 1 ActionServer example_world).2.

Example reader_registered_twice `{!HashOrder Z Registration} :
  exists w R R', reachable fresh_world world_step w /\ owns w 2 1 R /\ owns w 3 1 R' /\
    3%nat ∈ reader_ids R /\ 3%nat ∈ reader_ids R' /\ poisoned (ws_of w 2) = true /\ poisoned (ws_of w 3) = false.
Proof.
  exists (world_after (add dds_ok no_race 3 None None None [3%nat] Subscriber true true half_detached)).
  do 2 eexists. split; [|split_and!; [vm_compute; reflexivity | vm_compute; reflexivity | vm_compute; left | vm_compute; left | done | done]].
  eapply (reach_step _ _ half_detached); [eapply (reach_step _ _ example_world); [apply example_reachable | apply ws_remove]|].
  eapply (ws_add _ dds_ok no_race 3 None None None [3%nat] Subscriber true true (success 1)); [done | | done].
  intros [?|[?|?]]; done.
Qed.

Definition example_registration : Registration :=
  MkRegistration 1 ActionServer None None None [(3%nat, true); (4%nat, true)] true true PhaseAttached UINT32_MAX.

Lemma registered_once_witness :
  (forall l, logical_of example_registration = Some l ->
     wake_callback (link_of (store example_world) l) = Some 2 /\
     detach_callback (link_of (store example_world) l) = Some (2, 1) /\
     forall j k R', owns example_world j k R' -> logical_of R' = Some l -> j = 2 /\ k = 1) /\
  (forall r, logical_of example_registration = None -> r ∈ reader_ids example_registration ->
     poisoned (ws_of example_world 2) = false ->
     let l := r_link (reader_of (store example_world) r) in
     wake_callback l = Some 2 /\ detach_callback l = Some (2, 1) /\
     forall j k R', owns example_world j k R' -> poisoned (ws_of example_world j) = false ->
       logical_of R' = None -> r ∈ reader_ids R' -> j = 2 /\ k = 1).
Proof. apply (registered_once example_world 2 1 example_registration); [apply example_reachable | vm_compute; reflexivity]. Defined.

Lemma links_lead_to_registrations_witness :
  (forall l, wait_set_id (link_of (store example_world) l) <> 0 -> exists R,
     owns example_world (wait_set_id (link_of (store example_world) l))
       (registration_id (link_of (store example_world) l)) R /\ logical_of R = Some l) /\
  (forall r, let l := r_link (reader_of (store example_world) r) in
     wait_set_id l <> 0 -> poisoned (ws_of example_world (wait_set_id l)) = false -> exists R,
     owns example_world (wait_set_id l) (registration_id l) R /\ logical_of R = None /\ r ∈ reader_ids R).
Proof. apply (links_lead_to_registrations example_world), example_reachable. Defined.
