(* ===== verification/WaitResults.v ===== *)
(** * WaitResults: what adding, closing and waiting promise

    When [add] returns, what [close] leaves behind, what a turn of [wait]
    reports and consumes, and where the loop falls short. *)

From stdpp Require Import gmap.
From S2P Require Import Prelude Deadline Waitables Wakeup WaitSet WaitInvariant.
Local Open Scope Z_scope.

(** ** When adding readers returns *)

Lemma existsb_none {A} (p : A -> bool) l : (forall x, x ∈ l -> p x = false) -> existsb p l = false.
Proof.
  induction l as [|x l IH]; simpl; intros Hall; [done|].
  rewrite Hall by left. apply IH. intros. apply Hall. by right.
Qed.

Lemma claim_no_race_closed dds ws R n st res closed R' n' st' :
  claim_readers dds no_race ws R n st = Some (res, closed, R', n', st') -> closed = false.
Proof.
  intros Hc. pose proof (proj1 (claim_readers_returns dds no_race ws R n st) (ex_intro _ _ Hc)) as [Hnd Hcl].
  unfold claim_readers in Hc.
  pose proof (mark_claims_spec (reader_ids R) (reader_ids R) st (fun _ H => H)) as Hm.
  rewrite decide_True in Hm by done. destruct Hm as (st1 & Hm & Hr1 & _). rewrite Hm in Hc.
  destruct (attach_reader_conditions _ _ _ _) as [[att R1] n1]. case_decide.
  - destruct (bind_readers_spec ws (id R1) (reader_ids R) st1 Hnd) as (Hb & _). simpl in Hc.
    destruct (bind_readers _ _ _ _) as [cl st4]. simplify_eq/=. apply existsb_none.
    intros r Hr. rewrite Hr1, decide_True by done. rewrite Forall_forall in Hcl. by apply Hcl.
  - destruct (clear_reader_claims _ _ _); simplify_eq/=; done.
Qed.

(** Registering readers while nothing else runs returns exactly when the
    readers are distinct and each is open, unregistered and unclaimed; otherwise
    the thread waits for a callback mutex that it holds itself. *)
Theorem add_readers_returns dds i rs k ld rd w :
  ws_closing (ws_of w i) = false -> poisoned (ws_of w i) = false ->
  next_registration_id (ws_of w i) <> 0 ->
  is_Some (add dds no_race i None None None rs k ld rd w) <->
  NoDup rs /\ Forall (claimable (store w)) rs.
Proof.
  intros Hc Hp Hn. unfold add. rewrite Hc, Hp. destruct (Z.eqb_spec (next_registration_id (ws_of w i)) 0); [done|].
  fold (fresh_registration (next_registration_id (ws_of w i)) None None None rs k ld rd).
  set (R := fresh_registration _ None None None rs k ld rd).
  pose proof (claim_readers_returns dds no_race i R (native (ws_of (on_ws i (begin_mutation dds) w) i)) (store w)) as Hret.
  subst R. rewrite fresh_registration_ids in Hret. rewrite <- Hret. cbn [claim logical_of fresh_registration guard timer graph_event].
  change (store (on_ws i (begin_mutation dds) w)) with (store w).
  destruct (claim_readers _ _ _ _ _ _) as [[[[[res closed] R'] n'] st']|] eqn:Hclaim; [|done].
  pose proof (claim_no_race_closed _ _ _ _ _ _ _ _ _ _ Hclaim) as ->. simpl.
  split; [eauto | intros _].
  destruct (negb (bool_decide (res = ClaimAttached))); [by eexists|].
  destruct (negb (bool_decide (phase R' = PhaseAttached))); [|by eexists].
  by destruct (release _ _ _ _ _) as [[[? ?] ?] ?].
Qed.

Lemma add_readers_returns_witness :
  is_Some (add dds_ok no_race 2 None None None [5%nat; 6%nat] Subscriber false false example_world) <->
  NoDup [5%nat; 6%nat] /\ Forall (claimable (store example_world)) [5%nat; 6%nat].
Proof. apply (add_readers_returns dds_ok 2 [5%nat; 6%nat]); vm_compute; done. Defined.

(** The error the code has for a registered reader is never returned. *)
Example registered_reader_blocks :
  add dds_ok no_race 1 None None None [3%nat] Subscriber false false example_world = None.
Proof. reflexivity. Qed.

(** A reader closed while it is being added: the rollback detaches under the
    mutex that [add] holds, unless the closer detaches first. *)
Example close_during_add_blocks :
  add dds_ok (MkRace [] [5%nat] false) 1 None None None [5%nat] Subscriber false false example_world = None /\
  (fun x => code_of x.1) <$> add dds_ok (MkRace [] [5%nat] true) 1 None None None [5%nat] Subscriber false false example_world
    = Some (Some ParentDestroyed).
Proof. split; reflexivity. Qed.

(** ** Closing *)

Lemma release_channels_ok dds ws rid cs n st :
  (forall r, detach_ok dds r = true) -> (release_channels dds ws rid cs n st).1.1.1 = true.
Proof.
  intros Hd. revert n st. induction cs as [|[r b] cs IH]; intros n st; [done|]. cbn [release_channels].
  rewrite Hd, andb_false_r. destruct (negb _).
  - specialize (IH n st). destruct (release_channels _ _ _ _ _ _) as [[[? ?] ?] ?]. done.
  - match goal with |- context [release_channels dds ws rid cs ?n1 ?st1] =>
      specialize (IH n1 st1); destruct (release_channels dds ws rid cs n1 st1) as [[[? ?] ?] ?] end. done.
Qed.

Lemma detach_ok_succeeds dds w i rid R :
  WInv w -> owns w i rid R -> (forall r, detach_ok dds r = true) -> (detach dds i R w).1 = true.
Proof.
  intros Hinv HR Hd. pose proof (wi_reg w Hinv i rid R HR) as (_ & Hph & _).
  destruct (release dds i R (native (ws_of w i)) (store w)) as [[[ok R'] n'] st'] eqn:Hrel.
  destruct (detach_shape dds w i R ok R' n' st' Hph Hrel) as (-> & _).
  unfold release in Hrel. destruct (logical_of R); [congruence|].
  pose proof (release_channels_ok dds i (Waitables.id R) (channels R) (native (ws_of w i)) (store w) Hd) as Hok.
  destruct (release_channels _ _ _ _ _ _) as [[[? ?] ?] ?]. simplify_eq/=. done.
Qed.

(** What [close] owes a waitable of wait set [i]: it is free, or still bound to
    a registration of [i]. *)
Definition logical_pending (w : World) (i : Z) (l : Logical) : Prop :=
  binding (link_of (store w) l) = unbound \/ exists k R, owns w i k R /\ logical_of R = Some l.
Definition reader_pending (w : World) (i : Z) (r : nat) : Prop :=
  binding (r_link (reader_of (store w) r)) = unbound \/
  exists k R, owns w i k R /\ logical_of R = None /\ binding (r_link (reader_of (store w) r)) = bound i k.

Lemma detach_pending dds w i rid R w' :
  WInv w -> owns w i rid R -> detach dds i R w = (true, w') ->
  (forall l, logical_pending w i l -> logical_pending w' i l) /\
  (forall r, reader_pending w i r -> reader_pending w' i r).
Proof.
  intros Hinv HR Hd. destruct (detach_succeeds dds w i rid R w' Hinv HR Hd) as (_ & _ & Hregs & Hl & Hr & Hrel).
  assert (Hkeep : forall k R', owns w i k R' -> k <> rid -> owns w' i k R').
  { intros k R' HR' Hk. unfold owns in *. rewrite Hregs. by rewrite lookup_delete_ne. }
  split.
  - intros l [Hu|(k & R' & HR' & Hlg)].
    + left. rewrite Hl. by case_decide.
    + destruct (decide (k = rid)) as [->|Hk].
      * left. rewrite Hl. unfold owns in *. by rewrite decide_True by congruence.
      * right. eauto.
  - intros r [Hu|(k & R' & HR' & Hlg & Hb)].
    + left. destruct (Hr r) as [-> | (_ & _ & ? & _)]; done.
    + destruct (decide (k = rid)) as [->|Hk].
      * left. assert (R' = R) as -> by (unfold owns in *; congruence). by apply Hrel.
      * right. exists k, R'. split_and!; [auto | done |].
        destruct (Hr r) as [-> | (_ & Hb' & _)]; [done|]. rewrite Hb in Hb'. apply bound_inj in Hb'. lia.
Qed.

Section Closing.
Context `{!HashOrder Z Registration} (dds : Dds) (i : Z).

(** The loop has let go of every registration. *)
Definition let_go (w w' : World) : Prop :=
  registrations (ws_of w' i) = ∅ /\
  (forall l, logical_pending w i l -> logical_pending w' i l) /\
  (forall r, reader_pending w i r -> reader_pending w' i r).

Lemma close_loop_spec fuel w :
  WInv w -> (size (registrations (ws_of w i)) < fuel)%nat ->
  exists w', close_loop dds fuel i w = Some w' /\ WInv w' /\
    (let_go w w' \/ poisoned (ws_of w' i) = true) /\
    ((forall r, detach_ok dds r = true) -> let_go w w').
Proof.
  revert w. induction fuel as [|fuel IH]; intros w Hinv Hsz; [lia|]. cbn [close_loop].
  pose proof (hash_order_length (registrations (ws_of w i))) as Hlen.
  destruct (hash_order (registrations (ws_of w i))) as [|[rid R] l] eqn:Ho.
  { assert (Hgo : let_go w w).
    { split; [|done]. rewrite <- (list_to_map_hash_order (registrations (ws_of w i))). by rewrite Ho. }
    exists w. auto. }
  assert (HR : owns w i rid R) by (apply elem_of_hash_order; rewrite Ho; left).
  destruct (detach dds i R w) as [[] w1] eqn:Hd.
  - destruct (detach_succeeds dds w i rid R w1 Hinv HR Hd) as (Hinv1 & _ & Hregs & _).
    destruct (detach_pending dds w i rid R w1 Hinv HR Hd) as [Hpl Hpr].
    destruct (IH w1 Hinv1) as (w' & Hc & Hinv' & Hres & Hall).
    { rewrite Hregs, map_size_delete_Some by (by exists R). simpl in Hlen. lia. }
    assert (Hgo : let_go w1 w' -> let_go w w') by (intros (? & ? & ?); split; auto).
    exists w'. split_and!; [done | done | destruct Hres; auto | auto].
  - exists w1. destruct (detach_fails dds w i rid R w1 Hinv HR Hd) as (? & _ & _ & ? & _).
    split_and!; [done | done | by right |]. intros Hok.
    pose proof (detach_ok_succeeds dds w i rid R Hinv HR Hok) as Hs. by rewrite Hd in Hs.
Qed.

Lemma close_spec w :
  WInv w -> ws_closing (ws_of w i) = false ->
  exists w', close dds (S (size (registrations (ws_of w i)))) i w = Some w' /\
    (let_go w w' \/ poisoned (ws_of w' i) = true) /\
    ((forall r, detach_ok dds r = true) -> let_go w w').
Proof.
  intros Hinv Hcl. unfold close. rewrite Hcl. set (w0 := on_ws i _ w).
  assert (Hs : world_sim w w0) by (apply world_sim_on_ws; by ws_frame).
  assert (Hr : registrations (ws_of w0 i) = registrations (ws_of w i)) by (subst w0; by rewrite ws_of_on_ws, decide_True).
  destruct (close_loop_spec (S (size (registrations (ws_of w i)))) w0 (WInv_sim _ _ Hinv Hs)) as (w' & -> & _ & Hres & Hall);
    [rewrite Hr; lia|].
  simpl. eexists. split; [done|].
  assert (Hgo : forall w1, let_go w0 w1 -> let_go w (on_ws i (fun s => notify_wake dds (with_control (shutdown_callback_id s) false s)) w1)).
  { unfold let_go, logical_pending, reader_pending, owns. intros w1. rewrite !ws_of_on_ws, !decide_True by done.
    rewrite Hr. done. }
  split; [|auto]. destruct Hres as [?|?]; [left; auto | right]. by rewrite ws_of_on_ws, decide_True.
Qed.
End Closing.

(** C16: Closing a wait set ends after at most as many detaches as it has
    registrations.  Unless a failed Fast DDS detach poisons it, no registration
    is left and every waitable it held can be registered again. *)
Theorem close_releases `{!HashOrder Z Registration} dds i w :
  reachable fresh_world world_step w -> ws_closing (ws_of w i) = false -> poisoned (ws_of w i) = false ->
  exists w', close dds (S (size (registrations (ws_of w i)))) i w = Some w' /\
    let freed := registrations (ws_of w' i) = ∅ /\
      forall rid R, owns w i rid R ->
        (forall l, logical_of R = Some l -> binding (link_of (store w') l) = unbound) /\
        (logical_of R = None -> forall r, r ∈ reader_ids R -> binding (r_link (reader_of (store w') r)) = unbound) in
    (freed \/ poisoned (ws_of w' i) = true) /\ ((forall r, detach_ok dds r = true) -> freed).
Proof.
  intros Hr Hcl Hp. pose proof (world_invariant w Hr) as Hinv.
  destruct (close_spec dds i w Hinv Hcl) as (w' & Hc & Hres & Hall). exists w'. split; [done|]. intros freed.
  assert (Hgo : let_go i w w' -> freed).
  { intros (He & Hl & Hrd). split; [done|].
    assert (Hno : forall k R', ~ owns w' i k R') by (intros k R'; unfold owns; by rewrite He, lookup_empty).
    intros rid R HR. split.
    - intros l Hlg. destruct (Hl l) as [?|(k & R' & HR' & _)]; [right; eauto | done | by apply Hno in HR'].
    - intros Hlg r Hin. destruct (Hrd r) as [?|(k & R' & HR' & _)]; [right | done | by apply Hno in HR'].
      exists rid, R. split_and!; [done..|].
      destruct (wi_reader w Hinv i rid R r HR Hlg Hin); [congruence | done]. }
  split; [destruct Hres; auto | auto].
Qed.

Lemma close_releases_witness :
  exists w', close dds_ok (S (size (registrations (ws_of example_world 2)))) 2 example_world = Some w' /\
    let freed := registrations (ws_of w' 2) = ∅ /\
      forall rid R, owns example_world 2 rid R ->
        (forall l, logical_of R = Some l -> binding (link_of (store w') l) = unbound) /\
        (logical_of R = None -> forall r, r ∈ reader_ids R -> binding (r_link (reader_of (store w') r)) = unbound) in
    (freed \/ poisoned (ws_of w' 2) = true) /\ ((forall r, detach_ok dds_ok r = true) -> freed).
Proof. apply (close_releases dds_ok 2 example_world); [apply example_reachable | done | done]. Defined.

(** ** What a turn of wait reports *)

(** The entry a registration deserves, judged alone. *)
Definition report (rd : Readiness) (st : Store) (i : Z) (R : Registration) : option ReadyWaitable :=
  let mask := (ready_mask rd R st).1 in
  if mask =? 0 then None
  else Some (MkReadyWaitable (MkToken i (Waitables.id R) (kind R)) (kind R) mask).

Lemma detach_generation dds w i R :
  phase R = PhaseAttached ->
  topology_generation (ws_of (detach dds i R w).2 i) =
    (if topology_generation (ws_of w i) =? UINT64_MAX then UINT64_MAX else topology_generation (ws_of w i) + 1).
Proof.
  intros Hph. destruct (release dds i R (native (ws_of w i)) (store w)) as [[[ok R'] n'] st'] eqn:Hrel.
  destruct (detach_shape dds w i R ok R' n' st' Hph Hrel) as (_ & _ & ->). rewrite decide_True by done.
  unfold after_detach, end_mutation, note_topology_mutation.
  destruct ok; cbn; destruct (Z.eqb_spec (topology_generation (ws_of w i)) UINT64_MAX); done.
Qed.

Lemma list_omap_agree {A B} (f g : A -> option B) (l : list A) :
  (forall x, x ∈ l -> f x = g x) -> omap f l = omap g l.
Proof.
  induction l as [|x l IH]; intros Hfg; [done|]. cbn. rewrite Hfg by left.
  rewrite IH; [done|]. intros. apply Hfg. by right.
Qed.

Lemma readers_mask_set_guard rd st R index cs g v :
  readers_mask rd (set_guard g v st) R index cs = readers_mask rd st R index cs.
Proof. revert index. induction cs as [|[r b] cs IH]; intros index; simpl; [done|]. by rewrite IH. Qed.

Lemma report_set_guard rd st i R g v :
  logical_of R <> Some (GuardOf g) -> report rd (set_guard g v st) i R = report rd st i R.
Proof.
  intros Hne. unfold report, ready_mask. destruct (logical_of R) as [[g'|t|e]|] eqn:Hl; try done;
    [|by rewrite readers_mask_set_guard].
  assert (Hg : guard_of (set_guard g v st) g' = guard_of st g')
    by (rewrite guard_of_set; apply decide_False; congruence).
  rewrite Hg. destruct (decide (kind R = Event)), (consume_trigger (guard_of st g')); done.
Qed.

Lemma is_closing_set_guard st R g v :
  registration_is_closing (set_guard g v st) R = registration_is_closing st R.
Proof. done. Qed.

(** The store after a registration was asked. *)
Lemma ready_mask_store rd R st :
  (ready_mask rd R st).2 = st \/
  exists g v, logical_of R = Some (GuardOf g) /\ (ready_mask rd R st).2 = set_guard g v st.
Proof.
  unfold ready_mask. destruct (logical_of R) as [[g|t|e]|]; try (by left).
  case_decide; [by left|]. destruct (consume_trigger _) as [b v] eqn:Hc. right. by exists g, v.
Qed.

(** A scan either detaches something, which the topology shows, or judges
    every registration alone. *)
Lemma scan_spec dds rd i rs w found w' :
  Forall (fun R => phase R = PhaseAttached) rs -> NoDup (omap logical_of rs) ->
  topology_generation (ws_of w i) < UINT64_MAX ->
  scan dds rd i rs w = (found, w') ->
  topology_generation (ws_of w i) <= topology_generation (ws_of w' i) <= UINT64_MAX /\
  (topology_generation (ws_of w i) < topology_generation (ws_of w' i) \/
   found = omap (report rd (store w) i) rs /\ Forall (fun R => registration_is_closing (store w) R = false) rs).
Proof.
  revert w found w'. induction rs as [|R rs IH]; intros w found w' Hph Hnd Hg Hscan.
  { simpl in Hscan. simplify_eq. split; [lia | by right]. }
  apply Forall_cons in Hph as [HphR Hph]. cbn [scan] in Hscan.
  assert (Hnd' : NoDup (omap logical_of rs)).
  { simpl in Hnd. destruct (logical_of R); [by apply NoDup_cons in Hnd as [_ ?] | done]. }
  assert (Hmono : forall v, topology_generation (ws_of v i) <= UINT64_MAX ->
            topology_generation (ws_of v i) <= topology_generation (ws_of (scan dds rd i rs v).2 i) <= UINT64_MAX).
  { clear -Hph. induction rs as [|R2 rs IH2]; intros v Hv; [simpl; lia|]. apply Forall_cons in Hph as [H2 Hph].
    specialize (IH2 Hph). cbn [scan]. destruct (registration_is_closing _ _).
    - pose proof (detach_generation dds v i R2 H2) as Hd.
      specialize (IH2 (detach dds i R2 v).2). destruct (Z.eqb_spec (topology_generation (ws_of v i)) UINT64_MAX); lia.
    - destruct (ready_mask _ _ _) as [m st]. specialize (IH2 (with_store st v)).
      destruct (scan dds rd i rs (with_store st v)) as [f v2]. simpl in *. by apply IH2. }
  destruct (registration_is_closing (store w) R) eqn:Hcl.
  - pose proof (detach_generation dds w i R HphR) as Hd.
    destruct (Z.eqb_spec (topology_generation (ws_of w i)) UINT64_MAX); [lia|].
    specialize (Hmono (detach dds i R w).2 ltac:(lia)). rewrite Hscan in Hmono. simpl in Hmono. lia.
  - pose proof (ready_mask_store rd R (store w)) as Hst.
    destruct (ready_mask rd R (store w)) as [mask st] eqn:Hrm. simpl in Hst.
    destruct (scan dds rd i rs (with_store st w)) as [found1 w1] eqn:Hs1. simplify_eq.
    destruct (IH (with_store st w) found1 w' Hph Hnd' Hg Hs1) as [Hle [Hlt|[-> Hall]]].
    { split; [done | by left]. }
    split; [done|]. right.
    assert (Hsame : omap (report rd st i) rs = omap (report rd (store w) i) rs /\
                    Forall (fun R => registration_is_closing (store w) R = false) rs).
    { destruct Hst as [->|(g & v & Hlg & ->)]; [done|]. split; [|done].
      simpl in Hnd. rewrite Hlg in Hnd. apply NoDup_cons in Hnd as [Hni _].
      apply list_omap_agree. intros R2 HR2. apply report_set_guard. intros Heq. apply Hni.
      apply list_elem_of_omap. by exists R2. }
    simpl. destruct Hsame as [-> ?]. split; [|by constructor].
    assert (Hrep : report rd (store w) i R = if mask =? 0 then None
              else Some (MkReadyWaitable (MkToken i (Waitables.id R) (kind R)) (kind R) mask))
      by (unfold report; by rewrite Hrm).
    rewrite Hrep. by destruct (mask =? 0).
Qed.

Lemma NoDup_omap_inj {A B} (f : A -> option B) (l : list A) :
  NoDup l -> (forall x y z, x ∈ l -> y ∈ l -> f x = Some z -> f y = Some z -> x = y) -> NoDup (omap f l).
Proof.
  induction l as [|x l IH]; intros Hnd Hinj; [constructor|]. apply NoDup_cons in Hnd as [Hni Hnd].
  specialize (IH Hnd ltac:(intros; eapply Hinj; try (by right); done)). cbn.
  destruct (f x) as [z|] eqn:Hfx; [|done]. constructor; [|done].
  intros (y & Hy & Hfy)%list_elem_of_omap. apply Hni.
  rewrite (Hinj x y z); [done | left | by right | done | done].
Qed.

Section Turns.
Context `{!HashOrder Z Registration}.

Lemma snapshot_logicals w i : WInv w -> NoDup (omap logical_of (snapshot (ws_of w i))).
Proof.
  intros Hinv. apply NoDup_omap_inj.
  - eapply NoDup_fmap_1. by apply snapshot_ids.
  - intros R R2 l HR HR2 Hl Hl2. apply snapshot_owned in HR; [|done]. apply snapshot_owned in HR2; [|done].
    pose proof (wi_logical w Hinv _ _ _ _ HR Hl) as Hb. rewrite (wi_logical w Hinv _ _ _ _ HR2 Hl2) in Hb.
    apply bound_inj in Hb as [_ Hid]. unfold owns in *. congruence.
Qed.

Lemma snapshot_attached s : Forall (fun R => phase R = PhaseAttached) (snapshot s).
Proof. apply Forall_forall. intros R [? _]%list_elem_of_filter. done. Qed.

(** A control guard that had to be replaced moves the topology by one. *)
Lemma repair_frame replaced s :
  registrations (repair_control_guard_if_needed replaced s).2 = registrations s /\
  (topology_generation s < UINT64_MAX -> 
   topology_generation s <= topology_generation (repair_control_guard_if_needed replaced s).2
     <= topology_generation s + 1).
Proof.
  unfold repair_control_guard_if_needed. destruct (broken (ws_wake s)); simpl; [|split; [done | lia]].
  destruct (replace _ _ _) as [[] v]; simpl; [|split; [done | lia]].
  unfold note_topology_mutation. simpl. destruct (Z.eqb_spec (topology_generation s) UINT64_MAX); simpl;
    (split; [done | lia]).
Qed.

Lemma turn_reports i timeout deadline u w res w' :
  WInv w ->
  (forall v, topology_generation (ws_of v i) <= topology_generation (ws_of (during_scan u v) i)) ->
  topology_generation (ws_of w i) + 1 < UINT64_MAX ->
  wait_turn i timeout deadline u w = (Some (success res), w') ->
  wait_ready res = omap (report (readiness u) (store w) i) (snapshot (ws_of w i)) /\
  (forall R, R ∈ snapshot (ws_of w i) -> registration_is_closing (store w) R = false) /\
  (wait_status res = Ready <-> wait_ready res <> []) /\
  (wait_status res = TimedOut ->
     timeout_kind timeout = Poll \/ timeout_kind timeout = Finite /\ deadline <= now_scan u).
Proof.
  intros Hinv Hmono Hgen Hturn. unfold wait_turn in Hturn.
  pose proof (repair_frame (replaced u) (ws_of w i)) as [Hregs Hg]. specialize (Hg ltac:(lia)).
  destruct (repair_control_guard_if_needed _ _) as [repaired s]. simpl in Hregs, Hg.
  destruct repaired; [|done]. destruct (is_shutdown u); [done|]. destruct (ws_closing _); [done|].
  set (w0 := set_ws i s w) in Hturn.
  assert (Hi0 : ws_of w0 i = s) by (subst w0; by rewrite ws_of_set_ws, decide_True).
  assert (Hsnap : snapshot (ws_of w0 i) = snapshot (ws_of w i)) by (unfold snapshot; by rewrite Hi0, Hregs).
  rewrite Hsnap in Hturn.
  destruct (scan (turn_dds u) (readiness u) i (snapshot (ws_of w i)) w0) as [found w1] eqn:Hscan.
  destruct (scan_spec _ _ _ _ _ _ _ (snapshot_attached _) (snapshot_logicals w i Hinv)
              ltac:(rewrite Hi0; lia) Hscan) as [Hle Hcase].
  specialize (Hmono w1). destruct (Z.eqb_spec (topology_generation (ws_of (during_scan u w1) i))
    (topology_generation (ws_of w0 i))) as [Heq|]; [|done]. simpl in Hturn.
  destruct Hcase as [Hlt|[-> Hall]]; [lia|]. change (store w0) with (store w) in *. rewrite Forall_forall in Hall.
  set (found := omap _ _) in *. case_bool_decide as Hf; simpl in Hturn.
  - rewrite Hf. case_bool_decide as Hpoll; simpl in Hturn; [simplify_eq/=; naive_solver|].
    case_bool_decide as Hfin; simpl in Hturn; [|case_match_hyps].
    destruct (Z.leb_spec deadline (now_scan u)); [simplify_eq/=; naive_solver | case_match_hyps].
  - simplify_eq/=. naive_solver.
Qed.

(** C11: When a turn of wait returns a result, it lists exactly the registrations
    of the snapshot that are ready, each with the detail mask it has alone; none
    of them is closing; the status is Ready exactly when the list is not empty,
    and Timeout only for a poll or once a finite deadline has passed. *)
Theorem wait_reports_exactly i timeout deadline u w res w' :
  reachable fresh_world world_step w ->
  (forall v, topology_generation (ws_of v i) <= topology_generation (ws_of (during_scan u v) i)) ->
  topology_generation (ws_of w i) + 1 < UINT64_MAX ->
  wait_turn i timeout deadline u w = (Some (success res), w') ->
  wait_ready res = omap (report (readiness u) (store w) i) (snapshot (ws_of w i)) /\
  (forall R, R ∈ snapshot (ws_of w i) -> registration_is_closing (store w) R = false) /\
  (wait_status res = Ready <-> wait_ready res <> []) /\
  (wait_status res = TimedOut ->
     timeout_kind timeout = Poll \/ timeout_kind timeout = Finite /\ deadline <= now_scan u).
Proof. intros Hr. by apply turn_reports, world_invariant. Qed.
End Turns.

(** A turn of the example's ActionServer: reader 4 has data, a goal expired. *)
Definition busy_turn : Turn :=
  MkTurn dds_ok (true, true) false (MkReadiness (fun r => if Nat.eqb r 4 then 1 else 0) (fun _ => false) (fun _ => false) (fun _ => 8))
    (fun w => w) 0 (fun _ => None) (fun _ => None) (fun w => w) 0 Woken (fun w => w).

Definition busy_result : WaitResult :=
  MkWaitResult Ready [MkReadyWaitable (MkToken 2 1 ActionServer) ActionServer 10].

Lemma wait_reports_exactly_witness :
  wait_ready busy_result = omap (report (readiness busy_turn) (store example_world) 2) (snapshot (ws_of example_world 2)) /\
  (forall R, R ∈ snapshot (ws_of example_world 2) -> registration_is_closing (store example_world) R = false) /\
  (wait_status busy_result = Ready <-> wait_ready busy_result <> []) /\
  (wait_status busy_result = TimedOut ->
     timeout_kind poll = Poll \/ timeout_kind poll = Finite /\ 0 <= now_scan busy_turn).
Proof.
  apply (wait_reports_exactly 2 poll 0 busy_turn example_world busy_result (wait_turn 2 poll 0 busy_turn example_world).2);
    [apply example_reachable | intros; simpl; lia | vm_compute; done | vm_compute; done].
Defined.

(** ** The guards' data *)

Lemma release_guards dds ws R n st : guards (release dds ws R n st).2 = guards st.
Proof.
  unfold release. destruct (logical_of R).
  - unfold release_logical_waitable. by destruct (linked_to _ _ _).
  - assert (Hg : forall cs n st, guards (release_channels dds ws (Waitables.id R) cs n st).2 = guards st).
    { induction cs as [|[r b] cs IH]; intros m s; [done|]. cbn [release_channels]. destruct (negb _).
      - specialize (IH m s). by destruct (release_channels _ _ _ _ _ _) as [[[? ?] ?] ?].
      - destruct (b && _); [done|].
        match goal with |- context [release_channels dds ws ?rid cs ?n1 ?st1] =>
          specialize (IH n1 st1); destruct (release_channels dds ws rid cs n1 st1) as [[[? ?] ?] ?] end. done. }
    specialize (Hg (channels R) n st). by destruct (release_channels _ _ _ _ _ _) as [[[? ?] ?] ?].
Qed.

Lemma detach_guards dds i R w : guards (store (detach dds i R w).2) = guards (store w).
Proof.
  destruct (decide (phase R = PhaseAttached)) as [Hph|Hph]; [|unfold detach; by rewrite decide_False].
  pose proof (release_guards dds i R (native (ws_of w i)) (store w)) as Hg.
  destruct (release dds i R (native (ws_of w i)) (store w)) as [[[ok R'] n'] st'] eqn:Hrel.
  destruct (detach_shape dds w i R ok R' n' st' Hph Hrel) as (_ & -> & _). simpl in Hg.
  destruct ok; [done|]. by destruct (quarantine_readers_frame i (reader_ids R') st') as [_ ->].
Qed.

Lemma set_topology_callbacks_guards i rid index rs st :
  guards (set_topology_callbacks i rid index rs st) = guards st.
Proof. revert index st. induction rs as [|r rs IH]; intros index st; [done|]. simpl. by rewrite IH. Qed.

Lemma add_guards dds race i g t e rs k ld rd w res w' :
  add dds race i g t e rs k ld rd w = Some (res, w') -> guards (store w') = guards (store w).
Proof.
  intros Hadd. unfold add in Hadd.
  destruct (ws_closing _); [by simplify_eq|]. destruct (poisoned _); [by simplify_eq|].
  destruct (_ =? 0); [by simplify_eq|].
  destruct (claim _ _ _ _ _ _) as [[[[[res1 closed] R'] n'] st']|] eqn:Hclaim; [|done].
  apply claim_frame in Hclaim as (_ & Hg & _). simpl in Hg.
  destruct (closed && _).
  { unfold detach_holding_mutex in Hadd. case_decide; simplify_eq/=; done. }
  destruct closed; [simplify_eq; by rewrite detach_guards|].
  destruct (negb _); [by simplify_eq|]. destruct (negb _).
  - match type of Hadd with context [release ?d ?j ?r ?n ?s] =>
      pose proof (release_guards d j r n s) as Hr; destruct (release d j r n s) as [[[? ?] ?] ?] end.
    simplify_eq/=. congruence.
  - simplify_eq/=. by rewrite set_topology_callbacks_guards.
Qed.

Lemma notify_link_store dds l w : store (notify_link dds l w).2 = store w.
Proof. unfold notify_link. by destruct (wake_callback l). Qed.

Lemma run_detach_callback_guards dds l w :
  guards (store (run_detach_callback dds l w).2) = guards (store w).
Proof.
  unfold run_detach_callback. destruct (detach_callback l) as [[i rid]|]; [|done].
  destruct (registrations _ !! rid); [apply detach_guards | done].
Qed.

Lemma reconcile_reader_condition_store dds i rid index w :
  store (reconcile_reader_condition dds i rid index w).2 = store w.
Proof.
  unfold reconcile_reader_condition. destruct (registrations _ !! rid); [|done].
  destruct (_ !! index); [|done]. by destruct (reconcile_channel _ _ _ _ _ _) as [[? ?] ?].
Qed.

Lemma reconcile_all_store dds i rid indices w : store (reconcile_all dds i rid indices w).2 = store w.
Proof.
  revert w. induction indices as [|index indices IH]; intros w; [done|]. simpl.
  pose proof (reconcile_reader_condition_store dds i rid index w) as Hs.
  destruct (reconcile_reader_condition _ _ _ _ _) as [[] w1]; [by rewrite IH | done].
Qed.

Lemma set_interest_store dds i rid k mask w : store (set_interest dds i rid k mask w).2 = store w.
Proof.
  unfold set_interest. destruct (registrations _ !! rid) as [R|]; [|done]. repeat (case_match; [done|]).
  match goal with |- context [reconcile_all dds i rid ?l ?w0] =>
    pose proof (reconcile_all_store dds i rid l w0) as Hs; destruct (reconcile_all dds i rid l w0) end. done.
Qed.

Lemma set_blocking_enabled_guards dds r b w :
  guards (store (set_blocking_enabled dds r b w)) = guards (store w).
Proof.
  unfold set_blocking_enabled. case_match; [done|]. rewrite notify_link_store.
  case_match; [|done]. destruct p as [[i rid] index]. unfold set_reader_blocking.
  destruct (registrations _ !! rid); [|done]. case_match; [done|]. cbn [store on_ws set_ws].
  by rewrite reconcile_reader_condition_store.
Qed.

(** A trigger is consumed at most once. *)
Definition guards_ordered (w : World) : Prop :=
  forall g, consumed_generation (guard_of (store w) g) <= trigger_generation (guard_of (store w) g).

Lemma guards_ordered_same w w' : guards (store w') = guards (store w) -> guards_ordered w -> guards_ordered w'.
Proof. intros Hg Ho g. unfold guard_of. rewrite Hg. apply Ho. Qed.

Lemma guards_ordered_set w g v :
  consumed_generation v <= trigger_generation v -> guards_ordered w ->
  guards_ordered (with_store (set_guard g v (store w)) w).
Proof. intros Hv Ho g'. simpl. rewrite guard_of_set. case_decide; [done | apply Ho]. Qed.

Section GuardData.
Context `{!HashOrder Z Registration}.

Lemma close_loop_guards dds fuel i w w' :
  close_loop dds fuel i w = Some w' -> guards (store w') = guards (store w).
Proof.
  revert w. induction fuel as [|fuel IH]; intros w Hc; [done|]. simpl in Hc.
  destruct (hash_order _) as [|[rid R] l]; [by simplify_eq|].
  pose proof (detach_guards dds i R w) as Hd. destruct (detach dds i R w) as [[] w1]; simpl in Hd.
  - rewrite (IH _ Hc). done.
  - by simplify_eq.
Qed.

Lemma scan_ordered dds rd i rs w : guards_ordered w -> guards_ordered (scan dds rd i rs w).2.
Proof.
  revert w. induction rs as [|R rs IH]; intros w Ho; [done|]. cbn [scan].
  destruct (registration_is_closing _ _).
  - apply IH. eapply guards_ordered_same; [apply detach_guards | done].
  - assert (Ho1 : guards_ordered (with_store (ready_mask rd R (store w)).2 w)).
    { unfold ready_mask. destruct (logical_of R) as [[g|t|e]|]; try done. case_decide; [done|].
      destruct (consume_trigger _) as [b v] eqn:Hv. apply guards_ordered_set; [|done].
      unfold consume_trigger in Hv. case_match; simplify_eq; simpl; [apply Ho | lia]. }
    destruct (ready_mask rd R (store w)) as [m st]. simpl in Ho1. specialize (IH _ Ho1).
    destruct (scan _ _ _ _ (with_store st w)). done.
Qed.

Lemma wait_turn_ordered i timeout deadline u w :
  quiet u -> guards_ordered w -> guards_ordered (wait_turn i timeout deadline u w).2.
Proof.
  intros (Hq1 & Hq2 & Hq3) Ho. unfold wait_turn. rewrite Hq1, Hq2, Hq3.
  destruct (repair_control_guard_if_needed _ _) as [repaired s].
  destruct repaired; [|done]. destruct (is_shutdown u); [done|]. destruct (ws_closing _); [done|].
  pose proof (scan_ordered (turn_dds u) (readiness u) i (snapshot (ws_of (set_ws i s w) i)) (set_ws i s w) Ho) as Hs.
  destruct (scan _ _ _ _ _) as [found w1]. simpl in Hs.
  repeat (match goal with |- context [if ?b then (?x, w1) else _] => destruct b end; [done|]).
  unfold wait_for_notification. destruct (clear_if_unchanged _ _ _) as [c v]. destruct c; simpl.
  - by destruct (native_result u).
  - done.
Qed.

Lemma world_step_ordered w w' : guards_ordered w -> world_step w w' -> guards_ordered w'.
Proof.
  intros Ho [dds race i g t e rs k ld rd res w1 _ _ Ha|dds i rid k|dds i rid k mask|dds fuel i w1 Hc
    |dds op g|g b|dds l|dds r ok w1 Hc|dds r b|i|i timeout deadline u Hq|i|dds l].
  - by eapply guards_ordered_same; [eapply add_guards|].
  - eapply guards_ordered_same; [|done]. unfold WaitSet.remove. destruct (registrations _ !! rid); [|done].
    case_decide; [apply detach_guards | done].
  - eapply guards_ordered_same; [|done]. by rewrite set_interest_store.
  - eapply guards_ordered_same; [|done]. unfold close in Hc. destruct (ws_closing _); [by simplify_eq|].
    destruct (close_loop _ _ _ _) eqn:Hl; [|done]. simplify_eq/=. by rewrite (close_loop_guards _ _ _ _ _ Hl).
  - unfold trigger. destruct (raise_trigger op _) as [res v] eqn:Hv.
    assert (Ho1 : guards_ordered (with_store (set_guard g v (store w)) w)).
    { apply guards_ordered_set; [|done]. specialize (Ho g). unfold raise_trigger in Hv.
      case_match_hyps; simplify_eq/=; lia. }
    destruct res; [|done]. eapply guards_ordered_same; [by rewrite notify_link_store | done].
  - apply guards_ordered_set; [|done]. apply (Ho g).
  - eapply guards_ordered_same; [|done]. unfold close_logical. rewrite notify_link_store.
    by rewrite run_detach_callback_guards.
  - eapply guards_ordered_same; [|done]. unfold close_reader in Hc. destruct (claim_in_progress _); [done|].
    match type of Hc with context [run_detach_callback ?d ?l ?w0] =>
      pose proof (run_detach_callback_guards d l w0) as Hd; destruct (run_detach_callback d l w0) as [det w2] end.
    simplify_eq. rewrite notify_link_store. done.
  - eapply guards_ordered_same; [apply set_blocking_enabled_guards | done].
  - done.
  - by apply wait_turn_ordered.
  - done.
  - eapply guards_ordered_same; [by rewrite notify_link_store | done].
Qed.

Lemma world_ordered w : reachable fresh_world world_step w -> guards_ordered w.
Proof.
  apply reachable_invariant; [|apply world_step_ordered].
  intros w0 (_ & _ & Hg & _) g. rewrite Hg. done.
Qed.

(** What a successful trigger leaves: the guard raised, its wait set notified. *)
Lemma trigger_success dds g w w1 :
  trigger dds true g w = (success tt, w1) ->
  store w1 = set_guard g (MkGuard (trigger_generation (guard_of (store w) g) + 1)
                            (consumed_generation (guard_of (store w) g)) true) (store w) /\
  (forall i, registrations (ws_of w1 i) = registrations (ws_of w i) /\
             topology_generation (ws_of w1 i) = topology_generation (ws_of w i)) /\
  (forall i, wake_callback (link_of (store w) (GuardOf g)) = Some i ->
     generation (ws_wake (ws_of w1 i)) = wrap_u64 (generation (ws_wake (ws_of w i)) + 1) /\
     trigger_value (ws_wake (ws_of w1 i)) = true).
Proof.
  unfold trigger, raise_trigger. simpl. destruct (Z.eqb_spec (trigger_generation (guard_of (store w) g)) UINT64_MAX); [done|].
  change (link_of _ _) with (link_of (store w) (GuardOf g)). unfold notify_link.
  destruct (wake_callback (link_of (store w) (GuardOf g))) as [j|] eqn:Hw.
  - intros [= Hn <-]. split; [done|]. split.
    + intros i. rewrite ws_of_on_ws. by destruct (decide (j = i)) as [<-|].
    + intros i [= <-]. rewrite ws_of_on_ws, decide_True by done.
      unfold notify_wake, notify, set_trigger. simpl. by destruct (trigger_ok dds).
  - by intros [= <-].
Qed.

(** A trigger that succeeds wakes the wait set that holds the
    GuardCondition, and the next turn of wait that returns a result reports its
    registration. *)
Theorem trigger_is_reported dds g w w1 i rid R timeout deadline u res w2 :
  reachable fresh_world world_step w -> owns w i rid R -> logical_of R = Some (GuardOf g) ->
  trigger dds true g w = (success tt, w1) ->
  (generation (ws_wake (ws_of w1 i)) = wrap_u64 (generation (ws_wake (ws_of w i)) + 1) /\
   trigger_value (ws_wake (ws_of w1 i)) = true) /\
  ((forall v, topology_generation (ws_of v i) <= topology_generation (ws_of (during_scan u v) i)) ->
   topology_generation (ws_of w i) + 1 < UINT64_MAX ->
   wait_turn i timeout deadline u w1 = (Some (success res), w2) ->
   MkReadyWaitable (MkToken i rid (kind R)) (kind R) kWaitableReadyBit ∈ wait_ready res).
Proof.
  intros Hr HR Hlg Ht. pose proof (world_invariant w Hr) as Hinv.
  destruct (trigger_success dds g w w1 Ht) as (Hst & Hws & Hwake).
  pose proof (wi_logical w Hinv i rid R _ HR Hlg) as Hb.
  split; [apply Hwake; unfold binding, bound in Hb; congruence|].
  intros Hmono Hgen Hturn.
  assert (Hr1 : reachable fresh_world world_step w1).
  { eapply reach_step; [done|]. pose proof (ws_trigger w dds true g) as Hs. by rewrite Ht in Hs. }
  destruct (Hws i) as [Hregs Htop]. rewrite <- Htop in Hgen.
  destruct (turn_reports i timeout deadline u w1 res w2 (world_invariant w1 Hr1) Hmono Hgen Hturn) as (-> & _).
  pose proof (wi_reg w Hinv i rid R HR) as (Hid & Hph & _).
  apply list_elem_of_omap. exists R. split.
  - unfold snapshot. apply list_elem_of_filter. split; [done|]. apply list_elem_of_fmap. exists (rid, R).
    split; [done|]. apply elem_of_hash_order. by rewrite Hregs.
  - assert (Hg : guard_of (store w1) g = MkGuard (trigger_generation (guard_of (store w) g) + 1)
                   (consumed_generation (guard_of (store w) g)) true)
      by (rewrite Hst, guard_of_set; by rewrite decide_True).
    unfold report, ready_mask. rewrite Hlg, Hg, Hid.
    destruct (decide (kind R = Event)); [done|]. unfold consume_trigger. simpl.
    pose proof (world_ordered w Hr g). destruct (Z.eqb_spec (consumed_generation (guard_of (store w) g))
      (trigger_generation (guard_of (store w) g) + 1)); [lia | done].
Qed.
End GuardData.

Definition triggered_example : World := (trigger dds_ok true 0 example_world).2.
Definition guard_result : WaitResult :=
  MkWaitResult Ready [MkReadyWaitable (MkToken 1 1 GuardCondition) GuardCondition 1].

Lemma trigger_is_reported_witness :
  (generation (ws_wake (ws_of triggered_example 1)) = wrap_u64 (generation (ws_wake (ws_of example_world 1)) + 1) /\
   trigger_value (ws_wake (ws_of triggered_example 1)) = true) /\
  ((forall v, topology_generation (ws_of v 1) <= topology_generation (ws_of (during_scan busy_turn v) 1)) ->
   topology_generation (ws_of example_world 1) + 1 < UINT64_MAX ->
   wait_turn 1 infinite 0 busy_turn triggered_example =
     (Some (success guard_result), (wait_turn 1 infinite 0 busy_turn triggered_example).2) ->
   MkReadyWaitable (MkToken 1 1 GuardCondition) GuardCondition kWaitableReadyBit ∈ wait_ready guard_result).
Proof.
  apply (trigger_is_reported dds_ok 0 example_world triggered_example 1 1
    (MkRegistration 1 GuardCondition (Some 0%nat) None None [] false false PhaseAttached UINT32_MAX));
    [apply example_reachable | vm_compute; reflexivity | reflexivity | reflexivity].
Defined.

(** ** Where the loop falls short *)

(** A detach callback between the close of a waitable and its detach: guard 1
    is closing, guard 0 was triggered. *)
Definition two_guards : World :=
  world_after (add dds_ok no_race 1 (Some 1%nat) None None [] GuardCondition false false guard_added).
Definition closing_world : World :=
  let w := (trigger dds_ok true 0 two_guards).2 in
  with_store (set_link (GuardOf 1) (link_close (link_of (store w) (GuardOf 1))) (store w)) w.

Definition idle_turn : Turn :=
  MkTurn dds_ok (true, true) false (MkReadiness (fun _ => 0) (fun _ => false) (fun _ => false) (fun _ => 0))
    (fun w => w) 0 (fun _ => None) (fun _ => None) (fun w => w) 0 Woken (fun w => w).

(** The turn that detaches guard 1 also consumes guard 0's trigger, and is then
    discarded because the topology changed: the trigger is never reported. *)
Example trigger_lost_in_discarded_turn :
  code_of (trigger dds_ok true 0 two_guards).1 = None /\
  (wait true 0 1 poll [idle_turn; idle_turn] closing_world).1 = Some (success (MkWaitResult TimedOut [])).
Proof. split; reflexivity. Qed.

(** A closing reader whose condition Fast DDS does not detach. *)
Record Spinning (i rid : Z) (R : Registration) (r : nat) (w : World) : Prop := {
  spin_regs : registrations (ws_of w i) = {[rid := R]};
  spin_open : ws_closing (ws_of w i) = false;
  spin_wake : broken (ws_wake (ws_of w i)) = false;
  spin_link : linked_to i rid (r_link (reader_of (store w) r)) = true;
  spin_closing : r_closing (reader_of (store w) r) = true }.

Lemma notify_broken dds v : trigger_ok dds = true -> broken (notify (trigger_ok dds) v).2 = broken v.
Proof. by intros ->. Qed.

Lemma end_mutation_broken dds s :
  trigger_ok dds = true -> broken (ws_wake (end_mutation dds s)) = broken (ws_wake s).
Proof.
  intros Ht. unfold end_mutation, notify_wake. cbn [ws_wake with_wake]. rewrite notify_broken by done.
  unfold note_topology_mutation. by destruct (_ =? UINT64_MAX).
Qed.

Lemma quarantine_readers_closing i rs st r :
  closing (r_link (reader_of (quarantine_readers i rs st) r)) = closing (r_link (reader_of st r)).
Proof. induction rs as [|r' rs IH]; [done|]. cbn. rewrite reader_of_update. case_decide; subst; exact IH. Qed.

Section Spinning.
Context `{!HashOrder Z Registration} (i rid : Z) (R : Registration) (r : nat) (u : Turn).
Context (HR : Waitables.id R = rid /\ phase R = PhaseAttached /\ logical_of R = None /\ channels R = [(r, true)]).
Context (Hu : quiet u /\ is_shutdown u = false /\ detach_ok (turn_dds u) r = false /\ trigger_ok (turn_dds u) = true).

Lemma spinning_turn timeout deadline w :
  Spinning i rid R r w -> topology_generation (ws_of w i) < UINT64_MAX ->
  exists w', wait_turn i timeout deadline u w = (None, w') /\ Spinning i rid R r w' /\
    topology_generation (ws_of w' i) = topology_generation (ws_of w i) + 1.
Proof.
  intros [Hregs Hop Hwk Hlk Hcl] Hgen. destruct HR as (Hid & Hph & Hlg & Hch).
  destruct Hu as ((Hq1 & _) & Hsh & Hdet & Htr).
  unfold wait_turn, repair_control_guard_if_needed. rewrite Hwk, Hsh, Hq1. cbn [negb].
  set (w0 := set_ws i (ws_of w i) w).
  assert (Hi0 : ws_of w0 i = ws_of w i) by (subst w0; by rewrite ws_of_set_ws, decide_True).
  rewrite Hi0, Hop. unfold snapshot. rewrite Hregs.
  assert (Ho : hash_order {[rid := R]} = [(rid, R)]).
  { apply Permutation_singleton_r. rewrite hash_order_perm, map_to_list_singleton. done. }
  rewrite Ho. cbn [fmap list_fmap snd]. rewrite filter_cons_True by done. cbn [scan filter list_filter].
  assert (Hclosing : registration_is_closing (store w0) R = true)
    by (unfold registration_is_closing; rewrite Hlg, Hch; simpl; change (store w0) with (store w); by rewrite Hcl).
  rewrite Hclosing.
  assert (Hrel : release (turn_dds u) i R (native (ws_of w0 i)) (store w0) = (false, R, native (ws_of w i), store w)).
  { unfold release. rewrite Hlg, Hch. cbn [release_channels]. change (store w0) with (store w).
    rewrite Hid, Hlk, Hdet, Hi0. simpl. do 3 f_equal. rewrite <- Hch. by destruct R. }
  destruct (detach_shape (turn_dds u) w0 i R _ _ _ _ Hph Hrel) as (_ & Hst & Hws).
  destruct (detach (turn_dds u) i R w0) as [ok w1]. simpl in Hst, Hws. cbn [snd].
  assert (Hw1 : ws_of w1 i = after_detach (turn_dds u) false R (native (ws_of w i)) (ws_of w i))
    by (by rewrite Hws, decide_True, Hi0).
  assert (Hg1 : topology_generation (ws_of w1 i) = topology_generation (ws_of w i) + 1).
  { rewrite Hw1. unfold after_detach, end_mutation, note_topology_mutation. simpl.
    destruct (Z.eqb_spec (topology_generation (ws_of w i)) UINT64_MAX); [lia | done]. }
  rewrite Hg1. destruct (Z.eqb_spec (topology_generation (ws_of w i) + 1) (topology_generation (ws_of w i))); [lia|].
  exists w1. split; [done|]. split; [|done].
  destruct (after_detach_frame (turn_dds u) false R (native (ws_of w i)) (ws_of w i)) as (Hfr & _).
  constructor.
  - rewrite Hw1, Hfr, Hregs, Hid. apply alter_singleton_eq.
  - rewrite Hw1. unfold after_detach. by destruct (end_mutation_frame (turn_dds u)
      (poison (with_registrations (alter (fun _ => R) (Waitables.id R) (registrations (ws_of w i)))
        (with_native (native (ws_of w i)) (begin_mutation (turn_dds u) (ws_of w i)))))) as (_ & _ & _ & -> & _).
  - rewrite Hw1. unfold after_detach. rewrite end_mutation_broken by done.
    by apply (eq_trans (notify_broken (turn_dds u) (ws_wake (ws_of w i)) Htr)).
  - pose proof (quarantine_readers_sim i (reader_ids R) (store w)) as [_ Hq]. rewrite Hst.
    destruct (Hq r) as (Hb & _). unfold binding, linked_to in *. congruence.
  - rewrite Hst. unfold r_closing in *. by rewrite quarantine_readers_closing.
Qed.

(** However many turns it takes, the wait goes on, even for a poll. *)
Lemma failing_detach_spins timeout deadline n w :
  Spinning i rid R r w -> topology_generation (ws_of w i) + Z.of_nat n <= UINT64_MAX ->
  exists w', wait_turns i timeout deadline (replicate n u) w = (None, w').
Proof.
  revert w. induction n as [|n IH]; intros w Hs Hg; [by eexists|]. simpl.
  destruct (spinning_turn timeout deadline w Hs ltac:(lia)) as (w1 & -> & Hs1 & Hg1).
  apply IH; [done | lia].
Qed.
End Spinning.

Definition spinning_world : World :=
  let w := world_after (add dds_ok no_race 1 None None None [5%nat] Subscriber false false empty_world) in
  with_store (update_reader 5 (with_link link_close) (store w)) w.

Definition failing_turn : Turn :=
  MkTurn (MkDds (fun _ => true) (fun _ => false) (fun _ => true) true) (true, true) false (readiness idle_turn)
    (fun w => w) 0 (fun _ => None) (fun _ => None) (fun w => w) 0 Woken (fun w => w).

(** A poll that never returns: one turn after another discards its scan. *)
Example poll_spins n :
  Z.of_nat n <= UINT64_MAX - 2 -> exists w', wait true 0 1 poll (replicate n failing_turn) spinning_world = (None, w').
Proof.
  intros Hn. unfold wait. cbn [negb].
  assert (Hb : begin_wait (ws_of spinning_world 1) = (success tt, with_waiting true (ws_of spinning_world 1)))
    by (vm_compute; reflexivity).
  rewrite Hb. cbn [steady_deadline poll timeout_kind].
  apply (failing_detach_spins 1 1 (MkRegistration 1 Subscriber None None None [(5%nat, true)] false false PhaseAttached UINT32_MAX) 5 failing_turn).
  - done.
  - done.
  - constructor; try reflexivity; vm_compute; reflexivity.
  - change (topology_generation (ws_of (set_ws 1 (with_waiting true (ws_of spinning_world 1)) spinning_world) 1)) with 2.
    lia.
Qed.

(** A native wait slice is what Fast DDS can hold, and never longer than asked. *)
Theorem native_duration_bounds timeout :
  let '(seconds, nanoseconds) := native_duration timeout in
  0 <= seconds <= INT32_MAX /\ 0 <= nanoseconds < 1000000000 /\
  seconds * 1000000000 + nanoseconds = Z.max 0 (Z.min timeout max_native_wait).
Proof.
  unfold native_duration. destruct (Z.leb_spec timeout 0); [unfold max_native_wait, INT32_MAX; lia|].
  unfold max_native_wait, INT32_MAX in *. set (c := Z.min _ _).
  assert (Hc : 0 < c <= 2147483647 * 1000000000 + 999999999) by lia.
  replace (Z.max 0 c) with c by lia. clearbody c. cbv beta iota.
  rewrite Z.quot_div_nonneg, Z.rem_mod_nonneg by lia.
  pose proof (Z.div_mod c 1000000000 ltac:(lia)). pose proof (Z.mod_pos_bound c 1000000000 ltac:(lia)). lia.
Qed.

(** ** Interest and capacity decide which conditions are attached *)

Definition wanted (st : Store) (R : Registration) (index r : nat) : bool :=
  reader_interested R index && blocking_enabled (reader_of st r) && negb (r_closing (reader_of st r)).

Lemma reconcile_channel_ok dds st R index c n c' n' :
  reconcile_channel dds st R index c n = (true, c', n') -> c' = (c.1, wanted st R index c.1).
Proof.
  unfold reconcile_channel, attach_single, wanted. destruct c as [r b]. simpl.
  destruct (reader_interested R index), (blocking_enabled (reader_of st r)), (r_closing (reader_of st r)), b; simpl;
    repeat case_match; intros; by simplify_eq/=.
Qed.

(** One reconciled channel of a registration that stays otherwise as it was. *)
Lemma reconcile_reader_condition_spec dds i rid index w R c w' :
  registrations (ws_of w i) !! rid = Some R -> channels R !! index = Some c ->
  reconcile_reader_condition dds i rid index w = (true, w') ->
  registrations (ws_of w' i) !! rid =
    Some (with_channels (<[index := (c.1, wanted (store w) R index c.1)]> (channels R)) R) /\ store w' = store w.
Proof.
  intros HR Hc Hrec. unfold reconcile_reader_condition in Hrec. rewrite HR, Hc in Hrec.
  destruct (reconcile_channel _ _ _ _ _ _) as [[ok c'] n] eqn:Hrc. simplify_eq.
  apply reconcile_channel_ok in Hrc as ->. split; [|done].
  rewrite ws_of_on_ws, decide_True by done. apply lookup_insert_eq.
Qed.

Lemma reconcile_reader_condition_poisons dds i rid index w w' :
  reconcile_reader_condition dds i rid index w = (false, w') -> poisoned (ws_of w' i) = true.
Proof.
  unfold reconcile_reader_condition. destruct (registrations _ !! rid) as [R|]; [|done].
  destruct (channels R !! index) as [c|]; [|done].
  destruct (reconcile_channel _ _ _ _ _ _) as [[[] c'] n]; intros [= <-].
  by rewrite ws_of_on_ws, decide_True.
Qed.

(** Reconciling the indices [l] sets exactly those channels as wanted. *)
Lemma reconcile_all_spec dds i rid l w R ok w' :
  registrations (ws_of w i) !! rid = Some R -> (forall k, k ∈ l -> (k < length (channels R))%nat) ->
  reconcile_all dds i rid l w = (ok, w') ->
  if ok then exists R', registrations (ws_of w' i) !! rid = Some R' /\
    same_registration R R' /\ store w' = store w /\
    forall k c, channels R' !! k = Some c ->
      exists b, channels R !! k = Some (c.1, b) /\ (if decide (k ∈ l) then c.2 = wanted (store w) R k c.1 else c.2 = b)
  else poisoned (ws_of w' i) = true.
Proof.
  revert w R. induction l as [|index l IH]; intros w R HR Hlen Hrec; simpl in Hrec.
  - simplify_eq. exists R. split; [done|]. split; [by destruct R|]. split; [done|].
    intros k [r b] Hk. exists b. split; [done|]. by rewrite decide_False by apply not_elem_of_nil.
  - destruct (lookup_lt_is_Some_2 (channels R) index ltac:(apply Hlen; left)) as [c Hc].
    destruct (reconcile_reader_condition dds i rid index w) as [[] w1] eqn:H1.
    2:{ simplify_eq. by eapply reconcile_reader_condition_poisons. }
    destruct (reconcile_reader_condition_spec _ _ _ _ _ _ _ _ HR Hc H1) as [HR1 Hst].
    set (R1 := with_channels _ R) in HR1.
    assert (Hsame1 : same_registration R R1).
    { apply same_registration_intro. rewrite list_fmap_insert. simpl. apply list_insert_id.
      unfold reader_ids. by rewrite list_lookup_fmap, Hc. }
    specialize (IH w1 R1 HR1). destruct ok; [|apply IH; [|done]].
    2:{ intros k Hk. subst R1. simpl. rewrite length_insert. apply Hlen. by right. }
    destruct IH as (R' & HR' & Hsame & Hst' & Hch); [|done|].
    { intros k Hk. subst R1. simpl. rewrite length_insert. apply Hlen. by right. }
    exists R'. split; [done|]. split; [|split; [congruence|]].
    { destruct Hsame1 as [Hi1 He1], Hsame as [Hi He]. split; [congruence|]. rewrite He at 1. by rewrite He1. }
    assert (Hw : forall k r, wanted (store w1) R1 k r = wanted (store w) R k r) by (intros; by rewrite Hst).
    intros k c' Hk. destruct (Hch k c' Hk) as (b & Hb & Hd).
    subst R1. simpl in Hb. apply list_lookup_insert_Some in Hb as [(<- & [= Hb1 <-] & _)|[Hne Hb]].
    + rewrite <- Hb1 in *. exists c.2. split; [rewrite Hc; by destruct c|]. rewrite decide_True by left.
      destruct (decide (index ∈ l)); [by rewrite Hd, Hw | done].
    + exists b. split; [done|].
      destruct (decide (k ∈ l)); [rewrite decide_True by (by right); by rewrite Hd, Hw|].
      rewrite decide_False; [done|]. rewrite elem_of_cons. intros [->|]; done.
Qed.

(** Setting the interest of an ActionServer's registration attaches exactly
    the readers it is interested in, that have room and are not closing, or
    poisons the wait set; it leaves every waitable as it was. *)
Theorem set_interest_spec dds i rid mask w R res w' :
  registrations (ws_of w i) !! rid = Some R -> kind R = ActionServer -> phase R = PhaseAttached ->
  Z.ldiff mask allowed_interest = 0 ->
  set_interest dds i rid ActionServer mask w = (res, w') ->
  match res with
  | success _ => exists R', registrations (ws_of w' i) !! rid = Some R' /\ store w' = store w /\
      same_registration (with_interest mask R) R' /\
      forall k r b, channels R' !! k = Some (r, b) -> b = wanted (store w) R' k r
  | failure e => error_code e = DDSError /\ poisoned (ws_of w' i) = true
  end.
Proof.
  intros HR Hk Hph Hm Hset. unfold set_interest in Hset. rewrite HR, Hk, Hph, Hm in Hset. simpl in Hset.
  set (w0 := on_ws i _ w) in Hset.
  assert (HR0 : registrations (ws_of w0 i) !! rid = Some (with_interest mask R)).
  { subst w0. rewrite ws_of_on_ws, decide_True by done. simpl. apply lookup_insert_eq. }
  destruct (reconcile_all dds i rid (seq 0 (length (channels R))) w0) as [ok w1] eqn:Hall.
  destruct (end_mutation_frame dds (ws_of w1 i)) as (Hfr & _ & _ & _ & _ & _ & Hfp).
  pose proof (reconcile_all_spec dds i rid (seq 0 (length (channels R))) w0 (with_interest mask R) ok w1 HR0 ltac:(intros k0 ?%elem_of_seq; simpl; lia) Hall) as Hs.
  destruct ok; injection Hset as <- <-.
  - destruct Hs as (R' & HR' & Hsame & Hst & Hch). exists R'.
    rewrite ws_of_on_ws, decide_True, Hfr by done. split; [done|]. split; [done|]. split; [done|].
    intros k r b Hkk. destruct (Hch k (r, b) Hkk) as (b' & Hb & Hd).
    rewrite decide_True in Hd; [|apply elem_of_seq; apply lookup_lt_Some in Hb; simpl in Hb; lia].
    simpl in Hd. rewrite Hd. unfold wanted, reader_interested. by destruct Hsame as [_ ->].
  - split; [done|]. rewrite ws_of_on_ws, decide_True by done. auto.
Qed.

Lemma set_interest_spec_witness :
  exists R', registrations (ws_of (set_interest dds_ok 2 1 ActionServer 10 example_world).2 2) !! 1 = Some R' /\
    store (set_interest dds_ok 2 1 ActionServer 10 example_world).2 = store example_world /\
    same_registration (with_interest 10 example_registration) R' /\
    forall k r b, channels R' !! k = Some (r, b) -> b = wanted (store example_world) R' k r.
Proof.
  apply (set_interest_spec dds_ok 2 1 10 example_world example_registration (success tt)
    (set_interest dds_ok 2 1 ActionServer 10 example_world).2); vm_compute; reflexivity.
Defined.

(** With the mask 10 the goal-request reader is detached, the cancel reader kept. *)
Example interest_detaches :
  (fun R => channels R) <$> registrations (ws_of (set_interest dds_ok 2 1 ActionServer 10 example_world).2 2) !! 1
    = Some [(3%nat, false); (4%nat, true)].
Proof. reflexivity. Qed.
