(* ===== verification/Events.v ===== *)
(** * Events: QoS event statuses and the Events that read them

    Models include/dmw/event_info.hpp, src/impl/event_parent_state.hpp and
    .cpp, src/impl/event_impl.hpp and .cpp, and [create_event] of
    publisher_impl.cpp and subscriber_impl.cpp.  An [EventParentState] adds up
    what the listener of an endpoint reports; each [Event] remembers how far it
    has read, and its GuardCondition lives in the [World] of [WaitSet], so that
    a wait set can hold it.  [lock] says which weak pointers can be locked.
    The callback gate is the one of [Services].

    [specification]: an endpoint keeps the list of all reports of a type, and
    an Event returns the sum of those it has not read. *)

From S2P Require Import Prelude Qos Services Waitables Wakeup WaitSet.
From stdpp Require Import gmap.
Local Open Scope Z_scope.

(** ** Event types and their infos *)

Inductive EventType :=
  | LivelinessChanged | RequestedDeadlineMissed | RequestedIncompatibleQos | MessageLost
  | LivelinessLost | OfferedDeadlineMissed | OfferedIncompatibleQos.

#[export] Instance EventType_eq_dec : EqDecision EventType.
Proof. solve_decision. Defined.

Inductive QosPolicyKind :=
  | Policy_Unknown | Policy_History | Policy_Reliability | Policy_Durability | Policy_Deadline
  | Policy_Lifespan | Policy_Liveliness.

#[export] Instance QosPolicyKind_eq_dec : EqDecision QosPolicyKind.
Proof. solve_decision. Defined.

(** The variant.  The counters are [int32_t], those of [MessageLostInfo]
    [size_t]; of the four of [LivelinessChangedInfo] two are changes. *)
Inductive EventInfo :=
  | DeadlineMissedInfo (total_count total_count_change : Z)
  | LivelinessLostInfo (total_count total_count_change : Z)
  | LivelinessChangedInfo (alive_count not_alive_count alive_count_change not_alive_count_change : Z)
  | IncompatibleQosInfo (total_count total_count_change : Z) (last_policy : QosPolicyKind)
  | MessageLostInfo (total_count total_count_change : Z).

#[export] Instance EventInfo_eq_dec : EqDecision EventInfo.
Proof. solve_decision. Defined.

Definition event_index (ty : EventType) : nat :=
  match ty with
  | LivelinessChanged => 0 | RequestedDeadlineMissed => 1 | RequestedIncompatibleQos => 2
  | MessageLost => 3 | LivelinessLost => 4 | OfferedDeadlineMissed => 5 | OfferedIncompatibleQos => 6
  end.

(** The Fast DDS policy ids the code names. *)
Inductive QosPolicyId :=
  | HISTORY_QOS_POLICY_ID | RELIABILITY_QOS_POLICY_ID | DURABILITY_QOS_POLICY_ID
  | DEADLINE_QOS_POLICY_ID | LIFESPAN_QOS_POLICY_ID | LIVELINESS_QOS_POLICY_ID
  | OtherPolicyId (n : Z).

Definition to_qos_policy (policy : QosPolicyId) : QosPolicyKind :=
  match policy with
  | HISTORY_QOS_POLICY_ID => Policy_History
  | RELIABILITY_QOS_POLICY_ID => Policy_Reliability
  | DURABILITY_QOS_POLICY_ID => Policy_Durability
  | DEADLINE_QOS_POLICY_ID => Policy_Deadline
  | LIFESPAN_QOS_POLICY_ID => Policy_Lifespan
  | LIVELINESS_QOS_POLICY_ID => Policy_Liveliness
  | OtherPolicyId _ => Policy_Unknown
  end.

Definition empty_event_info (ty : EventType) : EventInfo :=
  match ty with
  | LivelinessChanged => LivelinessChangedInfo 0 0 0 0
  | LivelinessLost => LivelinessLostInfo 0 0
  | RequestedIncompatibleQos | OfferedIncompatibleQos => IncompatibleQosInfo 0 0 Policy_Unknown
  | MessageLost => MessageLostInfo 0 0
  | RequestedDeadlineMissed | OfferedDeadlineMissed => DeadlineMissedInfo 0 0
  end.

(** [None]: [std::get] on the wrong alternative.  An [int32_t] sum that
    overflows is written as the wrap-around of two's complement hardware. *)
Definition accumulate (total update : EventInfo) : option EventInfo :=
  match total, update with
  | DeadlineMissedInfo _ c, DeadlineMissedInfo t d => Some (DeadlineMissedInfo t (wrap_i32 (c + d)))
  | LivelinessLostInfo _ c, LivelinessLostInfo t d => Some (LivelinessLostInfo t (wrap_i32 (c + d)))
  | LivelinessChangedInfo _ _ ca cn, LivelinessChangedInfo a n da dn =>
      Some (LivelinessChangedInfo a n (wrap_i32 (ca + da)) (wrap_i32 (cn + dn)))
  | IncompatibleQosInfo _ c _, IncompatibleQosInfo t d p =>
      Some (IncompatibleQosInfo t (wrap_i32 (c + d)) p)
  | MessageLostInfo _ c, MessageLostInfo t d => Some (MessageLostInfo t (wrap_u64 (c + d)))
  | _, _ => None
  end.

Definition difference (current cursor : EventInfo) : option EventInfo :=
  match current, cursor with
  | DeadlineMissedInfo t c, DeadlineMissedInfo _ d => Some (DeadlineMissedInfo t (wrap_i32 (c - d)))
  | LivelinessLostInfo t c, LivelinessLostInfo _ d => Some (LivelinessLostInfo t (wrap_i32 (c - d)))
  | LivelinessChangedInfo a n ca cn, LivelinessChangedInfo _ _ da dn =>
      Some (LivelinessChangedInfo a n (wrap_i32 (ca - da)) (wrap_i32 (cn - dn)))
  | IncompatibleQosInfo t c p, IncompatibleQosInfo _ d _ =>
      Some (IncompatibleQosInfo t (wrap_i32 (c - d)) p)
  | MessageLostInfo t c, MessageLostInfo _ d => Some (MessageLostInfo t (wrap_u64 (c - d)))
  | _, _ => None
  end.

(** ** EventParentState *)

Record EventSlot := MkSlot { slot_info : EventInfo; slot_generation : Z }.

(** A default-constructed slot holds the first alternative. *)
Definition new_slot : EventSlot := MkSlot (DeadlineMissedInfo 0 0) 0.
#[export] Instance EventSlot_inhabited : Inhabited EventSlot := populate new_slot.

Record EventRecord := MkRecord { record_id : Z; record_type : EventType; record_event : nat }.

Inductive ListenerInstallState := Detached | Installing | Attached.

#[export] Instance ListenerInstallState_eq_dec : EqDecision ListenerInstallState.
Proof. solve_decision. Defined.

(** A listener is its callback gate. *)
Record EventParentState := MkParent {
  alive : bool;
  slots : list EventSlot;
  events : list EventRecord;
  next_event_registration_id : Z;
  exhausted : bool;
  writer_listener_state : ListenerInstallState;
  reader_listener_state : ListenerInstallState;
  writer_listener : option CallbackInFlightGate;
  reader_listener : option CallbackInFlightGate }.

Definition new_parent : EventParentState :=
  MkParent true (replicate 7 new_slot) [] 1 false Detached Detached None None.

Definition with_slots (l : list EventSlot) (p : EventParentState) : EventParentState :=
  MkParent (alive p) l (events p) (next_event_registration_id p) (exhausted p)
    (writer_listener_state p) (reader_listener_state p) (writer_listener p) (reader_listener p).

Definition with_events (l : list EventRecord) (next : Z) (p : EventParentState) : EventParentState :=
  MkParent (alive p) (slots p) l next (exhausted p) (writer_listener_state p)
    (reader_listener_state p) (writer_listener p) (reader_listener p).

Definition with_exhausted (p : EventParentState) : EventParentState :=
  MkParent (alive p) (slots p) (events p) (next_event_registration_id p) true
    (writer_listener_state p) (reader_listener_state p) (writer_listener p) (reader_listener p).

Definition slot (ty : EventType) (p : EventParentState) : EventSlot := slots p !!! event_index ty.

Definition set_slot (ty : EventType) (s : EventSlot) (p : EventParentState) : EventParentState :=
  with_slots (<[event_index ty := s]> (slots p)) p.

Definition register_event (ty : EventType) (event : nat) (p : EventParentState) : Z * EventParentState :=
  if exhausted p || (next_event_registration_id p =? 0) then (0, with_exhausted p)
  else
    let rid := next_event_registration_id p in
    (rid, with_events (events p ++ [MkRecord rid ty event]) (wrap_u64 (rid + 1)) p).

Definition unregister_event (rid : Z) (p : EventParentState) : EventParentState :=
  if rid =? 0 then p
  else with_events (erase_first (fun r => record_id r =? rid) (events p)) (next_event_registration_id p) p.

Definition event_registration_count (p : EventParentState) : nat := length (events p).

Record Snapshot := MkSnapshot { snap_info : EventInfo; snap_generation : Z }.

Definition snapshot (ty : EventType) (p : EventParentState) : Snapshot :=
  let current := slot ty p in
  MkSnapshot (if slot_generation current =? 0 then empty_event_info ty else slot_info current)
    (slot_generation current).

(** [set_pending] of every record's event that can be locked. *)
Definition mark_pending (lock : nat -> bool) (rs : list EventRecord) (st : Store) : Store :=
  fold_left (fun st r =>
    if lock (record_event r)
    then set_guard (record_event r) (set_pending true (guard_of st (record_event r))) st
    else st) rs st.

(** The critical section of [update]: the new state, [notify_all] and
    [notification_limit].  [None]: [accumulate] fails. *)
Definition update_slot (lock : nat -> bool) (ty : EventType) (info : EventInfo)
    (p : EventParentState) (st : Store) : option (EventParentState * Store * bool * Z) :=
  let limit := wrap_u64 (next_event_registration_id p - 1) in
  if exhausted p then Some (p, st, false, 0)
  else
    let current := slot ty p in
    if slot_generation current =? UINT64_MAX then
      Some (with_exhausted p, mark_pending lock (events p) st, true, limit)
    else
      match (if slot_generation current =? 0 then Some info
             else accumulate (slot_info current) info) with
      | None => None
      | Some total =>
          Some (set_slot ty (MkSlot total (slot_generation current + 1)) p,
                mark_pending lock (filter (fun r => record_type r = ty) (events p)) st, false, limit)
      end.

Definition to_notify (ty : EventType) (notify_all : bool) (limit previous : Z) (r : EventRecord) : bool :=
  (notify_all || bool_decide (record_type r = ty)) && (previous <? record_id r) && (record_id r <=? limit).

(** The notification loop.  It locks the mutex anew for every record:
    [views k] is the vector [events] as its [k]-th turn finds it. *)
Fixpoint notify_loop (dds : Dds) (lock : nat -> bool) (ty : EventType) (notify_all : bool) (limit : Z)
    (views : nat -> list EventRecord) (fuel k : nat) (previous : Z) (w : World) : option World :=
  match fuel with
  | O => None
  | S fuel =>
      if negb (previous <? limit) then Some w
      else
        match find_if (to_notify ty notify_all limit previous) (views k) with
        | None => Some w
        | Some r =>
            let w := if lock (record_event r)
                     then (notify_link dds (link_of (store w) (GuardOf (record_event r))) w).2
                     else w in
            notify_loop dds lock ty notify_all limit views fuel (S k) (record_id r) w
        end
  end.

(** [update] while no other thread changes [events]. *)
Definition update (dds : Dds) (lock : nat -> bool) (ty : EventType) (info : EventInfo)
    (p : EventParentState) (w : World) : option (EventParentState * World) :=
  match update_slot lock ty info p (store w) with
  | None => None
  | Some (p, st, all, limit) =>
      (fun w => (p, w)) <$>
        notify_loop dds lock ty all limit (fun _ => events p) (S (length (events p))) 0 0 (with_store st w)
  end.

(** [close]: the records' events are closed. *)
Definition close_parent (dds : Dds) (lock : nat -> bool) (p : EventParentState) (w : World)
    : EventParentState * World :=
  (MkParent false (slots p) [] (next_event_registration_id p) (exhausted p) (writer_listener_state p)
     (reader_listener_state p) (writer_listener p) (reader_listener p),
   fold_left (fun w r =>
     if lock (record_event r) then close_logical dds (GuardOf (record_event r)) w else w) (events p) w).

(** ** Listeners *)

(** The callbacks of the listeners with the status Fast DDS passes. *)
Inductive Callback :=
  | on_offered_deadline_missed (total_count total_count_change : Z)
  | on_offered_incompatible_qos (total_count total_count_change : Z) (last_policy_id : QosPolicyId)
  | on_liveliness_lost (total_count total_count_change : Z)
  | on_requested_deadline_missed (total_count total_count_change : Z)
  | on_liveliness_changed (alive_count not_alive_count alive_count_change not_alive_count_change : Z)
  | on_requested_incompatible_qos (total_count total_count_change : Z) (last_policy_id : QosPolicyId)
  | on_sample_lost (total_count total_count_change : Z).

Definition callback_type (c : Callback) : EventType :=
  match c with
  | on_offered_deadline_missed _ _ => OfferedDeadlineMissed
  | on_offered_incompatible_qos _ _ _ => OfferedIncompatibleQos
  | on_liveliness_lost _ _ => LivelinessLost
  | on_requested_deadline_missed _ _ => RequestedDeadlineMissed
  | on_liveliness_changed _ _ _ _ => LivelinessChanged
  | on_requested_incompatible_qos _ _ _ => RequestedIncompatibleQos
  | on_sample_lost _ _ => MessageLost
  end.

Definition callback_info (c : Callback) : EventInfo :=
  match c with
  | on_offered_deadline_missed t d | on_requested_deadline_missed t d =>
      DeadlineMissedInfo (wrap_i32 t) (wrap_i32 d)
  | on_offered_incompatible_qos t d p | on_requested_incompatible_qos t d p =>
      IncompatibleQosInfo (wrap_i32 t) (wrap_i32 d) (to_qos_policy p)
  | on_liveliness_lost t d => LivelinessLostInfo (wrap_i32 t) (wrap_i32 d)
  | on_liveliness_changed a n da dn => LivelinessChangedInfo a n da dn
  | on_sample_lost t d => MessageLostInfo (Z.max t 0) (Z.max d 0)
  end.

(** The status counters of Fast DDS that are copied as they are. *)
Definition callback_wf (c : Callback) : Prop :=
  match c with
  | on_liveliness_changed a n da dn => in_i32 a /\ in_i32 n /\ in_i32 da /\ in_i32 dn
  | on_sample_lost t d => in_i32 t /\ in_i32 d
  | _ => True
  end.

Inductive Side := WriterSide | ReaderSide.

#[export] Instance Side_eq_dec : EqDecision Side.
Proof. solve_decision. Defined.

Definition listener_state (side : Side) (p : EventParentState) : ListenerInstallState :=
  if decide (side = WriterSide) then writer_listener_state p else reader_listener_state p.

Definition listener (side : Side) (p : EventParentState) : option CallbackInFlightGate :=
  if decide (side = WriterSide) then writer_listener p else reader_listener p.

Definition with_listener (side : Side) (s : ListenerInstallState) (l : option CallbackInFlightGate)
    (p : EventParentState) : EventParentState :=
  match side with
  | WriterSide =>
      MkParent (alive p) (slots p) (events p) (next_event_registration_id p) (exhausted p) s
        (reader_listener_state p) l (reader_listener p)
  | ReaderSide =>
      MkParent (alive p) (slots p) (events p) (next_event_registration_id p) (exhausted p)
        (writer_listener_state p) s (writer_listener p) l
  end.

Definition callback_side (c : Callback) : Side :=
  match c with
  | on_offered_deadline_missed _ _ | on_offered_incompatible_qos _ _ _ | on_liveliness_lost _ _ =>
      WriterSide
  | _ => ReaderSide
  end.

(** A callback from the first to the last line: it holds the gate while it
    updates its source, if the source can still be locked. *)
Definition deliver (dds : Dds) (lock : nat -> bool) (source : bool) (c : Callback)
    (p : EventParentState) (w : World) : option (EventParentState * World) :=
  let side := callback_side c in
  match listener side p with
  | None => Some (p, w)
  | Some g =>
      match enter g with
      | (false, _) => Some (p, w)
      | (true, g) =>
          let p := with_listener side (listener_state side p) (Some g) p in
          match (if source then update dds lock (callback_type c) (callback_info c) p w
                 else Some (p, w)) with
          | None => None
          | Some (p, w) =>
              Some (with_listener side (listener_state side p) ((fun g => (leave g).2) <$> listener side p) p, w)
          end
      end
  end.

(** The two critical sections of [attach] around [set_listener].  The first is
    [None] while another thread installs the listener: [attach] waits.  Its
    flag says that [attach] returns there. *)
Definition attach_begin (side : Side) (p : EventParentState) : option (bool * EventParentState) :=
  match listener_state side p with
  | Installing => None
  | Attached => Some (true, p)
  | Detached => Some (false, with_listener side Installing (Some new_gate) p)
  end.

(** [result] is what [set_listener] returned, [None] for RETCODE_OK. *)
Definition attach_end (side : Side) (result : option ReturnCode) (p : EventParentState)
    : Result unit * EventParentState :=
  match result with
  | None => (success tt, with_listener side Attached (listener side p) p)
  | Some c =>
      (failure (to_error c (if decide (side = WriterSide) then "Fast DDS failed to set a writer listener"
                            else "Fast DDS failed to set a reader listener")%string),
       with_listener side Detached None p)
  end.

Definition attach (side : Side) (result : option ReturnCode) (p : EventParentState)
    : option (Result unit * EventParentState) :=
  match attach_begin side p with
  | None => None
  | Some (true, p) => Some (success tt, p)
  | Some (false, p) => Some (attach_end side result p)
  end.

Definition close_gate (g : CallbackInFlightGate) : option CallbackInFlightGate :=
  if drained g then Some (stop_accepting g) else None.

(** [None]: a listener is still busy, and the call waits. *)
Definition drain_listeners (p : EventParentState) : option EventParentState :=
  match (match writer_listener p with None => Some None | Some g => Some <$> close_gate g end),
        (match reader_listener p with None => Some None | Some g => Some <$> close_gate g end) with
  | Some w, Some r =>
      Some (with_listener ReaderSide (reader_listener_state p) r
              (with_listener WriterSide (writer_listener_state p) w p))
  | _, _ => None
  end.

(** The listeners go to the process-wide quarantine. *)
Definition quarantine_listeners (p : EventParentState) : EventParentState :=
  with_listener ReaderSide (reader_listener_state p) None
    (with_listener WriterSide (writer_listener_state p) None p).

(** ** Events *)

(** [Event::Impl]; [wait_state] is its GuardConditionState in the store. *)
Record EventImpl := MkEvent {
  event_type : EventType; wait_state : nat; cursor : Snapshot; event_registration : Z }.

Definition shut_down {T} : Result T := fail ContextShutdown "Context is shut down".

(** [take] once the snapshot is taken: the result, the caller's [info], the
    Event and the store. *)
Definition take_current (current : Snapshot) (info : EventInfo) (e : EventImpl) (st : Store)
    : option (Result bool * EventInfo * EventImpl * Store) :=
  if snap_generation current =? snap_generation (cursor e) then Some (success false, info, e, st)
  else
    match difference (snap_info current) (snap_info (cursor e)) with
    | None => None
    | Some info =>
        Some (success true, info,
              MkEvent (event_type e) (wait_state e) current (event_registration e),
              set_guard (wait_state e) (set_pending false (guard_of st (wait_state e))) st)
    end.

Definition take (operation : bool) (p : EventParentState) (info : EventInfo) (e : EventImpl)
    (st : Store) : option (Result bool * EventInfo * EventImpl * Store) :=
  if negb operation then Some (shut_down, info, e, st)
  else if negb (alive p) then Some (fail ParentDestroyed "Event parent is destroyed", info, e, st)
  else if exhausted p then
    Some (fail ResourceExhausted "Event generation or registration ID is exhausted", info, e, st)
  else take_current (snapshot (event_type e) p) info e st.

(** The destructor of [Event::Impl]. *)
Definition destroy_event (dds : Dds) (e : EventImpl) (p : EventParentState) (w : World)
    : EventParentState * World :=
  (unregister_event (event_registration e) p, close_logical dds (GuardOf (wait_state e)) w).

Definition valid_for (side : Side) (ty : EventType) : bool :=
  match side, ty with
  | WriterSide, (LivelinessLost | OfferedDeadlineMissed | OfferedIncompatibleQos) => true
  | ReaderSide, (LivelinessChanged | RequestedDeadlineMissed | RequestedIncompatibleQos | MessageLost) =>
      true
  | _, _ => false
  end.

(** [Publisher::Impl::create_event] and [Subscriber::Impl::create_event];
    [g] is the new GuardConditionState. *)
Definition create_event (side : Side) (operation : bool) (result : option ReturnCode) (context g : nat)
    (ty : EventType) (p : EventParentState) (w : World)
    : option (Result EventImpl * EventParentState * World) :=
  let writer := bool_decide (side = WriterSide) in
  if negb (valid_for side ty) then
    Some (fail InvalidArgument (if writer then "EventType is not valid for Publisher"
                                else "EventType is not valid for Subscriber"), p, w)
  else if negb operation then Some (shut_down, p, w)
  else if negb (alive p) then
    Some (fail ParentDestroyed (if writer then "Publisher is destroyed" else "Subscriber is destroyed"), p, w)
  else
    let w := with_store (set_guard g new_guard (set_link (GuardOf g) (new_link context) (store w))) w in
    match attach side result p with
    | None => None
    | Some (failure e, p) => Some (failure e, p, w)
    | Some (success _, p) =>
        let cursor := snapshot ty p in
        let '(rid, p) := register_event ty g p in
        if rid =? 0 then Some (fail ResourceExhausted "Event registration IDs are exhausted", p, w)
        else Some (success (MkEvent ty g cursor rid), p, w)
    end.

(** ** The specification: reports and their sum *)

(** The alternative an event type uses. *)
Definition same_alternative (a b : EventInfo) : bool :=
  match a, b with
  | DeadlineMissedInfo _ _, DeadlineMissedInfo _ _ | LivelinessLostInfo _ _, LivelinessLostInfo _ _
  | LivelinessChangedInfo _ _ _ _, LivelinessChangedInfo _ _ _ _
  | IncompatibleQosInfo _ _ _, IncompatibleQosInfo _ _ _ | MessageLostInfo _ _, MessageLostInfo _ _ => true
  | _, _ => false
  end.

(** The changes an info carries; only [LivelinessChangedInfo] has two. *)
Definition changes (i : EventInfo) : Z * Z :=
  match i with
  | DeadlineMissedInfo _ c | LivelinessLostInfo _ c | IncompatibleQosInfo _ c _ | MessageLostInfo _ c => (c, 0)
  | LivelinessChangedInfo _ _ a n => (a, n)
  end.

Definition add (a b : Z * Z) : Z * Z := (a.1 + b.1, a.2 + b.2).
Definition sub (a b : Z * Z) : Z * Z := (a.1 - b.1, a.2 - b.2).

(** The info with other changes, at the width of its counters. *)
Definition with_changes (c : Z * Z) (i : EventInfo) : EventInfo :=
  match i with
  | DeadlineMissedInfo t _ => DeadlineMissedInfo t (wrap_i32 c.1)
  | LivelinessLostInfo t _ => LivelinessLostInfo t (wrap_i32 c.1)
  | LivelinessChangedInfo a n _ _ => LivelinessChangedInfo a n (wrap_i32 c.1) (wrap_i32 c.2)
  | IncompatibleQosInfo t _ p => IncompatibleQosInfo t (wrap_i32 c.1) p
  | MessageLostInfo t _ => MessageLostInfo t (wrap_u64 c.1)
  end.

(** An info that a listener can report for the type. *)
Definition info_wf (ty : EventType) (i : EventInfo) : Prop :=
  same_alternative (empty_event_info ty) i = true /\ with_changes (changes i) i = i.

Definition total_change (reports : list EventInfo) : Z * Z := fold_right (fun i => add (changes i)) (0, 0) reports.

(** What an Event that has not read [reports] returns: the totals of the last
    one and the sum of the changes. *)
Definition summary (ty : EventType) (reports : list EventInfo) : EventInfo :=
  match last reports with
  | None => empty_event_info ty
  | Some i => with_changes (total_change reports) i
  end.

Lemma wrap_i32_mod x y : (x - y) mod 4294967296 = 0 -> wrap_i32 x = wrap_i32 y.
Proof.
  intros H. unfold wrap_i32, wrap_u32.
  assert (x mod 4294967296 = y mod 4294967296) as ->; [|done].
  apply Z.mod_divide in H as [k Hk]; [|lia]. replace x with (y + k * 4294967296) by lia. by rewrite Z_mod_plus_full.
Qed.

Lemma wrap_i32_add a b : wrap_i32 (wrap_i32 a + b) = wrap_i32 (a + b).
Proof.
  apply wrap_i32_mod. unfold wrap_i32, wrap_u32, INT32_MAX.
  pose proof (Z.div_mod a 4294967296 ltac:(lia)) as Ha. apply Z.mod_divide; [lia|].
  case_cmp; [exists (- (a / 4294967296)) | exists (- (a / 4294967296) - 1)]; lia.
Qed.

Lemma wrap_u64_add a b : wrap_u64 (wrap_u64 a + b) = wrap_u64 (a + b).
Proof. unfold wrap_u64. by rewrite Zplus_mod_idemp_l. Qed.

Lemma with_changes_alternative c i : same_alternative i (with_changes c i) = true.
Proof. by destruct i. Qed.

Lemma same_alternative_trans a b c :
  same_alternative a b = true -> same_alternative b c = true -> same_alternative a c = true.
Proof. by destruct a, b, c. Qed.

Lemma same_alternative_sym a b : same_alternative a b = true -> same_alternative b a = true.
Proof. by destruct a, b. Qed.

Lemma accumulate_spec c total i :
  same_alternative total i = true ->
  accumulate (with_changes c total) i = Some (with_changes (add c (changes i)) i).
Proof. destruct total, i; try done; intros _; simpl; by rewrite ?wrap_i32_add, ?wrap_u64_add. Qed.

Lemma wrap_i32_idemp a : wrap_i32 (wrap_i32 a) = wrap_i32 a.
Proof. pose proof (wrap_i32_add a 0) as H. by rewrite !Z.add_0_r in H. Qed.

Lemma wrap_u64_idemp a : wrap_u64 (wrap_u64 a) = wrap_u64 a.
Proof. pose proof (wrap_u64_add a 0) as H. by rewrite !Z.add_0_r in H. Qed.

Lemma with_changes_idemp c i : with_changes (changes (with_changes c i)) (with_changes c i) = with_changes c i.
Proof. destruct i; simpl; by rewrite ?wrap_i32_idemp, ?wrap_u64_idemp. Qed.

Lemma wrap_i32_sub a b : wrap_i32 (wrap_i32 a - wrap_i32 b) = wrap_i32 (a - b).
Proof.
  unfold Z.sub. rewrite wrap_i32_add. apply wrap_i32_mod. unfold wrap_i32, wrap_u32, INT32_MAX.
  pose proof (Z.div_mod b 4294967296 ltac:(lia)) as Hb. apply Z.mod_divide; [lia|].
  case_cmp; [exists (b / 4294967296) | exists (b / 4294967296 + 1)]; lia.
Qed.

Lemma wrap_u64_sub a b : wrap_u64 (wrap_u64 a - wrap_u64 b) = wrap_u64 (a - b).
Proof. unfold wrap_u64. by rewrite <- Zminus_mod. Qed.

Lemma difference_spec c d i j :
  same_alternative i j = true ->
  difference (with_changes c i) (with_changes d j) = Some (with_changes (sub c d) i).
Proof. destruct i, j; try done; intros _; simpl; by rewrite ?wrap_i32_sub, ?wrap_u64_sub. Qed.

Lemma total_change_app a b : total_change (a ++ b) = add (total_change a) (total_change b).
Proof.
  induction a as [|i a IH]; simpl; unfold add in *; [by destruct (total_change b)|].
  rewrite IH. simpl. f_equal; lia.
Qed.

Lemma summary_snoc ty us i : summary ty (us ++ [i]) = with_changes (add (total_change us) (changes i)) i.
Proof. unfold summary. rewrite last_snoc, total_change_app. simpl. unfold add. simpl. by rewrite !Z.add_0_r. Qed.

Lemma summary_empty ty : summary ty [] = with_changes (0, 0) (empty_event_info ty).
Proof. by destruct ty. Qed.

Lemma summary_alternative ty us :
  Forall (info_wf ty) us -> same_alternative (empty_event_info ty) (summary ty us) = true.
Proof.
  intros Hus. unfold summary. destruct (last us) as [i|] eqn:Hl; [|by destruct ty].
  apply last_Some in Hl as [us' ->]. apply Forall_app in Hus as [_ Hi].
  apply Forall_singleton in Hi as [Hi _]. eapply same_alternative_trans; [done | apply with_changes_alternative].
Qed.

Lemma summary_form ty us :
  Forall (info_wf ty) us -> exists i, summary ty us = with_changes (total_change us) i /\
    same_alternative (empty_event_info ty) i = true.
Proof.
  intros Hus. pose proof (summary_alternative ty us Hus) as Ha. unfold summary in *.
  destruct (last us) as [i|] eqn:Hl.
  - exists i. split; [done|]. eapply same_alternative_trans; [done|].
    apply same_alternative_sym, with_changes_alternative.
  - apply last_None in Hl as ->. exists (empty_event_info ty). split; [by destruct ty | done].
Qed.

(** Adding a report to a sum, and the part of a sum after a prefix. *)
Lemma accumulate_summary ty us i :
  Forall (info_wf ty) us -> info_wf ty i -> us <> [] ->
  accumulate (summary ty us) i = Some (summary ty (us ++ [i])).
Proof.
  intros Hus [Hi _] _. destruct (summary_form ty us Hus) as (j & -> & Hj).
  rewrite summary_snoc. apply accumulate_spec.
  eapply same_alternative_trans; [by apply same_alternative_sym | done].
Qed.

Lemma difference_summary ty us vs :
  Forall (info_wf ty) (us ++ vs) -> vs <> [] ->
  difference (summary ty (us ++ vs)) (summary ty us) = Some (summary ty vs).
Proof.
  intros Hall Hvs. pose proof Hall as Hboth. apply Forall_app in Hall as [Hus Hv].
  destruct (summary_form ty us Hus) as (j & -> & Hj).
  destruct (exists_last Hvs) as (vs' & i & ->).
  rewrite app_assoc, !summary_snoc.
  apply Forall_app in Hv as [_ [Hi _]%Forall_singleton].
  rewrite difference_spec.
  - f_equal. f_equal. rewrite total_change_app. unfold add, sub. simpl. f_equal; lia.
  - eapply same_alternative_trans; [by apply same_alternative_sym | done].
Qed.

(** ** The notification loop *)

Section Notification.
Context (ty : EventType) (notify_all : bool) (limit : Z).

(** The records the loop stops at. *)
Fixpoint picked (views : nat -> list EventRecord) (fuel k : nat) (previous : Z) : option (list EventRecord) :=
  match fuel with
  | O => None
  | S fuel =>
      if negb (previous <? limit) then Some []
      else
        match find_if (to_notify ty notify_all limit previous) (views k) with
        | None => Some []
        | Some r => (fun rs => r :: rs) <$> picked views fuel (S k) (record_id r)
        end
  end.

Definition notify_record (dds : Dds) (lock : nat -> bool) (w : World) (r : EventRecord) : World :=
  if lock (record_event r) then (notify_link dds (link_of (store w) (GuardOf (record_event r))) w).2 else w.

Lemma notify_loop_picked dds lock views fuel k previous w :
  notify_loop dds lock ty notify_all limit views fuel k previous w =
  (fun rs => fold_left (notify_record dds lock) rs w) <$> picked views fuel k previous.
Proof.
  revert k previous w. induction fuel as [|fuel IH]; intros k previous w; [done|]. simpl.
  destruct (negb _); [done|]. destruct (find_if _ _) as [r|]; [|done].
  rewrite IH. by destruct (picked views fuel (S k) (record_id r)).
Qed.

Lemma to_notify_spec previous r :
  to_notify ty notify_all limit previous r = true <->
  (notify_all = true \/ record_type r = ty) /\ previous < record_id r <= limit.
Proof.
  unfold to_notify. rewrite !andb_true_iff, orb_true_iff, bool_decide_eq_true, Z.ltb_lt, Z.leb_le. tauto.
Qed.

Definition ascending (rs : list EventRecord) : Prop := StronglySorted (fun a b => record_id a < record_id b) rs.

(** In an ascending vector the loop stops at the least id that is left. *)
Lemma find_least rs previous r r' :
  ascending rs -> find_if (to_notify ty notify_all limit previous) rs = Some r ->
  r' ∈ rs -> to_notify ty notify_all limit previous r' = true -> r' = r \/ record_id r < record_id r'.
Proof.
  intros Hs Hf Hin Hn. apply find_if_split in Hf as (l1 & l2 & -> & Hl1 & _).
  apply elem_of_app in Hin as [Hin|Hin]; [rewrite Hl1 in Hn; done|].
  apply elem_of_cons in Hin as [->|Hin]; [by left|]. right.
  apply StronglySorted_app_1_r in Hs. apply StronglySorted_inv in Hs as [_ Hs].
  rewrite Forall_forall in Hs. by apply Hs.
Qed.

(** Enough fuel for any views: the ids grow and stay below the limit. *)
Lemma picked_terminates views fuel k previous :
  (Z.to_nat (limit - previous) < fuel)%nat -> is_Some (picked views fuel k previous).
Proof.
  revert k previous. induction fuel as [|fuel IH]; intros k previous Hf; [lia|]. simpl.
  destruct (Z.ltb_spec previous limit); simpl; [|by eexists].
  destruct (find_if _ _) as [r|] eqn:Hr; [|by eexists].
  apply find_if_Some in Hr as [_ [_ Hid]%to_notify_spec].
  destruct (IH (S k) (record_id r)) as [rs ->]; [lia | by eexists].
Qed.

(** What it stops at, and that it leaves out no record that is there in every
    turn. *)
Lemma picked_spec views fuel k previous rs :
  picked views fuel k previous = Some rs -> (forall k, ascending (views k)) ->
  ascending rs /\ Forall (fun r => to_notify ty notify_all limit previous r = true) rs /\
  (forall r, (forall k, r ∈ views k) -> to_notify ty notify_all limit previous r = true -> r ∈ rs).
Proof.
  revert k previous rs. induction fuel as [|fuel IH]; intros k previous rs Hp Hs; [done|]. simpl in Hp.
  destruct (Z.ltb_spec previous limit) as [Hlt|Hle]; simpl in Hp.
  2:{ injection Hp as <-. split_and!; [constructor | constructor |].
      intros r _ [_ Hid]%to_notify_spec. lia. }
  destruct (find_if _ (views k)) as [r|] eqn:Hr.
  2:{ injection Hp as <-. split_and!; [constructor | constructor |].
      intros r Hin Hn. rewrite find_if_None in Hr. rewrite Hr in Hn; [done | apply Hin]. }
  destruct (picked views fuel (S k) (record_id r)) as [rs'|] eqn:Hp'; [|done]. injection Hp as <-.
  pose proof Hr as Hleast. apply find_if_Some in Hr as [Hin Hn].
  destruct (IH _ _ _ Hp' Hs) as (Hasc & Hall & Hcomplete).
  split_and!.
  - constructor; [done|]. eapply Forall_impl; [done|]. intros r'. cbn beta.
    rewrite to_notify_spec. lia.
  - constructor; [done|]. eapply Forall_impl; [done|]. intros r'. cbn beta. rewrite to_notify_spec.
    apply to_notify_spec in Hn. rewrite to_notify_spec. intros [? ?]. split; [done | lia].
  - intros r' Hr' Hn'. destruct (find_least _ _ _ r' (Hs k) Hleast (Hr' k) Hn') as [->|Hgt]; [left|right].
    apply Hcomplete; [done|]. apply to_notify_spec in Hn' as [? ?]. apply to_notify_spec. split; [done | lia].
Qed.

(** With no other thread at work, [S (length events)] turns are enough. *)
Lemma picked_constant rs fuel k previous :
  (length (filter (fun r => Is_true (to_notify ty notify_all limit previous r)) rs) < fuel)%nat ->
  is_Some (picked (fun _ => rs) fuel k previous).
Proof.
  revert k previous. induction fuel as [|fuel IH]; intros k previous Hf; [lia|]. simpl.
  destruct (negb _); [by eexists|]. destruct (find_if _ _) as [r|] eqn:Hr; [|by eexists].
  apply find_if_split in Hr as (l1 & l2 & -> & Hl1 & Hn & _).
  destruct (IH (S k) (record_id r)) as [rs' ->]; [|by eexists].
  rewrite filter_app, filter_cons in *. rewrite decide_True in Hf by (apply Is_true_true; exact Hn).
  rewrite decide_False.
  2:{ rewrite Is_true_true, to_notify_spec. lia. }
  assert (Hsub : forall l, (length (filter (fun r' => Is_true (to_notify ty notify_all limit (record_id r) r')) l) <=
    length (filter (fun r' => Is_true (to_notify ty notify_all limit previous r')) l))%nat).
  { intros l. apply to_notify_spec in Hn. induction l as [|r' l IHl]; [done|]. rewrite !filter_cons.
    destruct (decide (Is_true (to_notify ty notify_all limit (record_id r) r'))) as [H1|H1].
    - rewrite decide_True; [simpl; lia|]. apply Is_true_true, to_notify_spec in H1 as [? ?].
      apply Is_true_true, to_notify_spec. split; [done | lia].
    - case_decide; simpl; lia. }
  rewrite length_app in *. simpl in Hf. pose proof (Hsub l1). pose proof (Hsub l2). lia.
Qed.
End Notification.

(** ** Callbacks *)

(** A listener reports infos of the type's alternative, at their width. *)
Lemma callback_info_wf c : callback_wf c -> info_wf (callback_type c) (callback_info c).
Proof.
  destruct c; simpl; intros Hc; split; try done; simpl; rewrite ?wrap_i32_idemp; try done.
  - destruct Hc as (? & ? & ? & ?). by rewrite !wrap_i32_small.
  - destruct Hc as [_ Hc]. rewrite wrap_u64_small; [done|]. revert Hc. unfold_ints. lia.
Qed.

Lemma with_listener_twice sd s1 l1 s2 l2 p :
  with_listener sd s2 l2 (with_listener sd s1 l1 p) = with_listener sd s2 l2 p.
Proof. by destruct sd. Qed.

Lemma update_listener dds lock ty info sd s l p w :
  update dds lock ty info (with_listener sd s l p) w =
  (fun '(p', w) => (with_listener sd s l p', w)) <$> update dds lock ty info p w.
Proof.
  unfold update, update_slot.
  assert (exhausted (with_listener sd s l p) = exhausted p /\ slot ty (with_listener sd s l p) = slot ty p /\
    events (with_listener sd s l p) = events p /\
    next_event_registration_id (with_listener sd s l p) = next_event_registration_id p)
    as (-> & -> & Hev & ->) by (by destruct sd).
  assert (forall v, set_slot ty v (with_listener sd s l p) = with_listener sd s l (set_slot ty v p)) as Hset
    by (by destruct sd).
  assert (with_exhausted (with_listener sd s l p) = with_listener sd s l (with_exhausted p)) as Hex
    by (by destruct sd).
  assert (Hev' : forall p', events (with_listener sd s l p') = events p') by (by destruct sd).
  destruct (exhausted p); [by rewrite Hev|].
  destruct (slot_generation (slot ty p) =? UINT64_MAX).
  - rewrite Hex, !Hev'. by destruct (notify_loop _ _ _ _ _ _ _ _ _ _).
  - destruct (if slot_generation (slot ty p) =? 0 then _ else _); [|done].
    rewrite Hset, !Hev'. by destruct (notify_loop _ _ _ _ _ _ _ _ _ _).
Qed.

(** A callback that the gate admits is the update of its status, and leaves
    the gate as it found it; after the listener was drained it does nothing. *)
Lemma deliver_updates dds lock c p w n :
  listener (callback_side c) p = Some (MkGate true n) -> 0 <= n < UINT64_MAX ->
  deliver dds lock true c p w =
  (fun '(p', w) => (with_listener (callback_side c) (listener_state (callback_side c) p') (Some (MkGate true n)) p', w))
    <$> update dds lock (callback_type c) (callback_info c) p w.
Proof.
  intros Hl Hn. unfold deliver. rewrite Hl. simpl. rewrite wrap_u64_small by (unfold_ints; lia).
  rewrite update_listener. destruct (update _ _ _ _ _ _) as [[p' w']|] eqn:Hu; [|done]. simpl.
  assert (forall sd s l q, listener sd (with_listener sd s l q) = l) as -> by (by intros []).
  assert (listener_state (callback_side c) p' = listener_state (callback_side c) p) as Hst.
  { unfold update in Hu. destruct (update_slot _ _ _ _ _) as [[[[p1 st] all] limit]|] eqn:Hs; [|done].
    destruct (notify_loop _ _ _ _ _ _ _ _ _ _); [|done]. simplify_eq/=.
    unfold update_slot in Hs. case_match_hyps; simplify_eq; by destruct (callback_side c). }
  rewrite with_listener_twice. simpl. replace (n + 1 - 1) with n by lia.
  rewrite wrap_u64_small by (unfold_ints; lia).
  assert (forall sd s l q, listener_state sd (with_listener sd s l q) = s) as -> by (by intros []).
  by rewrite Hst.
Qed.

Lemma deliver_after_drain dds lock source c p p' w :
  drain_listeners p = Some p' -> deliver dds lock source c p' w = Some (p', w).
Proof.
  unfold drain_listeners, close_gate, deliver. intros Hd.
  destruct (writer_listener p) as [gw|], (reader_listener p) as [gr|]; simpl in Hd;
    repeat (destruct (drained _); [|done]); simplify_eq/=; by destruct (callback_side c).
Qed.
