(* ===== verification/EventResults.v ===== *)
(** * EventResults: what an Event reports and when it wakes

    [events_refine_ledger]: an endpoint's events refine a ledger of reports,
    from which each Event returns the sum of what it has not read.
    [every_event_notified]: the notification loop ends and misses no record.
    [update_is_reported]: a report reaches the wait set that holds the Event.
    The [Example]s are updates that fall between two steps of [take] or of
    [create_event]. *)

From S2P Require Import Prelude Deadline Qos Services Waitables Wakeup WaitSet WaitInvariant WaitResults Events.
From stdpp Require Import gmap.
Local Open Scope Z_scope.

(** ** An endpoint with its events *)

Record EventSystem := MkSystem {
  side : Side; parent : EventParentState; world : World; impls : gmap nat EventImpl }.

(** [O_update] is what a listener's callback does; [O_other] is anything that
    other objects do to the wait sets. *)
Inductive EventOp :=
  | O_update (dds : Dds) (lock : nat -> bool) (ty : EventType) (info : EventInfo)
  | O_create (operation : bool) (result : option ReturnCode) (context g : nat) (ty : EventType)
  | O_take (operation : bool) (g : nat) (info : EventInfo)
  | O_destroy (dds : Dds) (g : nat)
  | O_close (dds : Dds) (lock : nat -> bool)
  | O_other (f : World -> World).

Inductive Output := Nothing | Created (r : Result unit) | Took (r : Result bool) (info : EventInfo).

(** [None]: the operation waits or breaks off; [O_take] and [O_destroy] of an
    Event that does not exist do nothing. *)
Definition event_step (o : EventOp) (s : EventSystem) : option (Output * EventSystem) :=
  match o with
  | O_update dds lock ty info =>
      (fun '(p, w) => (Nothing, MkSystem (side s) p w (impls s))) <$>
        update dds lock ty info (parent s) (world s)
  | O_create operation result context g ty =>
      match create_event (side s) operation result context g ty (parent s) (world s) with
      | None => None
      | Some (success e, p, w) =>
          Some (Created (success tt), MkSystem (side s) p w (<[g := e]> (impls s)))
      | Some (failure e, p, w) => Some (Created (failure e), MkSystem (side s) p w (impls s))
      end
  | O_take operation g info =>
      match impls s !! g with
      | None => Some (Nothing, s)
      | Some e =>
          (fun '(r, info, e, st) =>
             (Took r info, MkSystem (side s) (parent s) (with_store st (world s)) (<[g := e]> (impls s))))
            <$> Events.take operation (parent s) info e (store (world s))
      end
  | O_destroy dds g =>
      match impls s !! g with
      | None => Some (Nothing, s)
      | Some e =>
          let '(p, w) := destroy_event dds e (parent s) (world s) in
          Some (Nothing, MkSystem (side s) p w (delete g (impls s)))
      end
  | O_close dds lock =>
      let '(p, w) := close_parent dds lock (parent s) (world s) in
      Some (Nothing, MkSystem (side s) p w (impls s))
  | O_other f => Some (Nothing, MkSystem (side s) (parent s) (f (world s)) (impls s))
  end.

Fixpoint event_run (ops : list EventOp) (s : EventSystem) : option (list Output * EventSystem) :=
  match ops with
  | [] => Some ([], s)
  | o :: ops =>
      match event_step o s with
      | None => None
      | Some (out, s) => (fun '(outs, s) => (out :: outs, s)) <$> event_run ops s
      end
  end.

Definition new_system (sd : Side) (w : World) : EventSystem := MkSystem sd new_parent w ∅.

(** ** The ledger *)

Record Ledger := MkLedger {
  led_side : Side;
  led_alive : bool;
  led_attached : bool;                           (* the listener is installed *)
  led_reports : EventType -> list EventInfo;
  led_events : gmap nat (EventType * nat) }.     (* type, reports read *)

Definition new_ledger (sd : Side) : Ledger := MkLedger sd true false (fun _ => []) ∅.

Definition ledger_take (operation : bool) (g : nat) (info : EventInfo) (l : Ledger) : Output * Ledger :=
  match led_events l !! g with
  | None => (Nothing, l)
  | Some (ty, n) =>
      if negb operation then (Took shut_down info, l)
      else if negb (led_alive l) then (Took (fail ParentDestroyed "Event parent is destroyed") info, l)
      else
        match drop n (led_reports l ty) with
        | [] => (Took (success false) info, l)
        | unread =>
            (Took (success true) (summary ty unread),
             MkLedger (led_side l) (led_alive l) (led_attached l) (led_reports l)
               (<[g := (ty, length (led_reports l ty))]> (led_events l)))
        end
  end.

Definition ledger_create (operation : bool) (result : option ReturnCode) (g : nat) (ty : EventType)
    (l : Ledger) : Output * Ledger :=
  let writer := bool_decide (led_side l = WriterSide) in
  if negb (valid_for (led_side l) ty) then
    (Created (fail InvalidArgument (if writer then "EventType is not valid for Publisher"
                                    else "EventType is not valid for Subscriber")), l)
  else if negb operation then (Created shut_down, l)
  else if negb (led_alive l) then
    (Created (fail ParentDestroyed (if writer then "Publisher is destroyed" else "Subscriber is destroyed")), l)
  else
    match (if led_attached l then None else result) with
    | Some c =>
        (Created (failure (to_error c (if writer then "Fast DDS failed to set a writer listener"
                                       else "Fast DDS failed to set a reader listener")%string)), l)
    | None =>
        (Created (success tt),
         MkLedger (led_side l) (led_alive l) true (led_reports l)
           (<[g := (ty, length (led_reports l ty))]> (led_events l)))
    end.

Definition ledger_step (o : EventOp) (l : Ledger) : Output * Ledger :=
  match o with
  | O_update _ _ ty info =>
      (Nothing, MkLedger (led_side l) (led_alive l) (led_attached l)
                  (fun ty' => if decide (ty = ty') then led_reports l ty ++ [info] else led_reports l ty')
                  (led_events l))
  | O_create operation result _ g ty => ledger_create operation result g ty l
  | O_take operation g info => ledger_take operation g info l
  | O_destroy _ g =>
      (Nothing, MkLedger (led_side l) (led_alive l) (led_attached l) (led_reports l) (delete g (led_events l)))
  | O_close _ _ => (Nothing, MkLedger (led_side l) false (led_attached l) (led_reports l) (led_events l))
  | O_other _ => (Nothing, l)
  end.

Fixpoint ledger_run (ops : list EventOp) (l : Ledger) : list Output * Ledger :=
  match ops with
  | [] => ([], l)
  | o :: ops =>
      let '(out, l) := ledger_step o l in
      let '(outs, l) := ledger_run ops l in (out :: outs, l)
  end.

(** Listeners report infos of the type's alternative; a GuardConditionState is
    made once. *)
Definition op_wf (o : EventOp) : Prop :=
  match o with O_update _ _ ty info => info_wf ty info | _ => True end.

(** ** The simulation *)

(** [k] bounds the reports and registrations so far. *)
Record Simulates (k : Z) (s : EventSystem) (l : Ledger) : Prop := {
  sim_side : side s = led_side l;
  sim_alive : alive (parent s) = led_alive l;
  sim_exhausted : exhausted (parent s) = false;
  sim_next : 1 <= next_event_registration_id (parent s) <= k + 1;
  sim_ids : Forall (fun r => 1 <= record_id r < next_event_registration_id (parent s)) (events (parent s));
  sim_order : ascending (events (parent s));
  sim_records g e : alive (parent s) = true -> impls s !! g = Some e ->
    wait_state e = g /\ MkRecord (event_registration e) (event_type e) g ∈ events (parent s);
  sim_listener : listener_state (side s) (parent s) = if led_attached l then Attached else Detached;
  sim_slots : length (slots (parent s)) = 7%nat;
  sim_wf ty : Forall (info_wf ty) (led_reports l ty);
  sim_generation ty : slot_generation (slot ty (parent s)) = Z.of_nat (length (led_reports l ty));
  sim_bound ty : Z.of_nat (length (led_reports l ty)) <= k;
  sim_info ty : led_reports l ty <> [] -> slot_info (slot ty (parent s)) = summary ty (led_reports l ty);
  sim_events g : led_events l !! g =
    (fun e => (event_type e, Z.to_nat (snap_generation (cursor e)))) <$> impls s !! g;
  sim_cursor g e : impls s !! g = Some e ->
    exists n, (n <= length (led_reports l (event_type e)))%nat /\
      cursor e = MkSnapshot (summary (event_type e) (firstn n (led_reports l (event_type e)))) (Z.of_nat n) }.

Lemma slot_set ty ty' v p :
  length (slots p) = 7%nat -> slot ty' (set_slot ty v p) = if decide (ty = ty') then v else slot ty' p.
Proof.
  intros Hl. unfold slot, set_slot. simpl. destruct (decide (ty = ty')) as [->|Hne].
  - apply list_lookup_total_insert_eq. destruct ty'; simpl; lia.
  - apply list_lookup_total_insert_ne. by destruct ty, ty'.
Qed.

Lemma snapshot_simulates k s l ty :
  Simulates k s l ->
  snapshot ty (parent s) = MkSnapshot (summary ty (led_reports l ty)) (Z.of_nat (length (led_reports l ty))).
Proof.
  intros Hs. unfold snapshot. rewrite (sim_generation k s l Hs ty).
  destruct (decide (led_reports l ty = [])) as [->|Hne]; [done|].
  rewrite (sim_info k s l Hs ty Hne). destruct (led_reports l ty); done.
Qed.

(** An update returns and adds its report to the slot. *)
Lemma update_returns dds lock ty info p w n :
  exhausted p = false -> slot_generation (slot ty p) = Z.of_nat n -> Z.of_nat n < UINT64_MAX ->
  forall total, (if slot_generation (slot ty p) =? 0 then Some info else accumulate (slot_info (slot ty p)) info) = Some total ->
  exists w', update dds lock ty info p w = Some (set_slot ty (MkSlot total (Z.of_nat n + 1)) p, w').
Proof.
  intros Hex Hg Hn total Ht. unfold update, update_slot. rewrite Hex, Ht, Hg.
  destruct (Z.eqb_spec (Z.of_nat n) UINT64_MAX); [lia|].
  rewrite notify_loop_picked. change (events (set_slot ty _ p)) with (events p).
  match goal with |- context [picked ?ty ?all ?limit (fun _ => ?rs) ?fuel ?k ?prev] =>
    destruct (picked_constant ty all limit rs fuel k prev) as [picks Hp] end.
  { apply Nat.lt_succ_r, length_filter. }
  rewrite Hp. by eexists.
Qed.

Lemma update_simulates k s l dds lock ty info :
  Simulates k s l -> info_wf ty info -> k + 1 < UINT64_MAX ->
  exists s', event_step (O_update dds lock ty info) s = Some (Nothing, s') /\
    Simulates (k + 1) s' (ledger_step (O_update dds lock ty info) l).2.
Proof.
  intros Hs Hi Hk. pose proof (sim_bound k s l Hs ty) as Hb. pose proof (sim_generation k s l Hs ty) as Hg.
  assert (Ht : (if slot_generation (slot ty (parent s)) =? 0 then Some info
                else accumulate (slot_info (slot ty (parent s))) info) = Some (summary ty (led_reports l ty ++ [info]))).
  { rewrite Hg. destruct (decide (led_reports l ty = [])) as [->|Hne].
    - simpl. f_equal. etrans; [|symmetry; apply (summary_snoc ty [] info)]. destruct Hi as [_ Hi].
      rewrite <- Hi at 1. by destruct info.
    - rewrite (sim_info k s l Hs ty Hne). destruct (Z.eqb_spec (Z.of_nat (length (led_reports l ty))) 0) as [He|_].
      + destruct (led_reports l ty); done.
      + apply accumulate_summary; [apply (sim_wf k s l Hs) | done | done]. }
  destruct (update_returns dds lock ty info (parent s) (world s) _ (sim_exhausted k s l Hs) Hg ltac:(lia) _ Ht)
    as [w' Hu].
  unfold event_step. rewrite Hu. eexists. split; [done|].
  destruct Hs. constructor; simpl; try done.
  - lia.
  - by rewrite length_insert.
  - intros ty'. destruct (decide (ty = ty')) as [<-|]; [|done]. apply Forall_app. by rewrite Forall_singleton.
  - intros ty'. rewrite slot_set by done. destruct (decide (ty = ty')) as [<-|]; [|done].
    simpl. rewrite length_app. simpl. lia.
  - intros ty'. destruct (decide (ty = ty')) as [<-|]; [rewrite length_app; simpl; lia|].
    specialize (sim_bound0 ty'). lia.
  - intros ty' Hne. rewrite slot_set by done. destruct (decide (ty = ty')) as [<-|]; [done|]. by apply sim_info0.
  - intros g e He. destruct (sim_cursor0 g e He) as (n & Hn & Hc). exists n.
    destruct (decide (ty = event_type e)) as [->|]; [|done].
    rewrite length_app, take_app_le by done. split; [simpl; lia | done].
Qed.

(** The other operations leave the slots alone. *)
Lemma Simulates_frame k s l s' l' :
  Simulates k s l -> side s' = side s -> led_side l' = led_side l -> slots (parent s') = slots (parent s) ->
  led_reports l' = led_reports l -> exhausted (parent s') = exhausted (parent s) ->
  alive (parent s') = led_alive l' ->
  1 <= next_event_registration_id (parent s') <= k + 2 ->
  Forall (fun r => 1 <= record_id r < next_event_registration_id (parent s')) (events (parent s')) ->
  ascending (events (parent s')) ->
  (forall g e, alive (parent s') = true -> impls s' !! g = Some e ->
     wait_state e = g /\ MkRecord (event_registration e) (event_type e) g ∈ events (parent s')) ->
  listener_state (side s') (parent s') = (if led_attached l' then Attached else Detached) ->
  (forall g, led_events l' !! g =
     (fun e => (event_type e, Z.to_nat (snap_generation (cursor e)))) <$> impls s' !! g) ->
  (forall g e, impls s' !! g = Some e ->
     exists n, (n <= length (led_reports l (event_type e)))%nat /\
       cursor e = MkSnapshot (summary (event_type e) (firstn n (led_reports l (event_type e)))) (Z.of_nat n)) ->
  Simulates (k + 1) s' l'.
Proof.
  intros Hs Hside Hls Hslots Hrep Hex Hal Hnext Hids Hord Hrec Hlis Hev Hcur.
  assert (Hsl : forall ty, slot ty (parent s') = slot ty (parent s)) by (intros; unfold slot; by rewrite Hslots).
  rewrite Hside in Hlis. destruct Hs. constructor; rewrite ?Hside, ?Hls, ?Hslots, ?Hrep; try done; try congruence; try lia.
  - intros ty. specialize (sim_bound0 ty). lia.
  - intros ty. rewrite Hsl. apply sim_info0.
Qed.

Lemma take_simulates k s l operation g info :
  Simulates k s l ->
  exists s', event_step (O_take operation g info) s = Some ((ledger_take operation g info l).1, s') /\
    Simulates (k + 1) s' (ledger_take operation g info l).2.
Proof.
  intros Hs. pose proof (sim_events k s l Hs g) as Hg. unfold event_step, ledger_take. rewrite Hg.
  destruct (impls s !! g) as [e|] eqn:He; simpl.
  2:{ eexists. split; [done|]. apply (Simulates_frame k s l); try done; destruct Hs; (done || lia). }
  assert (Hsame : forall s', parent s' = parent s -> side s' = side s -> impls s' = impls s -> Simulates (k + 1) s' l).
  { intros s' Hp Hsd Hi. apply (Simulates_frame k s l); rewrite ?Hp, ?Hsd, ?Hi; try done; destruct Hs; (done || lia). }
  assert (Hid : <[g := e]> (impls s) = impls s) by (by apply insert_id).
  unfold Events.take. rewrite (sim_exhausted k s l Hs), (sim_alive k s l Hs).
  destruct operation; simpl; [|eexists; split; [done | by apply Hsame]].
  destruct (led_alive l) eqn:Hal; simpl; [|eexists; split; [done | by apply Hsame]].
  destruct (sim_cursor k s l Hs g e He) as (n & Hn & Hc).
  unfold take_current. rewrite (snapshot_simulates k s l _ Hs), Hc. simpl. rewrite Nat2Z.id.
  destruct (Z.eqb_spec (Z.of_nat (length (led_reports l (event_type e)))) (Z.of_nat n)) as [Heq|Hne].
  - rewrite drop_ge by lia. simpl. eexists. split; [done | by apply Hsame].
  - destruct (drop n (led_reports l (event_type e))) as [|i us] eqn:Hd.
    { apply (f_equal length) in Hd. rewrite length_drop in Hd. simpl in Hd. lia. }
    pose proof (firstn_skipn n (led_reports l (event_type e))) as Hsplit. rewrite Hd in Hsplit.
    pose proof (difference_summary (event_type e) (firstn n (led_reports l (event_type e))) (i :: us)) as Hdiff.
    rewrite Hsplit in Hdiff. rewrite Hdiff by (try apply (sim_wf k s l Hs); done). simpl.
    eexists. split; [done|]. apply (Simulates_frame k s l); try done; simpl; try (destruct Hs; done || lia).
    + by rewrite (sim_alive k s l Hs).
    + intros g' e' Ha. destruct (decide (g = g')) as [<-|Hg'].
      * rewrite lookup_insert_eq. intros [= <-]. simpl. by apply (sim_records k s l Hs).
      * rewrite lookup_insert_ne by done. by apply (sim_records k s l Hs).
    + intros g'. destruct (decide (g = g')) as [<-|Hg'].
      * rewrite !lookup_insert_eq. simpl. by rewrite Nat2Z.id.
      * rewrite !lookup_insert_ne by done. apply (sim_events k s l Hs).
    + intros g' e'. destruct (decide (g = g')) as [<-|Hg'].
      * rewrite lookup_insert_eq. intros [= <-]. simpl. eexists. split; [apply le_n|]. by rewrite firstn_all.
      * rewrite lookup_insert_ne by done. apply (sim_cursor k s l Hs).
Qed.

Lemma register_event_fresh k p ty g :
  exhausted p = false -> 1 <= next_event_registration_id p <= k + 1 -> k + 1 < UINT64_MAX ->
  register_event ty g p =
    (next_event_registration_id p,
     with_events (events p ++ [MkRecord (next_event_registration_id p) ty g]) (next_event_registration_id p + 1) p).
Proof.
  intros Hex Hn Hk. unfold register_event. rewrite Hex. simpl.
  destruct (Z.eqb_spec (next_event_registration_id p) 0); [lia|].
  rewrite wrap_u64_small by (unfold_ints; lia). done.
Qed.

(** What [attach] leaves of the state when the listener is there already or
    the installation is the only one. *)
Lemma attach_settled sd result p (attached : bool) :
  listener_state sd p = (if attached then Attached else Detached) ->
  exists r p', attach sd result p = Some (r, p') /\
    r = match (if attached then None else result) with
        | None => success tt
        | Some c => failure (to_error c (if decide (sd = WriterSide) then "Fast DDS failed to set a writer listener"
                              else "Fast DDS failed to set a reader listener")%string)
        end /\
    slots p' = slots p /\ events p' = events p /\ exhausted p' = exhausted p /\ alive p' = alive p /\
    next_event_registration_id p' = next_event_registration_id p /\
    listener_state sd p' = (if (if attached then true else bool_decide (result = None)) then Attached else Detached).
Proof.
  intros Hl. unfold attach, attach_begin. rewrite Hl.
  destruct attached; [by do 2 eexists|]. destruct result as [c|]; simpl; do 2 eexists; split; try done; by destruct sd.
Qed.

Lemma ascending_snoc rs r : ascending rs -> Forall (fun r' => record_id r' < record_id r) rs -> ascending (rs ++ [r]).
Proof.
  induction 1 as [|r' rs Hs IH Hr']; intros Hall; simpl; [repeat constructor|].
  apply Forall_cons in Hall as [Hlt Hall]. constructor; [by apply IH|].
  apply Forall_app. by rewrite Forall_singleton.
Qed.

Lemma create_simulates k s l operation result context g ty :
  Simulates k s l -> k + 1 < UINT64_MAX ->
  exists s', event_step (O_create operation result context g ty) s = Some ((ledger_create operation result g ty l).1, s') /\
    Simulates (k + 1) s' (ledger_create operation result g ty l).2.
Proof.
  intros Hs Hk.
  assert (Hsame : forall w, Simulates (k + 1) (MkSystem (side s) (parent s) w (impls s)) l).
  { intros w. apply (Simulates_frame k s l); simpl; try done; destruct Hs; (done || lia). }
  unfold event_step, create_event, ledger_create. rewrite (sim_side k s l Hs).
  destruct (valid_for (led_side l) ty); simpl; [|eexists; split; [done | rewrite <- (sim_side k s l Hs); apply Hsame]].
  destruct operation; simpl; [|eexists; split; [done | rewrite <- (sim_side k s l Hs); apply Hsame]].
  rewrite (sim_alive k s l Hs).
  destruct (led_alive l) eqn:Hal; simpl; [|eexists; split; [done | rewrite <- (sim_side k s l Hs); apply Hsame]].
  pose proof (sim_listener k s l Hs) as Hlis. rewrite (sim_side k s l Hs) in Hlis.
  destruct (attach_settled (led_side l) result (parent s) (led_attached l) Hlis)
    as (r & p & -> & -> & Hsl & Hev & Hex & Hp & Hnext & Hst).
  pose proof (sim_exhausted k s l Hs) as Hex0. rewrite <- Hex in Hex0.
  pose proof (sim_next k s l Hs) as Hn0. rewrite <- Hnext in Hn0.
  destruct (if led_attached l then None else result) as [c|] eqn:Hc.
  { eexists (MkSystem (led_side l) p _ (impls s)). split; [by destruct (led_side l)|].
    apply (Simulates_frame k s l); simpl; rewrite ?Hsl, ?Hev, ?Hex, ?Hp, ?Hnext; try done; destruct Hs; try (done || lia).
    destruct (led_attached l); [done|]. by rewrite Hst, Hc. }
  rewrite (register_event_fresh k p ty g Hex0 Hn0 Hk).
  destruct (Z.eqb_spec (next_event_registration_id p) 0); [lia|].
  eexists. split; [done|].
  assert (Hsnap : snapshot ty p = snapshot ty (parent s)) by (unfold snapshot, slot; by rewrite Hsl).
  apply (Simulates_frame k s l); simpl; rewrite ?Hsl, ?Hev, ?Hex, ?Hp, ?Hnext; try done; try (destruct Hs; (done || lia)).
  - by rewrite (sim_alive k s l Hs).
  - apply Forall_app. rewrite Forall_singleton. simpl. split; [|lia].
    eapply Forall_impl; [apply (sim_ids k s l Hs)|]. simpl. lia.
  - apply (ascending_snoc _ _ (sim_order k s l Hs)). eapply Forall_impl; [apply (sim_ids k s l Hs)|]. simpl. lia.
  - intros g' e' _. destruct (decide (g = g')) as [<-|Hg'].
    + rewrite lookup_insert_eq. intros [= <-]. simpl. split; [done|].
      apply elem_of_app. right. by apply list_elem_of_singleton.
    + rewrite lookup_insert_ne by done. intros He'.
      destruct (sim_records k s l Hs g' e' ltac:(rewrite (sim_alive k s l Hs); done) He'). split; [done|].
      apply elem_of_app. by left.
  - transitivity (listener_state (led_side l) p); [by destruct (led_side l)|].
    rewrite Hst. destruct (led_attached l); [done | by rewrite Hc].
  - intros g'. destruct (decide (g = g')) as [<-|Hg'].
    + rewrite !lookup_insert_eq, Hsnap, (snapshot_simulates k s l ty Hs). simpl. by rewrite Nat2Z.id.
    + rewrite !lookup_insert_ne by done. apply (sim_events k s l Hs).
  - intros g' e'. destruct (decide (g = g')) as [<-|Hg'].
    + rewrite lookup_insert_eq. intros [= <-]. simpl. rewrite Hsnap, (snapshot_simulates k s l ty Hs).
      eexists. split; [apply le_n|]. by rewrite firstn_all.
    + rewrite lookup_insert_ne by done. apply (sim_cursor k s l Hs).
Qed.

Lemma unregister_frame rid p :
  let p' := unregister_event rid p in
  slots p' = slots p /\ exhausted p' = exhausted p /\ alive p' = alive p /\
  next_event_registration_id p' = next_event_registration_id p /\
  (forall sd, listener_state sd p' = listener_state sd p) /\ (forall r, r ∈ events p' -> r ∈ events p).
Proof.
  unfold unregister_event. destruct (rid =? 0); split_and!; try done; simpl; try (by intros []).
  intros r. apply elem_of_erase_first.
Qed.

Lemma ascending_unique rs a b : ascending rs -> a ∈ rs -> b ∈ rs -> record_id a = record_id b -> a = b.
Proof.
  induction 1 as [|r rs _ IH Hr]; [by intros ?%not_elem_of_nil|]. rewrite Forall_forall in Hr.
  intros [->|Ha]%elem_of_cons [->|Hb]%elem_of_cons Heq; [done | | | by apply IH].
  - specialize (Hr b Hb). lia.
  - specialize (Hr a Ha). lia.
Qed.

Lemma unregister_ascending rid p : ascending (events p) -> ascending (events (unregister_event rid p)).
Proof.
  intros Hs. unfold unregister_event. destruct (rid =? 0); [done|]. simpl.
  destruct (find_if (fun r => record_id r =? rid) (events p)) as [r|] eqn:Hf.
  2:{ by rewrite erase_first_None. }
  apply find_if_split in Hf as (l1 & l2 & Heq & _ & _ & _ & ->). rewrite Heq in Hs. clear Heq.
  induction l1 as [|r1 l1 IH]; simpl in *; [by apply StronglySorted_inv in Hs as [? _]|].
  apply StronglySorted_inv in Hs as [Hs Hall]. constructor; [by apply IH|].
  apply Forall_app in Hall as [? [_ ?]%Forall_cons]. by apply Forall_app.
Qed.

Lemma unregister_keeps rid p r : r ∈ events p -> record_id r <> rid -> r ∈ events (unregister_event rid p).
Proof.
  intros Hin Hne. unfold unregister_event. destruct (rid =? 0); [done|]. simpl.
  induction (events p) as [|r' rs IH]; [done|]. simpl.
  apply elem_of_cons in Hin as [->|Hin].
  - destruct (Z.eqb_spec (record_id r') rid); [done|]. left.
  - destruct (record_id r' =? rid); [done|]. right. by apply IH.
Qed.

Lemma destroy_simulates k s l dds g :
  Simulates k s l ->
  exists s', event_step (O_destroy dds g) s = Some (Nothing, s') /\
    Simulates (k + 1) s' (ledger_step (O_destroy dds g) l).2.
Proof.
  intros Hs. unfold event_step. simpl. destruct (impls s !! g) as [e|] eqn:He.
  - eexists. split; [done|]. unfold destroy_event.
    destruct (unregister_frame (event_registration e) (parent s)) as (Hsl & Hex & Hal & Hnext & Hlis & Hev).
    apply (Simulates_frame k s l); simpl; rewrite ?Hsl, ?Hex, ?Hal, ?Hnext, ?Hlis; try done;
      try (destruct Hs; (done || lia)).
    + apply Forall_forall. intros r Hr%Hev. pose proof (sim_ids k s l Hs) as Hids.
      rewrite Forall_forall in Hids. by apply Hids.
    + apply unregister_ascending, (sim_order k s l Hs).
    + intros g' e' Ha [Hne He']%lookup_delete_Some. rewrite ?Hal in Ha.
      destruct (sim_records k s l Hs g' e' Ha He') as [Hw Hin]. split; [done|].
      apply unregister_keeps; [done|]. simpl. intros Hid. apply Hne.
      destruct (sim_records k s l Hs g e Ha He) as [_ Hin'].
      by injection (ascending_unique _ _ _ (sim_order k s l Hs) Hin' Hin (eq_sym Hid)).
    + intros g'. destruct (decide (g = g')) as [<-|]; [by rewrite !lookup_delete_eq|].
      rewrite !lookup_delete_ne by done. apply (sim_events k s l Hs).
    + intros g' e' [_ He']%lookup_delete_Some. by apply (sim_cursor k s l Hs g').
  - eexists. split; [done|].
    apply (Simulates_frame k s l); simpl; try done; try (destruct Hs; (done || lia)).
    rewrite delete_id; [apply (sim_events k s l Hs)|]. rewrite (sim_events k s l Hs). by rewrite He.
Qed.

Lemma step_simulates k s l o :
  Simulates k s l -> op_wf o -> k + 1 < UINT64_MAX ->
  exists s', event_step o s = Some ((ledger_step o l).1, s') /\ Simulates (k + 1) s' (ledger_step o l).2.
Proof.
  intros Hs Ho Hk. destruct o as [dds lock ty info|operation result context g ty|operation g info|dds g|dds lock|f].
  - by apply update_simulates.
  - by apply create_simulates.
  - by apply take_simulates.
  - by apply destroy_simulates.
  - eexists. split; [done|]. apply (Simulates_frame k s l); simpl; try done; try (destruct Hs; (done || lia)).
    constructor.
  - eexists. split; [done|]. apply (Simulates_frame k s l); simpl; try done; destruct Hs; (done || lia).
Qed.

Lemma new_system_simulates sd w : Simulates 0 (new_system sd w) (new_ledger sd).
Proof. constructor; simpl; try done; try lia; try constructor; try (by destruct sd); by destruct ty. Qed.

Lemma run_simulates ops k s l :
  Simulates k s l -> Forall op_wf ops -> k + Z.of_nat (length ops) < UINT64_MAX ->
  exists s', event_run ops s = Some ((ledger_run ops l).1, s') /\
    Simulates (k + Z.of_nat (length ops)) s' (ledger_run ops l).2.
Proof.
  revert k s l. induction ops as [|o ops IH]; intros k s l Hs Hwf Hk; cbn [event_run ledger_run].
  - exists s. split; [done|]. by rewrite Z.add_0_r.
  - apply Forall_cons in Hwf as [Ho Hwf]. cbn [length] in Hk.
    destruct (step_simulates k s l o Hs Ho ltac:(lia)) as (s1 & -> & Hs1).
    destruct (ledger_step o l) as [out l1]. simpl in Hs1.
    destruct (IH (k + 1) s1 l1 Hs1 Hwf ltac:(lia)) as (s2 & -> & Hs2).
    destruct (ledger_run ops l1) as [outs l2]. exists s2. split; [done|]. cbn [snd] in *.
    assert (k + Z.of_nat (length (o :: ops)) = k + 1 + Z.of_nat (length ops)) as -> by (cbn [length]; lia). done.
Qed.

(** C14: An endpoint's events refine the ledger: over any history of reports,
    creations, takes, destructions and the parent's end, shorter than 2^64,
    every operation returns, and returns what the ledger gives: an Event takes
    the sum of exactly the reports of its type since it was created or last
    took something, and nothing when there are none. *)
Theorem events_refine_ledger sd w ops :
  Forall op_wf ops -> Z.of_nat (length ops) < UINT64_MAX ->
  exists s', event_run ops (new_system sd w) = Some ((ledger_run ops (new_ledger sd)).1, s').
Proof.
  intros Hwf Hk. destruct (run_simulates ops 0 _ _ (new_system_simulates sd w) Hwf Hk) as (s' & -> & _).
  by eexists.
Qed.

(** In every history the info that [take] returns has the alternative of
    the Event's type: [std::get] and [std::get_if] never see another one. *)
Theorem taken_info_typed sd w ops outs s g e info :
  Forall op_wf ops -> Z.of_nat (length ops) < UINT64_MAX ->
  event_run ops (new_system sd w) = Some (outs, s) -> impls s !! g = Some e ->
  exists r info' e' st', Events.take true (parent s) info e (store (world s)) = Some (r, info', e', st') /\
    (r = success true -> same_alternative (empty_event_info (event_type e)) info' = true /\
      with_changes (changes info') info' = info').
Proof.
  intros Hwf Hk Hrun He.
  destruct (run_simulates ops 0 _ _ (new_system_simulates sd w) Hwf Hk) as (s1 & Hrun1 & Hs).
  rewrite Hrun in Hrun1. injection Hrun1 as -> <-.
  set (l := (ledger_run ops (new_ledger sd)).2) in Hs.
  destruct (sim_cursor _ _ _ Hs g e He) as (n & Hn & Hc). unfold Events.take.
  rewrite (sim_exhausted _ _ _ Hs). destruct (alive (parent s)); [|by do 4 eexists].
  cbn [negb]. unfold take_current. rewrite (snapshot_simulates _ _ _ _ Hs), Hc. cbn [snap_generation snap_info].
  destruct (Z.eqb_spec (Z.of_nat (length (led_reports l (event_type e)))) (Z.of_nat n)) as [Heq|Hne];
    [by do 4 eexists|].
  pose proof (sim_wf _ _ _ Hs (event_type e)) as Hall.
  rewrite <- (firstn_skipn n (led_reports l (event_type e))) in Hall.
  destruct (skipn n (led_reports l (event_type e))) as [|i us] eqn:Hd.
  { apply (f_equal length) in Hd. rewrite length_skipn in Hd. simpl in Hd. lia. }
  pose proof (difference_summary _ _ _ Hall ltac:(done)) as Hdiff. rewrite <- Hd in Hdiff at 1.
  rewrite firstn_skipn in Hdiff. rewrite Hdiff. do 4 eexists. split; [done|]. intros _.
  apply Forall_app in Hall as [_ Hall]. split; [by apply summary_alternative|].
  destruct (exists_last (l := i :: us) ltac:(done)) as (vs & j & Hv). rewrite Hv, summary_snoc.
  apply with_changes_idemp.
Qed.

(** ** Notification *)

(** The notification loop ends, whatever other threads do to the records
    between its turns: as many turns as registration ids were given out when
    the update began are enough.  It notifies in the order of the ids, only
    records of the type (all of them on exhaustion), each at most once, and
    leaves out none that stays registered throughout. *)
Theorem every_event_notified dds lock ty all limit views w :
  (forall k, ascending (views k)) -> 0 <= limit ->
  exists rs, notify_loop dds lock ty all limit views (S (Z.to_nat limit)) 0 0 w =
      Some (fold_left (notify_record dds lock) rs w) /\
    ascending rs /\ Forall (fun r => (all = true \/ record_type r = ty) /\ 0 < record_id r <= limit) rs /\
    (forall r, (forall k, r ∈ views k) -> (all = true \/ record_type r = ty) -> 0 < record_id r <= limit ->
       r ∈ rs).
Proof.
  intros Hv Hl. destruct (picked_terminates ty all limit views (S (Z.to_nat limit)) 0 0) as [rs Hp]; [lia|].
  exists rs. rewrite notify_loop_picked, Hp. split; [done|].
  destruct (picked_spec ty all limit views _ _ _ _ Hp Hv) as (Ha & Hf & Hc). split_and!; [done | |].
  - eapply Forall_impl; [done|]. intros r. apply to_notify_spec.
  - intros r Hr Hty Hid. apply Hc; [done|]. by apply to_notify_spec.
Qed.

Definition example_records : list EventRecord :=
  [MkRecord 1 LivelinessLost 0; MkRecord 2 MessageLost 1; MkRecord 4 LivelinessLost 2].

Lemma every_event_notified_witness :
  exists rs, notify_loop dds_ok (fun _ => true) LivelinessLost false 4 (fun _ => example_records)
      (S (Z.to_nat 4)) 0 0 empty_world =
      Some (fold_left (notify_record dds_ok (fun _ => true)) rs empty_world) /\
    ascending rs /\ Forall (fun r => (false = true \/ record_type r = LivelinessLost) /\ 0 < record_id r <= 4) rs /\
    (forall r, (nat -> r ∈ example_records) -> (false = true \/ record_type r = LivelinessLost) ->
       0 < record_id r <= 4 -> r ∈ rs).
Proof.
  apply (every_event_notified dds_ok (fun _ => true) LivelinessLost false 4 (fun _ => example_records) empty_world).
  - intros _. unfold example_records. repeat constructor.
  - lia.
Defined.

(** What the marking and the notifications leave of the wait sets. *)
Section Marking.
Context `{!HashOrder Z Registration}.

Lemma mark_pending_reachable lock rs w :
  reachable fresh_world world_step w ->
  reachable fresh_world world_step (with_store (mark_pending lock rs (store w)) w).
Proof.
  revert w. induction rs as [|r rs IH]; intros w Hr; [by destruct w|]. unfold mark_pending. simpl.
  destruct (lock (record_event r)); [|by apply (IH w)].
  specialize (IH _ (reach_step _ _ _ _ Hr (ws_set_pending w (record_event r) true))). done.
Qed.

Lemma mark_pending_marks lock rs st r :
  r ∈ rs -> lock (record_event r) = true -> pending (guard_of (mark_pending lock rs st) (record_event r)) = true.
Proof.
  assert (Hstay : forall rs st g, pending (guard_of st g) = true -> pending (guard_of (mark_pending lock rs st) g) = true).
  { clear. intros rs. unfold mark_pending. induction rs as [|r rs IH]; intros st g Hg; simpl; [done|]. apply IH.
    destruct (lock (record_event r)); [|done]. rewrite guard_of_set. by destruct (decide _) as [<-|]. }
  intros Hin Hl. revert st. induction rs as [|r' rs IH]; intros st; [by apply not_elem_of_nil in Hin|].
  apply elem_of_cons in Hin as [<-|Hin]; [|by apply IH].
  change (mark_pending lock (r :: rs) st) with (mark_pending lock rs
    (if lock (record_event r) then set_guard (record_event r) (set_pending true (guard_of st (record_event r))) st else st)).
  apply Hstay. rewrite Hl, guard_of_set. by rewrite decide_True.
Qed.

Lemma mark_pending_links lock rs st l : link_of (mark_pending lock rs st) l = link_of st l.
Proof.
  unfold mark_pending. revert st. induction rs as [|r rs IH]; intros st; simpl; [done|]. rewrite IH.
  by destruct (lock (record_event r)).
Qed.

Lemma notify_records_reachable dds lock rs w :
  reachable fresh_world world_step w ->
  reachable fresh_world world_step (fold_left (notify_record dds lock) rs w).
Proof.
  revert w. induction rs as [|r rs IH]; intros w Hr; simpl; [done|]. apply IH. unfold notify_record.
  destruct (lock (record_event r)); [|done]. eapply reach_step; [done | apply ws_notify].
Qed.

Lemma notify_record_frame dds lock r w i :
  let w' := notify_record dds lock w r in
  store w' = store w /\ registrations (ws_of w' i) = registrations (ws_of w i) /\
  topology_generation (ws_of w' i) = topology_generation (ws_of w i) /\
  (trigger_ok dds = true -> trigger_value (ws_wake (ws_of w i)) = true -> trigger_value (ws_wake (ws_of w' i)) = true).
Proof.
  unfold notify_record, notify_link. destruct (lock (record_event r)); [|done].
  destruct (wake_callback _) as [j|]; [|done]. simpl. rewrite ws_of_on_ws.
  destruct (decide (j = i)) as [->|]; [|done]. split_and!; try done. simpl. by intros ->.
Qed.

Lemma notify_records_frame dds lock rs w i :
  let w' := fold_left (notify_record dds lock) rs w in
  store w' = store w /\ registrations (ws_of w' i) = registrations (ws_of w i) /\
  topology_generation (ws_of w' i) = topology_generation (ws_of w i) /\
  (trigger_ok dds = true -> trigger_value (ws_wake (ws_of w i)) = true -> trigger_value (ws_wake (ws_of w' i)) = true).
Proof.
  revert w. induction rs as [|r rs IH]; intros w; simpl; [done|].
  destruct (notify_record_frame dds lock r w i) as (Hst & Hreg & Htop & Htr).
  destruct (IH (notify_record dds lock w r)) as (Hst' & Hreg' & Htop' & Htr').
  rewrite Hst', Hreg', Htop'. split_and!; try done. auto.
Qed.

(** A notified record wakes the wait set of its event. *)
Lemma notify_records_wake dds lock rs w r i :
  trigger_ok dds = true -> r ∈ rs -> lock (record_event r) = true ->
  wake_callback (link_of (store w) (GuardOf (record_event r))) = Some i ->
  trigger_value (ws_wake (ws_of (fold_left (notify_record dds lock) rs w) i)) = true.
Proof.
  intros Ht Hin Hl. revert w. induction rs as [|r' rs IH]; intros w Hw; [by apply not_elem_of_nil in Hin|].
  simpl. apply elem_of_cons in Hin as [<-|Hin].
  - apply notify_records_frame; [done|]. unfold notify_record, notify_link. rewrite Hl, Hw. simpl.
    rewrite ws_of_on_ws, decide_True by done. simpl. by rewrite Ht.
  - apply IH; [done|]. by destruct (notify_record_frame dds lock r' w i) as (-> & _).
Qed.
End Marking.

(** ** From the listener to the wait *)

Section Reporting.
Context `{!HashOrder Z Registration}.

(** An update from a state of a history: what it does to the world. *)
Lemma update_effect k s l dds lock e g info out s1 :
  Simulates k s l -> impls s !! g = Some e -> alive (parent s) = true -> k + 1 < UINT64_MAX ->
  event_step (O_update dds lock (event_type e) info) s = Some (out, s1) ->
  exists rs st, world s1 = fold_left (notify_record dds lock) rs (with_store st (world s)) /\
    st = mark_pending lock (filter (fun r => record_type r = event_type e) (events (parent s))) (store (world s)) /\
    MkRecord (event_registration e) (event_type e) g ∈ rs.
Proof.
  intros Hs He Ha Hk Hstep. destruct (sim_records _ _ _ Hs g e Ha He) as [_ Hin].
  unfold event_step, update, update_slot in Hstep.
  rewrite (sim_exhausted _ _ _ Hs), (sim_generation _ _ _ Hs (event_type e)) in Hstep.
  pose proof (sim_bound _ _ _ Hs (event_type e)) as Hb. pose proof (sim_next _ _ _ Hs) as Hn.
  destruct (Z.eqb_spec (Z.of_nat (length (led_reports l (event_type e)))) UINT64_MAX); [lia|].
  destruct (if _ =? 0 then _ else _) as [total|]; [|done]. rewrite notify_loop_picked in Hstep.
  change (events (set_slot _ _ _)) with (events (parent s)) in Hstep.
  match type of Hstep with context [picked ?ty ?all ?limit ?views ?fuel ?k ?prev] =>
    destruct (picked ty all limit views fuel k prev) as [rs|] eqn:Hp; [|done];
    destruct (picked_spec ty all limit views _ _ _ _ Hp (fun _ => sim_order _ _ _ Hs)) as (_ & _ & Hc) end.
  simpl in Hstep. injection Hstep as _ <-. simpl. do 2 eexists. split; [done|]. split; [done|].
  apply Hc; [done|]. apply to_notify_spec. split; [by right|].
  pose proof (sim_ids _ _ _ Hs) as Hids. rewrite Forall_forall in Hids. specialize (Hids _ Hin). simpl in Hids.
  rewrite wrap_u64_small by (unfold_ints; lia). simpl. lia.
Qed.

(** A report reaches whoever waits for it: after an update of the type of
    a living Event that a wait set holds, the wait set's control condition is
    set, and the next turn of wait that returns a result lists the Event. *)
Theorem update_is_reported sd w0 ops outs s g e i rid R dds lock info out s1 timeout deadline u res w2 :
  Forall op_wf ops -> Z.of_nat (length ops) + 1 < UINT64_MAX ->
  event_run ops (new_system sd w0) = Some (outs, s) ->
  alive (parent s) = true -> impls s !! g = Some e -> lock g = true -> trigger_ok dds = true ->
  reachable fresh_world world_step (world s) ->
  owns (world s) i rid R -> logical_of R = Some (GuardOf g) -> kind R = Event ->
  event_step (O_update dds lock (event_type e) info) s = Some (out, s1) ->
  trigger_value (ws_wake (ws_of (world s1) i)) = true /\
  ((forall v, topology_generation (ws_of v i) <= topology_generation (ws_of (during_scan u v) i)) ->
   topology_generation (ws_of (world s) i) + 1 < UINT64_MAX ->
   wait_turn i timeout deadline u (world s1) = (Some (success res), w2) ->
   MkReadyWaitable (MkToken i rid Event) Event kWaitableReadyBit ∈ wait_ready res).
Proof.
  intros Hwf Hk Hrun Ha He Hl Ht Hr HR Hlg Hkind Hstep.
  destruct (run_simulates ops 0 _ _ (new_system_simulates sd w0) Hwf ltac:(lia)) as (s' & Hrun' & Hs).
  rewrite Hrun in Hrun'. injection Hrun' as -> <-.
  destruct (update_effect _ _ _ _ _ _ _ _ _ _ Hs He Ha ltac:(lia) Hstep) as (rs & st & -> & -> & Hin).
  destruct (sim_records _ _ _ Hs g e Ha He) as [_ Hrec].
  set (st := mark_pending _ _ _). set (w1 := with_store st (world s)).
  pose proof (world_invariant _ Hr) as Hinv.
  pose proof (wi_logical _ Hinv i rid R _ HR Hlg) as Hb. unfold binding, bound in Hb.
  destruct (notify_records_frame dds lock rs w1 i) as (Hst & Hreg & Htop & _).
  split.
  { apply (notify_records_wake dds lock rs w1 _ i Ht Hin Hl). subst w1 st. simpl. rewrite mark_pending_links. congruence. }
  intros Hmono Hgen Hturn.
  assert (Hr1 : reachable fresh_world world_step (fold_left (notify_record dds lock) rs w1))
    by (by apply notify_records_reachable, mark_pending_reachable).
  change (ws_of w1 i) with (ws_of (world s) i) in Hreg, Htop. rewrite <- Htop in Hgen.
  destruct (turn_reports i timeout deadline u _ res w2 (world_invariant _ Hr1) Hmono Hgen Hturn) as (-> & _).
  pose proof (wi_reg _ Hinv i rid R HR) as (Hid & Hph & _).
  apply list_elem_of_omap. exists R. split.
  - apply list_elem_of_filter. split; [done|]. apply list_elem_of_fmap. exists (rid, R).
    split; [done|]. apply elem_of_hash_order. by rewrite Hreg.
  - unfold report, ready_mask. rewrite Hlg, decide_True, Hst by done. simpl.
    pose proof (mark_pending_marks lock (filter (fun r => record_type r = event_type e) (events (parent s)))
      (store (world s)) (MkRecord (event_registration e) (event_type e) g)) as Hp. simpl in Hp.
    fold st in Hp. rewrite Hp; [|by apply list_elem_of_filter | done]. simpl. by rewrite Hid, Hkind.
Qed.
End Reporting.

(** Exhaustion is final: no operation ends it, no report is added and every
    take and registration is refused. *)
Lemma exhausted_is_final o s out s' :
  exhausted (parent s) = true -> event_step o s = Some (out, s') ->
  exhausted (parent s') = true /\ slots (parent s') = slots (parent s) /\
  (forall g info r i, o = O_take true g info -> out = Took r i -> alive (parent s) = true ->
     code_of r = Some ResourceExhausted) /\
  (forall op res c g ty r, o = O_create op res c g ty -> out = Created r -> has_value r = false).
Proof.
  intros Hex Hs. destruct o as [dds lock ty info|operation result context g ty|operation g info|dds g|dds lock|f]; simpl in Hs.
  - unfold update, update_slot in Hs. rewrite Hex in Hs. simpl in Hs. simplify_eq. by split_and!.
  - unfold create_event, attach, attach_begin, attach_end, register_event in Hs.
    destruct (side s); case_match_hyps; simplify_eq/=; rewrite ?Hex in *; simpl in *; simplify_eq/=;
      split_and!; try done; by intros; simplify_eq.
  - destruct (impls s !! g) as [e|]; [|by simplify_eq].
    unfold Events.take in Hs. rewrite Hex in Hs.
    destruct operation, (alive (parent s)) eqn:Ha; simpl in Hs; simplify_eq/=; rewrite ?Hex, ?Ha;
      split_and!; try done; intros; by simplify_eq.
  - destruct (impls s !! g) as [e|]; simplify_eq; [|by split_and!].
    simpl. destruct (unregister_frame (event_registration e) (parent s)) as (-> & -> & _). by split_and!.
  - simplify_eq/=. by split_and!.
  - simplify_eq/=. by split_and!.
Qed.

(** ** An example *)

Definition lost (total change : Z) : EventInfo := LivelinessLostInfo total change.
Definition every (g : nat) : bool := true.

(** A Publisher's Event, added to wait set 1. *)
Definition add_event (w : World) : World :=
  world_after (WaitSet.add dds_ok no_race 1 (Some 0%nat) None None [] Event false false w).
Definition create_ops : list EventOp :=
  [O_create true None 0 0 LivelinessLost; O_other add_event].
Definition after (ops : list EventOp) : EventSystem :=
  match event_run ops (new_system WriterSide empty_world) with
  | Some (_, s) => s
  | None => new_system WriterSide empty_world
  end.

Definition example_event : EventImpl :=
  MkEvent LivelinessLost 0 (MkSnapshot (lost 0 0) 0) 1.

(** A report before the Event exists is not its; two reports add up; the
    second take finds nothing. *)
Definition ledger_ops : list EventOp :=
  [O_update dds_ok every LivelinessLost (lost 1 1); O_create true None 0 0 LivelinessLost;
   O_update dds_ok every LivelinessLost (lost 3 2); O_update dds_ok every OfferedDeadlineMissed (DeadlineMissedInfo 1 1);
   O_update dds_ok every LivelinessLost (lost 4 1); O_take true 0 (lost 0 0); O_take true 0 (lost 0 0);
   O_close dds_ok every; O_take true 0 (lost 0 0)].

Lemma ledger_ops_wf : Forall op_wf ledger_ops.
Proof. repeat constructor. Qed.

Lemma events_refine_ledger_witness :
  exists s', event_run ledger_ops (new_system WriterSide empty_world) =
    Some ([Nothing; Created (success tt); Nothing; Nothing; Nothing; Took (success true) (lost 4 3);
           Took (success false) (lost 0 0); Nothing;
           Took (fail ParentDestroyed "Event parent is destroyed") (lost 0 0)], s').
Proof. apply (events_refine_ledger WriterSide empty_world ledger_ops); [apply ledger_ops_wf | vm_compute; done]. Defined.

Lemma taken_info_typed_witness :
  exists r info' e' st', Events.take true (parent (after create_ops)) (lost 0 0) example_event (store (world (after create_ops))) =
      Some (r, info', e', st') /\
    (r = success true -> same_alternative (lost 0 0) info' = true /\ with_changes (changes info') info' = info').
Proof.
  apply (taken_info_typed WriterSide empty_world create_ops [Created (success tt); Nothing] (after create_ops) 0 example_event);
    [repeat constructor | vm_compute; done | reflexivity | reflexivity].
Defined.

Definition created_world : World :=
  with_store (set_guard 0 new_guard (set_link (GuardOf 0) (new_link 0) (store empty_world))) empty_world.

Lemma created_world_fresh : fresh_world created_world.
Proof.
  destruct empty_world_fresh as (Hl & Hr & Hg & Hw). split_and!; [| exact Hr | | exact Hw].
  - intros l. unfold created_world. simpl. unfold set_guard, link_of. simpl.
    destruct (decide (GuardOf 0 = l)) as [<-|Hne]; [by rewrite lookup_total_insert_eq|].
    rewrite lookup_total_insert_ne by done. exact (Hl l).
  - intros g. unfold created_world. simpl. rewrite guard_of_set. destruct (decide (0%nat = g)); [done | exact (Hg g)].
Qed.

Lemma create_ops_reachable `{!HashOrder Z Registration} : reachable fresh_world world_step (world (after create_ops)).
Proof.
  eapply (reach_step _ _ created_world); [apply reach_init, created_world_fresh|].
  apply (ws_add created_world dds_ok no_race 1 (Some 0%nat) None None [] Event false false (success 1));
    [done | by simpl | vm_compute; reflexivity].
Qed.

Definition event_result : WaitResult :=
  MkWaitResult Ready [MkReadyWaitable (MkToken 1 1 Event) Event 1].
Definition reported : EventSystem :=
  after (create_ops ++ [O_update dds_ok every LivelinessLost (lost 1 1)]).

Lemma update_is_reported_witness :
  trigger_value (ws_wake (ws_of (world reported) 1)) = true /\
  ((forall v, topology_generation (ws_of v 1) <= topology_generation (ws_of (during_scan idle_turn v) 1)) ->
   topology_generation (ws_of (world (after create_ops)) 1) + 1 < UINT64_MAX ->
   wait_turn 1 infinite 0 idle_turn (world reported) =
     (Some (success event_result), (wait_turn 1 infinite 0 idle_turn (world reported)).2) ->
   MkReadyWaitable (MkToken 1 1 Event) Event kWaitableReadyBit ∈ wait_ready event_result).
Proof.
  apply (update_is_reported WriterSide empty_world create_ops [Created (success tt); Nothing] (after create_ops) 0
    example_event 1 1 (MkRegistration 1 Event (Some 0%nat) None None [] false false PhaseAttached UINT32_MAX)
    dds_ok every (lost 1 1) Nothing reported);
    [repeat constructor | vm_compute; done | reflexivity | reflexivity | reflexivity | reflexivity | reflexivity
    | apply create_ops_reachable | vm_compute; reflexivity | reflexivity | reflexivity | vm_compute; reflexivity].
Defined.

(** The turn of the witness does return that result. *)
Example reported_turn :
  (wait_turn 1 infinite 0 idle_turn (world reported)).1 = Some (success event_result).
Proof. vm_compute. reflexivity. Qed.

(** ** Updates between two steps *)

(** [take] has its snapshot when a report arrives; the [clear_pending] that
    ends it marks the Event as read.  Nothing is pending, a report is unread,
    and a wait that polls times out. *)
Example update_before_clear_pending :
  let s := after (create_ops ++ [O_update dds_ok every LivelinessLost (lost 1 1)]) in
  let current := snapshot LivelinessLost (parent s) in
  let s2 := after (create_ops ++ [O_update dds_ok every LivelinessLost (lost 1 1);
                                  O_update dds_ok every LivelinessLost (lost 2 1)]) in
  match take_current current (lost 0 0) example_event (store (world s2)) with
  | Some (r, _, e, st) =>
      r = success true /\
      (wait true 0 1 poll [idle_turn] (with_store st (world s2))).1 = Some (success (MkWaitResult TimedOut [])) /\
      match Events.take true (parent s2) (lost 0 0) e st with
      | Some (r, info, _, _) => r = success true /\ info = lost 2 1
      | None => False
      end
  | None => False
  end.
Proof. vm_compute. done. Qed.

(** [create_event] has its snapshot when a report arrives, and registers after
    it: the report is unread, but the Event was not there to be notified. *)
Example update_before_registration :
  let s := after [O_create true None 0 0 LivelinessLost; O_destroy dds_ok 0] in
  let cursor := snapshot LivelinessLost (parent s) in
  match event_step (O_update dds_ok every LivelinessLost (lost 1 1)) s with
  | Some (_, s) =>
      let '(rid, p) := register_event LivelinessLost 1 (parent s) in
      pending (guard_of (store (world s)) 1) = false /\
      match Events.take true p (lost 0 0) (MkEvent LivelinessLost 1 cursor rid) (store (world s)) with
      | Some (r, info, _, _) => r = success true /\ info = lost 1 1
      | None => False
      end
  | None => False
  end.
Proof. vm_compute. done. Qed.
