(* ===== verification/Endpoints.v ===== *)
(** * Endpoints: publishers and subscribers

    Models src/impl/publisher_impl.cpp, subscriber_impl.cpp and
    temporary_sample.hpp, but for [create_event] ([Events]).  What a Fast DDS
    call returns is an argument: [None] is RETCODE_OK.  Times are 64-bit
    nanosecond counts of the steady clock. *)

From S2P Require Import Prelude Identity Deadline Qos Services Waitables Wakeup WaitSet WaitInvariant WaitResults Events EventResults.
From stdpp Require Import gmap.
Local Open Scope Z_scope.

Definition shut_down_error : Error := MkError ContextShutdown "Context is shut down".

(** ** Publisher *)

Definition write (message_null operation : bool) (result : option ReturnCode) : Result unit :=
  if message_null then fail InvalidArgument "Message must not be null"
  else if negb operation then failure shut_down_error
  else match result with
       | Some c => failure (to_error c "Fast DDS DataWriter write failed")
       | None => success tt
       end.

(** [matched_subscriber_count] and [matched_publisher_count]; [current_count]
    is an [int32_t]. *)
Definition matched_count (operation : bool) (result : option ReturnCode) (message : string)
    (current_count : Z) : Result Z :=
  if negb operation then failure shut_down_error
  else match result with
       | Some c => failure (to_error c message)
       | None => success (wrap_u64 current_count)
       end.
Definition matched_subscriber_count (operation : bool) (result : option ReturnCode) : Z -> Result Z :=
  matched_count operation result "Fast DDS matched subscription query failed".
Definition matched_publisher_count (operation : bool) (result : option ReturnCode) : Z -> Result Z :=
  matched_count operation result "Fast DDS matched publication query failed".

Definition queried_qos (operation : bool) (result : option ReturnCode) (message : string)
    (qos : EndpointQos) : Result Qos :=
  if negb operation then failure shut_down_error
  else match result with
       | Some c => failure (to_error c message)
       | None => from_neutral_qos qos
       end.
Definition publisher_qos (operation : bool) (result : option ReturnCode) : EndpointQos -> Result Qos :=
  queried_qos operation result "Fast DDS writer QoS query failed".
Definition subscriber_qos (operation : bool) (result : option ReturnCode) : EndpointQos -> Result Qos :=
  queried_qos operation result "Fast DDS reader QoS query failed".

(** [operation'] and [queried]: the nested [actual_qos]. *)
Definition assert_liveliness (operation operation' : bool) (queried : option ReturnCode)
    (qos : EndpointQos) (result : option ReturnCode) : Result unit :=
  if negb operation then failure shut_down_error
  else
    let? q := publisher_qos operation' queried qos in
    if negb (bool_decide (liveliness q = ManualByTopic)) then
      fail InvalidState "Liveliness assertion requires ManualByTopic QoS"
    else match result with
         | Some c => failure (to_error c "Fast DDS liveliness assertion failed")
         | None => success tt
         end.

(** ** Waiting for acknowledgments *)

(** What one turn of the loop sees. *)
Record AckTurn := MkAckTurn {
  ack_shutdown : bool; ack_now : Z; acknowledged : option ReturnCode }.

Definition shutdown_check_interval : Z := 20 * 1000000.

(** The [Duration_t] of a turn, as (seconds, nanoseconds). *)
Definition ack_duration (timeout : WaitTimeout) (remaining : Z) : Z * Z :=
  let wait := if bool_decide (timeout_kind timeout = Poll) then 0
              else Z.min remaining shutdown_check_interval in
  (Z.quot wait 1000000000, Z.rem wait 1000000000).

Definition remaining_time (timeout : WaitTimeout) (deadline now : Z) : Z :=
  if bool_decide (timeout_kind timeout = Finite) then deadline - now else shutdown_check_interval.

(** One turn: [None] when the loop goes on. *)
Definition ack_turn (timeout : WaitTimeout) (deadline : Z) (t : AckTurn) : option (Result bool) :=
  if ack_shutdown t then Some (failure shut_down_error)
  else
    let remaining := remaining_time timeout deadline (ack_now t) in
    if bool_decide (timeout_kind timeout = Finite) && (remaining <=? 0) then Some (success false)
    else
      let '(seconds, _) := ack_duration timeout remaining in
      if INT32_MAX <? seconds then
        Some (fail Unsupported "Acknowledgment timeout exceeds Fast DDS range")
      else
        match acknowledged t with
        | None => Some (success true)
        | Some RETCODE_TIMEOUT =>
            if bool_decide (timeout_kind timeout = Poll) then Some (success false) else None
        | Some c => Some (failure (to_error c "Fast DDS acknowledgment wait failed"))
        end.

Fixpoint ack_turns (timeout : WaitTimeout) (deadline : Z) (ts : list AckTurn) : option (Result bool) :=
  match ts with
  | [] => None
  | t :: ts =>
      match ack_turn timeout deadline t with
      | Some r => Some r
      | None => ack_turns timeout deadline ts
      end
  end.

(** [None]: still waiting after these turns. *)
Definition wait_for_all_acked `{!WideCompare} (operation : bool) (timeout : WaitTimeout) (now : Z)
    (ts : list AckTurn) : option (Result bool) :=
  if negb operation then Some (failure shut_down_error)
  else
    match steady_deadline timeout now with
    | None => None
    | Some deadline => ack_turns timeout deadline ts
    end.

(** ** Temporary samples *)

(** The type support of a message type, and the adaptor's [receive_commit] if
    it has one. *)
Class TypeSupport := {
  Data : Type;
  Payload : Type;
  serialized_size : Data -> Z;
  serialize : Data -> option (list Z);
  deserialize : list Z -> option Payload;
  receive_commit : option (Data -> Result Payload) }.

Record TemporarySample := MkSample { payload_capacity : option Z; payload_allocations : Z }.

Inductive Allocation := Allocated | BadAlloc | AllocationFailed.

Section Samples.
Context `{!TypeSupport}.

(** [create]: whether [createData] gave an object. *)
Definition create_sample (created : bool) : Result TemporarySample :=
  if created then success (MkSample None 0)
  else fail DDSError "Fast DDS type support failed to allocate a sample".

(** [None]: the exception [std::bad_alloc]. *)
Definition commit_to (allocation : Allocation) (data : Data) (s : TemporarySample)
    : option (Result Payload * TemporarySample) :=
  match receive_commit with
  | Some commit => Some (commit data, s)
  | None =>
      let size := serialized_size data in
      let grows := match payload_capacity s with None => true | Some c => c <? size end in
      let copy :=
        match serialize data with
        | None => fail DDSError "Fast DDS sample serialization failed"
        | Some bytes =>
            match deserialize bytes with
            | None => fail DDSError "Fast DDS sample deserialization failed"
            | Some v => success v
            end
        end in
      if negb grows then Some (copy, s)
      else
        match allocation with
        | BadAlloc => None
        | AllocationFailed =>
            Some (fail ResourceExhausted "Fast DDS sample payload allocation failed", s)
        | Allocated => Some (copy, MkSample (Some size) (payload_allocations s + 1))
        end
  end.

(** ** Subscriber *)

Record Time_t := MkTime { time_seconds : Z; time_nanosec : Z }.

Definition to_nanoseconds (t : Time_t) : Z :=
  if (time_seconds t <? 0) || (INT64_MAX / 1000000000 <? time_seconds t) then 0
  else wrap_i64 (time_seconds t * 1000000000 + time_nanosec t).

Context `{!Handles}.
Variable c_SequenceNumber_Unknown : SequenceNumber.

Record ReadInfo := MkReadInfo {
  valid : bool;
  source_timestamp : Time_t;
  reception_timestamp : Time_t;
  read_identity : SampleIdentity;
  publication_handle : InstanceHandle }.

Record MessageInfo := MkMessageInfo {
  writer_gid : Gid; writer_timestamp : Z; writer_sequence : Z; reader_timestamp : Z }.

Definition message_info (i : ReadInfo) : MessageInfo :=
  MkMessageInfo
    (if negb (bool_decide (writer_guid (read_identity i) = c_Guid_Unknown))
     then to_gid (writer_guid (read_identity i))
     else if isDefined (publication_handle i) then to_gid (iHandle2GUID (publication_handle i))
     else MkGid (replicate 16 0))
    (to_nanoseconds (source_timestamp i))
    (to_writer_sequence c_SequenceNumber_Unknown (sample_sequence (read_identity i)))
    (to_nanoseconds (reception_timestamp i)).

(** [take_next_sample]: no data, an error, or a sample. *)
Inductive TakeNext := NothingTaken | TakeFailed (c : ReturnCode) | TookSample (i : ReadInfo) (d : Data).

(** The loop of [read]; the scratch sample is kept for the next call.
    [None]: an exception. *)
Fixpoint read_loop (created : bool) (allocation : Allocation) (remaining : nat) (takes : list TakeNext)
    (scratch : option TemporarySample)
    : option (Result (option (Payload * MessageInfo)) * option TemporarySample) :=
  match remaining with
  | O => Some (success None, scratch)
  | S remaining =>
      match (match scratch with Some s => success s | None => create_sample created end) with
      | failure e => Some (failure e, scratch)
      | success s =>
          match takes with
          | [] | NothingTaken :: _ => Some (success None, Some s)
          | TakeFailed c :: _ => Some (failure (to_error c "Fast DDS take failed"), Some s)
          | TookSample i d :: takes =>
              if negb (valid i) then read_loop created allocation remaining takes (Some s)
              else
                match commit_to allocation d s with
                | None => None
                | Some (failure e, s) => Some (failure e, Some s)
                | Some (success v, s) => Some (success (Some (v, message_info i)), Some s)
                end
          end
      end
  end.

(** [read]; [success None] is the source's [false]. *)
Definition read (message_null operation created : bool) (allocation : Allocation) (unread : nat)
    (takes : list TakeNext) (scratch : option TemporarySample)
    : option (Result (option (Payload * MessageInfo)) * option TemporarySample) :=
  if message_null then Some (fail InvalidArgument "Message must not be null", scratch)
  else if negb operation then Some (failure shut_down_error, scratch)
  else read_loop created allocation unread takes scratch.
End Samples.

(** ** Destruction *)

(** What the calls to Fast DDS did: they may throw, which counts as failure. *)
Record Teardown := MkTeardown { listener_detached : bool; deletion_throws : bool }.

(** [~Impl] of the Publisher: whether the writer was handed to
    [delete_datawriter].  [None]: it waits for a callback that still runs. *)
Definition destroy_publisher (dds : Dds) (lock : nat -> bool) (t : Teardown) (p : EventParentState)
    (w : World) : option (bool * EventParentState * World) :=
  let '(p, w) := close_parent dds lock p w in
  if listener_detached t then
    match drain_listeners p with
    | None => None
    | Some p => Some (true, if deletion_throws t then quarantine_listeners p else p, w)
    end
  else Some (false, quarantine_listeners p, w).

(** [~Impl] of the Subscriber, whose [ReaderWaitState] is [r]. *)
Definition destroy_subscriber (dds : Dds) (lock : nat -> bool) (t : Teardown) (r : nat)
    (p : EventParentState) (w : World) : option (bool * EventParentState * World) :=
  let '(p, w) := close_parent dds lock p w in
  match (if listener_detached t then drain_listeners p else Some (quarantine_listeners p)) with
  | None => None
  | Some p =>
      match close_reader dds r w with
      | None => None
      | Some (reader_closed, w) => Some (listener_detached t && reader_closed, p, w)
      end
  end.

(** ** Results of a wait for acknowledgments *)

(** A turn that leaves the loop running. *)
Definition ack_continues (timeout : WaitTimeout) (deadline : Z) (t : AckTurn) : Prop :=
  ack_shutdown t = false /\ acknowledged t = Some RETCODE_TIMEOUT /\ timeout_kind timeout <> Poll /\
  (timeout_kind timeout = Finite -> ack_now t < deadline).

(** Why a turn ends it. *)
Definition ack_reason (timeout : WaitTimeout) (deadline : Z) (t : AckTurn) (r : Result bool) : Prop :=
  r = failure shut_down_error /\ ack_shutdown t = true \/
  ack_shutdown t = false /\
  (r = success false /\ timeout_kind timeout = Finite /\ deadline <= ack_now t \/
   (timeout_kind timeout = Finite -> ack_now t < deadline) /\
   (r = success true /\ acknowledged t = None \/
    r = success false /\ timeout_kind timeout = Poll /\ acknowledged t = Some RETCODE_TIMEOUT \/
    exists c, acknowledged t = Some c /\ c <> RETCODE_TIMEOUT /\
      r = failure (to_error c "Fast DDS acknowledgment wait failed"))).

Lemma ack_duration_bounds timeout deadline now :
  let remaining := remaining_time timeout deadline now in
  (timeout_kind timeout = Finite -> now < deadline) ->
  let '(seconds, nanoseconds) := ack_duration timeout remaining in
  seconds = 0 /\ 0 <= nanoseconds <= shutdown_check_interval /\
  (timeout_kind timeout = Finite -> now + nanoseconds <= deadline) /\
  (timeout_kind timeout = Poll -> nanoseconds = 0).
Proof.
  intros remaining Hf. unfold ack_duration. subst remaining. unfold remaining_time, shutdown_check_interval.
  destruct (timeout_kind timeout) eqn:Hk; simpl.
  - split_and!; done || lia.
  - specialize (Hf eq_refl). rewrite Z.quot_small, Z.rem_small by lia. split_and!; try done; lia.
  - rewrite Z.quot_small, Z.rem_small by lia. split_and!; try done; lia.
Qed.

Lemma ack_turn_cases timeout deadline t :
  match ack_turn timeout deadline t with
  | Some r => ack_reason timeout deadline t r
  | None => ack_continues timeout deadline t
  end.
Proof.
  unfold ack_turn, ack_reason, ack_continues. destruct (ack_shutdown t); [by left|].
  pose proof (ack_duration_bounds timeout deadline (ack_now t)) as Hb. cbv zeta in Hb.
  destruct (decide (timeout_kind timeout = Finite /\ deadline <= ack_now t)) as [[Hk Hd]|Hnd].
  { unfold remaining_time. rewrite Hk, bool_decide_eq_true_2 by done.
    destruct (Z.leb_spec (deadline - ack_now t) 0); [|lia]. simpl. naive_solver. }
  assert (Hlt : timeout_kind timeout = Finite -> ack_now t < deadline) by (intros; destruct (decide (deadline <= ack_now t)); (tauto || lia)).
  assert ((bool_decide (timeout_kind timeout = Finite) &&
    (remaining_time timeout deadline (ack_now t) <=? 0)) = false) as ->.
  { clear Hb. unfold remaining_time. destruct (timeout_kind timeout); try done. simpl. apply Z.leb_gt.
    specialize (Hlt ltac:(done)). lia. }
  specialize (Hb Hlt). destruct (ack_duration _ _) as [seconds ns]. destruct Hb as (-> & _). simpl.
  destruct (acknowledged t) as [c|]; [|naive_solver].
  destruct c; try (right; (split; [done|]); right; (split; [done|]); right; right; eexists; by split_and!).
  case_bool_decide; naive_solver.
Qed.

(** Waiting for acknowledgments: the wait returns at the first turn that
    finds the Context shut down, the deadline reached, an answer other than a
    timeout, or any answer to a poll, and returns what that turn says; until
    then no turn waits longer than 20 ms or past the deadline, so that a
    shutdown is noticed, and the range check never fails. *)
Theorem acked_wait_spec timeout deadline ts :
  (match ack_turns timeout deadline ts with
   | None => Forall (ack_continues timeout deadline) ts
   | Some r => exists ts1 t ts2, ts = ts1 ++ t :: ts2 /\
       Forall (ack_continues timeout deadline) ts1 /\ ack_reason timeout deadline t r
   end) /\
  Forall (fun t => (timeout_kind timeout = Finite -> ack_now t < deadline) ->
    let '(seconds, nanoseconds) := ack_duration timeout (remaining_time timeout deadline (ack_now t)) in
    seconds = 0 /\ 0 <= nanoseconds <= shutdown_check_interval /\
    (timeout_kind timeout = Finite -> ack_now t + nanoseconds <= deadline)) ts.
Proof.
  split.
  - induction ts as [|t ts IH]; simpl; [done|].
    pose proof (ack_turn_cases timeout deadline t) as Ht. destruct (ack_turn timeout deadline t) as [r|].
    + exists [], t, ts. by split_and!.
    + destruct (ack_turns timeout deadline ts) as [r|]; [|by constructor].
      destruct IH as (ts1 & t' & ts2 & -> & Hts & Hr). exists (t :: ts1), t', ts2. split_and!; [done | by constructor | done].
  - apply Forall_forall. intros t _ Hf. pose proof (ack_duration_bounds timeout deadline (ack_now t) Hf) as Hb.
    cbv zeta in Hb. destruct (ack_duration _ _). tauto.
Qed.

(** ** Time stamps *)

(** A Fast DDS time with non-negative seconds becomes its exact count of
    nanoseconds, without overflow, a negative one 0; the test for an overflow
    of the seconds never holds. *)
Theorem to_nanoseconds_exact t :
  in_i32 (time_seconds t) -> in_u32 (time_nanosec t) ->
  to_nanoseconds t = (if time_seconds t <? 0 then 0 else time_seconds t * 1000000000 + time_nanosec t) /\
  0 <= to_nanoseconds t <= INT64_MAX /\ time_seconds t <= INT64_MAX / 1000000000.
Proof.
  intros Hs Hn. unfold to_nanoseconds. assert (INT64_MAX / 1000000000 = 9223372036) as -> by reflexivity.
  revert Hs Hn. unfold in_i32, in_u32, INT32_MIN, INT32_MAX, UINT32_MAX. intros Hs Hn.
  destruct (Z.ltb_spec (time_seconds t) 0); simpl; [unfold INT64_MAX; lia|].
  destruct (Z.ltb_spec 9223372036 (time_seconds t)); [lia|].
  rewrite wrap_i64_small by (unfold in_i64, INT64_MIN, INT64_MAX; lia). unfold INT64_MAX. lia.
Qed.

Lemma to_nanoseconds_exact_witness :
  to_nanoseconds (MkTime 2147483647 4294967295) = 2147483647 * 1000000000 + 4294967295 /\
  0 <= to_nanoseconds (MkTime 2147483647 4294967295) <= INT64_MAX /\ 2147483647 <= INT64_MAX / 1000000000.
Proof. apply (to_nanoseconds_exact (MkTime 2147483647 4294967295)); unfold_ints; simpl; lia. Defined.

(** ** Reading *)

Section Reading.
Context `{!TypeSupport, !Handles}.
Variable c_SequenceNumber_Unknown : SequenceNumber.

(** The copy of a sample, whatever the scratch object's capacity. *)
Definition copied (d : Data) : Result Payload :=
  match receive_commit with
  | Some commit => commit d
  | None =>
      match serialize d with
      | None => fail DDSError "Fast DDS sample serialization failed"
      | Some bytes =>
          match deserialize bytes with
          | None => fail DDSError "Fast DDS sample deserialization failed"
          | Some v => success v
          end
      end
  end.

Definition fits (d : Data) (s : TemporarySample) : bool :=
  bool_decide (is_Some receive_commit) ||
  match payload_capacity s with None => false | Some c => serialized_size d <=? c end.

(** A commit that fits allocates nothing, so that no allocation can fail. *)
Lemma commit_fits allocation d s : fits d s = true -> commit_to allocation d s = Some (copied d, s).
Proof.
  unfold fits, commit_to, copied. destruct receive_commit; [done|]. simpl.
  destruct (payload_capacity s) as [c|]; [|done]. rewrite Z.leb_le. intros Hle.
  destruct (Z.ltb_spec c (serialized_size d)); [lia | done].
Qed.

(** One that does not allocates once, and then every sample up to its size fits. *)
Lemma commit_grows d s :
  fits d s = false -> exists s', commit_to Allocated d s = Some (copied d, s') /\
    payload_allocations s' = payload_allocations s + 1 /\
    (forall d', serialized_size d' <= serialized_size d \/ fits d' s = true -> fits d' s' = true).
Proof.
  unfold fits, commit_to, copied. destruct receive_commit; [done|]. simpl. intros Hf.
  assert ((match payload_capacity s with None => true | Some c => c <? serialized_size d end) = true) as ->.
  { destruct (payload_capacity s); [|done]. apply Z.leb_gt in Hf. by apply Z.ltb_lt. }
  eexists. split; [done|]. split; [done|]. simpl. intros d'. destruct (payload_capacity s) as [c|].
  - rewrite !Z.leb_le. apply Z.leb_gt in Hf. lia.
  - rewrite Z.leb_le. intros [?|?]; [lia | done].
Qed.

Lemma commit_allocated d s : exists s', commit_to Allocated d s = Some (copied d, s').
Proof.
  destruct (fits d s) eqn:Hf; [eexists; by apply commit_fits|].
  destruct (commit_grows d s Hf) as (s' & -> & _). by eexists.
Qed.

Definition skipped (t : TakeNext) : bool := match t with TookSample i _ => negb (valid i) | _ => false end.

(** [read] returns the first valid sample among the unread ones, with its
    time stamps, its writer and its sequence number, skipping samples without
    data; the error of a failed take; or nothing when neither comes up.  Its
    scratch sample is created once and kept. *)
Theorem read_spec created unread takes scratch :
  scratch <> None \/ created = true ->
  exists scratch', read c_SequenceNumber_Unknown false true created Allocated unread takes scratch =
    Some (match find_if (fun t => negb (skipped t)) (firstn unread takes) with
          | None | Some NothingTaken => success None
          | Some (TakeFailed c) => failure (to_error c "Fast DDS take failed")
          | Some (TookSample i d) =>
              match copied d with
              | success v => success (Some (v, message_info c_SequenceNumber_Unknown i))
              | failure e => failure e
              end
          end, scratch') /\
    (unread = O /\ scratch' = scratch \/ scratch' <> None).
Proof.
  unfold read. simpl. revert takes scratch. induction unread as [|unread IH]; intros takes scratch Hs; simpl.
  - eexists. split; [done | by left].
  - assert (exists s, (match scratch with Some s => success s | None => create_sample created end) = success s)
      as [s ->].
    { destruct scratch as [s|]; [by eexists|]. destruct Hs as [| ->]; [done|]. by eexists. }
    destruct takes as [|[|c|i d] takes]; simpl; try (eexists; split; [done | by right]).
    destruct (valid i); simpl.
    + destruct (commit_allocated d s) as [s' ->]. destruct (copied d); eexists; (split; [done | by right]).
    + destruct (IH takes (Some s) ltac:(by left)) as (s' & -> & Hs'). exists s'. split; [done|]. right.
      by destruct Hs' as [[_ ->]|].
Qed.
End Reading.

(** Messages of one number, on the wire as that number. *)
#[export] Instance number_support : TypeSupport | 100 := {|
  Data := Z; Payload := Z; serialized_size := fun z => z; serialize := fun z => Some [z];
  deserialize := head; receive_commit := None |}.

Definition number_sample (v : bool) (z : Z) : TakeNext :=
  TookSample (MkReadInfo v (MkTime 1 5) (MkTime 2 7)
    (MkSampleIdentity c_Guid_Unknown (MkSequence 0 9)) None) z.

Lemma read_spec_witness :
  exists scratch', read (MkSequence (-1) 0) false true true Allocated 3 [number_sample false 4; number_sample true 6] None =
    Some (success (Some (6, MkMessageInfo (MkGid (replicate 16 0)) 1000000005 9 2000000007)), scratch') /\
    (3%nat = O /\ scratch' = None \/ scratch' <> None).
Proof.
  apply (read_spec (MkSequence (-1) 0) true 3 [number_sample false 4; number_sample true 6] None). by right.
Defined.

(** ** Closing the events of an endpoint *)

Lemma release_channels_links dds ws rid cs n st l :
  link_of (release_channels dds ws rid cs n st).2 l = link_of st l.
Proof.
  revert n st. induction cs as [|[r b] cs IH]; intros n st; [done|]. cbn [release_channels]. destruct (negb _).
  - specialize (IH n st). by destruct (release_channels _ _ _ _ _ _) as [[[? ?] ?] ?].
  - destruct (b && _); [done|].
    match goal with |- context [release_channels dds ws rid cs ?n1 ?st1] =>
      specialize (IH n1 st1); destruct (release_channels dds ws rid cs n1 st1) as [[[? ?] ?] ?] end. done.
Qed.

Lemma release_closing dds ws R n st l : closing (link_of (release dds ws R n st).2 l) = closing (link_of st l).
Proof.
  unfold release. destruct (logical_of R) as [l'|].
  - simpl. unfold release_logical_waitable. destruct (linked_to _ _ _); [|done].
    rewrite link_of_set. by destruct (decide (l' = l)) as [->|].
  - pose proof (release_channels_links dds ws (Waitables.id R) (channels R) n st l) as Hl.
    destruct (release_channels _ _ _ _ _ _) as [[[? ?] ?] ?]. simpl in *. by rewrite Hl.
Qed.

Lemma detach_closing dds i R w l : closing (link_of (store (detach dds i R w).2) l) = closing (link_of (store w) l).
Proof.
  destruct (decide (phase R = PhaseAttached)) as [Hph|Hph]; [|unfold detach; by rewrite decide_False].
  pose proof (release_closing dds i R (native (ws_of w i)) (store w) l) as Hg.
  destruct (release dds i R (native (ws_of w i)) (store w)) as [[[ok R'] n'] st'] eqn:Hrel.
  destruct (detach_shape dds w i R ok R' n' st' Hph Hrel) as (_ & -> & _). simpl in Hg.
  destruct ok; [done|]. by rewrite link_of_quarantine.
Qed.

Lemma close_logical_closing dds l w l' :
  closing (link_of (store (close_logical dds l w)) l') =
  (if decide (l = l') then true else closing (link_of (store w) l')).
Proof.
  unfold close_logical. rewrite notify_link_store. unfold run_detach_callback.
  assert (Hset : closing (link_of (set_link l (link_close (link_of (store w) l)) (store w)) l') =
    (if decide (l = l') then true else closing (link_of (store w) l'))).
  { rewrite link_of_set. by destruct (decide (l = l')). }
  destruct (detach_callback _) as [[i rid]|]; [|done].
  destruct (registrations _ !! rid) as [R|]; [|done]. by rewrite detach_closing.
Qed.

Lemma close_parent_closes dds lock p w r :
  r ∈ events p -> lock (record_event r) = true ->
  closing (link_of (store (close_parent dds lock p w).2) (GuardOf (record_event r))) = true.
Proof.
  unfold close_parent. simpl. intros Hin Hl. revert w. induction (events p) as [|r' rs IH]; intros w;
    [by apply not_elem_of_nil in Hin|].
  simpl. apply elem_of_cons in Hin as [<-|Hin]; [|by apply IH]. rewrite Hl. clear IH.
  assert (Hc : closing (link_of (store (close_logical dds (GuardOf (record_event r)) w)) (GuardOf (record_event r))) = true)
    by (rewrite close_logical_closing; by rewrite decide_True).
  revert Hc. generalize (close_logical dds (GuardOf (record_event r)) w). induction rs as [|r' rs IH]; intros w' Hc; [done|].
  simpl. apply IH. destruct (lock (record_event r')); [|done]. rewrite close_logical_closing. by destruct (decide _).
Qed.

(** A listener that may be freed: none, or one that admits no callback and
    runs none. *)
Definition listener_retired (sd : Side) (p : EventParentState) : Prop :=
  match listener sd p with
  | None => True
  | Some g => accepting_callbacks g = false /\ callbacks_in_flight g = 0
  end.

Lemma drained_retired p p' :
  drain_listeners p = Some p' ->
  alive p' = alive p /\ events p' = events p /\ forall sd, listener_retired sd p'.
Proof.
  unfold drain_listeners, close_gate. intros Hd.
  destruct (writer_listener p) as [gw|], (reader_listener p) as [gr|]; simpl in Hd;
    repeat match type of Hd with context [drained ?g] => destruct (drained g) eqn:?; [|done] end;
    simplify_eq/=; split_and!; try done; intros []; unfold listener_retired, listener; simpl; try done;
    split; try done; by apply Z.eqb_eq.
Qed.

(** Destroying a Publisher: when it returns, the endpoint is closed, has
    no event left, and takes fail; every Event of it has been closed; and no
    listener is freed under a callback: each is drained, or, unless Fast DDS
    confirmed the detachment and the deletion, kept in the quarantine. *)
Theorem destroy_publisher_safe dds lock t p w deleted p' w' :
  destroy_publisher dds lock t p w = Some (deleted, p', w') ->
  alive p' = false /\ events p' = [] /\ (forall sd, listener_retired sd p') /\
  deleted = listener_detached t /\
  (listener_detached t = false \/ deletion_throws t = true -> forall sd, listener sd p' = None) /\
  (forall r, r ∈ events p -> lock (record_event r) = true ->
     closing (link_of (store w') (GuardOf (record_event r))) = true) /\
  (forall e info st, exists r, Events.take true p' info e st = Some (r, info, e, st) /\ code_of r = Some ParentDestroyed).
Proof.
  unfold destroy_publisher. pose proof (close_parent_closes dds lock p w) as Hclose.
  destruct (close_parent dds lock p w) as [p0 w0] eqn:Hcp. simpl in Hclose.
  unfold close_parent in Hcp. injection Hcp as <- <-. intros Hd.
  assert (Htake : forall q, alive q = false -> forall e info st,
    exists r, Events.take true q info e st = Some (r, info, e, st) /\ code_of r = Some ParentDestroyed).
  { intros q Hq e info st. unfold Events.take. rewrite Hq. simpl. by eexists. }
  assert (Hquar : forall q sd, listener sd (quarantine_listeners q) = None) by (by intros q []).
  destruct (listener_detached t).
  - destruct (drain_listeners _) as [p1|] eqn:Hdr; [|done]. apply drained_retired in Hdr as (Ha & He & Hr).
    simpl in Ha, He. injection Hd as <- <- <-. destruct (deletion_throws t).
    + split_and!; try done; [intros sd; unfold listener_retired; by rewrite Hquar|]. by apply Htake.
    + split_and!; try done; [intros [?|?]; done|]. by apply Htake.
  - injection Hd as <- <- <-. split_and!; try done; [intros sd; unfold listener_retired; by rewrite Hquar|].
    by apply Htake.
Qed.

(** Closing a reader ends its wait set's hold on it, or defers its deletion
    to the wait set. *)
Lemma close_reader_ends dds r w closed w' :
  close_reader dds r w = Some (closed, w') ->
  (closed = true -> reader (reader_of (store w') r) = false /\ lifecycle (reader_of (store w') r) = Closed) /\
  (closed = false -> lifecycle (reader_of (store w') r) = DeleteDeferredByWaitSet).
Proof.
  unfold close_reader. destruct (claim_in_progress _); [done|].
  destruct (run_detach_callback _ _ _) as [detached w2]. intros [= <- <-].
  rewrite notify_link_store. simpl. rewrite reader_of_update, decide_True by done. by destruct detached.
Qed.

(** Destroying a Subscriber: as for a Publisher, and the DataReader is
    deleted only if Fast DDS detached the listener and the reader's condition
    has left its wait set; otherwise it stays with the Context. *)
Theorem destroy_subscriber_safe dds lock t r p w deleted p' w' :
  destroy_subscriber dds lock t r p w = Some (deleted, p', w') ->
  alive p' = false /\ events p' = [] /\ (forall sd, listener_retired sd p') /\
  (listener_detached t = false -> forall sd, listener sd p' = None) /\
  (deleted = true -> listener_detached t = true /\ reader (reader_of (store w') r) = false /\
     lifecycle (reader_of (store w') r) = Closed) /\
  (deleted = false -> listener_detached t = false \/ lifecycle (reader_of (store w') r) = DeleteDeferredByWaitSet).
Proof.
  unfold destroy_subscriber, close_parent. set (w0 := fold_left _ _ w). intros Hd.
  assert (Hquar : forall q sd, listener sd (quarantine_listeners q) = None) by (by intros q []).
  destruct (if listener_detached t then _ else _) as [p1|] eqn:Hl; [|done].
  assert (Hp : alive p1 = false /\ events p1 = [] /\ (forall sd, listener_retired sd p1) /\
    (listener_detached t = false -> forall sd, listener sd p1 = None)).
  { destruct (listener_detached t).
    - apply drained_retired in Hl as (Ha & He & Hr). by split_and!.
    - injection Hl as <-. split_and!; try done. intros sd. unfold listener_retired. by rewrite Hquar. }
  destruct (close_reader dds r w0) as [[closed w1]|] eqn:Hc; [|done]. injection Hd as <- <- <-.
  apply close_reader_ends in Hc as [Hc1 Hc2]. destruct Hp as (? & ? & ? & ?). split_and!; try done.
  - by intros [-> ?%Hc1]%andb_true_iff.
  - intros [?|?%Hc2]%andb_false_iff; [by left | by right].
Qed.

Definition destroyed : option (bool * EventParentState * World) :=
  destroy_publisher dds_ok every (MkTeardown true false) (parent (after create_ops)) (world (after create_ops)).
Definition destroyed_parent : EventParentState := match destroyed with Some (_, p, _) => p | None => new_parent end.
Definition destroyed_world : World := match destroyed with Some (_, _, w) => w | None => empty_world end.

Lemma destroy_publisher_safe_witness :
  alive destroyed_parent = false /\ events destroyed_parent = [] /\ (forall sd, listener_retired sd destroyed_parent) /\
  true = true /\
  (true = false \/ false = true -> forall sd, listener sd destroyed_parent = None) /\
  (forall r, r ∈ events (parent (after create_ops)) -> every (record_event r) = true ->
     closing (link_of (store destroyed_world) (GuardOf (record_event r))) = true) /\
  (forall e info st, exists r, Events.take true destroyed_parent info e st = Some (r, info, e, st) /\
     code_of r = Some ParentDestroyed).
Proof.
  apply (destroy_publisher_safe dds_ok every (MkTeardown true false) (parent (after create_ops)) (world (after create_ops))
    true destroyed_parent destroyed_world). vm_compute. reflexivity.
Defined.

(** Reader 4 of [example_world] is destroyed while Fast DDS refuses to detach
    its condition: it is not deleted. *)
Definition refusing : Dds := MkDds (fun _ => true) (fun _ => false) (fun _ => true) true.
Definition destroyed_reader : option (bool * EventParentState * World) :=
  destroy_subscriber refusing every (MkTeardown true false) 4 new_parent example_world.
Definition reader_parent : EventParentState := match destroyed_reader with Some (_, p, _) => p | None => new_parent end.
Definition reader_world : World := match destroyed_reader with Some (_, _, w) => w | None => empty_world end.

Lemma destroy_subscriber_safe_witness :
  alive reader_parent = false /\ events reader_parent = [] /\ (forall sd, listener_retired sd reader_parent) /\
  (true = false -> forall sd, listener sd reader_parent = None) /\
  (false = true -> true = true /\ reader (reader_of (store reader_world) 4) = false /\
     lifecycle (reader_of (store reader_world) 4) = Closed) /\
  (false = false -> true = false \/ lifecycle (reader_of (store reader_world) 4) = DeleteDeferredByWaitSet).
Proof.
  apply (destroy_subscriber_safe refusing every (MkTeardown true false) 4 new_parent example_world
    false reader_parent reader_world). vm_compute. reflexivity.
Defined.
