(* ===== verification/LockRanks.v ===== *)
(** * LockRanks: the lock hierarchy

    Models src/impl/lock_rank.hpp: the ranks, the per-thread tracker of a
    debug build, and [RankedMutex] as a step relation of threads that lock and
    unlock.  [no_deadlock]: threads that only ask for locks of a higher rank
    than they hold never wait for each other in a circle. *)

From S2P Require Import Prelude.
From stdpp Require Import gmap.
Local Open Scope Z_scope.

(** ** Ranks and the tracker *)

Inductive LockRank :=
  | ContextRuntime | ChildRegistry | TypeRegistry | TopicRegistry | DiscoveryGraphRank | RequestStateRank
  | TargetReader | OrphanedEndpoint | RetiredWaitSet | EndpointRuntime | WaitSetTopology
  | WaitSetReconciliation | RegistrationRank | WaitableLocal | PendingRequestRank | ListenerState.

#[export] Instance LockRank_eq_dec : EqDecision LockRank.
Proof. solve_decision. Defined.

Definition rank_value (r : LockRank) : Z :=
  match r with
  | ContextRuntime => 1 | ChildRegistry => 2 | TypeRegistry => 3 | TopicRegistry => 4
  | DiscoveryGraphRank => 5 | RequestStateRank => 7 | TargetReader => 8 | OrphanedEndpoint => 9
  | RetiredWaitSet => 10 | EndpointRuntime => 11 | WaitSetTopology => 12 | WaitSetReconciliation => 13
  | RegistrationRank => 14 | WaitableLocal => 15 | PendingRequestRank => 16 | ListenerState => 17
  end.

(** [held_], the last rank first.  [None]: an assertion fails. *)
Definition acquire (rank : LockRank) (held : list LockRank) : option (list LockRank) :=
  if (32 <=? length held)%nat then None
  else
    match held with
    | [] => Some [rank]
    | top :: _ => if rank_value rank <=? rank_value top then None else Some (rank :: held)
    end.

Definition release (rank : LockRank) (held : list LockRank) : option (list LockRank) :=
  match held with
  | [] => None
  | top :: held => if decide (top = rank) then Some held else None
  end.

(** ** Threads and mutexes *)

(** A mutex is named by its rank and a number. *)
Notation Mutex := (LockRank * nat)%type.

(** A thread holds the mutexes of [locks], the last one first, and may be
    inside [lock()] of [wanted]. *)
Record Thread := MkThread { locks : list Mutex; wanted : option Mutex }.

Definition held_ranks (t : Thread) : list LockRank := (locks t).*1.

(** The caller keeps to the hierarchy: the tracker would accept the mutex. *)
Definition respects (m : Mutex) (t : Thread) : bool := bool_decide (is_Some (acquire m.1 (held_ranks t))).

Notation Threads := (list Thread).

Definition is_held (m : Mutex) (ts : Threads) : Prop := Exists (fun t => m ∈ locks t) ts.

(** [lock], [try_lock] and [unlock]: [lock] blocks inside the mutex before it
    tells the tracker. *)
Inductive lock_step (ts : Threads) : Threads -> Prop :=
  | step_request i ls m :
      ts !! i = Some (MkThread ls None) -> respects m (MkThread ls None) = true ->
      lock_step ts (<[i := MkThread ls (Some m)]> ts)
  | step_lock i ls m :
      ts !! i = Some (MkThread ls (Some m)) -> ~ is_held m ts ->
      lock_step ts (<[i := MkThread (m :: ls) None]> ts)
  | step_try_lock i ls m :
      ts !! i = Some (MkThread ls None) -> respects m (MkThread ls None) = true -> ~ is_held m ts ->
      lock_step ts (<[i := MkThread (m :: ls) None]> ts)
  | step_unlock i ls m ranks :
      ts !! i = Some (MkThread (m :: ls) None) -> release m.1 (m :: ls).*1 = Some ranks ->
      lock_step ts (<[i := MkThread ls None]> ts).

Definition idle_threads (ts : Threads) : Prop := Forall (fun t => t = MkThread [] None) ts.

(** ** The tracker keeps the ranks strictly ordered *)

Definition descending (rs : list LockRank) : Prop := StronglySorted (fun a b => rank_value b < rank_value a) rs.

Lemma descending_bound top rs r : descending (top :: rs) -> r ∈ rs -> rank_value r < rank_value top.
Proof. intros [_ H]%StronglySorted_inv Hr. rewrite Forall_forall in H. by apply H. Qed.

(** Sixteen ranks: the depth of 32 is never reached. *)
Lemma descending_length rs : descending rs -> (length rs <= 17)%nat.
Proof.
  intros Hs.
  assert (H : forall rs top, descending (top :: rs) -> Z.of_nat (length rs) < rank_value top).
  { clear. induction rs as [|r rs IH]; intros top Hs; simpl; [by destruct top|].
    pose proof (descending_bound _ _ r Hs ltac:(left)) as Hr.
    apply StronglySorted_inv in Hs as [Hs _]. specialize (IH r Hs). lia. }
  destruct rs as [|top rs]; simpl; [lia|]. specialize (H rs top Hs). destruct top; simpl in H; lia.
Qed.

Lemma acquire_spec rank held :
  descending held ->
  acquire rank held = (if decide (Forall (fun r => rank_value r < rank_value rank) held)
                       then Some (rank :: held) else None).
Proof.
  intros Hs. unfold acquire. pose proof (descending_length held Hs).
  destruct (Nat.leb_spec 32 (length held)); [lia|]. destruct held as [|top held]; [done|].
  destruct (Z.leb_spec (rank_value rank) (rank_value top)) as [Hle|Hlt].
  - rewrite decide_False; [done|]. intros [? _]%Forall_cons. lia.
  - rewrite decide_True; [done|]. constructor; [done|]. apply Forall_forall. intros r Hr.
    pose proof (descending_bound _ _ r Hs Hr). lia.
Qed.

Lemma acquire_descending rank held held' :
  descending held -> acquire rank held = Some held' -> descending held' /\ held' = rank :: held.
Proof.
  intros Hs. rewrite acquire_spec by done. destruct (decide _) as [Hf|]; [|done]. intros [= <-].
  split; [|done]. constructor; [done|]. eapply Forall_impl; [done|]. simpl. lia.
Qed.

(** ** No deadlock *)

Record lock_inv (ts : Threads) : Prop := {
  li_order i t : ts !! i = Some t -> descending (held_ranks t);
  li_wanted i t m : ts !! i = Some t -> wanted t = Some m ->
    Forall (fun r => rank_value r < rank_value m.1) (held_ranks t);
  li_owner i j t u m : ts !! i = Some t -> ts !! j = Some u -> m ∈ locks t -> m ∈ locks u -> i = j }.

Lemma respects_spec m t :
  descending (held_ranks t) -> respects m t = true -> Forall (fun r => rank_value r < rank_value m.1) (held_ranks t).
Proof.
  intros Hd. unfold respects. rewrite bool_decide_eq_true, acquire_spec by done.
  destruct (decide _); [done|]. by intros [? ?].
Qed.

(** Replacing thread [i] by one that holds a part of its mutexes, and maybe a
    free one besides. *)
Lemma lock_inv_insert ts i t t' :
  lock_inv ts -> ts !! i = Some t -> descending (held_ranks t') ->
  (forall m, wanted t' = Some m -> Forall (fun r => rank_value r < rank_value m.1) (held_ranks t')) ->
  (forall m, m ∈ locks t' -> m ∈ locks t \/ ~ is_held m ts) ->
  lock_inv (<[i := t']> ts).
Proof.
  intros Hinv Hi Hd Hw Hl.
  assert (Hlook : forall j u, <[i := t']> ts !! j = Some u -> j = i /\ u = t' \/ j <> i /\ ts !! j = Some u).
  { intros j u. destruct (decide (i = j)) as [<-|Hne].
    - rewrite list_lookup_insert_eq by (by eapply lookup_lt_Some). intros [= <-]. by left.
    - rewrite list_lookup_insert_ne by done. by right. }
  assert (Hown : forall m j u, m ∈ locks t' -> j <> i -> ts !! j = Some u -> m ∈ locks u -> False).
  { intros m j u Hm Hne Hj Hmu. destruct (Hl m Hm) as [Hmt|Hfree].
    - by apply Hne, (li_owner _ Hinv j i u t m).
    - apply Hfree, Exists_exists. exists u. split; [by eapply list_elem_of_lookup_2 | done]. }
  constructor.
  - intros j u [[-> ->]|[? Hj]]%Hlook; [done | by eapply li_order].
  - intros j u m [[-> ->]|[? Hj]]%Hlook; [apply Hw | by eapply li_wanted].
  - intros j k u v m [[-> ->]|[? Hj]]%Hlook [[-> ->]|[? Hk]]%Hlook Hmu Hmv; try done.
    + exfalso. by eapply (Hown m k v).
    + exfalso. by eapply (Hown m j u).
    + by eapply (li_owner _ Hinv j k u v m).
Qed.

Lemma lock_step_inv ts ts' : lock_inv ts -> lock_step ts ts' -> lock_inv ts'.
Proof.
  intros Hinv [i ls m Hi Hr|i ls m Hi Hf|i ls m Hi Hr Hf|i ls m ranks Hi Hr];
    pose proof (li_order _ Hinv i _ Hi) as Hd.
  - eapply lock_inv_insert; [done..| |]; simpl; [|by left].
    intros m' [= <-]. apply (respects_spec m _ Hd Hr).
  - pose proof (li_wanted _ Hinv i _ m Hi eq_refl) as Hw.
    eapply lock_inv_insert; [done | done | constructor; [done|] | done |].
    + eapply Forall_impl; [done|]. simpl. lia.
    + intros m' [->|Hm']%elem_of_cons; [by right | by left].
  - eapply lock_inv_insert; [done | done | | done |].
    + constructor; [done|]. eapply Forall_impl; [apply (respects_spec m _ Hd Hr)|]. simpl. lia.
    + intros m' [->|Hm']%elem_of_cons; [by right | by left].
  - eapply lock_inv_insert; [done | done | by apply StronglySorted_inv in Hd as [? _] | done |].
    intros m' Hm'. left. by right.
Qed.

Lemma idle_threads_inv ts : idle_threads ts -> lock_inv ts.
Proof.
  intros Hidle. unfold idle_threads in Hidle. rewrite Forall_lookup in Hidle.
  constructor; intros; repeat match goal with H : ts !! _ = Some _ |- _ => apply Hidle in H as -> end; simpl in *;
    try done; [constructor | by apply not_elem_of_nil in H1].
Qed.

(** A thread that waits for a mutex never waits in a circle: following
    the owners from it one reaches, through mutexes of ever higher ranks,
    another thread that is not blocked.  No assertion of the tracker fails on
    the way, and an owner can always unlock what it locked last. *)
Theorem no_deadlock ts i t m :
  reachable idle_threads lock_step ts -> ts !! i = Some t -> wanted t = Some m -> is_held m ts ->
  exists j u m', ts !! j = Some u /\ j <> i /\ m' ∈ locks u /\ rank_value m.1 <= rank_value m'.1 /\
    (wanted u = None \/ exists m'', wanted u = Some m'' /\ ~ is_held m'' ts).
Proof.
  intros Hr. assert (Hinv : lock_inv ts) by (revert ts Hr; apply reachable_invariant; [apply idle_threads_inv | apply lock_step_inv]).
  clear Hr. assert (Hm : exists n, (Z.to_nat (18 - rank_value m.1) <= n)%nat) by (by eexists).
  destruct Hm as [n Hm]. revert i t m Hm. induction n as [|n IH]; intros i t m Hm Hi Hw Hheld.
  { destruct m as [[] ?]; simpl in Hm; lia. }
  apply Exists_exists in Hheld as (u & Hu & Hmu). apply list_elem_of_lookup_1 in Hu as [j Hj].
  pose proof (li_wanted _ Hinv i t m Hi Hw) as Hlow. rewrite Forall_forall in Hlow.
  assert (Hne : forall k v m', ts !! k = Some v -> m' ∈ locks v -> rank_value m.1 <= rank_value m'.1 -> k <> i).
  { intros k v m' Hk Hm' Hle ->. rewrite Hi in Hk. injection Hk as <-.
    specialize (Hlow m'.1 ltac:(by apply list_elem_of_fmap_2)). lia. }
  destruct (wanted u) as [m2|] eqn:Hwu.
  2:{ exists j, u, m. split_and!; [done | by eapply Hne | done | lia | by left]. }
  pose proof (li_wanted _ Hinv j u m2 Hj Hwu) as Hup. rewrite Forall_forall in Hup.
  specialize (Hup m.1 ltac:(by apply list_elem_of_fmap_2)).
  destruct (decide (Exists (fun t => m2 ∈ locks t) ts)) as [Hheld2|Hfree].
  - assert (Hlt : (Z.to_nat (18 - rank_value m2.1) <= n)%nat) by (destruct m2 as [[] ?]; simpl in *; lia).
    destruct (IH j u m2 Hlt Hj Hwu Hheld2) as (k & v & m' & Hk & _ & Hm' & Hle & Hrun).
    exists k, v, m'. split_and!; [done | eapply Hne; [done..|lia] | done | lia | done].
  - exists j, u, m. split_and!; [done | by eapply Hne | done | lia | right; by exists m2].
Qed.

(** Thread 0 waits for the graph of thread 1, which runs on. *)
Definition graph_mutex : Mutex := (DiscoveryGraphRank, 0%nat).
Definition waiting_threads : Threads :=
  [MkThread [(TypeRegistry, 0%nat)] (Some graph_mutex); MkThread [(WaitableLocal, 3%nat); graph_mutex] None].

Lemma waiting_threads_reachable : reachable idle_threads lock_step waiting_threads.
Proof.
  assert (Hfree : forall m ts, forallb (fun t => negb (bool_decide (m ∈ locks t))) ts = true -> ~ is_held m ts).
  { intros m ts Hb (t & Ht & Hm)%Exists_exists. rewrite forallb_forall in Hb.
    specialize (Hb t). apply list_elem_of_In in Ht. rewrite bool_decide_eq_true_2 in Hb by done. by apply Hb in Ht. }
  set (type0 := (TypeRegistry, 0%nat)). set (local3 := (WaitableLocal, 3%nat)).
  set (s0 := [MkThread [] None; MkThread [] None]). set (s1 := [MkThread [type0] None; MkThread [] None]).
  set (s2 := [MkThread [type0] None; MkThread [] (Some graph_mutex)]).
  set (s3 := [MkThread [type0] None; MkThread [graph_mutex] None]).
  set (s4 := [MkThread [type0] None; MkThread [local3; graph_mutex] None]).
  assert (H0 : reachable idle_threads lock_step s0) by (apply reach_init; by repeat constructor).
  assert (H1 : reachable idle_threads lock_step s1)
    by exact (reach_step _ _ _ _ H0 (step_try_lock s0 0 [] type0 eq_refl eq_refl (Hfree type0 s0 eq_refl))).
  assert (H2 : reachable idle_threads lock_step s2)
    by exact (reach_step _ _ _ _ H1 (step_request s1 1 [] graph_mutex eq_refl eq_refl)).
  assert (H3 : reachable idle_threads lock_step s3)
    by exact (reach_step _ _ _ _ H2 (step_lock s2 1 [] graph_mutex eq_refl (Hfree graph_mutex s2 eq_refl))).
  assert (H4 : reachable idle_threads lock_step s4)
    by exact (reach_step _ _ _ _ H3 (step_try_lock s3 1 [graph_mutex] local3 eq_refl eq_refl (Hfree local3 s3 eq_refl))).
  exact (reach_step _ _ _ _ H4 (step_request s4 0 [type0] graph_mutex eq_refl eq_refl)).
Qed.

Lemma no_deadlock_witness :
  exists j u m', waiting_threads !! j = Some u /\ j <> 0%nat /\ m' ∈ locks u /\ 5 <= rank_value m'.1 /\
    (wanted u = None \/ exists m'', wanted u = Some m'' /\ ~ is_held m'' waiting_threads).
Proof.
  apply (no_deadlock waiting_threads 0 (MkThread [(TypeRegistry, 0%nat)] (Some graph_mutex)) graph_mutex);
    [apply waiting_threads_reachable | reflexivity | reflexivity |].
  apply Exists_cons_tl, Exists_cons_hd. right. left.
Defined.
