(* ===== verification/Contexts.v ===== *)
(** * Contexts: operations, shutdown and teardown of a Context

    Models [impl::Context] (src/impl/context.hpp, context_impl.cpp) but for its
    type and topic registries ([Registries]) and the metadata transport
    ([Metadata]): the admission of operations, shutdown with its callbacks,
    the destruction of the participant, and the factories of [Context::Impl].
    Every critical section is a step; [shutdown_step] interleaves them.  The
    callbacks of [shutdown] end; what they do is not modelled. *)

From S2P Require Import Prelude Clock Timer Arguments Names Waitables.
From stdpp Require Import gmap.
Local Open Scope Z_scope.

(** ** The runtime state *)

Record ShutdownChild := MkChild { callback : nat; requested : bool }.

Inductive ShutdownExecutionState := Running | RequestingChildren | Draining | Complete.

#[export] Instance ShutdownExecutionState_eq_dec : EqDecision ShutdownExecutionState.
Proof. solve_decision. Defined.

Record ContextState := MkContext {
  shutdown_ : bool;
  shutdown_complete : bool;
  active_operations : Z;
  next_shutdown_callback_id : Z;
  shutdown_children : gmap Z ShutdownChild;
  shutdown_execution_state : ShutdownExecutionState }.

Definition new_context : ContextState := MkContext false false 0 1 ∅ Running.

(** [try_acquire_operation]: whether the guard is engaged. *)
Definition try_acquire_operation (c : ContextState) : bool * ContextState :=
  if shutdown_ c then (false, c)
  else (true, MkContext (shutdown_ c) (shutdown_complete c) (wrap_u64 (active_operations c + 1))
                (next_shutdown_callback_id c) (shutdown_children c) (shutdown_execution_state c)).

(** [~OperationGuard] of an engaged guard; [true] if it notifies. *)
Definition end_operation (c : ContextState) : bool * ContextState :=
  let n := wrap_u64 (active_operations c - 1) in
  (n =? 0, MkContext (shutdown_ c) (shutdown_complete c) n (next_shutdown_callback_id c)
             (shutdown_children c) (shutdown_execution_state c)).

Definition register_shutdown_callback (f : nat) (c : ContextState) : Z * ContextState :=
  if shutdown_ c || (next_shutdown_callback_id c =? 0) then (0, c)
  else
    let id := next_shutdown_callback_id c in
    (id, MkContext (shutdown_ c) (shutdown_complete c) (active_operations c) (wrap_u64 (id + 1))
           (<[id := MkChild f false]> (shutdown_children c)) (shutdown_execution_state c)).

Definition unregister_shutdown_callback (id : Z) (c : ContextState) : ContextState :=
  if id =? 0 then c
  else MkContext (shutdown_ c) (shutdown_complete c) (active_operations c) (next_shutdown_callback_id c)
         (delete id (shutdown_children c)) (shutdown_execution_state c).

(** ** The critical sections of [shutdown] *)

(** The first: [false] for a caller that waits for the one already under way,
    until [shutdown_complete]. *)
Definition shutdown_begin (c : ContextState) : bool * ContextState :=
  if shutdown_ c then (false, c)
  else (true, MkContext true (shutdown_complete c) (active_operations c) (next_shutdown_callback_id c)
                (shutdown_children c) (shutdown_execution_state c)).

(** The second takes the children, all of them requested. *)
Definition shutdown_commit (c : ContextState) : gmap Z ShutdownChild * ContextState :=
  ((fun child => MkChild (callback child) true) <$> shutdown_children c,
   MkContext (shutdown_ c) (shutdown_complete c) (active_operations c) (next_shutdown_callback_id c) ∅
     RequestingChildren).

(** After the last callback. *)
Definition shutdown_drain (c : ContextState) : ContextState :=
  MkContext (shutdown_ c) (shutdown_complete c) (active_operations c) (next_shutdown_callback_id c)
    (shutdown_children c) Complete.

(** The last: [None] while operations run and it waits. *)
Definition shutdown_finish (c : ContextState) : option ContextState :=
  if active_operations c =? 0 then
    Some (MkContext (shutdown_ c) true (active_operations c) (next_shutdown_callback_id c)
            (shutdown_children c) (shutdown_execution_state c))
  else None.

(** ** Interleavings *)

(** Where the thread that shuts the Context down is. *)
Inductive Shutter :=
  | NotBegun
  | Begun
  | Calling (rest : list (Z * ShutdownChild))
  | Drain
  | Returned.

(** [operations] guards are engaged; of the callback ids that were [given],
    the [withdrawn] ones were unregistered in time and the [invoked] ones
    called. *)
Record Shutdown := MkShutdown {
  context : ContextState; operations : nat; shutter : Shutter;
  given : list Z; withdrawn : list Z; invoked : list Z }.

Definition new_shutdown : Shutdown := MkShutdown new_context 0 NotBegun [] [] [].

Section Interleaving.
Context `{!HashOrder Z ShutdownChild}.

Inductive shutdown_step : Shutdown -> Shutdown -> Prop :=
  | sd_acquire c c' n s g w v :
      try_acquire_operation c = (true, c') -> Z.of_nat (S n) <= UINT64_MAX ->
      shutdown_step (MkShutdown c n s g w v) (MkShutdown c' (S n) s g w v)
  | sd_end c b c' n s g w v :
      end_operation c = (b, c') -> shutdown_step (MkShutdown c (S n) s g w v) (MkShutdown c' n s g w v)
  | sd_register c f id c' n s g w v :
      register_shutdown_callback f c = (id, c') -> id <> 0 ->
      shutdown_step (MkShutdown c n s g w v) (MkShutdown c' n s (g ++ [id]) w v)
  | sd_unregister c id n s g w v :
      shutdown_step (MkShutdown c n s g w v)
        (MkShutdown (unregister_shutdown_callback id c) n s g
           (if decide (id <> 0 /\ is_Some (shutdown_children c !! id)) then id :: w else w) v)
  | sd_begin c c' n g w v :
      shutdown_begin c = (true, c') ->
      shutdown_step (MkShutdown c n NotBegun g w v) (MkShutdown c' n Begun g w v)
  | sd_commit c children c' n g w v :
      shutdown_commit c = (children, c') ->
      shutdown_step (MkShutdown c n Begun g w v) (MkShutdown c' n (Calling (hash_order children)) g w v)
  | sd_call c id child rest n g w v :
      shutdown_step (MkShutdown c n (Calling ((id, child) :: rest)) g w v)
        (MkShutdown c n (Calling rest) g w (v ++ [id]))
  | sd_drain c n g w v :
      shutdown_step (MkShutdown c n (Calling []) g w v) (MkShutdown (shutdown_drain c) n Drain g w v)
  | sd_finish c c' n g w v :
      shutdown_finish c = Some c' ->
      shutdown_step (MkShutdown c n Drain g w v) (MkShutdown c' n Returned g w v).

(** The callbacks that are still to be called. *)
Definition to_call (r : Shutdown) : list Z :=
  match shutter r with
  | NotBegun | Begun => (map_to_list (shutdown_children (context r))).*1
  | Calling rest => rest.*1
  | Drain | Returned => []
  end.

Record shutdown_inv (r : Shutdown) : Prop := {
  si_active : active_operations (context r) = Z.of_nat (operations r);
  si_bound : Z.of_nat (operations r) <= UINT64_MAX;
  si_flag : shutdown_ (context r) = true <-> shutter r <> NotBegun;
  si_complete : shutdown_complete (context r) = true <-> shutter r = Returned;
  si_returned : shutter r = Returned -> operations r = O;
  si_next : next_shutdown_callback_id (context r) = 0 \/
    Forall (fun id => id < next_shutdown_callback_id (context r)) (given r);
  si_range : 0 <= next_shutdown_callback_id (context r) <= UINT64_MAX;
  si_taken : shutter r = NotBegun \/ shutter r = Begun \/ shutdown_children (context r) = ∅;
  si_nodup : NoDup (given r);
  si_given : given r ≡ₚ withdrawn r ++ invoked r ++ to_call r }.

Lemma to_call_requested (m : gmap Z ShutdownChild) (f : ShutdownChild -> ShutdownChild) :
  (hash_order (f <$> m)).*1 ≡ₚ (map_to_list m).*1.
Proof.
  rewrite hash_order_perm, map_to_list_fmap, <- list_fmap_compose.
  by rewrite (list_fmap_ext _ fst) by (by intros ? []).
Qed.

Lemma children_delete (m : gmap Z ShutdownChild) id child :
  m !! id = Some child -> (map_to_list m).*1 ≡ₚ id :: (map_to_list (delete id m)).*1.
Proof. intros Hm. by rewrite <- (map_to_list_delete m id child Hm). Qed.

(** The goals about the shutter that remain in a step that moves it. *)
Ltac shutter_goals :=
  try done; try (by split); try (by left); try (by right; left); try (by right; right);
  try (right; right; match goal with H : _ \/ _ \/ _ = ∅ |- _ => by destruct H as [?|[?|?]] end);
  try match goal with H : _ <-> _ |- _ <-> _ => rewrite H; by split end.

Lemma shutdown_step_inv r r' : shutdown_inv r -> shutdown_step r r' -> shutdown_inv r'.
Proof.
  intros [Ha Hb Hf Hc Hr Hn Hrg Ht Hd Hg]. destruct 1 as [c c' n s g w v Hq Hle|c b c' n s g w v Hq|c f id c' n s g w v Hq Hid
    |c id n s g w v|c c' n g w v Hq|c ch c' n g w v Hq|c id ch rest n g w v|c n g w v|c c' n g w v Hq]; simpl in *.
  - unfold try_acquire_operation in Hq. destruct (shutdown_ c) eqn:Hs; [done|]. injection Hq as <-.
    assert (s = NotBegun) as -> by (destruct s; try done; exfalso; naive_solver).
    constructor; simpl; try done; rewrite Ha, wrap_u64_small; unfold_ints; lia.
  - unfold end_operation in Hq. injection Hq as _ <-.
    constructor; simpl; try done; [rewrite Ha, wrap_u64_small; unfold_ints; lia | lia |].
    intros Hret. specialize (Hr Hret). lia.
  - unfold register_shutdown_callback in Hq. destruct (shutdown_ c) eqn:Hs; [by injection Hq as <- _|].
    destruct (Z.eqb_spec (next_shutdown_callback_id c) 0) as [|Hne]; [by injection Hq as <- _|].
    injection Hq as <- <-. assert (s = NotBegun) as -> by (destruct s; try done; exfalso; naive_solver).
    destruct Hn as [?|Hn]; [done|]. rewrite Forall_forall in Hn.
    assert (Hfresh : next_shutdown_callback_id c ∉ g) by (intros Hin; specialize (Hn _ Hin); lia).
    constructor; simpl; try done.
    + destruct (decide (next_shutdown_callback_id c = UINT64_MAX)) as [->|Hmax]; [by left|]. right.
      rewrite wrap_u64_small by (revert Hrg Hmax; unfold_ints; lia). apply Forall_forall.
      intros x [Hx|Hx%list_elem_of_singleton]%elem_of_app; [specialize (Hn x Hx)|]; lia.
    + apply wrap_u64_range.
    + by left.
    + apply NoDup_app. split_and!; [done | | apply NoDup_singleton].
      by intros x Hx ->%list_elem_of_singleton.
    + unfold to_call in *. simpl in *. rewrite map_to_list_insert.
      * rewrite fmap_cons, Hg. simpl. by rewrite <- !Permutation_middle, app_nil_r.
      * apply eq_None_not_Some. intros [child Hin]. apply Hfresh. rewrite Hg.
        apply elem_of_app. right. apply elem_of_app. right.
        apply list_elem_of_fmap. exists (next_shutdown_callback_id c, child). split; [done|].
        by apply elem_of_map_to_list.
  - unfold unregister_shutdown_callback. destruct (Z.eqb_spec id 0) as [->|Hid]; [rewrite decide_False by tauto; by constructor|].
    destruct (decide (id <> 0 /\ is_Some (shutdown_children c !! id))) as [[_ [child Hch]]|Hno].
    + assert (Hs : s = NotBegun \/ s = Begun) by (destruct Ht as [?|[?|Ht]]; [by left | by right | by rewrite Ht in Hch]).
      constructor; simpl; try done; [tauto|]. unfold to_call in *.
      destruct Hs as [-> | ->]; simpl in *; rewrite Hg, (children_delete _ _ _ Hch); by rewrite <- !Permutation_middle.
    + assert (Hch : shutdown_children c !! id = None) by (apply eq_None_not_Some; tauto).
      rewrite (delete_id _ _ Hch). destruct c. by constructor.
  - unfold shutdown_begin in Hq. destruct (shutdown_ c) eqn:Hs; [done|]. injection Hq as <-.
    constructor; simpl; shutter_goals.
  - unfold shutdown_commit in Hq. injection Hq as <- <-. constructor; simpl; shutter_goals.
    unfold to_call in *. simpl in *. by rewrite to_call_requested.
  - constructor; simpl; shutter_goals. unfold to_call in *. simpl in *. by rewrite Hg, <- !app_assoc.
  - constructor; simpl; shutter_goals.
  - unfold shutdown_finish in Hq. destruct (Z.eqb_spec (active_operations c) 0); [|done]. injection Hq as <-.
    constructor; simpl; shutter_goals; intros; lia.
Qed.

Definition shutdown_init (r : Shutdown) : Prop := r = new_shutdown.

Lemma shutdown_reachable_inv r : reachable shutdown_init shutdown_step r -> shutdown_inv r.
Proof.
  apply reachable_invariant; [|apply shutdown_step_inv]. intros s ->.
  constructor; simpl; try done; [by right | by left | constructor].
Qed.

(** What is left to do once the shutdown has begun. *)
Definition shutdown_work (r : Shutdown) : nat :=
  (match shutter r with
   | NotBegun => 4 + size (shutdown_children (context r))
   | Begun => 3 + size (shutdown_children (context r))
   | Calling rest => 2 + length rest
   | Drain => 1
   | Returned => 0
   end + operations r)%nat.
End Interleaving.

(** C15: Shutting down: once [shutdown] has returned, to whichever caller, no
    operation runs and none is admitted any more, and every callback whose
    registration succeeded has been called exactly once, unless it was
    unregistered before the shutdown took it. *)
Theorem shutdown_complete_safe `{!HashOrder Z ShutdownChild} r :
  reachable shutdown_init shutdown_step r -> shutdown_complete (context r) = true ->
  operations r = O /\ active_operations (context r) = 0 /\
  (try_acquire_operation (context r)).1 = false /\
  (forall f, (register_shutdown_callback f (context r)).1 = 0) /\
  NoDup (given r) /\ given r ≡ₚ withdrawn r ++ invoked r.
Proof.
  intros Hr Hc. destruct (shutdown_reachable_inv r Hr) as [Ha _ Hf Hcomp Hret _ _ _ Hd Hg].
  apply Hcomp in Hc. specialize (Hret Hc). rewrite Hret in Ha.
  assert (Hs : shutdown_ (context r) = true) by (apply Hf; by rewrite Hc).
  unfold try_acquire_operation, register_shutdown_callback. rewrite Hs.
  split_and!; try done. unfold to_call in Hg. rewrite Hc in Hg. by rewrite app_nil_r in Hg.
Qed.

(** Shutting down ends: from its beginning on no step adds to the work
    left (operations that run, callbacks to be called, sections to go), and
    until it is complete some step does a part of it, as long as the
    operations and the callbacks end. *)
Theorem shutdown_finishes `{!HashOrder Z ShutdownChild} r :
  reachable shutdown_init shutdown_step r -> shutter r <> NotBegun ->
  (forall r', shutdown_step r r' -> shutter r' <> NotBegun /\ (shutdown_work r' <= shutdown_work r)%nat) /\
  (shutdown_complete (context r) = true \/
   exists r', shutdown_step r r' /\ (shutdown_work r' < shutdown_work r)%nat).
Proof.
  intros Hr Hs. destruct (shutdown_reachable_inv r Hr) as [Ha _ Hf Hcomp _ _ _ Ht _ _]. split.
  - assert (Hflag : shutdown_ (context r) = true) by (by apply Hf).
    intros r' Hstep. destruct Hstep as [c c' n s g w v Hq Hle|c b c' n s g w v Hq|c f id c' n s g w v Hq Hid
      |c id n s g w v|c c' n g w v Hq|c ch c' n g w v Hq|c id ch rest n g w v|c n g w v|c c' n g w v Hq]; simpl in *.
    + unfold try_acquire_operation in Hq. by rewrite Hflag in Hq.
    + injection Hq as _ <-. unfold shutdown_work. simpl. split; [done|]. destruct s; simpl; lia.
    + unfold register_shutdown_callback in Hq. rewrite Hflag in Hq. by injection Hq as <- _.
    + split; [done|]. unfold shutdown_work, unregister_shutdown_callback. simpl.
      destruct (id =? 0); simpl; [lia|].
      assert (size (delete id (shutdown_children c)) <= size (shutdown_children c))%nat; [|destruct s; simpl; lia].
      rewrite map_size_delete. destruct (shutdown_children c !! id); unfold Datatypes.id; lia.
    + done.
    + unfold shutdown_commit in Hq. injection Hq as <- <-. split; [done|]. unfold shutdown_work. simpl.
      rewrite hash_order_length, map_size_fmap. lia.
    + unfold shutdown_work. simpl. split; [done | lia].
    + unfold shutdown_work. simpl. split; [done | lia].
    + unfold shutdown_work. simpl. split; [done | lia].
  - destruct r as [c n s g w v]. simpl in *. destruct s as [| |[|[id ch] rest]| |]; try done; try (left; by apply Hcomp).
    + right. eexists. split; [by apply sd_commit|]. unfold shutdown_work. simpl.
      rewrite hash_order_length, map_size_fmap. lia.
    + right. eexists. split; [apply sd_drain|]. unfold shutdown_work. simpl. lia.
    + right. eexists. split; [apply sd_call|]. unfold shutdown_work. simpl. lia.
    + right. destruct n as [|n].
      * eexists. split; [apply sd_finish; unfold shutdown_finish; by rewrite Ha|]. unfold shutdown_work. simpl. lia.
      * eexists. split; [by eapply sd_end|]. unfold shutdown_work. simpl. lia.
Qed.

(** ** A run *)

(** An operation runs, two callbacks are registered, one is withdrawn, and the
    shutdown has begun. *)
Definition begun_context : ContextState := MkContext true false 1 3 {[2 := MkChild 8 false]} Running.
Definition begun_run : Shutdown := MkShutdown begun_context 1 Begun [1; 2] [1] [].

Lemma begun_reachable `{!HashOrder Z ShutdownChild} : reachable shutdown_init shutdown_step begun_run.
Proof.
  assert (reachable shutdown_init shutdown_step new_shutdown) as H by (by apply reach_init).
  extend H with (eapply sd_acquire; [reflexivity | done]).
  extend H with (eapply (sd_register _ 7); [reflexivity | done]).
  extend H with (eapply (sd_register _ 8); [reflexivity | done]).
  extend H with (eapply (sd_unregister _ 1)).
  extend H with (eapply sd_begin; reflexivity).
  assert (delete 1 (<[2 := MkChild 8 false]> (<[1 := MkChild 7 false]> ∅)) =@{gmap Z ShutdownChild} {[2 := MkChild 8 false]}) as Heq
    by reflexivity.
  exact H.
Qed.

Definition complete_run : Shutdown :=
  MkShutdown (MkContext true true 0 3 ∅ Complete) 0 Returned [1; 2] [1] [2].

Lemma complete_reachable : reachable shutdown_init (shutdown_step (HashOrder0 := map_to_list_order Z ShutdownChild)) complete_run.
Proof.
  pose proof (begun_reachable (HashOrder0 := map_to_list_order Z ShutdownChild)) as H.
  extend H with (eapply sd_commit; reflexivity).
  extend H with (apply (sd_call _ 2 (MkChild 8 true) [])).
  extend H with (apply sd_drain).
  extend H with (eapply sd_end; reflexivity).
  extend H with (eapply sd_finish; reflexivity).
  exact H.
Qed.

Lemma shutdown_complete_safe_witness :
  operations complete_run = O /\ active_operations (context complete_run) = 0 /\
  (try_acquire_operation (context complete_run)).1 = false /\
  (forall f, (register_shutdown_callback f (context complete_run)).1 = 0) /\
  NoDup (given complete_run) /\ given complete_run ≡ₚ withdrawn complete_run ++ invoked complete_run.
Proof. apply (shutdown_complete_safe complete_run); [apply complete_reachable | reflexivity]. Defined.

Lemma shutdown_finishes_witness :
  (forall r', shutdown_step begun_run r' ->
     shutter r' <> NotBegun /\ (shutdown_work r' <= shutdown_work begun_run)%nat) /\
  (shutdown_complete (context begun_run) = true \/
   exists r', shutdown_step begun_run r' /\ (shutdown_work r' < shutdown_work begun_run)%nat).
Proof. apply (shutdown_finishes begun_run); [apply begun_reachable | done]. Defined.

(** ** Teardown of the participant *)

(** Where the participant and its listener end up: with Fast DDS's consent
    deleted, in the process-wide quarantine, or, for a listener, freed. *)
Inductive ParticipantEnd := NoParticipant | ParticipantDeleted | ParticipantRetained.
Inductive ListenerEnd := NoListener | ListenerFreed (drained : bool) | ListenerRetained.

(** Outcomes of the Fast DDS calls; [false] for an error or an exception. *)
Record TeardownCalls := MkCalls { listener_detached : bool; contained_deleted : bool; participant_deleted : bool }.

(** [~Context]. *)
Definition destroy_context (participant listener : bool) (t : TeardownCalls) : ParticipantEnd * ListenerEnd :=
  if negb participant then (NoParticipant, if listener then ListenerFreed false else NoListener)
  else
    let safe := if listener then listener_detached t else true in
    if negb safe then (ParticipantRetained, if listener then ListenerRetained else NoListener)
    else if contained_deleted t && participant_deleted t then
      (ParticipantDeleted, if listener then ListenerFreed true else NoListener)
    else (ParticipantRetained, if listener then ListenerRetained else NoListener).

(** [~ParticipantCreationGuard] of a guard that was not released, and then the
    listener, which its owner frees unless it was retained. *)
Definition abandon_participant (t : TeardownCalls) : ParticipantEnd * ListenerEnd :=
  if contained_deleted t && participant_deleted t then
    (ParticipantDeleted, ListenerFreed (listener_detached t))
  else if negb (listener_detached t) then (ParticipantRetained, ListenerRetained)
  else (ParticipantRetained, ListenerFreed true).

(** [Context::Impl::create]: what each call to Fast DDS gives. *)
Record CreationCalls := MkCreation {
  participant_created : bool; publisher_created : bool; subscriber_created : bool;
  writer_qos_captured : bool; reader_qos_captured : bool; metadata_installed : Result unit }.

Definition create_context (k : CreationCalls) (t : TeardownCalls)
    : Result ContextState * option (ParticipantEnd * ListenerEnd) :=
  if negb (participant_created k) then
    (fail DDSError "Fast DDS failed to create a DomainParticipant", Some (NoParticipant, ListenerFreed false))
  else if negb (publisher_created k) || negb (subscriber_created k) then
    (fail DDSError "Fast DDS failed to create a Context container", Some (abandon_participant t))
  else if negb (writer_qos_captured k) || negb (reader_qos_captured k) then
    (fail DDSError "Fast DDS failed to capture Context QoS baselines", Some (abandon_participant t))
  else
    match metadata_installed k with
    | failure e => (failure e, Some (destroy_context true true t))
    | success _ => (success new_context, None)
    end.

(** A freed listener is one that Fast DDS cannot call: detached and drained,
    or its participant is gone. *)
Definition listener_safe (e : ParticipantEnd * ListenerEnd) : Prop :=
  match e with
  | (NoParticipant, _) | (ParticipantDeleted, _) => True
  | (ParticipantRetained, ListenerFreed drained) => drained = true
  | (ParticipantRetained, _) => True
  end.

(** Neither the destructor nor an abandoned creation leaves Fast DDS with a
    participant whose listener was freed under it, and no participant is
    deleted before its contained entities. *)
Lemma teardown_safe participant listener t :
  listener_safe (destroy_context participant listener t) /\ listener_safe (abandon_participant t) /\
  ((destroy_context participant listener t).1 = ParticipantDeleted -> contained_deleted t = true) /\
  ((abandon_participant t).1 = ParticipantDeleted -> contained_deleted t = true).
Proof. by destruct participant, listener, t as [[] [] []]. Qed.

Lemma create_context_safe k t r e :
  create_context k t = (r, e) ->
  match e with
  | None => r = success new_context
  | Some e => has_value r = false /\ listener_safe e
  end.
Proof.
  unfold create_context. pose proof (teardown_safe true true t) as (Hd & Ha & _). intros H.
  destruct (participant_created k); simpl in H; [|by simplify_eq].
  destruct (_ || _); simpl in H; [by simplify_eq|]. destruct (_ || _); simpl in H; [by simplify_eq|].
  destruct (metadata_installed k); by simplify_eq.
Qed.

(** ** Factories of [Context::Impl] *)

Definition context_shut_down {T} : Result T := fail ContextShutdown "Context is shut down".

(** The identity of [create_node] is [Names.node_identity]; [registered] is
    [graph_registered()] of the new Node. *)
Definition create_node (global : Arguments) (options : NodeOptions) (operation registered : bool)
    : Result NodeIdentity :=
  let? identity := node_identity global options in
  if negb operation then context_shut_down
  else if negb registered then fail DDSError "Failed to register Node in the discovery graph"
  else success identity.

Definition create_clock (operation : bool) (type : ClockType) : Result ClockState :=
  if negb operation then context_shut_down else success (make_clock type).

(** [same_context]: the clock belongs to this Context. *)
Definition create_timer (operation same_context : bool) (env : Readings) (c : ClockState)
    (period : Z) (autostart : bool) : Result TimerState :=
  if period <? 0 then fail InvalidArgument "Timer period must not be negative"
  else if negb operation then context_shut_down
  else if negb same_context then fail InvalidArgument "Clock belongs to another Context"
  else success (make_timer env c period autostart).

Definition create_guard_condition (operation : bool) : Result GuardConditionState :=
  if negb operation then context_shut_down else success new_guard.

(** Every factory refuses a Context that is shut down. *)
Lemma factories_refuse c global options type same env clock period autostart :
  shutdown_ c = true ->
  let operation := (try_acquire_operation c).1 in
  has_value (create_node global options operation true) = false /\
  code_of (create_clock operation type) = Some ContextShutdown /\
  has_value (create_timer operation same env clock period autostart) = false /\
  code_of (create_guard_condition operation) = Some ContextShutdown.
Proof.
  intros Hs. unfold try_acquire_operation. rewrite Hs. simpl. split_and!; try done.
  - unfold create_node. by destruct (node_identity _ _).
  - unfold create_timer. by destruct (period <? 0).
Qed.
