(* ===== verification/Registries.v ===== *)
(** * Registries: the DDS types and topics of a Context

    Models [acquire_type], [acquire_topic], [release_topic], [release_type]
    and the handles [TypeRegistration] and [Topic] (src/impl/topic.hpp,
    context.hpp, context_impl.cpp).  Endpoints of one Context share the
    registration of a type and the DDS topic; each registry counts references
    and drops its lock around the calls to Fast DDS.

    Each critical section is a function of the registry.  [registry_step]
    interleaves any number of threads: a [Token] is a thread between two
    sections, a live [Topic], or a reference that was given up for good
    ([disarm]).  A call to Fast DDS and the section that follows it are one
    step, since until then the entry's phase keeps the others waiting.

    [topics_have_types]: no DDS topic ever exists without its registered type.
    [registry_progress]: whoever waits, waits for a thread that can go on. *)

From S2P Require Import Prelude Qos.
From stdpp Require Import gmap strings.
Local Open Scope Z_scope.

(** ** The registries *)

Inductive RegistryEntryPhase := Creating | Active | Retiring | Orphaned.

#[export] Instance RegistryEntryPhase_eq_dec : EqDecision RegistryEntryPhase.
Proof. solve_decision. Defined.

(** [pubsub_type] is the C++ type behind the wire type name. *)
Record RegisteredType := MkType {
  pubsub_type : nat; type_phase : RegistryEntryPhase; type_count : Z }.

Record RegisteredTopic := MkTopic {
  wire_type_name : string; topic_phase : RegistryEntryPhase; topic_count : Z }.

Notation Types := (gmap string RegisteredType).
Notation Topics := (gmap string RegisteredTopic).

(** What a call to Fast DDS does; [Threw] may or may not have had its effect. *)
Inductive Call := Done | Refused (c : ReturnCode) | Threw.

(** What a first section finds. *)
Inductive Lookup := Create | Shared | Error (e : Prelude.Error) | Blocked.

(** The first section of [acquire_type], one turn of its loop. *)
Definition acquire_type_lookup (name : string) (binding : nat) (ts : Types) : Lookup * Types :=
  match ts !! name with
  | None => (Create, <[name := MkType binding Creating 0]> ts)
  | Some e =>
      if negb (pubsub_type e =? binding)%nat then
        (Error (MkError TypeMismatch "DDS wire type name has a different binding"), ts)
      else
        match type_phase e with
        | Active => (Shared, <[name := MkType (pubsub_type e) Active (wrap_u64 (type_count e + 1))]> ts)
        | Orphaned => (Error (MkError DDSError "DDS type registration context is indeterminate"), ts)
        | Creating | Retiring => (Blocked, ts)
        end
  end.

(** After [register_type]. *)
Definition acquire_type_done (name : string) (call : Call) (ts : Types) : Types :=
  match ts !! name with
  | None => ts
  | Some e =>
      match call with
      | Done => <[name := MkType (pubsub_type e) Active 1]> ts
      | Refused _ => delete name ts
      | Threw => <[name := MkType (pubsub_type e) Orphaned (type_count e)]> ts
      end
  end.

(** The first section of [release_type]: whether to unregister. *)
Definition release_type_begin (name : string) (ts : Types) : bool * Types :=
  match ts !! name with
  | None => (false, ts)
  | Some e =>
      if type_count e =? 0 then (false, ts)
      else
        let n := type_count e - 1 in
        if negb (n =? 0) || negb (bool_decide (type_phase e = Active)) then
          (false, <[name := MkType (pubsub_type e) (type_phase e) n]> ts)
        else (true, <[name := MkType (pubsub_type e) Retiring n]> ts)
  end.

Definition release_type_done (name : string) (unregistered : bool) (ts : Types) : Types :=
  match ts !! name with
  | None => ts
  | Some e => if unregistered then delete name ts
              else <[name := MkType (pubsub_type e) Orphaned (type_count e)]> ts
  end.

(** The first section of [acquire_topic], one turn of its loop. *)
Definition acquire_topic_lookup (degraded : bool) (name type_name : string) (ts : Topics)
    : Lookup * Topics :=
  if degraded then (Error (MkError DDSError "DDS topic registry is degraded"), ts)
  else
    match ts !! name with
    | None => (Create, <[name := MkTopic type_name Creating 0]> ts)
    | Some e =>
        if negb (bool_decide (wire_type_name e = type_name)) then
          (Error (MkError TypeMismatch "DDS topic already has a different wire type"), ts)
        else
          match topic_phase e with
          | Active => (Shared, <[name := MkTopic (wire_type_name e) Active (wrap_u64 (topic_count e + 1))]> ts)
          | Orphaned => (Error (MkError DDSError "DDS topic creation context is indeterminate"), ts)
          | Creating | Retiring => (Blocked, ts)
          end
    end.

(** After [create_topic], which returns no code but a null pointer. *)
Definition acquire_topic_done (name : string) (call : Call) (ts : Topics) : Topics :=
  match ts !! name with
  | None => ts
  | Some e =>
      match call with
      | Done => <[name := MkTopic (wire_type_name e) Active 1]> ts
      | Refused _ => delete name ts
      | Threw => <[name := MkTopic (wire_type_name e) Orphaned (topic_count e)]> ts
      end
  end.

(** The first section of [release_topic]: [inl b] when it returns [b], [inr]
    when it goes on to delete the topic. *)
Definition release_topic_begin (name : string) (ts : Topics) : (bool + unit) * Topics :=
  match ts !! name with
  | None => (inl false, ts)
  | Some e =>
      if topic_count e =? 0 then (inl false, ts)
      else
        let n := topic_count e - 1 in
        if negb (n =? 0) || negb (bool_decide (topic_phase e = Active)) then
          (inl (bool_decide (topic_phase e = Active)),
           <[name := MkTopic (wire_type_name e) (topic_phase e) n]> ts)
        else (inr tt, <[name := MkTopic (wire_type_name e) Retiring n]> ts)
  end.

(** After [delete_topic]; [release_topic] returns [deleted]. *)
Definition release_topic_done (name : string) (deleted : bool) (ts : Topics) : Topics :=
  match ts !! name with
  | None => ts
  | Some e => if deleted then delete name ts
              else <[name := MkTopic (wire_type_name e) Orphaned (topic_count e)]> ts
  end.

(** ** Threads *)

(** The topic and the type a thread works on, and where it stands. *)
Inductive Token :=
  | Acquiring (topic type : string) (binding : nat)  (** before [acquire_type]'s first section *)
  | Registering (topic type : string)                (** inside [register_type] *)
  | Finding (topic type : string)                    (** before [acquire_topic]'s first section *)
  | CreatingTopic (topic type : string)              (** inside [create_topic] *)
  | Handle (topic type : string)                     (** a live [Topic] *)
  | DroppingTopic (topic type : string)              (** [Topic::reset], before [release_topic] *)
  | DeletingTopic (topic type : string)              (** inside [delete_topic] *)
  | DroppingType (type : string)                     (** before [release_type] *)
  | UnregisteringType (type : string)                (** inside [unregister_type] *)
  | Disarmed (type : string).                        (** a reference kept for good *)

Record Registry := MkRegistry {
  registered_types : Types; topics : Topics; tokens : list Token;
  dds_types : gset string;              (* what Fast DDS holds *)
  dds_topics : gmap string string }.    (* each topic with its type *)

(** [topic_registry_degraded_]: nothing in the code sets it. *)
Definition topic_registry_degraded : bool := false.

(** [acquire_topic] for an error or a lost type registration ends with the
    destruction of the registration, [DroppingType]. *)
Inductive registry_step : Registry -> Registry -> Prop :=
  | rs_start ts ps l dt dp t n b :
      registry_step (MkRegistry ts ps l dt dp) (MkRegistry ts ps (Acquiring t n b :: l) dt dp)
  | rs_type_create ts ps l1 l2 dt dp t n b ts' :
      acquire_type_lookup n b ts = (Create, ts') ->
      registry_step (MkRegistry ts ps (l1 ++ Acquiring t n b :: l2) dt dp)
        (MkRegistry ts' ps (l1 ++ Registering t n :: l2) dt dp)
  | rs_type_shared ts ps l1 l2 dt dp t n b ts' :
      acquire_type_lookup n b ts = (Shared, ts') ->
      Z.of_nat (length (l1 ++ l2)) < UINT64_MAX ->
      registry_step (MkRegistry ts ps (l1 ++ Acquiring t n b :: l2) dt dp)
        (MkRegistry ts' ps (l1 ++ Finding t n :: l2) dt dp)
  | rs_type_error ts ps l1 l2 dt dp t n b e ts' :
      acquire_type_lookup n b ts = (Error e, ts') ->
      registry_step (MkRegistry ts ps (l1 ++ Acquiring t n b :: l2) dt dp) (MkRegistry ts' ps (l1 ++ l2) dt dp)
  | rs_registered ts ps l1 l2 dt dp t n :
      registry_step (MkRegistry ts ps (l1 ++ Registering t n :: l2) dt dp)
        (MkRegistry (acquire_type_done n Done ts) ps (l1 ++ Finding t n :: l2) ({[n]} ∪ dt) dp)
  | rs_not_registered ts ps l1 l2 dt dp t n c :
      registry_step (MkRegistry ts ps (l1 ++ Registering t n :: l2) dt dp)
        (MkRegistry (acquire_type_done n (Refused c) ts) ps (l1 ++ l2) dt dp)
  | rs_register_threw ts ps l1 l2 dt dt' dp t n :
      dt' = dt \/ dt' = {[n]} ∪ dt ->
      registry_step (MkRegistry ts ps (l1 ++ Registering t n :: l2) dt dp)
        (MkRegistry (acquire_type_done n Threw ts) ps (l1 ++ l2) dt' dp)
  | rs_topic_create ts ps l1 l2 dt dp t n ps' :
      acquire_topic_lookup topic_registry_degraded t n ps = (Create, ps') ->
      registry_step (MkRegistry ts ps (l1 ++ Finding t n :: l2) dt dp)
        (MkRegistry ts ps' (l1 ++ CreatingTopic t n :: l2) dt dp)
  | rs_topic_shared ts ps l1 l2 dt dp t n ps' :
      acquire_topic_lookup topic_registry_degraded t n ps = (Shared, ps') ->
      Z.of_nat (length (l1 ++ l2)) < UINT64_MAX ->
      registry_step (MkRegistry ts ps (l1 ++ Finding t n :: l2) dt dp)
        (MkRegistry ts ps' (l1 ++ Handle t n :: l2) dt dp)
  | rs_topic_error ts ps l1 l2 dt dp t n e ps' :
      acquire_topic_lookup topic_registry_degraded t n ps = (Error e, ps') ->
      registry_step (MkRegistry ts ps (l1 ++ Finding t n :: l2) dt dp)
        (MkRegistry ts ps' (l1 ++ DroppingType n :: l2) dt dp)
  | rs_created ts ps l1 l2 dt dp t n :
      registry_step (MkRegistry ts ps (l1 ++ CreatingTopic t n :: l2) dt dp)
        (MkRegistry ts (acquire_topic_done t Done ps) (l1 ++ Handle t n :: l2) dt (<[t := n]> dp))
  | rs_not_created ts ps l1 l2 dt dp t n c :
      registry_step (MkRegistry ts ps (l1 ++ CreatingTopic t n :: l2) dt dp)
        (MkRegistry ts (acquire_topic_done t (Refused c) ps) (l1 ++ DroppingType n :: l2) dt dp)
  | rs_create_threw ts ps l1 l2 dt dp dp' t n :
      dp' = dp \/ dp' = <[t := n]> dp ->
      registry_step (MkRegistry ts ps (l1 ++ CreatingTopic t n :: l2) dt dp)
        (MkRegistry ts (acquire_topic_done t Threw ps) (l1 ++ Disarmed n :: l2) dt dp')
  | rs_reset ts ps l1 l2 dt dp t n :
      registry_step (MkRegistry ts ps (l1 ++ Handle t n :: l2) dt dp)
        (MkRegistry ts ps (l1 ++ DroppingTopic t n :: l2) dt dp)
  | rs_topic_kept ts ps l1 l2 dt dp t n b ps' :
      release_topic_begin t ps = (inl b, ps') ->
      registry_step (MkRegistry ts ps (l1 ++ DroppingTopic t n :: l2) dt dp)
        (MkRegistry ts ps' (l1 ++ (if b then DroppingType n else Disarmed n) :: l2) dt dp)
  | rs_topic_retired ts ps l1 l2 dt dp t n ps' :
      release_topic_begin t ps = (inr tt, ps') ->
      registry_step (MkRegistry ts ps (l1 ++ DroppingTopic t n :: l2) dt dp)
        (MkRegistry ts ps' (l1 ++ DeletingTopic t n :: l2) dt dp)
  | rs_deleted ts ps l1 l2 dt dp t n :
      registry_step (MkRegistry ts ps (l1 ++ DeletingTopic t n :: l2) dt dp)
        (MkRegistry ts (release_topic_done t true ps) (l1 ++ DroppingType n :: l2) dt (delete t dp))
  | rs_not_deleted ts ps l1 l2 dt dp dp' t n :
      dp' = dp \/ dp' = delete t dp ->
      registry_step (MkRegistry ts ps (l1 ++ DeletingTopic t n :: l2) dt dp)
        (MkRegistry ts (release_topic_done t false ps) (l1 ++ Disarmed n :: l2) dt dp')
  | rs_type_kept ts ps l1 l2 dt dp n ts' :
      release_type_begin n ts = (false, ts') ->
      registry_step (MkRegistry ts ps (l1 ++ DroppingType n :: l2) dt dp) (MkRegistry ts' ps (l1 ++ l2) dt dp)
  | rs_type_retired ts ps l1 l2 dt dp n ts' :
      release_type_begin n ts = (true, ts') ->
      registry_step (MkRegistry ts ps (l1 ++ DroppingType n :: l2) dt dp)
        (MkRegistry ts' ps (l1 ++ UnregisteringType n :: l2) dt dp)
  | rs_unregistered ts ps l1 l2 dt dp n :
      registry_step (MkRegistry ts ps (l1 ++ UnregisteringType n :: l2) dt dp)
        (MkRegistry (release_type_done n true ts) ps (l1 ++ l2) (dt ∖ {[n]}) dp)
  | rs_not_unregistered ts ps l1 l2 dt dt' dp n :
      dt' = dt \/ dt' = dt ∖ {[n]} ->
      registry_step (MkRegistry ts ps (l1 ++ UnregisteringType n :: l2) dt dp)
        (MkRegistry (release_type_done n false ts) ps (l1 ++ l2) dt' dp).

Definition empty_registry (r : Registry) : Prop := r = MkRegistry ∅ ∅ [] ∅ ∅.

(** ** Counting references *)

(** The type registration a token holds, and what it is inside of. *)
Definition type_ref (k : Token) : option string :=
  match k with
  | Finding _ n | CreatingTopic _ n | Handle _ n | DroppingTopic _ n | DeletingTopic _ n
  | DroppingType n | Disarmed n => Some n
  | _ => None
  end.
Definition registering (k : Token) : option string := match k with Registering _ n => Some n | _ => None end.
Definition unregistering (k : Token) : option string := match k with UnregisteringType n => Some n | _ => None end.
Definition disarmed (k : Token) : option string := match k with Disarmed n => Some n | _ => None end.
Definition topic_ref (k : Token) : option string :=
  match k with Handle t _ | DroppingTopic t _ => Some t | _ => None end.
Definition creating (k : Token) : option string := match k with CreatingTopic t _ => Some t | _ => None end.
Definition deleting (k : Token) : option string := match k with DeletingTopic t _ => Some t | _ => None end.

(** The topic a token is about, with the type it takes it to have. *)
Definition topic_claim (k : Token) : option (string * string) :=
  match k with
  | CreatingTopic t n | Handle t n | DroppingTopic t n | DeletingTopic t n => Some (t, n)
  | _ => None
  end.

Fixpoint tally (f : Token -> option string) (x : string) (l : list Token) : nat :=
  match l with
  | [] => 0
  | k :: l => (if decide (f k = Some x) then 1 else 0) + tally f x l
  end.

Lemma tally_app f x l1 l2 : tally f x (l1 ++ l2) = (tally f x l1 + tally f x l2)%nat.
Proof. induction l1; simpl; [done | lia]. Qed.

Lemma tally_bound f x l : (tally f x l <= length l)%nat.
Proof. induction l; simpl; [done|]. case_decide; lia. Qed.

Lemma tally_pos f x l k : k ∈ l -> f k = Some x -> (1 <= tally f x l)%nat.
Proof.
  intros Hin Hk. induction l as [|k' l IH]; [by apply not_elem_of_nil in Hin|]. simpl.
  apply elem_of_cons in Hin as [<-|Hin]; [rewrite decide_True by done; lia|]. specialize (IH Hin). lia.
Qed.

Lemma tally_elem f x l : (1 <= tally f x l)%nat -> exists k, k ∈ l /\ f k = Some x.
Proof.
  induction l as [|k l IH]; simpl; [lia|]. destruct (decide (f k = Some x)) as [Hk|Hk].
  - intros _. exists k. split; [left | done].
  - intros H. destruct IH as (k' & ? & ?); [lia|]. exists k'. split; [by right | done].
Qed.

(** ** The invariant *)

(** An entry against the references [refs] to it, the threads inside the call
    that makes it and the one that unmakes it, and Fast DDS. *)
Definition type_ok (e : option RegisteredType) (refs making unmaking : nat) (dds : Prop) : Prop :=
  match e with
  | None => refs = 0%nat /\ making = 0%nat /\ unmaking = 0%nat /\ ~ dds
  | Some e =>
      match type_phase e with
      | Creating => type_count e = 0 /\ refs = 0%nat /\ making = 1%nat /\ unmaking = 0%nat /\ ~ dds
      | Active => type_count e = Z.of_nat refs /\ (1 <= refs)%nat /\ making = 0%nat /\ unmaking = 0%nat /\ dds
      | Retiring => type_count e = 0 /\ refs = 0%nat /\ making = 0%nat /\ unmaking = 1%nat /\ dds
      | Orphaned => type_count e = 0 /\ refs = 0%nat /\ making = 0%nat /\ unmaking = 0%nat
      end
  end.

(** [kept n]: registrations of type [n] that were given up for good. *)
Definition topic_ok (e : option RegisteredTopic) (refs making unmaking : nat) (dds : option string)
    (kept : string -> nat) : Prop :=
  match e with
  | None => refs = 0%nat /\ making = 0%nat /\ unmaking = 0%nat /\ dds = None
  | Some e =>
      match topic_phase e with
      | Creating => topic_count e = 0 /\ refs = 0%nat /\ making = 1%nat /\ unmaking = 0%nat /\ dds = None
      | Active =>
          topic_count e = Z.of_nat refs /\ (1 <= refs)%nat /\ making = 0%nat /\ unmaking = 0%nat /\
          dds = Some (wire_type_name e)
      | Retiring =>
          topic_count e = 0 /\ refs = 0%nat /\ making = 0%nat /\ unmaking = 1%nat /\
          dds = Some (wire_type_name e)
      | Orphaned =>
          topic_count e = 0 /\ refs = 0%nat /\ making = 0%nat /\ unmaking = 0%nat /\
          (dds = None \/ dds = Some (wire_type_name e) /\ (1 <= kept (wire_type_name e))%nat)
      end
  end.

Definition types_inv (r : Registry) : Prop :=
  forall n, type_ok (registered_types r !! n) (tally type_ref n (tokens r)) (tally registering n (tokens r))
    (tally unregistering n (tokens r)) (n ∈ dds_types r).

Definition topics_inv (r : Registry) : Prop :=
  forall t, topic_ok (topics r !! t) (tally topic_ref t (tokens r)) (tally creating t (tokens r))
    (tally deleting t (tokens r)) (dds_topics r !! t) (fun n => tally disarmed n (tokens r)).

(** Whoever works on a topic knows its type. *)
Definition claims_inv (r : Registry) : Prop :=
  forall k t n, k ∈ tokens r -> topic_claim k = Some (t, n) ->
    exists e, topics r !! t = Some e /\ wire_type_name e = n.

(** Computes the tallies of a step's tokens. *)
Ltac tallies :=
  rewrite ?tally_app in *;
  cbn [tally type_ref registering unregistering disarmed topic_ref creating deleting] in *;
  rewrite ?tally_app in *;
  repeat match goal with
  | |- context [decide (None = Some ?x)] => rewrite (decide_False (P := None = Some x)) by done
  | H : context [decide (None = Some ?x)] |- _ => rewrite (decide_False (P := None = Some x)) in H by done
  end.

(** The sections, by what they find. *)
Lemma acquire_type_lookup_cases n b ts r ts' :
  acquire_type_lookup n b ts = (r, ts') ->
  match r with
  | Create => ts !! n = None /\ ts' = <[n := MkType b Creating 0]> ts
  | Shared => exists c, ts !! n = Some (MkType b Active c) /\ ts' = <[n := MkType b Active (wrap_u64 (c + 1))]> ts
  | Error e => ts' = ts /\ is_Some (ts !! n)
  | Blocked => ts' = ts /\ exists e, ts !! n = Some e /\ (type_phase e = Creating \/ type_phase e = Retiring)
  end.
Proof.
  unfold acquire_type_lookup. destruct (ts !! n) as [[b' ph c]|]; simpl; [|by intros; simplify_eq].
  destruct (Nat.eqb_spec b' b) as [->|]; simpl; [|intros; simplify_eq; by split].
  destruct ph; intros; simplify_eq; naive_solver.
Qed.

Lemma acquire_topic_lookup_cases t n ts r ts' :
  acquire_topic_lookup topic_registry_degraded t n ts = (r, ts') ->
  match r with
  | Create => ts !! t = None /\ ts' = <[t := MkTopic n Creating 0]> ts
  | Shared => exists c, ts !! t = Some (MkTopic n Active c) /\ ts' = <[t := MkTopic n Active (wrap_u64 (c + 1))]> ts
  | Error e => ts' = ts /\ is_Some (ts !! t)
  | Blocked => ts' = ts /\ exists e, ts !! t = Some e /\ wire_type_name e = n /\ (topic_phase e = Creating \/ topic_phase e = Retiring)
  end.
Proof.
  unfold acquire_topic_lookup. simpl. destruct (ts !! t) as [[n' ph c]|]; simpl; [|by intros; simplify_eq].
  destruct (bool_decide_reflect (n' = n)) as [->|]; simpl; [|intros; simplify_eq; by split].
  destruct ph; intros; simplify_eq; naive_solver.
Qed.

(** Steps that touch neither the type registry nor a reference to a type. *)
Lemma types_inv_same r r' :
  types_inv r -> registered_types r' = registered_types r -> dds_types r' = dds_types r ->
  (forall n f, f ∈ [type_ref; registering; unregistering] -> tally f n (tokens r') = tally f n (tokens r)) ->
  types_inv r'.
Proof.
  intros Hinv Ht Hd Hf n. unfold types_inv in Hinv. rewrite Ht, Hd, !Hf by set_solver. apply Hinv.
Qed.

Lemma release_type_begin_cases n ts r ts' :
  release_type_begin n ts = (r, ts') ->
  match ts !! n with
  | None => ts' = ts /\ r = false
  | Some e =>
      (type_count e = 0 /\ ts' = ts /\ r = false) \/
      (type_count e = 1 /\ type_phase e = Active /\ r = true /\ ts' = <[n := MkType (pubsub_type e) Retiring 0]> ts) \/
      (type_count e <> 0 /\ (type_count e <> 1 \/ type_phase e <> Active) /\ r = false /\
       ts' = <[n := MkType (pubsub_type e) (type_phase e) (type_count e - 1)]> ts)
  end.
Proof.
  unfold release_type_begin. destruct (ts !! n) as [[b ph c]|]; simpl; [|by intros; simplify_eq].
  destruct (Z.eqb_spec c 0); [intros; simplify_eq; by left|].
  destruct (Z.eqb_spec (c - 1) 0) as [Hc|]; simpl.
  - destruct (bool_decide_reflect (ph = Active)) as [->|]; simpl; intros; simplify_eq.
    + right; left. rewrite Hc. repeat split; (done || lia).
    + right; right. repeat split; (done || lia || by right).
  - intros; simplify_eq. right; right. repeat split; try done. left; lia.
Qed.

Lemma type_ok_iff e e' a a' b b' c c' (d d' : Prop) :
  e = e' -> a = a' -> b = b' -> c = c' -> (d <-> d') -> type_ok e a b c d -> type_ok e' a' b' c' d'.
Proof. intros -> -> -> -> Hd. unfold type_ok. destruct e' as [[? [] ?]|]; simpl; tauto. Qed.

(** At the name [n] that a step works on, or at another one. *)
Ltac at_type n x H :=
  destruct (decide (x = n)) as [->|?];
  [ rewrite ?lookup_insert_eq, ?lookup_delete_eq; rewrite ?(decide_True (P := Some n = Some n)) in * by done
  | rewrite ?(decide_False (P := Some n = Some x)) in * by congruence;
    revert H; apply type_ok_iff;
    [ by rewrite ?lookup_insert_ne, ?lookup_delete_ne by congruence | lia | lia | lia | set_solver ] ].

(** Closes a step at an entry in a known or unknown phase. *)
Ltac settle_entry :=
  simpl in *;
  repeat match goal with
  | ph : RegistryEntryPhase |- _ => destruct ph
  | H : _ \/ _ |- _ => destruct H
  end;
  rewrite ?(decide_True (P := Some _ = Some _)) in * by done;
  simpl in *; subst; try done; try lia; repeat split; try lia; try tauto; set_solver.

(** One step at one name. *)
Lemma types_step r r' : types_inv r -> registry_step r r' -> types_inv r'.
Proof.
  intros Hinv Hstep.
  assert (Hsame : registered_types r' = registered_types r -> dds_types r' = dds_types r ->
    (forall n f, f ∈ [type_ref; registering; unregistering] -> tally f n (tokens r') = tally f n (tokens r)) ->
    types_inv r') by (by apply types_inv_same).
  assert (Htally : forall l1 l2 k k' n f, f k = f k' -> tally f n (l1 ++ k :: l2) = tally f n (l1 ++ k' :: l2)).
  { intros l1 l2 k k' n f Hk. rewrite !tally_app. simpl. by rewrite Hk. }
  destruct Hstep; simpl in *;
    try (apply Hsame; [done | done |]; intros x f Hf; repeat (apply elem_of_cons in Hf as [->|Hf]); try (by apply Htally);
         by apply not_elem_of_nil in Hf).
  all: clear Hsame Htally; intros x; specialize (Hinv x); simpl in *; tallies.
  - done.
  - apply acquire_type_lookup_cases in H as (He & ->). at_type n x Hinv. rewrite He in Hinv. simpl in *. intuition lia.
  - apply acquire_type_lookup_cases in H as (c & He & ->). at_type n x Hinv. rewrite He in Hinv. simpl in *.
    pose proof (tally_bound type_ref n l1). pose proof (tally_bound type_ref n l2). rewrite length_app in *.
    rewrite wrap_u64_small by (unfold in_u64, UINT64_MAX in *; intuition lia). intuition lia.
  - apply acquire_type_lookup_cases in H as (-> & _). revert Hinv; apply type_ok_iff; (done || lia).
  - unfold acquire_type_done. destruct (ts !! n) as [[b ph c]|] eqn:He; at_type n x Hinv; rewrite He in *; settle_entry.
  - unfold acquire_type_done. destruct (ts !! n) as [[b ph c']|] eqn:He; at_type n x Hinv; rewrite He in *; settle_entry.
  - unfold acquire_type_done. destruct (ts !! n) as [[b ph c']|] eqn:He; at_type n x Hinv; rewrite He in *; settle_entry.
  - destruct b; simpl in *; tallies; by revert Hinv; apply type_ok_iff.
  - apply release_type_begin_cases in H. destruct (decide (x = n)) as [->|Hne].
    + destruct (ts !! n) as [[b ph c]|] eqn:He; simpl in H.
      * destruct H as [(? & -> & _)|[(_ & _ & ? & _)|(? & Hor & _ & ->)]]; [|done|].
        -- rewrite He. settle_entry.
        -- rewrite lookup_insert_eq. settle_entry.
      * destruct H as [-> _]. rewrite He. settle_entry.
    + assert (He : ts' !! x = ts !! x).
      { destruct (ts !! n); [|by destruct H as [-> _]].
        destruct H as [(_ & -> & _)|[(_ & _ & ? & _)|(_ & _ & _ & ->)]]; [done | done | by rewrite lookup_insert_ne]. }
      rewrite He. revert Hinv. rewrite ?(decide_False (P := Some n = Some x)) by congruence. by apply type_ok_iff.
  - apply release_type_begin_cases in H. destruct (ts !! n) as [[b ph c]|] eqn:He; simpl in H; [|by destruct H].
    destruct H as [(_ & _ & ?)|[(? & -> & _ & ->)|(_ & _ & ? & _)]]; [done| |done].
    at_type n x Hinv. rewrite He in *. settle_entry.
  - unfold release_type_done. destruct (ts !! n) as [[b ph c]|] eqn:He; at_type n x Hinv; rewrite He in *; settle_entry.
  - unfold release_type_done. destruct (ts !! n) as [[b ph c]|] eqn:He; at_type n x Hinv; rewrite He in *; settle_entry.
Qed.

Lemma topic_ok_mono e e' a a' b b' c c' d d' (k k' : string -> nat) :
  e = e' -> a = a' -> b = b' -> c = c' -> d = d' -> (forall n, (k n <= k' n)%nat) ->
  topic_ok e a b c d k -> topic_ok e' a' b' c' d' k'.
Proof.
  intros -> -> -> -> -> Hk. unfold topic_ok. destruct e' as [[w [] ?]|]; simpl; try tauto.
  specialize (Hk w). intuition lia.
Qed.

Lemma release_topic_begin_cases t ts r ts' :
  release_topic_begin t ts = (r, ts') ->
  match ts !! t with
  | None => ts' = ts /\ r = inl false
  | Some e =>
      (topic_count e = 0 /\ ts' = ts /\ r = inl false) \/
      (topic_count e = 1 /\ topic_phase e = Active /\ r = inr tt /\
       ts' = <[t := MkTopic (wire_type_name e) Retiring 0]> ts) \/
      (topic_count e <> 0 /\ (topic_count e <> 1 \/ topic_phase e <> Active) /\
       r = inl (bool_decide (topic_phase e = Active)) /\
       ts' = <[t := MkTopic (wire_type_name e) (topic_phase e) (topic_count e - 1)]> ts)
  end.
Proof.
  unfold release_topic_begin. destruct (ts !! t) as [[b ph c]|]; simpl; [|by intros; simplify_eq].
  destruct (Z.eqb_spec c 0); [intros; simplify_eq; by left|].
  destruct (Z.eqb_spec (c - 1) 0) as [Hc|]; simpl.
  - destruct (bool_decide_reflect (ph = Active)) as [->|]; simpl; intros; simplify_eq.
    + right; left. rewrite Hc. repeat split; (done || lia).
    + right; right. repeat split; (done || lia || by right).
  - intros; simplify_eq. right; right. repeat split; try done. left; lia.
Qed.

(** At the topic [t] that a step works on, or at another one. *)
Ltac at_topic t x H :=
  destruct (decide (x = t)) as [->|?];
  [ rewrite ?lookup_insert_eq, ?lookup_delete_eq; rewrite ?(decide_True (P := Some t = Some t)) in * by done
  | rewrite ?(decide_False (P := Some t = Some x)) in * by congruence;
    revert H; apply topic_ok_mono;
    [ by rewrite ?lookup_insert_ne, ?lookup_delete_ne by congruence | lia | lia | lia
    | by rewrite ?lookup_insert_ne, ?lookup_delete_ne by congruence
    | intros; tallies; lia ] ].

Lemma topics_step r r' : topics_inv r -> claims_inv r -> registry_step r r' -> topics_inv r'.
Proof.
  intros Hinv Hclaim Hstep x. specialize (Hinv x).
  destruct Hstep; simpl in *; tallies;
    try (by revert Hinv; apply topic_ok_mono; try done; intros; tallies; lia).
  - apply acquire_topic_lookup_cases in H as (He & ->). at_topic t x Hinv. rewrite He in *. settle_entry.
  - apply acquire_topic_lookup_cases in H as (c & He & ->). at_topic t x Hinv. rewrite He in *. simpl in *.
    pose proof (tally_bound topic_ref t l1). pose proof (tally_bound topic_ref t l2). rewrite length_app in *.
    rewrite wrap_u64_small by (unfold in_u64, UINT64_MAX in *; intuition lia). intuition lia.
  - apply acquire_topic_lookup_cases in H as (-> & _). revert Hinv; apply topic_ok_mono; try done; intros; tallies; lia.
  - destruct (Hclaim (CreatingTopic t n) t n) as (e & He & <-); [set_solver | done |]; simpl in He.
    unfold acquire_topic_done. rewrite He. at_topic t x Hinv. rewrite He in *. destruct e. settle_entry.
  - destruct (Hclaim (CreatingTopic t n) t n) as (e & He & <-); [set_solver | done |]; simpl in He.
    unfold acquire_topic_done. rewrite He. at_topic t x Hinv. rewrite He in *. destruct e. settle_entry.
  - destruct (Hclaim (CreatingTopic t n) t n) as (e & He & <-); [set_solver | done |]; simpl in He.
    unfold acquire_topic_done. rewrite He. destruct e as [w ph c]; simpl in *.
    destruct H as [-> | ->]; at_topic t x Hinv; rewrite He in *; tallies; simpl in *.
    + destruct ph; simpl in *; try lia. intuition lia.
    + destruct ph; simpl in *; try lia. repeat split; try lia. right; split; [done|].
      tallies. rewrite decide_True by done. lia.
  - apply release_topic_begin_cases in H.
    destruct (Hclaim (DroppingTopic t n) t n) as (e & He & <-); [set_solver | done |]; simpl in He.
    rewrite He in H. destruct e as [w ph c]; simpl in *.
    destruct H as [(? & -> & Hb)|[(_ & _ & ? & _)|(? & Hor & Hb & ->)]]; [|done|]; injection Hb as ->; simpl in *.
    + at_topic t x Hinv. rewrite He in *. destruct ph; simpl in *; lia.
    + destruct (bool_decide_reflect (ph = Active)) as [->|]; tallies; at_topic t x Hinv; rewrite He in *; simpl in *;
        [settle_entry | destruct ph; simpl in *; (done || lia)].
  - apply release_topic_begin_cases in H.
    destruct (Hclaim (DroppingTopic t n) t n) as (e & He & <-); [set_solver | done |]; simpl in He.
    rewrite He in H. destruct e as [w ph c]; simpl in *.
    destruct H as [(_ & _ & ?)|[(? & -> & _ & ->)|(_ & _ & ? & _)]]; [done| |done].
    at_topic t x Hinv; rewrite He in *; settle_entry.
  - destruct (Hclaim (DeletingTopic t n) t n) as (e & He & <-); [set_solver | done |]; simpl in He.
    unfold release_topic_done. rewrite He. at_topic t x Hinv. rewrite He in *. destruct e. settle_entry.
  - destruct (Hclaim (DeletingTopic t n) t n) as (e & He & <-); [set_solver | done |]; simpl in He.
    unfold release_topic_done. rewrite He. destruct e as [w ph c]; simpl in *.
    destruct H as [-> | ->]; at_topic t x Hinv; rewrite He in *; simpl in *; destruct ph; simpl in *; try lia;
      repeat split; try lia; [right; split; [tauto|] | by left].
    tallies. rewrite decide_True by done. lia.
Qed.

Lemma claim_tally k l t n :
  k ∈ l -> topic_claim k = Some (t, n) -> (1 <= tally topic_ref t l + tally creating t l + tally deleting t l)%nat.
Proof.
  intros Hin Hk. destruct k; simplify_eq/=;
    match goal with
    | Hin : Handle _ _ ∈ _ |- _ => pose proof (tally_pos topic_ref t _ _ Hin eq_refl)
    | Hin : DroppingTopic _ _ ∈ _ |- _ => pose proof (tally_pos topic_ref t _ _ Hin eq_refl)
    | Hin : CreatingTopic _ _ ∈ _ |- _ => pose proof (tally_pos creating t _ _ Hin eq_refl)
    | Hin : DeletingTopic _ _ ∈ _ |- _ => pose proof (tally_pos deleting t _ _ Hin eq_refl)
    end; lia.
Qed.

(** A step keeps the claims: those that were there before are about topics
    whose type stays, and a new one is about the topic it writes. *)
Lemma claims_kept r r' :
  claims_inv r ->
  (forall k t n, k ∈ tokens r' -> topic_claim k = Some (t, n) ->
     (exists k', k' ∈ tokens r /\ topic_claim k' = Some (t, n)) \/
     option_map wire_type_name (topics r' !! t) = Some n) ->
  (forall k t n, k ∈ tokens r' -> topic_claim k = Some (t, n) -> is_Some (topics r !! t) ->
     option_map wire_type_name (topics r' !! t) = option_map wire_type_name (topics r !! t)) ->
  claims_inv r'.
Proof.
  intros Hinv Hold Hwire k t n Hk Hc. specialize (Hwire k t n Hk Hc). destruct (Hold k t n Hk Hc) as [(k' & Hk' & Hc')|He].
  - destruct (Hinv k' t n Hk' Hc') as (e & Ht & <-). rewrite Ht in Hwire. specialize (Hwire (ex_intro _ e eq_refl)).
    destruct (topics r' !! t) as [e'|]; [|done]. simplify_eq/=. eauto.
  - destruct (topics r' !! t) as [e'|]; [|done]. simplify_eq/=. eauto.
Qed.

(** Where the wire type of a topic cannot change. *)
Lemma wire_insert t x (ps : Topics) e ph c :
  ps !! t = Some e ->
  option_map wire_type_name (<[t := MkTopic (wire_type_name e) ph c]> ps !! x) = option_map wire_type_name (ps !! x).
Proof.
  intros He. destruct (decide (x = t)) as [->|]; [by rewrite lookup_insert_eq, He|]. by rewrite lookup_insert_ne by congruence.
Qed.

Lemma wire_acquire_done t x call ps :
  (forall c, call <> Refused c) ->
  option_map wire_type_name (acquire_topic_done t call ps !! x) = option_map wire_type_name (ps !! x).
Proof.
  intros Hc. unfold acquire_topic_done. destruct (ps !! t) as [e|] eqn:He; [|done].
  destruct call as [|c|]; [by apply wire_insert | by destruct (Hc c) | by apply wire_insert].
Qed.

Lemma wire_release_begin t x ps r ps' :
  release_topic_begin t ps = (r, ps') ->
  option_map wire_type_name (ps' !! x) = option_map wire_type_name (ps !! x).
Proof.
  intros H%release_topic_begin_cases. destruct (ps !! t) as [e|] eqn:He; [|by destruct H as [-> _]].
  destruct H as [(_ & -> & _)|[(_ & _ & _ & ->)|(_ & _ & _ & ->)]]; [done | by apply wire_insert..].
Qed.

(** An entry that nobody else claims can go. *)
Lemma wire_delete r k t x n l1 l2 ps' k0 :
  topics_inv r -> tokens r = l1 ++ k0 :: l2 ->
  k ∈ l1 ++ l2 -> topic_claim k = Some (x, n) -> ps' = delete t (topics r) ->
  (creating k0 = Some t \/ deleting k0 = Some t) ->
  option_map wire_type_name (ps' !! x) = option_map wire_type_name (topics r !! x).
Proof.
  intros Hinv Ht Hk Hc -> Hk0. destruct (decide (x = t)) as [->|]; [|by rewrite lookup_delete_ne by congruence].
  exfalso. specialize (Hinv t). rewrite Ht, !tally_app in Hinv. simpl in Hinv.
  pose proof (claim_tally _ _ _ _ Hk Hc) as Hpos. rewrite !tally_app in Hpos.
  assert ((if decide (creating k0 = Some t) then 1 else 0) + (if decide (deleting k0 = Some t) then 1 else 0) >= 1)%nat
    by (destruct Hk0; [rewrite decide_True by done | rewrite (decide_True (P := deleting _ = _)) by done]; lia).
  destruct (topics r !! t) as [[w [] c]|]; simpl in *; lia.
Qed.

Lemma claims_step r r' : topics_inv r -> claims_inv r -> registry_step r r' -> claims_inv r'.
Proof.
  intros Hinv Hclaim Hstep. apply (claims_kept r); [done|..].
  - intros k x m Hk Hc. destruct Hstep; simpl in *;
      try (left; exists k; set_solver);
      try (apply elem_of_middle in Hk as [->|Hk]; [|left; exists k; set_solver]; simplify_eq/=; left; eexists;
           split; [apply elem_of_middle; by left | done]).
    + apply acquire_topic_lookup_cases in H as (_ & ->).
      apply elem_of_middle in Hk as [->|Hk]; [|left; exists k; set_solver]. simplify_eq/=. right. by rewrite lookup_insert_eq.
    + apply acquire_topic_lookup_cases in H as (c & _ & ->).
      apply elem_of_middle in Hk as [->|Hk]; [|left; exists k; set_solver]. simplify_eq/=. right. by rewrite lookup_insert_eq.
    + apply elem_of_middle in Hk as [->|Hk]; [by destruct b | left; exists k; set_solver].
  - intros k x m Hk Hc Hx. destruct Hstep; simpl in *; try done;
      try (by apply wire_acquire_done); try (by eapply wire_release_begin).
    + apply acquire_topic_lookup_cases in H as (He & ->).
      rewrite lookup_insert_ne; [done|]. intros <-. rewrite He in Hx. by destruct Hx.
    + apply acquire_topic_lookup_cases in H as (c & He & ->).
      destruct (decide (x = t)) as [->|]; [by rewrite lookup_insert_eq, He | by rewrite lookup_insert_ne by congruence].
    + by apply acquire_topic_lookup_cases in H as [-> _].
    + unfold acquire_topic_done. destruct (ps !! t) eqn:He; [|done].
      apply elem_of_middle in Hk as [->|Hk]; [done|].
      exact (wire_delete _ _ _ _ _ _ _ _ _ Hinv eq_refl Hk Hc eq_refl (or_introl eq_refl)).
    + unfold release_topic_done. destruct (ps !! t) eqn:He; [|done].
      apply elem_of_middle in Hk as [->|Hk]; [done|].
      exact (wire_delete _ _ _ _ _ _ _ _ _ Hinv eq_refl Hk Hc eq_refl (or_intror eq_refl)).
    + unfold release_topic_done. destruct (ps !! t) eqn:He; [by apply wire_insert | done].
Qed.

Definition registry_inv (r : Registry) : Prop := types_inv r /\ topics_inv r /\ claims_inv r.

Lemma registry_reachable r r' : empty_registry r -> rtc registry_step r r' -> registry_inv r'.
Proof.
  intros -> Hsteps.
  assert (Hinv : registry_inv (MkRegistry ∅ ∅ [] ∅ ∅)).
  { split_and!; [intros n; simpl; rewrite lookup_empty; simpl; set_solver | intros t; simpl; by rewrite !lookup_empty |].
    intros k t n Hk. by apply not_elem_of_nil in Hk. }
  revert Hinv. induction Hsteps as [|r1 r2 r3 Hstep _ IH]; [done|]. intros (Hty & Hto & Hcl). apply IH. split_and!.
  - by eapply types_step.
  - by eapply topics_step.
  - by eapply claims_step.
Qed.

(** A reference to a type keeps it registered, and counted. *)
Lemma type_ref_registered r n :
  types_inv r -> (1 <= tally type_ref n (tokens r))%nat ->
  n ∈ dds_types r /\ exists e, registered_types r !! n = Some e /\ type_phase e = Active /\
    type_count e = Z.of_nat (tally type_ref n (tokens r)).
Proof.
  intros Hinv Hn. specialize (Hinv n). destruct (registered_types r !! n) as [[b [] c]|]; simpl in Hinv; try lia.
  destruct Hinv as (Hc & _ & _ & _ & Hd). by eauto.
Qed.

(** The thread or handle a topic is there for, with its type. *)
Lemma topic_user r t n :
  registry_inv r -> dds_topics r !! t = Some n -> (1 <= tally type_ref n (tokens r))%nat.
Proof.
  intros (_ & Hto & Hcl) Ht. specialize (Hto t). rewrite Ht in Hto.
  assert (Huser : forall f, (forall k, f k = Some t -> exists w, topic_claim k = Some (t, w) /\ type_ref k = Some w) ->
    (1 <= tally f t (tokens r))%nat -> option_map wire_type_name (topics r !! t) = Some n ->
    (1 <= tally type_ref n (tokens r))%nat).
  { intros f Hf (k & Hk & Hkt)%tally_elem Hw. destruct (Hf k Hkt) as (w & Hc & Hty).
    destruct (Hcl k t w Hk Hc) as (e & He & <-). rewrite He in Hw. simplify_eq/=. by eapply tally_pos. }
  destruct (topics r !! t) as [[w ph c]|] eqn:He; simpl in *; [|by destruct Hto as (_ & _ & _ & ?)].
  destruct ph; simpl in *.
  - by destruct Hto as (_ & _ & _ & _ & ?).
  - destruct Hto as (_ & Hn & _ & _ & [= <-]). apply (Huser topic_ref); [|done..]. intros []; intros; simplify_eq/=; eauto.
  - destruct Hto as (_ & _ & _ & Hn & [= <-]). apply (Huser deleting); [|lia|done]. intros []; intros; simplify_eq/=; eauto.
  - destruct Hto as (_ & _ & _ & _ & [?|[[= <-] Hn]]); [done|]. apply tally_elem in Hn as (k & Hk & Hkn).
    apply (tally_pos _ _ _ k); [done|]. by destruct k; simplify_eq/=.
Qed.

(** C40: in every run of any number of threads over the registries of a Context
    - whatever Fast DDS answers, throws or refuses - each topic that Fast DDS
    holds has its type registered, and every live [Topic] handle stands for a
    topic that Fast DDS holds with the handle's type, counted exactly in both
    registries: it cannot be deleted, nor its type unregistered, under it. *)
Theorem topics_have_types r r' :
  empty_registry r -> rtc registry_step r r' ->
  (forall t n, dds_topics r' !! t = Some n -> n ∈ dds_types r') /\
  forall t n, Handle t n ∈ tokens r' ->
    dds_topics r' !! t = Some n /\
    topics r' !! t = Some (MkTopic n Active (Z.of_nat (tally topic_ref t (tokens r')))) /\
    exists b, registered_types r' !! n = Some (MkType b Active (Z.of_nat (tally type_ref n (tokens r')))).
Proof.
  intros Hr Hsteps. pose proof (registry_reachable r r' Hr Hsteps) as Hinv. split.
  - intros t n Ht. apply type_ref_registered; [by apply Hinv | by eapply topic_user].
  - intros t n Hk. destruct Hinv as (Hty & Hto & Hcl).
    pose proof (tally_pos topic_ref t _ _ Hk eq_refl) as Htr. pose proof (tally_pos type_ref n _ _ Hk eq_refl) as Hnr.
    destruct (type_ref_registered r' n Hty Hnr) as (_ & [b ph c] & He & Hph & Hc).
    destruct (Hcl _ t n Hk eq_refl) as ([w phw cw] & Hw & <-). specialize (Hto t). rewrite Hw in *.
    simpl in *. subst. destruct phw; simpl in Hto; try lia. destruct Hto as (-> & _ & _ & _ & ->). eauto.
Qed.

(** no lost wake-up and no deadlock in the registries: in every reachable
    state, a thread that waits for an entry (its lookup found it being created
    or retired) waits for another thread that is inside the Fast DDS call on
    that entry; whatever the call answers, that thread's next section leaves
    the entry out of those two phases, so the waiter's lookup goes on. *)
Theorem registry_progress r r' :
  empty_registry r -> rtc registry_step r r' ->
  (forall n b ts, acquire_type_lookup n b (registered_types r') = (Blocked, ts) ->
     (exists t, Registering t n ∈ tokens r' /\
        forall call, fst (acquire_type_lookup n b (acquire_type_done n call (registered_types r'))) <> Blocked) \/
     (UnregisteringType n ∈ tokens r' /\
        forall ok, fst (acquire_type_lookup n b (release_type_done n ok (registered_types r'))) <> Blocked)) /\
  (forall t n ps, acquire_topic_lookup topic_registry_degraded t n (topics r') = (Blocked, ps) ->
     (CreatingTopic t n ∈ tokens r' /\
        forall call, fst (acquire_topic_lookup topic_registry_degraded t n (acquire_topic_done t call (topics r')))
          <> Blocked) \/
     (DeletingTopic t n ∈ tokens r' /\
        forall ok, fst (acquire_topic_lookup topic_registry_degraded t n (release_topic_done t ok (topics r')))
          <> Blocked)).
Proof.
  intros Hr Hsteps. destruct (registry_reachable r r' Hr Hsteps) as (Hty & Hto & Hcl). split.
  - intros n b ts Hl. specialize (Hty n). apply acquire_type_lookup_cases in Hl as Hl'.
    destruct Hl' as (_ & [b' ph c] & He & Hph). rewrite He in Hty. simpl in *. destruct Hph; subst; simpl in Hty; [left|right].
    + destruct Hty as (_ & _ & Hn & _). destruct (tally_elem registering n (tokens r')) as (k & Hk & Hkn); [lia|].
      destruct k; simplify_eq/=. eexists; split; [done|]. intros call. unfold acquire_type_lookup, acquire_type_done.
      rewrite He. destruct call; rewrite ?lookup_insert_eq, ?lookup_delete_eq; simpl; by try case_match.
    + destruct Hty as (_ & _ & _ & Hn & _). destruct (tally_elem unregistering n (tokens r')) as (k & Hk & Hkn); [lia|].
      destruct k; simplify_eq/=. split; [done|]. intros ok. unfold acquire_type_lookup, release_type_done.
      rewrite He. destruct ok; rewrite ?lookup_insert_eq, ?lookup_delete_eq; simpl; by try case_match.
  - intros t n ps Hl. specialize (Hto t). apply acquire_topic_lookup_cases in Hl.
    destruct Hl as (_ & [w ph c] & He & Hw & Hph). rewrite He in Hto. simpl in *. subst w.
    destruct Hph; subst; simpl in Hto; [left|right].
    + destruct Hto as (_ & _ & Hn & _). destruct (tally_elem creating t (tokens r')) as (k & Hk & Hkn); [lia|].
      destruct k as [| | |t' w| | | | | |]; simplify_eq/=. destruct (Hcl _ t w Hk eq_refl) as (e' & He' & <-).
      rewrite He in He'. simplify_eq/=. split; [done|]. intros call. unfold acquire_topic_lookup, acquire_topic_done.
      rewrite He. destruct call; rewrite ?lookup_insert_eq, ?lookup_delete_eq; simpl; by try case_match.
    + destruct Hto as (_ & _ & _ & Hn & _). destruct (tally_elem deleting t (tokens r')) as (k & Hk & Hkn); [lia|].
      destruct k as [| | | | | |t' w| | |]; simplify_eq/=. destruct (Hcl _ t w Hk eq_refl) as (e' & He' & <-).
      rewrite He in He'. simplify_eq/=. split; [done|]. intros ok. unfold acquire_topic_lookup, release_topic_done.
      rewrite He. destruct ok; rewrite ?lookup_insert_eq, ?lookup_delete_eq; simpl; by try case_match.
Qed.

(** *** Witnesses *)

(** One thread makes ["rt/chatter"] and a second one waits for it. *)
Local Definition creating_run : Registry :=
  MkRegistry {["String" := MkType 0 Active 1]} {["rt/chatter" := MkTopic "String" Creating 0]}
    [CreatingTopic "rt/chatter" "String"] {["String"]} ∅.

Lemma creating_run_reached : rtc registry_step (MkRegistry ∅ ∅ [] ∅ ∅) creating_run.
Proof.
  eapply rtc_l; [apply (rs_start _ _ _ _ _ "rt/chatter" "String" 0)|].
  eapply rtc_l; [by apply (rs_type_create _ _ [] [])|].
  eapply rtc_l; [apply (rs_registered _ _ [] [])|].
  eapply rtc_l; [by apply (rs_topic_create _ _ [] [])|]. apply rtc_refl.
Qed.

Lemma topics_have_types_witness :
  "String" ∈ dds_types (MkRegistry {["String" := MkType 0 Active 1]} {["rt/chatter" := MkTopic "String" Active 1]}
    [Handle "rt/chatter" "String"] {["String"]} {["rt/chatter" := "String"]}).
Proof.
  refine (proj1 (topics_have_types (MkRegistry ∅ ∅ [] ∅ ∅) _ eq_refl _) "rt/chatter" "String" _); [|reflexivity].
  eapply rtc_r; [apply creating_run_reached|]. exact (rs_created (registered_types creating_run) (topics creating_run) [] [] {["String"]} ∅ "rt/chatter" "String").
Defined.

Lemma registry_progress_witness :
  CreatingTopic "rt/chatter" "String" ∈ tokens creating_run.
Proof.
  pose proof (proj2 (registry_progress (MkRegistry ∅ ∅ [] ∅ ∅) creating_run eq_refl creating_run_reached)
    "rt/chatter" "String" (topics creating_run) eq_refl) as [[H _]|[H _]]; [exact H|].
  by apply elem_of_cons in H as [H|H%not_elem_of_nil].
Defined.
