(* ===== verification/GraphCandidates.v ===== *)
(** * GraphCandidates: endpoints, and the actions they compose

    Models src/impl/graph_candidates.hpp and graph_candidates.cpp: the list of
    endpoint candidates that every view of the graph is computed from, the
    composition of the eight endpoints of an action server or client, and the
    availability of an action server.  A [std::map<std::string, _>] is a [gmap]
    that is read in the order of its keys ([map_elements]).

    An [EndpointRecord] of a view points to the participant of the graph, which
    is read when the candidates are collected, after the lock that protects it
    was released: those participants are an argument of their own. *)

From S2P Require Import Prelude Strings Identity Qos Names Discovery Metadata.
From stdpp Require Import gmap sorting.
Local Open Scope dmw_scope.

(** ** Ordered maps *)

Section OrderedMap.
Context {V : Type}.

Definition key_le (a b : str * V) : Prop := str_le a.1 b.1.

#[export] Instance key_le_dec : RelDecision key_le.
Proof. intros a b. unfold key_le. apply _. Defined.

(** The entries of a [std::map<std::string, V>] in iteration order. *)
Definition map_elements (m : gmap str V) : list (str * V) := merge_sort key_le (map_to_list m).

Lemma elem_of_map_elements m k v : (k, v) ∈ map_elements m <-> m !! k = Some v.
Proof. unfold map_elements. rewrite merge_sort_Permutation. apply elem_of_map_to_list. Qed.

Lemma map_elements_keys m : NoDup (map_elements m).*1.
Proof. unfold map_elements. rewrite merge_sort_Permutation. apply NoDup_fst_map_to_list. Qed.

Lemma map_elements_sorted m : StronglySorted str_le (map_elements m).*1.
Proof.
  assert (Hs : StronglySorted key_le (map_elements m)).
  { apply StronglySorted_merge_sort; unfold key_le; [by intros a b c; apply str_le_trans | intros a b; apply str_le_total]. }
  induction Hs as [|[k v] l Hl IH Hall]; simpl; constructor; [done|].
  apply Forall_fmap. by eapply Forall_impl.
Qed.
End OrderedMap.

(** [emplace] and [insert] of a map: the first entry of a key stays. *)
Definition emplace {K V} `{Countable K} (k : K) (v : V) (m : gmap K V) : gmap K V :=
  match m !! k with None => <[k := v]> m | Some _ => m end.

Section Emplace.
Context {A K V : Type} `{Countable K} (key : A -> K) (val : A -> V).

Definition emplace_all (l : list A) (m : gmap K V) : gmap K V :=
  fold_left (fun m x => emplace (key x) (val x) m) l m.

Lemma emplace_all_lookup l m k :
  emplace_all l m !! k =
  match m !! k with Some v => Some v | None => val <$> find_if (fun x => bool_decide (key x = k)) l end.
Proof.
  revert m. induction l as [|x l IH]; intros m; simpl; [by destruct (m !! k)|].
  unfold emplace_all in *. rewrite IH. unfold emplace.
  destruct (decide (key x = k)) as [<-|Hne].
  - rewrite bool_decide_eq_true_2 by done. destruct (m !! key x) eqn:Hm; [by rewrite Hm | by rewrite lookup_insert_eq].
  - rewrite bool_decide_eq_false_2 by done. destruct (m !! key x); [done | by rewrite lookup_insert_ne].
Qed.
End Emplace.

(** ** Candidates *)

Record EndpointCandidate := MkCandidate {
  gid : Gid;
  native_kind : EndpointKind;
  c_role : GraphEndpointRole;
  c_logical_name : str;
  wire_type : str;
  c_qos : Qos;
  (** Node name and namespace; [None] for [has_node = false]. *)
  c_node : option (str * str);
  participant_key_of : str }.

Definition has_node (c : EndpointCandidate) : bool := bool_decide (is_Some (c_node c)).

Definition candidate_is_publisher (c : EndpointCandidate) : bool := bool_decide (native_kind c = Writer).

(** The octets of an array as a [std::string]. *)
Definition octets_str (l : list Z) : str := (fun b => ascii_of_N (Z.to_N b)) <$> l.

Definition participant_key (p : GuidPrefix) : str := octets_str p.

Definition candidate_composition_key (mode : RuntimeMode) (c : EndpointCandidate) : str :=
  match c_node c with
  | Some (name, ns) => ns ++ [zero] ++ name
  | None => if decide (mode = ROS2) then $"?" ++ octets_str (gid_data (gid c)) else []
  end.

(** ** Collecting them *)

Definition nodes_by_id (v : GraphView) : gmap Z LocalNodeRecord :=
  emplace_all id (fun n => n) (v_local_nodes v) ∅.

(** The claims of the remote Nodes, in the order the code inserts them. *)
Definition claims (v : GraphView) : list (list Z * RemoteNodeRecord) :=
  participant ← v_remote_nodes v; node ← nodes participant;
  ((., node) <$> reader_gids node) ++ ((., node) <$> writer_gids node).

Definition remote_by_gid (v : GraphView) : gmap (list Z) RemoteNodeRecord := emplace_all fst snd (claims v) ∅.

(** One turn of the loop over the local endpoints. *)
Definition local_candidate (mode : RuntimeMode) (by_id : gmap Z LocalNodeRecord) (e : LocalEndpointRecord)
    : option EndpointCandidate :=
  if str_eqb (l_topic e) kGraphMetadataTopicName then None
  else
    normalized ← normalize_endpoint_name mode (l_topic e);
    Some (MkCandidate (to_gid (l_guid e)) (l_kind e) (role normalized) (logical_name normalized) (l_type e) (l_qos e)
            ((fun n => (node_name n, node_namespace n)) <$> by_id !! node_id e)
            (participant_key (guidPrefix (l_guid e)))).

(** One turn of the loop over the discovered endpoints; [live] is the
    participants as they are now. *)
Definition remote_candidate (mode : RuntimeMode) (by_gid : gmap (list Z) RemoteNodeRecord) (local_gids : list Gid)
    (live : list ParticipantRecord) (e : EndpointRecord) : option EndpointCandidate :=
  if bool_decide (lifecycle e = Removed) then None
  else if bool_decide (p_lifecycle <$> live !! participant e = Some Removed) then None
  else if str_eqb (topic e) kGraphMetadataTopicName then None
  else if bool_decide (to_gid (guid e) ∈ local_gids) then None
  else
    normalized ← normalize_endpoint_name mode (topic e);
    Some (MkCandidate (to_gid (guid e)) (kind e) (role normalized) (logical_name normalized) (type e) (qos e)
            ((fun n => (r_name n, r_namespace n)) <$> by_gid !! gid_data (to_gid (guid e)))
            (participant_key (guidPrefix (guid e)))).

Definition collect_endpoint_candidates (mode : RuntimeMode) (v : GraphView) (live : list ParticipantRecord)
    : list EndpointCandidate :=
  let locals := omap (local_candidate mode (nodes_by_id v)) (v_local_endpoints v) in
  locals ++ omap (remote_candidate mode (remote_by_gid v) (gid <$> locals) live) (v_endpoints v).

(** ** Actions *)

#[export] Instance ActionEndpointRole_countable : Countable ActionEndpointRole.
Proof.
  refine (inj_countable'
    (fun r => match r with
              | SendGoalRequest => 0 | SendGoalResponse => 1 | CancelGoalRequest => 2 | CancelGoalResponse => 3
              | GetResultRequest => 4 | GetResultResponse => 5 | Feedback => 6 | Status => 7 end)%nat
    (fun n => match n with
              | 0 => SendGoalRequest | 1 => SendGoalResponse | 2 => CancelGoalRequest | 3 => CancelGoalResponse
              | 4 => GetResultRequest | 5 => GetResultResponse | 6 => Feedback | _ => Status end)%nat _).
  by intros [].
Defined.

#[export] Instance EndpointKind_countable : Countable EndpointKind.
Proof.
  refine (inj_countable' (fun k => bool_decide (k = Reader)) (fun b : bool => if b then Reader else Writer) _).
  by intros [].
Defined.

Definition ActionRoleKey : Type := ActionEndpointRole * EndpointKind.

Record ActionGroup := MkGroup {
  group_action : str; group_endpoints : gmap (ActionEndpointRole * EndpointKind) EndpointCandidate }.

Definition classify (c : EndpointCandidate) : option ActionEndpointClassification :=
  classify_action_endpoint (MkNormalized (c_logical_name c) (c_role c)).

Definition bar : ascii := "|".

(** The key of the group of an endpoint of action [action]. *)
Definition group_key (mode : RuntimeMode) (c : EndpointCandidate) (action : str) : str :=
  participant_key_of c ++ [bar] ++ action ++ [bar] ++ candidate_composition_key mode c.

Definition add_to_group (mode : RuntimeMode) (groups : gmap str ActionGroup) (c : EndpointCandidate)
    : gmap str ActionGroup :=
  match classify c with
  | None => groups
  | Some cl =>
      let key := group_key mode c (action_name cl) in
      let endpoints := from_option group_endpoints ∅ (groups !! key) in
      <[key := MkGroup (action_name cl) (emplace (action_role cl, native_kind c) c endpoints)]> groups
  end.

Definition action_groups (mode : RuntimeMode) (cs : list EndpointCandidate) : gmap str ActionGroup :=
  fold_left (add_to_group mode) cs ∅.

(** The endpoints of an action server, in the order of its GIDs. *)
Definition server_endpoints : list (ActionEndpointRole * EndpointKind) :=
  [(SendGoalRequest, Reader); (SendGoalResponse, Writer); (CancelGoalRequest, Reader); (CancelGoalResponse, Writer);
   (GetResultRequest, Reader); (GetResultResponse, Writer); (Feedback, Writer); (Status, Writer)].

Definition client_endpoints : list (ActionEndpointRole * EndpointKind) :=
  [(SendGoalRequest, Writer); (SendGoalResponse, Reader); (CancelGoalRequest, Writer); (CancelGoalResponse, Reader);
   (GetResultRequest, Writer); (GetResultResponse, Reader); (Feedback, Reader); (Status, Reader)].

(** A server or client of a candidate: its GIDs and its Node. *)
Record ActionSide := MkSide { side_gids : list Gid; side_node : option (str * str) }.

Record ActionCandidate := MkActionCandidate {
  ac_action : str; ac_server : option ActionSide; ac_client : option ActionSide; ac_participant_key : str }.

(** All the endpoints [keys] of a group; the Node is that of the first. *)
Definition side (keys : list (ActionEndpointRole * EndpointKind)) (g : ActionGroup) : option ActionSide :=
  found ← mapM (fun k => group_endpoints g !! k) keys;
  Some (MkSide (gid <$> found) (head found ≫= c_node)).

(** [key.substr(0, key.find('|'))]. *)
Definition before_bar (key : str) : str := from_option fst key (split_at bar key).

Definition action_candidate (entry : str * ActionGroup) : ActionCandidate :=
  MkActionCandidate (group_action entry.2) (side server_endpoints entry.2) (side client_endpoints entry.2)
    (before_bar entry.1).

Definition compose_action_candidates (mode : RuntimeMode) (cs : list EndpointCandidate) : list ActionCandidate :=
  action_candidate <$> map_elements (action_groups mode cs).

(** ** Availability of an action server *)

Record ActionEndpointTypes := MkActionTypes {
  send_goal_request : str; send_goal_response : str; cancel_goal_request : str; cancel_goal_response : str;
  get_result_request : str; get_result_response : str; feedback_type : str; status_type : str }.

Record ActionClientEndpointQos := MkClientQos {
  send_goal_request_writer : Qos; send_goal_response_reader : Qos;
  cancel_goal_request_writer : Qos; cancel_goal_response_reader : Qos;
  get_result_request_writer : Qos; get_result_response_reader : Qos;
  feedback_reader : Qos; status_reader : Qos }.

Definition find_endpoint (cs : list EndpointCandidate) (participant name : str) (r : GraphEndpointRole)
    (k : EndpointKind) (wire : str) (mode : RuntimeMode) (composition : str) : option EndpointCandidate :=
  find_if (fun c => str_eqb (participant_key_of c) participant && bool_decide (native_kind c = k)
                    && bool_decide (c_role c = r) && str_eqb (c_logical_name c) name && str_eqb (wire_type c) wire
                    && str_eqb (candidate_composition_key mode c) composition) cs.

#[export] Instance QosCompatibility_eq_dec : EqDecision QosCompatibility.
Proof. solve_decision. Defined.

Definition qos_compatible (publisher subscriber : Qos) : bool :=
  negb (bool_decide ((check_qos_compatibility publisher subscriber).1 = Incompatible)).

Definition action_server_composition_complete (cs : list EndpointCandidate) (participant : str)
    (names : ActionEndpointNames) (types : ActionEndpointTypes) (mode : RuntimeMode) (composition : str)
    (client_qos : option ActionClientEndpointQos) : bool :=
  let find name r k wire := find_endpoint cs participant name r k wire mode composition in
  match find (send_goal names) ServiceRequest Reader (send_goal_request types),
        find (send_goal names) ServiceResponse Writer (send_goal_response types),
        find (cancel_goal names) ServiceRequest Reader (cancel_goal_request types),
        find (cancel_goal names) ServiceResponse Writer (cancel_goal_response types),
        find (get_result names) ServiceRequest Reader (get_result_request types),
        find (get_result names) ServiceResponse Writer (get_result_response types),
        find (feedback names) Topic Writer (feedback_type types),
        find (status names) Topic Writer (status_type types) with
  | Some goal, Some goal', Some cancel, Some cancel', Some result, Some result', Some fb, Some st =>
      match client_qos with
      | None => true
      | Some q =>
          qos_compatible (send_goal_request_writer q) (c_qos goal)
          && qos_compatible (c_qos goal') (send_goal_response_reader q)
          && qos_compatible (cancel_goal_request_writer q) (c_qos cancel)
          && qos_compatible (c_qos cancel') (cancel_goal_response_reader q)
          && qos_compatible (get_result_request_writer q) (c_qos result)
          && qos_compatible (c_qos result') (get_result_response_reader q)
          && qos_compatible (c_qos fb) (feedback_reader q)
          && qos_compatible (c_qos st) (status_reader q)
      end
  | _, _, _, _, _, _, _, _ => false
  end.

Definition participant_has_action_server (cs : list EndpointCandidate) (participant : str)
    (names : ActionEndpointNames) (types : ActionEndpointTypes) (mode : RuntimeMode)
    (client_qos : option ActionClientEndpointQos) : bool :=
  let compositions : gset str :=
    list_to_set (candidate_composition_key mode <$> filter (fun c => participant_key_of c = participant) cs) in
  existsb (fun composition => action_server_composition_complete cs participant names types mode composition client_qos)
    (set_elements compositions).

Definition has_action_server (cs : list EndpointCandidate) (names : ActionEndpointNames)
    (types : ActionEndpointTypes) (mode : RuntimeMode) (client_qos : option ActionClientEndpointQos) : bool :=
  let participants : gset str := list_to_set (participant_key_of <$> cs) in
  existsb (fun participant => participant_has_action_server cs participant names types mode client_qos)
    (set_elements participants).

(** ** Groups *)

(** Whether [c] is the endpoint [k] of the group [key]. *)
Definition plays (mode : RuntimeMode) (key : str) (k : ActionEndpointRole * EndpointKind) (c : EndpointCandidate) : bool :=
  match classify c with
  | Some cl => bool_decide (group_key mode c (action_name cl) = key /\ (action_role cl, native_kind c) = k)
  | None => false
  end.

Lemma plays_true mode key k c :
  plays mode key k c = true <->
  exists action, classify c = Some (MkClassification action k.1) /\ native_kind c = k.2 /\ group_key mode c action = key.
Proof.
  unfold plays. destruct (classify c) as [[a r]|]; simpl; [|naive_solver]. rewrite bool_decide_eq_true.
  destruct k as [r' k']. simpl. naive_solver.
Qed.

Lemma action_groups_snoc mode cs c : action_groups mode (cs ++ [c]) = add_to_group mode (action_groups mode cs) c.
Proof. apply fold_left_app. Qed.

(** A group holds the first endpoint of each role and kind. *)
Lemma group_lookup mode cs key k :
  (action_groups mode cs !! key ≫= fun g => group_endpoints g !! k) = find_if (plays mode key k) cs.
Proof.
  induction cs as [|c cs IH] using rev_ind; [done|].
  rewrite action_groups_snoc, find_if_app, <- IH. unfold add_to_group. simpl. unfold plays.
  generalize (action_groups mode cs). intros gs.
  destruct (classify c) as [[a r]|] eqn:Hcl; simpl; [|by destruct (gs !! key ≫= _)].
  destruct (decide (group_key mode c a = key)) as [<-|Hkey].
  - rewrite lookup_insert_eq. simpl. unfold emplace.
    destruct (decide ((r, native_kind c) = k)) as [<-|Hk].
    + rewrite bool_decide_eq_true_2 by done.
      destruct (gs !! group_key mode c a) as [g|]; simpl; [|by rewrite lookup_empty, lookup_insert_eq].
      destruct (group_endpoints g !! (r, native_kind c)) eqn:Hg; [done | by rewrite lookup_insert_eq].
    + rewrite bool_decide_eq_false_2 by tauto.
      destruct (gs !! group_key mode c a) as [g|]; simpl.
      * destruct (group_endpoints g !! (r, native_kind c)); [|rewrite lookup_insert_ne by done]; by destruct (group_endpoints g !! k).
      * by rewrite lookup_empty, lookup_insert_ne.
  - rewrite bool_decide_eq_false_2 by tauto. rewrite lookup_insert_ne by done. by destruct (gs !! key ≫= _).
Qed.

(** A group is there for the endpoints in it, and named after the last one. *)
Lemma group_named mode cs key g :
  action_groups mode cs !! key = Some g ->
  exists c r, c ∈ cs /\ classify c = Some (MkClassification (group_action g) r) /\ group_key mode c (group_action g) = key.
Proof.
  revert g. induction cs as [|c cs IH] using rev_ind; intros g; [done|].
  rewrite action_groups_snoc. unfold add_to_group. destruct (classify c) as [[a r]|] eqn:Hcl.
  - destruct (decide (group_key mode c a = key)) as [<-|Hkey].
    + simpl. rewrite lookup_insert_eq. intros [= <-]. simpl. exists c, r. set_solver.
    + simpl. rewrite lookup_insert_ne by done. intros (c' & r' & ? & ? & ?)%IH. exists c', r'. set_solver.
  - intros (c' & r' & ? & ? & ?)%IH. exists c', r'. set_solver.
Qed.

(** What the grouping needs: participant keys of the length of a GUID prefix,
    and no bar in the name of an action. *)
Definition candidate_ok (c : EndpointCandidate) : Prop :=
  length (participant_key_of c) = 12%nat /\ forall cl, classify c = Some cl -> bar ∉ action_name cl.

Lemma split_bar a b : bar ∉ a -> split_at bar (a ++ [bar] ++ b) = Some (a, b).
Proof.
  induction a as [|x a IH]; intros Ha; [done|]. simpl in *.
  rewrite decide_False by (intros ->; apply Ha; left). rewrite IH; [done|]. intros ?. apply Ha. by right.
Qed.

Lemma group_key_inj mode c c' a a' :
  length (participant_key_of c) = 12%nat -> length (participant_key_of c') = 12%nat -> bar ∉ a -> bar ∉ a' ->
  group_key mode c a = group_key mode c' a' ->
  participant_key_of c = participant_key_of c' /\ a = a' /\
  candidate_composition_key mode c = candidate_composition_key mode c'.
Proof.
  intros Hl Hl' Ha Ha' Hk. unfold group_key in Hk. apply app_inj_1 in Hk as [Hp Hk]; [|congruence].
  injection Hk as Hk. pose proof (split_bar a (candidate_composition_key mode c) Ha) as H1.
  pose proof (split_bar a' (candidate_composition_key mode c') Ha') as H2. simpl in *. rewrite Hk, H2 in H1. by injection H1.
Qed.

(** [c] is the endpoint [k] of action [a] in composition [comp] of [p]. *)
Definition serves (mode : RuntimeMode) (p a comp : str) (k : ActionEndpointRole * EndpointKind)
    (c : EndpointCandidate) : Prop :=
  classify c = Some (MkClassification a k.1) /\ native_kind c = k.2 /\ participant_key_of c = p /\
  candidate_composition_key mode c = comp.

Definition endpoints_of_side (server : bool) : list (ActionEndpointRole * EndpointKind) :=
  if server then server_endpoints else client_endpoints.

Definition side_of (server : bool) (c : ActionCandidate) : option ActionSide :=
  if server then ac_server c else ac_client c.

Lemma side_of_candidate server entry : side_of server (action_candidate entry) = side (endpoints_of_side server) entry.2.
Proof. by destruct server. Qed.

(** The grouping, in both directions. *)
Lemma action_composed mode cs server :
  Forall candidate_ok cs ->
  (forall cand s, cand ∈ compose_action_candidates mode cs -> side_of server cand = Some s ->
     exists p comp es,
       Forall2 (fun k c => c ∈ cs /\ serves mode p (ac_action cand) comp k c) (endpoints_of_side server) es /\
       side_gids s = gid <$> es /\ side_node s = head es ≫= c_node) /\
  (forall p a comp, Forall (fun k => exists c, c ∈ cs /\ serves mode p a comp k c) (endpoints_of_side server) ->
     exists cand s, cand ∈ compose_action_candidates mode cs /\ ac_action cand = a /\ side_of server cand = Some s).
Proof.
  intros Hok. rewrite Forall_forall in Hok.
  assert (Hkey : forall c c' a a' r r', c ∈ cs -> c' ∈ cs -> classify c = Some (MkClassification a r) ->
    classify c' = Some (MkClassification a' r') -> group_key mode c a = group_key mode c' a' ->
    participant_key_of c = participant_key_of c' /\ a = a' /\
    candidate_composition_key mode c = candidate_composition_key mode c').
  { intros c c' a a' r r' Hc Hc' Hcl Hcl'. destruct (Hok c Hc) as [? Hb], (Hok c' Hc') as [? Hb'].
    apply group_key_inj; try done; [apply (Hb _ Hcl) | apply (Hb' _ Hcl')]. }
  split.
  - intros cand s ([key g] & -> & Hg)%list_elem_of_fmap. rewrite side_of_candidate. simpl.
    apply elem_of_map_elements in Hg. destruct (group_named _ _ _ _ Hg) as (c0 & r0 & Hc0 & Hcl0 & Hk0).
    unfold side. intros (es & Hes & [= <-])%bind_Some. apply mapM_Some in Hes.
    exists (participant_key_of c0), (candidate_composition_key mode c0), es. split; [|done].
    eapply Forall2_impl; [exact Hes|]. intros k c Hgk. pose proof (group_lookup mode cs key k) as Hl.
    rewrite Hg in Hl. simpl in Hl. rewrite Hgk in Hl. symmetry in Hl. apply find_if_Some in Hl as [Hc Hp].
    apply plays_true in Hp as (a & Hcl & Hkind & Hkc). subst key.
    destruct (Hkey c c0 a _ _ _ Hc Hc0 Hcl Hcl0 Hkc) as (? & -> & ?). by repeat split.
  - intros p a comp Hall. set (key := p ++ [bar] ++ a ++ [bar] ++ comp).
    assert (Hk : forall k c, serves mode p a comp k c -> group_key mode c a = key).
    { intros k c (_ & _ & <- & <-). done. }
    assert (Hfound : Forall (fun k => is_Some (action_groups mode cs !! key ≫= fun g => group_endpoints g !! k))
      (endpoints_of_side server)).
    { eapply Forall_impl; [exact Hall|]. intros k (c & Hc & Hs). rewrite group_lookup.
      destruct (find_if _ cs) eqn:Hf; [done|]. rewrite find_if_None in Hf. specialize (Hf c Hc).
      assert (plays mode key k c = true) as Ht; [|by rewrite Ht in Hf].
      apply plays_true. exists a. split_and!; [apply Hs | apply Hs | by eapply Hk]. }
    destruct (action_groups mode cs !! key) as [g|] eqn:Hg; [|destruct server; apply Forall_inv in Hfound; by destruct Hfound].
    simpl in Hfound. destruct (mapM_is_Some_2 _ _ Hfound) as [es Hes].
    exists (action_candidate (key, g)), (MkSide (gid <$> es) (head es ≫= c_node)). split_and!.
    + apply list_elem_of_fmap. exists (key, g). split; [done|]. by apply elem_of_map_elements.
    + simpl. destruct (group_named _ _ _ _ Hg) as (c0 & r0 & Hc0 & Hcl0 & Hk0).
      assert (exists k c, c ∈ cs /\ serves mode p a comp k c) as (k & c & Hc & Hs).
      { destruct server; apply Forall_inv in Hall as (c & ? & ?); eauto. }
      destruct (Hkey c0 c _ a _ _ Hc0 Hc Hcl0 (proj1 Hs)) as (_ & ? & _); [|done]. rewrite Hk0. symmetry. by eapply Hk.
    + rewrite side_of_candidate. unfold side. simpl. by rewrite Hes.
Qed.

(** ** The reference: compositions *)

(** The participant, action and composition that an endpoint belongs to. *)
Definition composition_of (mode : RuntimeMode) (c : EndpointCandidate) : option (str * str * str) :=
  (fun cl => (participant_key_of c, action_name cl, candidate_composition_key mode c)) <$> classify c.

Definition composition_key (x : str * str * str) : str := x.1.1 ++ [bar] ++ x.1.2 ++ [bar] ++ x.2.

#[export] Instance ActionEndpointClassification_eq_dec : EqDecision ActionEndpointClassification.
Proof. solve_decision. Defined.

(** A side of a composition: it needs all its endpoints, the first of each. *)
Definition composed_side (mode : RuntimeMode) (cs : list EndpointCandidate) (server : bool) (x : str * str * str) : option ActionSide :=
  found ← mapM (fun k => find_if (fun c => bool_decide (classify c = Some (MkClassification x.1.2 k.1) /\ native_kind c = k.2 /\
                                                        composition_of mode c = Some x)) cs) (endpoints_of_side server);
  Some (MkSide (gid <$> found) (head found ≫= c_node)).

Definition composed (mode : RuntimeMode) (cs : list EndpointCandidate) (x : str * str * str) : ActionCandidate :=
  MkActionCandidate x.1.2 (composed_side mode cs true x) (composed_side mode cs false x) (before_bar (composition_key x)).

Section Compositions.
Context (mode : RuntimeMode) (cs : list EndpointCandidate) (Hok : Forall candidate_ok cs).

Lemma composition_key_group c a r :
  classify c = Some (MkClassification a r) -> composition_of mode c = Some (participant_key_of c, a, candidate_composition_key mode c).
Proof. unfold composition_of. by intros ->. Qed.

Lemma composition_key_inj c c' x x' :
  c ∈ cs -> c' ∈ cs -> composition_of mode c = Some x -> composition_of mode c' = Some x' ->
  composition_key x = composition_key x' -> x = x'.
Proof.
  rewrite Forall_forall in Hok. intros Hc Hc'. destruct (Hok c Hc) as [Hl Hb], (Hok c' Hc') as [Hl' Hb']. unfold composition_of.
  destruct (classify c) as [[a r]|]; [|done]. destruct (classify c') as [[a' r']|]; [|done]. intros [= <-] [= <-] Hk.
  destruct (group_key_inj mode c c' a a') as (-> & -> & ->); try done; [apply (Hb _ eq_refl) | apply (Hb' _ eq_refl)].
Qed.

(** An endpoint plays in the group of a composition when it belongs to it. *)
Lemma plays_composition c0 x k c :
  c0 ∈ cs -> composition_of mode c0 = Some x -> c ∈ cs ->
  plays mode (composition_key x) k c =
  bool_decide (classify c = Some (MkClassification x.1.2 k.1) /\ native_kind c = k.2 /\ composition_of mode c = Some x).
Proof.
  intros Hc0 Hx Hc. symmetry. apply eq_true_iff_eq. rewrite bool_decide_eq_true, plays_true. split.
  - intros (Hcl & Hk & Hcx). exists x.1.2. split_and!; [done | done |].
    rewrite (composition_key_group _ _ _ Hcl) in Hcx. injection Hcx as <-. done.
  - intros (a & Hcl & Hk & Hg). pose proof (composition_key_group _ _ _ Hcl) as Hcx.
    assert (x = (participant_key_of c, a, candidate_composition_key mode c)) as -> by (by eapply (composition_key_inj c0 c)). done.
Qed.

Lemma group_composed key g :
  action_groups mode cs !! key = Some g ->
  exists x c, c ∈ cs /\ composition_of mode c = Some x /\ composition_key x = key /\ action_candidate (key, g) = composed mode cs x.
Proof.
  intros Hg. destruct (group_named _ _ _ _ Hg) as (c & r & Hc & Hcl & Hk). pose proof (composition_key_group _ _ _ Hcl) as Hx.
  eexists _, c. split_and!; [done | exact Hx | exact Hk |].
  assert (forall server, side (endpoints_of_side server) g = composed_side mode cs server (participant_key_of c, group_action g, candidate_composition_key mode c)) as Hside.
  { intros server. unfold side, composed_side. f_equal. apply mapM_ext. intros k.
    pose proof (group_lookup mode cs key k) as Hl. rewrite Hg in Hl. simpl in Hl. rewrite Hl.
    apply find_if_ext. intros c' Hc'. rewrite <- Hk.
    exact (plays_composition c _ k c' Hc Hx Hc'). }
  unfold action_candidate, composed. simpl. f_equal; [apply (Hside true) | apply (Hside false) | by rewrite <- Hk].
Qed.
End Compositions.

(** C38: The actions of a graph are exactly its compositions: one candidate
    for each participant, action and composition (one Node, as far as Nodes are
    known) that some endpoint belongs to, in the order of their keys, and no
    other; each reports the server, and the client, exactly when it has all
    eight endpoints of that side, with their GIDs in order, the first one of
    each role, and the Node of the first. *)
Theorem action_composition_spec mode cs :
  Forall candidate_ok cs ->
  exists xs, NoDup xs /\ (forall x, x ∈ xs <-> exists c, c ∈ cs /\ composition_of mode c = Some x) /\
    StronglySorted str_le (composition_key <$> xs) /\ compose_action_candidates mode cs = composed mode cs <$> xs.
Proof.
  intros Hok. set (m := action_groups mode cs).
  assert (exists xs, Forall2 (fun e x => (exists c, c ∈ cs /\ composition_of mode c = Some x) /\ composition_key x = e.1 /\
    action_candidate e = composed mode cs x) (map_elements m) xs) as [xs Hxs].
  { apply Forall_exists_Forall2_l, Forall_forall. intros [key g] He%elem_of_map_elements.
    destruct (group_composed mode cs Hok key g He) as (x & c & ? & ? & ? & ?). exists x. eauto. }
  assert (composition_key <$> xs = (map_elements m).*1) as Hkeys.
  { symmetry. apply list_eq_Forall2, Forall2_fmap_l, Forall2_fmap_r. eapply Forall2_impl; [exact Hxs|]. intros e x (_ & ? & _). by symmetry. }
  exists xs. split_and!.
  - apply (NoDup_fmap_1 composition_key). rewrite Hkeys. apply map_elements_keys.
  - intros x. split.
    + intros Hx. apply list_elem_of_lookup in Hx as [i Hi]. by destruct (Forall2_lookup_r _ _ _ _ _ Hxs Hi) as (e & _ & ? & _).
    + intros (c & Hc & Hx). assert (is_Some (m !! composition_key x)) as [g Hg].
      { unfold composition_of in Hx. destruct (classify c) as [[a r]|] eqn:Hcl; [|done]. injection Hx as <-.
        pose proof (group_lookup mode cs (group_key mode c a) (r, native_kind c)) as Hl.
        destruct (find_if (plays mode (group_key mode c a) (r, native_kind c)) cs) eqn:Hf.
        - change (composition_key _) with (group_key mode c a). unfold m. by destruct (action_groups mode cs !! _).
        - rewrite find_if_None in Hf. specialize (Hf c Hc). rewrite (proj2 (plays_true _ _ _ _)) in Hf; [done | by exists a]. }
      apply elem_of_map_elements, list_elem_of_lookup in Hg as [i Hi].
      destruct (Forall2_lookup_l _ _ _ _ _ Hxs Hi) as (x' & Hx' & (c' & Hc' & Hcx') & Hk & _). simpl in Hk.
      rewrite (composition_key_inj mode cs Hok c c' x x'); try done. by eapply list_elem_of_lookup_2.
  - rewrite Hkeys. apply map_elements_sorted.
  - unfold compose_action_candidates. apply list_eq_Forall2, Forall2_fmap_l, Forall2_fmap_r. eapply Forall2_impl; [exact Hxs|].
    by intros e x (_ & _ & ?).
Qed.

(** ** What availability means *)

(** The name, role, direction and wire type of each endpoint of a server. *)
Definition required (names : ActionEndpointNames) (types : ActionEndpointTypes)
    : list (NormalizedEndpointName * EndpointKind * str) :=
  [(MkNormalized (send_goal names) ServiceRequest, Reader, send_goal_request types);
   (MkNormalized (send_goal names) ServiceResponse, Writer, send_goal_response types);
   (MkNormalized (cancel_goal names) ServiceRequest, Reader, cancel_goal_request types);
   (MkNormalized (cancel_goal names) ServiceResponse, Writer, cancel_goal_response types);
   (MkNormalized (get_result names) ServiceRequest, Reader, get_result_request types);
   (MkNormalized (get_result names) ServiceResponse, Writer, get_result_response types);
   (MkNormalized (feedback names) Topic, Writer, feedback_type types);
   (MkNormalized (status names) Topic, Writer, status_type types)].

(** [c] is such an endpoint in composition [comp] of [p]. *)
Definition meets (mode : RuntimeMode) (p comp : str) (req : NormalizedEndpointName * EndpointKind * str)
    (c : EndpointCandidate) : Prop :=
  MkNormalized (c_logical_name c) (c_role c) = req.1.1 /\ native_kind c = req.1.2 /\ wire_type c = req.2 /\
  participant_key_of c = p /\ candidate_composition_key mode c = comp.

#[export] Instance NormalizedEndpointName_eq_dec : EqDecision NormalizedEndpointName.
Proof. solve_decision. Defined.

#[export] Instance meets_dec mode p comp req c : Decision (meets mode p comp req c).
Proof. unfold meets. apply _. Defined.

(** A found endpoint against the QoS of the client; requests go to the server. *)
Definition compatible_endpoints (q : ActionClientEndpointQos) (es : list EndpointCandidate) : Prop :=
  Forall2 (fun client_end c => match client_end with
                               | (qc, Reader) => qos_compatible qc (c_qos c) = true
                               | (qc, Writer) => qos_compatible (c_qos c) qc = true
                               end)
    [(send_goal_request_writer q, Reader); (send_goal_response_reader q, Writer);
     (cancel_goal_request_writer q, Reader); (cancel_goal_response_reader q, Writer);
     (get_result_request_writer q, Reader); (get_result_response_reader q, Writer);
     (feedback_reader q, Writer); (status_reader q, Writer)] es.

Lemma find_endpoint_meets cs p n r k wire mode comp :
  find_endpoint cs p n r k wire mode comp = find_if (fun c => bool_decide (meets mode p comp (MkNormalized n r, k, wire) c)) cs.
Proof.
  unfold find_endpoint. apply find_if_ext. intros c _. unfold meets. simpl. symmetry.
  apply eq_bool_prop_intro. rewrite bool_decide_spec. unfold str_eqb. rewrite !andb_True, !bool_decide_spec. naive_solver.
Qed.

(** The composition test, endpoint by endpoint. *)
Lemma composition_complete_spec cs p names types mode comp q :
  action_server_composition_complete cs p names types mode comp q = true <->
  exists es, Forall2 (fun req c => find_if (fun c => bool_decide (meets mode p comp req c)) cs = Some c) (required names types) es /\
    match q with None => True | Some q => compatible_endpoints q es end.
Proof.
  unfold action_server_composition_complete, required. rewrite !find_endpoint_meets. split.
  - repeat match goal with |- context [match find_if ?f cs with _ => _ end] => destruct (find_if f cs) eqn:? end; try done.
    intros Hq. eexists. split; [by repeat (apply Forall2_cons; split; [eassumption|])|].
    destruct q as [q|]; [|done]. rewrite !andb_true_iff in Hq. unfold compatible_endpoints.
    destruct_and!. by repeat (apply Forall2_cons; split; [done|]).
  - intros (es & Hes & Hq).
    repeat match goal with H : Forall2 _ (_ :: _) ?l |- _ => is_var l; apply Forall2_cons_inv_l in H as (? & ? & ? & H & ->) end.
    repeat match goal with H : find_if _ cs = Some _ |- _ => rewrite H; clear H end.
    destruct q as [q|]; [|done]. unfold compatible_endpoints in Hq.
    repeat match goal with H : Forall2 _ (_ :: _) (_ :: _) |- _ => apply Forall2_cons in H as [-> H] end. done.
Qed.

(** Searching the sets of compositions and participants. *)
Lemma participant_has_spec cs p names types mode q :
  participant_has_action_server cs p names types mode q = true <->
  exists comp, action_server_composition_complete cs p names types mode comp q = true.
Proof.
  unfold participant_has_action_server. rewrite existsb_exists. split; [naive_solver|]. intros (comp & Hc).
  exists comp. split; [|done]. apply list_elem_of_In, elem_of_set_elements, elem_of_list_to_set.
  apply composition_complete_spec in Hc as (es & Hes & _). apply Forall2_cons_inv_l in Hes as (c & ? & [Hc Hm]%find_if_Some & _ & _).
  apply bool_decide_eq_true in Hm as (_ & _ & _ & Hp & <-). apply list_elem_of_fmap. exists c. by rewrite list_elem_of_filter.
Qed.

Lemma has_action_server_cases cs names types mode q :
  has_action_server cs names types mode q = true <->
  exists p comp, action_server_composition_complete cs p names types mode comp q = true.
Proof.
  unfold has_action_server. rewrite existsb_exists. setoid_rewrite participant_has_spec. split; [naive_solver|].
  intros (p & comp & Hc). exists p. split; [|by exists comp].
  apply list_elem_of_In, elem_of_set_elements, elem_of_list_to_set.
  apply composition_complete_spec in Hc as (es & Hes & _). apply Forall2_cons_inv_l in Hes as (c & ? & [Hc Hm]%find_if_Some & _ & _).
  apply bool_decide_eq_true in Hm as (_ & _ & _ & <- & _). apply list_elem_of_fmap. by exists c.
Qed.

(** The endpoint a requirement stands for in the composition of actions. *)
Lemma meets_serves mode p comp fqn names types :
  derive_action_endpoint_names fqn = Some names ->
  Forall2 (fun req k => forall c, meets mode p comp req c -> serves mode p fqn comp k c) (required names types) server_endpoints.
Proof.
  intros Hd. destruct (action_names_classified fqn names Hd) as [Hcl _]. unfold action_endpoints in Hcl.
  repeat match goal with H : Forall _ (_ :: _) |- _ => apply Forall_cons in H as [? H] end.
  unfold required, server_endpoints.
  repeat (apply Forall2_cons; split; [intros c (Hn & Hk & _ & Hp & Hcomp); unfold serves, classify; by rewrite Hn|]). done.
Qed.

(** Availability of an action server: without QoS it is available exactly
    when some composition of some participant has an endpoint of the right name,
    role, direction and wire type for each of the eight; with the QoS of a
    client it is available exactly when in some such composition the first
    match of each is compatible with the client's endpoint; and whenever it is
    available the graph reports a server of that action. *)
Theorem has_action_server_spec cs names types mode fqn :
  derive_action_endpoint_names fqn = Some names ->
  (has_action_server cs names types mode None = true <->
   exists p comp, Forall (fun req => exists c, c ∈ cs /\ meets mode p comp req c) (required names types)) /\
  (forall q, has_action_server cs names types mode (Some q) = true <->
   exists p comp es,
     Forall2 (fun req c => find_if (fun c => bool_decide (meets mode p comp req c)) cs = Some c) (required names types) es /\
     compatible_endpoints q es) /\
  (forall q, has_action_server cs names types mode q = true -> Forall candidate_ok cs ->
   exists cand, cand ∈ compose_action_candidates mode cs /\ ac_action cand = fqn /\ is_Some (ac_server cand)).
Proof.
  intros Hd. setoid_rewrite has_action_server_cases. setoid_rewrite composition_complete_spec.
  assert (Hall : forall p comp es,
    Forall2 (fun req c => find_if (fun c => bool_decide (meets mode p comp req c)) cs = Some c) (required names types) es ->
    Forall2 (fun req c => c ∈ cs /\ meets mode p comp req c) (required names types) es).
  { intros p comp es Hes. eapply Forall2_impl; [exact Hes|]. by intros req c [Hc Hm%bool_decide_eq_true]%find_if_Some. }
  split_and!.
  - split.
    + intros (p & comp & es & Hes%Hall & _). exists p, comp. apply Forall_lookup. intros i req Hreq.
      destruct (Forall2_lookup_l _ _ _ _ _ Hes Hreq) as (c & _ & ?). eauto.
    + intros (p & comp & Hreq). exists p, comp.
      enough (exists es, Forall2 (fun req c => find_if (fun c => bool_decide (meets mode p comp req c)) cs = Some c)
        (required names types) es) as [es Hes] by eauto.
      apply Forall_exists_Forall2_l. eapply Forall_impl; [exact Hreq|]. intros req (c & Hc & Hm). destruct (find_if _ cs) as [c'|] eqn:Hf; [eauto|].
      rewrite find_if_None in Hf. specialize (Hf c Hc). by rewrite bool_decide_eq_false in Hf.
  - done.
  - intros q (p & comp & es & Hes%Hall & _) Hok.
    destruct (proj2 (action_composed mode cs true Hok) p fqn comp) as (cand & s & Hin & Ha & Hs); [|by exists cand].
    pose proof (meets_serves mode p comp fqn names types Hd) as Hserves. apply Forall_lookup. intros i k Hk.
    destruct (Forall2_lookup_r _ _ _ _ _ Hserves Hk) as (req & Hreq & Hm).
    destruct (Forall2_lookup_l _ _ _ _ _ Hes Hreq) as (c & _ & Hc & Hmc). eauto.
Qed.

(** ** The candidates of a graph *)

(** Each GUID is registered once as a discovered and once as a local endpoint. *)
Definition guids_unique (g : DiscoveryGraph) : Prop :=
  NoDup (guid <$> endpoints g) /\ NoDup (l_guid <$> local_endpoints g).

Lemma erase_first_sublist {A} (p : A -> bool) l : sublist (erase_first p l) l.
Proof. induction l as [|x l IH]; simpl; [done|]. destruct (p x); [by apply sublist_cons | by apply sublist_skip]. Qed.

Lemma NoDup_fmap_snoc {A B} (key : A -> B) l x : NoDup (key <$> l) -> key x ∉ key <$> l -> NoDup (key <$> l ++ [x]).
Proof.
  intros Hl Hx. rewrite fmap_app. apply NoDup_app. split_and!; [done| |apply NoDup_singleton].
  by intros y Hy ->%list_elem_of_singleton.
Qed.

Lemma mutate_unique change g : guids_unique (change g).2 -> guids_unique g -> guids_unique (mutate change g).1.
Proof.
  intros Hc Hg. unfold mutate. case_decide; [|done]. destruct (change g) as [[] g']; simpl in *; try done.
  by destruct (revision g' =? UINT64_MAX)%Z.
Qed.

Lemma guids_unique_step op g : guids_unique g -> guids_unique (graph_step op g).
Proof.
  intros Hg. pose proof Hg as [He Hl]. unfold graph_step. destruct op; simpl.
  - apply mutate_unique; [|done]. unfold participant_change. by repeat case_match.
  - apply mutate_unique; [|done]. unfold endpoint_change.
    destruct (participant_for (guidPrefix q) g) as [i g1] eqn:Hp.
    assert (H1 : endpoints g1 = endpoints g /\ local_endpoints g1 = local_endpoints g).
    { unfold participant_for in Hp. case_match; by simplify_eq/=. }
    destruct H1 as [H1 H1']. assert (guids_unique g1) by (unfold guids_unique; by rewrite H1, H1').
    case_match; [done|]. destruct (find_if (guid_is q) (endpoints g1)) eqn:Hf.
    + repeat case_match; try done. split; simpl; [|by rewrite H1']. by rewrite update_first_fmap, H1 by done.
    + split; simpl; [|by rewrite H1']. rewrite H1 in *. apply NoDup_fmap_snoc; [done|]. simpl.
      rewrite find_if_None in Hf. intros (e & -> & Hin)%list_elem_of_fmap. specialize (Hf e Hin).
      by apply bool_decide_eq_false in Hf.
  - apply mutate_unique; [|done]. unfold local_node_change. by repeat case_match.
  - unfold release_local_node. case_match; [done|]. apply mutate_unique; [|done]. unfold release_change. by case_match.
  - unfold add_local_endpoint. case_match; [done|]. apply mutate_unique; [|done]. unfold local_endpoint_change.
    case_match; [|done]. destruct (find_if (l_guid_is q) (local_endpoints g)) eqn:Hf.
    + case_match; [done|]. split; simpl; [done|]. by rewrite update_first_fmap by done.
    + split; simpl; [done|]. apply NoDup_fmap_snoc; [done|]. simpl.
      rewrite find_if_None in Hf. intros (e & -> & Hin)%list_elem_of_fmap. specialize (Hf e Hin).
      by apply bool_decide_eq_false in Hf.
  - apply mutate_unique; [|done]. unfold remove_endpoint_change. repeat case_match; try done.
    split; simpl; [done|]. eapply sublist_NoDup; [exact Hl|]. apply fmap_sublist, erase_first_sublist.
  - apply mutate_unique; [|done]. unfold remote_nodes_change. by repeat case_match.
  - unfold subscribe. by case_match.
  - done.
  - done.
Qed.

Lemma guids_unique_run ops : guids_unique (run graph_step ops new_graph).
Proof. apply run_invariant; [apply guids_unique_step|]. split; constructor. Qed.

Lemma omap_keys {A B C} (f : A -> option B) (h : B -> C) (k : A -> C) l :
  (forall x y, f x = Some y -> h y = k x) -> sublist (h <$> omap f l) (k <$> l).
Proof.
  intros Hf. induction l as [|x l IH]; simpl; [done|]. destruct (f x) as [y|] eqn:Hx; simpl.
  - rewrite (Hf x y Hx). by apply sublist_skip.
  - by apply sublist_cons.
Qed.

Lemma NoDup_gids {A} (key : A -> GUID_t) l :
  Forall (fun e => GUID_wf (key e)) l -> NoDup (key <$> l) -> NoDup ((fun e => to_gid (key e)) <$> l).
Proof.
  intros Hwf. rewrite (list_fmap_compose key to_gid). intros Hnd. apply NoDup_fmap_2_strong; [|done].
  rewrite Forall_forall in Hwf. intros a b (e & -> & He)%list_elem_of_fmap (e' & -> & He')%list_elem_of_fmap.
  apply to_gid_inj; by apply Hwf.
Qed.

Lemma local_candidate_Some mode m e c :
  local_candidate mode m e = Some c ->
  l_topic e <> kGraphMetadataTopicName /\ gid c = to_gid (l_guid e) /\ native_kind c = l_kind e /\
  wire_type c = l_type e /\ c_qos c = l_qos e /\
  normalize_endpoint_name mode (l_topic e) = Some (MkNormalized (c_logical_name c) (c_role c)) /\
  c_node c = (fun n => (node_name n, node_namespace n)) <$> m !! node_id e.
Proof.
  unfold local_candidate. destruct (str_eqb _ _) eqn:Hm; [done|]. apply str_eqb_false in Hm.
  destruct (normalize_endpoint_name mode (l_topic e)) as [[]|]; [|done]. by intros [= <-].
Qed.

Lemma remote_candidate_Some mode m gids live e c :
  remote_candidate mode m gids live e = Some c ->
  lifecycle e = Added /\ p_lifecycle <$> live !! participant e <> Some Removed /\
  topic e <> kGraphMetadataTopicName /\ to_gid (guid e) ∉ gids /\
  gid c = to_gid (guid e) /\ native_kind c = kind e /\ wire_type c = type e /\ c_qos c = qos e /\
  normalize_endpoint_name mode (topic e) = Some (MkNormalized (c_logical_name c) (c_role c)).
Proof.
  unfold remote_candidate. destruct (bool_decide_reflect (lifecycle e = Removed)) as [|Hl]; [done|].
  destruct (bool_decide_reflect (p_lifecycle <$> live !! participant e = Some Removed)); [done|].
  destruct (str_eqb _ _) eqn:Hm; [done|]. apply str_eqb_false in Hm.
  destruct (bool_decide_reflect (to_gid (guid e) ∈ gids)); [done|].
  destruct (normalize_endpoint_name mode (topic e)) as [[]|]; [|done]. intros [= <-].
  split_and!; try done. by destruct (lifecycle e).
Qed.

(** Every GUID in the graph is a GUID. *)
Definition guids_wf (g : DiscoveryGraph) : Prop :=
  Forall (fun e => GUID_wf (guid e)) (endpoints g) /\ Forall (fun e => GUID_wf (l_guid e)) (local_endpoints g).

(** What the graph lists. After any history of the discovery graph, in a
    view that nothing changes while it is read, each endpoint is listed at most
    once, under its own kind, type, QoS and logical name; a local endpoint is
    listed as it was registered, with the identity of its Node; no discovered
    endpoint is listed that was removed, or whose participant was; and every
    live endpoint with a transport name of this mode is listed, but for the
    graph metadata channel. *)
Theorem candidates_listed_once mode ops :
  let g := run graph_step ops new_graph in
  guids_wf g ->
  let cs := collect_endpoint_candidates mode (view g) (participants g) in
  NoDup (gid <$> cs) /\
  (forall c, c ∈ cs ->
     (exists e, e ∈ local_endpoints g /\ gid c = to_gid (l_guid e) /\ native_kind c = l_kind e /\
        wire_type c = l_type e /\ c_qos c = l_qos e /\
        normalize_endpoint_name mode (l_topic e) = Some (MkNormalized (c_logical_name c) (c_role c)) /\
        c_node c = (fun n => (node_name n, node_namespace n)) <$> find_if (id_is (node_id e)) (local_nodes g)) \/
     (exists e, live_endpoint (guidPrefix (guid e)) g e /\ gid c = to_gid (guid e) /\ native_kind c = kind e /\
        wire_type c = type e /\ c_qos c = qos e /\
        normalize_endpoint_name mode (topic e) = Some (MkNormalized (c_logical_name c) (c_role c)))) /\
  (forall e, live_endpoint (guidPrefix (guid e)) g e -> topic e <> kGraphMetadataTopicName ->
     is_Some (normalize_endpoint_name mode (topic e)) -> to_gid (guid e) ∈ gid <$> cs).
Proof.
  intros g [Hwe Hwl] cs. destruct (guids_unique_run ops) as [Hue Hul]. fold g in Hue, Hul.
  assert (Hgwf : graph_wf g) by (apply run_invariant; [apply graph_step_wf | apply new_graph_wf]).
  unfold cs, collect_endpoint_candidates. simpl.
  set (locals := omap (local_candidate mode (nodes_by_id (view g))) (local_endpoints g)).
  set (remotes := omap _ (endpoints g)). split_and!.
  - rewrite fmap_app. apply NoDup_app. split_and!.
    + eapply sublist_NoDup; [apply (NoDup_gids l_guid _ Hwl Hul)|]. apply omap_keys.
      intros e c Hc. apply local_candidate_Some in Hc. tauto.
    + intros i Hi (c & -> & Hc)%list_elem_of_fmap. apply list_elem_of_omap in Hc as (e & _ & He).
      apply remote_candidate_Some in He as (_ & _ & _ & Hno & Hgid & _). by rewrite <- Hgid in Hno.
    + eapply sublist_NoDup; [apply (NoDup_gids guid _ Hwe Hue)|]. apply omap_keys.
      intros e c Hc. apply remote_candidate_Some in Hc. tauto.
  - intros c Hc. apply elem_of_app in Hc as [Hc|Hc]; apply list_elem_of_omap in Hc as (e & Hin & He);
      [left|right]; exists e.
    + apply local_candidate_Some in He as (_ & ? & ? & ? & ? & ? & ->). split_and!; try done. f_equal.
      unfold nodes_by_id. rewrite emplace_all_lookup, lookup_empty. simpl. rewrite option_fmap_id.
      apply find_if_ext. intros n _. unfold id_is.
      destruct (Z.eqb_spec (id n) (node_id e)); [by rewrite bool_decide_eq_true_2 | by rewrite bool_decide_eq_false_2].
    + apply remote_candidate_Some in He as (? & Hp & _ & _ & ? & ? & ? & ? & ?). split_and!; try done.
      destruct Hgwf as [_ Hpt]. rewrite Forall_forall in Hpt. destruct (Hpt e Hin) as (p & Hpp & _).
      split_and!; try done. exists p. split; [done|]. rewrite Hpp in Hp. simpl in Hp. by destruct (p_lifecycle p).
  - intros e (Hin & _ & Hl & p & Hp & Hpl) Ht [[ln rl] Hn]. rewrite fmap_app, elem_of_app.
    destruct (decide (to_gid (guid e) ∈ gid <$> locals)) as [|Hno]; [by left|]. right.
    apply list_elem_of_fmap. eexists. split; [|apply list_elem_of_omap; exists e; split; [done|]; unfold remote_candidate].
    2: { rewrite Hl, Hp. simpl. rewrite Hpl. rewrite !bool_decide_eq_false_2 by done.
         rewrite (proj2 (str_eqb_false _ _)) by done. by rewrite Hn. }
    done.
Qed.

(** ** A graph with one action server *)

Lemma Forall_candidate_ok cs :
  forallb (fun c => (length (participant_key_of c) =? 12)%nat
                    && match classify c with Some cl => negb (has_char bar (action_name cl)) | None => true end) cs = true ->
  Forall candidate_ok cs.
Proof.
  rewrite forallb_forall. intros Hall. apply Forall_forall. intros c Hc%list_elem_of_In. specialize (Hall c Hc).
  apply andb_true_iff in Hall as [Hl Hb]. split; [by apply Nat.eqb_eq|]. intros cl Hcl. rewrite Hcl in Hb.
  apply negb_true_iff in Hb. by apply bool_decide_eq_false in Hb.
Qed.

Definition fib_names : ActionEndpointNames :=
  default (MkActionNames [] [] [] [] []) (derive_action_endpoint_names $"/fib").
Definition fib_types : ActionEndpointTypes :=
  MkActionTypes $"G" $"G_" $"C" $"C_" $"R" $"R_" $"F" $"S".

Definition fib_endpoint (prefix : GuidPrefix) (req : NormalizedEndpointName * EndpointKind * str) : EndpointCandidate :=
  MkCandidate (MkGid (prefix ++ replicate 4 1%Z)) req.1.2 (role req.1.1) (logical_name req.1.1) req.2 ros2_default
    (Some ($"server", $"/")) (participant_key prefix).

Definition fib_server (prefix : GuidPrefix) : list EndpointCandidate := fib_endpoint prefix <$> required fib_names fib_types.

Lemma fib_server_ok : Forall candidate_ok (fib_server (replicate 12 7%Z)).
Proof. apply Forall_candidate_ok. vm_compute. reflexivity. Qed.

(** Two participants with a server of the same action: both are reported. *)
Definition two_fib_servers : list EndpointCandidate := fib_server (replicate 12 7%Z) ++ fib_server (replicate 12 8%Z).

Lemma two_fib_servers_ok : Forall candidate_ok two_fib_servers.
Proof. apply Forall_candidate_ok. vm_compute. reflexivity. Qed.

Lemma action_composition_spec_witness :
  length (compose_action_candidates ROS2 two_fib_servers) = 2%nat /\
  exists xs, NoDup xs /\ (forall x, x ∈ xs <-> exists c, c ∈ two_fib_servers /\ composition_of ROS2 c = Some x) /\
    StronglySorted str_le (composition_key <$> xs) /\ compose_action_candidates ROS2 two_fib_servers = composed ROS2 two_fib_servers <$> xs.
Proof. split; [vm_compute; reflexivity | apply (action_composition_spec ROS2 two_fib_servers two_fib_servers_ok)]. Defined.

Lemma has_action_server_spec_witness :
  exists cand, cand ∈ compose_action_candidates ROS2 (fib_server (replicate 12 7%Z)) /\ ac_action cand = $"/fib" /\
    is_Some (ac_server cand).
Proof.
  apply (proj2 (proj2 (has_action_server_spec (fib_server (replicate 12 7%Z)) fib_names fib_types ROS2 $"/fib" eq_refl)) None);
    [vm_compute; reflexivity | apply fib_server_ok].
Defined.

(** The participant key of an action candidate is cut at the first bar byte
    of the GUID prefix. *)
Example participant_key_cut :
  let prefix := [1; 124; 2; 3; 4; 5; 6; 7; 8; 9; 10; 11]%Z in
  ac_participant_key <$> compose_action_candidates ROS2 (fib_server prefix) = [octets_str [1]%Z] /\
  octets_str [1]%Z <> participant_key prefix.
Proof. vm_compute. done. Qed.

(** A graph with a local publisher and a remote subscriber. *)
Definition chatter_ops : list GraphOp :=
  [Op_add_node $"talker" $"/";
   Op_add_endpoint (MkGUID (replicate 12 1) (replicate 4 1)) Writer $"rt/chatter" $"String" 1 ros2_default;
   Op_endpoint (MkGUID (replicate 12 2) (replicate 4 1)) Reader $"rt/chatter" $"String" Added ros2_default]%Z.

Lemma guids_wf_dec g :
  forallb (fun e => (length (guidPrefix e) =? 12)%nat && (length (entityId e) =? 4)%nat
             && forallb (fun b => (0 <=? b) && (b <? 256))%Z (guidPrefix e ++ entityId e))
    ((guid <$> endpoints g) ++ (l_guid <$> local_endpoints g)) = true -> guids_wf g.
Proof.
  rewrite forallb_forall. intros Hall.
  assert (Hwf : forall q, q ∈ (guid <$> endpoints g) ++ (l_guid <$> local_endpoints g) -> GUID_wf q).
  { intros q Hq%list_elem_of_In. specialize (Hall q Hq). rewrite !andb_true_iff, forallb_app, andb_true_iff in Hall.
    rewrite !forallb_forall in Hall. destruct Hall as [[H1 H2] [H3 H4]].
    split; (split; [by apply Nat.eqb_eq|]); apply Forall_forall; intros b Hb%list_elem_of_In; [apply H3 in Hb | apply H4 in Hb]; lia. }
  split; apply Forall_forall; intros e He; apply Hwf; set_solver.
Qed.

Lemma candidates_listed_once_witness :
  NoDup (gid <$> collect_endpoint_candidates ROS2 (view (run graph_step chatter_ops new_graph))
                   (participants (run graph_step chatter_ops new_graph))).
Proof. apply (candidates_listed_once ROS2 chatter_ops). apply guids_wf_dec. vm_compute. reflexivity. Defined.

(** A view is taken, and before its candidates are collected the participant of
    the subscriber leaves: the subscriber is missing from the candidates of a
    revision in which it was live. *)
Example torn_view :
  let g := run graph_step chatter_ops new_graph in
  let g' := graph_step (Op_participant (replicate 12 2%Z) Removed) g in
  length (collect_endpoint_candidates ROS2 (view g) (participants g)) = 2%nat /\
  length (collect_endpoint_candidates ROS2 (view g) (participants g')) = 1%nat /\
  (v_revision (view g) < revision g')%Z.
Proof. vm_compute. done. Qed.
