(* ===== verification/GraphSnapshot.v ===== *)
(** * GraphSnapshot: graph queries and graph events

    Models src/graph.cpp - the snapshot of a graph with its topics, services
    and actions, and the guards of the queries - and [GraphEventState] of
    src/impl/graph_impl.hpp.  The loops that count into several maps at once
    are written as one fold for each map, over the same list. *)

From S2P Require Import Prelude Strings Identity Qos Names Discovery Metadata GraphCandidates.
From stdpp Require Import gmap sorting.
Local Open Scope dmw_scope.

(** ** Folds into a map *)

Section CollectBy.
Context {A V : Type} (key : A -> str) (upd : A -> option V -> V).

(** [m[key(x)] = upd(x)], element by element. *)
Definition collect_by (l : list A) : gmap str V :=
  fold_left (fun m x => <[key x := upd x (m !! key x)]> m) l ∅.

Lemma collect_by_snoc l x : collect_by (l ++ [x]) = <[key x := upd x (collect_by l !! key x)]> (collect_by l).
Proof. unfold collect_by. by rewrite fold_left_app. Qed.

(** An entry accumulates the elements with its key, and only those. *)
Lemma collect_by_lookup l k :
  collect_by l !! k = fold_left (fun o x => Some (upd x o)) (filter (fun x => key x = k) l) None.
Proof.
  induction l as [|x l IH] using rev_ind; [done|].
  rewrite collect_by_snoc, filter_app, fold_left_app, <- IH. rewrite filter_cons, filter_nil.
  case_decide as Hk; simpl; [by subst; rewrite lookup_insert_eq | by rewrite lookup_insert_ne].
Qed.

Lemma collect_by_is_Some l k : is_Some (collect_by l !! k) <-> exists x, x ∈ l /\ key x = k.
Proof.
  induction l as [|x l IH] using rev_ind.
  - unfold collect_by. simpl. rewrite lookup_empty. split; [by intros [] | set_solver].
  - rewrite collect_by_snoc. destruct (decide (key x = k)) as [<-|Hne].
    + rewrite lookup_insert_eq. split; [set_solver | done].
    + rewrite lookup_insert_ne, IH by done. set_solver.
Qed.

(** A property of the entry of a key and the elements it was made of. *)
Lemma collect_by_ind (P : list A -> V -> Prop) l k v :
  (forall x, key x = k -> P [x] (upd x None)) ->
  (forall l v x, key x = k -> P l v -> P (l ++ [x]) (upd x (Some v))) ->
  collect_by l !! k = Some v -> P (filter (fun x => key x = k) l) v.
Proof.
  intros H0 HS. revert v. induction l as [|x l IH] using rev_ind; intros v; [done|].
  rewrite collect_by_snoc, filter_app, filter_cons, filter_nil. case_decide as Hk.
  - subst k. rewrite lookup_insert_eq. intros [= <-]. destruct (collect_by l !! key x) as [v|] eqn:Hv.
    + apply HS; [done | by apply IH].
    + destruct (filter (fun y => key y = key x) l) as [|y l'] eqn:Hl; [by apply H0|].
      assert (y ∈ filter (fun y => key y = key x) l) as [Hy ?]%list_elem_of_filter by (rewrite Hl; left).
      assert (is_Some (collect_by l !! key x)) as [? ?] by (apply collect_by_is_Some; eauto). congruence.
  - rewrite lookup_insert_ne, app_nil_r by done. apply IH.
Qed.
End CollectBy.

(** ** Public graph types (include/dmw/graph.hpp) *)

Inductive EndpointSide := Publisher | Subscriber.
Inductive RoleKind := ClientKind | ServerKind.

#[export] Instance EndpointSide_eq_dec : EqDecision EndpointSide.
Proof. solve_decision. Defined.
#[export] Instance RoleKind_eq_dec : EqDecision RoleKind.
Proof. solve_decision. Defined.

Record TopicEndpointInfo := MkTopicEndpoint {
  te_gid : Gid; te_kind : EndpointSide; te_node : str * str; te_topic : str; te_wire_type : str; te_qos : Qos }.

Record TopicGraphInfo := MkTopicInfo {
  topic_name : str; wire_types : list str; publisher_count : nat; subscriber_count : nat }.

Record ServiceEndpointInfo := MkServiceEndpoint {
  se_kind : RoleKind; se_node : str * str; se_service : str; request_endpoint_gid : Gid; response_endpoint_gid : Gid;
  request_wire_type : str; response_wire_type : str }.

Record ServiceGraphInfo := MkServiceInfo {
  service_name : str; request_wire_types : list str; response_wire_types : list str;
  client_candidate_count : nat; server_candidate_count : nat }.

Record ActionEndpointInfo := MkActionEndpoint {
  ae_kind : RoleKind; ae_node : str * str; ae_action : str; endpoint_gids : list Gid }.

Record ActionGraphInfo := MkActionInfo {
  action_info_name : str; action_client_count : nat; action_server_count : nat }.

Record GraphSnapshot := MkSnapshot {
  snapshot_revision : Z; snapshot_nodes : list (str * str);
  topics : list TopicGraphInfo; topic_endpoints : list TopicEndpointInfo;
  services : list ServiceGraphInfo; service_endpoints : list ServiceEndpointInfo;
  actions : list ActionGraphInfo; action_endpoints : list ActionEndpointInfo }.

(** Name and namespace, both empty without a Node. *)
Definition node_strings (n : option (str * str)) : str * str := default ([], []) n.

(** The set of types of each name, as [std::map<std::string, std::set<...>>]. *)
Definition add_type (x : str * str) (o : option (gset str)) : gset str := {[x.2]} ∪ default ∅ o.

Definition types_by (l : list (str * str)) : gmap str (gset str) := collect_by fst add_type l.

(** [set.assign(types.begin(), types.end())], or nothing for a missing name. *)
Definition types_of (m : gmap str (gset str)) (name : str) : list str := from_option set_elements [] (m !! name).

(** ** Topics *)

Definition topic_endpoint (c : EndpointCandidate) : option TopicEndpointInfo :=
  if negb (bool_decide (c_role c = Topic)) then None
  else Some (MkTopicEndpoint (gid c) (if candidate_is_publisher c then Publisher else Subscriber)
               (node_strings (c_node c)) (c_logical_name c) (wire_type c) (c_qos c)).

(** The counts of a topic; its types are filled in at the end. *)
Definition count_topic (i : TopicEndpointInfo) (o : option TopicGraphInfo) : TopicGraphInfo :=
  let a := default (MkTopicInfo [] [] 0 0) o in
  if bool_decide (te_kind i = Publisher)
  then MkTopicInfo (te_topic i) (wire_types a) (publisher_count a + 1) (subscriber_count a)
  else MkTopicInfo (te_topic i) (wire_types a) (publisher_count a) (subscriber_count a + 1).

Definition topic_infos (endpoints : list TopicEndpointInfo) : list TopicGraphInfo :=
  let types := types_by ((fun i => (te_topic i, te_wire_type i)) <$> endpoints) in
  (fun entry => MkTopicInfo (topic_name entry.2) (types_of types entry.1) (publisher_count entry.2) (subscriber_count entry.2))
    <$> map_elements (collect_by te_topic count_topic endpoints).

(** ** Services *)

Record ServiceGroup := MkServiceGroup {
  sg_name : str; request_reader : option EndpointCandidate; request_writer : option EndpointCandidate;
  response_reader : option EndpointCandidate; response_writer : option EndpointCandidate }.

Definition service_key (mode : RuntimeMode) (c : EndpointCandidate) : str := group_key mode c (c_logical_name c).

(** One turn of the loop: a later endpoint of the same kind replaces an
    earlier one. *)
Definition add_service (c : EndpointCandidate) (o : option ServiceGroup) : ServiceGroup :=
  let g := default (MkServiceGroup [] None None None None) o in
  let reader := bool_decide (native_kind c = Reader) in
  if bool_decide (c_role c = ServiceRequest) then
    if reader
    then MkServiceGroup (c_logical_name c) (Some c) (request_writer g) (response_reader g) (response_writer g)
    else MkServiceGroup (c_logical_name c) (request_reader g) (Some c) (response_reader g) (response_writer g)
  else
    if reader
    then MkServiceGroup (c_logical_name c) (request_reader g) (request_writer g) (Some c) (response_writer g)
    else MkServiceGroup (c_logical_name c) (request_reader g) (request_writer g) (response_reader g) (Some c).

Definition service_groups (mode : RuntimeMode) (cs : list EndpointCandidate) : gmap str ServiceGroup :=
  collect_by (service_key mode) add_service (filter (fun c => c_role c <> Topic) cs).

(** A composed Server or Client; its Node is that of the request endpoint. *)
Definition service_info (kind : RoleKind) (name : str) (request response : option EndpointCandidate)
    : option ServiceEndpointInfo :=
  q ← request; r ← response;
  Some (MkServiceEndpoint kind (node_strings (c_node q)) name (gid q) (gid r) (wire_type q) (wire_type r)).

Definition server_info (g : ServiceGroup) : option ServiceEndpointInfo :=
  service_info ServerKind (sg_name g) (request_reader g) (response_writer g).
Definition client_info (g : ServiceGroup) : option ServiceEndpointInfo :=
  service_info ClientKind (sg_name g) (request_writer g) (response_reader g).

Definition service_endpoint_infos (groups : list ServiceGroup) : list ServiceEndpointInfo :=
  g ← groups; option_list (server_info g) ++ option_list (client_info g).

Definition count_some {A} (o : option A) : nat := if o then 1 else 0.

Definition count_service (g : ServiceGroup) (o : option ServiceGraphInfo) : ServiceGraphInfo :=
  let a := default (MkServiceInfo [] [] [] 0 0) o in
  MkServiceInfo (sg_name g) (request_wire_types a) (response_wire_types a)
    (client_candidate_count a + count_some (client_info g)) (server_candidate_count a + count_some (server_info g)).

Definition named_types (g : ServiceGroup) (endpoints : list (option EndpointCandidate)) : list (str * str) :=
  o ← endpoints; c ← option_list o; [(sg_name g, wire_type c)].

Definition service_infos (groups : list ServiceGroup) : list ServiceGraphInfo :=
  let requests := types_by (g ← groups; named_types g [request_reader g; request_writer g]) in
  let responses := types_by (g ← groups; named_types g [response_reader g; response_writer g]) in
  (fun entry => MkServiceInfo (service_name entry.2) (types_of requests entry.1) (types_of responses entry.1)
                  (client_candidate_count entry.2) (server_candidate_count entry.2))
    <$> map_elements (collect_by sg_name count_service groups).

(** ** Actions *)

Definition action_info (kind : RoleKind) (name : str) (s : option ActionSide) : option ActionEndpointInfo :=
  (fun s => MkActionEndpoint kind (node_strings (side_node s)) name (side_gids s)) <$> s.

Definition action_endpoint_infos (cands : list ActionCandidate) : list ActionEndpointInfo :=
  c ← cands; option_list (action_info ServerKind (ac_action c) (ac_server c))
             ++ option_list (action_info ClientKind (ac_action c) (ac_client c)).

Definition count_action (c : ActionCandidate) (o : option ActionGraphInfo) : ActionGraphInfo :=
  let a := default (MkActionInfo [] 0 0) o in
  MkActionInfo (ac_action c) (action_client_count a + count_some (ac_client c)) (action_server_count a + count_some (ac_server c)).

Definition action_infos (cands : list ActionCandidate) : list ActionGraphInfo :=
  snd <$> map_elements (collect_by ac_action count_action cands).

(** ** The snapshot *)

Definition node_infos (v : GraphView) : list (str * str) :=
  ((fun n => (node_name n, node_namespace n)) <$> v_local_nodes v)
  ++ (participant ← v_remote_nodes v; (fun n => (r_name n, r_namespace n)) <$> nodes participant).

(** [assemble_snapshot], with the participants as they are while it runs. *)
Definition assemble_snapshot (mode : RuntimeMode) (v : GraphView) (live : list ParticipantRecord) : GraphSnapshot :=
  let cs := collect_endpoint_candidates mode v live in
  let endpoints := omap topic_endpoint cs in
  let groups := snd <$> map_elements (service_groups mode cs) in
  let cands := compose_action_candidates mode cs in
  MkSnapshot (v_revision v) (node_infos v) (topic_infos endpoints) endpoints (service_infos groups)
    (service_endpoint_infos groups) (action_infos cands) (action_endpoint_infos cands).

(** [graph_revision] and [graph_snapshot]; [operation] is the outcome of
    [try_acquire_operation], [g] the graph after the pending metadata was
    ingested. *)
Definition graph_query {T} (operation : bool) (g : DiscoveryGraph) (value : T) : Result T :=
  if negb operation then fail ContextShutdown "Context is shut down"
  else if negb (bool_decide (health g = Healthy)) then fail DDSError "Discovery graph is unavailable"
  else success value.

Definition graph_revision (operation : bool) (g : DiscoveryGraph) : Result Z := graph_query operation g (revision g).

Definition graph_snapshot (mode : RuntimeMode) (operation : bool) (g : DiscoveryGraph) : Result GraphSnapshot :=
  graph_query operation g (assemble_snapshot mode (view g) (participants g)).

(** ** Counts and lists agree *)

(** The entries of a folded map whose values carry their key as [name]. *)
Lemma collect_by_names {A V B} (key : A -> str) (upd : A -> option V -> V) (out : str * V -> B) (name : B -> str) l :
  (forall x o, name (out (key x, upd x o)) = key x) ->
  let listed := out <$> map_elements (collect_by key upd l) in
  StronglySorted str_le (name <$> listed) /\ NoDup (name <$> listed) /\
  (forall k, k ∈ name <$> listed <-> exists x, x ∈ l /\ key x = k) /\
  (forall b, b ∈ listed -> exists k v, collect_by key upd l !! k = Some v /\ name b = k /\ b = out (k, v)).
Proof.
  intros Hname listed.
  assert (Hv : forall k v, collect_by key upd l !! k = Some v -> name (out (k, v)) = k).
  { intros k v Hk. refine (collect_by_ind key upd (fun _ v => name (out (k, v)) = k) l k v _ _ Hk).
    - intros x <-. apply Hname.
    - intros _ w x <- _. apply Hname. }
  assert (Hkeys : name <$> listed = (map_elements (collect_by key upd l)).*1).
  { unfold listed. rewrite <- list_fmap_compose. apply list_fmap_ext. intros i [k v] Hi. apply Hv.
    apply elem_of_map_elements. by eapply list_elem_of_lookup_2. }
  rewrite Hkeys. split_and!; [apply map_elements_sorted | apply map_elements_keys | |].
  - intros k. rewrite <- (collect_by_is_Some key upd). rewrite list_elem_of_fmap. split.
    + intros ([k' v] & -> & Hk%elem_of_map_elements). by exists v.
    + intros [v Hk]. exists (k, v). by rewrite elem_of_map_elements.
  - intros b ([k v] & -> & Hk%elem_of_map_elements)%list_elem_of_fmap. exists k, v. split_and!; [done | by apply Hv | done].
Qed.

Lemma types_of_spec l name ty : ty ∈ types_of (types_by l) name <-> (name, ty) ∈ l.
Proof.
  unfold types_of, types_by. destruct (collect_by _ _ l !! name) as [s|] eqn:Hs; simpl.
  - rewrite elem_of_set_elements.
    assert (forall y, y ∈ s <-> (name, y) ∈ filter (fun x => x.1 = name) l) as ->; [|rewrite list_elem_of_filter; naive_solver].
    refine (collect_by_ind fst add_type (fun l s => forall y, y ∈ s <-> (name, y) ∈ l) l name s _ _ Hs).
    + intros [k y'] <- y. unfold add_type. simpl. set_solver.
    + intros l' v [k y'] <- IH y. unfold add_type. simpl. set_solver.
  - split; [set_solver|]. intros Hin. exfalso.
    assert (is_Some (collect_by fst add_type l !! name)) as [? ?]
      by (apply collect_by_is_Some; by exists (name, ty)). congruence.
Qed.

(** The elements that a list of groups emits for one key. *)
Lemma filter_bind_key {A B} (key : A -> str) (bkey : B -> str) (emit : A -> list B) l k :
  (forall x b, b ∈ emit x -> bkey b = key x) ->
  filter (fun b => bkey b = k) (l ≫= emit) = filter (fun x => key x = k) l ≫= emit.
Proof.
  intros Hkey. induction l as [|x l IH]; [done|]. csimpl. rewrite filter_app, filter_cons, IH.
  assert (Hx : filter (fun b => bkey b = k) (emit x) = if decide (key x = k) then emit x else []).
  { specialize (Hkey x). induction (emit x) as [|b bs IHb]; [by case_decide|]. rewrite filter_cons, IHb by set_solver.
    rewrite (Hkey b) by left. by case_decide. }
  rewrite Hx. by case_decide.
Qed.

Lemma count_topic_spec l k t :
  collect_by te_topic count_topic l !! k = Some t ->
  publisher_count t = length (filter (fun e => te_kind e = Publisher) (filter (fun e => te_topic e = k) l)) /\
  subscriber_count t = length (filter (fun e => te_kind e = Subscriber) (filter (fun e => te_topic e = k) l)).
Proof.
  intros Ht.
  refine (collect_by_ind te_topic count_topic (fun l t => publisher_count t = length (filter (fun e => te_kind e = Publisher) l) /\
    subscriber_count t = length (filter (fun e => te_kind e = Subscriber) l)) l k t _ _ Ht).
  - intros x _. unfold count_topic. by destruct x as [? []].
  - intros l' v x _ [Hp Hs]. unfold count_topic. rewrite !filter_app, !length_app, <- Hp, <- Hs.
    destruct x as [? []]; simpl; split; lia.
Qed.

Lemma count_service_spec l k t :
  collect_by sg_name count_service l !! k = Some t ->
  server_candidate_count t =
    length (filter (fun e => se_kind e = ServerKind) (service_endpoint_infos (filter (fun g => sg_name g = k) l))) /\
  client_candidate_count t =
    length (filter (fun e => se_kind e = ClientKind) (service_endpoint_infos (filter (fun g => sg_name g = k) l))).
Proof.
  assert (Hone : forall g, count_some (server_info g) = length (filter (fun e => se_kind e = ServerKind) (service_endpoint_infos [g])) /\
    count_some (client_info g) = length (filter (fun e => se_kind e = ClientKind) (service_endpoint_infos [g]))).
  { intros [n [] [] [] []]; vm_compute; done. }
  intros Ht.
  refine (collect_by_ind sg_name count_service (fun l t =>
    server_candidate_count t = length (filter (fun e => se_kind e = ServerKind) (service_endpoint_infos l)) /\
    client_candidate_count t = length (filter (fun e => se_kind e = ClientKind) (service_endpoint_infos l))) l k t _ _ Ht).
  - intros g _. apply Hone.
  - intros l' v g _ [Hs Hc]. destruct (Hone g) as [H1 H2]. unfold service_endpoint_infos in *.
    rewrite bind_app, !filter_app, !length_app, <- Hs, <- Hc, <- H1, <- H2. done.
Qed.

Lemma count_action_spec l k t :
  collect_by ac_action count_action l !! k = Some t ->
  action_server_count t =
    length (filter (fun e => ae_kind e = ServerKind) (action_endpoint_infos (filter (fun c => ac_action c = k) l))) /\
  action_client_count t =
    length (filter (fun e => ae_kind e = ClientKind) (action_endpoint_infos (filter (fun c => ac_action c = k) l))).
Proof.
  assert (Hone : forall c, count_some (ac_server c) = length (filter (fun e => ae_kind e = ServerKind) (action_endpoint_infos [c])) /\
    count_some (ac_client c) = length (filter (fun e => ae_kind e = ClientKind) (action_endpoint_infos [c]))).
  { intros [n [] [] p]; vm_compute; done. }
  intros Ht.
  refine (collect_by_ind ac_action count_action (fun l t =>
    action_server_count t = length (filter (fun e => ae_kind e = ServerKind) (action_endpoint_infos l)) /\
    action_client_count t = length (filter (fun e => ae_kind e = ClientKind) (action_endpoint_infos l))) l k t _ _ Ht).
  - intros c _. apply Hone.
  - intros l' v c _ [Hs Hc]. destruct (Hone c) as [H1 H2]. unfold action_endpoint_infos in *.
    rewrite bind_app, !filter_app, !length_app, <- Hs, <- Hc, <- H1, <- H2. done.
Qed.

Lemma elem_of_option_list {A} (o : option A) x : x ∈ option_list o <-> o = Some x.
Proof. destruct o; simpl; set_solver. Qed.

Lemma elem_of_service_infos gs b :
  b ∈ service_endpoint_infos gs <-> exists g, g ∈ gs /\ (server_info g = Some b \/ client_info g = Some b).
Proof.
  unfold service_endpoint_infos. rewrite list_elem_of_bind. setoid_rewrite elem_of_app. setoid_rewrite elem_of_option_list.
  naive_solver.
Qed.

Lemma service_info_name g b : server_info g = Some b \/ client_info g = Some b -> se_service b = sg_name g.
Proof. unfold server_info, client_info, service_info. destruct g as [n [] [] [] []]; simpl; naive_solver. Qed.

Lemma elem_of_action_infos cs b :
  b ∈ action_endpoint_infos cs <->
  exists c, c ∈ cs /\ (action_info ServerKind (ac_action c) (ac_server c) = Some b \/
                       action_info ClientKind (ac_action c) (ac_client c) = Some b).
Proof.
  unfold action_endpoint_infos. rewrite list_elem_of_bind. setoid_rewrite elem_of_app. setoid_rewrite elem_of_option_list.
  naive_solver.
Qed.

Lemma action_info_of k n s b : action_info k n s = Some b -> ae_action b = n.
Proof. unfold action_info. destruct s; simpl; naive_solver. Qed.

(** C37: The snapshot of a graph is consistent: topics, services and actions are
    listed once each, in the order of their names; the counts of each are the
    numbers of its endpoints that the snapshot lists; the types of a topic are
    those of its endpoints; and every listed endpoint belongs to a listed
    topic, service or action. *)
Theorem snapshot_counts mode v live :
  let s := assemble_snapshot mode v live in
  let listed names := StronglySorted str_le names /\ NoDup names in
  (listed (topic_name <$> topics s) /\ listed (service_name <$> services s) /\ listed (action_info_name <$> actions s)) /\
  (forall t, t ∈ topics s ->
     publisher_count t = length (filter (fun e => te_kind e = Publisher /\ te_topic e = topic_name t) (topic_endpoints s)) /\
     subscriber_count t = length (filter (fun e => te_kind e = Subscriber /\ te_topic e = topic_name t) (topic_endpoints s)) /\
     forall ty, ty ∈ wire_types t <-> exists e, e ∈ topic_endpoints s /\ te_topic e = topic_name t /\ te_wire_type e = ty) /\
  (forall t, t ∈ services s ->
     server_candidate_count t = length (filter (fun e => se_kind e = ServerKind /\ se_service e = service_name t) (service_endpoints s)) /\
     client_candidate_count t = length (filter (fun e => se_kind e = ClientKind /\ se_service e = service_name t) (service_endpoints s))) /\
  (forall t, t ∈ actions s ->
     action_server_count t = length (filter (fun e => ae_kind e = ServerKind /\ ae_action e = action_info_name t) (action_endpoints s)) /\
     action_client_count t = length (filter (fun e => ae_kind e = ClientKind /\ ae_action e = action_info_name t) (action_endpoints s))) /\
  (forall e, e ∈ topic_endpoints s -> te_topic e ∈ topic_name <$> topics s) /\
  (forall e, e ∈ service_endpoints s -> se_service e ∈ service_name <$> services s) /\
  (forall e, e ∈ action_endpoints s -> ae_action e ∈ action_info_name <$> actions s).
Proof.
  intros s listed. unfold s, assemble_snapshot. cbn [topics topic_endpoints services service_endpoints actions action_endpoints].
  set (es := omap topic_endpoint _). set (gs := snd <$> map_elements (service_groups mode _)).
  set (cs := compose_action_candidates mode _).
  destruct (collect_by_names te_topic count_topic (fun entry => MkTopicInfo (topic_name entry.2)
    (types_of (types_by ((fun i => (te_topic i, te_wire_type i)) <$> es)) entry.1) (publisher_count entry.2)
    (subscriber_count entry.2)) topic_name es) as (Ts & Tn & Tk & Te);
    [intros x o; simpl; unfold count_topic; by case_bool_decide|].
  destruct (collect_by_names sg_name count_service (fun entry => MkServiceInfo (service_name entry.2)
    (types_of (types_by (g ← gs; named_types g [request_reader g; request_writer g])) entry.1)
    (types_of (types_by (g ← gs; named_types g [response_reader g; response_writer g])) entry.1)
    (client_candidate_count entry.2) (server_candidate_count entry.2)) service_name gs) as (Ss & Sn & Sk & Se); [done|].
  destruct (collect_by_names ac_action count_action snd action_info_name cs) as (As & An & Ak & Ae); [done|].
  fold (topic_infos es) in *. fold (service_infos gs) in *. fold (action_infos cs) in *.
  split_and!; try (by split).
  - intros t Ht. destruct (Te t Ht) as (k & a & Ha & Hk & ->). rewrite Hk. simpl. destruct (count_topic_spec _ _ _ Ha) as [-> ->].
    rewrite !list_filter_filter. split_and!; [done..|]. intros ty. rewrite types_of_spec, list_elem_of_fmap.
    split; [intros (e & [= -> ->] & ?); eauto | intros (e & ? & <- & <-); eauto].
  - intros t Ht. destruct (Se t Ht) as (k & a & Ha & Hk & ->). rewrite Hk. simpl. destruct (count_service_spec _ _ _ Ha) as [-> ->].
    rewrite <- !list_filter_filter. unfold service_endpoint_infos.
    rewrite !(filter_bind_key sg_name se_service); [done|].
    intros g b [Hb%elem_of_option_list|Hb%elem_of_option_list]%elem_of_app; apply service_info_name; auto.
  - intros t Ht. destruct (Ae t Ht) as (k & a & Ha & Hk & ->). rewrite Hk. simpl. destruct (count_action_spec _ _ _ Ha) as [-> ->].
    rewrite <- !list_filter_filter. unfold action_endpoint_infos.
    rewrite !(filter_bind_key ac_action ae_action); [done|].
    by intros c b [Hb%elem_of_option_list%action_info_of|Hb%elem_of_option_list%action_info_of]%elem_of_app.
  - intros e He. apply Tk. eauto.
  - intros e (g & Hg & Hi)%elem_of_service_infos. apply Sk. exists g. split; [done|]. symmetry. by apply service_info_name.
  - intros e (c & Hc & [Hi%action_info_of|Hi%action_info_of])%elem_of_action_infos; apply Ak; eauto.
Qed.

(** ** Composition of services *)

Definition slot (request reader : bool) (g : ServiceGroup) : option EndpointCandidate :=
  match request, reader with
  | true, true => request_reader g
  | true, false => request_writer g
  | false, true => response_reader g
  | false, false => response_writer g
  end.

(** The endpoints of a group that compete for a slot; the last one has it. *)
Definition in_slot (request reader : bool) (c : EndpointCandidate) : Prop :=
  bool_decide (c_role c = ServiceRequest) = request /\ bool_decide (native_kind c = Reader) = reader.

Lemma slot_spec mode cs key g request reader :
  service_groups mode cs !! key = Some g ->
  slot request reader g =
    last (filter (in_slot request reader) (filter (fun c => service_key mode c = key) (filter (fun c => c_role c <> Topic) cs))).
Proof.
  intros Hg. refine (collect_by_ind (service_key mode) add_service
    (fun l g => slot request reader g = last (filter (in_slot request reader) l)) _ key g _ _ Hg).
  - intros c _. rewrite filter_cons, filter_nil. unfold in_slot, add_service.
    destruct request, reader, (bool_decide (c_role c = ServiceRequest)), (bool_decide (native_kind c = Reader)); done.
  - intros l v c _ IH. rewrite filter_app, filter_cons, filter_nil. unfold in_slot, add_service in *.
    destruct request, reader, (bool_decide (c_role c = ServiceRequest)), (bool_decide (native_kind c = Reader));
      simpl; rewrite ?last_snoc, ?app_nil_r; done.
Qed.

Lemma service_group_named mode cs key g :
  service_groups mode cs !! key = Some g ->
  exists c, c ∈ cs /\ c_role c <> Topic /\ service_key mode c = key /\ c_logical_name c = sg_name g.
Proof.
  intros Hg.
  assert (exists c, c ∈ filter (fun c => service_key mode c = key) (filter (fun c => c_role c <> Topic) cs) /\
    c_logical_name c = sg_name g) as (c & Hc & Hn); [|exists c; revert Hc; rewrite !list_elem_of_filter; tauto].
  refine (collect_by_ind (service_key mode) add_service
    (fun l g => exists c, c ∈ l /\ c_logical_name c = sg_name g) _ key g _ _ Hg).
  - intros c _. exists c. split; [left|]. unfold add_service. by repeat case_match.
  - intros l v c _ _. exists c. split; [set_solver|]. unfold add_service. by repeat case_match.
Qed.

Definition service_ok (c : EndpointCandidate) : Prop :=
  length (participant_key_of c) = 12%nat /\ bar ∉ c_logical_name c.

(** The direction of an endpoint of a server or client. *)
Definition direction (kind : RoleKind) (request : bool) : EndpointKind :=
  match kind, request with
  | ServerKind, true | ClientKind, false => Reader
  | ServerKind, false | ClientKind, true => Writer
  end.

(** [q] and [r] are the request and response endpoint of service [name], of
    one participant and one composition. *)
Definition composes (mode : RuntimeMode) (kind : RoleKind) (name : str) (q r : EndpointCandidate) : Prop :=
  c_role q = ServiceRequest /\ c_role r = ServiceResponse /\
  native_kind q = direction kind true /\ native_kind r = direction kind false /\
  c_logical_name q = name /\ c_logical_name r = name /\ participant_key_of q = participant_key_of r /\
  candidate_composition_key mode q = candidate_composition_key mode r.

Definition reads (kind : RoleKind) (request : bool) : bool := bool_decide (direction kind request = Reader).

Lemma side_infos gs b :
  b ∈ service_endpoint_infos gs <->
  exists g, g ∈ gs /\ service_info (se_kind b) (sg_name g) (slot true (reads (se_kind b) true) g)
                        (slot false (reads (se_kind b) false) g) = Some b.
Proof.
  rewrite elem_of_service_infos. unfold server_info, client_info. split; intros (g & Hg & Hb); exists g; (split; [done|]).
  - destruct g as [n [q|] [q'|] [r|] [r'|]], Hb as [Hb|Hb]; simpl in *; by simplify_eq/=.
  - destruct (se_kind b) eqn:Hk; [right|left]; exact Hb.
Qed.

Lemma slot_candidate mode cs key g kind request c :
  service_groups mode cs !! key = Some g -> slot request (reads kind request) g = Some c ->
  c ∈ cs /\ service_key mode c = key /\ native_kind c = direction kind request /\
  c_role c = if request then ServiceRequest else ServiceResponse.
Proof.
  intros Hg Hs. rewrite (slot_spec mode cs key g _ _ Hg) in Hs. apply last_Some_elem_of in Hs.
  rewrite !list_elem_of_filter in Hs. destruct Hs as ([Hr Hk] & Hkey & Ht & Hc). split_and!; try done.
  - unfold reads in Hk. destruct (native_kind c), (direction kind request); done.
  - destruct (c_role c), request; done.
Qed.

Lemma slot_taken mode cs key kind request c :
  c ∈ cs -> service_key mode c = key -> native_kind c = direction kind request ->
  c_role c = (if request then ServiceRequest else ServiceResponse) ->
  exists g, service_groups mode cs !! key = Some g /\ is_Some (slot request (reads kind request) g).
Proof.
  intros Hc Hkey Hk Hr. assert (Ht : c_role c <> Topic) by (by rewrite Hr; destruct request).
  destruct (proj2 (collect_by_is_Some (service_key mode) add_service (filter (fun c => c_role c <> Topic) cs) key)) as [g Hg].
  { exists c. split; [by apply list_elem_of_filter | done]. }
  exists g. split; [done|]. rewrite (slot_spec mode cs key g _ _ Hg). apply last_is_Some. intros Hnil.
  apply (not_elem_of_nil c). rewrite <- Hnil, !list_elem_of_filter. split_and!; try done.
  unfold in_slot, reads. rewrite Hk, Hr. by destruct request.
Qed.

Arguments slot : simpl never.

(** The services of a graph. Every Server and Client that the snapshot
    lists is made of a request and a response endpoint of that service, in the
    directions of a server or client, of one participant and one composition,
    with their GIDs and wire types and the Node of the first; and whenever such
    a pair is among the candidates, one is listed for the service. *)
Theorem service_composition_spec mode cs :
  Forall (fun c => c_role c <> Topic -> service_ok c) cs ->
  let infos := service_endpoint_infos (snd <$> map_elements (service_groups mode cs)) in
  (forall b, b ∈ infos -> exists q r, q ∈ cs /\ r ∈ cs /\ composes mode (se_kind b) (se_service b) q r /\
     b = MkServiceEndpoint (se_kind b) (node_strings (c_node q)) (se_service b) (gid q) (gid r) (wire_type q) (wire_type r)) /\
  (forall kind name q r, q ∈ cs -> r ∈ cs -> composes mode kind name q r ->
     exists b, b ∈ infos /\ se_kind b = kind /\ se_service b = name).
Proof.
  intros Hok infos. rewrite Forall_forall in Hok.
  assert (Hinj : forall c c', c ∈ cs -> c' ∈ cs -> c_role c <> Topic -> c_role c' <> Topic ->
    service_key mode c = service_key mode c' -> participant_key_of c = participant_key_of c' /\
    c_logical_name c = c_logical_name c' /\ candidate_composition_key mode c = candidate_composition_key mode c').
  { intros c c' Hc Hc' Ht Ht' Hk. destruct (Hok c Hc Ht) as [? ?], (Hok c' Hc' Ht') as [? ?]. by apply group_key_inj. }
  split.
  - intros b (g0 & Hg0 & Hb)%side_infos. apply list_elem_of_fmap in Hg0 as ([key g] & -> & Hg%elem_of_map_elements). simpl in Hb.
    unfold service_info in Hb. apply bind_Some in Hb as (q & Hq & Hb). apply bind_Some in Hb as (r & Hr & Hb).
    destruct (slot_candidate _ _ _ _ _ _ _ Hg Hq) as (Hqc & Hqk & Hqd & Hqr).
    destruct (slot_candidate _ _ _ _ _ _ _ Hg Hr) as (Hrc & Hrk & Hrd & Hrr). simpl in *.
    destruct (service_group_named _ _ _ _ Hg) as (c & Hc & Ht & Hck & Hcn).
    destruct (Hinj q r) as (Hp & Hn & Hco); try congruence. destruct (Hinj q c) as (_ & Hn' & _); try congruence.
    injection Hb as Hb. exists q, r. split_and!; try done.
    + unfold composes. rewrite <- Hb. simpl. split_and!; congruence.
    + by rewrite <- Hb.
  - intros kind name q r Hqc Hrc (Hqr & Hrr & Hqd & Hrd & Hqn & Hrn & Hp & Hco).
    destruct (slot_taken mode cs (service_key mode q) kind true q) as (g & Hg & q' & Hq'); [done..|].
    destruct (slot_taken mode cs (service_key mode q) kind false r) as (g' & Hg' & r' & Hr'); [done| |done..|].
    { unfold service_key, group_key. congruence. }
    rewrite Hg in Hg'. injection Hg' as <-. destruct (service_group_named _ _ _ _ Hg) as (c & Hc & Ht & Hck & Hcn).
    destruct (Hinj c q) as (_ & Hn & _); try congruence.
    eexists (MkServiceEndpoint kind _ name _ _ _ _). split; [|done]. apply side_infos. exists g. split.
    + apply list_elem_of_fmap. exists (service_key mode q, g). split; [done|]. by apply elem_of_map_elements.
    + simpl. rewrite Hq', Hr'. unfold service_info. simpl. f_equal. f_equal. congruence.
Qed.

(** ** Graph events *)

Record GraphEventState := MkGraphEvent { cursor : Z; closing : bool; subscription : Z }.

Record GraphChangeInfo := MkChange { previous_revision : Z; current_revision : Z }.

(** [create_graph_event] with [initialize]: the cursor is the revision of [g],
    and the subscription is made in [g'], which other threads may have changed
    since. *)
Definition create_graph_event (operation : bool) (g g' : DiscoveryGraph) : Result GraphEventState * DiscoveryGraph :=
  if negb operation then (fail ContextShutdown "Context is shut down", g')
  else
    match subscribe g' with
    | (None, g') => (fail ResourceExhausted "GraphEvent subscription IDs are exhausted", g')
    | (Some i, g') => (success (MkGraphEvent (revision g) false i), g')
    end.

(** [logically_ready]; [g] is the graph after the pending metadata was ingested. *)
Definition logically_ready (shut_down : bool) (g : DiscoveryGraph) (e : GraphEventState) : bool :=
  if closing e || shut_down then false
  else if negb (bool_decide (health g = Healthy)) then true
  else (cursor e <? revision g)%Z.

(** [take]: the value of the result with the change it writes, if any. *)
Definition take (operation : bool) (g : DiscoveryGraph) (e : GraphEventState)
    : Result (option GraphChangeInfo) * GraphEventState :=
  if closing e then (fail ParentDestroyed "GraphEvent is closing", e)
  else if negb operation then (fail ContextShutdown "Context is shut down", e)
  else if negb (bool_decide (health g = Healthy)) then (fail DDSError "Discovery graph is unavailable", e)
  else if (revision g =? cursor e)%Z then (success None, e)
  else (success (Some (MkChange (cursor e) (revision g))), MkGraphEvent (revision g) (closing e) (subscription e)).

Definition close_graph_event (e : GraphEventState) : GraphEventState := MkGraphEvent (cursor e) true (subscription e).

(** ** The life of one event *)

Inductive EventOp := Graph (op : GraphOp) | Take.

(** The graph, the event, the changes taken and the times its callback ran. *)
Record EventRun := MkEventRun {
  er_graph : DiscoveryGraph; er_event : GraphEventState; taken : list GraphChangeInfo; woken : nat }.

Definition is_callback (e : GraphEventState) (call : Z * Z) : bool := bool_decide (call.1 = subscription e).

Definition event_step (op : EventOp) (r : EventRun) : EventRun :=
  match op with
  | Graph op =>
      let '(g, calls) := graph_exec op (er_graph r) in
      MkEventRun g (er_event r) (taken r) (woken r + length (filter (fun c => is_callback (er_event r) c = true) calls))
  | Take =>
      match GraphSnapshot.take true (er_graph r) (er_event r) with
      | (success (Some c), e) => MkEventRun (er_graph r) e (taken r ++ [c]) (woken r)
      | (_, e) => MkEventRun (er_graph r) e (taken r) (woken r)
      end
  end.

(** The changes lead from one revision to another without a gap. *)
Fixpoint leads (from : Z) (cs : list GraphChangeInfo) (to : Z) : Prop :=
  match cs with
  | [] => from = to
  | c :: cs => previous_revision c = from /\ (from < current_revision c)%Z /\ leads (current_revision c) cs to
  end.

(** Every operation of the graph is a mutation that leaves these alone, or
    one of the few that is not a mutation. *)
Lemma graph_exec_cases op g :
  (exists change, graph_exec op g = mutate change g /\ subscriptions (change g).2 = subscriptions g /\
     health (change g).2 = health g /\ revision (change g).2 = revision g) \/
  graph_exec op g = (g, []) \/ op = Op_subscribe \/ (exists i, op = Op_unsubscribe i) \/ op = Op_unavailable.
Proof.
  destruct op; simpl.
  - left. eexists. split; [done|]. unfold participant_change. by repeat case_match.
  - left. eexists. split; [done|]. unfold endpoint_change, participant_for. by repeat (case_match; simplify_eq/=).
  - left. eexists. split; [done|]. unfold local_node_change. by repeat case_match.
  - unfold release_local_node. case_match; [by right; left|]. left. eexists. split; [done|].
    unfold release_change. by repeat case_match.
  - unfold add_local_endpoint. case_match; [by right; left|]. left. eexists. split; [done|].
    unfold local_endpoint_change. by repeat case_match.
  - left. eexists. split; [done|]. unfold remove_endpoint_change. by repeat case_match.
  - left. eexists. split; [done|]. unfold remote_nodes_change. by repeat case_match.
  - by right; right; left.
  - right; right; right; left. by eexists.
  - by right; right; right; right.
Qed.

Lemma notified (l : list Z) (r : Z) : ((fun s => (s, r)) <$> l).*1 = l.
Proof. rewrite <- list_fmap_compose. apply list_fmap_id. Qed.

(** A change of the graph that makes it unavailable is announced to every
    subscriber, but for the one that exhausts the subscription ids. *)
Lemma graph_exec_unavailable op g :
  health g = Healthy -> health (graph_exec op g).1 <> Healthy ->
  (op = Op_subscribe -> next_subscription g <> UINT64_MAX) ->
  (graph_exec op g).2.*1 = subscriptions g.
Proof.
  intros Hh Hno Hsub. destruct (graph_exec_cases op g) as [(change & He & Hs & Hc & _)|[He|[->|[[i ->]| ->]]]].
  - rewrite He in *. unfold mutate in *. rewrite decide_True in * by done. rewrite <- Hs.
    destruct (change g) as [[] g']; simpl in *; [|congruence|by apply notified].
    destruct (revision g' =? UINT64_MAX)%Z; simpl in *; [by apply notified | congruence].
  - by rewrite He in Hno.
  - simpl in Hno. unfold subscribe in Hno. destruct (Z.eqb_spec (next_subscription g) UINT64_MAX); [by destruct (Hsub eq_refl) | done].
  - done.
  - apply notified.
Qed.

Lemma exec_revision_mono op g : (revision g <= revision (graph_exec op g).1)%Z.
Proof.
  destruct (graph_exec_cases op g) as [(change & He & _ & _ & Hr)|[He|[->|[[i ->]| ->]]]]; rewrite ?He; try (simpl; lia).
  - unfold mutate. case_decide; [|simpl; lia]. destruct (change g) as [[] g']; simpl in *; try lia.
    destruct (revision g' =? UINT64_MAX)%Z; simpl; lia.
  - simpl. unfold subscribe. case_match; simpl; lia.
Qed.

Definition event_inv (from : Z) (r : EventRun) : Prop :=
  graph_wf (er_graph r) /\ closing (er_event r) = false /\ (cursor (er_event r) <= revision (er_graph r))%Z /\
  leads from (taken r) (cursor (er_event r)).

Lemma leads_app from cs c to :
  leads from cs to -> previous_revision c = to -> (to < current_revision c)%Z -> leads from (cs ++ [c]) (current_revision c).
Proof. revert from. induction cs as [|c' cs IH]; intros from; simpl; [by intros -> | intros (? & ? & ?); eauto]. Qed.

Lemma take_spec g e :
  closing e = false ->
  match GraphSnapshot.take true g e with
  | (success (Some c), e') =>
      health g = Healthy /\ revision g <> cursor e /\ c = MkChange (cursor e) (revision g) /\
      e' = MkGraphEvent (revision g) false (subscription e)
  | (_, e') => e' = e
  end.
Proof.
  intros Hc. unfold take. rewrite Hc. simpl. destruct (bool_decide_reflect (health g = Healthy)); simpl; [|done].
  destruct (Z.eqb_spec (revision g) (cursor e)); done.
Qed.

Lemma event_step_inv from op r : event_inv from r -> event_inv from (event_step op r).
Proof.
  intros (Hwf & Hc & Hle & Hl). destruct op as [op|]; simpl.
  - destruct (graph_exec op (er_graph r)) as [g calls] eqn:He. split_and!; simpl; try done.
    + pose proof (graph_step_wf op (er_graph r) Hwf) as H. unfold graph_step in H. by rewrite He in H.
    + pose proof (exec_revision_mono op (er_graph r)) as H. rewrite He in H. simpl in H. lia.
  - pose proof (take_spec (er_graph r) (er_event r) Hc) as Ht.
    destruct (take true _ _) as [[[c|]|err] e]; [|subst e; by split_and!..].
    destruct Ht as (_ & Hne & -> & ->). split_and!; simpl; try done. eapply leads_app; [done | done | simpl; lia].
Qed.

(** A graph event is level triggered and loses nothing. In any history of
    the graph and of [take] after it was created, the changes taken lead from
    the revision of its creation to its cursor without a gap, each of them
    forward; while the graph is healthy the event is ready exactly when [take]
    would return a change, the one up to the current revision, after which it
    is not ready; readiness itself takes nothing; and an operation of the graph
    that makes it ready calls its callback, so that its wait set wakes. *)
Theorem graph_event_spec g0 e0 ops :
  graph_wf g0 -> closing e0 = false -> (cursor e0 <= revision g0)%Z ->
  let r := run event_step ops (MkEventRun g0 e0 [] 0) in
  let g := er_graph r in let e := er_event r in
  leads (cursor e0) (taken r) (cursor e) /\
  (health g = Healthy ->
     (logically_ready false g e = true ->
        take true g e = (success (Some (MkChange (cursor e) (revision g))), er_event (event_step Take r))) /\
     (logically_ready false g e = false -> take true g e = (success None, e)) /\
     logically_ready false g (er_event (event_step Take r)) = false) /\
  (forall op, subscription e ∈ subscriptions g -> logically_ready false g e = false ->
     (op = Op_subscribe -> next_subscription g <> UINT64_MAX) ->
     logically_ready false (er_graph (event_step (Graph op) r)) e = true ->
     (woken r < woken (event_step (Graph op) r))%nat).
Proof.
  intros Hwf Hc Hle r g e.
  destruct (run_invariant event_step (event_inv (cursor e0)) (event_step_inv (cursor e0)) ops (MkEventRun g0 e0 [] 0)) as
    (Hw & Hcl & Hcur & Hl); [by split_and!|]. fold r in Hw, Hcl, Hcur, Hl. fold g e in Hw, Hcl, Hcur, Hl. split_and!; [done|..].
  - intros Hh. unfold logically_ready, event_step. fold g e. unfold take. rewrite Hcl. simpl.
    rewrite bool_decide_eq_true_2 by done. simpl.
    destruct (Z.eqb_spec (revision g) (cursor e)) as [Heq|Hne]; simpl.
    + rewrite Hcl. simpl. split_and!; try done; [intros ?%Z.ltb_lt | apply Z.ltb_ge]; lia.
    + split_and!; [done | intros ?%Z.ltb_ge; lia | apply Z.ltb_ge; lia].
  - intros op Hsub Hno Hmax Hyes. simpl. fold g e. unfold event_step in Hyes. fold g e in Hyes.
    pose proof (graph_exec_unavailable op g) as Hu. pose proof (graph_exec_spec op g Hw) as [_ Hh].
    destruct (graph_exec op g) as [g' calls]. simpl in *.
    assert (Hcalled : calls.*1 = subscriptions g).
    { unfold logically_ready in Hno, Hyes. rewrite Hcl in Hno, Hyes. simpl in Hno, Hyes.
      destruct (bool_decide_reflect (health g = Healthy)) as [Hgh|]; simpl in Hno; [|done]. apply Z.ltb_ge in Hno.
      destruct (bool_decide_reflect (health g' = Healthy)) as [Hgh'|]; simpl in Hyes; [|by apply Hu].
      apply Z.ltb_lt in Hyes. destruct (Hh Hgh') as [(_ & Hr & _)|(_ & _ & ->)]; [lia | apply notified]. }
    rewrite <- Hcalled in Hsub. apply list_elem_of_fmap in Hsub as (call & Hs & Hin).
    assert (Hf : call ∈ filter (fun c => is_callback e c = true) calls).
    { apply list_elem_of_filter. split; [|done]. unfold is_callback. by apply bool_decide_eq_true. }
    destruct (filter _ calls); [by apply not_elem_of_nil in Hf | simpl; lia].
Qed.

(** *** Witnesses *)

Definition watched_graph : DiscoveryGraph := with_subscriptions 1 [1%Z] new_graph.
Definition watching_event : GraphEventState := MkGraphEvent 0 false 1.

Lemma graph_event_spec_witness :
  create_graph_event true new_graph new_graph = (success watching_event, watched_graph) /\
  let r := run event_step (Graph <$> chatter_ops) (MkEventRun watched_graph watching_event [] 0) in
  take true (er_graph r) (er_event r) = (success (Some (MkChange 0 3)), er_event (event_step Take r)).
Proof.
  split; [vm_compute; reflexivity|].
  apply (proj1 (proj1 (proj2 (graph_event_spec watched_graph watching_event (Graph <$> chatter_ops)
    ltac:(split; constructor) eq_refl ltac:(simpl; lia))) eq_refl)). vm_compute. reflexivity.
Defined.

(** A server of ["/add"] and an endpoint of another participant. *)
Definition add_endpoint (prefix : GuidPrefix) (r : GraphEndpointRole) (k : EndpointKind) : EndpointCandidate :=
  MkCandidate (MkGid (prefix ++ replicate 4 1%Z)) k r $"/add" $"Add" ros2_default None (participant_key prefix).

Definition add_server : list EndpointCandidate :=
  [add_endpoint (replicate 12 1%Z) ServiceRequest Reader; add_endpoint (replicate 12 2%Z) ServiceRequest Writer;
   add_endpoint (replicate 12 1%Z) ServiceResponse Writer].

Lemma add_server_ok : Forall (fun c => c_role c <> Topic -> service_ok c) add_server.
Proof.
  unfold add_server.
  repeat (apply Forall_cons; split; [intros _; split; [reflexivity | by apply (bool_decide_unpack _)]|]). by apply Forall_nil.
Qed.

Lemma service_composition_spec_witness :
  exists b, b ∈ service_endpoint_infos (snd <$> map_elements (service_groups DDS add_server)) /\
    se_kind b = ServerKind /\ se_service b = $"/add".
Proof.
  apply (proj2 (service_composition_spec DDS add_server add_server_ok) ServerKind $"/add"
    (add_endpoint (replicate 12 1%Z) ServiceRequest Reader) (add_endpoint (replicate 12 1%Z) ServiceResponse Writer)).
  - left.
  - right. right. left.
  - vm_compute. tauto.
Defined.

(** Only the server is composed: the lone request writer is no client. *)
Example add_server_listed :
  (fun b => (se_kind b, se_service b)) <$> service_endpoint_infos (snd <$> map_elements (service_groups DDS add_server)) =
    [(ServerKind, $"/add")].
Proof. vm_compute. reflexivity. Qed.
