(* ===== verification/ActionServers.v ===== *)
(** * ActionServers: the action server

    Models [ActionServer::Impl] of src/impl/action_impl.{hpp,cpp}: three
    servers and the goal registry composed into one action server.  The first
    part gives each operation as it runs alone.  The second interleaves, at
    the grain of the mutexes, the operations that touch both the result server
    and the registry with everything that may run beside them. *)

From S2P Require Import Prelude Identity Qos Waitables Endpoints ActionGoals Services Servers.
Local Open Scope Z_scope.

Record ActionServer := MkActionServer {
  goal_server : ServerState;
  cancel_server : ServerState;
  result_server : ServerState;
  goal_registry : ActionGoalRegistry }.

Definition with_goal_server (s : ServerState) (a : ActionServer) : ActionServer :=
  MkActionServer s (cancel_server a) (result_server a) (goal_registry a).
Definition with_cancel_server (s : ServerState) (a : ActionServer) : ActionServer :=
  MkActionServer (goal_server a) s (result_server a) (goal_registry a).
Definition with_result_server (s : ServerState) (a : ActionServer) : ActionServer :=
  MkActionServer (goal_server a) (cancel_server a) s (goal_registry a).
Definition with_registry (g : ActionGoalRegistry) (a : ActionServer) : ActionServer :=
  MkActionServer (goal_server a) (cancel_server a) (result_server a) g.

Definition new_action_server (max timeout : Z) : ActionServer :=
  MkActionServer (new_server max) (new_server max) (new_server max) (make_registry timeout).

(** A call of one of the three servers. *)
Definition through {R} (get : ActionServer -> ServerState) (put : ServerState -> ActionServer -> ActionServer)
    (call : ServerState -> R * ServerState) (a : ActionServer) : R * ActionServer :=
  let '(r, s) := call (get a) in (r, put s a).

Section Operations.
Context `{!Handles} `{!HashOrder GoalId GoalRecord}.

(** ** Operations of one server *)

Section Reading.
Context {Payload : Type} (commit_to : Payload -> Result unit) (create_sample : Result unit).
Variable c_SequenceNumber_Unknown : SequenceNumber.

Definition read_from (get : ActionServer -> ServerState) (put : ServerState -> ActionServer -> ActionServer)
    (request_null operation : bool) (unread : nat) (takes : list (TakeResult (Payload := Payload)))
    : ActionServer -> Result (option (RequestId * Payload)) * ActionServer :=
  through get put (read_request commit_to create_sample c_SequenceNumber_Unknown request_null operation unread takes).

Definition read_goal_request := read_from goal_server with_goal_server.
Definition read_cancel_request := read_from cancel_server with_cancel_server.
Definition read_result_request := read_from result_server with_result_server.
End Reading.

(** [write_response] of a server; [claim_operation] is the operation its
    claim acquires. *)
Definition write_goal_response (id : RequestId) (claim_operation : bool) (env : ResponseEnv)
    : ActionServer -> Result unit * ActionServer :=
  through goal_server with_goal_server (write_response id claim_operation env).

Definition write_cancel_response (id : RequestId) (claim_operation : bool) (env : ResponseEnv)
    : ActionServer -> Result unit * ActionServer :=
  through cancel_server with_cancel_server (write_response id claim_operation env).

Definition discard_goal_request (operation : bool) (id : RequestId) : ActionServer -> Result unit * ActionServer :=
  through goal_server with_goal_server (discard_request operation id).

Definition discard_cancel_request (operation : bool) (id : RequestId) : ActionServer -> Result unit * ActionServer :=
  through cancel_server with_cancel_server (discard_request operation id).

Definition publish_feedback (feedback_null operation : bool) (result : option ReturnCode) : Result unit :=
  Endpoints.write feedback_null operation result.

Definition publish_status (status_null operation : bool) (result : option ReturnCode) : Result unit :=
  Endpoints.write status_null operation result.

(** ** Result requests *)

(** [goals_->remove_result_request]. *)
Definition forget_request (id : RequestId) (a : ActionServer) : ActionServer :=
  with_registry (remove_result_request id (goal_registry a)) a.

Definition write_result_response (id : RequestId) (claim_operation : bool) (env : ResponseEnv) (a : ActionServer)
    : Result unit * ActionServer :=
  if response_null env then (fail InvalidArgument "Response must not be null", a)
  else
    let '(claimed, s) := claim_response claim_operation id (result_server a) in
    let a := with_result_server s a in
    match claimed with
    | failure e => (failure e, a)
    | success identity =>
        through result_server with_result_server (write_claimed_response id identity env) (forget_request id a)
    end.

Definition discard_result_request (operation : bool) (id : RequestId) (a : ActionServer)
    : Result unit * ActionServer :=
  let '(discarded, s) := discard_request operation id (result_server a) in
  let a := with_result_server s a in
  match discarded with
  | success _ => (discarded, forget_request id a)
  | failure e => (discarded, if decide (error_code e = NotFound) then forget_request id a else a)
  end.

(** The last component of the operations below that prune or notify: the
    expiry observers they wake. *)
Definition register_result_request (operation : bool) (goal : GoalId) (id : RequestId) (now : Z)
    (alive : nat -> bool) (a : ActionServer) : Result ResultRequestDisposition * ActionServer * list nat :=
  if negb operation then (failure shut_down_error, a, [])
  else match check_pending_request id (result_server a) with
       | failure e => (failure e, a, [])
       | success _ =>
           let '(r, g, woken) := ActionGoals.register_result_request goal id now alive (goal_registry a) in
           (r, with_registry g a, woken)
       end.

Definition take_pending_result_requests (operation : bool) (goal : GoalId) (a : ActionServer)
    : Result (list RequestId) * ActionServer :=
  if negb operation then (failure shut_down_error, a)
  else
    let '(r, g) := ActionGoals.take_pending_result_requests goal (goal_registry a) in (r, with_registry g a).

(** ** Goals *)

(** [rollback] is the destructor of [ReservationRollback]. *)
Definition accept_goal (operation : bool) (id : RequestId) (goal_info : GoalInfo) (claim_operation : bool)
    (env : ResponseEnv) (mode : GoalAcceptMode) (a : ActionServer) : Result GoalTransition * ActionServer :=
  let rollback a := with_registry (rollback_reservation (goal_id goal_info) (goal_registry a)) a in
  if negb operation then (failure shut_down_error, a)
  else
    let '(reserved, g) := reserve (goal_id goal_info) (goal_registry a) in
    let a := with_registry g a in
    if negb reserved then (fail AlreadyExists "Goal is already accepted", a)
    else
      let '(written, a) := write_goal_response id claim_operation env a in
      match written with
      | failure e => (failure e, rollback a)
      | success _ =>
          let '(stored, g) := commit goal_info mode (goal_registry a) in
          let a := with_registry g a in
          if negb stored then (fail ProtocolFault "Goal reservation was lost after response commit", rollback a)
          else (success (MkGoalTransition Unknown
                  (match mode with Mode_Execute => Executing | Mode_Defer => Accepted end) false), a)
      end.

Definition goal_state (operation : bool) (id : GoalId) (a : ActionServer) : Result GoalState :=
  if negb operation then failure shut_down_error else ActionGoals.goal_state id (goal_registry a).

Definition update_goal_state (operation : bool) (id : GoalId) (event : GoalEvent) (now : Z) (alive : nat -> bool)
    (a : ActionServer) : Result GoalTransition * ActionServer * list nat :=
  if negb operation then (failure shut_down_error, a, [])
  else
    let '(r, g, woken) := update_state id event now alive (goal_registry a) in (r, with_registry g a, woken).

Definition select_cancel_goals (operation : bool) (c : CancelGoalCriteria) (a : ActionServer)
    : Result (list GoalInfo) :=
  if criteria_stamp c <? 0 then fail InvalidArgument "Cancel stamp must not be negative"
  else if negb operation then failure shut_down_error
  else ActionGoals.select_cancel_goals c (goal_registry a).

Definition status_snapshot (operation : bool) (now : Z) (alive : nat -> bool) (a : ActionServer)
    : Result (list GoalStatusInfo) * ActionServer * list nat :=
  if negb operation then (failure shut_down_error, a, [])
  else
    let '(r, g, woken) := ActionGoals.status_snapshot now alive (goal_registry a) in (r, with_registry g a, woken).

Definition take_expired_goals (operation : bool) (now : Z) (alive : nat -> bool) (a : ActionServer)
    : Result (list GoalId) * ActionServer * list nat :=
  if negb operation then (failure shut_down_error, a, [])
  else
    let '(r, g, woken) := ActionGoals.take_expired_goals now alive (goal_registry a) in (r, with_registry g a, woken).

(** ** Readiness *)

Record ActionServerReadySet := MkServerReady {
  goal_request : bool; cancel_request : bool; result_request : bool; goal_expired : bool }.

(** Each reader's wait state with its unread count. *)
Definition readiness (operation : bool) (goal cancel result : Z * ReaderWaitState) (now : Z) (a : ActionServer)
    : Result ActionServerReadySet :=
  if negb operation then failure shut_down_error
  else success (MkServerReady (reader_is_ready goal.1 goal.2) (reader_is_ready cancel.1 cancel.2)
                  (reader_is_ready result.1 result.2) (expiry_ready now (goal_registry a))).
End Operations.

(** ** Accepting a goal *)

Section Accepting.
Context `{!Handles} `{!HashOrder GoalId GoalRecord}.

(** A response attempt that fails leaves its server as it was. *)
Lemma write_response_failed id op env s e s' : write_response id op env s = (failure e, s') -> s' = s.
Proof.
  unfold write_response, claim_response, claim_locked.
  destruct (response_null env), op; simpl; try by intros [= _ ->].
  destruct (pending s !! id) as [p|] eqn:Hp; [|by intros [= _ ->]].
  case_decide as Hph; [by intros [= _ ->]|]. unfold write_claimed_response.
  pose proof (write_claimed_body_outcome id (sample_identity p) env (set_phase Responding id s)) as Hout.
  destruct (write_claimed_body _ _ _ _) as [[[]|e'] s1]; [done|]. intros [= _ <-].
  assert (restore_pending id (set_phase Responding id s) = s) as Hback.
  { unfold restore_pending. rewrite set_phase_twice. eapply set_phase_same; [done|]. by destruct (phase p). }
  destruct Hout as [->| ->]; [done|]. unfold restore_pending in *. by rewrite set_phase_twice.
Qed.

(** The record of a goal that has just been accepted. *)
Definition accepted_record (i : GoalInfo) (mode : GoalAcceptMode) : GoalRecord :=
  MkGoalRecord i (match mode with Mode_Execute => Executing | Mode_Defer => Accepted end) true false 0 [].

(** accepting a goal is one transaction of the response and the record.
    It succeeds exactly when the context is open, nobody holds the goal id and
    the goal server takes the response; then the registry holds a fresh record
    in the state the mode asks for, and nothing else of the action server has
    changed.  In every other case the action server is exactly as it was, and
    the error says which step refused: never the lost reservation. *)
Theorem accept_goal_spec operation id i claim_operation env mode a :
  let written := write_response id claim_operation env (goal_server a) in
  match accept_goal operation id i claim_operation env mode a with
  | (success t, a') =>
      operation = true /\ goals (goal_registry a) !! goal_id i = None /\ written.1 = success tt /\
      t = MkGoalTransition Unknown (state (accepted_record i mode)) false /\
      a' = MkActionServer written.2 (cancel_server a) (result_server a)
             (with_goals (goal_registry a) (<[goal_id i := accepted_record i mode]> (goals (goal_registry a))))
  | (failure e, a') =>
      a' = a /\
      (operation = false /\ e = shut_down_error \/
       operation = true /\ is_Some (goals (goal_registry a) !! goal_id i) /\ error_code e = AlreadyExists \/
       operation = true /\ goals (goal_registry a) !! goal_id i = None /\ written.1 = failure e)
  end.
Proof.
  intros written. subst written. unfold accept_goal. destruct operation; simpl; [|by split; [|left]].
  unfold reserve. destruct (goals (goal_registry a) !! goal_id i) eqn:Hg; simpl.
  { split; [by destruct a|]. right; left. split_and!; [done | by eexists | done]. }
  unfold write_goal_response, through. simpl.
  destruct (write_response id claim_operation env (goal_server a)) as [w s'] eqn:Hw. destruct w as [[]|e]; simpl.
  - unfold commit; simpl. rewrite lookup_insert_eq; simpl.
    split_and!; [done..|]. unfold with_registry, with_goal_server, with_goals; simpl.
    by rewrite insert_insert_eq.
  - apply write_response_failed in Hw as ->. split; [|right; right; done].
    unfold rollback_reservation; simpl. rewrite lookup_insert_eq; simpl.
    rewrite delete_insert_id by done. by destruct a as [? ? ? []].
Qed.
End Accepting.

(** ** Interleaved operations

    [result_coordination_mutex_] is held by at most one thread: by
    [write_result_response] from its claim to the removal of the request from
    the registry, by [discard_result_request] likewise, and by
    [register_result_request] from its check to the registration.  The result
    server's and the registry's mutexes are taken and released within, so all
    that does not take the coordination mutex runs in between: reads and
    responses of the result server, and the other operations of the registry.
    [accepting] lists the goal ids of the threads between the reservation and
    the commit of [accept_goal]. *)

Inductive Coordination :=
  | Uncoordinated
  | Removing (id : RequestId)                        (** claimed or discarded, still registered *)
  | Registering (goal : GoalId) (id : RequestId).    (** found pending, not yet registered *)

Record ActionRun := MkRun {
  results : Interleaving;
  run_goals : ActionGoalRegistry;
  coordination : Coordination;
  accepting : list GoalId }.

(** The steps of the result server that run under the coordination mutex. *)
Inductive coordinated : Interleaving -> Interleaving -> Prop :=
  | coordinated_claim s r ws n q id identity s' :
      claim_locked id s = (success identity, s') ->
      coordinated (MkInterleaving s r ws n q) (MkInterleaving s' r ((id, W_writing) :: ws) n q)
  | coordinated_discard s r ws n q id full s' :
      discard_locked id s = (success full, s') ->
      coordinated (MkInterleaving s r ws n q) (MkInterleaving s' r ws (if full then S n else n) q).

(** A registry operation that changes neither reservations nor requests. *)
Definition independent (op : GoalOp) : bool :=
  match op with
  | Op_update _ _ _ _ | Op_snapshot _ _ | Op_take_expired _ _ | Op_observe _ _ => true
  | _ => false
  end.

Section Interleaved.
Context `{!HashOrder GoalId GoalRecord}.

(** A caller registers a request only after the read that returned it: hence
    the guard on the reader in [a_checks]. *)
Inductive action_step (fails : bool) : ActionRun -> ActionRun -> Prop :=
  | a_server x x' g c acc :
      server_step fails x x' -> ~ coordinated x x' ->
      action_step fails (MkRun x g c acc) (MkRun x' g c acc)
  | a_registry x g c acc op :
      independent op = true ->
      action_step fails (MkRun x g c acc) (MkRun x (exec op g) c acc)
  (** [write_result_response] *)
  | a_claims s r ws n q g acc id identity s' :
      claim_locked id s = (success identity, s') ->
      action_step fails (MkRun (MkInterleaving s r ws n q) g Uncoordinated acc)
        (MkRun (MkInterleaving s' r ((id, W_writing) :: ws) n q) g (Removing id) acc)
  (** [discard_result_request] *)
  | a_discards s r ws n q g acc id full s' :
      discard_locked id s = (success full, s') ->
      action_step fails (MkRun (MkInterleaving s r ws n q) g Uncoordinated acc)
        (MkRun (MkInterleaving s' r ws (if full then S n else n) q) g (Removing id) acc)
  | a_discard_missing x g acc id :
      code_of (discard_locked id (server x)).1 = Some NotFound ->
      action_step fails (MkRun x g Uncoordinated acc) (MkRun x g (Removing id) acc)
  | a_removes x g acc id :
      action_step fails (MkRun x g (Removing id) acc) (MkRun x (exec (Op_remove id) g) Uncoordinated acc)
  (** [register_result_request] *)
  | a_checks x g acc goal id :
      check_pending_request id (server x) = success tt -> reader_pc x <> R_committing id ->
      action_step fails (MkRun x g Uncoordinated acc) (MkRun x g (Registering goal id) acc)
  | a_registers x g acc goal id now alive :
      action_step fails (MkRun x g (Registering goal id) acc)
        (MkRun x (exec (Op_register goal id now alive) g) Uncoordinated acc)
  (** [take_pending_result_requests] *)
  | a_takes x g acc goal :
      action_step fails (MkRun x g Uncoordinated acc) (MkRun x (exec (Op_take_pending goal) g) Uncoordinated acc)
  (** [accept_goal]; the response goes to the goal server, which is not part
      of this state *)
  | a_reserves x g c acc id g' :
      reserve id g = (true, g') ->
      action_step fails (MkRun x g c acc) (MkRun x g' c (id :: acc))
  | a_commits x g c acc1 acc2 i mode g' :
      commit i mode g = (true, g') ->
      action_step fails (MkRun x g c (acc1 ++ goal_id i :: acc2)) (MkRun x g' c (acc1 ++ acc2))
  | a_rolls_back x g c acc1 acc2 id :
      (** the response failed, or the commit found no reservation *)
      action_step fails (MkRun x g c (acc1 ++ id :: acc2)) (MkRun x (exec (Op_rollback id) g) c (acc1 ++ acc2)).

Definition action_started (max timeout : Z) (x : ActionRun) : Prop :=
  x = MkRun (MkInterleaving (new_server max) R_idle [] 0 ∅) (make_registry timeout) Uncoordinated [].

(** ** What registry operations do to reservations and to registered requests *)

Definition registered (g : GoalMap) (id : GoalId) (q : RequestId) : Prop :=
  exists rec, g !! id = Some rec /\ q ∈ pending_result_requests rec.

Definition reserved (g : GoalMap) (id : GoalId) : Prop :=
  exists rec, g !! id = Some rec /\ committed rec = false.

(** What an operation other than a reservation, a commit or a rollback does:
    it keeps the reservations, creates no record, and adds no request but the
    [extra] ones. *)
Definition frame (extra : GoalId -> RequestId -> Prop) (g g' : GoalMap) : Prop :=
  forall id,
    match g !! id, g' !! id with
    | Some rec, Some rec' =>
        committed rec' = committed rec /\
        forall q, q ∈ pending_result_requests rec' -> q ∈ pending_result_requests rec \/ extra id q
    | Some rec, None => committed rec = true
    | None, Some _ => False
    | None, None => True
    end.

Lemma frame_refl extra g : frame extra g g.
Proof. intros id. destruct (g !! id); auto. Qed.

Lemma frame_insert extra g id rec rec' :
  g !! id = Some rec -> committed rec' = committed rec ->
  (forall q, q ∈ pending_result_requests rec' -> q ∈ pending_result_requests rec \/ extra id q) ->
  frame extra g (<[id := rec']> g).
Proof.
  intros Hg Hc Hq id'. destruct (decide (id = id')) as [<-|].
  - by rewrite Hg, lookup_insert_eq.
  - rewrite lookup_insert_ne by done. apply (frame_refl extra g id').
Qed.

Lemma frame_prune extra now alive r g :
  frame extra (goals (prune_expired_locked now alive r).1) g -> frame extra (goals r) g.
Proof.
  intros Hf id. specialize (Hf id). destruct (prune_spec now alive r) as (_ & _ & Hp).
  destruct (goals r !! id) as [rec|] eqn:Hr.
  - destruct (goals (prune_expired_locked now alive r).1 !! id) as [rec1|] eqn:H1.
    + apply Hp in H1 as [H1 _]. by simplify_eq.
    + destruct (g !! id); [done|]. destruct (lapsed (result_timeout r) now rec) eqn:Hl.
      * unfold lapsed in Hl. by destruct (committed rec).
      * assert (goals (prune_expired_locked now alive r).1 !! id = Some rec) by by apply Hp. congruence.
  - destruct (goals (prune_expired_locked now alive r).1 !! id) as [rec1|] eqn:H1; [|done].
    apply Hp in H1 as [H1 _]. congruence.
Qed.

Lemma frame_update id event now alive r extra : frame extra (goals r) (goals (exec (Op_update id event now alive) r)).
Proof.
  simpl. unfold update_state. destruct (goals r !! id) as [rec|] eqn:Hg; [|apply frame_refl].
  destruct (committed rec) eqn:Hc; simpl; [|apply frame_refl].
  destruct (is_terminal_goal_state (state rec)); [apply frame_refl|].
  destruct (next_goal_state (state rec) event) as [next|]; [|apply frame_refl].
  destruct (is_terminal_goal_state next); simpl.
  - match goal with |- context [notify_expiry_locked ?a ?s] =>
      destruct (notify_expiry_locked_frame a s) as (Hn & _); destruct (notify_expiry_locked a s) end; simpl in *.
    rewrite Hn. apply frame_insert with rec; simpl; auto.
  - apply frame_insert with rec; simpl; auto.
Qed.

(** The reservations are the accept operations' alone. *)
Definition accepts (op : GoalOp) : bool :=
  match op with Op_reserve _ | Op_rollback _ | Op_commit _ _ => true | _ => false end.

Definition registers (op : GoalOp) (id : GoalId) (q : RequestId) : Prop :=
  exists now alive, op = Op_register id q now alive.

Lemma exec_frame op r : accepts op = false -> frame (registers op) (goals r) (goals (exec op r)).
Proof.
  intros Hop. destruct op; try done; clear Hop.
  - apply frame_update.
  - simpl. unfold ActionGoals.register_result_request. apply (frame_prune _ now alive).
    destruct (prune_expired_locked now alive r) as [r' woken]; simpl.
    destruct (goals r' !! id) as [rec|] eqn:Hg; [|apply frame_refl]. case_match_goal; try apply frame_refl.
    apply frame_insert with rec; [done..|]. intros q' [?| ->%list_elem_of_singleton]%elem_of_app; [by left|].
    right. by eexists _, _.
  - intros id. simpl. rewrite lookup_fmap. destruct (goals r !! id) as [rec|]; simpl; [|done].
    split; [done|]. intros q' [_ ?]%list_elem_of_filter. by left.
  - simpl. unfold ActionGoals.take_pending_result_requests. destruct (goals r !! id) as [rec|] eqn:Hg; [|apply frame_refl].
    destruct (committed rec) eqn:Hc; [|apply frame_refl]. apply frame_insert with rec; [done..|].
    intros q Hq. by apply not_elem_of_nil in Hq.
  - simpl. unfold ActionGoals.status_snapshot. apply (frame_prune _ now alive).
    destruct (prune_expired_locked now alive r); apply frame_refl.
  - simpl. unfold ActionGoals.take_expired_goals. apply (frame_prune _ now alive).
    destruct (prune_expired_locked now alive r); apply frame_refl.
  - simpl. unfold observe_expiry. destruct (existsb _ _); apply frame_refl.
Qed.

Lemma frame_registered extra g g' id q : frame extra g g' -> registered g' id q -> registered g id q \/ extra id q.
Proof.
  intros Hf (rec' & Hg' & Hq). specialize (Hf id). rewrite Hg' in Hf.
  destruct (g !! id) as [rec|] eqn:Hg; [|done]. destruct Hf as [_ Hf].
  destruct (Hf q Hq); [left; by exists rec | by right].
Qed.

Lemma frame_reserved extra g g' id : frame extra g g' -> reserved g' id <-> reserved g id.
Proof.
  intros Hf. specialize (Hf id). unfold reserved. destruct (g !! id) as [rec|], (g' !! id) as [rec'|]; try done.
  - destruct Hf as [Hc _]. split; intros (? & [= <-] & ?); (eexists; split; [reflexivity | congruence]).
  - split; [by intros (? & ? & ?)|]. intros (? & [= <-] & ?). congruence.
Qed.

Lemma exec_registered op r id q :
  registered (goals (exec op r)) id q -> registered (goals r) id q \/ registers op id q.
Proof.
  destruct (accepts op) eqn:Hop; [|by apply frame_registered, exec_frame].
  intros (rec & Hg & Hq). left. destruct op; try done; simpl in Hg.
  - unfold reserve in Hg. destruct (goals r !! id0) eqn:H0; [by exists rec|]. simpl in Hg.
    apply lookup_insert_Some in Hg as [[<- <-]|[_ Hg]]; [by apply not_elem_of_nil in Hq | by exists rec].
  - unfold rollback_reservation in Hg. destruct (goals r !! id0) as [rec0|]; [|by exists rec].
    destruct (committed rec0); [by exists rec|]. simpl in Hg. apply lookup_delete_Some in Hg as [_ Hg]. by exists rec.
  - unfold commit in Hg. destruct (goals r !! goal_id i) as [rec0|]; [|by exists rec].
    destruct (committed rec0); [by exists rec|]. simpl in Hg.
    apply lookup_insert_Some in Hg as [[<- <-]|[_ Hg]]; [by apply not_elem_of_nil in Hq | by exists rec].
Qed.

Lemma removed_unregistered q r id : ~ registered (goals (exec (Op_remove q) r)) id q.
Proof.
  intros (rec & Hg & Hq). simpl in Hg. rewrite lookup_fmap_Some in Hg. destruct Hg as (rec0 & <- & _).
  by apply list_elem_of_filter in Hq as [[] _].
Qed.

(** ** Reservations *)

Definition accepting_inv (x : ActionRun) : Prop :=
  NoDup (accepting x) /\ forall id, id ∈ accepting x <-> reserved (goals (run_goals x)) id.

Lemma frame_accepting op g x x' c c' acc :
  accepts op = false -> accepting_inv (MkRun x g c acc) -> accepting_inv (MkRun x' (exec op g) c' acc).
Proof.
  intros Hop [Hnd Hacc]. split; [done|]. intros id. simpl.
  rewrite (frame_reserved _ _ _ _ (exec_frame op g Hop)). apply Hacc.
Qed.

(** Dropping one of the accepting threads together with its reservation. *)
Lemma accepting_drop x c g g' acc1 acc2 id :
  (forall id', reserved (goals g') id' <-> id' <> id /\ reserved (goals g) id') ->
  accepting_inv (MkRun x g c (acc1 ++ id :: acc2)) -> accepting_inv (MkRun x g' c (acc1 ++ acc2)).
Proof.
  intros Hg [[Hni Hnd]%NoDup_middle Hacc]. split; [done|]. intros id'. simpl in *.
  rewrite Hg, <- Hacc, elem_of_middle. split; [|tauto]. intros Hin. split; [|by right]. intros ->. done.
Qed.

Lemma reserved_insert g id rec id' :
  reserved (<[id := rec]> g) id' <-> id' = id /\ committed rec = false \/ id' <> id /\ reserved g id'.
Proof.
  unfold reserved. destruct (decide (id' = id)) as [->|Hne].
  - rewrite lookup_insert_eq. naive_solver.
  - rewrite lookup_insert_ne by done. naive_solver.
Qed.

Lemma accepting_step fails x x' : accepting_inv x -> action_step fails x x' -> accepting_inv x'.
Proof.
  intros Hx Hstep. destruct Hstep; try exact Hx.
  - apply (frame_accepting op g x x c c acc); [by destruct op | done].
  - by apply (frame_accepting (Op_remove id) g x x (Removing id)).
  - by apply (frame_accepting (Op_register goal id now alive) g x x (Registering goal id)).
  - by apply (frame_accepting (Op_take_pending goal) g x x Uncoordinated).
  - destruct Hx as [Hnd Hacc]. unfold reserve in H. simpl in *.
    destruct (goals g !! id) eqn:Hg; [done|]. injection H as <-.
    assert (~ reserved (goals g) id) as Hno by (intros (? & ? & _); congruence).
    split; simpl; [constructor; [by rewrite Hacc | done]|]. intros id'.
    rewrite elem_of_cons, Hacc, reserved_insert. simpl. destruct (decide (id' = id)) as [->|]; tauto.
  - apply (accepting_drop x c g g' acc1 acc2 (goal_id i)); [|done]. intros id'. unfold commit in H.
    destruct (goals g !! goal_id i) as [rec|] eqn:Hg; [|done]. destruct (committed rec) eqn:Hc; [done|].
    injection H as <-. simpl. rewrite reserved_insert. simpl. naive_solver.
  - apply (accepting_drop x c g _ acc1 acc2 id); [|done]. intros id'. destruct Hx as [_ Hacc]. simpl in Hacc.
    destruct (proj1 (Hacc id)) as (rec & Hg & Hc); [by apply elem_of_middle; left|]. simpl.
    unfold rollback_reservation. rewrite Hg, Hc. unfold reserved; simpl.
    setoid_rewrite lookup_delete_Some. naive_solver.
Qed.

(** whatever runs beside it, [accept_goal] finds its reservation again: a
    goal that a thread has reserved can be committed, so that the
    [ProtocolFault] after a response on the wire is unreachable; until then
    nobody else can reserve it, and it is no goal yet for any other
    operation. *)
Theorem accept_reservation_kept fails max timeout x i mode :
  reachable (action_started max timeout) (action_step fails) x -> goal_id i ∈ accepting x ->
  (commit i mode (run_goals x)).1 = true /\
  (reserve (goal_id i) (run_goals x)).1 = false /\
  has_value (ActionGoals.goal_state (goal_id i) (run_goals x)) = false /\
  exists acc1 acc2, accepting x = acc1 ++ goal_id i :: acc2 /\ goal_id i ∉ acc1 ++ acc2.
Proof.
  intros Hx Hin. assert (accepting_inv x) as [Hnd Hacc].
  { clear Hin. revert x Hx. apply reachable_invariant; [|apply accepting_step]. intros x ->.
    split; [constructor|]. intros id. split; [set_solver|]. intros (? & [=] & _). }
  destruct (proj1 (Hacc _) Hin) as (rec & Hg & Hc).
  unfold commit, reserve, ActionGoals.goal_state. rewrite Hg, Hc. split_and!; [done..|].
  apply list_elem_of_split in Hin as (acc1 & acc2 & Heq). exists acc1, acc2. split; [done|].
  rewrite Heq in Hnd. by apply NoDup_middle in Hnd as [? _].
Qed.

(** ** Result requests *)

(** The request can be answered, and its id is the caller's. *)
Definition answerable (x : Interleaving) (q : RequestId) : Prop :=
  (exists p, pending (server x) !! q = Some p /\ phase p = Servers.Pending) /\ reader_pc x <> R_committing q.

(** Nothing that runs outside the coordination mutex takes it away. *)
Lemma answerable_step x x' q :
  exclusive_inv x -> server_step false x x' -> ~ coordinated x x' -> answerable x q -> answerable x' q.
Proof.
  intros (_ & Hws & Hseen) Hstep Hno [(p & Hp & Hph) Hr].
  assert (q ∈ seen x) as Hq by (apply Hseen; by eexists).
  destruct Hstep; simpl in *; try (split; [by exists p | done]).
  - unfold reserve_request_slot in H. destruct (_ <=? _); simplify_eq/=. split; [by exists p | done].
  - split; [by destruct b; exists p | done].
  - injection H as <- <-. split; [by exists p | by destruct (_ =? _)].
  - unfold insert_pending in H0. destruct (pending s !! id); simplify_eq/=.
    assert (id <> q) by (intros ->; done). split; [|by intros [= ->]]. exists p. simpl. by rewrite lookup_insert_ne.
  - unfold insert_pending in H. destruct (pending s !! id); simplify_eq/=. split; [by exists p | by destruct b].
  - assert (id <> q) by (intros ->; done). injection H as <- <-. split; [|by destruct (_ =? _)].
    exists p. simpl. by rewrite lookup_delete_ne.
  - destruct Hno. by econstructor.
  - destruct Hno. by econstructor.
  - apply Forall_app in Hws as [_ [[_ Hw] _]%Forall_cons]. simpl in Hw.
    assert (id <> q) by (intros ->; apply Hw in Hp; congruence). injection H as <- <-. split; [|done].
    exists p. simpl. by rewrite lookup_delete_ne.
  - split; [|done]. unfold restore_pending, set_phase. destruct (pending s !! id) as [p'|] eqn:Hid; [|by exists p].
    simpl. destruct (decide (id = q)) as [->|]; [|exists p; by rewrite lookup_insert_ne].
    rewrite lookup_insert_eq. by eexists.
Qed.

Definition result_inv (x : ActionRun) : Prop :=
  exclusive_inv (results x) /\ registry_wf (run_goals x) /\
  (forall id q, registered (goals (run_goals x)) id q ->
     answerable (results x) q \/ coordination x = Removing q) /\
  (forall id q, coordination x = Registering id q -> answerable (results x) q).

(** A registry operation that registers nothing. *)
Lemma registry_result_inv op x g c acc acc' :
  (forall id q, ~ registers op id q) -> result_inv (MkRun x g c acc) -> result_inv (MkRun x (exec op g) c acc').
Proof.
  intros Hop (He & Hwf & Hreg & Hc). split_and!; simpl in *; [done | by apply exec_wf | | done].
  intros id q [Hr|Hr]%exec_registered; [by eapply Hreg | by apply Hop in Hr].
Qed.

Lemma answerable_claimed s r ws n q id identity s' q' :
  claim_locked id s = (success identity, s') -> answerable (MkInterleaving s r ws n q) q' ->
  answerable (MkInterleaving s' r ((id, W_writing) :: ws) n q) q' \/ id = q'.
Proof.
  intros (p & Hp & _ & Heq)%claim_lookup [(p' & Hp' & Hph) Hr]. destruct (decide (id = q')) as [|Hne]; [by right|].
  left. split; [|done]. exists p'. simpl in *. by rewrite Heq, lookup_insert_ne.
Qed.

Lemma answerable_discarded s r ws n q id full s' n' q' :
  discard_locked id s = (success full, s') -> answerable (MkInterleaving s r ws n q) q' ->
  answerable (MkInterleaving s' r ws n' q) q' \/ id = q'.
Proof.
  intros Hd [(p' & Hp' & Hph) Hr]. destruct (decide (id = q')) as [|Hne]; [by right|].
  left. split; [|done]. exists p'. unfold discard_locked in Hd. simpl in *.
  destruct (pending s !! id); [|done]. case_decide; [done|]. injection Hd as _ <-. simpl. by rewrite lookup_delete_ne.
Qed.

Lemma result_step x x' : result_inv x -> action_step false x x' -> result_inv x'.
Proof.
  intros Hx Hstep. destruct Hstep.
  - destruct Hx as (He & Hwf & Hreg & Hc); simpl in *.
    split_and!; simpl; [by eapply exclusive_step | done | |].
    + intros id q [Ha|?]%Hreg; [left; by eapply answerable_step | by right].
    + intros id q Ha%Hc. by eapply answerable_step.
  - apply (registry_result_inv op x g c acc); [|done]. intros id q (now & alive & ->). done.
  - destruct Hx as (He & Hwf & Hreg & Hc); simpl in *. split_and!; simpl; [|done| |done].
    + eapply exclusive_step; [exact He | by econstructor].
    + intros id' q' [Ha|?]%Hreg; [|done]. apply (answerable_claimed _ _ _ _ _ _ _ _ _ H) in Ha as [?| ->]; auto.
  - destruct Hx as (He & Hwf & Hreg & Hc); simpl in *. split_and!; simpl; [|done| |done].
    + eapply exclusive_step; [exact He | by econstructor].
    + intros id' q' [Ha|?]%Hreg; [|done].
      apply (answerable_discarded _ _ _ _ _ _ _ _ (if full then S n else n) _ H) in Ha as [?| ->]; auto.
  - destruct Hx as (He & Hwf & Hreg & Hc); simpl in *. split_and!; simpl; try done.
    intros id' q' [?|?]%Hreg; [by left | done].
  - destruct Hx as (He & Hwf & Hreg & Hc); simpl in *. split_and!; simpl; try done; [by apply (exec_wf (Op_remove id))|].
    intros id' q' Hr. left. destruct (exec_registered (Op_remove id) g id' q' Hr) as [Hr'|(? & ? & ?)]; [|done].
    destruct (Hreg _ _ Hr') as [?|[= <-]]; [done|]. by apply (removed_unregistered id g id') in Hr.
  - destruct Hx as (He & Hwf & Hreg & Hc); simpl in *. split_and!; simpl; [done | done | |].
    + intros id' q' [?|?]%Hreg; [by left | done].
    + intros id' q' [= _ <-]. split; [|done]. unfold check_pending_request in H.
      destruct (pending (server x) !! id) as [p|]; [|done]. case_decide; [done|]. exists p. split; [done|].
      by destruct (phase p).
  - destruct Hx as (He & Hwf & Hreg & Hc); simpl in *. split_and!; simpl; [done | by apply register_result_request_wf | | done].
    intros id' q' [Hr|(? & ? & [= <- <- _ _])]%(exec_registered (Op_register goal id now alive)); left.
    + by destruct (Hreg _ _ Hr).
    + by apply (Hc goal).
  - apply (registry_result_inv (Op_take_pending goal) x g _ acc); [|done]. by intros ?? (? & ? & ?).
  - replace g' with (exec (Op_reserve id) g) by (simpl; by rewrite H).
    apply (registry_result_inv (Op_reserve id) x g c acc); [|done]. by intros ?? (? & ? & ?).
  - replace g' with (exec (Op_commit i mode) g) by (simpl; by rewrite H).
    eapply (registry_result_inv (Op_commit i mode) x g c); [|done]. by intros ?? (? & ? & ?).
  - eapply (registry_result_inv (Op_rollback id) x g c); [|done]. by intros ?? (? & ? & ?).
Qed.

Lemma result_reachable max timeout x :
  reachable (action_started max timeout) (action_step false) x -> result_inv x.
Proof.
  apply reachable_invariant; [|apply result_step]. intros y ->. split_and!; simpl; [| apply make_registry_wf | | done].
  - split_and!; [constructor | constructor | by intros ? [? ?]].
  - by intros id q (? & ? & _).
Qed.

(** C10: what [take_pending_result_requests] hands over can be answered.  As
    long as no response attempt fails, and whatever runs beside it, the
    request ids it returns are distinct, each of them is pending at the result
    server and nobody is writing its response, so that claiming it succeeds;
    and no goal has them any more. *)
Theorem result_requests_answerable max timeout x goal l g' :
  reachable (action_started max timeout) (action_step false) x -> coordination x = Uncoordinated ->
  ActionGoals.take_pending_result_requests goal (run_goals x) = (success l, g') ->
  NoDup l /\
  forall q, q ∈ l ->
    has_value (claim_locked q (server (results x))).1 = true /\ q ∉ writing (results x) /\
    forall id, ~ registered (goals g') id q.
Proof.
  intros ((_ & Hws & _) & Hwf & Hreg & _)%result_reachable Hfree Htake.
  unfold ActionGoals.take_pending_result_requests in Htake.
  destruct (goals (run_goals x) !! goal) as [rec|] eqn:Hg; [|done].
  destruct (committed rec) eqn:Hc; [|done]. injection Htake as <- <-.
  pose proof (wf_records _ Hwf goal rec Hg) as Hr. apply record_wf_committed in Hr as (_ & _ & _ & Hnd); [|done].
  split; [done|]. intros q Hq. destruct (Hreg goal q) as [[(p & Hp & Hph) _]|]; [by exists rec | | congruence].
  split_and!.
  - unfold claim_locked. by rewrite Hp, Hph.
  - intros Hw. apply list_elem_of_omap in Hw as ([id []] & Hin & Hid); try done. injection Hid as ->.
    rewrite Forall_forall in Hws. destruct (Hws _ Hin) as [_ Hpc]. apply Hpc in Hp. congruence.
  - intros id (rec' & Hg' & Hq'). simpl in Hg'.
    apply lookup_insert_Some in Hg' as [[<- <-]|[Hne Hg']]; [by apply not_elem_of_nil in Hq'|].
    by apply Hne, (wf_exclusive _ Hwf goal id rec rec' q).
Qed.

(** An operation of the registry keeps a registered request unless it removes
    it, takes it, or drops its goal as expired. *)
Lemma exec_keeps op r id q :
  registry_wf r -> registered (goals r) id q ->
  registered (goals (exec op r)) id q \/ op = Op_remove q \/ op = Op_take_pending id \/
  exists now rec, prune_time op = Some now /\ goals r !! id = Some rec /\
    is_terminal_goal_state (state rec) = true /\ result_timeout r <= now - terminal_time rec.
Proof.
  intros Hwf (rec & Hg & Hq).
  assert (committed rec = true) as Hc.
  { pose proof (wf_records _ Hwf id rec Hg) as Hr. unfold record_wf in Hr.
    destruct (committed rec); [done|]. subst. by apply not_elem_of_nil in Hq. }
  assert (forall now alive, let r' := (prune_expired_locked now alive r).1 in
    goals r' !! id = Some rec \/
    is_terminal_goal_state (state rec) = true /\ result_timeout r <= now - terminal_time rec) as Hprune.
  { intros now alive. simpl. destruct (prune_step now alive r id rec Hwf Hg Hc) as [?|(_ & ? & ? & _)]; auto. }
  assert (forall g' id' rec', g' !! id = Some rec -> (id' = id -> q ∈ pending_result_requests rec') ->
    registered (<[id' := rec']> g') id q) as Hins.
  { intros g' id' rec' Hg' Hq'. destruct (decide (id' = id)) as [->|].
    - exists rec'. rewrite lookup_insert_eq. auto.
    - exists rec. by rewrite lookup_insert_ne. }
  destruct op; simpl.
  - left. unfold reserve. destruct (goals r !! id0) eqn:H0; [by exists rec|]. apply Hins; [done | congruence].
  - left. unfold rollback_reservation. destruct (goals r !! id0) as [rec0|] eqn:H0; [|by exists rec].
    destruct (committed rec0) eqn:H1; [by exists rec|]. exists rec. simpl. rewrite lookup_delete_ne; [done | congruence].
  - left. unfold commit. destruct (goals r !! goal_id i) as [rec0|] eqn:H0; [|by exists rec].
    destruct (committed rec0) eqn:H1; [by exists rec|]. apply Hins; [done | congruence].
  - left. unfold update_state. destruct (goals r !! id0) as [rec0|] eqn:H0; [|by exists rec].
    case_match_goal; try (by exists rec).
    + match goal with H : notify_expiry_locked ?a ?s = _ |- _ =>
        destruct (notify_expiry_locked_frame a s) as (Hn & _); rewrite H in Hn end.
      simpl in Hn. rewrite Hn. apply Hins; [done|]. intros ->. by simplify_eq.
    + apply Hins; [done|]. intros ->. by simplify_eq.
  - destruct (Hprune now alive) as [Hp|[? ?]]; [left | by do 3 right; exists now, rec].
    unfold ActionGoals.register_result_request. destruct (prune_expired_locked now alive r) as [r' woken]; simpl in *.
    destruct (goals r' !! id0) as [rec0|] eqn:H0; [|by exists rec]. case_match_goal; try (by exists rec).
    apply Hins; [done|]. intros ->. simplify_eq. apply elem_of_app. by left.
  - destruct (decide (q0 = q)) as [->|]; [by right; left|]. left. exists (drop_request q0 rec).
    rewrite lookup_fmap, Hg. split; [done|]. by apply list_elem_of_filter.
  - destruct (decide (id0 = id)) as [->|]; [by right; right; left|]. left.
    unfold ActionGoals.take_pending_result_requests. destruct (goals r !! id0) as [rec0|] eqn:H0; [|by exists rec].
    destruct (committed rec0); [|by exists rec]. apply Hins; [done|]. intros ->. done.
  - destruct (Hprune now alive) as [Hp|[? ?]]; [left | by do 3 right; exists now, rec].
    unfold ActionGoals.status_snapshot. destruct (prune_expired_locked now alive r). by exists rec.
  - destruct (Hprune now alive) as [Hp|[? ?]]; [left | by do 3 right; exists now, rec].
    unfold ActionGoals.take_expired_goals. destruct (prune_expired_locked now alive r). by exists rec.
  - left. unfold observe_expiry. destruct (existsb _ _); by exists rec.
Qed.

(** a result request that waits for a goal is not lost.  One step of any
    interleaving without failing attempts leaves it waiting, unless the step
    belongs to a thread that has claimed or discarded it, hands it over to the
    caller of [take_pending_result_requests], or prunes its goal, which is
    then terminal and past its result timeout. *)
Theorem result_request_kept max timeout x x' id q :
  reachable (action_started max timeout) (action_step false) x -> action_step false x x' ->
  registered (goals (run_goals x)) id q ->
  registered (goals (run_goals x')) id q \/
  coordination x = Removing q \/
  (exists l, ActionGoals.take_pending_result_requests id (run_goals x) = (success l, run_goals x') /\ q ∈ l) \/
  (exists now rec, goals (run_goals x) !! id = Some rec /\ is_terminal_goal_state (state rec) = true /\
     result_timeout (run_goals x) <= now - terminal_time rec).
Proof.
  intros (_ & Hwf & _)%result_reachable Hstep Hreg.
  assert (forall op, run_goals x' = exec op (run_goals x) -> op <> Op_remove q -> op <> Op_take_pending id ->
    registered (goals (run_goals x')) id q \/
    exists now rec, goals (run_goals x) !! id = Some rec /\ is_terminal_goal_state (state rec) = true /\
      result_timeout (run_goals x) <= now - terminal_time rec) as Hkeep.
  { intros op -> H1 H2. destruct (exec_keeps op _ _ _ Hwf Hreg) as [?|[?|[?|(now & rec & _ & ? & ? & ?)]]];
      [by left | done | done |]. right. by exists now, rec. }
  destruct Hstep; simpl in *; try (by left).
  - destruct (Hkeep op) as [?|?]; [done | by intros -> | by intros -> | auto..].
  - destruct (decide (id0 = q)) as [->|]; [auto|].
    destruct (Hkeep (Op_remove id0)) as [?|?]; [done | congruence | done | auto..].
  - destruct (Hkeep (Op_register goal id0 now alive)) as [?|?]; auto.
  - destruct (decide (goal = id)) as [->|].
    + do 2 right. left. destruct Hreg as (rec & Hg & Hq). unfold ActionGoals.take_pending_result_requests. rewrite Hg.
      pose proof (wf_records _ Hwf id rec Hg) as Hr. unfold record_wf in Hr.
      destruct (committed rec); [by exists (pending_result_requests rec) | subst; by apply not_elem_of_nil in Hq].
    + destruct (Hkeep (Op_take_pending goal)) as [?|?]; [done | done | congruence | auto..].
  - destruct (Hkeep (Op_reserve id0)) as [?|?]; [simpl; by rewrite H | done | done | auto..].
  - destruct (Hkeep (Op_commit i mode)) as [?|?]; [simpl; by rewrite H | done | done | auto..].
  - destruct (Hkeep (Op_rollback id0)) as [?|?]; auto.
Qed.
End Interleaved.

(** ** Concrete runs *)

Definition accepted_a : ActionGoalRegistry :=
  run exec [Op_reserve goal_a; Op_commit (MkGoalInfo goal_a 7) Mode_Execute] (make_registry 0).

(** [request_a] read, and registered for the goal [goal_a] when [waits]. *)
Definition result_run (waits : bool) (ph : PendingPhase) (ws : list (RequestId * WriterPc)) (c : Coordination) : ActionRun :=
  MkRun (one_pending 2 ph ws)
    (if waits then exec (Op_register goal_a request_a 8 (fun _ => true)) accepted_a else accepted_a) c [].

Lemma unregistered_reachable fails :
  reachable (action_started 2 0) (action_step fails) (result_run false Servers.Pending [] Uncoordinated).
Proof.
  assert (reachable (action_started 2 0) (action_step fails)
    (MkRun (MkInterleaving (new_server 2) R_idle [] 0 ∅) (make_registry 0) Uncoordinated [])) as H by by apply reach_init.
  extend H with (apply (a_reserves fails _ _ _ _ goal_a); reflexivity).
  extend H with (apply (a_commits fails _ _ _ [] [] (MkGoalInfo goal_a 7) Mode_Execute); reflexivity). simpl in H.
  extend H with (apply a_server; [eapply (reader_reserves fails); vm_compute; reflexivity | by inversion 1]).
  extend H with (apply a_server; [apply (reader_disables fails) | by inversion 1]). simpl in H.
  extend H with (apply a_server; [eapply (reader_inserts fails _ false _ _ _ request_a identity_a);
    [apply not_elem_of_empty | vm_compute; reflexivity] | by inversion 1]).
  extend H with (apply a_server; [apply (reader_commits fails) | by inversion 1]). exact H.
Qed.

Lemma registered_reachable fails :
  reachable (action_started 2 0) (action_step fails) (result_run true Servers.Pending [] Uncoordinated).
Proof.
  pose proof (unregistered_reachable fails) as H.
  extend H with (apply (a_checks fails _ _ _ goal_a request_a); [reflexivity | done]).
  extend H with (apply (a_registers fails _ _ _ goal_a request_a 8 (fun _ => true))). exact H.
Qed.

Lemma result_requests_answerable_witness :
  exists g', ActionGoals.take_pending_result_requests goal_a
      (run_goals (result_run true Servers.Pending [] Uncoordinated)) = (success [request_a], g') /\
    has_value (claim_locked request_a (server (results (result_run true Servers.Pending [] Uncoordinated)))).1 = true.
Proof.
  eexists. split; [vm_compute; reflexivity|].
  refine (proj1 (proj2 (result_requests_answerable 2 0 (result_run true Servers.Pending [] Uncoordinated) goal_a [request_a] _
    (registered_reachable false) eq_refl _) request_a _)).
  - vm_compute. reflexivity.
  - by apply list_elem_of_singleton.
Defined.

(** The goal succeeds at time 9 while the request waits. *)
Definition goal_done (x : ActionRun) : ActionRun :=
  MkRun (results x) (exec (Op_update goal_a Ev_Succeed 9 (fun _ => true)) (run_goals x)) (coordination x) (accepting x).

Lemma waits_for_goal : registered (goals (run_goals (result_run true Servers.Pending [] Uncoordinated))) goal_a request_a.
Proof. eexists. split; [vm_compute; reflexivity | by apply list_elem_of_singleton]. Qed.

Lemma result_request_kept_witness :
  registered (goals (run_goals (goal_done (result_run true Servers.Pending [] Uncoordinated)))) goal_a request_a \/
  (exists now rec, goals (run_goals (result_run true Servers.Pending [] Uncoordinated)) !! goal_a = Some rec /\
     is_terminal_goal_state (state rec) = true /\ 0 <= now - terminal_time rec).
Proof.
  destruct (result_request_kept 2 0 _ (goal_done (result_run true Servers.Pending [] Uncoordinated)) goal_a request_a
    (registered_reachable false)) as [H|[H|[(l & Hl & _)|H]]].
  - by apply a_registry.
  - exact waits_for_goal.
  - left. exact H.
  - discriminate H.
  - vm_compute in Hl. discriminate Hl.
  - right. exact H.
Defined.

Lemma accept_reservation_kept_witness :
  (commit (MkGoalInfo goal_a 7) Mode_Execute (exec (Op_reserve goal_a) (make_registry 0))).1 = true.
Proof.
  refine (proj1 (accept_reservation_kept false 2 0
    (MkRun (MkInterleaving (new_server 2) R_idle [] 0 ∅) (exec (Op_reserve goal_a) (make_registry 0)) Uncoordinated [goal_a])
    (MkGoalInfo goal_a 7) Mode_Execute _ _)).
  - eapply reach_step; [apply reach_init; reflexivity|]. by apply a_reserves.
  - by apply list_elem_of_singleton.
Defined.

(** With a result timeout of zero, a goal that ends is pruned by the next
    status snapshot, before its waiting requests are taken: the request can
    then no longer be taken, while the result server still holds it. *)
Example snapshot_strands_requests :
  let a := MkActionServer (new_server 2) (new_server 2) (server (one_pending 2 Servers.Pending [])) accepted_a in
  let '(registered, a, _) := register_result_request true goal_a request_a 8 (fun _ => true) a in
  let '(ended, a, _) := update_goal_state true goal_a Ev_Succeed 9 (fun _ => true) a in
  let '(snapshot, a, _) := status_snapshot true 9 (fun _ => true) a in
  let '(taken, a) := take_pending_result_requests true goal_a a in
  registered = success ActionGoals.Pending /\ has_value ended = true /\ snapshot = success [] /\
  code_of taken = Some NotFound /\ check_pending_request request_a (result_server a) = success tt.
Proof. vm_compute. by split_and!. Qed.

(** When attempts can fail, the double release of [Servers] strands a request
    the other way round: it is answered, and still waits for its goal. *)
Example failed_attempt_strands_registration :
  exists x, reachable (action_started 2 0) (action_step true) x /\ coordination x = Uncoordinated /\
    registered (goals (run_goals x)) goal_a request_a /\ pending (server (results x)) = ∅.
Proof.
  pose proof (unregistered_reachable true) as H.
  extend H with (eapply (a_claims true _ _ _ _ _ _ _ request_a identity_a); vm_compute; reflexivity).
  extend H with (apply a_removes).
  extend H with (apply a_server; [by apply (answer_fails true _ _ [] [] _ _ request_a) | by inversion 1]).
  extend H with (eapply (a_claims true _ _ _ _ _ _ _ request_a identity_a); vm_compute; reflexivity).
  extend H with (apply a_removes).
  extend H with (apply a_server; [apply (restores true _ _ [(request_a, W_writing)] [] _ _ request_a) | by inversion 1]).
  extend H with (apply (a_checks true _ _ _ goal_a request_a); [vm_compute; reflexivity | done]).
  extend H with (apply (a_registers true _ _ _ goal_a request_a 8 (fun _ => true))).
  extend H with (apply a_server;
    [eapply (answers true _ _ [] [] _ _ request_a false); vm_compute; reflexivity | by inversion 1]).
  eexists. split; [exact H|]. split_and!; [done | | vm_compute; done].
  eexists. split; [vm_compute; reflexivity | by apply list_elem_of_singleton].
Qed.
