(* ===== verification/ActionClients.v ===== *)
(** * ActionClients: the action client

    Models [ActionClient::Impl] of src/impl/action_impl.{hpp,cpp}: three
    clients and two subscribers composed into one action client, the
    availability of its action server, and the wait for it.  Waiting is a
    sequence of rounds as in [Clients]; [AvailabilityWait] interleaves it with
    its notifications. *)

From S2P Require Import Prelude Strings Identity Deadline Names Qos Discovery Metadata Waitables Endpoints Services Servers Clients GraphCandidates AvailabilityWait.
Local Open Scope Z_scope.

(** A client's endpoints, and whether its response sample exists. *)
Record ClientEndpoint := MkClientEndpoint {
  request_writer : GUID_t; response_reader : GUID_t; response_scratch : bool }.

Record ActionClient := MkActionClient {
  names : ActionEndpointNames;
  types : ActionEndpointTypes;
  goal_client : ClientEndpoint;
  cancel_client : ClientEndpoint;
  result_client : ClientEndpoint;
  availability_state : AvailabilityWaitState }.

Definition with_scratch (b : bool) (c : ClientEndpoint) : ClientEndpoint :=
  MkClientEndpoint (request_writer c) (response_reader c) b.

Definition with_goal_client (c : ClientEndpoint) (a : ActionClient) : ActionClient :=
  MkActionClient (names a) (types a) c (cancel_client a) (result_client a) (availability_state a).
Definition with_cancel_client (c : ClientEndpoint) (a : ActionClient) : ActionClient :=
  MkActionClient (names a) (types a) (goal_client a) c (result_client a) (availability_state a).
Definition with_result_client (c : ClientEndpoint) (a : ActionClient) : ActionClient :=
  MkActionClient (names a) (types a) (goal_client a) (cancel_client a) c (availability_state a).
Definition with_availability (s : AvailabilityWaitState) (a : ActionClient) : ActionClient :=
  MkActionClient (names a) (types a) (goal_client a) (cancel_client a) (result_client a) s.

Section Operations.
Context `{!Handles}.
Variable c_SequenceNumber_Unknown : SequenceNumber.

(** ** Requests and responses *)

Definition write_request_of (c : ClientEndpoint) : bool -> bool -> option SampleIdentity -> Result RequestId * option GUID_t :=
  write_request c_SequenceNumber_Unknown (response_reader c).

Definition write_goal_request (a : ActionClient) := write_request_of (goal_client a).
Definition write_cancel_request (a : ActionClient) := write_request_of (cancel_client a).
Definition write_result_request (a : ActionClient) := write_request_of (result_client a).

Section Reading.
Context {Payload : Type} (commit : Payload -> Result unit) (create_sample : Result unit).

Definition read_response_of (get : ActionClient -> ClientEndpoint) (put : ClientEndpoint -> ActionClient -> ActionClient)
    (response_null operation : bool) (unread : nat) (takes : list (TakeResult (Payload := Payload))) (a : ActionClient)
    : Result (option (RequestId * Payload)) * ActionClient :=
  let c := get a in
  let '(r, scratch) := read_response c_SequenceNumber_Unknown (request_writer c) (response_reader c) commit create_sample
                         response_null operation unread takes (response_scratch c) in
  (r, put (with_scratch scratch c) a).

Definition read_goal_response := read_response_of goal_client with_goal_client.
Definition read_cancel_response := read_response_of cancel_client with_cancel_client.
Definition read_result_response := read_response_of result_client with_result_client.
End Reading.

(** The subscribers keep their own scratch sample. *)
Definition read_feedback `{!TypeSupport} := Endpoints.read c_SequenceNumber_Unknown.
Definition read_status `{!TypeSupport} := Endpoints.read c_SequenceNumber_Unknown.

(** ** Availability *)

(** What [check_availability] meets: the operation, the health before and
    after the metadata is ingested, the [actual_qos] of the eight endpoints,
    then the candidates of the graph's view. *)
Record AvailabilityEnv := MkAvailabilityEnv {
  operation : bool;
  health_before : DiscoveryHealth;
  goal_request_qos : Result Qos; goal_response_qos : Result Qos;
  cancel_request_qos : Result Qos; cancel_response_qos : Result Qos;
  result_request_qos : Result Qos; result_response_qos : Result Qos;
  feedback_qos : Result Qos; status_qos : Result Qos;
  health_after : DiscoveryHealth;
  graph_view : GraphView;
  live : list ParticipantRecord }.

Definition load_client_qos (e : AvailabilityEnv) : Result ActionClientEndpointQos :=
  let? q1 := goal_request_qos e in
  let? q2 := goal_response_qos e in
  let? q3 := cancel_request_qos e in
  let? q4 := cancel_response_qos e in
  let? q5 := result_request_qos e in
  let? q6 := result_response_qos e in
  let? q7 := feedback_qos e in
  let? q8 := status_qos e in
  success (MkClientQos q1 q2 q3 q4 q5 q6 q7 q8).

Definition graph_unavailable {T} : Result T := fail DDSError "Discovery graph is unavailable".

Definition check_availability (mode : RuntimeMode) (a : ActionClient) (e : AvailabilityEnv) : Result bool :=
  if negb (operation e) then failure shut_down_error
  else if negb (bool_decide (health_before e = Healthy)) then graph_unavailable
  else
    let? client_qos := load_client_qos e in
    if negb (bool_decide (health_after e = Healthy)) then graph_unavailable
    else
      let candidates := collect_endpoint_candidates mode (graph_view e) (live e) in
      success (has_action_server candidates (names a) (types a) mode (Some client_qos)).

Definition server_is_available := check_availability.

(** ** Waiting *)

Definition prepare_availability_wait (operation : bool) (a : ActionClient) : Result AvailabilityWaitToken :=
  if negb operation then failure shut_down_error else success (prepare (availability_state a)).

Definition interrupt_waits (a : ActionClient) : Result unit * ActionClient :=
  (success tt, with_availability (interrupt (availability_state a)) a).

(** One round of the loop of [wait_for_server], with what its check meets. *)
Record ServerRound := MkServerRound {
  s_before : AvailabilityWaitState; s_before_shutdown : bool;
  s_env : AvailabilityEnv;
  s_after : AvailabilityWaitState; s_after_shutdown : bool;
  s_now : Z;
  s_changed : bool }.

Definition checked_round (mode : RuntimeMode) (a : ActionClient) (r : ServerRound) : Round :=
  MkRound (s_before r) (s_before_shutdown r) (check_availability mode a (s_env r))
    (s_after r) (s_after_shutdown r) (s_now r) (s_changed r).

(** [wait_loop] is the loop: the same as that of [wait_for_service], around
    another check. *)
Definition wait_for_server `{!WideCompare} (mode : RuntimeMode) (operation : bool) (timeout : WaitTimeout)
    (token : AvailabilityWaitToken) (start : Z) (rounds : list ServerRound) (a : ActionClient) : option (Result bool) :=
  if negb operation then Some (failure shut_down_error)
  else if negb (owns (availability_state a) token) then
    Some (fail InvalidArgument "Availability token belongs to another endpoint")
  else
    deadline ← steady_deadline timeout start;
    wait_loop (timeout_kind timeout) deadline token (checked_round mode a <$> rounds).

(** The overload without a token; [operation1] is the one acquired to prepare
    it. *)
Definition wait_for_server_now `{!WideCompare} (mode : RuntimeMode) (operation1 operation2 : bool)
    (timeout : WaitTimeout) (start : Z) (rounds : list ServerRound) (a : ActionClient) : option (Result bool) :=
  match prepare_availability_wait operation1 a with
  | failure e => Some (failure e)
  | success token => wait_for_server mode operation2 timeout token start rounds a
  end.

(** ** Readiness *)

Record ActionClientReadySet := MkClientReady {
  goal_response : bool; cancel_response : bool; result_response : bool; feedback_ready : bool; status_ready : bool }.

(** Each reader's wait state with its unread count. *)
Definition readiness (operation : bool) (goal cancel result feedback status : Z * ReaderWaitState)
    : Result ActionClientReadySet :=
  if negb operation then failure shut_down_error
  else success (MkClientReady (reader_is_ready goal.1 goal.2) (reader_is_ready cancel.1 cancel.2)
                  (reader_is_ready result.1 result.2) (reader_is_ready feedback.1 feedback.2)
                  (reader_is_ready status.1 status.2)).
End Operations.

(** ** What the check and the wait report *)

(** The environment lets the check reach the candidates. *)
Definition check_open (e : AvailabilityEnv) (q : ActionClientEndpointQos) : Prop :=
  operation e = true /\ health_before e = Healthy /\ load_client_qos e = success q /\ health_after e = Healthy.

(** Some composition of some participant serves the action: the first match of
    each of its eight endpoints is compatible with the client's endpoint. *)
Definition server_seen (mode : RuntimeMode) (a : ActionClient) (q : ActionClientEndpointQos) (e : AvailabilityEnv) : Prop :=
  let candidates := collect_endpoint_candidates mode (graph_view e) (live e) in
  exists p composition es,
    Forall2 (fun req c => find_if (fun c => bool_decide (meets mode p composition req c)) candidates = Some c)
      (required (names a) (types a)) es /\
    compatible_endpoints q es.

Lemma check_availability_spec mode a e b :
  check_availability mode a e = success b <->
  exists q, check_open e q /\ (b = true <-> server_seen mode a q e).
Proof.
  assert (forall q, has_action_server (collect_endpoint_candidates mode (graph_view e) (live e)) (names a) (types a) mode
    (Some q) = true <-> server_seen mode a q e) as Hseen.
  { intros q. rewrite has_action_server_cases. unfold server_seen. setoid_rewrite composition_complete_spec. naive_solver. }
  unfold check_availability, check_open, graph_unavailable.
  destruct (operation e); simpl; [|naive_solver].
  destruct (decide (health_before e = Healthy)) as [H1|H1];
    [rewrite (bool_decide_eq_true_2 _ H1) | rewrite (bool_decide_eq_false_2 _ H1); naive_solver]. simpl.
  destruct (load_client_qos e) as [q|err] eqn:Hq; [|naive_solver].
  destruct (decide (health_after e = Healthy)) as [H2|H2];
    [rewrite (bool_decide_eq_true_2 _ H2) | rewrite (bool_decide_eq_false_2 _ H2); naive_solver]. simpl.
  specialize (Hseen q). destruct (has_action_server _ _ _ _ _) eqn:Hh; split.
  - intros [= <-]. by exists q.
  - intros (q' & (_ & _ & [= <-] & _) & Hb). f_equal. symmetry. by apply Hb, Hseen.
  - intros [= <-]. exists q. split; [done|]. split; [done|]. by intros ?%Hseen.
  - intros (q' & (_ & _ & [= <-] & _) & Hb). f_equal. destruct b; [|done]. by apply Hseen, Hb.
Qed.

(** waiting for an action server reports what one of its checks saw.  It
    returns [true] only for a round whose graph view contained a participant
    serving all eight endpoints of the action, under its names, with its wire
    types and with QoS compatible with the client's; [false] only for a round
    whose view did not, when the wait polls or when a finite deadline passed
    with no notification since that check; the errors are the shutdown of the
    context, the interrupt of a token prepared before it, a foreign token, and
    those of the check. *)
Theorem wait_for_server_spec `{!WideCompare} mode operation timeout token start rounds a result :
  wait_for_server mode operation timeout token start rounds a = Some result ->
  match result with
  | success b =>
      operation = true /\ owns (availability_state a) token = true /\
      exists r q, r ∈ rounds /\ s_before_shutdown r = false /\ interrupted (s_before r) token = false /\
        check_open (s_env r) q /\ (b = true <-> server_seen mode a q (s_env r)) /\
        (b = false -> timeout_kind timeout = Poll \/
           exists deadline, timeout_kind timeout = Finite /\ steady_deadline timeout start = Some deadline /\
             s_after_shutdown r = false /\ interrupted (s_after r) token = false /\
             wait_revision (s_after r) = wait_revision (s_before r) /\
             (deadline <= s_now r \/ s_changed r = false))
  | failure e =>
      operation = false /\ e = shut_down_error \/
      owns (availability_state a) token = false /\ error_code e = InvalidArgument \/
      exists r, r ∈ rounds /\
        ((s_before_shutdown r || s_after_shutdown r = true) /\ error_code e = ContextShutdown \/
         (interrupted (s_before r) token || interrupted (s_after r) token = true) /\ error_code e = Interrupted \/
         check_availability mode a (s_env r) = failure e)
  end.
Proof.
  unfold wait_for_server. destruct operation; simpl; [|intros [= <-]; by left].
  destruct (owns (availability_state a) token) eqn:Hown; simpl; [|intros [= <-]; right; by left].
  intros Hres. pose proof (wait_for_service_spec (availability_state a) timeout token start
    (checked_round mode a <$> rounds) Hown) as [Hspec _].
  unfold wait_for_service in Hspec. rewrite Hown in Hspec. cbn [negb] in Hspec.
  destruct (Hspec result Hres) as (deadline & earlier & r' & later & Hd & Heq & _ & Hdec). clear Hspec Hres.
  assert (exists r, r ∈ rounds /\ r' = checked_round mode a r) as (r & Hin & ->).
  { assert (r' ∈ checked_round mode a <$> rounds) as (r & -> & ?)%list_elem_of_fmap by (rewrite Heq; set_solver).
    by exists r. }
  destruct result as [[]|e]; simpl in Hdec.
  - destruct Hdec as (H1 & H2 & (q & Hq & Hb)%check_availability_spec).
    split_and!; [done..|]. exists r, q. by split_and!.
  - destruct Hdec as (H1 & H2 & (q & Hq & Hb)%check_availability_spec & Hend).
    split_and!; [done..|]. exists r, q. split_and!; try done. intros _. destruct Hend as [?|(? & ? & ? & ? & ?)]; [by left|].
    right. exists deadline. by split_and!.
  - do 2 right. exists r. split; [done|]. destruct (s_before_shutdown r), (s_after_shutdown r),
      (interrupted (s_before r) token), (interrupted (s_after r) token); simpl in *; naive_solver.
Qed.

(** ** A concrete wait *)

Section Example.
Local Open Scope dmw_scope.

Definition fib_topics : list (str * EndpointKind * str) :=
  [($"rq/fib/_action/send_goalRequest", Reader, $"G"); ($"rr/fib/_action/send_goalReply", Writer, $"G_");
   ($"rq/fib/_action/cancel_goalRequest", Reader, $"C"); ($"rr/fib/_action/cancel_goalReply", Writer, $"C_");
   ($"rq/fib/_action/get_resultRequest", Reader, $"R"); ($"rr/fib/_action/get_resultReply", Writer, $"R_");
   ($"rt/fib/_action/feedback", Writer, $"F"); ($"rt/fib/_action/status", Writer, $"S")].

(** A Node with the endpoints of an action server. *)
Definition fib_ops : list GraphOp :=
  Op_add_node $"server" $"/" ::
  imap (fun i t => Op_add_endpoint (MkGUID (replicate 12 7) [0; 0; Z.of_nat i; 4]) t.1.2 t.1.1 t.2 1 ros2_default) fib_topics.
End Example.

Definition fib_env (ops : list GraphOp) : AvailabilityEnv :=
  let q := success ros2_default in
  MkAvailabilityEnv true Healthy q q q q q q q q Healthy (view (run graph_step ops new_graph)) [].

Definition fib_client : ActionClient :=
  let c := MkClientEndpoint guid_w guid_a false in MkActionClient fib_names fib_types c c c idle_wait.

Definition fib_round (ops : list GraphOp) : ServerRound :=
  MkServerRound idle_wait false (fib_env ops) idle_wait false 0 false.

Lemma wait_for_server_spec_witness :
  wait_for_server ROS2 true poll (prepare idle_wait) 0 [fib_round []] fib_client = Some (success false) /\
  exists q, server_seen ROS2 fib_client q (fib_env fib_ops).
Proof.
  split; [vm_compute; reflexivity|].
  assert (wait_for_server ROS2 true poll (prepare idle_wait) 0 [fib_round fib_ops] fib_client = Some (success true)) as H
    by (vm_compute; reflexivity).
  destruct (wait_for_server_spec ROS2 true poll (prepare idle_wait) 0 [fib_round fib_ops] fib_client (success true) H)
    as (_ & _ & r & q & Hin & _ & _ & _ & Hseen & _).
  apply list_elem_of_singleton in Hin as ->. exists q. exact (proj1 Hseen eq_refl).
Defined.
