(* ===== verification/Nodes.v ===== *)
(** * Nodes: the factories of a Node

    Models the factories of src/impl/node_impl.cpp: publishers, subscribers,
    clients, servers, action clients and action servers of one Node, each made
    of topics of the Context's registry, native Fast DDS endpoints, and
    registrations in the discovery graph.  The facades that wait for other
    participants also subscribe to the graph, and those of clients register a
    callback for the shutdown of the Context (client_impl.hpp, response.hpp,
    action_impl.cpp).  A factory is a transaction: it is written in a monad
    whose [scoped] stands for a C++ local with a destructor, so that every
    early return gives back what it holds.

    [Calls] has the outcomes of the calls one factory makes, among them
    whether the Context is being shut down by then; otherwise a factory runs
    undisturbed.  Exceptions (allocation failure) are not modelled, nor the
    [weak_ptr]s to their wait states that facades leave with the transport of
    the metadata ([observe_pending]): nobody takes them back. *)

From S2P Require Import Prelude Strings Identity Arguments Names Qos Discovery GraphCandidates.
From S2P Require Metadata Servers ActionServers.
Local Open Scope Z_scope.
Local Open Scope dmw_scope.

(** ** The entities of a Context *)

Record Native := MkNative { native_guid : GUID_t; native_end : EndpointKind; native_topic : str }.

#[export] Instance Native_eq_dec : EqDecision Native.
Proof. solve_decision. Defined.

(** [held]: the references to topics of the registry, by DDS name and type;
    [callbacks]: the keys of [shutdown_children_], the latest first. *)
Record Entities := MkEntities {
  graph : DiscoveryGraph; held : list (str * str); natives : list Native;
  next_callback : Z; callbacks : list Z }.

Definition with_graph (g : DiscoveryGraph) (e : Entities) : Entities :=
  MkEntities g (held e) (natives e) (next_callback e) (callbacks e).
Definition with_held (h : list (str * str)) (e : Entities) : Entities :=
  MkEntities (graph e) h (natives e) (next_callback e) (callbacks e).
Definition with_natives (l : list Native) (e : Entities) : Entities :=
  MkEntities (graph e) (held e) l (next_callback e) (callbacks e).
Definition with_callbacks (next : Z) (l : list Z) (e : Entities) : Entities :=
  MkEntities (graph e) (held e) (natives e) next l.

(** The unit a facade is built of: a [Topic], a DataWriter or DataReader, a
    [LocalEndpointRegistration], a [DiscoveryGraph::Subscription], a shutdown
    callback. *)
Inductive Resource :=
  | R_topic (name wire_type : str)
  | R_native (n : Native)
  | R_local (guid : GUID_t) (kind : EndpointKind) (topic wire_type : str) (qos : Qos) (node : Z)
  | R_subscription (id : Z)
  | R_callback (id : Z).

Definition take_resource (r : Resource) (e : Entities) : Entities :=
  match r with
  | R_topic t ty => with_held ((t, ty) :: held e) e
  | R_native n => with_natives (n :: natives e) e
  | R_local q k t ty qs node => with_graph (add_local_endpoint q k t ty node qs (graph e)).1 e
  | R_subscription _ => with_graph (subscribe (graph e)).2 e
  | R_callback i => with_callbacks (wrap_u64 (i + 1)) (i :: callbacks e) e
  end.

(** [deleted]: whether Fast DDS let go of the listener and the endpoint; the
    Context keeps an endpoint it cannot delete. *)
Definition give_back (deleted : GUID_t -> bool) (r : Resource) (e : Entities) : Entities :=
  match r with
  | R_topic t ty => with_held (erase_first (fun h => bool_decide (h = (t, ty))) (held e)) e
  | R_native n =>
      if deleted (native_guid n)
      then with_natives (erase_first (fun n' => bool_decide (n' = n)) (natives e)) e
      else e
  | R_local q _ _ _ _ _ => with_graph (remove_local_endpoint q (graph e)).1 e
  | R_subscription i => with_graph (unsubscribe i (graph e)) e
  | R_callback i => with_callbacks (next_callback e) (erase_first (Z.eqb i) (callbacks e)) e
  end.

(** Resources are listed with the latest first.  The destructors of the
    facades give those of different kinds back in another order, with the same
    effect ([give_back_comm]). *)
Definition take_all (rs : list Resource) (e : Entities) : Entities := foldr take_resource e rs.
Definition give_back_all (deleted : GUID_t -> bool) (rs : list Resource) (e : Entities) : Entities :=
  foldl (fun e r => give_back deleted r e) e rs.

(** ** Transactions *)

Definition Tx (A : Type) : Type := Entities -> Result A * Entities.

#[export] Instance Tx_ret : MRet Tx := fun A a e => (success a, e).
#[export] Instance Tx_bind : MBind Tx := fun A B f m e =>
  match m e with
  | (success a, e) => f a e
  | (failure err, e) => (failure err, e)
  end.

Definition lift {A} (r : Result A) : Tx A := fun e => (r, e).
Definition require (b : bool) (err : Error) : Tx unit := lift (if b then success tt else failure err).

(** What follows runs with [rs] held, and gives them back if it fails. *)
Definition protect {A} (deleted : GUID_t -> bool) (rs : list Resource) (body : Tx A) : Tx A := fun e =>
  match body e with
  | (success a, e) => (success a, e)
  | (failure err, e) => (failure err, give_back_all deleted rs e)
  end.

Definition scoped {A} (deleted : GUID_t -> bool) (r : Resource) (body : Tx A) : Tx A := fun e =>
  protect deleted [r] body (take_resource r e).

(** A subscription to the graph; its id is 0 when there is none left to give,
    and the graph has become unavailable then. *)
Definition subscribing {A} (deleted : GUID_t -> bool) (body : Z -> Tx A) : Tx A := fun e =>
  match subscribe (graph e) with
  | (Some i, _) => scoped deleted (R_subscription i) (body i) e
  | (None, g) => body 0 (with_graph g e)
  end.

(** [register_shutdown_callback]; [closing]: the Context is being shut down by
    then.  The id is 0 when the callback is refused. *)
Definition registering {A} (deleted : GUID_t -> bool) (closing : bool) (body : Z -> Tx A) : Tx A := fun e =>
  if closing || (next_callback e =? 0) then body 0 e
  else scoped deleted (R_callback (next_callback e)) (body (next_callback e)) e.

(** ** Nodes and the facades they create *)

Record Node := MkNode { n_name : str; n_namespace : str; n_remaps : list RemapRule; n_id : Z }.

(** The Context's runtime mode and QoS baselines. *)
Record Setting := MkSetting { runtime_mode : RuntimeMode; writer_qos_baseline : EndpointQos; reader_qos_baseline : EndpointQos }.

(** [closing]: the shutdown has begun when a client registers its callback. *)
Record Calls := MkCalls {
  operation : bool;
  acquire_topic : str -> str -> Result unit;
  create_native : EndpointKind -> str -> option GUID_t;
  closing : bool;
  is_shutdown : bool }.

(** An endpoint's GUID with its DDS topic and type. *)
Record Endpoint := MkEndpoint { e_guid : GUID_t; e_kind : EndpointKind; e_topic : str; e_type : str }.

Record TopicFacade := MkTopicFacade { t_name : str; t_qos : Qos; t_endpoint : Endpoint }.
(** A client or a server: its request and its response endpoint, its
    subscription to the graph, and the shutdown callback a client has. *)
Record ServiceFacade := MkServiceFacade {
  s_name : str; s_qos : Qos; s_request : Endpoint; s_response : Endpoint; s_subscription : Z; s_callback : Z }.

Record ServiceType := MkServiceType { request_type : str; response_type : str }.

Definition shut_down : Error := MkError ContextShutdown "Context is shut down".

Definition resolved (n : Node) (name : str) : Result str :=
  resolve_remapped_name (n_name n) (n_namespace n) (n_remaps n) name.

(** The [nullptr] check of a creation. *)
Definition native_of (c : Calls) (k : EndpointKind) (topic : str) (message : string) : Result GUID_t :=
  match create_native c k topic with Some guid => success guid | None => fail DDSError message end.

Definition native_resource (h : Endpoint) : Resource := R_native (MkNative (e_guid h) (e_kind h) (e_topic h)).
(** [bind_endpoint_metadata] *)
Definition local_resource (node : Z) (qos : Qos) (h : Endpoint) : Resource :=
  R_local (e_guid h) (e_kind h) (e_topic h) (e_type h) qos node.
Definition topic_resource (h : Endpoint) : Resource := R_topic (e_topic h) (e_type h).

Definition topic_resources (node : Z) (f : TopicFacade) : list Resource :=
  [local_resource node (t_qos f) (t_endpoint f); native_resource (t_endpoint f); topic_resource (t_endpoint f)].

(** A client creates its request writer first, a server its request reader;
    a client subscribes when it has its endpoints, a server before. *)
Definition client_resources (node : Z) (f : ServiceFacade) : list Resource :=
  [R_callback (s_callback f); R_subscription (s_subscription f);
   local_resource node (s_qos f) (s_response f); local_resource node (s_qos f) (s_request f);
   native_resource (s_response f); native_resource (s_request f);
   topic_resource (s_response f); topic_resource (s_request f)].

Definition server_resources (node : Z) (f : ServiceFacade) : list Resource :=
  [local_resource node (s_qos f) (s_response f); local_resource node (s_qos f) (s_request f);
   native_resource (s_response f); native_resource (s_request f); R_subscription (s_subscription f);
   topic_resource (s_response f); topic_resource (s_request f)].

Section Factories.
Context {durations : FastDuration} (s : Setting) (n : Node) (deleted : GUID_t -> bool).

Definition native_qos (k : EndpointKind) (qos : Qos) : Result EndpointQos :=
  match k with
  | Writer => to_writer_qos qos (runtime_mode s) (writer_qos_baseline s)
  | Reader => to_reader_qos qos (runtime_mode s) (reader_qos_baseline s)
  end.

Definition create_topic_facade (k : EndpointKind) (message : string) (type topic_name : str) (qos : Qos) (c : Calls)
    : Tx TopicFacade :=
  logical_name ← lift (resolved n topic_name);
  _ ← lift (native_qos k qos);
  _ ← require (operation c) shut_down;
  let dds_name := dds_topic_name (runtime_mode s) logical_name in
  _ ← lift (acquire_topic c dds_name type);
  scoped deleted (R_topic dds_name type) (
    guid ← lift (native_of c k dds_name message);
    let h := MkEndpoint guid k dds_name type in
    scoped deleted (native_resource h) (
    scoped deleted (local_resource (n_id n) qos h) (
    mret (MkTopicFacade logical_name qos h)))).

Definition create_publisher := create_topic_facade Writer "Fast DDS failed to create a DataWriter".
Definition create_subscriber := create_topic_facade Reader "Fast DDS failed to create a DataReader".

Definition create_client (type : ServiceType) (service_name : str) (qos : Qos) (c : Calls) : Tx ServiceFacade :=
  logical_name ← lift (resolved n service_name);
  _ ← lift (native_qos Writer qos);
  _ ← lift (native_qos Reader qos);
  _ ← require (operation c) shut_down;
  let request_topic_name := service_topic_name (runtime_mode s) logical_name true in
  let response_topic_name := service_topic_name (runtime_mode s) logical_name false in
  _ ← lift (acquire_topic c request_topic_name (request_type type));
  scoped deleted (R_topic request_topic_name (request_type type)) (
  _ ← lift (acquire_topic c response_topic_name (response_type type));
  scoped deleted (R_topic response_topic_name (response_type type)) (
  writer ← lift (native_of c Writer request_topic_name "Fast DDS failed to create request writer");
  let request := MkEndpoint writer Writer request_topic_name (request_type type) in
  scoped deleted (native_resource request) (
  reader ← lift (native_of c Reader response_topic_name "Fast DDS failed to create response reader");
  let response := MkEndpoint reader Reader response_topic_name (response_type type) in
  scoped deleted (native_resource response) (
  scoped deleted (local_resource (n_id n) qos request) (
  scoped deleted (local_resource (n_id n) qos response) (
  subscribing deleted (fun subscription =>
  registering deleted (closing c) (fun callback =>
  _ ← require (negb (subscription =? 0) && negb (callback =? 0))
        (if is_shutdown c then shut_down else MkError DDSError "Client discovery wait registration failed");
  mret (MkServiceFacade logical_name qos request response subscription callback))))))))).

Definition create_server (max_pending_requests : Z) (type : ServiceType) (service_name : str) (qos : Qos) (c : Calls)
    : Tx ServiceFacade :=
  _ ← require (negb (max_pending_requests =? 0))
        (MkError InvalidArgument "max_pending_requests must be greater than zero");
  logical_name ← lift (resolved n service_name);
  _ ← lift (native_qos Reader qos);
  _ ← lift (native_qos Writer qos);
  _ ← require (operation c) shut_down;
  let request_topic_name := service_topic_name (runtime_mode s) logical_name true in
  let response_topic_name := service_topic_name (runtime_mode s) logical_name false in
  _ ← lift (acquire_topic c request_topic_name (request_type type));
  scoped deleted (R_topic request_topic_name (request_type type)) (
  _ ← lift (acquire_topic c response_topic_name (response_type type));
  scoped deleted (R_topic response_topic_name (response_type type)) (
  subscribing deleted (fun subscription =>
  _ ← require (negb (subscription =? 0)) (MkError DDSError "Server response discovery subscription failed");
  reader ← lift (native_of c Reader request_topic_name "Fast DDS failed to create request reader");
  let request := MkEndpoint reader Reader request_topic_name (request_type type) in
  scoped deleted (native_resource request) (
  writer ← lift (native_of c Writer response_topic_name "Fast DDS failed to create response writer");
  let response := MkEndpoint writer Writer response_topic_name (response_type type) in
  scoped deleted (native_resource response) (
  scoped deleted (local_resource (n_id n) qos request) (
  scoped deleted (local_resource (n_id n) qos response) (
  mret (MkServiceFacade logical_name qos request response subscription 0)))))))).

(** ** Actions *)

Record ActionType := MkActionType {
  send_goal_type : ServiceType; cancel_goal_type : ServiceType; get_result_type : ServiceType;
  action_feedback_type : str; action_status_type : str }.

Record ActionOptions := MkActionOptions {
  goal_service_qos : Qos; cancel_service_qos : Qos; result_service_qos : Qos;
  feedback_topic_qos : Qos; status_topic_qos : Qos; result_timeout : Z }.

Record ActionFacade := MkActionFacade {
  a_name : str; a_names : ActionEndpointNames;
  goal_part : ServiceFacade; cancel_part : ServiceFacade; result_part : ServiceFacade;
  feedback_part : TopicFacade; status_part : TopicFacade;
  a_subscription : Z; a_callback : Z }.

(** The calls of an action factory: its own operation, what its five parts
    meet, and what it finds at the end. *)
Record ActionCalls := MkActionCalls {
  a_operation : bool;
  goal_calls : Calls; cancel_calls : Calls; result_calls : Calls; feedback_calls : Calls; status_calls : Calls;
  a_closing : bool; a_shutdown : bool }.

(** The parts, services being made of [res], and what the facade itself takes. *)
Definition part_resources (res : ServiceFacade -> list Resource) (f : ActionFacade) : list Resource :=
  topic_resources (n_id n) (status_part f) ++ topic_resources (n_id n) (feedback_part f) ++
  res (result_part f) ++ res (cancel_part f) ++ res (goal_part f).

Definition action_client_resources (f : ActionFacade) : list Resource :=
  [R_callback (a_callback f); R_subscription (a_subscription f)] ++ part_resources (client_resources (n_id n)) f.
Definition action_server_resources (f : ActionFacade) : list Resource :=
  part_resources (server_resources (n_id n)) f.

Definition action_names (logical_name : str) : Result ActionEndpointNames :=
  match derive_action_endpoint_names logical_name with
  | Some names => success names
  | None => fail InvalidName "Action name is not a valid fully qualified name"
  end.

(** The parts of an action; a part that exists is destroyed if a later one
    fails.  [finish] gives the facade around them its subscription and its
    callback. *)
Definition create_parts (logical_name : str) (names : ActionEndpointNames) (type : ActionType) (o : ActionOptions)
    (c : ActionCalls) (service : ServiceType -> str -> Qos -> Calls -> Tx ServiceFacade)
    (res : ServiceFacade -> list Resource) (topic : str -> str -> Qos -> Calls -> Tx TopicFacade)
    (finish : (Z -> Z -> Tx ActionFacade) -> Tx ActionFacade) : Tx ActionFacade :=
  goal ← service (send_goal_type type) (send_goal names) (goal_service_qos o) (goal_calls c);
  protect deleted (res goal) (
  cancel ← service (cancel_goal_type type) (cancel_goal names) (cancel_service_qos o) (cancel_calls c);
  protect deleted (res cancel) (
  result ← service (get_result_type type) (get_result names) (result_service_qos o) (result_calls c);
  protect deleted (res result) (
  feedback ← topic (action_feedback_type type) (feedback names) (feedback_topic_qos o) (feedback_calls c);
  protect deleted (topic_resources (n_id n) feedback) (
  status ← topic (action_status_type type) (status names) (status_topic_qos o) (status_calls c);
  protect deleted (topic_resources (n_id n) status) (
  finish (fun subscription callback =>
  mret (MkActionFacade logical_name names goal cancel result feedback status subscription callback))))))).

Definition finish_client (c : ActionCalls) (build : Z -> Z -> Tx ActionFacade) : Tx ActionFacade :=
  subscribing deleted (fun subscription =>
  registering deleted (a_closing c) (fun callback =>
  _ ← require (negb (subscription =? 0) && negb (callback =? 0))
        (if a_shutdown c then shut_down else MkError DDSError "ActionClient availability registration failed");
  _ ← require (negb (a_shutdown c)) shut_down;
  build subscription callback)).

Definition create_action_client (type : ActionType) (action_name : str) (o : ActionOptions) (c : ActionCalls)
    : Tx ActionFacade :=
  logical_name ← lift (resolved n action_name);
  names ← lift (action_names logical_name);
  _ ← require (a_operation c) shut_down;
  create_parts logical_name names type o c create_client (client_resources (n_id n)) create_subscriber (finish_client c).

Definition finish_server (c : ActionCalls) (build : Z -> Z -> Tx ActionFacade) : Tx ActionFacade :=
  _ ← require (negb (a_shutdown c)) shut_down;
  build 0 0.

(** [ServerOptions{}] asks for 1024 pending requests. *)
Definition create_action_server (type : ActionType) (action_name : str) (o : ActionOptions) (c : ActionCalls)
    : Tx ActionFacade :=
  _ ← require (negb (result_timeout o <? 0)) (MkError InvalidArgument "result_timeout must not be negative");
  logical_name ← lift (resolved n action_name);
  names ← lift (action_names logical_name);
  _ ← require (a_operation c) shut_down;
  create_parts logical_name names type o c (create_server 1024) (server_resources (n_id n)) create_publisher
    (finish_server c).

(** The state a new action server starts with. *)
Definition action_server_state (o : ActionOptions) : ActionServers.ActionServer :=
  ActionServers.new_action_server 1024 (result_timeout o).

(** [action_endpoint_types] *)
Definition action_endpoint_types (type : ActionType) : ActionEndpointTypes :=
  MkActionTypes (request_type (send_goal_type type)) (response_type (send_goal_type type))
    (request_type (cancel_goal_type type)) (response_type (cancel_goal_type type))
    (request_type (get_result_type type)) (response_type (get_result_type type))
    (action_feedback_type type) (action_status_type type).
End Factories.

(** ** What a failed factory leaves *)

Section Undo.
Variables (node : Z) (deleted : GUID_t -> bool).

Definition local_guids (e : Entities) : list GUID_t := l_guid <$> local_endpoints (graph e).

(** The graph can take [k] more changes, and holds the Node; subscription ids
    go up. *)
Record ready (k : Z) (e : Entities) : Prop := {
  rd_health : health (graph e) = Healthy;
  rd_revision : 0 <= revision (graph e) /\ revision (graph e) + k <= UINT64_MAX;
  rd_node : exists r, find_if (id_is node) (local_nodes (graph e)) = Some r /\ 1 <= references r;
  rd_id : node <> 0;
  rd_subscriptions : Forall (fun i => i <= next_subscription (graph e)) (subscriptions (graph e)) }.

(** [g'] is [g] again, but for the counters of revisions and of subscriptions;
    or a subscription was refused, and the graph is unavailable for good: it
    takes no change any more, only subscriptions are still given back. *)
Definition graph_undone (g g' : DiscoveryGraph) : Prop :=
  (exists r i, g' = with_subscriptions i (subscriptions g) (with_revision r g)) \/
  (health g' = Unavailable /\ next_subscription g' = UINT64_MAX /\ subscriptions g' = subscriptions g).

(** [e'] is [e] again, but for what [graph_undone] allows and for the native
    endpoints Fast DDS would not delete. *)
Definition undone (e e' : Entities) : Prop :=
  held e' = held e /\ callbacks e' = callbacks e /\ graph_undone (graph e) (graph e') /\
  exists left, natives e' = left ++ natives e /\ Forall (fun x => deleted (native_guid x) = false) left.

Definition is_local (r : Resource) : bool := match r with R_local _ _ _ _ _ _ => true | _ => false end.
(** Resources that can always be taken. *)
Definition is_plain (r : Resource) : bool := match r with R_topic _ _ | R_native _ => true | _ => false end.

Definition locals (rs : list Resource) : Z := Z.of_nat (length (filter (fun r => is_local r = true) rs)).

(** [r] can be taken, and its change of the graph undone. *)
Definition takeable (r : Resource) (e : Entities) : Prop :=
  match r with
  | R_local q _ _ _ _ node' => node' = node /\ q ∉ local_guids e /\ ready 1 e
  | R_subscription i => subscribe (graph e) = (Some i, with_subscriptions i (subscriptions (graph e) ++ [i]) (graph e)) /\
      i ∉ subscriptions (graph e)
  | R_callback i => i = next_callback e
  | _ => True
  end.

Fixpoint all_takeable (rs : list Resource) (e : Entities) : Prop :=
  match rs with
  | [] => True
  | r :: rs => all_takeable rs e /\ takeable r (take_all rs e)
  end.

Lemma ready_mono k k' e : k' <= k -> ready k e -> ready k' e.
Proof. intros Hk [Hh [Hr1 Hr2] Hn Hi Hs]. split; [done | lia | done | done | done]. Qed.

Lemma graph_undone_refl g : graph_undone g g.
Proof. left. exists (revision g), (next_subscription g). by destruct g. Qed.

Lemma undone_refl e : undone e e.
Proof. split_and!; [done | done | apply graph_undone_refl | by exists []]. Qed.

(** Registering a new endpoint of a known Node. *)
Lemma add_local_graph q k t ty qs g :
  health g = Healthy -> revision g + 1 <= UINT64_MAX -> node <> 0 ->
  is_Some (find_if (id_is node) (local_nodes g)) -> q ∉ l_guid <$> local_endpoints g ->
  (add_local_endpoint q k t ty node qs g).1 =
  with_revision (revision g + 1) (with_local (next_local_node_id g)
    (update_first (id_is node) (set_references (fun r => r + 1)) (local_nodes g))
    (local_endpoints g ++ [MkLocalEndpoint q k t ty qs node]) g).
Proof.
  intros Hh Hr Hn [r Hf] Hq. unfold add_local_endpoint, mutate, local_endpoint_change.
  rewrite (proj2 (Z.eqb_neq node 0)), decide_True, Hf by done.
  assert (find_if (l_guid_is q) (local_endpoints g) = None) as ->.
  { apply find_if_None. intros x Hx. unfold l_guid_is. apply bool_decide_eq_false. intros <-.
    apply Hq, list_elem_of_fmap_2, Hx. }
  simpl. rewrite (proj2 (Z.eqb_neq (revision g) UINT64_MAX)) by lia. done.
Qed.

Lemma find_update_id f ns : find_if (id_is node) (update_first (id_is node) (set_references f) ns) =
  set_references f <$> find_if (id_is node) ns.
Proof.
  induction ns as [|x ns IH]; simpl; [done|]. destruct (id_is node x) eqn:Hx; simpl; [|by rewrite Hx].
  unfold id_is in *. simpl. by rewrite Hx.
Qed.

Lemma update_first_twice f f' ns r :
  find_if (id_is node) ns = Some r -> f' (f (references r)) = references r ->
  update_first (id_is node) (set_references (fun _ => f' (f (references r))))
    (update_first (id_is node) (set_references f) ns) = ns.
Proof.
  intros Hf Hr. rewrite Hr. clear Hr. induction ns as [|x ns IH]; simpl in *; [done|].
  destruct (id_is node x) eqn:Hx; simpl.
  - injection Hf as ->. unfold id_is in *. simpl. rewrite Hx. by destruct r.
  - rewrite Hx. by rewrite IH.
Qed.

(** Unregistering it leaves the graph as it was, but for the revision. *)
Lemma remove_local_graph q k t ty qs g r :
  health g = Healthy -> revision g + 1 <= UINT64_MAX -> 0 <= r -> r + 1 <= UINT64_MAX -> node <> 0 ->
  (exists x, find_if (id_is node) (local_nodes g) = Some x /\ 1 <= references x) ->
  q ∉ l_guid <$> local_endpoints g ->
  (remove_local_endpoint q (with_revision r (add_local_endpoint q k t ty node qs g).1)).1 = with_revision (r + 1) g.
Proof.
  intros Hh Hr Hr0 Hr' Hn (x & Hf & Hx) Hq. rewrite add_local_graph by (try done; by eexists).
  unfold remove_local_endpoint, mutate, remove_endpoint_change. simpl. rewrite decide_True by done.
  assert (forall y, y ∈ local_endpoints g -> l_guid_is q y = false) as Hno.
  { intros y Hy. unfold l_guid_is. apply bool_decide_eq_false. intros <-. apply Hq, list_elem_of_fmap_2, Hy. }
  assert (find_if (l_guid_is q) (local_endpoints g ++ [MkLocalEndpoint q k t ty qs node]) =
    Some (MkLocalEndpoint q k t ty qs node) /\
    erase_first (l_guid_is q) (local_endpoints g ++ [MkLocalEndpoint q k t ty qs node]) = local_endpoints g)
    as [-> He].
  { clear -Hno. induction (local_endpoints g) as [|y l IH]; simpl.
    - unfold l_guid_is; simpl. by rewrite bool_decide_eq_true_2.
    - rewrite (Hno y) by left. destruct IH as [H1 H2]; [intros; apply Hno; by right|].
      split; [done|]. by rewrite H2. }
  unfold drop_reference; simpl. rewrite find_update_id, Hf. simpl.
  assert ((0 <? references x + 1) = true) as -> by (apply Z.ltb_lt; lia).
  assert ((references x + 1 - 1 =? 0) = false) as -> by (apply Z.eqb_neq; lia). simpl.
  rewrite (update_first_twice (fun r => r + 1) (fun r => r - 1)) by (done || lia).
  rewrite (proj2 (Z.eqb_neq r UINT64_MAX)) by lia. rewrite He. by destruct g.
Qed.

(** The graph's records and its subscriptions have nothing to do with each
    other. *)
Lemma remove_local_subscriptions q i l g :
  (remove_local_endpoint q (with_subscriptions i l g)).1 = with_subscriptions i l (remove_local_endpoint q g).1.
Proof.
  unfold remove_local_endpoint, mutate, remove_endpoint_change. simpl. case_decide; [|done].
  repeat (case_match; simplify_eq/=; try done).
Qed.

Lemma unsubscribe_remove i q g : unsubscribe i (remove_local_endpoint q g).1 = (remove_local_endpoint q (unsubscribe i g)).1.
Proof.
  unfold unsubscribe. rewrite remove_local_subscriptions.
  pose proof (remove_local_subscriptions q (next_subscription g) (subscriptions g) g) as Hg.
  replace (with_subscriptions (next_subscription g) (subscriptions g) g) with g in Hg by by destruct g.
  by rewrite Hg.
Qed.

Lemma remove_local_unavailable q g : health g = Unavailable -> remove_local_endpoint q g = (g, []).
Proof. intros Hh. unfold remove_local_endpoint, mutate. by rewrite decide_False by congruence. Qed.

Definition same_kind (r r' : Resource) : bool :=
  match r, r' with
  | R_topic _ _, R_topic _ _ | R_native _, R_native _ | R_local _ _ _ _ _ _, R_local _ _ _ _ _ _
  | R_subscription _, R_subscription _ | R_callback _, R_callback _ => true
  | _, _ => false
  end.

(** Resources of different kinds can be given back in any order. *)
Lemma give_back_comm r r' e :
  same_kind r r' = false ->
  give_back deleted r (give_back deleted r' e) = give_back deleted r' (give_back deleted r e).
Proof.
  intros Hk. destruct r, r'; try done; simpl; repeat case_match; try done;
    unfold with_graph; simpl; by rewrite unsubscribe_remove.
Qed.

Lemma erase_last i l : i ∉ l -> erase_first (Z.eqb i) (l ++ [i]) = l.
Proof.
  induction l as [|j l IH]; simpl; intros Hi; [by rewrite Z.eqb_refl|].
  apply not_elem_of_cons in Hi as [Hne Hi]. rewrite (proj2 (Z.eqb_neq i j)) by done. by rewrite IH.
Qed.

Lemma take_ready r k e : takeable r e -> ready (locals [r] + k) e -> ready k (take_resource r e).
Proof.
  intros Ht [Hh Hr (x & Hf & Hx) Hi Hs]. destruct r as [t ty|x'|q kd t ty qs nd|i|i]; simpl in *; try (split; simpl; by eauto || lia).
  - unfold locals in Hr. simpl in Hr.
    destruct Ht as (-> & Hq & [_ [_ H1] _ _ _]).
    split; simpl; try done; rewrite add_local_graph by (try done; by eexists); simpl; [done | lia | |done].
    rewrite find_update_id, Hf. eexists; split; [done|]. simpl. lia.
  - destruct Ht as [Ht Hi']. change (locals [R_subscription i]) with 0 in Hr. rewrite Ht. split; simpl; try done; [by eexists |].
    unfold subscribe in Ht. destruct (_ =? _); [done|]. injection Ht as <- _.
    apply Forall_app. split; [|by repeat constructor; lia]. eapply Forall_impl; [exact Hs|]. simpl. lia.
Qed.

Lemma take_guids r e : takeable r e ->
  local_guids (take_resource r e) = local_guids e ++ match r with R_local q _ _ _ _ _ => [q] | _ => [] end.
Proof.
  intros Ht. destruct r as [| |q kd t ty qs nd|i|i]; simpl in *; try by rewrite app_nil_r.
  - destruct Ht as (-> & Hq & [Hh [_ Hr] (x & Hf & _) Hi _]). unfold local_guids. simpl.
    rewrite add_local_graph by (try done; by eexists). simpl. by rewrite fmap_app.
  - destruct Ht as [Ht _]. unfold local_guids. simpl. rewrite Ht. simpl. by rewrite app_nil_r.
Qed.

(** Removing the endpoint that was added last. *)
Lemma undo_local q k t ty qs e g' :
  takeable (R_local q k t ty qs node) e -> 0 <= revision g' -> revision g' + 1 <= UINT64_MAX ->
  graph_undone (add_local_endpoint q k t ty node qs (graph e)).1 g' ->
  graph_undone (graph e) (remove_local_endpoint q g').1 /\
  revision g' <= revision (remove_local_endpoint q g').1 <= revision g' + 1.
Proof.
  intros (_ & Hq & [Hh [_ Hr1] Hf Hi _]) H0 Hr [(r & i & ->)|(Hu & Hn & Hs)].
  - simpl in H0, Hr. rewrite remove_local_subscriptions, remove_local_graph by (done || lia). split; [|simpl; lia].
    left. exists (r + 1), i. destruct Hf as (x & Hf & _). by rewrite add_local_graph by (try done; by eexists).
  - rewrite remove_local_unavailable by done. split; [|simpl; lia]. right. simpl. split_and!; [done | done | rewrite Hs].
    destruct Hf as (x & Hf & _). by rewrite add_local_graph by (try done; by eexists).
Qed.

(** Ending the subscription that was taken last. *)
Lemma undo_subscription i e g' :
  takeable (R_subscription i) e -> graph_undone (subscribe (graph e)).2 g' -> graph_undone (graph e) (unsubscribe i g').
Proof.
  intros [-> Hi] [(r & j & ->)|(Hu & Hn & Hs)]; simpl in *.
  - left. exists r, j. unfold unsubscribe. simpl. by rewrite erase_last.
  - right. unfold unsubscribe. simpl. rewrite Hs. split_and!; [done..|]. by apply erase_last.
Qed.

(** Giving back what was taken last. *)
Lemma undo_take r e e' :
  takeable r e -> 0 <= revision (graph e') -> revision (graph e') + locals [r] <= UINT64_MAX ->
  undone (take_resource r e) e' ->
  undone e (give_back deleted r e') /\
  revision (graph e') <= revision (graph (give_back deleted r e')) <= revision (graph e') + locals [r].
Proof.
  intros Ht Hr0 Hr (Hh & Hc & Hg & left & Hn & Hl). unfold locals in *. destruct r as [t ty|x|q kd t ty qs nd|i|i]; simpl in *.
  - split; [|lia]. split_and!; [simpl; rewrite Hh; simpl; by rewrite bool_decide_eq_true_2 | done | done | by exists left].
  - destruct (deleted (native_guid x)) eqn:Hd; simpl; (split; [|lia]).
    + split_and!; [done | done | done |]. exists left. split; [|done]. simpl. rewrite Hn.
      clear -Hl Hd. induction left as [|y left IH]; simpl; [by rewrite bool_decide_eq_true_2|].
      apply Forall_cons in Hl as [Hy Hl]. rewrite bool_decide_eq_false_2 by congruence. by rewrite IH.
    + split_and!; [done | done | done |]. exists (left ++ [x]). rewrite Hn, <- app_assoc. split; [done|].
      apply Forall_app. split; [done|]. by constructor.
  - pose proof Ht as (-> & _). destruct (undo_local _ _ _ _ _ _ _ Ht Hr0 Hr Hg) as [Hg' Hb].
    split; [|done]. split_and!; [done | done | done | by exists left].
  - split; [|simpl; lia]. split_and!; [done | done | by apply undo_subscription | by exists left].
  - split; [|lia]. split_and!; [done | simpl; rewrite Hc; simpl; by rewrite Z.eqb_refl | done | by exists left].
Qed.

Lemma locals_cons r rs : locals (r :: rs) = locals [r] + locals rs.
Proof. unfold locals. rewrite !filter_cons, filter_nil. case_decide; simpl; lia. Qed.

Lemma locals_app rs1 rs2 : locals (rs1 ++ rs2) = locals rs1 + locals rs2.
Proof. unfold locals. rewrite filter_app, length_app. lia. Qed.

Lemma locals_nonneg rs : 0 <= locals rs.
Proof. unfold locals. lia. Qed.

Lemma undo_all rs e e' :
  all_takeable rs e -> 0 <= revision (graph e') -> revision (graph e') + locals rs <= UINT64_MAX ->
  undone (take_all rs e) e' ->
  undone e (give_back_all deleted rs e') /\
  revision (graph e') <= revision (graph (give_back_all deleted rs e')) <= revision (graph e') + locals rs.
Proof.
  revert e'. induction rs as [|r rs IH]; intros e' Ht H0 Hr Hu; simpl in *.
  - split; [done|]. unfold locals. simpl. lia.
  - destruct Ht as [Ht Hr1]. rewrite locals_cons in Hr. pose proof (locals_nonneg rs). pose proof (locals_nonneg [r]).
    destruct (undo_take r _ e' Hr1 H0 ltac:(lia) Hu) as [Hu1 Hb].
    destruct (IH (give_back deleted r e') Ht ltac:(lia) ltac:(lia) Hu1) as [Hu2 Hb2]. split; [done|]. rewrite locals_cons. lia.
Qed.

(** ** Reasoning about transactions *)

(** [out], from [e], either returns [a] having taken resources [rs] with
    [Q a rs], or leaves everything undone; the graph can take [k] changes
    more, and the GUIDs it has got are of [P]. *)
Definition tx_post {A} (k : Z) (P : GUID_t -> Prop) (e : Entities) (Q : A -> list Resource -> Prop)
    (out : Result A * Entities) : Prop :=
  match out with
  | (success a, e') =>
      exists rs, Q a rs /\ e' = take_all rs e /\ all_takeable rs e /\ ready k e' /\
        forall q, q ∈ local_guids e' -> q ∈ local_guids e \/ P q
  | (failure _, e') => undone e e' /\ 0 <= revision (graph e') /\ revision (graph e') + k <= UINT64_MAX
  end.

(** [m] changes the graph at most [c] times, and registers GUIDs of [P] only. *)
Definition tx_spec {A} (c : Z) (P : GUID_t -> Prop) (m : Tx A) (Q : A -> list Resource -> Prop) : Prop :=
  forall k e, 0 <= k -> ready (c + k) e -> (forall q, P q -> q ∉ local_guids e) -> tx_post k P e Q (m e).

Lemma spec_ret {A} (a : A) P : tx_spec 0 P (mret a) (fun b rs => b = a /\ rs = []).
Proof. intros k e Hk He HP. exists []. by split_and!; auto. Qed.

Lemma spec_weaken {A} c c' (P P' : GUID_t -> Prop) (m : Tx A) (Q Q' : A -> list Resource -> Prop) :
  c <= c' -> (forall q, P q -> P' q) -> (forall a rs, Q a rs -> Q' a rs) ->
  tx_spec c P m Q -> tx_spec c' P' m Q'.
Proof.
  intros Hc HP HQ Hm k e Hk He Hf. specialize (Hm (c' - c + k) e ltac:(lia)).
  replace (c + (c' - c + k)) with (c' + k) in Hm by lia. specialize (Hm He ltac:(auto)). unfold tx_post in *.
  destruct (m e) as [[a|] e'].
  - destruct Hm as (rs & Hq & -> & Ht & Hr & Hg). exists rs. split_and!; auto.
    + apply (ready_mono (c' - c + k)); [lia | done].
    + intros q Hin. destruct (Hg q Hin); auto.
  - destruct Hm as (Hu & H0 & Hr). split_and!; [done | done | lia].
Qed.

Lemma spec_lift {A B} c P (r : Result A) (f : A -> Tx B) Q :
  0 <= c -> (forall a, r = success a -> tx_spec c P (f a) Q) -> tx_spec c P (lift r ≫= f) Q.
Proof.
  intros Hc Hf k e Hk He HP. unfold mbind, Tx_bind, lift. destruct r as [a|err]; [by apply Hf|].
  destruct He as [_ [H0 H1] _ _ _]. split_and!; [apply undone_refl | done | lia].
Qed.

Lemma spec_require {B} c P b err (f : unit -> Tx B) Q :
  0 <= c -> tx_spec c P (f tt) Q -> tx_spec c P (require b err ≫= f) Q.
Proof. intros Hc Hf. apply spec_lift; [done|]. by intros [] _. Qed.

Lemma take_all_app rs1 rs2 e : take_all (rs1 ++ rs2) e = take_all rs1 (take_all rs2 e).
Proof. apply foldr_app. Qed.

Lemma all_takeable_app rs1 rs2 e :
  all_takeable rs2 e -> all_takeable rs1 (take_all rs2 e) -> all_takeable (rs1 ++ rs2) e.
Proof.
  intros H2. induction rs1 as [|r rs1 IH]; simpl; [done|]. rewrite take_all_app. intros [? ?]. split; auto.
Qed.

(** Resources held around the rest of the transaction. *)
Lemma spec_held {A} rs c L P P' (body : Tx A) Q k e :
  0 <= k -> 0 <= L -> locals rs <= L ->
  all_takeable rs e -> ready (L + c + k) (take_all rs e) ->
  (forall q, P' q -> q ∉ local_guids (take_all rs e)) ->
  (forall q, q ∈ local_guids (take_all rs e) -> q ∈ local_guids e \/ P q) -> (forall q, P' q -> P q) ->
  tx_spec c P' body Q ->
  tx_post k P e (fun a rs' => exists rs2, rs' = rs2 ++ rs /\ Q a rs2) (protect deleted rs body (take_all rs e)).
Proof.
  intros Hk HL Hlo Ht He Hf Hg HPP Hbody. unfold protect, tx_post in *.
  specialize (Hbody (L + k) (take_all rs e) ltac:(lia)).
  replace (c + (L + k)) with (L + c + k) in Hbody by lia. specialize (Hbody He Hf). unfold tx_post in Hbody.
  destruct (body (take_all rs e)) as [[a|err] e'].
  - destruct Hbody as (rs2 & Hq & -> & Ht2 & Hr2 & Hg2). exists (rs2 ++ rs). split_and!.
    + by exists rs2.
    + by rewrite take_all_app.
    + by apply all_takeable_app.
    + apply (ready_mono (L + k)); [lia | done].
    + intros q Hin. destruct (Hg2 q Hin) as [?|?]; [by apply Hg | right; by apply HPP].
  - destruct Hbody as (Hu & H0 & Hr). destruct (undo_all rs e e' Ht H0 ltac:(lia) Hu) as [Hu' Hb].
    split_and!; [done | lia | lia].
Qed.

Lemma spec_protect {A B} c1 c2 L P1 P2 (m : Tx A) (res : A -> list Resource) (body : A -> Tx B) Q :
  0 <= c2 -> 0 <= L -> (forall a, locals (res a) <= L) -> (forall q, P1 q -> P2 q -> False) ->
  tx_spec c1 P1 m (fun a rs => rs = res a) -> (forall a, tx_spec c2 P2 (body a) (Q a)) ->
  tx_spec (c1 + (L + c2)) (fun q => P1 q \/ P2 q) (a ← m; protect deleted (res a) (body a))
    (fun b rs => exists a rs2, rs = rs2 ++ res a /\ Q a b rs2).
Proof.
  intros Hc2 HL Hlo Hdis Hm Hb k e Hk He HP. unfold mbind, Tx_bind.
  specialize (Hm (L + c2 + k) e ltac:(lia)). replace (c1 + (L + c2 + k)) with (c1 + (L + c2) + k) in Hm by lia.
  specialize (Hm He ltac:(auto)). unfold tx_post in Hm. destruct (m e) as [[a|err] e'].
  - destruct Hm as (rs & -> & -> & Ht & Hr & Hg).
    pose proof (spec_held (res a) c2 L (fun q => P1 q \/ P2 q) P2 (body a) (Q a) k e Hk HL (Hlo a) Ht Hr) as Hheld.
    specialize (Hheld ltac:(intros q H2 Hin; destruct (Hg q Hin) as [Hin'|?];
      [by apply (HP q); [right|] | by apply (Hdis q)])).
    specialize (Hheld ltac:(intros q Hin; destruct (Hg q Hin); auto) ltac:(by intros q ?; right) (Hb a)).
    unfold tx_post in *. destruct (protect _ _ _ _) as [[b|] e']; [|done].
    destruct Hheld as (rs' & (rs2 & -> & Hq) & ?). exists (rs2 ++ res a). split; [by exists a, rs2 | done].
  - destruct Hm as (Hu & H0 & Hr). split_and!; [done | done | lia].
Qed.

(** One resource that can be taken in [e]: [P'] are the GUIDs left for the body. *)
Lemma spec_at {A} c P P' r (body : Tx A) (Q : A -> list Resource -> Prop) k e :
  0 <= c -> 0 <= k -> takeable r e -> ready (2 * locals [r] + c + k) e -> (forall q, P q -> q ∉ local_guids e) ->
  (forall q, P' q -> P q /\ match r with R_local q' _ _ _ _ _ => q <> q' | _ => True end) ->
  match r with R_local q _ _ _ _ _ => P q | _ => True end ->
  tx_spec c P' body (fun a rs => Q a (rs ++ [r])) ->
  tx_post k P e Q (scoped deleted r body e).
Proof.
  intros Hc Hk Ht He HP HP' Hr Hbody. unfold scoped. change (take_resource r e) with (take_all [r] e).
  pose proof (locals_nonneg [r]) as H0. pose proof (take_guids r e Ht) as Hg.
  assert (forall q, q ∈ match r with R_local q' _ _ _ _ _ => [q'] | _ => [] end -> P q) as Hnew.
  { intros q Hin. destruct r; try by apply not_elem_of_nil in Hin. by apply list_elem_of_singleton in Hin as ->. }
  assert (tx_post k P e (fun a rs' => exists rs2, rs' = rs2 ++ [r] /\ Q a (rs2 ++ [r])) (protect deleted [r] body (take_all [r] e)))
    as Hpost.
  { apply (spec_held [r] c (locals [r]) P P'); try done; simpl.
    - apply take_ready; [done|]. apply (ready_mono (2 * locals [r] + c + k)); [lia | done].
    - intros q Hq. rewrite Hg. apply HP' in Hq as [Hq Hne]. intros [Hin|Hin]%elem_of_app; [by apply (HP q)|].
      destruct r; try by apply not_elem_of_nil in Hin. by apply list_elem_of_singleton in Hin.
    - intros q. rewrite Hg. intros [Hin|Hin]%elem_of_app; [by left | right; by apply Hnew].
    - intros q Hq. by apply HP'. }
  unfold tx_post in *. destruct (protect _ _ _ _) as [[a|] e']; [|done].
  destruct Hpost as (rs & (rs2 & -> & HQ) & Hpost). by exists (rs2 ++ [r]).
Qed.

(** The same rules, against the resources expected in the end. *)
Lemma spec_done {A} c P (a : A) (Q : A -> list Resource -> Prop) : 0 <= c -> Q a [] -> tx_spec c P (mret a) Q.
Proof.
  intros Hc HQ. eapply spec_weaken; [exact Hc | done | | apply spec_ret]. by intros b rs [-> ->].
Qed.

Lemma spec_free {A} c P r (body : Tx A) (Q : A -> list Resource -> Prop) :
  is_plain r = true -> 0 <= c -> tx_spec c P body (fun a rs => Q a (rs ++ [r])) -> tx_spec c P (scoped deleted r body) Q.
Proof.
  intros Hr Hc Hb k e Hk He HP.
  apply (spec_at c P P); try done; by destruct r.
Qed.

Lemma spec_local {A} c P q k t ty qs (body : Tx A) (Q : A -> list Resource -> Prop) :
  2 <= c -> P q ->
  tx_spec (c - 2) (fun q' => P q' /\ q' <> q) body (fun a rs => Q a (rs ++ [R_local q k t ty qs node])) ->
  tx_spec c P (scoped deleted (R_local q k t ty qs node) body) Q.
Proof.
  intros Hc HP Hb k' e Hk He Hf. assert (locals [R_local q k t ty qs node] = 1) as Hl by done.
  apply (spec_at (c - 2) P (fun q' => P q' /\ q' <> q)); try done; [lia | | rewrite Hl; by replace (2 * 1 + (c - 2) + k') with (c + k') by lia].
  split_and!; [done | by apply Hf | apply (ready_mono (c + k')); [lia | done]].
Qed.

(** A body that fails without having taken anything. *)
Definition gives_up {A} (m : Tx A) : Prop :=
  forall e, exists err next, m e = (failure err, with_callbacks next (callbacks e) e).

Lemma spec_subscribing {A} c P (body : Z -> Tx A) (Q : A -> list Resource -> Prop) :
  0 <= c -> gives_up (body 0) ->
  (forall i, tx_spec c P (body i) (fun a rs => Q a (rs ++ [R_subscription i]))) ->
  tx_spec c P (subscribing deleted body) Q.
Proof.
  intros Hc H0 Hb k e Hk He HP. unfold subscribing. destruct (subscribe (graph e)) as [[i|] g] eqn:Hs.
  - assert (takeable (R_subscription i) e) as Ht.
    { unfold subscribe in Hs. destruct (_ =? _) eqn:Hm; [done|]. injection Hs as <- _. split.
      - unfold subscribe. by rewrite Hm.
      - intros Hin. destruct He as [_ _ _ _ Hl]. rewrite Forall_forall in Hl. specialize (Hl _ Hin). simpl in Hl. lia. }
    by apply (spec_at c P P).
  - destruct (H0 (with_graph g e)) as (err & next & ->). unfold subscribe in Hs.
    destruct (Z.eqb_spec (next_subscription (graph e)) UINT64_MAX) as [Hm|]; [|done]. injection Hs as <-.
    destruct He as [_ [Hr0 Hr1] _ _ _]. split_and!; [split_and!; try done | done | simpl; lia]; [by right | by exists []].
Qed.

Lemma spec_registering {A} c P closing (body : Z -> Tx A) (Q : A -> list Resource -> Prop) :
  0 <= c -> tx_spec c P (body 0) Q ->
  (forall i, tx_spec c P (body i) (fun a rs => Q a (rs ++ [R_callback i]))) ->
  tx_spec c P (registering deleted closing body) Q.
Proof.
  intros Hc H0 Hb k e Hk He HP. unfold registering. destruct (_ || _); [by apply H0|]. by apply (spec_at c P P).
Qed.

Lemma spec_part {A B} c1 c L P1 P2 (m : Tx A) (res : A -> list Resource) (body : A -> Tx B) (Q : B -> list Resource -> Prop) :
  c1 + L <= c -> 0 <= L -> (forall a, locals (res a) <= L) -> (forall q, P1 q -> P2 q -> False) ->
  tx_spec c1 P1 m (fun a rs => rs = res a) ->
  (forall a, tx_spec (c - c1 - L) P2 (body a) (fun b rs => Q b (rs ++ res a))) ->
  tx_spec c (fun q => P1 q \/ P2 q) (a ← m; protect deleted (res a) (body a)) Q.
Proof.
  intros Hc HL Hlo Hdis Hm Hb.
  eapply spec_weaken; [| | |apply (spec_protect c1 (c - c1 - L) L P1 P2 m res body (fun a b rs => Q b (rs ++ res a)) ltac:(lia) HL Hlo Hdis Hm Hb)]; simpl.
  - lia.
  - done.
  - by intros b rs (a & rs2 & -> & HQ).
Qed.
End Undo.

(** ** The factories are transactions *)

Section Transactions.
Context {durations : FastDuration} (s : Setting) (n : Node) (deleted : GUID_t -> bool).

(** The GUIDs Fast DDS gives out during the calls. *)
Definition issued (c : Calls) (q : GUID_t) : Prop := exists k t, create_native c k t = Some q.

(** Those of a reader and of a writer differ. *)
Definition kinds_differ (c : Calls) : Prop :=
  forall t t' q, create_native c Reader t = Some q -> create_native c Writer t' = Some q -> False.

Lemma native_of_success c k t message guid : native_of c k t message = success guid -> create_native c k t = Some guid.
Proof. unfold native_of. destruct (create_native c k t); [by intros [= <-] | done]. Qed.

(** One step of a factory's specification. *)
Ltac spec_step :=
  first
    [ apply spec_require; [lia|]
    | apply spec_lift; [lia|]; let a := fresh "a" in let H := fresh "H" in
        intros a H; try apply native_of_success in H
    | apply spec_free; [reflexivity | lia |]
    | apply spec_done; [lia|] ].

Lemma topic_facade_spec k message type name qos c :
  tx_spec (n_id n) deleted 2 (issued c) (create_topic_facade s n deleted k message type name qos c)
    (fun f rs => rs = topic_resources (n_id n) f).
Proof.
  unfold create_topic_facade. repeat spec_step.
  apply spec_local; [lia | by eexists _, _ |]. by repeat spec_step.
Qed.

(** The subscription and the callback of a facade that needs both. *)
Lemma spec_waiting {A} c P clos err (body : Z -> Z -> Tx A) (Q : A -> list Resource -> Prop) :
  0 <= c ->
  (forall i j, tx_spec (n_id n) deleted c P (body i j) (fun a rs => Q a (rs ++ [R_callback j; R_subscription i]))) ->
  tx_spec (n_id n) deleted c P
    (subscribing deleted (fun i => registering deleted clos (fun j =>
       _ ← require (negb (i =? 0) && negb (j =? 0)) err; body i j))) Q.
Proof.
  intros Hc Hb. apply spec_subscribing; [done | |].
  - intros e. unfold registering, scoped, protect. destruct (_ || _); [by exists err, (next_callback e); destruct e|].
    exists err, (wrap_u64 (next_callback e + 1)). cbn [mbind Tx_bind require lift negb andb Z.eqb fail give_back_all foldl give_back take_resource].
    unfold with_callbacks. simpl. by rewrite Z.eqb_refl.
  - intros i. apply spec_registering; [done | |].
    + apply spec_lift; [done|]. intros a. by rewrite andb_false_r.
    + intros j. apply spec_require; [done|]. eapply spec_weaken; [reflexivity | exact (fun _ H => H) | | apply Hb].
      intros a rs HQ. by rewrite <- app_assoc.
Qed.

Lemma client_spec type name qos c :
  kinds_differ c ->
  tx_spec (n_id n) deleted 4 (issued c) (create_client s n deleted type name qos c)
    (fun f rs => rs = client_resources (n_id n) f).
Proof.
  intros Hd. unfold create_client. repeat spec_step.
  apply spec_local; [lia | by eexists _, _ |].
  apply spec_local; [lia | split; [by eexists _, _ | simpl; intros ->; by eapply Hd] |].
  apply spec_waiting; [lia|]. intros i j. by repeat spec_step.
Qed.

Lemma server_spec max type name qos c :
  kinds_differ c ->
  tx_spec (n_id n) deleted 4 (issued c) (create_server s n deleted max type name qos c)
    (fun f rs => rs = server_resources (n_id n) f).
Proof.
  intros Hd. unfold create_server. repeat spec_step.
  apply spec_subscribing; [lia | intros e; eexists _, (next_callback e); by destruct e |]. intros i. repeat spec_step.
  apply spec_local; [lia | by eexists _, _ |].
  apply spec_local; [lia | split; [by eexists _, _ | simpl; intros ->; by eapply Hd] |]. by repeat spec_step.
Qed.

(** No GUID is given out twice. *)
Definition parts (c : ActionCalls) : list Calls :=
  [goal_calls c; cancel_calls c; result_calls c; feedback_calls c; status_calls c].

Definition guids_fresh (c : ActionCalls) (e : Entities) : Prop :=
  Forall kinds_differ (parts c) /\
  (forall i j ci cj q, parts c !! i = Some ci -> parts c !! j = Some cj -> issued ci q -> issued cj q -> i = j) /\
  forall ci q, ci ∈ parts c -> issued ci q -> q ∉ local_guids e.

Lemma topic_locals f : locals (topic_resources (n_id n) f) = 1.
Proof. done. Qed.

Definition parts_issued (c : ActionCalls) (q : GUID_t) : Prop :=
  issued (goal_calls c) q \/ issued (cancel_calls c) q \/ issued (result_calls c) q \/
  issued (feedback_calls c) q \/ issued (status_calls c) q \/ False.

(** [extra] is what [finish] takes for the facade. *)
Lemma parts_spec logical names type o c service res topic finish (extra : ActionFacade -> list Resource) :
  (forall i j ci cj q, parts c !! i = Some ci -> parts c !! j = Some cj -> issued ci q -> issued cj q -> i = j) ->
  (forall f, locals (res f) = 2) ->
  (forall ty nm q cc, cc ∈ parts c -> tx_spec (n_id n) deleted 4 (issued cc) (service ty nm q cc) (fun f rs => rs = res f)) ->
  (forall ty nm q cc,
     tx_spec (n_id n) deleted 2 (issued cc) (topic ty nm q cc) (fun f rs => rs = topic_resources (n_id n) f)) ->
  (forall build : Z -> Z -> ActionFacade,
     (forall i j, a_subscription (build i j) = i /\ a_callback (build i j) = j) ->
     tx_spec (n_id n) deleted 0 (fun _ => False) (finish (fun i j => mret (build i j)))
       (fun f rs => exists i j, f = build i j /\ rs = extra f)) ->
  tx_spec (n_id n) deleted 24 (parts_issued c) (create_parts n deleted logical names type o c service res topic finish)
    (fun f rs => rs = extra f ++ part_resources n res f).
Proof.
  intros Hdis Hres Hs Ht Hfin. unfold create_parts, parts_issued.
  assert (forall i j ci cj, parts c !! i = Some ci -> parts c !! j = Some cj -> i <> j ->
    forall q, issued ci q -> issued cj q -> False) as Hij by (intros i j ci cj H1 H2 H3 q H4 H5; apply H3; eauto).
  apply (spec_part (n_id n) deleted 4 24 2); [lia | lia | intros f; by rewrite Hres | | apply Hs; set_solver |].
  { intros q H1 [H2|[H2|[H2|[H2|[]]]]]; revert q H1 H2;
      [apply (Hij 0 1)%nat | apply (Hij 0 2)%nat | apply (Hij 0 3)%nat | apply (Hij 0 4)%nat]; done. }
  intros goal. apply (spec_part (n_id n) deleted 4 _ 2); [lia | lia | intros f; by rewrite Hres | | apply Hs; set_solver |].
  { intros q H1 [H2|[H2|[H2|[]]]]; revert q H1 H2; [apply (Hij 1 2)%nat | apply (Hij 1 3)%nat | apply (Hij 1 4)%nat]; done. }
  intros cancel. apply (spec_part (n_id n) deleted 4 _ 2); [lia | lia | intros f; by rewrite Hres | | apply Hs; set_solver |].
  { intros q H1 [H2|[H2|[]]]; revert q H1 H2; [apply (Hij 2 3)%nat | apply (Hij 2 4)%nat]; done. }
  intros result. apply (spec_part (n_id n) deleted 2 _ 1); [lia | lia | intros f; by rewrite topic_locals | | apply Ht |].
  { intros q H1 [H2|[]]; revert q H1 H2; apply (Hij 3 4)%nat; done. }
  intros feedback. apply (spec_part (n_id n) deleted 2 _ 1); [lia | lia | intros f; by rewrite topic_locals | done | apply Ht |].
  intros status. eapply spec_weaken; [| | |apply Hfin; by intros i j]; [lia | done |].
  intros f rs (i & j & -> & ->). unfold part_resources. simpl. by rewrite <- !app_assoc.
Qed.

(** ** Any factory *)

(** A call of one of the six factories; what it creates is listed as the
    resources it takes. *)
Inductive Factory :=
  | F_publisher (type name : str) (qos : Qos) (c : Calls)
  | F_subscriber (type name : str) (qos : Qos) (c : Calls)
  | F_client (type : ServiceType) (name : str) (qos : Qos) (c : Calls)
  | F_server (max : Z) (type : ServiceType) (name : str) (qos : Qos) (c : Calls)
  | F_action_client (type : ActionType) (name : str) (o : ActionOptions) (c : ActionCalls)
  | F_action_server (type : ActionType) (name : str) (o : ActionOptions) (c : ActionCalls).

Definition run_factory (f : Factory) : Tx (list Resource) :=
  match f with
  | F_publisher type name qos c =>
      p ← create_publisher s n deleted type name qos c; mret (topic_resources (n_id n) p)
  | F_subscriber type name qos c =>
      p ← create_subscriber s n deleted type name qos c; mret (topic_resources (n_id n) p)
  | F_client type name qos c =>
      p ← create_client s n deleted type name qos c; mret (client_resources (n_id n) p)
  | F_server max type name qos c =>
      p ← create_server s n deleted max type name qos c; mret (server_resources (n_id n) p)
  | F_action_client type name o c =>
      p ← create_action_client s n deleted type name o c; mret (action_client_resources n p)
  | F_action_server type name o c =>
      p ← create_action_server s n deleted type name o c; mret (action_server_resources n p)
  end.

(** Fast DDS gives new GUIDs. *)
Definition factory_fresh (f : Factory) (e : Entities) : Prop :=
  match f with
  | F_publisher _ _ _ c | F_subscriber _ _ _ c | F_client _ _ _ c | F_server _ _ _ _ c =>
      kinds_differ c /\ forall q, issued c q -> q ∉ local_guids e
  | F_action_client _ _ _ c | F_action_server _ _ _ c => guids_fresh c e
  end.

Lemma action_client_spec type name o c e :
  guids_fresh c e ->
  tx_spec (n_id n) deleted 24 (parts_issued c) (create_action_client s n deleted type name o c)
    (fun f rs => rs = action_client_resources n f).
Proof.
  intros (Hk & Hd & _). unfold create_action_client. repeat spec_step.
  apply (parts_spec _ _ _ _ _ _ _ _ _ (fun f => [R_callback (a_callback f); R_subscription (a_subscription f)])); [done..| | |].
  - intros ty nm q cc Hcc. apply client_spec. by eapply Forall_forall.
  - intros. apply topic_facade_spec.
  - intros build Hb. unfold finish_client. apply spec_waiting; [lia|]. intros i j. repeat spec_step.
    exists i, j. by destruct (Hb i j) as [-> ->].
Qed.

Lemma action_server_spec type name o c e :
  guids_fresh c e ->
  tx_spec (n_id n) deleted 24 (parts_issued c) (create_action_server s n deleted type name o c)
    (fun f rs => rs = action_server_resources n f).
Proof.
  intros (Hk & Hd & _). unfold create_action_server. repeat spec_step.
  apply (parts_spec _ _ _ _ _ _ _ _ _ (fun _ => [])); [done..| | |].
  - intros ty nm q cc Hcc. apply server_spec. by eapply Forall_forall.
  - intros. apply topic_facade_spec.
  - intros build Hb. unfold finish_server. repeat spec_step. by exists 0, 0.
Qed.

Lemma parts_issued_fresh c e q : guids_fresh c e -> parts_issued c q -> q ∉ local_guids e.
Proof.
  intros (_ & _ & Hf) [?|[?|[?|[?|[?|[]]]]]]; eapply Hf; try done; unfold parts; set_solver.
Qed.

(** What a factory does, from the specification of its facade. *)
Lemma run_spec {A} (m : Tx A) res c P e :
  tx_spec (n_id n) deleted c P m (fun a rs => rs = res a) -> c <= 24 -> (forall a, locals (res a) <= 8) ->
  ready (n_id n) 32 e -> (forall q, P q -> q ∉ local_guids e) ->
  match (a ← m; mret (res a)) e with
  | (success rs, e') => e' = take_all rs e /\ undone deleted e (give_back_all deleted rs e')
  | (failure _, e') => undone deleted e e'
  end.
Proof.
  intros Hm Hc Hl He HP. unfold mbind, Tx_bind.
  specialize (Hm 8 e ltac:(lia) (ready_mono _ 32 (c + 8) e ltac:(lia) He) HP).
  unfold tx_post in Hm. destruct (m e) as [[a|err] e']; simpl; [|by destruct Hm].
  destruct Hm as (rs & -> & -> & Ht & [_ [H0 H1] _ _ _] & _). split; [done|].
  apply (undo_all (n_id n)); [done | done | specialize (Hl a); lia | apply undone_refl].
Qed.

(** C27: every factory of a Node is a transaction.  Given that Fast DDS gives
    out new GUIDs, that the Node is registered and that the graph's revision
    does not run out, a factory that fails leaves the topics, the graph with
    its subscriptions, the shutdown callbacks and the native endpoints as they
    were, but for the endpoints Fast DDS refuses to delete; if it fails for
    want of a subscription id, the graph is unavailable from then on.  One that
    succeeds has taken exactly the resources of the facade it returns, its
    subscriptions and callbacks among them, and destroying that facade gives
    all of them back. *)
Theorem factories_are_transactions f e :
  ready (n_id n) 32 e -> factory_fresh f e ->
  match run_factory f e with
  | (success rs, e') => e' = take_all rs e /\ undone deleted e (give_back_all deleted rs e')
  | (failure _, e') => undone deleted e e'
  end.
Proof.
  intros He Hf. destruct f; simpl in *; try destruct Hf as [Hk Hf].
  - eapply run_spec; [apply topic_facade_spec | lia | intros; by rewrite topic_locals | done..].
  - eapply run_spec; [apply topic_facade_spec | lia | intros; by rewrite topic_locals | done..].
  - eapply run_spec; [by apply client_spec | lia | done..].
  - eapply run_spec; [by apply server_spec | lia | done..].
  - eapply run_spec; [by eapply action_client_spec | lia | done | done | intros q; by apply parts_issued_fresh].
  - eapply run_spec; [by eapply action_server_spec | lia | done | done | intros q; by apply parts_issued_fresh].
Qed.
End Transactions.

(** ** What a factory that succeeds has made *)

Section Made.
Context {durations : FastDuration} (s : Setting) (n : Node) (deleted : GUID_t -> bool).

Lemma bind_success {A B} (m : Tx A) (f : A -> Tx B) e b e' :
  (m ≫= f) e = (success b, e') -> exists a e1, m e = (success a, e1) /\ f a e1 = (success b, e').
Proof. unfold mbind, Tx_bind. destruct (m e) as [[a|err] e1]; [eauto | done]. Qed.

Lemma lift_success {A} (r : Result A) e a e' : lift r e = (success a, e') -> r = success a /\ e' = e.
Proof. by intros [= <- <-]. Qed.

Lemma protect_success {A} rs (m : Tx A) e a e' : protect deleted rs m e = (success a, e') -> m e = (success a, e').
Proof. unfold protect. by destruct (m e) as [[]]. Qed.

Lemma scoped_success {A} r (m : Tx A) e a e' : scoped deleted r m e = (success a, e') -> m (take_resource r e) = (success a, e').
Proof. unfold scoped. apply protect_success. Qed.

Lemma subscribing_success {A} (body : Z -> Tx A) e a e' :
  subscribing deleted body e = (success a, e') -> exists i e1, body i e1 = (success a, e').
Proof. unfold subscribing. destruct (subscribe _) as [[i|] g]; [intros H%scoped_success | intros H]; by eexists _, _. Qed.

Lemma ret_success {A} (a b : A) e e' : (mret a : Tx A) e = (success b, e') -> b = a /\ e' = e.
Proof. by intros [= <- <-]. Qed.

(** Take the next step of a successful run apart. *)
Ltac success_step H :=
  first
    [ apply bind_success in H as (? & ? & ? & H)
    | apply scoped_success in H
    | apply protect_success in H
    | apply subscribing_success in H as (? & ? & H)
    | apply ret_success in H as [-> ->] ].

Ltac success_steps H :=
  repeat success_step H; unfold require in *;
  repeat match goal with Hl : lift _ _ = (success _, _) |- _ => apply lift_success in Hl as [? ->] end;
  repeat match goal with Hn : native_of _ _ _ _ = success _ |- _ => apply native_of_success in Hn end.

Definition topic_made (k : EndpointKind) (type : str) (c : Calls) (f : TopicFacade) : Prop :=
  exists q, issued c q /\ t_endpoint f = MkEndpoint q k (dds_topic_name (runtime_mode s) (t_name f)) type.

Definition server_made (type : ServiceType) (c : Calls) (f : ServiceFacade) : Prop :=
  exists q q', issued c q /\ issued c q' /\
    s_request f = MkEndpoint q Reader (service_topic_name (runtime_mode s) (s_name f) true) (request_type type) /\
    s_response f = MkEndpoint q' Writer (service_topic_name (runtime_mode s) (s_name f) false) (response_type type).

Lemma topic_facade_made k message type name qos c e f e' :
  create_topic_facade s n deleted k message type name qos c e = (success f, e') ->
  topic_made k type c f /\ resolved n name = success (t_name f).
Proof.
  unfold create_topic_facade. intros H. success_steps H.
  split; [|done]. eexists. split; [by eexists _, _ | done].
Qed.

Lemma create_server_made max type name qos c e f e' :
  create_server s n deleted max type name qos c e = (success f, e') ->
  server_made type c f /\ resolved n name = success (s_name f).
Proof.
  unfold create_server. intros H. success_steps H.
  split; [|done]. do 2 eexists. apply and_assoc. split; [|by split]. by split; eexists _, _.
Qed.

Lemma action_names_success logical names :
  action_names logical = success names -> derive_action_endpoint_names logical = Some names.
Proof. unfold action_names. by destruct (derive_action_endpoint_names _); intros [= ->]. Qed.

Lemma action_server_made type name o c e f e' :
  create_action_server s n deleted type name o c e = (success f, e') ->
  resolved n name = success (a_name f) /\ derive_action_endpoint_names (a_name f) = Some (a_names f) /\
  (server_made (send_goal_type type) (goal_calls c) (goal_part f) /\
     resolved n (send_goal (a_names f)) = success (s_name (goal_part f))) /\
  (server_made (cancel_goal_type type) (cancel_calls c) (cancel_part f) /\
     resolved n (cancel_goal (a_names f)) = success (s_name (cancel_part f))) /\
  (server_made (get_result_type type) (result_calls c) (result_part f) /\
     resolved n (get_result (a_names f)) = success (s_name (result_part f))) /\
  (topic_made Writer (action_feedback_type type) (feedback_calls c) (feedback_part f) /\
     resolved n (feedback (a_names f)) = success (t_name (feedback_part f))) /\
  (topic_made Writer (action_status_type type) (status_calls c) (status_part f) /\
     resolved n (status (a_names f)) = success (t_name (status_part f))).
Proof.
  unfold create_action_server, create_parts, finish_server. intros H. success_steps H.
  repeat match goal with
  | H : create_server _ _ _ _ _ _ _ _ _ = _ |- _ => apply create_server_made in H as [? ?]
  | H : create_publisher _ _ _ _ _ _ _ _ = _ |- _ => apply topic_facade_made in H as [? ?]
  | H : action_names _ = success _ |- _ => apply action_names_success in H
  end.
  by split_and!.
Qed.
End Made.

(** ** A server that was created is available *)

Section Available.
Context {durations : FastDuration} (s : Setting) (n : Node) (deleted : GUID_t -> bool).

Lemma local_of_taken rs e q k t ty qs :
  all_takeable (n_id n) rs e -> R_local q k t ty qs (n_id n) ∈ rs ->
  MkLocalEndpoint q k t ty qs (n_id n) ∈ local_endpoints (graph (take_all rs e)).
Proof.
  induction rs as [|r rs IH]; simpl; intros Ht Hin; [by apply not_elem_of_nil in Hin|]. destruct Ht as [Ht Hr].
  destruct r as [| |q' k' t' ty' qs' nd|i|i]; simpl;
    try (apply elem_of_cons in Hin as [?|Hin]; [done | by apply IH]).
  2: { apply elem_of_cons in Hin as [?|Hin]; [done|]. destruct Hr as [-> _]. by apply IH. }
  destruct Hr as (-> & Hq & [Hh [_ Hv] (x & Hf & _) Hi _]).
  rewrite (add_local_graph (n_id n)) by (try done; by eexists). simpl. apply elem_of_app.
  apply elem_of_cons in Hin as [Heq|Hin]; [right | left; by apply IH].
  injection Heq as -> -> -> -> ->. by left.
Qed.

(** Names below a namespace are not the topic of the graph's metadata. *)
Lemma nested_not_metadata mode nm :
  has_char slash (drop 1 (logical_name nm)) = true -> transport_name mode nm <> Metadata.kGraphMetadataTopicName.
Proof.
  intros Hc Heq. assert (has_char slash (transport_name mode nm) = true) as H.
  { unfold transport_name, dds_topic_name, service_topic_name.
    destruct (role nm), mode; rewrite ?has_char_app, ?Hc; by rewrite ?orb_true_r. }
  rewrite Heq in H. by vm_compute in H.
Qed.

Lemma ends_with_word x word suffix :
  (length suffix <= length word)%nat -> name_ends_with (x ++ word) suffix = name_ends_with word suffix.
Proof.
  intros Hl. apply eq_bool_prop_intro. rewrite !Is_true_true, !name_ends_with_true. split.
  - intros [r Hr]. destruct (app_eq_inv _ _ _ _ Hr) as [(k & Hk & ->)|(k & -> & Hk)]; [|by exists k].
    assert (k = []) as -> by (apply length_zero_iff_nil; rewrite length_app in Hl; lia). by exists [].
  - intros [r ->]. exists (x ++ r). by rewrite app_assoc.
Qed.

(** The names an action's parts have. *)
Lemma action_requirements mode fqn names types :
  derive_action_endpoint_names fqn = Some names ->
  Forall (fun req => absolute (logical_name req.1.1) /\ unambiguous mode req.1.1 /\
                     has_char slash (drop 1 (logical_name req.1.1)) = true) (required names types).
Proof.
  unfold derive_action_endpoint_names. destruct fqn as [|a fqn]; [done|].
  destruct (_ || _) eqn:Hb; [done|]. apply orb_false_iff in Hb as [[_ Hb]%orb_false_iff _].
  apply negb_false_iff, bool_decide_eq_true in Hb. injection Hb as ->.
  destruct (contains _ _); [done|]. intros [= <-]. unfold required. simpl logical_name.
  assert (forall suffix r,
    (name_ends_with ($"/_action/" ++ suffix) $"_Request" = false /\ name_ends_with ($"/_action/" ++ suffix) $"_Reply" = false) ->
    let nm := MkNormalized ((slash :: fqn ++ $"/_action/") ++ suffix) r in
    absolute (logical_name nm) /\ unambiguous mode nm /\ has_char slash (drop 1 (logical_name nm)) = true) as Hs.
  { intros suffix r [H1 H2]. simpl. rewrite <- app_assoc. split_and!.
    - exists (fqn ++ $"/_action/" ++ suffix). by destruct fqn.
    - intros _ _. simpl logical_name. rewrite app_comm_cons, !(ends_with_word (slash :: fqn)) by (simpl; lia). done.
    - apply bool_decide_eq_true, elem_of_app. right. left. }
  repeat (apply Forall_cons; split; [by apply Hs|]). by apply Forall_nil.
Qed.

Lemma local_meets mode v live e r nm :
  e ∈ v_local_endpoints v -> l_topic e = transport_name mode nm ->
  absolute (logical_name nm) /\ unambiguous mode nm /\ has_char slash (drop 1 (logical_name nm)) = true ->
  find_if (id_is (node_id e)) (v_local_nodes v) = Some r ->
  exists c, c ∈ collect_endpoint_candidates mode v live /\
    meets mode (participant_key (guidPrefix (l_guid e))) (node_namespace r ++ [zero] ++ node_name r)
      (nm, l_kind e, l_type e) c.
Proof.
  intros Hin Ht (Ha & Hu & Hs) Hr. unfold collect_endpoint_candidates. setoid_rewrite elem_of_app.
  setoid_rewrite list_elem_of_omap. eexists. split.
  - left. exists e. split; [done|]. unfold local_candidate, str_eqb.
    rewrite Ht, bool_decide_eq_false_2 by by apply nested_not_metadata.
    rewrite normalize_transport by done. unfold nodes_by_id. rewrite emplace_all_lookup, lookup_empty.
    rewrite (find_if_ext _ (id_is (node_id e))), Hr; [reflexivity|].
    intros x _. unfold id_is. apply eq_bool_prop_intro. by rewrite bool_decide_spec, Is_true_true, Z.eqb_eq.
  - split_and!; try done. by destruct nm.
Qed.

(** [rs] registers an endpoint that meets a requirement, with a GUID the
    calls [c] gave out. *)
Definition provides (c : ActionCalls) (rs : list Resource)
    (req : NormalizedEndpointName * EndpointKind * str) : Prop :=
  exists q qs, R_local q req.1.2 (transport_name (runtime_mode s) req.1.1) req.2 qs (n_id n) ∈ rs /\
    exists cc, cc ∈ parts c /\ issued cc q.

Lemma service_provides c cc type f nm rs :
  server_made s type cc f -> s_name f = nm -> cc ∈ parts c -> server_resources (n_id n) f ⊆ rs ->
  provides c rs (MkNormalized nm ServiceRequest, Reader, request_type type) /\
  provides c rs (MkNormalized nm ServiceResponse, Writer, response_type type).
Proof.
  intros (q & q' & Hq & Hq' & Hr & Hr') <- Hc Hrs. split.
  - exists q, (s_qos f). split; [|by exists cc]. apply Hrs. unfold server_resources, local_resource. rewrite Hr. right. left.
  - exists q', (s_qos f). split; [|by exists cc]. apply Hrs. unfold server_resources, local_resource. rewrite Hr'. left.
Qed.

Lemma topic_provides c cc type f nm rs :
  topic_made s Writer type cc f -> t_name f = nm -> cc ∈ parts c -> topic_resources (n_id n) f ⊆ rs ->
  provides c rs (MkNormalized nm Topic, Writer, type).
Proof.
  intros (q & Hq & He) <- Hc Hrs. exists q, (t_qos f). split; [|by exists cc]. apply Hrs.
  unfold topic_resources, local_resource. rewrite He. left.
Qed.

(** No remapping rule renames the parts of the action. *)
Definition parts_keep_names (names : ActionEndpointNames) : Prop :=
  Forall (fun x => resolved n x = success x)
    [send_goal names; cancel_goal names; get_result names; feedback names; status names].

Lemma created_provides type name o c e f e' :
  create_action_server s n deleted type name o c e = (success f, e') -> parts_keep_names (a_names f) ->
  derive_action_endpoint_names (a_name f) = Some (a_names f) /\
  Forall (provides c (action_server_resources n f)) (required (a_names f) (action_endpoint_types type)).
Proof.
  intros (_ & Hd & [Hg Hgn] & [Hc Hcn] & [Hr Hrn] & [Hf Hfn] & [Hs Hsn])%action_server_made Hk. split; [done|].
  unfold parts_keep_names in Hk. rewrite !Forall_cons in Hk. destruct Hk as (Kg & Kc & Kr & Kf & Ks & _).
  assert (forall i cc, parts c !! i = Some cc -> cc ∈ parts c) as Hin by (intros; by eapply list_elem_of_lookup_2).
  destruct (service_provides c (goal_calls c) _ _ (send_goal (a_names f)) (action_server_resources n f) Hg) as [? ?];
    [congruence | by apply (Hin 0%nat) | unfold action_server_resources, part_resources; set_solver |].
  destruct (service_provides c (cancel_calls c) _ _ (cancel_goal (a_names f)) (action_server_resources n f) Hc) as [? ?];
    [congruence | by apply (Hin 1%nat) | unfold action_server_resources, part_resources; set_solver |].
  destruct (service_provides c (result_calls c) _ _ (get_result (a_names f)) (action_server_resources n f) Hr) as [? ?];
    [congruence | by apply (Hin 2%nat) | unfold action_server_resources, part_resources; set_solver |].
  assert (provides c (action_server_resources n f) (MkNormalized (feedback (a_names f)) Topic, Writer, action_feedback_type type)).
  { apply (topic_provides c (feedback_calls c) _ (feedback_part f)); [done | congruence | by apply (Hin 3%nat) |].
    unfold action_server_resources, part_resources. set_solver. }
  assert (provides c (action_server_resources n f) (MkNormalized (status (a_names f)) Topic, Writer, action_status_type type)).
  { apply (topic_provides c (status_calls c) _ (status_part f)); [done | congruence | by apply (Hin 4%nat) |].
    unfold action_server_resources, part_resources. set_solver. }
  unfold required. repeat (apply Forall_cons; split; [assumption|]). by apply Forall_nil.
Qed.

(** the Node facade and the graph agree on what an action server is.
    When [create_action_server] returns an action server none of whose five
    parts a remapping rule renames, [has_action_server] finds it in the
    Context's own graph at once, under the names and wire types the factory
    derived, whatever else the graph holds and whatever participants are
    alive. *)
Theorem created_server_available type name o c e f e' p live :
  ready (n_id n) 32 e -> guids_fresh c e ->
  (forall cc q, cc ∈ parts c -> issued cc q -> guidPrefix q = p) ->
  create_action_server s n deleted type name o c e = (success f, e') -> parts_keep_names (a_names f) ->
  has_action_server (collect_endpoint_candidates (runtime_mode s) (view (graph e')) live) (a_names f)
    (action_endpoint_types type) (runtime_mode s) None = true.
Proof.
  intros He Hf Hp Hrun Hk. destruct (created_provides _ _ _ _ _ _ _ Hrun Hk) as [Hd Hprov].
  pose proof (action_server_spec s n deleted type name o c e Hf 8 e ltac:(lia) He) as Hspec.
  specialize (Hspec ltac:(intros q; by apply parts_issued_fresh)). rewrite Hrun in Hspec.
  destruct Hspec as (rs & -> & -> & Ht & [_ _ (r & Hr & _) _ _] & _).
  apply (proj1 (has_action_server_spec _ _ (action_endpoint_types type) (runtime_mode s) (a_name f) Hd)).
  exists (participant_key p), (node_namespace r ++ [zero] ++ node_name r).
  pose proof (action_requirements (runtime_mode s) _ _ (action_endpoint_types type) Hd) as Hreq.
  apply Forall_forall. intros [[nm k] ty] Hin. rewrite Forall_forall in Hprov, Hreq.
  destruct (Hprov _ Hin) as (q & qs & Hl & cc & Hcc & Hq). cbn [fst snd] in *.
  rewrite <- (Hp cc q Hcc Hq).
  apply (local_meets (runtime_mode s) (view (graph (take_all (action_server_resources n f) e))) live
    (MkLocalEndpoint q k (transport_name (runtime_mode s) nm) ty qs (n_id n)) r nm); [|done|by apply (Hreq _ Hin)|done].
  by apply local_of_taken.
Qed.
End Available.

(** ** Examples *)

Definition example_setting : Setting := MkSetting ROS2 plain_endpoint plain_endpoint.

(** Calls that all succeed; the [i]-th part gets GUIDs of its own. *)
Definition example_calls (i : Z) : Calls :=
  MkCalls true (fun _ _ => success tt)
    (fun k _ => Some (MkGUID (replicate 12 7) [0; 0; i; match k with Reader => 4 | Writer => 3 end])) false false.

Definition example_action_calls : ActionCalls :=
  MkActionCalls true (example_calls 0) (example_calls 1) (example_calls 2) (example_calls 3) (example_calls 4) false false.

(** The Context keeps the endpoints with entity [3], the writers. *)
Definition example_deleted (q : GUID_t) : bool := bool_decide (last (entityId q) = Some 4).

Definition example_type : ActionType :=
  MkActionType (MkServiceType $"Fib_SendGoal_Request_" $"Fib_SendGoal_Response_")
    (MkServiceType $"CancelGoal_Request_" $"CancelGoal_Response_")
    (MkServiceType $"Fib_GetResult_Request_" $"Fib_GetResult_Response_") $"Fib_FeedbackMessage_" $"GoalStatusArray_".

Definition example_options : ActionOptions :=
  MkActionOptions ros2_services_default ros2_services_default ros2_services_default ros2_default
    ros2_action_status_default 0.

Definition example_graph : DiscoveryGraph := (add_local_node $"robot" $"/" new_graph).2.1.
Definition example_entities : Entities := MkEntities example_graph [] [] 1 [].
Definition example_node (rules : list RemapRule) : Node := MkNode $"robot" $"/" rules 1.

Definition example_server (rules : list RemapRule) : Result ActionFacade * Entities :=
  create_action_server example_setting (example_node rules) example_deleted example_type $"fib" example_options
    example_action_calls example_entities.

Definition example_available (rules : list RemapRule) : option bool :=
  f ← result_value (example_server rules).1;
  Some (has_action_server (collect_endpoint_candidates ROS2 (view (graph (example_server rules).2)) [])
          (a_names f) (action_endpoint_types example_type) ROS2 None).

Example server_available : example_available [] = Some true.
Proof. vm_compute. reflexivity. Qed.

(** A remapping rule for one of the endpoint names of an action is applied to
    the part although the names were derived from the resolved name: the
    server then answers under a name no client derives. *)
Example remapped_part_unavailable :
  example_available [MkRemap $"/fib/_action/send_goal" $"/other"] = Some false.
Proof. vm_compute. reflexivity. Qed.

(** A client subscribes to the graph and registers a callback for the
    shutdown; both are gone with the client. *)
Definition example_client (e : Entities) : Result (list Resource) * Entities :=
  run_factory example_setting (example_node []) (fun _ => true)
    (F_client (send_goal_type example_type) $"srv" ros2_services_default (example_calls 0)) e.

Example client_waits :
  match example_client example_entities with
  | (success rs, e) =>
      subscriptions (graph e) = [1] /\ callbacks e = [1] /\ length (local_endpoints (graph e)) = 2%nat /\
      let e' := give_back_all (fun _ => true) rs e in
      subscriptions (graph e') = [] /\ callbacks e' = [] /\ local_endpoints (graph e') = [] /\ natives e' = []
  | _ => False
  end.
Proof. vm_compute. by split_and!. Qed.

(** When the ids of subscriptions have run out, the client that cannot be
    created makes the graph unavailable, and its endpoints stay registered
    there. *)
Example refused_client_stays :
  match example_client (with_graph (with_subscriptions UINT64_MAX [] example_graph) example_entities) with
  | (failure _, e) => health (graph e) = Unavailable /\ length (local_endpoints (graph e)) = 2%nat /\
      natives e = [] /\ held e = [] /\ callbacks e = []
  | _ => False
  end.
Proof. vm_compute. by split_and!. Qed.

Lemma example_ready : ready 1 32 example_entities.
Proof. split; [done | by split | | done | constructor]. eexists. by vm_compute. Qed.

Lemma example_issued i q : issued (example_calls i) q ->
  guidPrefix q = replicate 12 7 /\ exists k, entityId q = [0; 0; i; k].
Proof. intros (k & t & [= <-]). split; [done | by eexists]. Qed.

Lemma example_parts i ci : parts example_action_calls !! i = Some ci -> ci = example_calls (Z.of_nat i).
Proof. do 5 (destruct i as [|i]; [by intros [= <-]|]). done. Qed.

Lemma example_fresh : guids_fresh example_action_calls example_entities.
Proof.
  split_and!.
  - apply Forall_forall. intros ci [i ->%example_parts]%list_elem_of_lookup. intros t t' q [= <-]. done.
  - intros i j ci cj q ->%example_parts ->%example_parts [_ [k Hk]]%example_issued [_ [k' Hk']]%example_issued.
    rewrite Hk in Hk'. injection Hk' as ? _. lia.
  - intros ci q _ _. apply not_elem_of_nil.
Qed.

Lemma factories_are_transactions_witness :
  match run_factory example_setting (example_node []) example_deleted
          (F_action_server example_type $"fib" example_options example_action_calls) example_entities with
  | (success rs, e') =>
      e' = take_all rs example_entities /\ undone example_deleted example_entities (give_back_all example_deleted rs e')
  | (failure _, e') => undone example_deleted example_entities e'
  end.
Proof.
  apply (factories_are_transactions example_setting (example_node []) example_deleted
    (F_action_server example_type $"fib" example_options example_action_calls) example_entities).
  - exact example_ready.
  - exact example_fresh.
Defined.

Lemma example_server_created :
  match (create_action_server example_setting (example_node []) example_deleted example_type $"fib" example_options
    example_action_calls example_entities).1 with
  | success f => parts_keep_names (example_node []) (a_names f)
  | failure _ => False
  end.
Proof. vm_compute. repeat (apply Forall_cons; split; [reflexivity|]). by apply Forall_nil. Qed.

Lemma created_server_available_witness :
  exists f e', create_action_server example_setting (example_node []) example_deleted example_type $"fib" example_options
    example_action_calls example_entities = (success f, e') /\
    has_action_server (collect_endpoint_candidates ROS2 (view (graph e')) []) (a_names f)
      (action_endpoint_types example_type) ROS2 None = true.
Proof.
  pose proof example_server_created as Hk. destruct (create_action_server example_setting (example_node []) example_deleted example_type $"fib" example_options
    example_action_calls example_entities) as [[f|err] e'] eqn:Hrun; [|by destruct Hk].
  exists f, e'. split; [done|].
  apply (created_server_available example_setting (example_node []) example_deleted example_type $"fib" example_options
    example_action_calls example_entities f e' (replicate 12 7)).
  - exact example_ready.
  - exact example_fresh.
  - intros cc q [i ->%example_parts]%list_elem_of_lookup. by intros [? _]%example_issued.
  - exact Hrun.
  - exact Hk.
Defined.
