(* ===== verification/NodeParameters.v ===== *)
(** * NodeParameters: the parameters of a Node

    Models the construction and destruction of a Node and its parameter
    methods (src/impl/node_impl.cpp): each checks its arguments, enters the
    Context's operation gate, and calls the store of [Parameters].  [operation]
    is the gate's answer (see [Contexts]). *)

From S2P Require Import Prelude Strings Arguments Parameters Names.
From S2P Require Discovery Contexts Nodes.
Local Open Scope Z_scope.
Local Open Scope dmw_scope.

(** ** Construction *)

(** A Node with its parameters. *)
Record NodeState := MkNodeState { node : Nodes.Node; store : ParameterStoreState }.

Definition make_node `{!Strtod} (i : NodeIdentity) (allow_undeclared_parameters : bool) (g : Discovery.DiscoveryGraph)
    : NodeState * (Discovery.DiscoveryGraph * list (Z * Z)) :=
  let '(node_id, g) := Discovery.add_local_node (identity_name i) (identity_namespace i) g in
  (MkNodeState (Nodes.MkNode (identity_name i) (identity_namespace i) (identity_remaps i) node_id)
     (make_store allow_undeclared_parameters
        (select_parameter_overrides (identity_overrides i) (identity_name i) (fully_qualified_name i))), g).

Definition destroy_node (n : NodeState) (g : Discovery.DiscoveryGraph) : Discovery.DiscoveryGraph * list (Z * Z) :=
  Discovery.release_local_node (Nodes.n_id (node n)) g.

Definition graph_registered (n : NodeState) : bool := negb (Nodes.n_id (node n) =? 0).

(** ** Parameter methods *)

Section Methods.
Variable operation : bool.

(** The gate, before a method that reads, and before one that changes the
    store. *)
Definition reading {A} (r : Result A) : Result A := if operation then r else Contexts.context_shut_down.

Definition changing {A} (f : ParameterStoreState -> Result A * ParameterStoreState) (s : ParameterStoreState)
    : Result A * ParameterStoreState :=
  if operation then f s else (Contexts.context_shut_down, s).

Definition declare_parameter (n : str) (default_value : ParameterValue) (d : ParameterDescriptor)
    (ignore_override : bool) (s : ParameterStoreState) : Result ParameterEntry * ParameterStoreState :=
  match validate_parameter_name n with
  | failure e => (failure e, s)
  | success _ =>
      match validate_descriptor d default_value with
      | failure e => (failure e, s)
      | success _ => changing (declare n default_value d ignore_override) s
      end
  end.

Definition undeclare_parameter (n : str) (s : ParameterStoreState) : Result unit * ParameterStoreState :=
  match validate_parameter_name n with
  | failure e => (failure e, s)
  | success _ => changing (undeclare n) s
  end.

Definition has_parameter (n : str) (s : ParameterStoreState) : Result bool :=
  let? _ := validate_parameter_name n in reading (has n s).

Definition get_parameter (n : str) (s : ParameterStoreState) : Result ParameterEntry :=
  let? _ := validate_parameter_name n in reading (get n s).

Fixpoint first_invalid_name (ns : list str) : Result unit :=
  match ns with
  | [] => success tt
  | n :: ns => let? _ := validate_parameter_name n in first_invalid_name ns
  end.

Definition get_parameters (ns : list str) (s : ParameterStoreState) : Result (list ParameterEntry) :=
  let? _ := first_invalid_name ns in reading (get_many ns s).

Definition describe_parameter (n : str) (s : ParameterStoreState) : Result ParameterDescriptor :=
  let? _ := validate_parameter_name n in reading (describe n s).

(** [Node::list_parameters]. *)
Definition list_node_parameters (ps : list str) (depth : nat) (s : ParameterStoreState) : Result ParameterListResult :=
  let? _ := first_invalid_prefix ps in reading (list_parameters ps depth s).

Definition validate_parameters (params : list ParameterEntry) (s : ParameterStoreState) : Result unit :=
  let? _ := validate_name_and_duplicates params in reading (validate params s).

Definition set_parameters_atomically (params : list ParameterEntry) (s : ParameterStoreState)
    : Result ParameterChangeSet * ParameterStoreState :=
  match validate_name_and_duplicates params with
  | failure e => (failure e, s)
  | success _ => changing (set_atomically params) s
  end.

Definition take_parameter_changes (s : ParameterStoreState) : Result ParameterChangeSet * ParameterStoreState :=
  changing take_changes s.
End Methods.

(** ** Any call *)

Inductive NodeCall :=
  | C_declare (n : str) (v : ParameterValue) (d : ParameterDescriptor) (ignore : bool)
  | C_undeclare (n : str)
  | C_has (n : str)
  | C_get (n : str)
  | C_get_many (ns : list str)
  | C_describe (n : str)
  | C_list (ps : list str) (depth : nat)
  | C_validate (params : list ParameterEntry)
  | C_set (params : list ParameterEntry)
  | C_take_changes.

(** The value of a call, whatever its type. *)
Inductive Value :=
  | R_unit (x : unit) | R_bool (b : bool) | R_entry (p : ParameterEntry) | R_entries (ps : list ParameterEntry)
  | R_descriptor (d : ParameterDescriptor) | R_list (r : ParameterListResult) | R_changes (c : ParameterChangeSet).

Definition as_value {A} (f : A -> Value) (r : Result A) : Result Value := let? a := r in success (f a).

Definition changed_as {A} (f : A -> Value) (r : Result A * ParameterStoreState) : Result Value * ParameterStoreState :=
  (as_value f r.1, r.2).

Definition node_call (operation : bool) (call : NodeCall) (s : ParameterStoreState)
    : Result Value * ParameterStoreState :=
  match call with
  | C_declare n v d i => changed_as R_entry (declare_parameter operation n v d i s)
  | C_undeclare n => changed_as R_unit (undeclare_parameter operation n s)
  | C_has n => (as_value R_bool (has_parameter operation n s), s)
  | C_get n => (as_value R_entry (get_parameter operation n s), s)
  | C_get_many ns => (as_value R_entries (get_parameters operation ns s), s)
  | C_describe n => (as_value R_descriptor (describe_parameter operation n s), s)
  | C_list ps depth => (as_value R_list (list_node_parameters operation ps depth s), s)
  | C_validate params => (as_value R_unit (validate_parameters operation params s), s)
  | C_set params => changed_as R_changes (set_parameters_atomically operation params s)
  | C_take_changes => changed_as R_changes (take_parameter_changes operation s)
  end.

(** The call on the store itself. *)
Definition store_call (call : NodeCall) (s : ParameterStoreState) : Result Value * ParameterStoreState :=
  match call with
  | C_declare n v d i => changed_as R_entry (declare n v d i s)
  | C_undeclare n => changed_as R_unit (undeclare n s)
  | C_has n => (as_value R_bool (has n s), s)
  | C_get n => (as_value R_entry (get n s), s)
  | C_get_many ns => (as_value R_entries (get_many ns s), s)
  | C_describe n => (as_value R_descriptor (describe n s), s)
  | C_list ps depth => (as_value R_list (list_parameters ps depth s), s)
  | C_validate params => (as_value R_unit (validate params s), s)
  | C_set params => changed_as R_changes (set_atomically params s)
  | C_take_changes => changed_as R_changes (take_changes s)
  end.

(** The call as an operation of the store's histories. *)
Definition store_op (call : NodeCall) : option StoreOp :=
  match call with
  | C_declare n v d i => Some (Op_declare n v d i)
  | C_undeclare n => Some (Op_undeclare n)
  | C_set params => Some (Op_set params)
  | C_take_changes => Some Op_take_changes
  | _ => None
  end.

(** Over a list of names, a reading of the store fails if a name is invalid. *)
Lemma get_many_invalid ns s e : first_invalid_name ns = failure e -> has_value (get_many ns s) = false.
Proof.
  induction ns as [|n ns IH]; simpl; [done|]. unfold get. destruct (validate_parameter_name n) as [[]|]; [|done].
  intros He. destruct (match parameters s !! n with Some _ => _ | None => _ end); [|done].
  specialize (IH He). by destruct (get_many ns s).
Qed.

(** the Node facade adds nothing to its parameter store but the gate.  With
    the gate open, a call gives the value, or the error, and the state that
    the store gives, except that reading several parameters reports an invalid
    name before an unknown one.  With the gate closed no call changes the
    store, every call fails, and it fails with [ContextShutdown] unless the
    arguments alone make it fail. *)
Theorem node_call_spec call s :
  (node_call true call s = store_call call s \/
   exists ns e, call = C_get_many ns /\ first_invalid_name ns = failure e /\
     node_call true call s = (failure e, s) /\ has_value (store_call call s).1 = false) /\
  (node_call true call s).2 = match store_op call with Some op => store_exec op s | None => s end /\
  (node_call false call s).2 = s /\
  exists e, (node_call false call s).1 = failure e /\
    (error_code e = ContextShutdown \/ (node_call true call s).1 = failure e).
Proof.
  destruct call; simpl;
    unfold declare_parameter, undeclare_parameter, has_parameter, get_parameter, get_parameters, describe_parameter,
      list_node_parameters, validate_parameters, set_parameters_atomically, take_parameter_changes, changing, reading;
    unfold declare, undeclare, has, get, describe, list_parameters, validate, set_atomically, changed_as.
  all: try destruct (validate_parameter_name n) as [[]|e] eqn:Hn; simpl.
  all: try destruct (validate_descriptor d v) as [[]|e] eqn:Hd; simpl.
  all: try destruct (validate_name_and_duplicates params) as [[]|e] eqn:Hp; simpl.
  all: try destruct (first_invalid_prefix ps) as [[]|e] eqn:Hps; simpl.
  all: try destruct (first_invalid_name ns) as [[]|e] eqn:Hns; simpl.
  all: split_and!; try done; try (by left); try (eexists; split; [done | by eauto]).
  right. exists ns, e. pose proof (get_many_invalid ns s e Hns) as Hg. split_and!; try done.
  unfold as_value. by destruct (get_many ns s).
Qed.

(** ** A Node and its graph *)

(** Creating a Node registers it under its name and namespace; destroying it
    leaves the Nodes of the graph as they were. *)
Lemma node_lifetime `{!Strtod} i allow g :
  Discovery.health g = Discovery.Healthy -> 0 <= Discovery.revision g -> Discovery.revision g + 1 < UINT64_MAX ->
  0 <= Discovery.next_local_node_id g < UINT64_MAX ->
  Forall (fun n => 1 <= Discovery.id n <= Discovery.next_local_node_id g) (Discovery.local_nodes g) ->
  let '(n, (g', _)) := make_node i allow g in
  graph_registered n = true /\
  find_if (Discovery.id_is (Nodes.n_id (node n))) (Discovery.local_nodes g') =
    Some (Discovery.MkLocalNode (Nodes.n_id (node n)) (identity_name i) (identity_namespace i) 1) /\
  Discovery.local_nodes (destroy_node n g').1 = Discovery.local_nodes g.
Proof.
  intros Hh Hr0 Hr Hi Hf. unfold make_node, Discovery.add_local_node, Discovery.mutate, Discovery.local_node_change.
  rewrite !decide_True by done. rewrite !(proj2 (Z.eqb_neq (Discovery.next_local_node_id g) UINT64_MAX)) by lia. simpl.
  rewrite (proj2 (Z.eqb_neq (Discovery.revision g) UINT64_MAX)) by lia. simpl.
  set (k := Discovery.next_local_node_id g + 1).
  assert (find_if (Discovery.id_is k) (Discovery.local_nodes g) = None) as Hn.
  { apply find_if_None. intros x Hx. rewrite Forall_forall in Hf. specialize (Hf x Hx).
    unfold Discovery.id_is. apply Z.eqb_neq. unfold k. lia. }
  assert (find_if (Discovery.id_is k)
    (Discovery.local_nodes g ++ [Discovery.MkLocalNode k (identity_name i) (identity_namespace i) 1]) =
    Some (Discovery.MkLocalNode k (identity_name i) (identity_namespace i) 1)) as Hk.
  { rewrite find_if_app, Hn. simpl. unfold Discovery.id_is. simpl. by rewrite Z.eqb_refl. }
  assert ((k =? 0) = false) as Hk0 by (apply Z.eqb_neq; unfold k; lia).
  split_and!.
  - unfold graph_registered. simpl. by rewrite Hk0.
  - done.
  - unfold destroy_node, Discovery.release_local_node. simpl. rewrite Hk0. unfold Discovery.mutate. simpl.
    rewrite decide_True by done. unfold Discovery.release_change, Discovery.drop_reference. simpl. rewrite Hk. simpl.
    assert (erase_first (Discovery.id_is k)
      (Discovery.local_nodes g ++ [Discovery.MkLocalNode k (identity_name i) (identity_namespace i) 1]) =
      Discovery.local_nodes g) as ->.
    { clear -Hn. induction (Discovery.local_nodes g) as [|x l IH]; simpl in *.
      - unfold Discovery.id_is. simpl. by rewrite Z.eqb_refl.
      - destruct (Discovery.id_is k x); [done|]. by rewrite IH. }
    by case_match.
Qed.
