(* ===== verification/Transport.v ===== *)
(** * Transport: the listeners of a Context and its metadata transport

    Models [GraphMetadataListener] and [GraphMetadataTransport]
    (src/impl/graph_metadata.{hpp,cpp}) around the snapshots of [Metadata],
    [DiscoveryListener] (src/impl/discovery_graph.hpp),
    [install_graph_metadata_transport] (src/impl/context_impl.cpp) and the
    retention of src/impl/process_lifetime.hpp.

    [publication_step] interleaves the threads that change a graph with the
    callbacks that publish it.  [published_is_current]: whatever other
    participants have read last is the current graph, once the callbacks are
    through. *)

From S2P Require Import Prelude Strings Identity Names Qos Discovery Metadata.
From S2P Require Services Contexts Nodes.
Local Open Scope Z_scope.
Local Open Scope dmw_scope.

(** ** Listeners *)

(** [GraphMetadataListener] and [DiscoveryListener]: the gate of
    [Services.CallbackInFlightGate] behind a flag. *)
Record Listener := MkListener { active : bool; listener_gate : Services.CallbackInFlightGate }.

Definition new_listener : Listener := MkListener false Services.new_gate.

Definition activate (l : Listener) : Listener := MkListener true (listener_gate l).

(** [close_and_drain] up to its wait for [Services.drained]. *)
Definition close_listener (l : Listener) : Listener := MkListener false (Services.stop_accepting (listener_gate l)).

(** [on_data_available]: whether [on_data_] runs.  The flag is read inside
    the gate. *)
Definition on_data_available (l : Listener) : bool * Listener :=
  let '(entered, g) := Services.enter (listener_gate l) in
  (entered && active l, MkListener (active l) g).

Definition on_subscription_matched (current_count_change : Z) (l : Listener) : bool * Listener :=
  if current_count_change <=? 0 then (false, l) else on_data_available l.

Definition leave_callback (l : Listener) : Listener := MkListener (active l) (Services.leave (listener_gate l)).2.

(** [DiscoveryListener::guard] reads the flag before it enters. *)
Definition guard (l : Listener) : bool * Listener :=
  if negb (active l) then (false, l)
  else let '(entered, g) := Services.enter (listener_gate l) in (entered, MkListener (active l) g).

(** What Fast DDS reports of discovery. *)
Inductive DiscoveryStatus := DISCOVERED | CHANGED_QOS | REMOVED | DROPPED.

#[export] Instance DiscoveryStatus_eq_dec : EqDecision DiscoveryStatus.
Proof. solve_decision. Defined.

Inductive DiscoveryInfo :=
  | I_participant (prefix : GuidPrefix) (status : DiscoveryStatus)
  | I_endpoint (q : GUID_t) (k : EndpointKind) (topic type : str) (qos : EndpointQos) (status : DiscoveryStatus).

(** [on_participant_discovery], [on_subscriber_discovery] and
    [on_publisher_discovery]; a dropped participant is removed, an endpoint
    is removed by its own status only. *)
Definition discovery_op `{!FastDuration} (i : DiscoveryInfo) : GraphOp :=
  match i with
  | I_participant q st =>
      Op_participant q (if bool_decide (st = REMOVED) || bool_decide (st = DROPPED) then Removed else Added)
  | I_endpoint q k t ty qs st =>
      Op_endpoint q k t ty (if bool_decide (st = REMOVED) then Removed else Added) (discovery_qos_or_unknown qs)
  end.

(** ** Process lifetime *)

(** What is kept until the process ends, latest first. *)
Record ProcessLifetime := MkLifetime {
  participants : list (nat * option nat); writer_listeners : list nat; reader_listeners : list nat;
  participant_listeners : list nat }.

Definition new_lifetime : ProcessLifetime := MkLifetime [] [] [] [].

Definition retain_participant (participant : option nat) (listener : option nat) (p : ProcessLifetime) : ProcessLifetime :=
  match participant with
  | None => p
  | Some d => MkLifetime ((d, listener) :: participants p) (writer_listeners p) (reader_listeners p) (participant_listeners p)
  end.

Definition quarantined_participant_count (p : ProcessLifetime) : nat := length (participants p).

Definition retain_writer_listener (listener : option nat) (p : ProcessLifetime) : ProcessLifetime :=
  match listener with
  | None => p
  | Some l => MkLifetime (participants p) (l :: writer_listeners p) (reader_listeners p) (participant_listeners p)
  end.

Definition retain_reader_listener (listener : option nat) (p : ProcessLifetime) : ProcessLifetime :=
  match listener with
  | None => p
  | Some l => MkLifetime (participants p) (writer_listeners p) (l :: reader_listeners p) (participant_listeners p)
  end.

Definition retain_participant_listener (listener : option nat) (p : ProcessLifetime) : ProcessLifetime :=
  match listener with
  | None => p
  | Some l => MkLifetime (participants p) (writer_listeners p) (reader_listeners p) (l :: participant_listeners p)
  end.

(** ** The transport *)

Record GraphMetadataTransport := MkTransport {
  writer : option GUID_t; reader : option GUID_t;
  listener : Listener; listener_id : nat;
  degraded : bool; data_pending : bool; pending_observers : list nat }.

Definition kGraphMetadataTypeName : str := $"rmw_dds_common::msg::dds_::ParticipantEntitiesInfo_".
Definition kGraphMetadataWriterDepth : Z := 1.

(** The QoS of the two endpoints. *)
Definition metadata_writer_qos : Result Qos :=
  let '(kept, q) := keep_last kGraphMetadataWriterDepth system_default in
  let? _ := kept in success (set_durability TransientLocal (set_reliability Reliable q)).

Definition metadata_reader_qos : Qos := set_durability TransientLocal (set_reliability Reliable (keep_all system_default)).

(** What a creation meets: the type adaptor, the topic, the two native
    endpoints, and whether the reader takes the listener. *)
Record TransportCalls := MkTransportCalls {
  metadata_type : Result unit;
  topic_acquired : Result unit;
  writer_created : option GUID_t; reader_created : option GUID_t;
  listener_attached : bool }.

Section Create.
Context `{!FastDuration} (s : Nodes.Setting) (deleted : GUID_t -> bool).
Import Nodes.

(** An endpoint that no early return deletes: it is left to the deletion of
    all contained entities. *)
Definition leave_to_participant (q : GUID_t) (k : EndpointKind) : Tx unit := fun e =>
  (success tt, take_resource (R_native (MkNative q k kGraphMetadataTopicName)) e).

Definition created (r : option GUID_t) (message : string) : Result GUID_t :=
  match r with Some q => success q | None => fail DDSError message end.

Definition create_transport (id : nat) (c : TransportCalls) : Tx GraphMetadataTransport :=
  _ ← lift (metadata_type c);
  writer_qos ← lift metadata_writer_qos;
  _ ← lift (topic_acquired c);
  scoped deleted (R_topic kGraphMetadataTopicName kGraphMetadataTypeName) (
    let l := activate new_listener in
    _ ← lift (to_writer_qos writer_qos (runtime_mode s) (writer_qos_baseline s));
    _ ← lift (to_reader_qos metadata_reader_qos (runtime_mode s) (reader_qos_baseline s));
    w ← lift (created (writer_created c) "Fast DDS failed to create graph metadata writer");
    _ ← leave_to_participant w Writer;
    r ← lift (created (reader_created c) "Fast DDS failed to create graph metadata reader");
    _ ← leave_to_participant r Reader;
    _ ← require (listener_attached c) (MkError DDSError "Fast DDS rejected the graph metadata listener");
    mret (MkTransport (Some w) (Some r) l id false false [])).
End Create.

(** [~GraphMetadataTransport]; [detached]: what [set_listener(nullptr)] says. *)
Definition destroy_transport (detached : bool) (t : GraphMetadataTransport) (p : ProcessLifetime)
    : Listener * ProcessLifetime :=
  let detached := match reader t with Some _ => detached | None => false end in
  (close_listener (listener t), if negb detached then retain_reader_listener (Some (listener_id t)) p else p).

(** [publish_local_snapshot]: [reported] is the outcome of the comparison
    with RETCODE_OK. *)
Definition after_publish (reported : bool) (t : GraphMetadataTransport) : GraphMetadataTransport :=
  MkTransport (writer t) (reader t) (listener t) (listener_id t) (degraded t || negb reported) (data_pending t)
    (pending_observers t).

Definition with_pending (b : bool) (observers : list nat) (t : GraphMetadataTransport) : GraphMetadataTransport :=
  MkTransport (writer t) (reader t) (listener t) (listener_id t) (degraded t) b observers.

(** [ingest_pending], once the listener is idle. *)
Definition ingest_pending (local_prefix : GuidPrefix) (unread : nat) (takes : list MetadataTake)
    (t : GraphMetadataTransport) (g : DiscoveryGraph) : GraphMetadataTransport * DiscoveryGraph :=
  match reader t with
  | None => (t, g)
  | Some _ => (with_pending false (pending_observers t) t, ingest local_prefix unread takes g)
  end.

(** [ingest_from_listener]: data is pending, and the observers to wake. *)
Definition data_arrived (alive : nat -> bool) (t : GraphMetadataTransport) : list nat * GraphMetadataTransport :=
  let '(woken, kept) := ingest_from_listener alive (pending_observers t) in (woken, with_pending true kept t).

(** [install_graph_metadata_transport] up to its first publication: the
    transport and its subscription. *)
Definition install_transport (mode : RuntimeMode) (t : Result GraphMetadataTransport) (g : DiscoveryGraph)
    : Result (option (GraphMetadataTransport * Z)) * DiscoveryGraph :=
  if negb (bool_decide (mode = ROS2)) then (success None, g)
  else match t with
       | failure e => (failure e, g)
       | success t =>
           match subscribe g with
           | (None, g) => (fail ResourceExhausted "DiscoveryGraph rejected the metadata subscription", g)
           | (Some i, g) => (success (Some (t, i)), g)
           end
       end.

(** [close_graph_metadata_transport] *)
Definition close_transport (detached : bool) (i : Z) (t : GraphMetadataTransport) (p : ProcessLifetime) (g : DiscoveryGraph)
    : (Listener * ProcessLifetime) * DiscoveryGraph :=
  (destroy_transport detached t p, unsubscribe i g).

(** ** Publication, interleaved *)

Section Publication.
Context (kRmwGidSize : nat) (guid : GUID_t).

(** What [publish_local_snapshot] writes of the graph as it is. *)
Definition current (g : DiscoveryGraph) : RmwParticipantEntitiesInfo :=
  build_local_snapshot kRmwGidSize (view g) guid.

(** The graph, the callbacks on their way to [publish_mutex_], the snapshot
    of the one that holds it, and the writes with their outcome, latest
    first. *)
Record Publication := MkPublication {
  p_graph : DiscoveryGraph; owed : nat; publishing : option RmwParticipantEntitiesInfo;
  writes : list (RmwParticipantEntitiesInfo * bool) }.

(** A callback that publishes comes of every change that notifies, but for a
    remote snapshot: its thread has [g_remote_update_in_progress] set. *)
Definition publishes (op : GraphOp) (sub : Z) (calls : list (Z * Z)) : bool :=
  match op with Op_remote _ _ => false | _ => bool_decide (sub ∈ calls.*1) end.

Inductive publication_step (sub : Z) : Publication -> Publication -> Prop :=
  | pb_change op s :
      op <> Op_unsubscribe sub ->
      publication_step sub s
        (MkPublication (graph_step op (p_graph s))
           ((if publishes op sub (graph_exec op (p_graph s)).2 then 1 else 0) + owed s) (publishing s) (writes s))
  | pb_lock g n ws :
      publication_step sub (MkPublication g (S n) None ws) (MkPublication g n (Some (current g)) ws)
  | pb_written g n sample ws written :
      publication_step sub (MkPublication g n (Some sample) ws) (MkPublication g n None ((sample, written) :: ws)).

(** Just after the subscription, before the first publication. *)
Definition just_installed (sub : Z) (s : Publication) : Prop :=
  exists ops g, subscribe (run graph_step ops new_graph) = (Some sub, g) /\ s = MkPublication g 1 None [].

(** No callback is on its way or publishing. *)
Definition quiet (s : Publication) : Prop := owed s = 0%nat /\ publishing s = None.

(** *** The snapshot is a function of the observable graph *)

Lemma current_observable g g' : observable g = observable g' -> current g = current g'.
Proof.
  intros (_ & _ & Hn & He & _)%observable_inj. unfold current, build_local_snapshot. simpl. rewrite <- He. f_equal.
  set (f := fun t : Z * str * str => MkNodeInfo t.2 t.1.2
    (node_gids kRmwGidSize Reader t.1.1 (local_endpoints g)) (node_gids kRmwGidSize Writer t.1.1 (local_endpoints g))).
  assert (forall l : list LocalNodeRecord, (fun n => MkNodeInfo (node_namespace n) (node_name n)
    (node_gids kRmwGidSize Reader (id n) (local_endpoints g)) (node_gids kRmwGidSize Writer (id n) (local_endpoints g)))
    <$> l = f <$> ((fun n => (id n, node_name n, node_namespace n)) <$> l)) as Hf.
  { intros l. by rewrite <- list_fmap_compose. }
  by rewrite !Hf, Hn.
Qed.

Lemma mutate_calls change sub g :
  change_spec change g -> subscriptions (change g).2 = subscriptions g -> sub ∈ subscriptions g ->
  subscriptions (mutate change g).1 = subscriptions g /\
  (observable (mutate change g).1 = observable g \/ sub ∈ (mutate change g).2.*1).
Proof.
  intros Hc Hs Hsub. assert (forall g', subscriptions g' = subscriptions g -> sub ∈ (notify g').*1) as Hn.
  { intros g' Hg. unfold notify. rewrite <- list_fmap_compose, Hg. simpl. by rewrite list_fmap_id. }
  unfold mutate, change_spec in *. case_decide; [|by split; [|left]].
  destruct (change g) as [[] g']; simpl in *; [| |].
  - destruct Hc as (_ & _ & Hs' & _). split; [by case_match|]. right. apply Hn. by case_match.
  - destruct Hc as (Ho & _ & Hs' & _). split; [done | by left].
  - split; [done|]. right. by apply Hn.
Qed.

Lemma kept_by_erase {A} (p : A -> bool) l x : x ∈ l -> p x = false -> x ∈ erase_first p l.
Proof.
  intros Hx Hp. induction l as [|y l IH]; simpl; [done|]. destruct (p y) eqn:Hy.
  - apply elem_of_cons in Hx as [->|?]; [congruence | done].
  - apply elem_of_cons in Hx as [->|?]; [by left | right; auto].
Qed.

(** Every operation but its own cancellation keeps the subscription, and
    changes what is published only if it calls the subscriber. *)
Lemma exec_calls op sub g :
  graph_wf g -> op <> Op_unsubscribe sub -> sub ∈ subscriptions g ->
  sub ∈ subscriptions (graph_exec op g).1 /\
  (current (graph_exec op g).1 = current g \/ publishes op sub (graph_exec op g).2 = true).
Proof.
  intros Hg Hop Hsub.
  assert (forall change, change_spec change g -> subscriptions (change g).2 = subscriptions g ->
    sub ∈ subscriptions (mutate change g).1 /\
    (current (mutate change g).1 = current g \/ bool_decide (sub ∈ (mutate change g).2.*1) = true)) as Hm.
  { intros change Hc Hs. destruct (mutate_calls change sub g Hc Hs Hsub) as [-> Ho]. split; [done|].
    rewrite bool_decide_eq_true. destruct Ho as [Ho|Ho]; [left; by apply current_observable | by right]. }
  destruct op; simpl.
  - apply Hm; [apply participant_change_spec|]. unfold participant_change. by repeat case_match.
  - apply Hm; [by apply endpoint_change_spec|]. unfold endpoint_change, participant_for. by repeat case_match; simplify_eq/=.
  - apply Hm; [apply local_node_change_spec|]. unfold local_node_change. by case_match.
  - unfold release_local_node. case_match; [by split; [|left]|]. apply Hm; [apply release_change_spec|].
    unfold release_change. by case_match.
  - unfold add_local_endpoint. case_match; [by split; [|left]|]. apply Hm; [apply local_endpoint_change_spec|].
    unfold local_endpoint_change. by repeat case_match.
  - apply Hm; [apply remove_endpoint_change_spec|]. unfold remove_endpoint_change. by repeat case_match.
  - pose proof (mutate_calls (remote_nodes_change q ns) sub g (remote_nodes_change_spec q ns g)) as Hr.
    split; [|left]; unfold apply_remote_nodes, mutate, remote_nodes_change;
      repeat case_match; simplify_eq/=; done.
  - unfold subscribe. case_match; simpl; [by split; [|left]|]. split; [set_solver | by left].
  - split; [|by left]. apply kept_by_erase; [done|]. apply Z.eqb_neq. congruence.
  - split; [done|]. right. apply bool_decide_eq_true. unfold notify. rewrite <- list_fmap_compose. simpl.
    by rewrite list_fmap_id.
Qed.

(** Someone is about to publish, or what was written last is the graph as
    it is. *)
Record publication_inv (sub : Z) (s : Publication) : Prop := {
  pi_graph : exists ops, p_graph s = run graph_step ops new_graph;
  pi_subscribed : sub ∈ subscriptions (p_graph s);
  pi_current : owed s <> 0%nat \/
    match publishing s with
    | Some sample => sample = current (p_graph s)
    | None => exists ok ws, writes s = (current (p_graph s), ok) :: ws
    end }.

Lemma publication_step_inv sub s s' : publication_inv sub s -> publication_step sub s s' -> publication_inv sub s'.
Proof.
  intros [[ops Hg] Hsub Hc] Hstep. destruct Hstep as [op s Hop | g n ws | g n sample ws ok]; simpl in *.
  - destruct (exec_calls op sub (p_graph s)) as [Hs Hp]; [rewrite Hg; apply run_graph_wf, new_graph_wf | done..|].
    split; simpl; [|done|].
    + exists (ops ++ [op]). by rewrite run_app, Hg.
    + unfold graph_step. destruct Hp as [->| ->]; [|by left]. destruct Hc as [Hc|Hc]; [left; lia | by right].
  - split; simpl; [by exists ops | done | by right].
  - split; simpl; [by exists ops | done |]. destruct Hc as [Hc| ->]; [by left | right; by eexists _, _].
Qed.

Lemma publication_reachable sub s : reachable (just_installed sub) (publication_step sub) s -> publication_inv sub s.
Proof.
  apply reachable_invariant; [|apply publication_step_inv]. intros s0 (ops & g & Hg & ->).
  split; simpl; [exists (ops ++ [Op_subscribe]) | | by left].
  - rewrite run_app. change (g = (subscribe (run graph_step ops new_graph)).2). by rewrite Hg.
  - unfold subscribe in Hg. case_match; simplify_eq. simpl. set_solver.
Qed.

(** The callbacks that are on their way finish: every one of them writes
    once, and no write brings another callback. *)
Lemma publication_finishes sub s written :
  exists ws, rtc (publication_step sub) s (MkPublication (p_graph s) 0 None (ws ++ writes s)) /\
    length ws = (owed s + match publishing s with Some _ => 1 | None => 0 end)%nat /\ Forall (fun w => w.2 = written) ws.
Proof.
  destruct s as [g n p ws]. simpl. revert p ws. induction n as [|n IH]; intros p ws.
  - destruct p as [sample|]; [|by exists []]. exists [(sample, written)]. split; [|split; [done | by repeat constructor]].
    eapply rtc_l; [apply (pb_written sub g 0 sample ws written) | done].
  - set (start := match p with Some sample => (sample, written) :: ws | None => ws end).
    destruct (IH (Some (current g)) start) as (ws' & Hr & Hl & Hw).
    exists (ws' ++ match p with Some sample => [(sample, written)] | None => [] end). split_and!.
    + destruct p as [sample|]; simpl in *.
      * eapply rtc_l; [apply (pb_written sub g (S n) sample ws written)|]. eapply rtc_l; [apply pb_lock|].
        by rewrite <- app_assoc.
      * eapply rtc_l; [apply pb_lock|]. by rewrite app_nil_r.
    + rewrite length_app, Hl. destruct p; simpl; lia.
    + apply Forall_app. split; [done|]. destruct p; by repeat constructor.
Qed.

(** C24: what a Context has published is current.  After the metadata transport
    is installed, in every interleaving of changes of the graph, of their
    callbacks and of publications: when no callback is on its way, the last
    write was of the current graph; if it succeeded, a participant that
    ingests it holds exactly the local Nodes of that graph, whatever it held
    before.  The callbacks always finish, each by one write. *)
Theorem published_is_current sub s :
  reachable (just_installed sub) (publication_step sub) s ->
  (quiet s -> exists ok ws, writes s = (current (p_graph s), ok) :: ws) /\
  (exists s', rtc (publication_step sub) s s' /\ quiet s' /\ p_graph s' = p_graph s /\
     length (writes s') = (length (writes s) + owed s + match publishing s with Some _ => 1 | None => 0 end)%nat) /\
  (forall sample ws local_prefix ops, quiet s -> writes s = (sample, true) :: ws ->
     GUID_wf guid -> announceable (p_graph s) -> guidPrefix guid <> local_prefix ->
     let other := run graph_step ops new_graph in
     health other = Healthy ->
     find_if (rp_prefix_is (guidPrefix guid)) (remote_nodes (ingest local_prefix 1 [Take_sample true sample] other)) =
       replaced (guidPrefix guid) (announced (p_graph s))).
Proof.
  intros Hs%publication_reachable. destruct Hs as [_ _ Hc].
  assert (quiet s -> exists ok ws, writes s = (current (p_graph s), ok) :: ws) as Hq.
  { intros [H0 Hp]. rewrite Hp in Hc. by destruct Hc. }
  split_and!; [done | |].
  - destruct (publication_finishes sub s true) as (ws & Hr & Hl & _). eexists. split; [exact Hr|]. split_and!; try done.
    simpl. rewrite length_app, Hl. lia.
  - intros sample ws local_prefix ops Hqs Hw Hg Ha Hp other Hh. destruct (Hq Hqs) as (ok & ws' & Hw').
    rewrite Hw in Hw'. injection Hw' as -> _ _. unfold current. rewrite ingest_snapshot by done.
    apply apply_remote_nodes_replaces; [apply run_remote_wf | done].
Qed.
End Publication.

(** ** Creation *)

Section Created.
Context `{!FastDuration} (s : Nodes.Setting) (deleted : GUID_t -> bool).

(** The QoS of the transport always converts. *)
Lemma metadata_qos_converts mode baseline :
  exists w, metadata_writer_qos = success w /\
    (exists q, to_writer_qos w mode baseline = success q) /\ (exists q, to_reader_qos metadata_reader_qos mode baseline = success q).
Proof. eexists. split; [reflexivity|]. destruct mode; split; eexists; reflexivity. Qed.

(** A transport is created exactly when every call succeeds; one that is not
    gives its topic back, and leaves the endpoints it made to the participant. *)
Lemma create_transport_spec id c e :
  match create_transport s deleted id c e with
  | (success t, e') =>
      exists w r, writer_created c = Some w /\ reader_created c = Some r /\
        t = MkTransport (Some w) (Some r) (activate new_listener) id false false [] /\
        e' = Nodes.take_all
          [Nodes.R_native (Nodes.MkNative r Reader kGraphMetadataTopicName);
           Nodes.R_native (Nodes.MkNative w Writer kGraphMetadataTopicName);
           Nodes.R_topic kGraphMetadataTopicName kGraphMetadataTypeName] e
  | (failure _, e') =>
      (has_value (metadata_type c) = false \/ has_value (topic_acquired c) = false \/ writer_created c = None \/
       reader_created c = None \/ listener_attached c = false) /\
      Nodes.held e' = Nodes.held e /\ Nodes.graph e' = Nodes.graph e
  end.
Proof.
  destruct (metadata_qos_converts (Nodes.runtime_mode s) (Nodes.writer_qos_baseline s)) as (w & Hw & (q & Hq) & _).
  destruct (metadata_qos_converts (Nodes.runtime_mode s) (Nodes.reader_qos_baseline s)) as (_ & _ & _ & q' & Hq').
  unfold create_transport, mbind, Nodes.Tx_bind, Nodes.lift. rewrite Hw.
  destruct (metadata_type c) as [[]|] eqn:H1; [|by split; [left|]].
  destruct (topic_acquired c) as [[]|] eqn:H2; [|by split; [right; left|]].
  unfold Nodes.scoped, Nodes.protect. rewrite Hq, Hq'. unfold created.
  assert (forall h : list (str * str), erase_first
    (fun x => bool_decide (x = (kGraphMetadataTopicName, kGraphMetadataTypeName)))
    ((kGraphMetadataTopicName, kGraphMetadataTypeName) :: h) = h) as Hh.
  { intros h. cbn [erase_first]. by rewrite bool_decide_eq_true_2. }
  destruct (writer_created c) as [gw|] eqn:H3; cbn -[erase_first kGraphMetadataTopicName kGraphMetadataTypeName];
    [|split; [naive_solver | by rewrite Hh]].
  destruct (reader_created c) as [gr|] eqn:H4; cbn -[erase_first kGraphMetadataTopicName kGraphMetadataTypeName];
    [|split; [naive_solver | by rewrite Hh]].
  destruct (listener_attached c) eqn:H5; cbn -[erase_first kGraphMetadataTopicName kGraphMetadataTypeName];
    [by eexists _, _ | split; [naive_solver | by rewrite Hh]].
Qed.
End Created.

(** ** Examples *)

(** A participant that is discovered makes its listener's thread publish,
    although nothing that is published changed: only metadata itself is kept
    from it. *)
Example discovery_thread_publishes :
  let g := (subscribe new_graph).2 in
  let op := discovery_op (I_participant (replicate 12 2) DISCOVERED) in
  publishes op 1 (graph_exec op g).2 = true /\ current 16 server_guid (graph_step op g) = current 16 server_guid g.
Proof. split; reflexivity. Qed.

Lemma published_is_current_witness :
  let g := graph_step (Op_add_node $"n" $"/") (subscribe new_graph).2 in
  find_if (rp_prefix_is (guidPrefix server_guid))
    (remote_nodes (ingest (replicate 12 9) 1 [Take_sample true (current 16 server_guid g)] new_graph)) =
  Some (MkRemoteNodes (guidPrefix server_guid) [MkRemoteNode $"/" $"n" [] []]).
Proof.
  set (g0 := (subscribe new_graph).2). intros g.
  assert (reachable (just_installed 1) (publication_step 16 server_guid 1) (MkPublication g0 1 None [])) as H.
  { apply reach_init. exists [], g0. split; reflexivity. }
  extend H with ltac:(apply (pb_lock 16 server_guid 1 g0 0 [])).
  extend H with ltac:(apply (pb_change 16 server_guid 1 (Op_add_node $"n" $"/")); done).
  extend H with ltac:(apply (pb_written 16 server_guid 1 _ _ _ _ true)).
  extend H with ltac:(apply (pb_lock 16 server_guid 1)).
  extend H with ltac:(apply (pb_written 16 server_guid 1 _ _ _ _ true)).
  pose proof (published_is_current 16 server_guid 1 _ H) as (_ & _ & Hp).
  apply (Hp (current 16 server_guid g) [(current 16 server_guid g0, true)] (replicate 12 9) []); try reflexivity.
  - split; reflexivity.
  - exact server_guid_wf.
  - split_and!; simpl; try (repeat constructor; vm_compute; done); vm_compute; discriminate.
  - done.
Defined.
