(* ===== verification/Teardown.v ===== *)
(** * Teardown: the lifetime of clients and servers

    Models the constructors' registrations, the destructors and the QoS
    queries of [Client::Impl], [Server::Impl] and [ActionClient::Impl]
    (src/impl/client_impl.{hpp,cpp}, server_impl.cpp, action_impl.cpp).

    A destructor closes what can still call the object - graph subscription,
    shutdown callback, listeners, wait set - before it deletes the native
    endpoint.  [None]: it waits for a callback that still runs, or for a
    claim.  Listeners are those of [Services.CallbackInFlightGate]. *)

From S2P Require Import Prelude Qos Discovery Waitables WaitSet Services Contexts.
From S2P Require Endpoints Metadata.
Local Open Scope Z_scope.

(** ** QoS queries *)

Definition request_writer_qos (operation : bool) (result : option ReturnCode) : EndpointQos -> Result Qos :=
  Endpoints.queried_qos operation result "Fast DDS client request writer QoS query failed".
Definition response_reader_qos (operation : bool) (result : option ReturnCode) : EndpointQos -> Result Qos :=
  Endpoints.queried_qos operation result "Fast DDS client response reader QoS query failed".
Definition request_reader_qos (operation : bool) (result : option ReturnCode) : EndpointQos -> Result Qos :=
  Endpoints.queried_qos operation result "Fast DDS server request reader QoS query failed".
Definition response_writer_qos (operation : bool) (result : option ReturnCode) : EndpointQos -> Result Qos :=
  Endpoints.queried_qos operation result "Fast DDS server response writer QoS query failed".

(** ** Registrations of a wait for availability *)

(** The graph, the Context and the observers of pending metadata that a
    client or an action client registers with; [observers] is [None] without
    a metadata transport. *)
Record Hosts := MkHosts { graph : DiscoveryGraph; context : ContextState; observers : option (list nat) }.

Record Registrations := MkRegistrations { subscription : Z; shutdown_callback_id : Z }.

(** The constructors of [Client::Impl] and [ActionClient::Impl]; [state] is
    the wait state, which both callbacks wake. *)
Definition register_wait_state (ros2 : bool) (alive : nat -> bool) (state : nat) (h : Hosts) : Registrations * Hosts :=
  let observed := if ros2 then Metadata.observe_pending alive state <$> observers h else observers h in
  let '(sub, g) := subscribe (graph h) in
  let '(id, c) := register_shutdown_callback state (context h) in
  (MkRegistrations (default 0 sub) id, MkHosts g c observed).

Definition initialized (r : Registrations) : bool := negb (subscription r =? 0) && negb (shutdown_callback_id r =? 0).

(** [Subscription::reset] and [unregister_shutdown_callback], unless 0. *)
Definition unregister_wait_state (r : Registrations) (h : Hosts) : Hosts :=
  MkHosts (if subscription r =? 0 then graph h else unsubscribe (subscription r) (graph h))
    (if shutdown_callback_id r =? 0 then context h
     else unregister_shutdown_callback (shutdown_callback_id r) (context h))
    (observers h).

(** [~ActionClient::Impl] *)
Definition destroy_action_client : Registrations -> Hosts -> Hosts := unregister_wait_state.

(** ** Destruction of endpoints *)

(** What [set_listener(nullptr)] and the deletions say; [false] also for an
    exception. *)
Record EndpointTeardown := MkTeardown { reader_detached : bool; writer_detached : bool }.

(** Where the native endpoints and their listeners end up. *)
Record Ends := MkEnds {
  reader_deleted : bool; reader_listener : ListenerEnd; writer_deleted : bool; writer_listener : ListenerEnd }.

(** [close_and_drain] of a listener that is detached: [None] while a callback
    runs. *)
Definition drain (detached : bool) (g : CallbackInFlightGate) : option ListenerEnd :=
  if negb detached then Some ListenerRetained
  else if drained (stop_accepting g) then Some (ListenerFreed true) else None.

(** [~Client::Impl]; [notifying]: its graph subscriber is being called. *)
Definition destroy_client (dds : Dds) (t : EndpointTeardown) (notifying : bool) (r : Registrations) (reader : nat)
    (reader_gate writer_gate : CallbackInFlightGate) (h : Hosts) (w : World) : option (Ends * Hosts * World) :=
  if notifying && negb (subscription r =? 0) then None
  else
    let h := unregister_wait_state r h in
    reader_end ← drain (reader_detached t) reader_gate;
    '(reader_closed, w) ← close_reader dds reader w;
    writer_end ← drain (writer_detached t) writer_gate;
    Some (MkEnds (reader_detached t && reader_closed) reader_end (writer_detached t) writer_end, h, w).

(** [~Server::Impl]: its request reader has no listener. *)
Definition destroy_server (dds : Dds) (t : EndpointTeardown) (reader : nat) (writer_gate : CallbackInFlightGate)
    (w : World) : option (Ends * World) :=
  writer_end ← drain (writer_detached t) writer_gate;
  '(reader_closed, w) ← close_reader dds reader w;
  Some (MkEnds reader_closed NoListener (writer_detached t) writer_end, w).

(** ** What a destruction leaves *)

(** A listener is freed only after it is detached and idle. *)
Definition listener_end_safe (detached : bool) (g : CallbackInFlightGate) (e : ListenerEnd) : Prop :=
  match e with
  | NoListener => False
  | ListenerFreed d => d = true /\ detached = true /\ callbacks_in_flight g = 0
  | ListenerRetained => detached = false
  end.

Lemma drain_safe detached g e : drain detached g = Some e -> listener_end_safe detached g e.
Proof.
  unfold drain, drained. destruct detached; simpl; [|by intros [= <-]].
  destruct (Z.eqb_spec (callbacks_in_flight g) 0); [|done]. by intros [= <-].
Qed.

(** Destroying a client: nothing calls it any more, no listener is freed under
    a callback, and a native endpoint is deleted only when its listener and
    its wait set have let go of it. *)
Lemma destroy_client_safe dds t notifying r rd gr gw h w ends h' w' :
  destroy_client dds t notifying r rd gr gw h w = Some (ends, h', w') ->
  h' = unregister_wait_state r h /\
  listener_end_safe (reader_detached t) gr (reader_listener ends) /\
  listener_end_safe (writer_detached t) gw (writer_listener ends) /\
  (reader_deleted ends = true -> reader_detached t = true /\ reader (reader_of (store w') rd) = false /\
     lifecycle (reader_of (store w') rd) = Closed) /\
  (reader_deleted ends = false ->
     reader_detached t = false \/ lifecycle (reader_of (store w') rd) = DeleteDeferredByWaitSet) /\
  (writer_deleted ends = true -> writer_listener ends = ListenerFreed true).
Proof.
  unfold destroy_client. destruct (notifying && _); [done|].
  destruct (drain (reader_detached t) gr) as [re|] eqn:Hr; [|done]. simpl.
  destruct (close_reader dds rd w) as [[closed w1]|] eqn:Hc; [|done]. simpl.
  destruct (drain (writer_detached t) gw) as [we|] eqn:Hw; [|done]. intros [= <- <- <-]. simpl.
  apply Endpoints.close_reader_ends in Hc as [Hc1 Hc2]. apply drain_safe in Hr. pose proof (drain_safe _ _ _ Hw).
  split_and!; try done.
  - by intros [-> ?%Hc1]%andb_true_iff.
  - intros [?|?%Hc2]%andb_false_iff; [by left | by right].
  - intros Hd. rewrite Hd in Hw. unfold drain in Hw. simpl in Hw. case_match; by simplify_eq.
Qed.

(** Destroying a server. *)
Lemma destroy_server_safe dds t rd gw w ends w' :
  destroy_server dds t rd gw w = Some (ends, w') ->
  listener_end_safe (writer_detached t) gw (writer_listener ends) /\ reader_listener ends = NoListener /\
  (reader_deleted ends = true -> reader (reader_of (store w') rd) = false /\ lifecycle (reader_of (store w') rd) = Closed) /\
  (reader_deleted ends = false -> lifecycle (reader_of (store w') rd) = DeleteDeferredByWaitSet).
Proof.
  unfold destroy_server. destruct (drain (writer_detached t) gw) as [we|] eqn:Hw; [|done]. simpl.
  destruct (close_reader dds rd w) as [[closed w1]|] eqn:Hc; [|done]. intros [= <- <-]. simpl.
  apply Endpoints.close_reader_ends in Hc as [Hc1 Hc2]. by apply drain_safe in Hw.
Qed.

(** Unregistering undoes registering: no subscriber and no child of the
    shutdown is left behind, whatever else was registered in between. *)
Lemma unregister_undoes ros2 alive state h r h' :
  register_wait_state ros2 alive state h = (r, h') -> initialized r = true ->
  Forall (fun i => i <= next_subscription (graph h)) (subscriptions (graph h)) ->
  map_Forall (fun id _ => id <> next_shutdown_callback_id (context h)) (shutdown_children (context h)) ->
  subscriptions (graph (unregister_wait_state r h')) = subscriptions (graph h) /\
  shutdown_children (context (unregister_wait_state r h')) = shutdown_children (context h).
Proof.
  unfold register_wait_state, initialized, unregister_wait_state, subscribe, register_shutdown_callback.
  intros Hr. destruct (next_subscription (graph h) =? UINT64_MAX), (_ || _); injection Hr as <- <-; simpl;
    rewrite ?andb_false_r; try done.
  intros [Hi Hid]%andb_true_iff Hf Hm. apply negb_true_iff in Hi, Hid. rewrite Hi, Hid. simpl. split.
  - clear -Hf. induction (subscriptions (graph h)) as [|i l IH]; simpl.
    + by rewrite Z.eqb_refl.
    + apply Forall_cons in Hf as [Hi Hf]. rewrite (proj2 (Z.eqb_neq _ _)) by lia. by rewrite IH.
  - unfold unregister_shutdown_callback. rewrite Hid. simpl. apply delete_insert_id.
    destruct (shutdown_children (context h) !! _) eqn:Hl; [|done]. by destruct (Hm _ _ Hl).
Qed.
