(* ===== verification/TargetWait.v ===== *)
(** * TargetWait: the wait for a response target, with its notifications

    [Services.wait_for_target] is a sequence of wake-ups.  This file
    interleaves it with the threads that change what it waits for
    (src/impl/response.hpp): the listener of the response writer, which
    changes [ResponseState] under its mutex, and the discovery graph, whose
    subscriber only calls [notify_all].

    What the listener reports is never missed.  A change of the graph can be:
    the waiter reads the graph before it takes the mutex. *)

From S2P Require Import Prelude Identity Discovery Services.
Local Open Scope Z_scope.

(** Where the waiting thread is. *)
Inductive Waiter :=
  | Reading                       (** about to call [target_status] *)
  | Deciding (status : TargetStatus)  (** about to take the mutex *)
  | Asleep (signalled : bool)     (** in [cv.wait_until]; [signalled] by a [notify_all] *)
  | Ended (result : TargetStatus).

Section Wait.
Context `{!Handles} (reader : GUID_t) (sub : Z).

(** [notifying]: callbacks of the graph that have yet to call
    [notify_dependency_change]. *)
Record TargetWait := MkTargetWait {
  graph : DiscoveryGraph; notifying : nat; response : ResponseState; waiter : Waiter }.

(** One turn of the loop under the mutex, up to the wait. *)
Definition decide_target (status : TargetStatus) (s : ResponseState) : Waiter :=
  if rs_degraded s || bool_decide (status = T_Unavailable) then Ended T_Unavailable
  else if bool_decide (status = T_Removed) then Ended T_Removed
  else if target_ready reader s then Ended T_Ready
  else Asleep false.

Definition signal (w : Waiter) : Waiter := match w with Asleep _ => Asleep true | w => w end.

(** [observe_reader] returns before it locks, or changes the state and
    notifies. *)
Definition reports (handle : InstanceHandle) (change : Z) : bool :=
  isDefined handle && negb (change =? 0) && negb (bool_decide (iHandle2GUID handle = c_Guid_Unknown)).

Inductive target_step : TargetWait -> TargetWait -> Prop :=
  | tw_read g n s :
      target_step (MkTargetWait g n s Reading) (MkTargetWait g n s (Deciding (target_status (Some g) reader)))
  | tw_decide g n s status :
      target_step (MkTargetWait g n s (Deciding status)) (MkTargetWait g n s (decide_target status s))
  | tw_wake g n s signalled :                     (* spurious when not signalled *)
      target_step (MkTargetWait g n s (Asleep signalled)) (MkTargetWait g n s Reading)
  | tw_deadline g n s signalled :
      target_step (MkTargetWait g n s (Asleep signalled)) (MkTargetWait g n s (Ended T_TimedOut))
  | tw_graph op g n s w :
      target_step (MkTargetWait g n s w)
        (MkTargetWait (graph_step op g)
           ((if bool_decide (sub ∈ (graph_exec op g).2.*1) then 1 else 0) + n) s w)
  | tw_notify g n s w : target_step (MkTargetWait g (S n) s w) (MkTargetWait g n s (signal w))
  | tw_observe handle change g n s w :
      reports handle change = true ->
      target_step (MkTargetWait g n s w) (MkTargetWait g n (observe_reader handle change s) (signal w))
  | tw_degrade g n s w :
      target_step (MkTargetWait g n s w) (MkTargetWait g n (degrade_responses s) (signal w)).

Definition wait_begins (x : TargetWait) : Prop := notifying x = 0%nat /\ waiter x = Reading.

(** The state as the mutex protects it has nothing for the waiter. *)
Definition nothing_reported (s : ResponseState) : Prop := rs_degraded s = false /\ target_ready reader s = false.

Lemma decide_target_spec status s :
  match decide_target status s with
  | Asleep signalled => signalled = false /\ nothing_reported s /\ status <> T_Unavailable /\ status <> T_Removed
  | Ended T_Ready => nothing_reported s -> False
  | Ended T_TimedOut | Reading | Deciding _ => False
  | Ended T_Removed => status = T_Removed /\ rs_degraded s = false
  | Ended T_Unavailable => rs_degraded s = true \/ status = T_Unavailable
  end.
Proof.
  unfold decide_target, nothing_reported. destruct (rs_degraded s); simpl; [by left|].
  case_bool_decide; [by right|]. case_bool_decide; [done|]. destruct (target_ready reader s); [by intros [? ?] | done].
Qed.

(** Reported changes find the waiter. *)
Definition target_inv (x : TargetWait) : Prop := waiter x = Asleep false -> nothing_reported (response x).

Lemma target_step_inv x x' : target_inv x -> target_step x x' -> target_inv x'.
Proof.
  unfold target_inv. intros Hi Hstep. destruct Hstep; simpl in *; try done.
  - intros Hw. pose proof (decide_target_spec status s) as Hd. rewrite Hw in Hd. by destruct Hd as (_ & ? & _).
  - by destruct w.
  - by destruct w.
  - by destruct w.
Qed.

(** The thread alone reaches its decision, or sleeps: two steps from any
    point but sleep. *)
Lemma waiter_runs g n s w :
  (forall signalled, w <> Asleep signalled) ->
  exists w', rtc target_step (MkTargetWait g n s w) (MkTargetWait g n s w') /\
    (w' = Asleep false \/ exists t, w' = Ended t).
Proof.
  intros Hw. assert (forall status, exists w', rtc target_step (MkTargetWait g n s (Deciding status)) (MkTargetWait g n s w') /\
    (w' = Asleep false \/ exists t, w' = Ended t)) as Hd.
  { intros status. exists (decide_target status s). split; [apply rtc_once, tw_decide|].
    pose proof (decide_target_spec status s). destruct (decide_target status s); try done; [left; naive_solver | eauto]. }
  destruct w as [|status|b|t]; [| by apply Hd | by destruct (Hw b) | exists (Ended t); eauto using rtc_refl].
  destruct (Hd (target_status (Some g) reader)) as (w' & Hr & ?). exists w'. split; [|done].
  eapply rtc_l; [apply tw_read | exact Hr].
Qed.

(** what the listener of a response writer reports is never missed.  In
    every interleaving, a waiter that sleeps unsignalled has nothing reported
    to it: its state is not degraded and the target has not matched; a waiter
    that is signalled, or not asleep, decides by itself; and a sleeping one
    can always end at its deadline. *)
Theorem reports_reach_waiter x :
  reachable wait_begins target_step x ->
  (waiter x = Asleep false -> nothing_reported (response x)) /\
  (exists w, rtc target_step x (MkTargetWait (graph x) (notifying x) (response x) w) /\
     ((w = Asleep false /\ nothing_reported (response x)) \/ exists t, w = Ended t)) /\
  (forall signalled, waiter x = Asleep signalled ->
     target_step x (MkTargetWait (graph x) (notifying x) (response x) (Ended T_TimedOut))).
Proof.
  intros Hx. assert (target_inv x) as Hi.
  { revert x Hx. apply reachable_invariant; [|apply target_step_inv]. intros s [_ Hs]. unfold target_inv. by rewrite Hs. }
  destruct x as [g n s w]. unfold target_inv in Hi. simpl in *. split_and!.
  - exact Hi.
  - assert (exists w0, rtc target_step (MkTargetWait g n s w) (MkTargetWait g n s w0) /\
      (forall signalled, w0 <> Asleep signalled)) as (w0 & Hr0 & Hw0).
    { destruct w as [|status|b|t]; [by eexists; split; [apply rtc_refl|]..| |by eexists; split; [apply rtc_refl|]].
      exists Reading. split; [apply rtc_once, tw_wake | done]. }
    destruct (waiter_runs g n s w0 Hw0) as (w' & Hr & Hw'). exists w'. split; [by etrans|].
    destruct Hw' as [->|?]; [|by right]. left. split; [done|].
    assert (target_inv (MkTargetWait g n s Reading)) as Hi' by done.
    assert (reachable (fun y => y = MkTargetWait g n s w0) target_step (MkTargetWait g n s (Asleep false))) as Hre.
    { revert Hr. generalize (MkTargetWait g n s (Asleep false)). intros y Hy.
      apply rtc_ind_r with (P := fun y => reachable (fun y => y = MkTargetWait g n s w0) target_step y) in Hy; [done | by apply reach_init|].
      intros; by eapply reach_step. }
    apply (reachable_invariant (fun y => y = MkTargetWait g n s w0) target_step target_inv) in Hre;
      [by apply Hre | | apply target_step_inv].
    intros y ->. unfold target_inv. simpl. intros ->. by destruct (Hw0 false).
  - intros b ->. apply tw_deadline.
Qed.
End Wait.

(** ** Examples *)

Definition target : GUID_t := MkGUID (replicate 12 1) [0; 0; 4; 4].

(** A graph that knows the target, with the subscription of a [ResponseState]. *)
Definition known_target : DiscoveryGraph :=
  graph_step (Op_endpoint target Reader [] [] Added Qos.system_default) (subscribe new_graph).2.
Definition target_removed : DiscoveryGraph :=
  graph_step (Op_endpoint target Reader [] [] Removed Qos.system_default) known_target.

Definition no_reader : ResponseState := MkResponseState false [].

(** The target is removed after the waiter has read the graph and before it
    sleeps: [notify_all] finds nobody.  The waiter sleeps on a target that it
    knows could be removed, nothing is on its way to wake it, and at the
    deadline it reports a timeout in place of the removal. *)
Lemma missed_removal_reachable :
  reachable wait_begins (target_step target 1) (MkTargetWait target_removed 0 no_reader (Asleep false)).
Proof.
  assert (reachable wait_begins (target_step target 1) (MkTargetWait known_target 0 no_reader Reading)) as H
    by by apply reach_init.
  extend H with ltac:(apply tw_read).
  extend H with ltac:(apply (tw_graph target 1 (Op_endpoint target Reader [] [] Removed Qos.system_default))).
  extend H with ltac:(apply tw_notify).
  extend H with ltac:(apply tw_decide). exact H.
Qed.

Example removal_missed :
  reachable wait_begins (target_step target 1) (MkTargetWait target_removed 0 no_reader (Asleep false)) /\
  check_target (Some target_removed) target no_reader = T_Removed /\
  target_step target 1 (MkTargetWait target_removed 0 no_reader (Asleep false))
    (MkTargetWait target_removed 0 no_reader (Ended T_TimedOut)).
Proof. split_and!; [exact missed_removal_reachable | reflexivity | apply tw_deadline]. Qed.

Lemma reports_reach_waiter_witness : nothing_reported target no_reader.
Proof.
  apply (reports_reach_waiter target 1 (MkTargetWait target_removed 0 no_reader (Asleep false)) missed_removal_reachable).
  reflexivity.
Defined.
