(* ===== verification/Entities.v ===== *)
(** * Entities: the life of a native entity behind its leases

    Python objects of dclpy share a native entity through an [EntityBacking]
    (src/dclpy/src/entity.hpp): work on the entity holds a lease, closing only
    stops new leases, and whoever gives back the last one destroys the
    resource.

    The methods are functions between the critical sections of the backing's
    mutex.  [entity_step] interleaves them for any number of threads: what a
    thread still has to do after a section is counted in the state, and the
    threads in [wait_operations] and [wait_closed] are listed with whether
    [notify_all] has reached them. *)

From S2P Require Import Prelude.
Local Open Scope nat_scope.

(** ** Exceptions (error.hpp) *)

Inductive Exception :=
  | MiddlewareFailure (error : Error)
  | EntityClosed
  | ContextShutdown.

#[export] Instance Exception_eq_dec : EqDecision Exception.
Proof. solve_decision. Defined.

(** A call returns a value or throws. *)
Notation Throws A := (A + Exception)%type.

Definition unwrap {A} (result : Result A) : Throws A :=
  match result with success value => inl value | failure error => inr (MiddlewareFailure error) end.

Definition throw {A} (code : ErrorCode) (message : string) : Throws A := inr (MiddlewareFailure (MkError code message)).

(** ** EntityBacking *)

Inductive EntityState := Open | Closing | Closed.
Inductive LeaseKind := Operation | Dispatch | Work.

#[export] Instance EntityState_eq_dec : EqDecision EntityState.
Proof. solve_decision. Defined.
#[export] Instance LeaseKind_eq_dec : EqDecision LeaseKind.
Proof. solve_decision. Defined.

Section Backing.
Context {T : Type}.

Record EntityBacking := MkBacking {
  state : EntityState; resource : option T; refs : LeaseKind -> nat;
  executor_registered : bool; destroy_started : bool }.

Definition new_backing (value : T) : EntityBacking := MkBacking Open (Some value) (fun _ => 0) false false.

Definition with_refs (b : EntityBacking) (r : LeaseKind -> nat) : EntityBacking :=
  MkBacking (state b) (resource b) r (executor_registered b) (destroy_started b).
Definition with_state (b : EntityBacking) (s : EntityState) : EntityBacking :=
  MkBacking s (resource b) (refs b) (executor_registered b) (destroy_started b).
Definition with_registered (b : EntityBacking) (v : bool) : EntityBacking :=
  MkBacking (state b) (resource b) (refs b) v (destroy_started b).

Definition add_ref (kind : LeaseKind) (b : EntityBacking) : EntityBacking :=
  with_refs b (fun k => if decide (k = kind) then S (refs b k) else refs b k).

(** [operation], [dispatch] and [work]; [admitted] is [admission.open]. *)
Definition acquire (admitted : bool) (kind : LeaseKind) (b : EntityBacking) : Throws EntityBacking :=
  if negb admitted then inr ContextShutdown
  else if decide (state b = Open) then inl (add_ref kind b) else inr EntityClosed.

(** [prepare_operation]: what [prepare] makes of the resource, under the same
    locks. *)
Definition prepare_operation {A} (admitted : bool) (prepare : T -> Throws A) (b : EntityBacking) : Throws (A * EntityBacking) :=
  if negb admitted then inr ContextShutdown
  else if decide (state b = Open) then
    match resource b with
    | Some value => match prepare value with inl token => inl (token, add_ref Operation b) | inr e => inr e end
    | None => inr EntityClosed
    end
  else inr EntityClosed.

Definition derive_work (b : EntityBacking) : Throws EntityBacking :=
  if (refs b Work =? 0) || destroy_started b then inr EntityClosed else inl (add_ref Work b).

(** The section of [release]; [None] is [std::terminate]. *)
Definition release (kind : LeaseKind) (b : EntityBacking) : option EntityBacking :=
  match refs b kind with
  | O => None
  | S n => Some (with_refs b (fun k => if decide (k = kind) then n else refs b k))
  end.

(** The section of [set_registered]. *)
Definition set_registered (value : bool) (b : EntityBacking) : Throws EntityBacking :=
  if value && bool_decide (state b <> Open) then inr EntityClosed
  else if value && executor_registered b then throw AlreadyRegistered "Entity already belongs to a WaitSet"
  else inl (with_registered b value).

Definition no_refs (b : EntityBacking) : bool :=
  (refs b Operation =? 0) && (refs b Dispatch =? 0) && (refs b Work =? 0).

Definition quiescent (b : EntityBacking) : bool := no_refs b.

(** The section of [close]: [None] when it returns at once.  The interrupt
    hook sees the resource, which stays. *)
Definition close (b : EntityBacking) : option EntityBacking :=
  if decide (state b = Open) then Some (with_state b Closing) else None.

(** The first section of [try_finalize]: the resource to destroy. *)
Definition try_finalize (b : EntityBacking) : option (option T * EntityBacking) :=
  if bool_decide (state b <> Closing) || destroy_started b || executor_registered b || negb (no_refs b) then None
  else Some (resource b, MkBacking (state b) None (refs b) (executor_registered b) true).

(** Its second section. *)
Definition finalized (b : EntityBacking) : EntityBacking := with_state b Closed.

(** The predicates of [wait_operations] and [wait_closed]. *)
Inductive WaitFor := W_operations | W_closed.

Definition holds (w : WaitFor) (b : EntityBacking) : bool :=
  match w with W_operations => refs b Operation =? 0 | W_closed => bool_decide (state b = Closed) end.

(** ** Interleaved *)

(** [leases]: the leases that exist.  Threads between two sections: [released]
    have yet to notify and then to finalize, [finalizing] to call
    [try_finalize], [destroying] to destroy the resource they took,
    [finishing] to set [Closed], [closed_calls] to notify.  [destroyed] lists
    the resources that are gone. *)
Record EntityRun := MkEntityRun {
  backing : EntityBacking; leases : list LeaseKind;
  released : nat; finalizing : nat; destroying : list (option T); finishing : nat; closed_calls : nat;
  destroyed : list T; waiters : list (WaitFor * bool) }.

Definition new_entity (value : T) : EntityRun := MkEntityRun (new_backing value) [] 0 0 [] 0 0 [] [].

(** [close()], up to its [try_finalize]. *)
Definition close_entity (e : EntityRun) : option EntityRun :=
  match close (backing e) with
  | Some b => Some (MkEntityRun b (leases e) (released e) (S (finalizing e)) (destroying e) (finishing e)
                      (closed_calls e) (destroyed e) (waiters e))
  | None => None
  end.

Definition notify_all (l : list (WaitFor * bool)) : list (WaitFor * bool) := (fun w => (w.1, true)) <$> l.

(** What a thread does next without a caller: the ends of [release], [close],
    [set_registered] and [try_finalize]. *)
Inductive internal_step : EntityRun -> EntityRun -> Prop :=
  | is_release_notifies b l r f d e c x w :
      internal_step (MkEntityRun b l (S r) f d e c x w) (MkEntityRun b l r (S f) d e c x (notify_all w))
  | is_nothing_to_finalize b l r f d e c x w :
      try_finalize b = None ->
      internal_step (MkEntityRun b l r (S f) d e c x w) (MkEntityRun b l r f d e c x w)
  | is_finalize b b' value l r f d e c x w :
      try_finalize b = Some (value, b') ->
      internal_step (MkEntityRun b l r (S f) d e c x w) (MkEntityRun b' l r f (value :: d) e c x w)
  | is_destroy b l r f d1 value d2 e c x w :
      internal_step (MkEntityRun b l r f (d1 ++ value :: d2) e c x w)
        (MkEntityRun b l r f (d1 ++ d2) (S e) c (x ++ option_list value) w)
  | is_finish b l r f d e c x w :
      internal_step (MkEntityRun b l r f d (S e) c x w) (MkEntityRun (finalized b) l r f d e (S c) x w)
  | is_closed_notifies b l r f d e c x w :
      internal_step (MkEntityRun b l r f d e (S c) x w) (MkEntityRun b l r f d e c x (notify_all w)).

Inductive entity_step (admitted : bool) : EntityRun -> EntityRun -> Prop :=
  | es_internal s s' : internal_step s s' -> entity_step admitted s s'
  | es_acquire kind b b' l r f d e c x w :
      acquire admitted kind b = inl b' ->
      entity_step admitted (MkEntityRun b l r f d e c x w) (MkEntityRun b' (kind :: l) r f d e c x w)
  | es_derive b b' l r f d e c x w :
      Work ∈ l -> derive_work b = inl b' ->         (* the source keeps its lease *)
      entity_step admitted (MkEntityRun b l r f d e c x w) (MkEntityRun b' (Work :: l) r f d e c x w)
  | es_release kind b b' l1 l2 r f d e c x w :
      release kind b = Some b' ->
      entity_step admitted (MkEntityRun b (l1 ++ kind :: l2) r f d e c x w) (MkEntityRun b' (l1 ++ l2) (S r) f d e c x w)
  | es_set_registered value b b' l r f d e c x w :
      set_registered value b = inl b' ->
      entity_step admitted (MkEntityRun b l r f d e c x w) (MkEntityRun b' l r (S f) d e c x w)
  | es_close b b' l r f d e c x w :
      close b = Some b' ->
      entity_step admitted (MkEntityRun b l r f d e c x w) (MkEntityRun b' l r (S f) d e c x w)
  | es_wait what b l r f d e c x w :
      holds what b = false ->
      entity_step admitted (MkEntityRun b l r f d e c x w) (MkEntityRun b l r f d e c x ((what, false) :: w))
  | es_wake_returns what signalled b l r f d e c x w1 w2 :
      holds what b = true ->
      entity_step admitted (MkEntityRun b l r f d e c x (w1 ++ (what, signalled) :: w2)) (MkEntityRun b l r f d e c x (w1 ++ w2))
  | es_wake_sleeps what signalled b l r f d e c x w1 w2 :
      holds what b = false ->
      entity_step admitted (MkEntityRun b l r f d e c x (w1 ++ (what, signalled) :: w2))
        (MkEntityRun b l r f d e c x (w1 ++ (what, false) :: w2))
  | es_deadline what signalled b l r f d e c x w1 w2 :
      entity_step admitted (MkEntityRun b l r f d e c x (w1 ++ (what, signalled) :: w2)) (MkEntityRun b l r f d e c x (w1 ++ w2)).

(** The Context may stop admitting at any time. *)
Inductive shared_step : bool * EntityRun -> bool * EntityRun -> Prop :=
  | ss_entity admitted s s' : entity_step admitted s s' -> shared_step (admitted, s) (admitted, s')
  | ss_stop_admission admitted s : shared_step (admitted, s) (false, s).
End Backing.
Arguments EntityBacking T : clear implicits.
Arguments EntityRun T : clear implicits.

(** ** The invariant *)

Section Invariant.
Context {T : Type} (value : T).

(** How far the destruction has come. *)
Definition finalization (s : EntityRun T) : Prop :=
  if destroy_started (backing s) then
    no_refs (backing s) = true /\ executor_registered (backing s) = false /\ resource (backing s) = None /\
    ((state (backing s) = Closing /\ destroying s = [Some value] /\ finishing s = 0 /\ destroyed s = [] /\ closed_calls s = 0) \/
     (state (backing s) = Closing /\ destroying s = [] /\ finishing s = 1 /\ destroyed s = [value] /\ closed_calls s = 0) \/
     (state (backing s) = Closed /\ destroying s = [] /\ finishing s = 0 /\ destroyed s = [value]))
  else
    state (backing s) <> Closed /\ resource (backing s) = Some value /\
    destroying s = [] /\ finishing s = 0 /\ destroyed s = [] /\ closed_calls s = 0.

(** Closing, with nothing that holds the resource. *)
Definition to_finalize (b : EntityBacking T) : bool :=
  bool_decide (state b = Closing) && negb (destroy_started b) && negb (executor_registered b) && no_refs b.

Definition asleep_in_vain (what : WaitFor) (s : EntityRun T) : Prop :=
  (what, false) ∈ waiters s /\ holds what (backing s) = true.

Record entity_inv (s : EntityRun T) : Prop := {
  ei_refs : forall k, refs (backing s) k = count_occ LeaseKind_eq_dec (leases s) k;
  ei_finalization : finalization s;
  ei_finalizer : to_finalize (backing s) = true -> released s + finalizing s > 0;
  ei_operations : asleep_in_vain W_operations s -> released s > 0;
  ei_closed : asleep_in_vain W_closed s -> closed_calls s > 0 }.

Lemma to_finalize_spec b : to_finalize b = true <-> try_finalize b = Some (resource b, MkBacking (state b) None (refs b) (executor_registered b) true).
Proof.
  unfold to_finalize, try_finalize. destruct (state b), (destroy_started b), (executor_registered b), (no_refs b); simpl; split; done.
Qed.

Lemma try_finalize_spec b r b' :
  try_finalize b = Some (r, b') ->
  to_finalize b = true /\ r = resource b /\ b' = MkBacking (state b) None (refs b) (executor_registered b) true.
Proof.
  intros H. assert (to_finalize b = true) as Ht.
  { unfold to_finalize, try_finalize in *. destruct (state b), (destroy_started b), (executor_registered b), (no_refs b); done. }
  split; [done|]. apply to_finalize_spec in Ht. rewrite Ht in H. by injection H as <- <-.
Qed.

Lemma notified_awake what (l : list (WaitFor * bool)) : (what, false) ∉ notify_all l.
Proof. unfold notify_all. rewrite list_elem_of_fmap. intros ([] & [=] & _). Qed.

Lemma no_refs_spec (b : EntityBacking T) : no_refs b = true <-> forall k, refs b k = 0.
Proof.
  unfold no_refs. rewrite !andb_true_iff, !Nat.eqb_eq. split; [intros [[? ?] ?] []; done | intros H; by rewrite !H].
Qed.

Lemma count_middle (k kind : LeaseKind) l1 l2 :
  count_occ LeaseKind_eq_dec (l1 ++ kind :: l2) k =
  count_occ LeaseKind_eq_dec (l1 ++ l2) k + (if decide (k = kind) then 1 else 0).
Proof.
  rewrite !count_occ_app. simpl. destruct (LeaseKind_eq_dec kind k), (decide (k = kind)); congruence || lia.
Qed.

Lemma acquire_inl admitted kind (b b' : EntityBacking T) :
  acquire admitted kind b = inl b' -> admitted = true /\ state b = Open /\ b' = add_ref kind b.
Proof. unfold acquire. destruct admitted; [|done]. simpl. case_decide; [|done]. by intros [= <-]. Qed.

Lemma derive_work_spec (b b' : EntityBacking T) :
  derive_work b = inl b' -> 0 < refs b Work /\ destroy_started b = false /\ b' = add_ref Work b.
Proof.
  unfold derive_work. destruct (Nat.eqb_spec (refs b Work) 0); [done|]. destruct (destroy_started b); [done|].
  intros [= <-]. split_and!; [lia | done | done].
Qed.

Lemma release_spec kind (b b' : EntityBacking T) :
  release kind b = Some b' ->
  0 < refs b kind /\ b' = with_refs b (fun k => if decide (k = kind) then refs b kind - 1 else refs b k).
Proof.
  unfold release. destruct (refs b kind) as [|n] eqn:Hn; [done|]. intros [= <-]. split; [lia|].
  unfold with_refs. by rewrite Nat.sub_succ, Nat.sub_0_r.
Qed.

Lemma set_registered_spec v (b b' : EntityBacking T) :
  set_registered v b = inl b' ->
  b' = with_registered b v /\ (v = true -> state b = Open /\ executor_registered b = false).
Proof.
  unfold set_registered. destruct v; simpl; [|by intros [= <-]].
  case_bool_decide as Hs; [done|]. destruct (executor_registered b); [done|]. intros [= <-].
  split; [done|]. intros _. split; [|done]. destruct (state b); try done; by destruct Hs.
Qed.

Lemma close_Some (b b' : EntityBacking T) : close b = Some b' -> state b = Open /\ b' = with_state b Closing.
Proof. unfold close. case_decide; [|done]. by intros [= <-]. Qed.

Ltac split_inv H := destruct H as [Hrefs Hfin Hgo Hops Hcl]; simpl in *.

(** Sleepers: those that were there, unless [notify_all] reached them. *)
Lemma asleep_cons (what what' : WaitFor) (b : bool) (s : list (WaitFor * bool)) :
  (what, false) ∈ (what', b) :: s -> (what = what' /\ b = false) \/ (what, false) ∈ s.
Proof. intros [[= -> <-]|?]%elem_of_cons; auto. Qed.

Lemma internal_step_inv s s' : entity_inv s -> internal_step s s' -> entity_inv s'.
Proof.
  intros Hi Hstep. destruct Hstep; split_inv Hi; split; simpl; try done.
  - intros H. specialize (Hgo H). lia.
  - by intros [?%notified_awake _].
  - by intros [?%notified_awake _].
  - intros Ht. apply to_finalize_spec in Ht. congruence.
  - apply try_finalize_spec in H as (Ht & -> & ->). done.
  - apply try_finalize_spec in H as (Ht & -> & ->). unfold to_finalize, finalization in *. simpl in *.
    destruct (destroy_started b); [rewrite !andb_false_r in Ht; simpl in Ht; by rewrite ?andb_false_r in Ht|].
    rewrite !andb_true_iff, bool_decide_eq_true, negb_true_iff in Ht. destruct Ht as [[[Hs _] Hr] Hn].
    destruct Hfin as (_ & Hres & -> & -> & -> & ->). rewrite Hres. apply negb_true_iff in Hr. split_and!; auto 10.
  - apply try_finalize_spec in H as (_ & -> & ->). unfold to_finalize. simpl. by rewrite !andb_false_r.
  - apply try_finalize_spec in H as (Ht & -> & ->). done.
  - apply try_finalize_spec in H as (Ht & -> & ->). done.
  - unfold finalization in *. simpl in *. destruct (destroy_started b).
    + destruct Hfin as (? & ? & ? & [(? & Hd & -> & -> & ->)|[(? & Hd & _)|(? & Hd & _)]]); [| by destruct d1..].
      destruct d1 as [|? [|]]; simplify_eq/=. split_and!; auto 10.
    + destruct Hfin as (_ & _ & Hd & _). by destruct d1.
  - unfold finalization in *. simpl in *. destruct (destroy_started b).
    + destruct Hfin as (? & ? & ? & [(? & ? & [=] & _)|[(? & -> & [= ->] & -> & ->)|(? & ? & [=] & _)]]).
      split_and!; auto 10.
    + by destruct Hfin as (_ & _ & _ & [=] & _).
  - intros _. lia.
  - unfold finalization in *. simpl in *. destruct (destroy_started b).
    + destruct Hfin as (? & ? & ? & [(? & ? & ? & ? & [=])|[(? & ? & ? & ? & [=])|?]]). split_and!; auto 10.
    + by destruct Hfin as (_ & _ & _ & _ & _ & [=]).
  - by intros [?%notified_awake _].
  - by intros [?%notified_awake _].
Qed.

(** A change of the backing that leaves the destruction where it is. *)
Lemma change_inv b b' l l' r r' f f' d e c x w :
  entity_inv (MkEntityRun b l r f d e c x w) ->
  destroy_started b' = destroy_started b -> resource b' = resource b ->
  (state b' = state b \/ (state b = Open /\ state b' = Closing)) ->
  (forall k, refs b' k = count_occ LeaseKind_eq_dec l' k) ->
  (destroy_started b = true -> no_refs b' = true /\ executor_registered b' = false /\ state b <> Open) ->
  r <= r' -> f <= f' ->
  (to_finalize b' = true -> to_finalize b = true \/ r' + f' > 0) ->
  (refs b' Operation = 0 -> refs b Operation = 0 \/ r' > 0) ->
  entity_inv (MkEntityRun b' l' r' f' d e c x w).
Proof.
  intros Hi Hd Hv Hs Hr Hdes Hrr Hff Ht Ho. split_inv Hi. split; simpl; [done| | | |].
  - unfold finalization in *. simpl in *. rewrite Hd, Hv. destruct (destroy_started b).
    + destruct (Hdes eq_refl) as (? & ? & ?). destruct Hfin as (_ & _ & ? & Hfin). destruct Hs as [Hs|[? _]]; [|done].
      rewrite Hs. by split_and!.
    + destruct Hs as [Hs|[_ Hs]]; rewrite Hs; [done|]. destruct Hfin as [_ Hfin]. by split.
  - intros H. destruct (Ht H) as [H'|H']; [specialize (Hgo H'); lia | lia].
  - intros [Hw Hh]. simpl in *. apply Nat.eqb_eq in Hh. destruct (Ho Hh) as [Hh'|?]; [|done].
    enough (r > 0) by lia. apply Hops. split; simpl; [done | by apply Nat.eqb_eq].
  - intros [Hw Hh]. simpl in *. apply bool_decide_eq_true in Hh. destruct Hs as [Hs|[_ Hs]]; [|congruence].
    apply Hcl. split; simpl; [done|]. apply bool_decide_eq_true. congruence.
Qed.

(** A thread begins, resumes or ends its wait. *)
Lemma waiters_inv b l r f d e c x w w' :
  entity_inv (MkEntityRun b l r f d e c x w) ->
  (forall what, (what, false) ∈ w' -> (what, false) ∈ w \/ holds what b = false) ->
  entity_inv (MkEntityRun b l r f d e c x w').
Proof.
  intros Hi Hw. split_inv Hi. split; simpl; try done.
  - intros [Hin Hh]. apply Hops. destruct (Hw _ Hin); [by split | simpl in *; congruence].
  - intros [Hin Hh]. apply Hcl. destruct (Hw _ Hin); [by split | simpl in *; congruence].
Qed.

Lemma refs_destroyed b l r f d e c x w :
  entity_inv (MkEntityRun b l r f d e c x w) -> destroy_started b = true ->
  (forall k, refs b k = 0) /\ executor_registered b = false /\ state b <> Open.
Proof.
  intros Hi Hd. split_inv Hi. unfold finalization in Hfin. simpl in Hfin. rewrite Hd in Hfin.
  destruct Hfin as (Hn & ? & _ & Hp). split; [by apply no_refs_spec|]. split; [done|].
  destruct Hp as [(Hs & _)|[(Hs & _)|(Hs & _)]]; congruence.
Qed.

Lemma entity_step_inv admitted s s' : entity_inv s -> entity_step admitted s s' -> entity_inv s'.
Proof.
  intros Hi Hstep. destruct Hstep as [s s' Hint|kind b b' l r f d e c x w H|b b' l r f d e c x w Hl H|
    kind b b' l1 l2 r f d e c x w H|v b b' l r f d e c x w H|b b' l r f d e c x w H|what b l r f d e c x w Hh|
    what g b l r f d e c x w1 w2 Hh|what g b l r f d e c x w1 w2 Hh|what g b l r f d e c x w1 w2].
  - by eapply internal_step_inv.
  - apply acquire_inl in H as (_ & Hs & ->). pose proof (ei_refs _ Hi) as Hr. simpl in Hr.
    eapply change_inv; [exact Hi | done | done | by left | | | lia | lia | |]; simpl.
    + intros k. rewrite <- Hr. destruct (LeaseKind_eq_dec kind k), (decide (k = kind)); congruence.
    + intros Hd. by destruct (refs_destroyed _ _ _ _ _ _ _ _ _ Hi Hd) as (_ & _ & ?).
    + unfold to_finalize. simpl. by rewrite bool_decide_eq_false_2 by congruence.
    + intros. left. by case_decide.
  - apply derive_work_spec in H as (Hw & Hd & ->). pose proof (ei_refs _ Hi) as Hr. simpl in Hr.
    eapply change_inv; [exact Hi | done | done | by left | | congruence | lia | lia | |]; simpl.
    + intros k. rewrite <- Hr. by destruct k.
    + unfold to_finalize. simpl. intros H. apply andb_true_iff in H as [_ H]. rewrite no_refs_spec in H. by specialize (H Work).
    + auto.
  - apply release_spec in H as (Hk & ->). pose proof (ei_refs _ Hi) as Hr. simpl in Hr.
    eapply change_inv; [exact Hi | done | done | by left | | | lia | lia | intros; right; lia | intros; right; lia]; simpl.
    + intros k. specialize (Hr k). rewrite count_middle in Hr. case_decide; subst; lia.
    + intros Hd. pose proof (proj1 (refs_destroyed _ _ _ _ _ _ _ _ _ Hi Hd) kind). lia.
  - apply set_registered_spec in H as [-> Hv]. pose proof (ei_refs _ Hi) as Hr. simpl in Hr.
    eapply change_inv; [exact Hi | done | done | by left | done | | lia | lia | intros; right; lia | auto]; simpl.
    intros Hd. destruct (refs_destroyed _ _ _ _ _ _ _ _ _ Hi Hd) as (Hz & _ & Hs). split; [by apply no_refs_spec|].
    split; [|done]. destruct v; [|done]. by destruct (Hv eq_refl).
  - apply close_Some in H as [Hs ->]. pose proof (ei_refs _ Hi) as Hr. simpl in Hr.
    eapply change_inv; [exact Hi | done | done | by right | done | | lia | lia | intros; right; lia | auto]; simpl.
    intros Hd. by destruct (refs_destroyed _ _ _ _ _ _ _ _ _ Hi Hd) as (_ & _ & ?).
  - eapply waiters_inv; [exact Hi|]. intros what' [[-> _]|?]%asleep_cons; auto.
  - eapply waiters_inv; [exact Hi|]. intros what' ?. left. apply elem_of_middle. auto.
  - eapply waiters_inv; [exact Hi|]. intros what' [[= ->]|?]%elem_of_middle; [by right|]. left. apply elem_of_middle. auto.
  - eapply waiters_inv; [exact Hi|]. intros what' ?. left. apply elem_of_middle. auto.
Qed.

Definition created (x : bool * EntityRun T) : Prop := x = (true, new_entity value).

Lemma reachable_entity_inv x : reachable created shared_step x -> entity_inv x.2.
Proof.
  apply (reachable_invariant created shared_step (fun x => entity_inv x.2)).
  - intros s ->. split; simpl; try done.
    + intros [Hw _]. by apply elem_of_nil in Hw.
    + intros [Hw _]. by apply elem_of_nil in Hw.
  - intros s s' Hi Hstep. destruct Hstep; simpl in *; [by eapply entity_step_inv | done].
Qed.
End Invariant.

(** ** What the backing promises *)

(** The steps left to the threads that are between two sections. *)
Definition pending {T} (s : EntityRun T) : nat :=
  6 * released s + 5 * finalizing s + 4 * length (destroying s) + 3 * finishing s + closed_calls s.

Lemma internal_step_pending {T} (s s' : EntityRun T) : internal_step s s' -> pending s' < pending s.
Proof. unfold pending. destruct 1; simpl; rewrite ?length_app; simpl; lia. Qed.

Lemma internal_run_bounded {T} n (s s' : EntityRun T) : nsteps internal_step n s s' -> n <= pending s.
Proof.
  induction 1 as [|n s1 s2 s3 Hstep _ IH]; [lia|]. apply internal_step_pending in Hstep. lia.
Qed.

(** A thread that is not done can go on. *)
Lemma internal_step_enabled {T} (s : EntityRun T) :
  (forall s', ~ internal_step s s') ->
  released s = 0 /\ finalizing s = 0 /\ destroying s = [] /\ finishing s = 0 /\ closed_calls s = 0.
Proof.
  destruct s as [b l r f d e c x w]. simpl. intros H. split_and!.
  - destruct r; [done|]. edestruct H. apply is_release_notifies.
  - destruct f; [done|]. destruct (try_finalize b) as [[v b']|] eqn:Hf; edestruct H;
      [by apply is_finalize | by apply is_nothing_to_finalize].
  - destruct d as [|v d]; [done|]. edestruct H. apply (is_destroy b l r f [] v d).
  - destruct e; [done|]. edestruct H. apply is_finish.
  - destruct c; [done|]. edestruct H. apply is_closed_notifies.
Qed.

Lemma internal_step_keeps {T} (s s' : EntityRun T) :
  internal_step s s' ->
  leases s' = leases s /\ executor_registered (backing s') = executor_registered (backing s) /\
  (state (backing s) <> Open -> state (backing s') <> Open).
Proof. destruct 1; simpl; try done. apply try_finalize_spec in H as (_ & _ & ->). done. Qed.

Lemma internal_run_keeps {T} (s s' : EntityRun T) :
  rtc internal_step s s' ->
  leases s' = leases s /\ executor_registered (backing s') = executor_registered (backing s) /\
  (state (backing s) <> Open -> state (backing s') <> Open).
Proof.
  induction 1 as [|s1 s2 s3 Hstep _ (Hl & Hr & Hs)]; [done|].
  apply internal_step_keeps in Hstep as (? & ? & ?). split_and!; [congruence | congruence | auto].
Qed.

Lemma internal_run_shared {T} admitted (s s' : EntityRun T) :
  rtc internal_step s s' -> rtc shared_step (admitted, s) (admitted, s').
Proof. induction 1; [done|]. eapply rtc_l; [|done]. by apply ss_entity, es_internal. Qed.

Lemma reachable_rtc {S} (init : S -> Prop) step s s' :
  reachable init step s -> rtc step s s' -> reachable init step s'.
Proof. intros Hs Hr. induction Hr; [done|]. apply IHHr. by eapply reach_step. Qed.

Definition in_use {T} (s : EntityRun T) : Prop := leases s <> [] \/ executor_registered (backing s) = true.

Lemma finalization_in_use {T} (value : T) s :
  entity_inv value s -> in_use s ->
  destroy_started (backing s) = false.
Proof.
  intros Hi Hu. destruct (destroy_started (backing s)) eqn:Hd; [|done]. exfalso.
  destruct s as [b l r f d e c x w]. destruct (refs_destroyed _ _ _ _ _ _ _ _ _ _ Hi Hd) as (Hz & Hr & _).
  destruct Hu as [Hu|Hu]; simpl in *; [|congruence]. apply Hu.
  pose proof (ei_refs _ _ Hi) as Hrefs. simpl in Hrefs. apply (count_occ_inv_nil LeaseKind_eq_dec). intros k.
  by rewrite <- Hrefs.
Qed.

Lemma entity_inv_closed {T} (value : T) s :
  entity_inv value s -> state (backing s) = Closed -> destroyed s = [value] /\ ~ in_use s.
Proof.
  intros Hi Hs. pose proof (ei_finalization _ _ Hi) as Hf. unfold finalization in Hf.
  destruct (destroy_started (backing s)) eqn:Hd; [|by destruct Hf as [? _]]. split.
  - destruct Hf as (_ & _ & _ & [(? & _)|[(? & _)|(_ & _ & _ & ?)]]); congruence.
  - intros Hu. pose proof (finalization_in_use _ _ Hi Hu). congruence.
Qed.

(** C1: the resource outlives its leases and its registration, in every
    interleaving: while there is a lease, or a WaitSet holds the entity, the
    resource is in place and every lease can be given back.  It is destroyed
    at most once, and the entity is Closed only after it is gone, when there
    is neither a lease nor a registration. *)
Theorem resource_outlives_leases {T} (value : T) admitted s :
  reachable (created value) shared_step (admitted, s) ->
  (in_use s -> resource (backing s) = Some value /\ destroyed s = [] /\ state (backing s) <> Closed) /\
  (forall kind, kind ∈ leases s -> release kind (backing s) <> None) /\
  (destroyed s = [] \/ destroyed s = [value]) /\
  (state (backing s) = Closed -> destroyed s = [value] /\ ~ in_use s).
Proof.
  intros Hi%reachable_entity_inv. simpl in Hi. split_and!.
  - intros Hu. pose proof (ei_finalization _ _ Hi) as Hf. unfold finalization in Hf.
    rewrite (finalization_in_use _ _ Hi Hu) in Hf. destruct Hf as (? & ? & _ & _ & ? & _). done.
  - intros k Hk. unfold release. rewrite (ei_refs _ _ Hi). apply list_elem_of_In, (count_occ_In LeaseKind_eq_dec) in Hk.
    destruct (count_occ LeaseKind_eq_dec (leases s) k); [lia | done].
  - pose proof (ei_finalization _ _ Hi) as Hf. unfold finalization in Hf. destruct (destroy_started (backing s)).
    + destruct Hf as (_ & _ & _ & [(_ & _ & _ & ? & _)|[(_ & _ & _ & ? & _)|(_ & _ & _ & ?)]]); auto.
    + left. by destruct Hf as (_ & _ & _ & _ & ? & _).
  - by apply entity_inv_closed.
Qed.

(** An entity that is closing, that nobody uses and for which no thread has
    anything left to do is Closed. *)
Lemma idle_closed {T} (value : T) s :
  entity_inv value s -> state (backing s) <> Open -> ~ in_use s -> pending s = 0 -> state (backing s) = Closed.
Proof.
  intros Hi Hs Hu Hp. unfold pending in Hp.
  assert (executor_registered (backing s) = false) as Hr
    by (destruct (executor_registered (backing s)) eqn:E; [|done]; by destruct Hu; right).
  assert (leases s = []) as Hl by (destruct (leases s) eqn:E; [done|]; destruct Hu; left; by rewrite E).
  pose proof (ei_finalization _ _ Hi) as Hf. unfold finalization in Hf. destruct (destroy_started (backing s)) eqn:Hd.
  - destruct Hf as (_ & _ & _ & [(_ & Hx & _)|[(_ & _ & Hx & _)|(Hc & _)]]); [rewrite Hx in Hp; simpl in Hp; lia | lia | done].
  - pose proof (ei_finalizer _ _ Hi) as Hgo. unfold to_finalize in Hgo. rewrite Hd, Hr in Hgo.
    rewrite (proj2 (no_refs_spec _)), bool_decide_eq_true_2 in Hgo.
    + specialize (Hgo eq_refl). lia.
    + destruct Hf as [Hf _]. by destruct (state (backing s)).
    + intros k. by rewrite (ei_refs _ _ Hi), Hl.
Qed.

(** closing completes.  Once an entity is closing and the last lease and
    registration are gone, the threads that were giving them back finish by
    themselves, in a bounded number of steps and in any order: the resource
    has been destroyed, the entity is Closed, and nobody sleeps on in
    [wait_closed] or [wait_operations]. *)
Theorem close_completes {T} (value : T) admitted s :
  reachable (created value) shared_step (admitted, s) ->
  state (backing s) <> Open -> ~ in_use s ->
  (forall n s', nsteps internal_step n s s' -> n <= pending s) /\
  (forall s', rtc internal_step s s' -> (forall s'', ~ internal_step s' s'') ->
     state (backing s') = Closed /\ destroyed s' = [value] /\ resource (backing s') = None /\
     forall what, (what, false) ∉ waiters s').
Proof.
  intros Hx Hs Hu. split; [intros n s'; apply internal_run_bounded|]. intros s' Hrun Hend.
  pose proof (internal_run_keeps _ _ Hrun) as (Hl & Hr & Ho).
  assert (reachable (created value) shared_step (admitted, s')) as Hi
    by (eapply reachable_rtc; [exact Hx | by apply internal_run_shared]).
  apply reachable_entity_inv in Hi. simpl in Hi.
  apply internal_step_enabled in Hend as (H1 & H2 & H3 & H4 & H5).
  assert (leases s' = []) as Hl' by (destruct (leases s') as [|k l] eqn:E; [done|]; destruct Hu; left; rewrite <- Hl; congruence).
  assert (executor_registered (backing s') = false) as Hr'
    by (destruct (executor_registered (backing s')) eqn:E; [|done]; destruct Hu; right; congruence).
  assert (forall k, refs (backing s') k = 0) as Hz by (intros k; by rewrite (ei_refs _ _ Hi), Hl').
  assert (~ in_use s') as Hu' by (intros [?|?]; congruence).
  assert (state (backing s') = Closed) as Hc
    by (apply (idle_closed value); [done | auto | done | unfold pending; rewrite H1, H2, H3, H4, H5; done]).
  pose proof (ei_finalization _ _ Hi) as Hf. unfold finalization in Hf.
  destruct (destroy_started (backing s')); [|by destruct Hf as [Hf _]].
  destruct Hf as (_ & _ & Hn & [(? & _)|[(? & _)|(_ & _ & _ & ?)]]); [congruence..|]. split_and!; [done..|].
  intros [] Hw.
  - apply (Nat.nlt_0_r 0). rewrite <- H1 at 2. apply (ei_operations _ _ Hi). split; [done|]. simpl. by rewrite Hz.
  - apply (Nat.nlt_0_r 0). rewrite <- H5 at 2. apply (ei_closed _ _ Hi). split; [done|]. simpl. by apply bool_decide_eq_true.
Qed.

(** After [close], or once the Context has stopped admitting, no thread gets a
    lease for new work; only work derives more work. *)
Lemma no_new_work {T} admitted (s s' : EntityRun T) kind :
  entity_step admitted s s' -> admitted = false \/ state (backing s) <> Open -> kind <> Work ->
  count_occ LeaseKind_eq_dec (leases s') kind <= count_occ LeaseKind_eq_dec (leases s) kind.
Proof.
  destruct 1 as [? ? Hs| | | | | | | | | ]; simpl; intros Hc Hk; try done.
  - apply internal_step_keeps in Hs as (-> & _). done.
  - apply acquire_inl in H as (? & ? & _). destruct Hc; congruence.
  - by destruct kind; simpl; rewrite ?Nat.le_refl.
  - rewrite count_middle. lia.
Qed.

(** ** Example: the life of an entity *)

(** An entity whose WaitSet and whose work go on while it is closing. *)
Ltac entity_history H :=
  extend H with ltac:(apply ss_entity, (es_set_registered _ true); reflexivity);
  extend H with ltac:(apply ss_entity, (es_acquire _ Work); reflexivity);
  extend H with ltac:(apply ss_entity, (es_acquire _ Operation); reflexivity);
  extend H with ltac:(apply ss_entity, es_wait with (what := W_operations); reflexivity);
  extend H with ltac:(apply ss_entity, es_close; reflexivity);
  extend H with ltac:(apply ss_entity; eapply (es_release _ Operation _ _ []); reflexivity);
  extend H with ltac:(apply ss_entity, es_internal, is_release_notifies).

Lemma resource_outlives_leases_witness :
  exists s : EntityRun nat, reachable (created 7) shared_step (true, s) /\ state (backing s) = Closing /\
    resource (backing s) = Some 7.
Proof.
  assert (reachable (created 7) shared_step (true, new_entity 7)) as H by by apply reach_init.
  entity_history H. eexists. split_and!; [exact H | reflexivity|].
  apply (resource_outlives_leases 7 _ _ H). by right.
Defined.

(** The WaitSet and the work let go: the entity closes. *)
Lemma close_completes_witness :
  exists s s' : EntityRun nat, reachable (created 7) shared_step (true, s) /\ rtc internal_step s s' /\
    state (backing s') = Closed /\ destroyed s' = [7].
Proof.
  assert (reachable (created 7) shared_step (true, new_entity 7)) as H by by apply reach_init.
  entity_history H.
  extend H with ltac:(apply ss_entity, (es_set_registered _ false); reflexivity).
  extend H with ltac:(apply ss_entity; eapply (es_release _ Work _ _ []); reflexivity).
  eexists. eexists. split; [exact H|]. simpl.
  match type of H with reachable _ _ (_, ?s0) => eassert (rtc internal_step s0 _) as Hrun end.
  { eapply rtc_l; [apply is_release_notifies|]. eapply rtc_l; [apply is_finalize; reflexivity|].
    eapply rtc_l; [apply is_nothing_to_finalize; reflexivity|]. eapply rtc_l; [apply is_nothing_to_finalize; reflexivity|].
    do 2 (eapply rtc_l; [apply is_nothing_to_finalize; reflexivity|]).
    eapply rtc_l; [apply (is_destroy _ _ _ _ [])|]. eapply rtc_l; [apply is_finish|].
    eapply rtc_l; [apply is_closed_notifies|]. apply rtc_refl. }
  split; [exact Hrun|].
  edestruct (close_completes 7 _ _ H) as [_ Hend]; [done | by intros [[]|[=]] |].
  edestruct (Hend _ Hrun) as (? & ? & _); [by inversion 1 as [| | |? ? ? ? [] | |] | done].
Defined.
