(* ===== verification/NativeContexts.v ===== *)
(** * NativeContexts: the entities of a Context and its shutdown

    [NativeContext] (src/dclpy/src/context.hpp) owns the backing of one
    [dmw::Context] and knows the backings of everything created from it.  Its
    shutdown stops the admission of user work, closes the entities, waits
    until each has been destroyed, and shuts the native Context down last.

    [context_step] interleaves the coordinator that calls [finish_shutdown]
    with threads that use and create entities and threads in
    [close_children].  Each entity is an [Entities.EntityRun]; the methods are
    cut where they lock.  [context_world_step] adds the threads that drop the
    last owner of an entity: the Context forgets the entity at once, since its
    [weak_ptr] expires, and the thread destroys it afterwards, at its own
    pace.  [shutdown_is_last] is about all of these histories. *)

From S2P Require Import Prelude Entities.
Local Open Scope nat_scope.

(** Where the thread of [finish_shutdown] is. *)
Inductive Coordinator :=
  | Outside
  | Waiting_operations            (** in [wait_operations] of the Context *)
  | Closing_next (rest : list nat)        (** about to close the next child *)
  | Waiting_closed (child : nat) (rest : list nat)
  | Shutting_down                 (** about to call [control_->shutdown()] *)
  | Closing_context               (** about to call [backing_->close()] *)
  | Resetting_control             (** about to call [control_.reset()] *)
  | Waiting_context.

(** A thread in [adopt] that found the admission closed.  It holds an
    operation of [parent] ([None]: of the Context); [closer]: it has closed
    the child and finalizes it. *)
Record Adopter := MkAdopter { parent : option nat; adopted : nat; closer : bool }.

(** A thread in [close_children]. *)
Record Closer := MkCloser { finalizes : option nat; to_close : list nat }.

(** [late]: adopted after the admission was closed. *)
Record Child := MkChild { entity : EntityRun nat; late : bool }.

Record ContextRun := MkContextRun {
  admitting : bool; context : EntityRun nat; control : bool; children : gmap nat Child;
  adopters : list Adopter; closers : list Closer; coordinator : Coordinator }.

Definition with_child (c : nat) (e : EntityRun nat) (x : ContextRun) : ContextRun :=
  MkContextRun (admitting x) (context x) (control x)
    (alter (fun ch => MkChild e (late ch)) c (children x)) (adopters x) (closers x) (coordinator x).
Definition with_context (e : EntityRun nat) (x : ContextRun) : ContextRun :=
  MkContextRun (admitting x) e (control x) (children x) (adopters x) (closers x) (coordinator x).
Definition with_adopters (l : list Adopter) (x : ContextRun) : ContextRun :=
  MkContextRun (admitting x) (context x) (control x) (children x) l (closers x) (coordinator x).
Definition with_closers (l : list Closer) (x : ContextRun) : ContextRun :=
  MkContextRun (admitting x) (context x) (control x) (children x) (adopters x) l (coordinator x).
Definition at_step (c : Coordinator) (x : ContextRun) : ContextRun :=
  MkContextRun (admitting x) (context x) (control x) (children x) (adopters x) (closers x) c.

Definition operations (e : EntityRun nat) : nat := count_occ LeaseKind_eq_dec (leases e) Operation.

Definition holder (p : option nat) (x : ContextRun) : option (EntityRun nat) :=
  match p with None => Some (context x) | Some c => entity <$> children x !! c end.

(** The threads in [adopt] that hold an operation of [p]. *)
Definition adopting (p : option nat) (x : ContextRun) : nat :=
  length (filter (fun a => parent a = p) (adopters x)).

Definition constructing (c : nat) (x : ContextRun) : Prop := c ∈ adopted <$> adopters x.

(** Users hold an operation while they register an entity ([register_backing])
    and while they adopt. *)
Definition used_properly (held : nat) (e e' : EntityRun nat) : Prop :=
  (executor_registered (backing e') = true -> executor_registered (backing e) = true \/ Operation ∈ leases e) /\
  held <= operations e'.

Definition snapshot (x : ContextRun) : list nat := (map_to_list (children x)).*1.

Inductive context_step : ContextRun -> ContextRun -> Prop :=
  | cs_stop_admission a e k ch ad cl co :
      context_step (MkContextRun a e k ch ad cl co) (MkContextRun false e k ch ad cl co)
  (* the entities and their users *)
  | cs_context_internal e x : internal_step (context x) e -> context_step x (with_context e x)
  | cs_context_operation e b x :
      acquire (admitting x) Operation (backing (context x)) = inl b ->
      e = MkEntityRun b (Operation :: leases (context x)) (released (context x)) (finalizing (context x))
            (destroying (context x)) (finishing (context x)) (closed_calls (context x)) (destroyed (context x)) (waiters (context x)) ->
      context_step x (with_context e x)
  | cs_context_release b l1 l2 r f d n c g w x :
      context x = MkEntityRun b (l1 ++ Operation :: l2) r f d n c g w ->
      forall b', release Operation b = Some b' ->
      adopting None x <= operations (MkEntityRun b' (l1 ++ l2) (S r) f d n c g w) ->
      context_step x (with_context (MkEntityRun b' (l1 ++ l2) (S r) f d n c g w) x)
  | cs_child c e ch x :
      children x !! c = Some ch -> ~ constructing c x -> entity_step (admitting x) (entity ch) e ->
      used_properly (adopting (Some c) x) (entity ch) e ->
      context_step x (with_child c e x)
  | cs_child_internal c e ch x :
      children x !! c = Some ch -> internal_step (entity ch) e -> context_step x (with_child c e x)
  (* adopt *)
  | cs_adopt p c e x :
      holder p x = Some e -> adopting p x < operations e -> children x !! c = None ->
      context_step x (MkContextRun (admitting x) (context x) (control x)
        (<[c := MkChild (new_entity c) (negb (admitting x))]> (children x))
        (if admitting x then adopters x else MkAdopter p c false :: adopters x) (closers x) (coordinator x))
  | cs_adopter_closes p c e e' l1 l2 late x :
      adopters x = l1 ++ MkAdopter p c false :: l2 -> children x !! c = Some (MkChild e late) ->
      close_entity e = Some e' ->
      context_step x (with_adopters (l1 ++ MkAdopter p c true :: l2) (with_child c e' x))
  | cs_adopter_finds_closed p c e l1 l2 late x :
      adopters x = l1 ++ MkAdopter p c false :: l2 -> children x !! c = Some (MkChild e late) ->
      close_entity e = None ->
      context_step x (with_adopters (l1 ++ l2) x)
  | cs_adopter_done p c e l1 l2 late x :
      adopters x = l1 ++ MkAdopter p c true :: l2 -> children x !! c = Some (MkChild e late) -> pending e = 0 ->
      context_step x (with_adopters (l1 ++ l2) x)
  (* close_children *)
  | cs_close_children x : context_step x (with_closers (MkCloser None (snapshot x) :: closers x) x)
  | cs_closer_closes c rest l1 l2 e e' late x :
      closers x = l1 ++ MkCloser None (c :: rest) :: l2 -> children x !! c = Some (MkChild e late) ->
      close_entity e = Some e' ->
      context_step x (with_closers (l1 ++ MkCloser (Some c) rest :: l2) (with_child c e' x))
  | cs_closer_skips c rest l1 l2 x :
      closers x = l1 ++ MkCloser None (c :: rest) :: l2 ->
      (forall ch, children x !! c = Some ch -> close_entity (entity ch) = None) ->
      context_step x (with_closers (l1 ++ MkCloser None rest :: l2) x)
  | cs_closer_next c rest l1 l2 x :
      closers x = l1 ++ MkCloser (Some c) rest :: l2 ->
      (forall ch, children x !! c = Some ch -> late ch = true -> pending (entity ch) = 0) ->
      context_step x (with_closers (l1 ++ MkCloser None rest :: l2) x)
  | cs_closer_ends l1 l2 x :
      closers x = l1 ++ MkCloser None [] :: l2 -> context_step x (with_closers (l1 ++ l2) x)
  (* finish_shutdown *)
  | cs_finish x :
      coordinator x = Outside -> state (backing (context x)) <> Closed -> admitting x = false ->
      context_step x (at_step Waiting_operations x)
  | cs_operations_done x :
      coordinator x = Waiting_operations -> holds W_operations (backing (context x)) = true ->
      context_step x (at_step (Closing_next (snapshot x)) x)
  | cs_close_child c rest ch x :
      coordinator x = Closing_next (c :: rest) -> children x !! c = Some ch ->
      context_step x (at_step (Waiting_closed c rest)
        (match close_entity (entity ch) with Some e => with_child c e x | None => x end))
  | cs_child_closed c rest ch x :
      coordinator x = Waiting_closed c rest -> children x !! c = Some ch -> holds W_closed (backing (entity ch)) = true ->
      context_step x (at_step (Closing_next rest) x)
  | cs_children_closed x : coordinator x = Closing_next [] -> context_step x (at_step Shutting_down x)
  | cs_shutdown x : coordinator x = Shutting_down -> control x = true -> context_step x (at_step Closing_context x)
  | cs_shutdown_fails x : coordinator x = Shutting_down -> control x = true -> context_step x (at_step Outside x)
  | cs_close_context x :
      coordinator x = Closing_context ->
      context_step x (at_step Resetting_control
        (match close_entity (context x) with Some e => with_context e x | None => x end))
  | cs_reset_control b b' l1 l2 r f d n c g w a ch ad cl :
      release Work b = Some b' ->
      context_step (MkContextRun a (MkEntityRun b (l1 ++ Work :: l2) r f d n c g w) true ch ad cl Resetting_control)
        (MkContextRun a (MkEntityRun b' (l1 ++ l2) (S r) f d n c g w) false ch ad cl Waiting_context)
  | cs_context_closed x :
      coordinator x = Waiting_context -> holds W_closed (backing (context x)) = true ->
      context_step x (at_step Outside x)
  | cs_deadline x :
      (coordinator x = Waiting_operations \/ (exists c rest, coordinator x = Waiting_closed c rest) \/ coordinator x = Waiting_context) ->
      context_step x (at_step Outside x).

(** ** Entities that nobody refers to

    The Context has [weak_ptr]s to its entities, which cannot be locked any
    more once the last owner drops the entity, while that owner's thread still
    destroys the resource in [~EntityBacking].  An entity that has been closed
    has no resource left when that happens ([cw_expire_closed]); one that is
    open gives it up only in [cw_dropped].  The history keeps what was
    created and what became of it; the code keeps neither. *)

Definition native_context : ContextRun :=
  MkContextRun true (MkEntityRun (add_ref Work (new_backing 0)) [Work] 0 0 [] 0 0 [] []) true ∅ [] [] Outside.

(** The loops of [finish_shutdown] and [close_children] own what they go through. *)
Definition referenced (c : nat) (x : ContextRun) : Prop :=
  match coordinator x with Closing_next rest => c ∈ rest | Waiting_closed c' rest => c ∈ c' :: rest | _ => False end \/
  exists cl, cl ∈ closers x /\ (finalizes cl = Some c \/ c ∈ to_close cl).

(** [created]: every entity that there was; [dropping]: those whose last owner
    is destroying them; [gone]: those that are gone. *)
Record ContextWorld := MkContextWorld { live : ContextRun; created : list nat; dropping : list nat; gone : list nat }.

Definition without_child (c : nat) (x : ContextRun) : ContextRun :=
  MkContextRun (admitting x) (context x) (control x) (delete c (children x)) (adopters x) (closers x) (coordinator x).

Inductive context_world_step : ContextWorld -> ContextWorld -> Prop :=
  | cw_step x x' cr dr go :
      context_step x x' -> (forall c, is_Some (children x' !! c) -> is_Some (children x !! c) \/ c ∉ cr) ->
      context_world_step (MkContextWorld x cr dr go) (MkContextWorld x' (snapshot x' ++ cr) dr go)
  | cw_expire_open c ch x cr dr go :
      children x !! c = Some ch -> ~ in_use (entity ch) -> ~ constructing c x -> ~ referenced c x -> pending (entity ch) = 0 ->
      destroyed (entity ch) = [] ->
      context_world_step (MkContextWorld x cr dr go) (MkContextWorld (without_child c x) cr (c :: dr) go)
  | cw_expire_closed c ch x cr dr go :
      children x !! c = Some ch -> ~ in_use (entity ch) -> ~ constructing c x -> ~ referenced c x -> pending (entity ch) = 0 ->
      destroyed (entity ch) = [c] ->
      context_world_step (MkContextWorld x cr dr go) (MkContextWorld (without_child c x) cr dr (c :: go))
  | cw_dropped x cr d1 c d2 go :
      context_world_step (MkContextWorld x cr (d1 ++ c :: d2) go) (MkContextWorld x cr (d1 ++ d2) (c :: go)).

Definition context_created (w : ContextWorld) : Prop := w = MkContextWorld native_context [] [] [].

(** ** The invariant *)

Definition late_ok (x : ContextRun) (c : nat) (ch : Child) : Prop :=
  late ch = true ->
  admitting x = false /\ ~ in_use (entity ch) /\ (state (backing (entity ch)) = Open -> constructing c x).

Record base_inv (x : ContextRun) : Prop := {
  b_context : entity_inv 0 (context x);
  b_child : forall c ch, children x !! c = Some ch -> entity_inv c (entity ch) /\ late_ok x c ch;
  b_unique : NoDup (adopted <$> adopters x);
  b_adopter : forall a, a ∈ adopters x -> admitting x = false /\
    exists ch, children x !! adopted a = Some ch /\ late ch = true /\
      (closer a = true -> state (backing (entity ch)) <> Open);
  b_held : forall p, 0 < adopting p x -> exists e, holder p x = Some e /\ adopting p x <= operations e;
  b_admitting : admitting x = true -> coordinator x = Outside /\ state (backing (context x)) = Open }.

(** A late child that still has to go: somebody is at it. *)
Definition attended (x : ContextRun) (c : nat) (ch : Child) : Prop :=
  state (backing (entity ch)) = Closed \/
  (exists a, a ∈ adopters x /\ adopted a = c /\ (closer a = true \/ state (backing (entity ch)) = Open)) \/
  (late ch = true /\ state (backing (entity ch)) <> Open /\ exists cl, cl ∈ closers x /\ finalizes cl = Some c).

(** The children that [finish_shutdown] may leave to be closed; [None]: any. *)
Definition to_wait_for (x : ContextRun) : option (list nat) :=
  if decide (state (backing (context x)) = Open) then
    match coordinator x with
    | Outside | Waiting_operations => None
    | Closing_next rest => Some rest
    | Waiting_closed c rest => Some (c :: rest)
    | _ => Some []
    end
  else Some [].

Definition covered (x : ContextRun) : Prop :=
  forall rest, to_wait_for x = Some rest ->
  operations (context x) = 0 /\
  forall c ch, children x !! c = Some ch -> attended x c ch \/ c ∈ rest.

Definition context_inv (x : ContextRun) : Prop := base_inv x /\ covered x.

(** *** Changes of one entity *)

Lemma new_entity_inv (c : nat) : entity_inv c (new_entity c).
Proof. apply (reachable_entity_inv c (true, new_entity c)). by apply reach_init. Qed.

Lemma internal_step_open (value : nat) (e e' : EntityRun nat) :
  entity_inv value e -> internal_step e e' -> state (backing e) = Open -> state (backing e') = Open.
Proof.
  intros Hi Hs Ho. pose proof (ei_finalization _ _ Hi) as Hf. unfold finalization in Hf. destruct Hs; simpl in *; try done.
  - apply try_finalize_spec in H as (_ & _ & ->). done.
  - destruct (destroy_started b); [destruct Hf as (_ & _ & _ & [(? & _)|[(? & _)|(? & _)]]); congruence|].
    by destruct Hf as (_ & _ & _ & [=] & _).
Qed.

Lemma entity_step_closed admitted (e e' : EntityRun nat) :
  entity_step admitted e e' -> state (backing e) = Closed -> state (backing e') = Closed.
Proof.
  intros Hs Hc. destruct Hs as [e e' Hs| | | | | | | | |]; simpl in *; try done.
  - destruct Hs; simpl in *; try done. by apply try_finalize_spec in H as (_ & _ & ->).
  - apply acquire_inl in H as (_ & ? & _). congruence.
  - by apply derive_work_spec in H0 as (_ & _ & ->).
  - by apply release_spec in H as (_ & ->).
  - by apply set_registered_spec in H as [-> _].
  - apply close_Some in H as [? _]. congruence.
Qed.

Lemma entity_step_not_open admitted (e e' : EntityRun nat) :
  entity_step admitted e e' -> state (backing e) <> Open -> state (backing e') <> Open.
Proof.
  intros Hs Hc. destruct Hs as [e e' Hs| | | | | | | | |]; simpl in *; try done.
  - by apply internal_step_keeps in Hs as (_ & _ & ?); auto.
  - by apply acquire_inl in H as (_ & ? & _).
  - by apply derive_work_spec in H0 as (_ & _ & ->).
  - by apply release_spec in H as (_ & ->).
  - by apply set_registered_spec in H as [-> _].
  - by apply close_Some in H as [? _].
Qed.

(** An entity that nobody uses and that admits no user work stays unused,
    and Open if it is. *)
Lemma unused_step (e e' : EntityRun nat) held :
  entity_step false e e' -> ~ in_use e -> used_properly held e e' -> ~ in_use e'.
Proof.
  intros Hs Hu [Hr _]. assert (leases e = []) as Hl by (destruct (leases e) eqn:E; [done|]; destruct Hu; left; by rewrite E).
  assert (leases e' = []) as Hl'.
  { destruct Hs as [e e' Hs| | | | | | | | |]; simpl in *; try done.
    - apply internal_step_keeps in Hs as (-> & _). done.
    - subst l. by apply elem_of_nil in H.
    - by destruct l1. }
  intros [Hu'|Hu']; [done|]. destruct (Hr Hu') as [?|Ho]; [by destruct Hu; right|].
  rewrite Hl in Ho. by apply elem_of_nil in Ho.
Qed.

Lemma close_entity_spec (e e' : EntityRun nat) :
  close_entity e = Some e' ->
  state (backing e) = Open /\ state (backing e') = Closing /\ leases e' = leases e /\
  executor_registered (backing e') = executor_registered (backing e) /\ entity_step false e e'.
Proof.
  unfold close_entity. destruct (close (backing e)) as [b|] eqn:Hc; [|done]. intros [= <-].
  pose proof Hc as [Hs ->]%close_Some. split_and!; try done. destruct e. by apply es_close.
Qed.

Lemma close_entity_None (e : EntityRun nat) : close_entity e = None -> state (backing e) <> Open.
Proof. unfold close_entity, close. by case_decide. Qed.

Lemma lookup_with_child c e x c' ch' :
  children (with_child c e x) !! c' = Some ch' <->
  (c' = c /\ exists ch, children x !! c = Some ch /\ ch' = MkChild e (late ch)) \/
  (c' <> c /\ children x !! c' = Some ch').
Proof.
  unfold with_child. simpl. destruct (decide (c' = c)) as [->|Hne].
  - rewrite lookup_alter_eq. destruct (children x !! c); simpl; naive_solver.
  - rewrite lookup_alter_ne by done. naive_solver.
Qed.

Lemma adopting_pos p x : 0 < adopting p x <-> exists a, a ∈ adopters x /\ parent a = p.
Proof.
  unfold adopting. induction (adopters x) as [|a l IH]; simpl.
  - split; [lia | intros (a & Ha & _); by apply elem_of_nil in Ha].
  - rewrite filter_cons. case_decide as Hp; simpl.
    + split; [|lia]. intros _. exists a. split; [left | done].
    + rewrite IH. split; intros (a' & Ha & Hp').
      * exists a'. split; [by right | done].
      * apply elem_of_cons in Ha as [->|Ha]; [done | eauto].
Qed.

(** Threads come and go without a change to the entities. *)
Lemma base_threads x a k ad cl co :
  base_inv x ->
  a = admitting x -> (forall p, adopting p (MkContextRun a (context x) k (children x) ad cl co) <= adopting p x) ->
  NoDup (adopted <$> ad) ->
  (forall v, v ∈ ad -> (exists v', v' ∈ adopters x /\ adopted v' = adopted v) /\
    (closer v = true -> exists ch, children x !! adopted v = Some ch /\ state (backing (entity ch)) <> Open)) ->
  (forall c ch, children x !! c = Some ch -> late ch = true -> state (backing (entity ch)) = Open -> constructing c x ->
     c ∈ adopted <$> ad) ->
  (a = true -> co = Outside) ->
  base_inv (MkContextRun a (context x) k (children x) ad cl co).
Proof.
  intros [Hctx Hch Hun Had Hheld Hadm] -> Hle Hnd Hin Hlate Hco. split; simpl; try done.
  - intros c ch Hc. destruct (Hch _ _ Hc) as [? Hl]. split; [done|]. intros Ht. destruct (Hl Ht) as (? & ? & Ho).
    split_and!; [done..|]. intros Hopen. by eapply Hlate; [| | |apply Ho].
  - intros v Hv. destruct (Hin v Hv) as [(v' & Hv' & Heq) Hcl]. destruct (Had v' Hv') as [? (ch & Hc & Ht & _)].
    split; [done|]. rewrite Heq in Hc. exists ch. split_and!; [done..|]. intros Hb. destruct (Hcl Hb) as (? & ? & ?). congruence.
  - intros p Hp. pose proof (Hle p). destruct (Hheld p) as (e & He & ?); [lia|]. exists e. split; [destruct p; done | lia].
  - intros Ha. destruct (Hadm Ha). auto.
Qed.

(** One child changes. *)
Lemma base_child x c ch e :
  base_inv x -> children x !! c = Some ch -> entity_inv c e ->
  (late ch = true -> ~ in_use e) ->
  (state (backing e) = Open -> state (backing (entity ch)) = Open) ->
  adopting (Some c) x <= operations e ->
  base_inv (with_child c e x).
Proof.
  intros [Hctx Hch Hun Had Hheld Hadm] Hc He Hl Ho Hop. split; simpl; try done.
  - intros c' ch' [(-> & ch0 & Hc0 & ->)|[Hne Hc']]%lookup_with_child; [|by apply Hch].
    simplify_eq. split; [done|]. intros Ht. simpl in *. destruct (Hch _ _ Hc) as [_ Hlate].
    destruct (Hlate Ht) as (? & ? & ?). split_and!; auto.
  - intros a Ha. destruct (Had a Ha) as [? (ch' & Hc' & Ht & Hcl)]. split; [done|].
    destruct (decide (adopted a = c)) as [Heq|Hne].
    + rewrite Heq in Hc'. simplify_eq. exists (MkChild e (late ch)). split_and!.
      * apply lookup_with_child. left. eauto.
      * done.
      * simpl. intros Hb Hopen. by apply (Hcl Hb), Ho.
    + exists ch'. split_and!; [|done..]. apply lookup_with_child. by right.
  - intros p Hp. change (adopting p (with_child c e x)) with (adopting p x) in *. destruct (Hheld p Hp) as (e' & He' & ?).
    destruct p as [c'|]; [|by exists e']. simpl in *. destruct (decide (c' = c)) as [->|Hne].
    + exists e. rewrite lookup_alter_eq, Hc. done.
    + exists e'. by rewrite lookup_alter_ne.
Qed.

(** The Context's own entity changes. *)
Lemma base_context x e k cl co :
  base_inv x -> entity_inv 0 e -> adopting None x <= operations e ->
  (admitting x = true -> co = Outside /\ (state (backing (context x)) = Open -> state (backing e) = Open)) ->
  base_inv (MkContextRun (admitting x) e k (children x) (adopters x) cl co).
Proof.
  intros [Hctx Hch Hun Had Hheld Hadm] He Hop Hco. split; simpl; try done.
  - intros p Hp. change (adopting p _) with (adopting p x) in *. destruct p as [c|]; [|by exists e].
    destruct (Hheld _ Hp) as (e' & ? & ?). by exists e'.
  - intros Ha. destruct (Hadm Ha), (Hco Ha). auto.
Qed.

Lemma base_at co x : base_inv x -> (admitting x = true -> co = Outside) -> base_inv (at_step co x).
Proof.
  intros Hb Hco. apply base_threads; try done; [apply Hb|].
  intros v Hv. split; [by exists v|]. intros Hc. destruct (b_adopter _ Hb v Hv) as [_ (ch & ? & _ & ?)]. exists ch. auto.
Qed.

Lemma base_closers l x : base_inv x -> base_inv (with_closers l x).
Proof.
  intros Hb. apply base_threads; try done; [apply Hb | |].
  - intros v Hv. split; [by exists v|]. intros Hc. destruct (b_adopter _ Hb v Hv) as [_ (ch & ? & _ & ?)]. exists ch. auto.
  - intros Ha. by destruct (b_admitting _ Hb Ha).
Qed.

(** The middle adopter leaves, its child not Open. *)
Lemma base_adopter_leaves l1 v l2 x ch :
  base_inv x -> adopters x = l1 ++ v :: l2 ->
  children x !! adopted v = Some ch -> state (backing (entity ch)) <> Open ->
  base_inv (with_adopters (l1 ++ l2) x).
Proof.
  intros Hb Hl Hc Hs. apply base_threads; try done.
  - intros p. unfold adopting. simpl. rewrite Hl, !filter_app, filter_cons, !length_app. case_decide; simpl; lia.
  - pose proof (b_unique _ Hb) as Hn. rewrite Hl, fmap_app, fmap_cons in Hn. rewrite fmap_app. by apply NoDup_middle in Hn as [_ ?].
  - intros a Ha. assert (a ∈ adopters x) as Ha' by (rewrite Hl; apply elem_of_middle; auto).
    split; [by exists a|]. intros Hcl. destruct (b_adopter _ Hb a Ha') as [_ (ch' & ? & _ & ?)]. exists ch'. auto.
  - intros c ch' Hc' Ht Ho Hcon.
    unfold constructing in Hcon. rewrite Hl, fmap_app, fmap_cons in Hcon. rewrite fmap_app.
    apply elem_of_middle in Hcon as [->|?]; [congruence | done].
  - intros Ha. by destruct (b_admitting _ Hb Ha).
Qed.

(** It becomes the closer of a child that is not Open. *)
Lemma base_adopter_closer l1 p c l2 x ch :
  base_inv x -> adopters x = l1 ++ MkAdopter p c false :: l2 ->
  children x !! c = Some ch -> state (backing (entity ch)) <> Open ->
  base_inv (with_adopters (l1 ++ MkAdopter p c true :: l2) x).
Proof.
  intros Hb Hl Hc Hs.
  assert (adopted <$> l1 ++ MkAdopter p c true :: l2 = adopted <$> adopters x) as Heq by (rewrite Hl; by rewrite !fmap_app, !fmap_cons).
  apply base_threads; try done.
  - intros q. unfold adopting. simpl. rewrite Hl, !filter_app, !filter_cons. rewrite !length_app. repeat case_decide; simpl in *; lia || done.
  - rewrite Heq. apply Hb.
  - intros a Ha. apply elem_of_middle in Ha as [->|Ha].
    + split; [|by exists ch]. exists (MkAdopter p c false). split; [|done]. rewrite Hl. apply elem_of_middle. by left.
    + assert (a ∈ adopters x) as Ha' by (rewrite Hl; apply elem_of_middle; auto).
      split; [by exists a|]. intros Hcl. destruct (b_adopter _ Hb a Ha') as [_ (ch' & ? & _ & ?)]. exists ch'. auto.
  - intros c' ch' Hc' Ht Ho. by rewrite Heq.
  - intros Ha. by destruct (b_admitting _ Hb Ha).
Qed.

(** What the threads in [adopt] hold. *)
Lemma held_context x : base_inv x -> adopting None x <= operations (context x).
Proof.
  intros Hb. destruct (decide (adopting None x = 0)) as [->|]; [lia|].
  destruct (b_held _ Hb None) as (e' & He' & ?); [lia|]. by simplify_eq/=.
Qed.

Lemma held_child x c ch : base_inv x -> children x !! c = Some ch -> adopting (Some c) x <= operations (entity ch).
Proof.
  intros Hb Hc. destruct (decide (adopting (Some c) x = 0)) as [->|]; [lia|].
  destruct (b_held _ Hb (Some c)) as (e' & He' & ?); [lia|]. simpl in He'. rewrite Hc in He'. by simplify_eq/=.
Qed.

(** [close] on a child. *)
Lemma base_close_child x c ch e :
  base_inv x -> children x !! c = Some ch -> close_entity (entity ch) = Some e -> base_inv (with_child c e x).
Proof.
  intros Hb Hc He. pose proof (close_entity_spec _ _ He) as (Ho & Hcl & Hl & Hr & Hs).
  destruct (b_child _ Hb _ _ Hc) as [Hi Hlate].
  eapply base_child; [done | done | by eapply entity_step_inv | | done |].
  - intros Ht. destruct (Hlate Ht) as (_ & Hu & _). unfold in_use. by rewrite Hl, Hr.
  - unfold operations. rewrite Hl. by apply held_child.
Qed.

(** [close] on the Context. *)
Lemma base_close_context x k cl co :
  base_inv x -> (admitting x = true -> False) ->
  base_inv (MkContextRun (admitting x) (match close_entity (context x) with Some e => e | None => context x end)
    k (children x) (adopters x) cl co).
Proof.
  intros Hb Ha. destruct (close_entity (context x)) as [e|] eqn:He.
  - pose proof (close_entity_spec _ _ He) as (Ho & Hcl & Hl & Hr & Hs).
    apply base_context; [done | eapply entity_step_inv; [apply Hb | done] | | done].
    unfold operations. rewrite Hl. by apply held_context.
  - apply base_context; [done | apply Hb | by apply held_context | done].
Qed.

(** A thread takes an operation of the Context, or gives one back. *)
Lemma operation_context_step x b :
  acquire (admitting x) Operation (backing (context x)) = inl b ->
  entity_step (admitting x) (context x) (MkEntityRun b (Operation :: leases (context x)) (released (context x)) (finalizing (context x))
    (destroying (context x)) (finishing (context x)) (closed_calls (context x)) (destroyed (context x)) (waiters (context x))).
Proof. destruct (context x). apply es_acquire. Qed.

(** A new child. *)
Lemma base_adopt x p c e :
  base_inv x -> holder p x = Some e -> adopting p x < operations e -> children x !! c = None ->
  base_inv (MkContextRun (admitting x) (context x) (control x)
    (<[c := MkChild (new_entity c) (negb (admitting x))]> (children x))
    (if admitting x then adopters x else MkAdopter p c false :: adopters x) (closers x) (coordinator x)).
Proof.
  intros Hb Hp Hlt Hc. assert (forall a, a ∈ adopters x -> adopted a <> c) as Hfresh.
  { intros a Ha <-. destruct (b_adopter _ Hb a Ha) as [_ (ch & ? & _)]. congruence. }
  assert (forall q e', holder q x = Some e' -> holder q (MkContextRun (admitting x) (context x) (control x)
    (<[c := MkChild (new_entity c) (negb (admitting x))]> (children x))
    (if admitting x then adopters x else MkAdopter p c false :: adopters x) (closers x) (coordinator x)) = Some e') as Hhold.
  { intros [c'|] e' He'; simpl in *; [|done]. rewrite lookup_insert_ne; [done|]. intros <-. by rewrite Hc in He'. }
  split; simpl; try apply Hb.
  - intros c' ch'. rewrite lookup_insert_Some. intros [[<- <-]|[Hne Hc']].
    + split; [apply new_entity_inv|]. intros Ht. simpl in *. apply negb_true_iff in Ht. rewrite Ht. split_and!; [done| |].
      * by intros [[]|[=]].
      * intros _. unfold constructing. simpl. left.
    + destruct (b_child _ Hb _ _ Hc') as [? Hl]. split; [done|]. intros Ht. destruct (Hl Ht) as (Ha & ? & Ho). split_and!; [done..|].
      intros Hopen. specialize (Ho Hopen). unfold constructing in *. simpl. rewrite Ha. by right.
  - destruct (admitting x); [apply Hb|]. rewrite fmap_cons. apply NoDup_cons. split; [|apply Hb].
    simpl. intros (a & ? & Ha)%list_elem_of_fmap. by apply (Hfresh a).
  - intros a Ha. destruct (admitting x) eqn:Hadm.
    + destruct (b_adopter _ Hb a Ha) as [? _]. congruence.
    + split; [done|]. apply elem_of_cons in Ha as [->|Ha]; simpl.
      * exists (MkChild (new_entity c) true). by rewrite lookup_insert_eq.
      * destruct (b_adopter _ Hb a Ha) as [_ (ch & ? & ?)]. exists ch. by rewrite lookup_insert_ne by (by apply not_eq_sym, Hfresh).
  - intros q Hq. unfold adopting in Hq. simpl in Hq. destruct (admitting x) eqn:Hadm.
    + destruct (b_held _ Hb q Hq) as (e' & ? & ?). exists e'. auto.
    + unfold adopting. simpl. rewrite filter_cons in Hq |- *. simpl in *. case_decide as Heq; simpl in *.
      * subst q. exists e. split; [by apply Hhold | unfold adopting in Hlt; lia].
      * destruct (b_held _ Hb q Hq) as (e' & ? & ?). exists e'. auto.
Qed.

(** A child whose last owner drops it. *)
Lemma base_expire x c :
  base_inv x -> ~ constructing c x -> adopting (Some c) x = 0 ->
  base_inv (MkContextRun (admitting x) (context x) (control x) (delete c (children x)) (adopters x) (closers x) (coordinator x)).
Proof.
  intros Hb Hc Hz. split; simpl; try apply Hb.
  - intros c' ch [_ Hc']%lookup_delete_Some. by apply (b_child _ Hb).
  - intros a Ha. destruct (b_adopter _ Hb a Ha) as [? (ch & ? & ?)]. split; [done|]. exists ch. rewrite lookup_delete_ne; [done|].
    intros ->. apply Hc. unfold constructing. by apply list_elem_of_fmap_2.
  - intros q Hq. change (adopting q _) with (adopting q x) in *. destruct (b_held _ Hb q Hq) as (e & He & ?). exists e. split; [|done].
    destruct q as [c'|]; [|done]. simpl in *. rewrite lookup_delete_ne; [done|]. intros ->. lia.
Qed.

Lemma base_step x x' : base_inv x -> context_step x x' -> base_inv x'.
Proof.
  intros Hb Hstep. pose proof (b_admitting _ Hb) as Hadm. destruct Hstep; simpl in *;
    try (apply base_at; [done|]; intros Ha; destruct (Hadm Ha); congruence);
    try (by apply base_closers); try (by apply base_at).
  - destruct Hb as [? Hch ? Had ? ?]. split; simpl in *; try done.
    + intros c ch' Hc. destruct (Hch c ch' Hc) as [? Hl]. split; [done|]. intros Ht. by destruct (Hl Ht) as (_ & ?).
    + intros v Hv. by destruct (Had v Hv) as [_ ?].
  - pose proof (b_context _ Hb) as Hi. apply base_context; [done | by eapply internal_step_inv | |].
    + unfold operations. rewrite (proj1 (internal_step_keeps _ _ H)). by apply held_context.
    + intros Ha. destruct (Hadm Ha). split; [done|]. by eapply internal_step_open.
  - subst e. pose proof H as (Ha & Hs & ->)%acquire_inl. apply base_context; [done | | |].
    + eapply entity_step_inv; [apply Hb | by apply operation_context_step].
    + unfold operations. simpl. pose proof (held_context _ Hb). unfold operations in *. lia.
    + intros _. destruct (Hadm Ha). done.
  - apply base_context; [done | | done |].
    + eapply entity_step_inv; [apply Hb|]. rewrite H. by apply (es_release true).
    + intros Ha. destruct (Hadm Ha). split; [done|]. rewrite H. simpl. by apply release_spec in H0 as (_ & ->).
  - destruct (b_child _ Hb _ _ H) as [Hi Hl]. destruct H2 as [Hr Hop]. eapply base_child; [done | done | by eapply entity_step_inv | | | done].
    + intros Ht. destruct (Hl Ht) as (Ha & Hu & _). rewrite Ha in H1. by eapply unused_step.
    + intros Ho. destruct (decide (state (backing (entity ch)) = Open)) as [|Hne]; [done|]. exfalso.
      by eapply entity_step_not_open.
  - destruct (b_child _ Hb _ _ H) as [Hi Hl]. destruct (internal_step_keeps _ _ H0) as (Hle & Hr & Ho).
    eapply base_child; [done | done | by eapply internal_step_inv | | |].
    + intros Ht. destruct (Hl Ht) as (Ha & Hu & _). unfold in_use. by rewrite Hle, Hr.
    + intros Hs. destruct (decide (state (backing (entity ch)) = Open)) as [|Hne]; [done|]. by destruct (Ho Hne).
    + unfold operations. rewrite Hle. by apply held_child.
  - by eapply base_adopt.
  - pose proof (base_close_child _ _ _ _ Hb H0 H1) as Hb'.
    eapply (base_adopter_closer l1 p c l2 (with_child c e' x)); [done | done | |].
    + apply lookup_with_child. left. eauto.
    + simpl. destruct (close_entity_spec _ _ H1) as (_ & -> & _). done.
  - eapply base_adopter_leaves; [done | done | done |]. simpl. by apply close_entity_None.
  - eapply base_adopter_leaves; [done | done | done |]. simpl.
    destruct (b_adopter _ Hb (MkAdopter p c true)) as [_ (ch & Hc & _ & Ho)]; [rewrite H; apply elem_of_middle; by left|].
    simpl in *. rewrite H0 in Hc. injection Hc as <-. by apply Ho.
  - apply base_closers. by eapply base_close_child.
  - destruct (close_entity (entity ch)) as [e|] eqn:He; apply base_at; try done.
    + by eapply base_close_child.
    + intros Ha. destruct (Hadm Ha). congruence.
    + intros Ha. destruct (Hadm Ha). congruence.
  - assert (admitting x = true -> False) as Hno by (intros Ha; destruct (Hadm Ha); congruence).
    pose proof (base_close_context x (control x) (closers x) Resetting_control Hb Hno) as Hc.
    destruct (close_entity (context x)); exact Hc.
  - eapply base_context with (k := false) (cl := cl) (co := Waiting_context) in Hb as Hb'; [exact Hb' | | |]; simpl in *.
    + eapply entity_step_inv; [apply Hb | by apply (es_release true)].
    + pose proof (held_context _ Hb) as Hop. unfold operations in *. simpl in *. rewrite count_middle in Hop. simpl in Hop. lia.
    + intros Ha. destruct (Hadm Ha). congruence.
Qed.

(** *** Every child is attended to *)

Lemma to_wait_for_closed x : state (backing (context x)) <> Open -> to_wait_for x = Some [].
Proof. intros. unfold to_wait_for. by case_decide. Qed.

(** While something has to be waited for, the admission is closed. *)
Lemma waits_not_admitting x rest : base_inv x -> to_wait_for x = Some rest -> admitting x = false.
Proof.
  intros Hb Hw. destruct (admitting x) eqn:Ha; [|done]. destruct (b_admitting _ Hb Ha) as [Hc Ho].
  unfold to_wait_for in Hw. rewrite Hc, decide_True in Hw by done. done.
Qed.

(** When no child is left to wait for, no thread is in [adopt]: it would hold
    an operation of a child that is in use. *)
Lemma settled_adopters x : base_inv x -> covered x -> to_wait_for x = Some [] -> adopters x = [].
Proof.
  intros Hb Hcov Hw. destruct (Hcov _ Hw) as [Hz Hat]. destruct (adopters x) as [|a l] eqn:Hl; [done|]. exfalso.
  assert (a ∈ adopters x) as Ha by (rewrite Hl; left).
  destruct (b_held _ Hb (parent a)) as (e & He & Hop); [apply adopting_pos; eauto|].
  assert (0 < operations e) as Hpos by (pose proof (proj2 (adopting_pos (parent a) x)) as H; specialize (H ltac:(eauto)); lia).
  destruct (parent a) as [c|]; simpl in He; [|simplify_eq; lia].
  destruct (children x !! c) as [ch|] eqn:Hc; [|done]. simplify_eq/=.
  destruct (b_child _ Hb _ _ Hc) as [Hi Hlate].
  assert (in_use (entity ch)) as Hu by (left; intros E; unfold operations in Hpos; rewrite E in Hpos; simpl in Hpos; lia).
  destruct (Hat _ _ Hc) as [[Hs|[(a' & Ha' & <- & _)|(Ht & _)]]|Hin]; [| | |by apply elem_of_nil in Hin].
  - by destruct (entity_inv_closed _ _ Hi Hs).
  - destruct (b_adopter _ Hb a' Ha') as [_ (ch' & ? & Ht & _)]. simplify_eq. by destruct (Hlate Ht) as (_ & ? & _).
  - by destruct (Hlate Ht) as (_ & ? & _).
Qed.

(** What is left then: the children are Closed, or being finalized by a
    thread in [close_children]. *)
Lemma settled_children x c ch :
  base_inv x -> covered x -> to_wait_for x = Some [] -> children x !! c = Some ch ->
  state (backing (entity ch)) = Closed \/
  (late ch = true /\ state (backing (entity ch)) <> Open /\ exists cl, cl ∈ closers x /\ finalizes cl = Some c).
Proof.
  intros Hb Hcov Hw Hc. pose proof (settled_adopters _ Hb Hcov Hw) as Ha.
  destruct (Hcov _ Hw) as [_ Hat]. destruct (Hat _ _ Hc) as [[?|[(a & Hin & _)|?]]|Hin]; [by left | | by right |].
  - rewrite Ha in Hin. by apply elem_of_nil in Hin.
  - by apply elem_of_nil in Hin.
Qed.

(** Changes that keep the rest to wait for and what attends to the children. *)
Lemma covered_keep x x' :
  covered x -> (forall rest, to_wait_for x' = Some rest -> to_wait_for x = Some rest) ->
  (forall rest, to_wait_for x' = Some rest -> operations (context x') <= operations (context x)) ->
  (forall rest c ch, to_wait_for x' = Some rest -> children x' !! c = Some ch ->
     attended x' c ch \/ c ∈ rest \/ exists ch0, children x !! c = Some ch0 /\ (attended x c ch0 -> attended x' c ch)) ->
  covered x'.
Proof.
  intros Hcov Hw Hop Hat rest Hr. destruct (Hcov rest (Hw _ Hr)) as [Hz Ha]. split; [specialize (Hop _ Hr); lia|].
  intros c ch Hc. destruct (Hat _ _ _ Hr Hc) as [?|[?|(ch0 & Hc0 & Himp)]]; auto. destruct (Ha _ _ Hc0); auto.
Qed.

(** The same children, threads and phase of the Context, perhaps at another
    point of [finish_shutdown]. *)
Lemma covered_at x co :
  covered x -> (forall rest, to_wait_for (at_step co x) = Some rest -> to_wait_for x = Some rest) -> covered (at_step co x).
Proof. intros Hcov Hw. eapply covered_keep; [exact Hcov | exact Hw | done |]. intros rest c ch _ Hc. right. right. by exists ch. Qed.

Lemma covered_context x e k :
  covered x -> (state (backing e) = Open <-> state (backing (context x)) = Open) -> operations e <= operations (context x) ->
  covered (MkContextRun (admitting x) e k (children x) (adopters x) (closers x) (coordinator x)).
Proof.
  intros Hcov Hs Hop. eapply covered_keep; [exact Hcov | | done |].
  - intros rest. unfold to_wait_for. simpl. repeat case_decide; naive_solver.
  - intros rest c ch _ Hc. right. right. by exists ch.
Qed.

Lemma covered_child x c e :
  covered x ->
  (forall ch, children x !! c = Some ch -> attended x c ch -> attended x c (MkChild e (late ch))) ->
  covered (with_child c e x).
Proof.
  intros Hcov Hat. eapply covered_keep; [exact Hcov | done | done |].
  intros rest c' ch' _ [(-> & ch & Hc & ->)|[Hne Hc]]%lookup_with_child; right; right.
  - exists ch. split; [done|]. by apply Hat.
  - by exists ch'.
Qed.

(** Another set of threads: those that attend to a child still do. *)
Lemma covered_threads x ad cl :
  covered x ->
  (forall c ch rest, to_wait_for x = Some rest -> children x !! c = Some ch -> c ∉ rest -> attended x c ch ->
    attended (MkContextRun (admitting x) (context x) (control x) (children x) ad cl (coordinator x)) c ch) ->
  covered (MkContextRun (admitting x) (context x) (control x) (children x) ad cl (coordinator x)).
Proof.
  intros Hcov Hat rest Hr. destruct (Hcov rest Hr) as [? Ha]. split; [done|]. intros c ch Hc.
  destruct (decide (c ∈ rest)); [by right|]. destruct (Ha _ _ Hc); [|by right]. left. eauto.
Qed.

(** An internal step of an entity. *)
Lemma internal_attended x c ch e :
  base_inv x -> children x !! c = Some ch -> internal_step (entity ch) e ->
  attended x c ch -> attended x c (MkChild e (late ch)).
Proof.
  intros Hb Hc Hs. destruct (b_child _ Hb _ _ Hc) as [Hi _]. destruct (internal_step_keeps _ _ Hs) as (_ & _ & Ho).
  intros [Hcl|[(a & ? & ? & [?|Hopen])|(? & ? & ?)]].
  - left. eapply entity_step_closed; [by apply (es_internal false) | done].
  - right. left. exists a. auto.
  - right. left. exists a. split_and!; [done..|]. right. by eapply internal_step_open.
  - right. right. simpl. auto.
Qed.

(** A step of a user of a child that no thread is adopting. *)
Lemma used_attended x c ch e :
  ~ constructing c x -> entity_step (admitting x) (entity ch) e ->
  attended x c ch -> attended x c (MkChild e (late ch)).
Proof.
  intros Hn Hs [Hcl|[(a & Ha & <- & _)|(? & ? & ?)]].
  - left. by eapply entity_step_closed.
  - destruct Hn. unfold constructing. by apply list_elem_of_fmap_2.
  - right. right. simpl. split_and!; [done | | done]. by eapply entity_step_not_open.
Qed.

(** An unused late child for which nobody has anything to do is Closed. *)
Lemma late_closed x c ch :
  base_inv x -> children x !! c = Some ch -> late ch = true -> state (backing (entity ch)) <> Open ->
  pending (entity ch) = 0 -> state (backing (entity ch)) = Closed.
Proof. intros Hb Hc Ht Hs Hp. destruct (b_child _ Hb _ _ Hc) as [Hi Hl]. destruct (Hl Ht) as (_ & ? & _). by eapply idle_closed. Qed.

Lemma adopter_unique x a a' : base_inv x -> a ∈ adopters x -> a' ∈ adopters x -> adopted a = adopted a' -> a = a'.
Proof.
  intros Hb Ha Ha' Heq. pose proof (b_unique _ Hb) as Hn.
  apply list_elem_of_lookup in Ha as [i Hi]. apply list_elem_of_lookup in Ha' as [j Hj].
  enough (i = j) by (subst; congruence). eapply (NoDup_lookup _ _ _ (adopted a) Hn); rewrite list_lookup_fmap.
  - by rewrite Hi.
  - by rewrite Hj, Heq.
Qed.

(** An adopter closes its child, and finalizes it. *)
Lemma covered_adopter_closes x p c e' l1 l2 ch :
  base_inv x -> covered x -> adopters x = l1 ++ MkAdopter p c false :: l2 -> children x !! c = Some ch ->
  close_entity (entity ch) = Some e' ->
  covered (with_adopters (l1 ++ MkAdopter p c true :: l2) (with_child c e' x)).
Proof.
  intros Hb Hcov Hl Hc He. eapply covered_keep; [exact Hcov | done | done |].
  intros rest c' ch' _ Hc'. apply (lookup_with_child c e' x c' ch') in Hc' as [(-> & ch0 & _ & ->)|[Hne Hc']].
  - left. right. left. exists (MkAdopter p c true). split_and!; [apply elem_of_middle; by left | done | by left].
  - right. right. exists ch'. split; [done|]. intros [?|[(a & Ha & ? & ?)|?]]; [by left | | by right; right].
    right. left. exists a. split; [|done]. simpl. rewrite Hl in Ha. apply elem_of_middle in Ha as [->|Ha]; [by simplify_eq|].
    apply elem_of_middle. by right.
Qed.

(** An adopter leaves a child that somebody else closed, or that it has
    finalized. *)
Lemma covered_adopter_leaves x v l1 l2 ch :
  base_inv x -> covered x -> adopters x = l1 ++ v :: l2 -> children x !! adopted v = Some ch ->
  state (backing (entity ch)) <> Open -> (closer v = true -> pending (entity ch) = 0) ->
  covered (with_adopters (l1 ++ l2) x).
Proof.
  intros Hb Hcov Hl Hc Hs Hp. apply covered_threads; [done|].
  assert (v ∈ adopters x) as Hv by (rewrite Hl; apply elem_of_middle; by left).
  intros c' ch' rest _ Hc' _ [?|[(a & Ha & Heq & Hat)|?]]; [by left | | by right; right].
  pose proof Ha as Ha'. rewrite Hl in Ha. apply elem_of_middle in Ha as [->|Ha].
  - subst c'. rewrite Hc in Hc'. injection Hc' as <-. left. destruct Hat as [Hcl|?]; [|done].
    destruct (b_adopter _ Hb v Hv) as [_ (ch' & ? & Ht & _)]. simplify_eq. eapply late_closed; eauto.
  - right. left. by exists a.
Qed.

(** A thread of [close_children] closes a child. *)
Lemma covered_closer_closes x c rest l1 l2 e' ch :
  base_inv x -> covered x -> closers x = l1 ++ MkCloser None (c :: rest) :: l2 -> children x !! c = Some ch ->
  close_entity (entity ch) = Some e' ->
  covered (with_closers (l1 ++ MkCloser (Some c) rest :: l2) (with_child c e' x)).
Proof.
  intros Hb Hcov Hl Hc He. destruct (close_entity_spec _ _ He) as (Ho & Hcl & _).
  eapply covered_keep; [exact Hcov | done | done |].
  intros rest' c' ch' _ Hc'. apply (lookup_with_child c e' x c' ch') in Hc' as [(-> & ch0 & Hc0 & ->)|[Hne Hc']].
  - simplify_eq. right. right. exists ch. split; [done|]. intros Hat. right. right. simpl. split_and!.
    + destruct Hat as [?|[(a & Ha & <- & _)|(? & _)]]; [congruence | | done].
      destruct (b_adopter _ Hb a Ha) as [_ (ch' & ? & ? & _)]. by simplify_eq.
    + congruence.
    + exists (MkCloser (Some c) rest). split; [apply elem_of_middle; by left | done].
  - right. right. exists ch'. split; [done|]. intros [?|[?|(? & ? & cl & Hin & ?)]]; [by left | by right; left|].
    right. right. split_and!; [done..|]. exists cl. split; [|done]. simpl. rewrite Hl in Hin.
    apply elem_of_middle in Hin as [->|?]; [done|]. apply elem_of_middle. by right.
Qed.

(** The middle closer is replaced, or leaves. *)
Lemma covered_closer x v l1 l2 l' :
  base_inv x -> covered x -> closers x = l1 ++ v :: l2 -> (forall cl, cl ∈ l1 ++ l2 -> cl ∈ l') ->
  (forall c ch, finalizes v = Some c -> children x !! c = Some ch -> late ch = true -> pending (entity ch) = 0) ->
  covered (with_closers l' x).
Proof.
  intros Hb Hcov Hl Hsub Hp. apply covered_threads; [done|].
  intros c ch rest _ Hc _ [?|[?|(Ht & Hs & cl & Hin & Hf)]]; [by left | by right; left|].
  rewrite Hl in Hin. apply elem_of_middle in Hin as [->|Hin].
  - left. eapply late_closed; eauto.
  - right. right. split_and!; [done..|]. exists cl. auto.
Qed.

Lemma covered_adopt x p c e :
  base_inv x -> covered x -> holder p x = Some e ->
  covered (MkContextRun (admitting x) (context x) (control x)
    (<[c := MkChild (new_entity c) (negb (admitting x))]> (children x))
    (if admitting x then adopters x else MkAdopter p c false :: adopters x) (closers x) (coordinator x)).
Proof.
  intros Hb Hcov Hp. eapply covered_keep; [exact Hcov | done | done |].
  intros rest c' ch' Hr Hc'. pose proof (waits_not_admitting x rest Hb Hr) as Ha. simpl in *. rewrite Ha in *. simpl in *.
  apply lookup_insert_Some in Hc' as [[<- <-]|[Hne Hc']].
  - left. right. left. exists (MkAdopter p c false). split_and!; [left | done | by right].
  - right. right. exists ch'. split; [done|]. intros [?|[(a & ? & ?)|?]]; [by left | | by right; right].
    right. left. exists a. split; [by right | done].
Qed.

(** [finish_shutdown] closes the next child and waits for it. *)
Lemma covered_close_child x c rest ch :
  base_inv x -> covered x -> coordinator x = Closing_next (c :: rest) -> children x !! c = Some ch ->
  covered (at_step (Waiting_closed c rest) (match close_entity (entity ch) with Some e => with_child c e x | None => x end)).
Proof.
  intros Hb Hcov Hco Hc. destruct (close_entity (entity ch)) as [e|] eqn:He.
  - destruct (decide (state (backing (context x)) = Open)) as [Ho|Hn].
    + eapply covered_keep; [exact Hcov | | done |]; unfold to_wait_for; simpl; rewrite decide_True by done; [by rewrite Hco, decide_True by done|].
      intros rest' c' ch' [= <-] Hc'. apply (lookup_with_child c e x c' ch') in Hc' as [(-> & _)|[Hne Hc']].
      * right. left. left.
      * right. right. by exists ch'.
    + exfalso. destruct (settled_children x c ch) as [Hs|(_ & Hs & _)]; try done; [by apply to_wait_for_closed | |];
        destruct (close_entity_spec _ _ He); congruence.
  - apply covered_at; [done|]. unfold to_wait_for. simpl. rewrite Hco. done.
Qed.

(** It has waited for a child, or found it gone. *)
Lemma covered_next x c rest :
  covered x -> coordinator x = Closing_next (c :: rest) \/ coordinator x = Waiting_closed c rest ->
  (forall ch, children x !! c = Some ch -> attended x c ch) ->
  covered (at_step (Closing_next rest) x).
Proof.
  intros Hcov Hco Hat. destruct (decide (state (backing (context x)) = Open)) as [Ho|Hn];
    [|apply covered_at; [done|]; unfold to_wait_for; simpl; by case_decide].
  destruct (Hcov (c :: rest)) as [Hz Ha]; [unfold to_wait_for; rewrite decide_True by done; by destruct Hco as [-> | ->]|].
  intros rest'. unfold to_wait_for. simpl. rewrite decide_True by done. intros [= <-]. split; [done|].
  intros c' ch Hc. destruct (Ha _ _ Hc) as [?|[->|?]%elem_of_cons]; [by left | left; by apply Hat | by right].
Qed.

Lemma covered_step x x' : base_inv x -> covered x -> context_step x x' -> covered x'.
Proof.
  intros Hb Hcov Hstep. pose proof (b_admitting _ Hb) as Hadm. destruct Hstep; simpl in *.
  - done.
  - pose proof (b_context _ Hb) as Hi. destruct (internal_step_keeps _ _ H) as (Hl & _ & Ho). apply covered_context; [done | |].
    + split; [|by eapply internal_step_open]. intros Hs. destruct (decide (state (backing (context x)) = Open)) as [|Hn]; [done|].
      by destruct (Ho Hn).
    + unfold operations. by rewrite Hl.
  - subst e. pose proof H as (Ha & Hs & ->)%acquire_inl. destruct (Hadm Ha) as [Hco Ho].
    intros rest Hr. unfold to_wait_for in Hr. simpl in Hr. by rewrite Hco, decide_True in Hr.
  - pose proof H0 as (_ & ->)%release_spec. apply covered_context; [done | by rewrite H |].
    rewrite H. unfold operations. simpl. rewrite count_middle. simpl. lia.
  - apply covered_child; [done|]. intros ch' Hc. simplify_eq. by apply used_attended.
  - apply covered_child; [done|]. intros ch' Hc. simplify_eq. by eapply internal_attended.
  - by eapply covered_adopt.
  - by eapply covered_adopter_closes.
  - eapply covered_adopter_leaves; [done..| |done]. by apply close_entity_None.
  - eapply covered_adopter_leaves; [done..| |done]. simpl.
    destruct (b_adopter _ Hb (MkAdopter p c true)) as [_ (ch & Hc & _ & Ho)]; [rewrite H; apply elem_of_middle; by left|].
    simpl in *. rewrite H0 in Hc. injection Hc as <-. by apply Ho.
  - apply covered_threads; [done|]. intros c ch rest _ _ _ [?|[?|(? & ? & cl & ? & ?)]]; [by left | by right; left|].
    right. right. split_and!; [done..|]. exists cl. split; [by right | done].
  - by eapply covered_closer_closes.
  - eapply covered_closer; [done | done | exact H | | done]. intros cl ?. apply elem_of_middle. by right.
  - eapply covered_closer; [done | done | exact H | |]; [intros cl ?; apply elem_of_middle; by right|].
    intros c' ch' [= <-] Hc' Ht. by eapply H0.
  - eapply covered_closer; [done | done | exact H | done | done].
  - apply covered_at; [done|]. unfold to_wait_for. simpl. rewrite H. done.
  - destruct (decide (state (backing (context x)) = Open)) as [Ho|Hn]; [|apply covered_at; [done|]; unfold to_wait_for; simpl; by case_decide].
    intros rest. unfold to_wait_for. simpl. rewrite decide_True by done. intros [= <-]. split.
    + simpl in *. apply Nat.eqb_eq in H0. pose proof (ei_refs _ _ (b_context _ Hb) Operation) as Hrefs. unfold operations. lia.
    + intros c ch Hc. right. unfold snapshot. apply list_elem_of_fmap. exists (c, ch). split; [done|]. by apply elem_of_map_to_list.
  - by apply covered_close_child.
  - eapply covered_next; [done | by right |]. intros ch' Hc. simplify_eq. left. by apply bool_decide_eq_true in H1.
  - by apply covered_at; [|unfold to_wait_for; simpl; rewrite H].
  - by apply covered_at; [|unfold to_wait_for; simpl; rewrite H].
  - apply covered_at; [done|]. unfold to_wait_for; simpl. by case_decide.
  - intros rest Hr. assert (to_wait_for x = Some []) as Hw by (unfold to_wait_for; rewrite H; by case_decide).
    assert (rest = []) as -> by (unfold to_wait_for in Hr; simpl in Hr; by case_decide; simplify_eq).
    destruct (Hcov _ Hw) as [Hz Hat]. destruct (close_entity (context x)) as [e|] eqn:He; [|by split].
    destruct (close_entity_spec _ _ He) as (_ & _ & Hl & _). split; [|done]. unfold operations in *. simpl. by rewrite Hl.
  - pose proof H as (_ & ->)%release_spec. intros rest Hr. destruct (Hcov [] ltac:(unfold to_wait_for; simpl; by case_decide)) as [Hz Hat].
    assert (rest = []) as -> by (unfold to_wait_for in Hr; simpl in Hr; by case_decide; simplify_eq).
    split; [|done]. unfold operations in *. simpl in *. rewrite count_middle in Hz. lia.
  - apply covered_at; [done|]. unfold to_wait_for. simpl. intros rest. repeat case_decide; done.
  - apply covered_at; [done|]. unfold to_wait_for. simpl. intros rest. repeat case_decide; done.
Qed.

Lemma native_context_inv : context_inv native_context.
Proof.
  split.
  - split; simpl; try done.
    + eapply (entity_step_inv 0 true (new_entity 0)); [apply new_entity_inv | by apply (es_acquire true Work)].
    + apply NoDup_nil_2.
    + intros a Ha. by apply elem_of_nil in Ha.
    + unfold adopting. simpl. lia.
  - intros rest. by unfold to_wait_for.
Qed.

Lemma covered_expire x c : covered x -> covered (without_child c x).
Proof.
  intros Hcov. eapply covered_keep; [exact Hcov | done | done |]. intros rest c' ch' _ Hc'. simpl in Hc'.
  apply lookup_delete_Some in Hc' as [Hne Hc']. right. right. by exists ch'.
Qed.

Lemma expire_inv x c ch :
  context_inv x -> children x !! c = Some ch -> ~ in_use (entity ch) -> ~ constructing c x -> context_inv (without_child c x).
Proof.
  intros [Hb Hcov] Hc Hu Hn. split; [|by apply covered_expire]. apply base_expire; [done..|].
  pose proof (held_child _ _ _ Hb Hc) as Hop. unfold operations in Hop.
  destruct (leases (entity ch)) eqn:E; [simpl in Hop; lia | by destruct Hu; left; rewrite E].
Qed.

Record context_world_inv (w : ContextWorld) : Prop := {
  w_live : context_inv (live w);
  w_created c : c ∈ created w -> is_Some (children (live w) !! c) \/ c ∈ dropping w \/ c ∈ gone w;
  w_children c : is_Some (children (live w) !! c) -> c ∈ created w;
  w_dropped c : c ∈ dropping w \/ c ∈ gone w -> c ∈ created w /\ children (live w) !! c = None }.

Lemma elem_of_snapshot c x : c ∈ snapshot x <-> is_Some (children x !! c).
Proof.
  unfold snapshot. rewrite list_elem_of_fmap. split.
  - intros ([c' ch] & -> & Hc%elem_of_map_to_list). by exists ch.
  - intros [ch Hc]. exists (c, ch). split; [done | by apply elem_of_map_to_list].
Qed.

(** An entity is forgotten only when it expires. *)
Lemma context_step_children x x' c : context_step x x' -> is_Some (children x !! c) -> is_Some (children x' !! c).
Proof.
  intros Hs Hc. assert (forall d e y, is_Some (children y !! c) -> is_Some (children (with_child d e y) !! c)) as Hw.
  { intros d e y. unfold with_child. simpl. destruct (decide (c = d)) as [->|Hne]; [rewrite lookup_alter_eq | by rewrite lookup_alter_ne].
    by destruct (children y !! d) as [|]; [eexists|]. }
  destruct Hs; simpl in *; try done; try (by apply Hw); try (case_match; by try apply Hw).
  destruct (decide (c = c0)) as [->|Hne]; [by rewrite lookup_insert_eq | by rewrite lookup_insert_ne].
Qed.

Lemma without_child_other x c c' :
  is_Some (children x !! c') -> c' = c \/ is_Some (children (without_child c x) !! c').
Proof. intros Hc. simpl. destruct (decide (c' = c)) as [->|Hne]; [by left | right; by rewrite lookup_delete_ne]. Qed.

Lemma without_child_Some x c c' : is_Some (children (without_child c x) !! c') -> is_Some (children x !! c').
Proof. simpl. intros [ch' [_ Hc']%lookup_delete_Some]. by exists ch'. Qed.

(** Whoever comes to own what it destroys, the entity was forgotten before. *)
Lemma expire_world_inv x c ch cr dr go dr' go' :
  context_world_inv (MkContextWorld x cr dr go) -> children x !! c = Some ch -> ~ in_use (entity ch) -> ~ constructing c x ->
  (forall c', c' ∈ dr' \/ c' ∈ go' <-> c' = c \/ c' ∈ dr \/ c' ∈ go) ->
  context_world_inv (MkContextWorld (without_child c x) cr dr' go').
Proof.
  intros [Hl Hcr Hch Hd] Hc Hu Hn Hall. simpl in *. split; simpl.
  - by eapply expire_inv.
  - intros c' Hc'. destruct (Hcr c' Hc') as [H|?]; [|right; apply Hall; by right].
    destruct (without_child_other x c c' H) as [->|?]; [right; apply Hall; by left | by left].
  - intros c' Hc'. apply Hch. eapply (without_child_Some x c). exact Hc'.
  - intros c' [->|Hc']%Hall; [split; [apply Hch; by exists ch | by rewrite lookup_delete_eq]|].
    destruct (Hd c' Hc') as [? Hnone]. split; [done|]. apply lookup_delete_None. by right.
Qed.

Lemma context_world_step_inv w w' : context_world_inv w -> context_world_step w w' -> context_world_inv w'.
Proof.
  intros Hw Hstep. destruct Hstep as [x x' cr dr go Hs Hf|c ch x cr dr go Hc Hu Hn _ _ _|c ch x cr dr go Hc Hu Hn _ _ _|x cr d1 c d2 go].
  - destruct Hw as [[Hb Hcov] Hcr Hch Hd]. split; simpl in *.
    + split; [by eapply base_step | by eapply covered_step].
    + intros c [Hc%elem_of_snapshot|Hc]%elem_of_app; [by left|]. destruct (Hcr c Hc); [left; by eapply context_step_children | by right].
    + intros c Hc. apply elem_of_app. left. by apply elem_of_snapshot.
    + intros c [Hin Hnone]%Hd. split; [apply elem_of_app; by right|]. destruct (children x' !! c) eqn:E; [|done].
      destruct (Hf c) as [[? ?]|?]; [by eexists | congruence | done].
  - eapply expire_world_inv; [exact Hw | exact Hc | done | done |]. intros c'. rewrite elem_of_cons. tauto.
  - eapply expire_world_inv; [exact Hw | exact Hc | done | done |]. intros c'. rewrite elem_of_cons. tauto.
  - destruct Hw as [Hl Hcr Hch Hd]. simpl in *.
    assert (forall c', c' ∈ d1 ++ d2 \/ c' ∈ c :: go <-> c' ∈ d1 ++ c :: d2 \/ c' ∈ go) as Hall.
    { intros c'. rewrite !elem_of_app, !elem_of_cons. tauto. }
    split; simpl; [done | intros c' Hc'; rewrite Hall; by apply Hcr | done | intros c'; rewrite Hall; apply Hd].
Qed.

Lemma reachable_context_inv w : reachable context_created context_world_step w -> context_world_inv w.
Proof.
  apply reachable_invariant; [|apply context_world_step_inv]. intros w' ->. split; simpl; [apply native_context_inv | | |].
  - intros c Hc. by apply elem_of_nil in Hc.
  - intros c [ch Hc]. by rewrite lookup_empty in Hc.
  - by intros c [Hc%elem_of_nil|Hc%elem_of_nil].
Qed.

(** Histories without expiry. *)
Lemma live_reachable x :
  reachable (eq native_context) context_step x ->
  exists cr, reachable context_created context_world_step (MkContextWorld x cr [] []) /\ forall c, c ∈ cr -> is_Some (children x !! c).
Proof.
  induction 1 as [x <-|x x' _ (cr & Hr & Hcr) Hs].
  - exists []. split; [by apply reach_init | intros c Hc; by apply elem_of_nil in Hc].
  - exists (snapshot x' ++ cr). split.
    + eapply reach_step; [exact Hr|]. apply cw_step; [done|]. intros c _. destruct (children x !! c) eqn:Hc; [left; by eexists|].
      right. intros [ch Hin]%Hcr. congruence.
    + intros c [Hc%elem_of_snapshot|Hc]%elem_of_app; [done|]. eapply context_step_children; eauto.
Qed.

(** C2: the native Context is shut down last.  In every interleaving, once
    [finish_shutdown] is about to shut the native Context down, and ever
    after, no user work is admitted or runs, no thread is creating an entity,
    and nobody uses any entity of the Context: of all that were ever created,
    each has been destroyed, or is being destroyed by a thread in
    [close_children] that found it first, or has been forgotten with its last
    owner, whose thread has destroyed it or is just doing so. *)
Theorem shutdown_is_last w :
  reachable context_created context_world_step w ->
  coordinator (live w) = Shutting_down \/ state (backing (context (live w))) <> Open ->
  admitting (live w) = false /\ operations (context (live w)) = 0 /\ adopters (live w) = [] /\
  (forall c ch, children (live w) !! c = Some ch ->
    ~ in_use (entity ch) /\
    ((state (backing (entity ch)) = Closed /\ destroyed (entity ch) = [c]) \/
     (late ch = true /\ exists cl, cl ∈ closers (live w) /\ finalizes cl = Some c))) /\
  (forall c, c ∈ created w -> is_Some (children (live w) !! c) \/ c ∈ dropping w \/ c ∈ gone w) /\
  (forall c, c ∈ dropping w \/ c ∈ gone w -> children (live w) !! c = None).
Proof.
  intros [[Hb Hcov] Hcr Hch Hd]%reachable_context_inv Hx. set (x := live w) in *.
  assert (to_wait_for x = Some []) as Hw.
  { unfold to_wait_for. destruct Hx as [-> |Hs]; by case_decide. }
  split_and!; [by eapply waits_not_admitting | by destruct (Hcov _ Hw) | by apply settled_adopters| |done|by intros c [_ ?]%Hd].
  intros c ch Hc. destruct (b_child _ Hb _ _ Hc) as [Hi Hl].
  destruct (settled_children x c ch Hb Hcov Hw Hc) as [Hs|(Ht & Hs & Hcl)].
  - destruct (entity_inv_closed _ _ Hi Hs). split; [done|]. by left.
  - destruct (Hl Ht) as (_ & ? & _). split; [done|]. by right.
Qed.

(** ** Examples *)

(** A user's step of the child [c]. *)
Ltac child_does c step :=
  eapply (cs_child c); [reflexivity | vm_compute; intros ?Hc; by inversion Hc | step; reflexivity | split; [by intros [=] | vm_compute; lia]].
Ltac child_goes_on c step := eapply (cs_child_internal c); [reflexivity | step; reflexivity].

(** An entity 1 of the Context, whose user holds an operation when the
    coordinator waits for it. *)
Ltac waiting_for_child H :=
  extend H with ltac:(eapply cs_context_operation; reflexivity);
  extend H with ltac:(eapply (cs_adopt None 1); [reflexivity | vm_compute; lia | reflexivity]);
  extend H with ltac:(eapply (cs_context_release _ []); [reflexivity | reflexivity | vm_compute; lia]);
  extend H with ltac:(child_does 1 ltac:(eapply (es_acquire _ Operation)));
  extend H with ltac:(apply cs_stop_admission);
  extend H with ltac:(eapply cs_finish; [reflexivity | by intros [=] | reflexivity]);
  extend H with ltac:(eapply cs_operations_done; reflexivity).

(** [request_shutdown] of the Python library calls [close_children] again when
    it is called again, also while the coordinator is in [finish_shutdown].
    An entity that was created after its snapshot is then destroyed by that
    thread, and the native Context is shut down in the meantime. *)
Example shutdown_during_destruction :
  exists x ch, reachable (eq native_context) context_step x /\ coordinator x = Shutting_down /\
    children x !! 2 = Some ch /\ state (backing (entity ch)) = Closing /\ destroyed (entity ch) = [].
Proof.
  assert (reachable (eq native_context) context_step native_context) as H by by apply reach_init.
  waiting_for_child H.
  extend H with ltac:(eapply (cs_adopt (Some 1) 2); [reflexivity | vm_compute; lia | reflexivity]).
  extend H with ltac:(apply cs_close_children).
  extend H with ltac:(eapply (cs_closer_closes 2 [1] [] []); reflexivity).
  extend H with ltac:(eapply (cs_adopter_finds_closed (Some 1) 2 _ [] []); reflexivity).
  extend H with ltac:(eapply cs_close_child; reflexivity).
  extend H with ltac:(child_does 1 ltac:(eapply (es_release _ Operation _ _ []))).
  extend H with ltac:(child_goes_on 1 ltac:(eapply is_finalize)).
  extend H with ltac:(child_goes_on 1 ltac:(eapply (is_destroy _ _ _ _ []))).
  extend H with ltac:(child_goes_on 1 ltac:(eapply is_finish)).
  extend H with ltac:(eapply cs_child_closed; reflexivity).
  extend H with ltac:(eapply cs_children_closed; reflexivity).
  eexists. eexists. split; [exact H|]. split_and!; reflexivity.
Qed.

(** A call of [finish_shutdown] whose last wait runs into its deadline leaves
    [control_] reset.  The next one comes to [control_->shutdown()] again, with
    no resource behind it, while another thread still destroys the Context. *)
Lemma control_history :
  exists x, reachable (eq native_context) context_step x /\ coordinator x = Shutting_down /\ control x = false /\
    destroying (context x) = [Some 0].
Proof.
  assert (reachable (eq native_context) context_step native_context) as H by by apply reach_init.
  extend H with ltac:(eapply cs_context_operation; reflexivity).
  extend H with ltac:(apply cs_stop_admission).
  extend H with ltac:(eapply (cs_context_release _ []); [reflexivity | reflexivity | vm_compute; lia]).
  extend H with ltac:(eapply cs_context_internal, is_release_notifies).
  extend H with ltac:(eapply cs_finish; [reflexivity | by intros [=] | reflexivity]).
  extend H with ltac:(eapply cs_operations_done; reflexivity).
  extend H with ltac:(eapply cs_children_closed; reflexivity).
  extend H with ltac:(eapply cs_shutdown; reflexivity).
  extend H with ltac:(eapply cs_close_context; reflexivity).
  extend H with ltac:(eapply (cs_reset_control _ _ []); reflexivity).
  extend H with ltac:(eapply cs_context_internal, is_finalize; reflexivity).
  extend H with ltac:(eapply cs_deadline; right; right; reflexivity).
  extend H with ltac:(eapply cs_finish; [reflexivity | by intros [=] | reflexivity]).
  extend H with ltac:(eapply cs_operations_done; reflexivity).
  extend H with ltac:(eapply cs_children_closed; reflexivity).
  eexists. split; [exact H|]. split_and!; reflexivity.
Qed.

Example control_lost :
  exists x, reachable (eq native_context) context_step x /\ coordinator x = Shutting_down /\ control x = false /\
    state (backing (context x)) <> Closed.
Proof.
  destruct control_history as (x & Hx & Hc & Hk & Hd). exists x. split_and!; [done..|]. intros Hs.
  apply live_reachable in Hx as (cr & [[Hb _] _ _ _]%reachable_context_inv & _). simpl in Hb. pose proof (ei_finalization _ _ (b_context _ Hb)) as Hf.
  unfold finalization in Hf. rewrite Hs, Hd in Hf.
  destruct (destroy_started (backing (context x))); [|by destruct Hf].
  destruct Hf as (_ & _ & _ & [(? & _)|[(? & _)|(_ & ? & _)]]); done.
Qed.

(** An entity 1 that is still Open is dropped by its last owner: it cannot be
    found any more, so the native Context is shut down while that thread
    destroys it. *)
(** A step of the threads; an entity that appears has not been there before. *)
Ltac world_step step :=
  eapply cw_step; [step | first [intros c Hc; left; exact Hc | intros c _; right; vm_compute; by intros Hc%elem_of_nil]].

Example shutdown_during_drop :
  exists w, reachable context_created context_world_step w /\ coordinator (live w) = Shutting_down /\
    1 ∈ created w /\ dropping w = [1] /\ gone w = [].
Proof.
  assert (reachable context_created context_world_step (MkContextWorld native_context [] [] [])) as H by by apply reach_init.
  extend H with ltac:(world_step ltac:(eapply cs_context_operation; reflexivity)).
  extend H with ltac:(world_step ltac:(eapply (cs_adopt None 1); [reflexivity | vm_compute; lia | reflexivity])).
  extend H with ltac:(world_step ltac:(eapply (cs_context_release _ []); [reflexivity | reflexivity | vm_compute; lia])).
  extend H with ltac:(eapply (cw_expire_open 1); [reflexivity | by intros [] | by intros Hc%elem_of_nil |
    intros [[]|(cl & Hcl%elem_of_nil & _)]; done | reflexivity | reflexivity]).
  extend H with ltac:(world_step ltac:(apply cs_stop_admission)).
  extend H with ltac:(world_step ltac:(eapply cs_finish; [reflexivity | by intros [=] | reflexivity])).
  extend H with ltac:(world_step ltac:(eapply cs_operations_done; reflexivity)).
  extend H with ltac:(world_step ltac:(eapply cs_children_closed; reflexivity)).
  eexists. split; [exact H|]. split_and!; [reflexivity | vm_compute; left | reflexivity | reflexivity].
Qed.

Lemma shutdown_is_last_witness :
  exists w ch, reachable context_created context_world_step w /\ coordinator (live w) = Shutting_down /\
    children (live w) !! 2 = Some ch /\ ~ in_use (entity ch).
Proof.
  destruct shutdown_during_destruction as (x & ch & Hx & Hc & Hch & _).
  destruct (live_reachable x Hx) as (cr & H & _). exists (MkContextWorld x cr [] []), ch. split_and!; [done..|].
  destruct (shutdown_is_last _ H (or_introl Hc)) as (_ & _ & _ & Hall & _). by destruct (Hall _ _ Hch).
Defined.
