(* ===== verification/NativeWaitSets.v ===== *)
(** * NativeWaitSets: the wait sets of dclpy and what they hold on to

    [NativeWaitSet] (src/dclpy/src/wait_set.hpp, wait_set.cpp) keeps, beside
    the registrations of a [dmw::WaitSet], what makes it safe to use the
    entities behind them: a claim on each registered entity
    ([register_backing] of waitable.hpp), a dispatch pin for each entity that a
    wait reports, and leases on its own native wait set and guard condition.

    The methods hold [registrations_mutex_], but the entities have mutexes of
    their own, so a method is a sequence of sections: [held] says which method
    holds the mutex and how far it is.  [world_step] interleaves any number of
    wait sets with all other uses of the entities ([Entities.entity_step]).
    What the native wait set answers is an argument.

    [NativeWaitSetInvariant] has the invariant, [NativeWaitSetResults] what
    follows from it. *)

From S2P Require Import Prelude Entities.
Local Open Scope nat_scope.

(** ** Entities by name; an entity's resource is its name *)

Notation Entities := (gmap nat (EntityRun nat)).

Definition acquire_run (admitted : bool) (kind : LeaseKind) (s : EntityRun nat) : Throws (EntityRun nat) :=
  match acquire admitted kind (backing s) with
  | inl b => inl (MkEntityRun b (kind :: leases s) (released s) (finalizing s) (destroying s) (finishing s)
                    (closed_calls s) (destroyed s) (waiters s))
  | inr e => inr e
  end.

(** [derive_cleanup]; the source is a lease that the caller has. *)
Definition derive_run (s : EntityRun nat) : Throws (EntityRun nat) :=
  match derive_work (backing s) with
  | inl b => inl (MkEntityRun b (Work :: leases s) (released s) (finalizing s) (destroying s) (finishing s)
                    (closed_calls s) (destroyed s) (waiters s))
  | inr e => inr e
  end.

(** The leases but for one of the kind. *)
Fixpoint without (kind : LeaseKind) (l : list LeaseKind) : option (list LeaseKind) :=
  match l with
  | [] => None
  | k :: l => if decide (k = kind) then Some l else (k ::.) <$> without kind l
  end.

(** [reset()] of a lease; [None] is [std::terminate]. *)
Definition give_back (kind : LeaseKind) (s : EntityRun nat) : option (EntityRun nat) :=
  match release kind (backing s), without kind (leases s) with
  | Some b, Some l => Some (MkEntityRun b l (S (released s)) (finalizing s) (destroying s) (finishing s)
                              (closed_calls s) (destroyed s) (waiters s))
  | _, _ => None
  end.

Definition set_registered_run (value : bool) (s : EntityRun nat) : Throws (EntityRun nat) :=
  match set_registered value (backing s) with
  | inl b => inl (MkEntityRun b (leases s) (released s) (S (finalizing s)) (destroying s) (finishing s)
                    (closed_calls s) (destroyed s) (waiters s))
  | inr e => inr e
  end.

(** ** NativeWaitSet *)

Record Entry := MkEntry { entity : nat; generation : Z; native : option Z }.
Record NativeReady := MkReady { registration : Z; attachment_generation : Z; detail_mask : Z; pin : nat }.
Record WaitReady := MkWaitReady { ready_registration : Z; ready_detail : Z }.

(** Who holds [registrations_mutex_], and what is next.  In [add]: [Claiming]
    (about to call [set_registered(true)]), [Attaching] ([wait_set.add]),
    [Attached] (giving its operation back), after a failure [Unclaiming] and
    [Abandoning].  In [remove] and [close]: [Detaching] (about to call
    [mark_unregistered]).  In [close]: [Closing] (the loop), then the calls on
    the two control entities.  In [wait]: [Pinning].  In the destructor after
    a [close] that failed: from [Dropping_own] to [Gone]. *)
Inductive Held :=
  | Free
  | Claiming (token : Z) | Attaching (token : Z) | Attached (token : Z)
  | Unclaiming (token : Z) (e : Exception) | Abandoning (token : Z) (e : Exception)
  | Detaching (token : Z) (closing : bool)
  | Closing_loop | Closing_own | Resetting_control | Closing_guard | Resetting_guard
  | Pinning (items : list WaitReady) (ready : list NativeReady)
  | Dropping_own | Dropping_guard | Dropping_guard_control | Dropping_control | Gone.

(** A wait between its sections: in the native wait; with its result, before
    the lock; holding the lock; with its batch (or exception), before
    [EndWait]. *)
Inductive WaitPhase :=
  | In_native | Collected (items : list WaitReady) | In_section | Ending (ready : list NativeReady).

(** [leaving]: the batches of waits that still have to give their lease back;
    [wakers]: the leases on the guard condition that [wake] or
    [control_wake_lease] made; [pins]: the pins of the batches returned. *)
Record NativeWaitSet := MkWaitSet {
  own : nat; guard : nat; control_ : bool; guard_control_ : bool;
  registrations : gmap Z Entry; next_registration : Z; closed_ : bool; waiting_ : bool;
  held : Held; wait_phase : option WaitPhase; leaving : list (list NativeReady); wakers : nat; pins : list nat }.

Definition new_wait_set (own guard : nat) : NativeWaitSet :=
  MkWaitSet own guard true true ∅ 1 false false Free None [] 0 [].

Section Setters.
Context (x : NativeWaitSet).
Definition with_held (h : Held) : NativeWaitSet :=
  MkWaitSet (own x) (guard x) (control_ x) (guard_control_ x) (registrations x) (next_registration x) (closed_ x)
    (waiting_ x) h (wait_phase x) (leaving x) (wakers x) (pins x).
Definition with_registrations (m : gmap Z Entry) : NativeWaitSet :=
  MkWaitSet (own x) (guard x) (control_ x) (guard_control_ x) m (next_registration x) (closed_ x)
    (waiting_ x) (held x) (wait_phase x) (leaving x) (wakers x) (pins x).
Definition with_next (n : Z) : NativeWaitSet :=
  MkWaitSet (own x) (guard x) (control_ x) (guard_control_ x) (registrations x) n (closed_ x)
    (waiting_ x) (held x) (wait_phase x) (leaving x) (wakers x) (pins x).
Definition with_controls (c g : bool) : NativeWaitSet :=
  MkWaitSet (own x) (guard x) c g (registrations x) (next_registration x) (closed_ x)
    (waiting_ x) (held x) (wait_phase x) (leaving x) (wakers x) (pins x).
Definition with_closed (c : bool) : NativeWaitSet :=
  MkWaitSet (own x) (guard x) (control_ x) (guard_control_ x) (registrations x) (next_registration x) c
    (waiting_ x) (held x) (wait_phase x) (leaving x) (wakers x) (pins x).
Definition with_wait (w : bool) (p : option WaitPhase) : NativeWaitSet :=
  MkWaitSet (own x) (guard x) (control_ x) (guard_control_ x) (registrations x) (next_registration x) (closed_ x)
    w (held x) p (leaving x) (wakers x) (pins x).
Definition with_leases (l : list (list NativeReady)) (w : nat) (p : list nat) : NativeWaitSet :=
  MkWaitSet (own x) (guard x) (control_ x) (guard_control_ x) (registrations x) (next_registration x) (closed_ x)
    (waiting_ x) (held x) (wait_phase x) l w p.
End Setters.

(** A section ends its call with a result (a token, for [add]) or goes on;
    [None]: there is no such section. *)
Notation State := (Entities * NativeWaitSet)%type.
Notation Section_ := (option (option (Throws (option Z)) * State)).

Definition returns (r : Throws (option Z)) (st : State) : Section_ := Some (Some r, (st.1, with_held st.2 Free)).
Definition goes_on (h : Held) (st : State) : Section_ := Some (None, (st.1, with_held st.2 h)).
Definition void : Throws (option Z) := inl None.

(** A section on one entity. *)
Definition on_entity (e : nat) (st : State) (f : EntityRun nat -> Section_) : Section_ :=
  match st.1 !! e with Some s => f s | None => None end.
Definition set_entity (e : nat) (s : EntityRun nat) (st : State) : State := (<[e := s]> st.1, st.2).

(** ** add and register_backing *)

Definition add (admitted : bool) (value : nat) (generation : Z) (st : State) : Section_ :=
  let x := st.2 in
  if closed_ x then returns (inr EntityClosed) st
  else if (next_registration x =? UINT64_MAX)%Z then returns (throw ResourceExhausted "Registration identities are exhausted") st
  else
    let token := next_registration x in
    on_entity value st (fun s =>
      match acquire_run admitted Operation s with
      | inr e => returns (inr e) (st.1, with_next x (token + 1))
      | inl s => goes_on (Claiming token) (set_entity value s
          (st.1, with_registrations (with_next x (token + 1)) (<[token := MkEntry value generation None]> (registrations x))))
      end).

Definition claim (token : Z) (en : Entry) (st : State) : Section_ :=
  on_entity (entity en) st (fun s =>
    match set_registered_run true s with
    | inl s => goes_on (Attaching token) (set_entity (entity en) s st)
    | inr e => goes_on (Abandoning token e) st
    end).

Definition attach (answer : Result Z) (token : Z) (en : Entry) (st : State) : Section_ :=
  match unwrap answer with
  | inl r => goes_on (Attached token) (st.1, with_registrations st.2
               (<[token := MkEntry (entity en) (generation en) (Some r)]> (registrations st.2)))
  | inr e => goes_on (Unclaiming token e) st
  end.

Definition unclaim (token : Z) (ex : Exception) (en : Entry) (st : State) : Section_ :=
  on_entity (entity en) st (fun s =>
    match set_registered_run false s with
    | inl s => goes_on (Abandoning token ex) (set_entity (entity en) s st)
    | inr _ => None
    end).

Definition abandon (token : Z) (ex : Exception) (en : Entry) (st : State) : Section_ :=
  on_entity (entity en) st (fun s =>
    match give_back Operation s with
    | Some s => returns (inr ex) (set_entity (entity en) s (st.1, with_registrations st.2 (delete token (registrations st.2))))
    | None => None
    end).

Definition added (token : Z) (en : Entry) (st : State) : Section_ :=
  on_entity (entity en) st (fun s =>
    match give_back Operation s with
    | Some s => returns (inl (Some token)) (set_entity (entity en) s st)
    | None => None
    end).

(** ** remove and set_interest *)

Definition stale {A} : Throws A := throw NotRegistered "Registration is stale".

Definition remove (answer : Result unit) (token : Z) (st : State) : Section_ :=
  match registrations st.2 !! token with
  | None => returns stale st
  | Some _ => match unwrap answer with inr e => returns (inr e) st | inl _ => goes_on (Detaching token false) st end
  end.

(** [mark_unregistered], then the entry is erased. *)
Definition detach (token : Z) (closing : bool) (en : Entry) (st : State) : Section_ :=
  on_entity (entity en) st (fun s =>
    match set_registered_run false s with
    | inl s =>
        let st := set_entity (entity en) s (st.1, with_registrations st.2 (delete token (registrations st.2))) in
        if closing then goes_on Closing_loop st else returns void st
    | inr _ => None
    end).

Definition set_interest (answer : Result unit) (token : Z) (st : State) : Section_ :=
  match registrations st.2 !! token with
  | None => returns stale st
  | Some _ => match unwrap answer with inr e => returns (inr e) st | inl _ => returns void st end
  end.

(** ** close and the destructor *)

Definition close_set (st : State) : Section_ :=
  if closed_ st.2 then returns void st
  else if waiting_ st.2 then returns (throw Busy "WaitSet still has an active wait") st
  else goes_on Closing_loop st.

(** The next turn; [first] is [registrations_.begin()]. *)
Definition close_turn (answer : Result unit) (first : Z) (st : State) : Section_ :=
  if decide (registrations st.2 = ∅) then goes_on Closing_own st
  else match registrations st.2 !! first with
       | None => None
       | Some _ => match unwrap answer with inr e => returns (inr e) st | inl _ => goes_on (Detaching first true) st end
       end.

Definition close_backing (e : nat) (next : Held) (st : State) : Section_ :=
  on_entity e st (fun s => goes_on next (match close_entity s with Some s => set_entity e s st | None => st end)).

Definition reset_control (next : Held) (st : State) : Section_ :=
  on_entity (own st.2) st (fun s =>
    match give_back Work s with
    | Some s => goes_on next (set_entity (own st.2) s (st.1, with_controls st.2 false (guard_control_ st.2)))
    | None => None
    end).

Definition reset_guard_control (st : State) (k : State -> Section_) : Section_ :=
  on_entity (guard st.2) st (fun s =>
    match give_back Work s with
    | Some s => k (set_entity (guard st.2) s (st.1, with_controls st.2 (control_ st.2) false))
    | None => None
    end).

(** ** wait *)

Definition wait (st : State) : Section_ :=
  let x := st.2 in
  if closed_ x then returns (inr EntityClosed) st
  else if waiting_ x then returns (throw Busy "WaitSet already has an active wait") st
  else if negb (control_ x) then returns (inr EntityClosed) st
  else on_entity (own x) st (fun s =>
    match derive_run s with
    | inr e => returns (inr e) st
    | inl s => goes_on Free (set_entity (own x) s (st.1, with_wait x true (Some In_native)))
    end).

(** One turn of the outer loop.  [found]: the first entry with the item's
    registration. *)
Definition pin_turn (admitted : bool) (found : Z) (items : list WaitReady) (ready : list NativeReady) (st : State) : Section_ :=
  match items with
  | [] => goes_on Free (st.1, with_wait st.2 true (Some (Ending ready)))
  | item :: items =>
      if decide (map_Forall (fun _ en => native en <> Some (ready_registration item)) (registrations st.2)) then goes_on (Pinning items ready) st
      else match registrations st.2 !! found with
           | Some en =>
               if decide (native en = Some (ready_registration item)) then
                 on_entity (entity en) st (fun s =>
                   match acquire_run admitted Dispatch s with
                   | inl s => goes_on (Pinning items (ready ++ [MkReady found (generation en) (ready_detail item) (entity en)])) (set_entity (entity en) s st)
                   | inr _ => goes_on (Pinning items ready) st
                   end)
               else None
           | None => None
           end
  end.

(** The section of [~EndWait]. *)
Definition end_wait (ready : list NativeReady) (st : State) : Section_ :=
  goes_on Free (st.1, with_leases (with_wait st.2 false None) (ready :: leaving st.2) (wakers st.2) (pins st.2)).

(** The lease of the wait is given back and the batch returned. *)
Definition leave (l1 l2 : list (list NativeReady)) (batch : list NativeReady) (st : State) : option State :=
  match st.1 !! own st.2 with
  | Some s =>
      match give_back Work s with
      | Some s => Some (set_entity (own st.2) s (st.1, with_leases st.2 (l1 ++ l2) (wakers st.2) ((pin <$> batch) ++ pins st.2)))
      | None => None
      end
  | None => None
  end.

(** ** wake, control_wake_lease, and giving leases back *)

Definition wake (st : State) : Section_ :=
  if closed_ st.2 then returns (inr EntityClosed) st
  else if negb (guard_control_ st.2) then returns (inr EntityClosed) st
  else on_entity (guard st.2) st (fun s =>
    match derive_run s with
    | inr e => returns (inr e) st
    | inl s => goes_on Free (set_entity (guard st.2) s (st.1, with_leases st.2 (leaving st.2) (S (wakers st.2)) (pins st.2)))
    end).

Definition woken (st : State) : option State :=
  match wakers st.2, st.1 !! guard st.2 with
  | S n, Some s =>
      match give_back Work s with
      | Some s => Some (set_entity (guard st.2) s (st.1, with_leases st.2 (leaving st.2) n (pins st.2)))
      | None => None
      end
  | _, _ => None
  end.

(** [DispatchPin::release] of any pin of a batch that was returned. *)
Definition release_pin (p1 : list nat) (e : nat) (p2 : list nat) (st : State) : option State :=
  match st.1 !! e with
  | Some s =>
      match give_back Dispatch s with
      | Some s => Some (set_entity e s (st.1, with_leases st.2 (leaving st.2) (wakers st.2) (p1 ++ p2)))
      | None => None
      end
  | None => None
  end.

(** ** The next section of the holder of the mutex *)

Definition entry_of (token : Z) (st : State) (k : Entry -> Section_) : Section_ :=
  match registrations st.2 !! token with Some en => k en | None => None end.

(** [added_answer], [removed_answer]: what the native wait set answers;
    [choice]: the entry that an iteration over the map comes to. *)
Definition continue (admitted : bool) (added_answer : Result Z) (removed_answer : Result unit) (choice : Z) (st : State) : Section_ :=
  match held st.2 with
  | Free | Gone => None
  | Claiming t => entry_of t st (fun en => claim t en st)
  | Attaching t => entry_of t st (fun en => attach added_answer t en st)
  | Attached t => entry_of t st (fun en => added t en st)
  | Unclaiming t e => entry_of t st (fun en => unclaim t e en st)
  | Abandoning t e => entry_of t st (fun en => abandon t e en st)
  | Detaching t closing => entry_of t st (fun en => detach t closing en st)
  | Closing_loop => close_turn removed_answer choice st
  | Closing_own => close_backing (own st.2) Resetting_control st
  | Resetting_control => reset_control Closing_guard st
  | Closing_guard => close_backing (guard st.2) Resetting_guard st
  | Resetting_guard => reset_guard_control st (fun st => returns void (st.1, with_closed st.2 true))
  | Pinning items ready => pin_turn admitted choice items ready st
  | Dropping_own => close_backing (own st.2) Dropping_guard st
  | Dropping_guard => close_backing (guard st.2) Dropping_guard_control st
  | Dropping_guard_control => reset_guard_control st (goes_on Dropping_control)
  | Dropping_control => reset_control Gone st
  end.

(** A method is called; it needs the mutex. *)
Inductive Call :=
  | C_add (value : nat) (generation : Z) | C_remove (token : Z) | C_set_interest (token : Z)
  | C_close | C_wait | C_wake.

Definition call (admitted : bool) (answer : Result unit) (c : Call) (st : State) : Section_ :=
  match c with
  | C_add value g => add admitted value g st
  | C_remove t => remove answer t st
  | C_set_interest t => set_interest answer t st
  | C_close => close_set st
  | C_wait => wait st
  | C_wake => wake st
  end.

(** One section on one wait set. *)
Inductive set_step (admitted : bool) : State -> State -> Prop :=
  | ss_call answer c r st st' :
      held st.2 = Free -> call admitted answer c st = Some (r, st') -> set_step admitted st st'
  | ss_continue a1 a2 choice r st st' :
      continue admitted a1 a2 choice st = Some (r, st') -> set_step admitted st st'
  | ss_native_wait items st :      (* what the native wait reports; an exception reports nothing *)
      wait_phase st.2 = Some In_native -> set_step admitted st (st.1, with_wait st.2 true (Some (Collected items)))
  | ss_native_wait_fails st :
      wait_phase st.2 = Some In_native -> set_step admitted st (st.1, with_wait st.2 true (Some (Ending [])))
  | ss_collect items st :
      held st.2 = Free -> wait_phase st.2 = Some (Collected items) ->
      set_step admitted st (st.1, with_held (with_wait st.2 true (Some In_section)) (Pinning items []))
  | ss_end_wait ready r st st' :
      held st.2 = Free -> wait_phase st.2 = Some (Ending ready) -> end_wait ready st = Some (r, st') -> set_step admitted st st'
  | ss_leave l1 batch l2 st st' :
      leaving st.2 = l1 ++ batch :: l2 -> leave l1 l2 batch st = Some st' -> set_step admitted st st'
  | ss_woken st st' : woken st = Some st' -> set_step admitted st st'
  | ss_release_pin p1 e p2 st st' :
      pins st.2 = p1 ++ e :: p2 -> release_pin p1 e p2 st = Some st' -> set_step admitted st st'
  | ss_drop st :                   (* the destructor, after a [close] that failed *)
      held st.2 = Free -> closed_ st.2 = false -> waiting_ st.2 = false -> leaving st.2 = [] ->
      registrations st.2 <> ∅ -> set_step admitted st (st.1, with_held st.2 Dropping_own).

(** ** What a wait set holds of an entity *)

Definition one (e e' : nat) (k k' : LeaseKind) : nat := if decide (e = e' /\ k = k') then 1 else 0.

Definition pinned (e : nat) (k : LeaseKind) (l : list nat) : nat :=
  if decide (k = Dispatch) then count_if (fun p => bool_decide (p = e)) l else 0.

Definition adding (h : Held) : option Z :=
  match h with
  | Claiming t | Attaching t | Attached t | Unclaiming t _ | Abandoning t _ => Some t
  | _ => None
  end.

Definition ready_pins (x : NativeWaitSet) : list nat :=
  match held x with Pinning _ ready => pin <$> ready | _ => [] end ++
  match wait_phase x with Some (Ending ready) => pin <$> ready | _ => [] end ++
  (pin <$> concat (leaving x)) ++ pins x.

Definition holding (x : NativeWaitSet) (e : nat) (k : LeaseKind) : nat :=
  match adding (held x) ≫= (registrations x !!.) with Some en => one (entity en) e Operation k | None => 0 end +
  (if control_ x then one (own x) e Work k else 0) +
  (if guard_control_ x then one (guard x) e Work k else 0) +
  match wait_phase x with Some _ => one (own x) e Work k | None => 0 end +
  length (leaving x) * one (own x) e Work k + wakers x * one (guard x) e Work k +
  pinned e k (ready_pins x).

(** The entries whose entity is claimed. *)
Definition claimed (x : NativeWaitSet) : gmap Z Entry :=
  match held x with
  | Claiming t | Abandoning t _ => delete t (registrations x)
  | _ => registrations x
  end.

Definition of_entity (e : nat) (m : gmap Z Entry) : nat := size (filter (fun p => entity p.2 = e) m).
Definition claims (x : NativeWaitSet) (e : nat) : nat := of_entity e (claimed x).

(** ** Any number of wait sets, and everybody else *)

Record World := MkWorld { admitting : bool; entities : Entities; sets : list NativeWaitSet }.

Definition total (f : NativeWaitSet -> nat) (l : list NativeWaitSet) : nat := sum_list_with f l.

Definition lease_count (E : Entities) (e : nat) (k : LeaseKind) : nat :=
  match E !! e with Some s => count_occ LeaseKind_eq_dec (leases s) k | None => 0 end.
Definition registered (E : Entities) (e : nat) : nat :=
  match E !! e with Some s => if executor_registered (backing s) then 1 else 0 | None => 0 end.

(** Everybody else gives back their own leases only, and registers nothing. *)
Inductive world_step : World -> World -> Prop :=
  | ws_set a E E' l1 l2 x x' :
      set_step a (E, x) (E', x') -> world_step (MkWorld a E (l1 ++ x :: l2)) (MkWorld a E' (l1 ++ x' :: l2))
  | ws_entity a E l e s s' :
      E !! e = Some s -> entity_step a s s' ->
      executor_registered (backing s') = executor_registered (backing s) ->
      (forall k, total (fun x => holding x e k) l <= count_occ LeaseKind_eq_dec (leases s') k) ->
      world_step (MkWorld a E l) (MkWorld a (<[e := s']> E) l)
  | ws_new_entity a E l e :
      E !! e = None -> world_step (MkWorld a E l) (MkWorld a (<[e := new_entity e]> E) l)
  | ws_new_set E l o g so sg :
      E !! o = None -> E !! g = None -> o <> g ->
      acquire_run true Work (new_entity o) = inl so -> acquire_run true Work (new_entity g) = inl sg ->
      world_step (MkWorld true E l) (MkWorld true (<[o := so]> (<[g := sg]> E)) (new_wait_set o g :: l))
  | ws_stop_admission a E l : world_step (MkWorld a E l) (MkWorld false E l).

Definition empty_world (w : World) : Prop := w = MkWorld true ∅ [].
