(* ===== verification/NativeWaitSetInvariant.v ===== *)
(** * NativeWaitSetInvariant: the invariant of the wait sets of dclpy

    Each section of [NativeWaitSets] takes as many leases from the entities as
    the wait set holds afterwards, and changes the registration of an entity
    with its claims ([is_ok]); so, over any number of wait sets, an entity's
    flag is the number of its claims, and the leases held exist
    ([world_inv]). *)

From S2P Require Import Prelude Entities NativeWaitSets.
Local Open Scope nat_scope.

(** ** What a section does to an entity *)

Definition ents_inv (E : Entities) : Prop := forall e s, E !! e = Some s -> entity_inv e s.

Lemma count_cons k kind l :
  count_occ LeaseKind_eq_dec (kind :: l) k = count_occ LeaseKind_eq_dec l k + (if decide (k = kind) then 1 else 0).
Proof. apply (count_middle k kind []). Qed.

Lemma without_Some kind l l' : without kind l = Some l' -> exists l1 l2, l = l1 ++ kind :: l2 /\ l' = l1 ++ l2.
Proof.
  revert l'. induction l as [|k l IH]; intros l'; cbn; [done|]. case_decide as Hk.
  - intros [= <-]. subst. by exists [], l.
  - destruct (without kind l) as [m|]; [|done]. intros [= <-].
    destruct (IH m eq_refl) as (l1 & l2 & -> & ->). by exists (k :: l1), l2.
Qed.

Lemma without_None kind l : without kind l = None -> count_occ LeaseKind_eq_dec l kind = 0.
Proof.
  induction l as [|k l IH]; cbn; [done|]. case_decide as Hk; [done|]. destruct (without kind l); [done|].
  intros _. rewrite (IH eq_refl). by destruct LeaseKind_eq_dec.
Qed.

Lemma acquire_run_step a kind s s' :
  acquire_run a kind s = inl s' ->
  entity_step a s s' /\ leases s' = kind :: leases s /\ executor_registered (backing s') = executor_registered (backing s).
Proof.
  unfold acquire_run. destruct (acquire a kind (backing s)) as [b|] eqn:Hb; [|done]. intros [= <-]. split; [|split; [done|]].
  - destruct s. by apply es_acquire.
  - apply acquire_inl in Hb as (_ & _ & ->). done.
Qed.

Lemma derive_run_step a s s' :
  derive_run s = inl s' -> Work ∈ leases s ->
  entity_step a s s' /\ leases s' = Work :: leases s /\ executor_registered (backing s') = executor_registered (backing s).
Proof.
  unfold derive_run. destruct (derive_work (backing s)) as [b|] eqn:Hb; [|done]. intros [= <-] Hw. split; [|split; [done|]].
  - destruct s. by apply es_derive.
  - apply derive_work_spec in Hb as (_ & _ & ->). done.
Qed.

Lemma give_back_step a kind s s' :
  give_back kind s = Some s' ->
  entity_step a s s' /\ (forall k, count_occ LeaseKind_eq_dec (leases s') k + (if decide (k = kind) then 1 else 0) =
    count_occ LeaseKind_eq_dec (leases s) k) /\ executor_registered (backing s') = executor_registered (backing s).
Proof.
  unfold give_back. destruct (release kind (backing s)) as [b|] eqn:Hb; [|done].
  destruct (without kind (leases s)) as [l|] eqn:Hl; [|done]. intros [= <-].
  apply without_Some in Hl as (l1 & l2 & Hl & ->). destruct s; simpl in *; subst. split; [|split].
  - by apply es_release.
  - intros k. by rewrite count_middle.
  - apply release_spec in Hb as (_ & ->). done.
Qed.

Lemma set_registered_run_step a v s s' :
  set_registered_run v s = inl s' ->
  entity_step a s s' /\ leases s' = leases s /\ executor_registered (backing s') = v /\
  (v = true -> executor_registered (backing s) = false).
Proof.
  unfold set_registered_run. destruct (set_registered v (backing s)) as [b|] eqn:Hb; [|done]. intros [= <-]. split; [|split; [done|]].
  - destruct s. by eapply es_set_registered.
  - apply set_registered_spec in Hb as [-> Hv]. split; [done|]. intros. by apply Hv.
Qed.

Lemma close_entity_step a (s s' : EntityRun nat) :
  close_entity s = Some s' ->
  entity_step a s s' /\ leases s' = leases s /\ executor_registered (backing s') = executor_registered (backing s).
Proof.
  unfold close_entity. destruct (close (backing s)) as [b|] eqn:Hb; [|done]. intros [= <-]. split; [|split; [done|]].
  - destruct s. by apply es_close.
  - apply close_Some in Hb as [_ ->]. done.
Qed.

(** A section that takes [dl] of the leases [e], [k] and gives back [dr]. *)
Record effect (a : bool) (E E' : Entities) (taken given : nat -> LeaseKind -> nat) (on off : nat -> nat) : Prop := {
  ef_inv : ents_inv E -> ents_inv E';
  ef_leases : forall e k, lease_count E' e k + given e k = lease_count E e k + taken e k;
  ef_registered : forall e, registered E' e + off e = registered E e + on e;
  ef_closing : forall e s, E !! e = Some s -> state (backing s) <> Open ->
    exists s', E' !! e = Some s' /\ state (backing s') <> Open }.

Definition none2 (e : nat) (k : LeaseKind) : nat := 0.
Definition none1 (e : nat) : nat := 0.
Definition just (e : nat) (k : LeaseKind) (e' : nat) (k' : LeaseKind) : nat := one e e' k k'.
Definition only (e e' : nat) : nat := if decide (e = e') then 1 else 0.

Lemma effect_none a E : effect a E E none2 none2 none1 none1.
Proof. split; eauto. Qed.

(** An entity does not open again. *)
Lemma entity_step_closing a (s s' : EntityRun nat) :
  entity_step a s s' -> state (backing s) <> Open -> state (backing s') <> Open.
Proof.
  destruct 1 as [s s' Hint|kind b b' l r f d e c x w H|b b' l r f d e c x w _ H|kind b b' l1 l2 r f d e c x w H|
    v b b' l r f d e c x w H|b b' l r f d e c x w H| | | |]; simpl; try done.
  - by apply internal_step_keeps.
  - by apply acquire_inl in H as (_ & ? & _).
  - by apply derive_work_spec in H as (_ & _ & ->).
  - by apply release_spec in H as (_ & ->).
  - by apply set_registered_spec in H as [-> _].
  - by apply close_Some in H as [_ ->].
Qed.

(** A step of one entity. *)
Lemma effect_step a E e s s' taken given on off :
  E !! e = Some s -> entity_step a s s' ->
  (forall k, count_occ LeaseKind_eq_dec (leases s') k + given e k = count_occ LeaseKind_eq_dec (leases s) k + taken e k) ->
  (forall e' k, e' <> e -> given e' k = taken e' k) ->
  registered {[e := s']} e + off e = registered {[e := s]} e + on e -> (forall e', e' <> e -> off e' = on e') ->
  effect a E (<[e := s']> E) taken given on off.
Proof.
  intros He Hstep Hl Hl' Hr Hr'. split.
  - intros Hi e' t Ht. destruct (decide (e = e')) as [<-|].
    + rewrite lookup_insert_eq in Ht. injection Ht as <-. eapply entity_step_inv; [by apply Hi | done].
    + rewrite lookup_insert_ne in Ht by done. by apply Hi.
  - intros e' k. unfold lease_count. destruct (decide (e = e')) as [<-|].
    + by rewrite lookup_insert_eq, He.
    + rewrite lookup_insert_ne by done. by rewrite Hl'.
  - intros e'. destruct (decide (e = e')) as [<-|].
    + unfold registered in *. rewrite !lookup_singleton_eq in Hr. by rewrite lookup_insert_eq, He.
    + unfold registered. rewrite lookup_insert_ne by done. by rewrite Hr'.
  - intros e' t Ht Hc. destruct (decide (e = e')) as [<-|]; [|exists t; by rewrite lookup_insert_ne].
    exists s'. rewrite lookup_insert_eq. split; [done|]. rewrite He in Ht. injection Ht as <-. by eapply entity_step_closing.
Qed.

Lemma one_ne e e' k k' : e' <> e -> one e e' k k' = 0.
Proof. unfold one. intros. by rewrite decide_False by intuition congruence. Qed.
Lemma one_same e k k' : one e e k k' = if decide (k' = k) then 1 else 0.
Proof. unfold one. repeat case_decide; intuition congruence. Qed.

Lemma effect_acquire a kind E e s s' :
  E !! e = Some s -> acquire_run a kind s = inl s' -> effect a E (<[e := s']> E) (just e kind) none2 none1 none1.
Proof.
  intros He H. apply acquire_run_step in H as (Hs & Hl & Hr). apply (effect_step a E e s); try done.
  - intros k. unfold just, none2. rewrite Hl, one_same, count_cons. lia.
  - intros. unfold just, none2. by rewrite one_ne.
  - unfold registered. by rewrite !lookup_singleton_eq, Hr.
Qed.

Lemma effect_derive a E e s s' :
  E !! e = Some s -> derive_run s = inl s' -> Work ∈ leases s -> effect a E (<[e := s']> E) (just e Work) none2 none1 none1.
Proof.
  intros He H Hw. apply (derive_run_step a) in H as (Hs & Hl & Hr); [|done]. apply (effect_step a E e s); try done.
  - intros k. unfold just, none2. rewrite Hl, one_same, count_cons. lia.
  - intros. unfold just, none2. by rewrite one_ne.
  - unfold registered. by rewrite !lookup_singleton_eq, Hr.
Qed.

Lemma effect_give_back a kind E e s s' :
  E !! e = Some s -> give_back kind s = Some s' -> effect a E (<[e := s']> E) none2 (just e kind) none1 none1.
Proof.
  intros He H. apply (give_back_step a) in H as (Hs & Hl & Hr). apply (effect_step a E e s); try done.
  - intros k. unfold just, none2. rewrite one_same. specialize (Hl k). lia.
  - intros. unfold just, none2. by rewrite one_ne.
  - unfold registered. by rewrite !lookup_singleton_eq, Hr.
Qed.

Lemma effect_claim a E e s s' :
  E !! e = Some s -> set_registered_run true s = inl s' -> effect a E (<[e := s']> E) none2 none2 (only e) none1.
Proof.
  intros He H. apply (set_registered_run_step a) in H as (Hs & Hl & Hr & Hf). apply (effect_step a E e s); try done.
  - intros k. by rewrite Hl.
  - unfold registered, only, none1. rewrite !lookup_singleton_eq, Hr, (Hf eq_refl). by rewrite decide_True.
  - intros. unfold only, none1. by rewrite decide_False by congruence.
Qed.

Lemma effect_unclaim a E e s s' :
  E !! e = Some s -> registered E e = 1 -> set_registered_run false s = inl s' ->
  effect a E (<[e := s']> E) none2 none2 none1 (only e).
Proof.
  intros He Hone H. apply (set_registered_run_step a) in H as (Hs & Hl & Hr & Hf). apply (effect_step a E e s); try done.
  - intros k. by rewrite Hl.
  - unfold registered, only, none1 in *. rewrite He in Hone. rewrite !lookup_singleton_eq, Hr, Hone. by rewrite decide_True.
  - intros. unfold only, none1. by rewrite decide_False by congruence.
Qed.

Lemma effect_close a E e s s' :
  E !! e = Some s -> close_entity s = Some s' -> effect a E (<[e := s']> E) none2 none2 none1 none1.
Proof.
  intros He H. apply (close_entity_step a) in H as (Hs & Hl & Hr). apply (effect_step a E e s); try done.
  - intros k. by rewrite Hl.
  - unfold registered. by rewrite !lookup_singleton_eq, Hr.
Qed.

(** ** The invariant of one wait set *)

Definition unattached (h : Held) : option Z :=
  match h with Claiming t | Attaching t | Unclaiming t _ | Abandoning t _ => Some t | _ => None end.
Definition at_token (h : Held) : option Z :=
  match h with Detaching t _ => Some t | _ => adding h end.
Definition emptied (h : Held) : bool :=
  match h with Closing_own | Resetting_control | Closing_guard | Resetting_guard => true | _ => false end.
Definition ending (h : Held) : bool :=
  match h with
  | Closing_loop | Detaching _ true | Dropping_own | Dropping_guard | Dropping_guard_control | Dropping_control | Gone => true
  | _ => emptied h
  end.
Definition control_gone (h : Held) : bool := match h with Closing_guard | Resetting_guard | Gone => true | _ => false end.
Definition guard_gone (h : Held) : bool := match h with Dropping_control | Gone => true | _ => false end.
Definition is_pinning (h : Held) : bool := match h with Pinning _ _ => true | _ => false end.

Record local_inv (x : NativeWaitSet) : Prop := {
  li_token t : at_token (held x) = Some t -> is_Some (registrations x !! t);
  li_native t en : registrations x !! t = Some en -> (native en = None <-> unattached (held x) = Some t);
  li_next t : is_Some (registrations x !! t) -> (t < next_registration x)%Z;
  li_wait : waiting_ x = true <-> wait_phase x <> None;
  li_section : is_pinning (held x) = true <-> wait_phase x = Some In_section;
  li_held : closed_ x = true -> held x = Free /\ registrations x = ∅;
  li_ending : ending (held x) = true \/ closed_ x = true -> waiting_ x = false;
  li_emptied : emptied (held x) = true -> registrations x = ∅;
  li_control : control_ x = negb (closed_ x || control_gone (held x));
  li_guard : guard_control_ x = negb (closed_ x || guard_gone (held x)) }.

Lemma new_wait_set_inv o g : local_inv (new_wait_set o g).
Proof.
  split; try done.
  intros t [en Ht]. cbv [new_wait_set registrations] in Ht. by rewrite lookup_empty in Ht.
Qed.

Lemma of_entity_insert e m t en : m !! t = None -> of_entity e (<[t := en]> m) = of_entity e m + only (entity en) e.
Proof.
  intros Hm. unfold of_entity, only. case_decide as He.
  - rewrite map_filter_insert_True by done. rewrite map_size_insert_None; [lia|]. apply map_lookup_filter_None. by left.
  - rewrite map_filter_insert_False by done. rewrite delete_id by done. lia.
Qed.

Lemma of_entity_delete e m t en : m !! t = Some en -> of_entity e m = of_entity e (delete t m) + only (entity en) e.
Proof. intros Hm. rewrite <- (insert_delete_id m t en Hm) at 1. apply of_entity_insert, lookup_delete_eq. Qed.

Lemma of_entity_replace e m t en en' : m !! t = Some en -> entity en' = entity en -> of_entity e (<[t := en']> m) = of_entity e m.
Proof.
  intros Hm He. rewrite <- insert_delete_eq, of_entity_insert by apply lookup_delete_eq.
  rewrite He. by rewrite <- of_entity_delete.
Qed.

Lemma pinned_app e k l1 l2 : pinned e k (l1 ++ l2) = pinned e k l1 + pinned e k l2.
Proof. unfold pinned. case_decide; [apply count_if_app | done]. Qed.
Lemma pinned_nil e k : pinned e k [] = 0.
Proof. unfold pinned. by case_decide. Qed.
Lemma pinned_cons e k p l : pinned e k (p :: l) = one p e Dispatch k + pinned e k l.
Proof.
  unfold pinned, one. destruct (decide (k = Dispatch)); [|by rewrite decide_False by intuition congruence].
  rewrite count_if_cons. case_bool_decide; [rewrite decide_True by done | rewrite decide_False by intuition]; done.
Qed.

(** A section on [x] that leads to [x'] and does [E'] to the entities. *)
Record section_ok (a : bool) (E E' : Entities) (x x' : NativeWaitSet) (taken given : nat -> LeaseKind -> nat) (on off : nat -> nat) : Prop := {
  so_effect : effect a E E' taken given on off;
  so_holding : forall e k, holding x' e k + given e k = holding x e k + taken e k;
  so_claims : forall e, claims x' e + off e = claims x e + on e;
  so_local : local_inv x' }.

Definition is_ok (a : bool) (st st' : State) : Prop :=
  exists taken given on off, section_ok a st.1 st'.1 st.2 st'.2 taken given on off.

Lemma is_ok_intro a E E' x x' taken given on off :
  effect a E E' taken given on off ->
  (forall e k, holding x' e k + given e k = holding x e k + taken e k) ->
  (forall e, claims x' e + off e = claims x e + on e) -> local_inv x' -> is_ok a (E, x) (E', x').
Proof. intros. exists taken, given, on, off. by split. Qed.

(** A section that only moves the thread, or sets flags. *)
Lemma is_ok_quiet a E x x' :
  (forall e k, holding x' e k = holding x e k) -> (forall e, claims x' e = claims x e) -> local_inv x' -> is_ok a (E, x) (E, x').
Proof. intros Hh Hc Hl. eapply is_ok_intro; [apply effect_none | | | done]; unfold none1, none2; intros; [by rewrite Hh | by rewrite Hc]. Qed.

(** *** add *)

Section Sections.
Context (a : bool) (E : Entities) (x : NativeWaitSet) (Hx : local_inv x).
Context (Hclaims : forall e, claims x e <= registered E e) (Hholding : forall e k, holding x e k <= lease_count E e k).

Lemma returns_ok r t E' x' : Some (r, (E', x')) = returns t (E, x) -> held x = Free -> is_ok a (E, x) (E', x').
Proof. intros [= -> -> ->] Hf. destruct x; simpl in *; subst. by apply is_ok_quiet. Qed.

Lemma add_ok v g r E' x' : held x = Free -> add a v g (E, x) = Some (r, (E', x')) -> is_ok a (E, x) (E', x').
Proof.
  intros Hf. unfold add. simpl. destruct (closed_ x) eqn:Hc; [by intros ?%eq_sym%returns_ok|].
  destruct (next_registration x =? UINT64_MAX)%Z; [by intros ?%eq_sym%returns_ok|].
  unfold on_entity. cbn [fst snd]. destruct (E !! v) as [s|] eqn:Hv; [|done].
  assert (registrations x !! next_registration x = None) as Hn.
  { apply eq_None_not_Some. intros Hs%(li_next x Hx). lia. }
  destruct (acquire_run a Operation s) as [s'|e] eqn:Hs; intros [= <- <- <-]; simpl.
  - eapply is_ok_intro; [by eapply effect_acquire | | |].
    + intros e k. unfold holding, just, none2, with_held, ready_pins. simpl. rewrite lookup_insert_eq, Hf. simpl. lia.
    + intros e. unfold claims, claimed, none1. simpl. rewrite Hf. by rewrite delete_insert_id.
    + destruct Hx. rewrite Hf in *. split; simpl in *; try done.
      * intros t [= <-]. by rewrite lookup_insert_eq.
      * intros t en. destruct (decide (t = next_registration x)) as [->|Ht].
        -- rewrite lookup_insert_eq. intros [= <-]. done.
        -- rewrite lookup_insert_ne by done. intros Ht'. rewrite (li_native0 t en Ht'). split; [done | congruence].
      * intros t. destruct (decide (t = next_registration x)) as [->|Ht]; [lia|].
        rewrite lookup_insert_ne by done. intros Ht'%li_next0. lia.
      * congruence.
  - apply is_ok_quiet.
    + unfold holding, ready_pins. simpl. by rewrite Hf.
    + unfold claims, claimed. simpl. by rewrite Hf.
    + destruct Hx. rewrite Hf in *. split; simpl in *; try done.
      intros t Ht%li_next0. lia.
Qed.

(** The rest of the invariant where only the thread has moved. *)
Ltac local Hh := destruct Hx; rewrite Hh in *; split; simpl in *; try done; try (intuition congruence).

Lemma registered_claimed e : 0 < claims x e -> registered E e = 1.
Proof.
  intros Hc. specialize (Hclaims e). unfold registered in *. destruct (E !! e) as [s|]; [|lia].
  destruct (executor_registered (backing s)); lia.
Qed.

Lemma token_native t en : registrations x !! t = Some en -> unattached (held x) = Some t -> native en = None.
Proof. intros Hl Hu. by apply (li_native x Hx t en Hl). Qed.

Lemma claim_ok t en r E' x' :
  held x = Claiming t -> registrations x !! t = Some en -> claim t en (E, x) = Some (r, (E', x')) -> is_ok a (E, x) (E', x').
Proof.
  intros Hh Hl. unfold claim, on_entity. cbn [fst snd]. destruct (E !! entity en) as [s|] eqn:He; [|done].
  destruct (set_registered_run true s) as [s'|ex] eqn:Hs; intros [= <- <- <-]; simpl.
  - eapply is_ok_intro; [by eapply effect_claim | | |].
    + intros e k. unfold holding, ready_pins, none2. simpl. by rewrite Hh.
    + intros e. unfold claims, claimed, none1. simpl. rewrite Hh. rewrite (of_entity_delete e _ t en Hl) at 1. lia.
    + local Hh.
  - apply is_ok_quiet.
    + intros e k. unfold holding, ready_pins. simpl. by rewrite Hh.
    + intros e. unfold claims, claimed. simpl. by rewrite Hh.
    + local Hh.
Qed.

Lemma attach_ok answer t en r E' x' :
  held x = Attaching t -> registrations x !! t = Some en -> attach answer t en (E, x) = Some (r, (E', x')) -> is_ok a (E, x) (E', x').
Proof.
  intros Hh Hl. unfold attach. destruct (unwrap answer) as [n|ex]; intros [= <- <- <-]; simpl.
  - apply is_ok_quiet.
    + intros e k. unfold holding, ready_pins. simpl. rewrite Hh. simpl. by rewrite lookup_insert_eq, Hl.
    + intros e. unfold claims, claimed. simpl. rewrite Hh. by apply (of_entity_replace e _ t en).
    + destruct Hx. rewrite Hh in *. split; simpl in *; try done; try (intuition congruence).
      * intros t' [= <-]. by rewrite lookup_insert_eq.
      * intros t' en'. destruct (decide (t' = t)) as [->|Ht].
        -- rewrite lookup_insert_eq. by intros [= <-].
        -- rewrite lookup_insert_ne by done. intros Ht'. rewrite (li_native0 t' en' Ht'). split; [congruence | done].
      * intros t'. destruct (decide (t' = t)) as [->|Ht]; [intros _; by apply li_next0 | rewrite lookup_insert_ne by done; apply li_next0].
  - apply is_ok_quiet.
    + intros e k. unfold holding, ready_pins. simpl. by rewrite Hh.
    + intros e. unfold claims, claimed. simpl. by rewrite Hh.
    + local Hh.
Qed.

Lemma unclaim_ok t ex en r E' x' :
  held x = Unclaiming t ex -> registrations x !! t = Some en -> unclaim t ex en (E, x) = Some (r, (E', x')) -> is_ok a (E, x) (E', x').
Proof.
  intros Hh Hl. unfold unclaim, on_entity. cbn [fst snd]. destruct (E !! entity en) as [s|] eqn:He; [|done].
  destruct (set_registered_run false s) as [s'|] eqn:Hs; [|done]. intros [= <- <- <-]; simpl.
  assert (forall e, claims x e = of_entity e (registrations x)) as Hc by (intros; unfold claims, claimed; by rewrite Hh).
  eapply is_ok_intro; [eapply effect_unclaim; [done | | done] | | |].
  - apply registered_claimed. rewrite Hc, (of_entity_delete _ _ t en Hl). unfold only. rewrite decide_True by done. lia.
  - intros e k. unfold holding, ready_pins, none2. simpl. by rewrite Hh.
  - intros e. rewrite Hc. unfold claims, claimed, none1. simpl. rewrite (of_entity_delete e _ t en Hl). unfold of_entity. lia.
  - local Hh.
Qed.

(** An entry is erased. *)
Lemma erased_inv t h :
  at_token (held x) = Some t -> (forall t', unattached (held x) = Some t' -> t' = t) ->
  at_token h = None -> unattached h = None -> ending h = ending (held x) -> emptied h = false -> is_pinning h = false ->
  is_pinning (held x) = false -> control_gone h = false -> guard_gone h = false ->
  control_gone (held x) = false -> guard_gone (held x) = false -> held x <> Free ->
  local_inv (with_held (with_registrations x (delete t (registrations x))) h).
Proof.
  intros Ht Hu Hn Hun He Hem Hp Hp' Hcg Hgg Hcg' Hgg' Hfree. destruct Hx. split; simpl in *; try (rewrite ?Hn, ?Hem; done).
  - intros t' en. destruct (decide (t' = t)) as [->|Hne]; [by rewrite lookup_delete_eq|].
    rewrite lookup_delete_ne by done. intros Hl. rewrite (li_native0 t' en Hl), Hun. split; [|done]. intros Hu'. by apply Hu in Hu'.
  - intros t'. destruct (decide (t' = t)) as [->|Hne]; [rewrite lookup_delete_eq; by intros [] | rewrite lookup_delete_ne by done; apply li_next0].
  - by rewrite Hp, <- Hp'.
  - intros Hc. by destruct (li_held0 Hc).
  - by rewrite He.
  - by rewrite Hcg, <- Hcg'.
  - by rewrite Hgg, <- Hgg'.
Qed.

Lemma abandon_add_ok t ex en r E' x' :
  held x = Abandoning t ex -> registrations x !! t = Some en -> abandon t ex en (E, x) = Some (r, (E', x')) -> is_ok a (E, x) (E', x').
Proof.
  intros Hh Hl. unfold abandon, on_entity. cbn [fst snd]. destruct (E !! entity en) as [s|] eqn:He; [|done].
  destruct (give_back Operation s) as [s'|] eqn:Hs; [|done]. intros [= <- <- <-]; simpl.
  eapply is_ok_intro; [by eapply effect_give_back | | |].
  - intros e k. unfold holding, ready_pins, none2, just. simpl. rewrite Hh. simpl. rewrite Hl. lia.
  - intros e. unfold claims, claimed, none1. simpl. by rewrite Hh.
  - apply erased_inv; rewrite ?Hh; try done. simpl. congruence.
Qed.

Lemma added_ok t en r E' x' :
  held x = Attached t -> registrations x !! t = Some en -> added t en (E, x) = Some (r, (E', x')) -> is_ok a (E, x) (E', x').
Proof.
  intros Hh Hl. unfold added, on_entity. cbn [fst snd]. destruct (E !! entity en) as [s|] eqn:He; [|done].
  destruct (give_back Operation s) as [s'|] eqn:Hs; [|done]. intros [= <- <- <-]; simpl.
  eapply is_ok_intro; [by eapply effect_give_back | | |].
  - intros e k. unfold holding, ready_pins, none2, just. simpl. rewrite Hh. simpl. rewrite Hl. lia.
  - intros e. unfold claims, claimed, none1. simpl. by rewrite Hh.
  - local Hh.
Qed.

Lemma detach_ok t closing en r E' x' :
  held x = Detaching t closing -> registrations x !! t = Some en -> detach t closing en (E, x) = Some (r, (E', x')) -> is_ok a (E, x) (E', x').
Proof.
  intros Hh Hl. unfold detach, on_entity. cbn [fst snd]. destruct (E !! entity en) as [s|] eqn:He; [|done].
  destruct (set_registered_run false s) as [s'|] eqn:Hs; [|done].
  assert (forall e, claims x e = of_entity e (registrations x)) as Hc by (intros; unfold claims, claimed; by rewrite Hh).
  enough (forall h, h = (if closing then Closing_loop else Free) ->
    is_ok a (E, x) (<[entity en := s']> E, with_held (with_registrations x (delete t (registrations x))) h)) as H.
  { destruct closing; intros [= <- <- <-]; exact (H _ eq_refl). }
  intros h Hh'. eapply is_ok_intro; [eapply effect_unclaim; [done | | done] | | |].
  - apply registered_claimed. rewrite Hc, (of_entity_delete _ _ t en Hl). unfold only. rewrite decide_True by done. lia.
  - intros e k. unfold holding, ready_pins, none2. simpl. rewrite Hh, Hh'. by destruct closing.
  - intros e. rewrite Hc, (of_entity_delete e _ t en Hl). unfold claims, claimed, none1, of_entity. simpl.
    rewrite Hh'. destruct closing; lia.
  - apply erased_inv; rewrite ?Hh, ?Hh'; try done; by destruct closing.
Qed.

(** *** remove, set_interest, close *)

(** The thread goes from one stage to another that claims and adds alike. *)
Lemma moves_ok h :
  adding h = adding (held x) -> unattached h = unattached (held x) -> is_pinning h = false -> is_pinning (held x) = false ->
  claimed (with_held x h) = claimed x -> local_inv (with_held x h) -> is_ok a (E, x) (E, with_held x h).
Proof.
  intros Ha Hu Hp Hp' Hc Hl. apply is_ok_quiet; [| |done].
  - intros e k. unfold holding, ready_pins. simpl. rewrite Ha. destruct h, (held x); done.
  - intros e. unfold claims. by rewrite Hc.
Qed.

Lemma remove_ok answer t r E' x' : held x = Free -> remove answer t (E, x) = Some (r, (E', x')) -> is_ok a (E, x) (E', x').
Proof.
  intros Hf. unfold remove. simpl. destruct (registrations x !! t) as [en|] eqn:Hl; [|by intros ?%eq_sym%returns_ok].
  destruct (unwrap answer); [|by intros ?%eq_sym%returns_ok]. intros [= <- <- <-].
  apply moves_ok; rewrite ?Hf; try done.
  - unfold claimed. simpl. by rewrite Hf.
  - local Hf.
    + intros t' [= <-]. by rewrite Hl.
    + intros [_ Hr]%li_held0. by rewrite Hr, lookup_empty in Hl.
Qed.

Lemma set_interest_ok answer t r E' x' : held x = Free -> set_interest answer t (E, x) = Some (r, (E', x')) -> is_ok a (E, x) (E', x').
Proof.
  intros Hf. unfold set_interest. simpl. destruct (registrations x !! t) as [en|]; [|by intros ?%eq_sym%returns_ok].
  destruct (unwrap answer); by intros ?%eq_sym%returns_ok.
Qed.

Lemma close_set_ok r E' x' : held x = Free -> close_set (E, x) = Some (r, (E', x')) -> is_ok a (E, x) (E', x').
Proof.
  intros Hf. unfold close_set. simpl. destruct (closed_ x) eqn:Hc; [by intros ?%eq_sym%returns_ok|].
  destruct (waiting_ x) eqn:Hw; [by intros ?%eq_sym%returns_ok|]. intros [= <- <- <-].
  apply moves_ok; rewrite ?Hf; try done.
  - unfold claimed. simpl. by rewrite Hf.
  - local Hf.
Qed.

Lemma close_turn_ok answer first r E' x' :
  held x = Closing_loop -> close_turn answer first (E, x) = Some (r, (E', x')) -> is_ok a (E, x) (E', x').
Proof.
  intros Hf. unfold close_turn. simpl. case_decide as He.
  - intros [= <- <- <-]. apply moves_ok; rewrite ?Hf; try done; [unfold claimed; simpl; by rewrite Hf | local Hf].
  - destruct (registrations x !! first) as [en|] eqn:Hl; [|done].
    destruct (unwrap answer); intros [= <- <- <-]; apply moves_ok; rewrite ?Hf; try done;
      try (unfold claimed; simpl; by rewrite Hf); local Hf.
    intros t' [= <-]. by rewrite Hl.
Qed.

Lemma close_backing_ok e next r E' x' :
  adding next = None -> adding (held x) = None -> unattached next = None -> unattached (held x) = None ->
  is_pinning next = false -> is_pinning (held x) = false -> local_inv (with_held x next) ->
  close_backing e next (E, x) = Some (r, (E', x')) -> is_ok a (E, x) (E', x').
Proof.
  intros Ha Ha' Hu Hu' Hp Hp' Hl. unfold close_backing, on_entity. cbn [fst snd]. destruct (E !! e) as [s|] eqn:He; [|done].
  assert (forall E', effect a E E' none2 none2 none1 none1 -> is_ok a (E, x) (E', with_held x next)) as H.
  { intros E'' Heff. eapply is_ok_intro; [done | | | done]; unfold none1, none2.
    - intros e' k. unfold holding, ready_pins. simpl. rewrite Ha, Ha'. by destruct next, (held x).
    - intros e'. unfold claims, claimed. simpl. by destruct next, (held x). }
  destruct (close_entity s) as [s'|] eqn:Hs; intros [= <- <- <-]; apply H; [by eapply effect_close | apply effect_none].
Qed.

Lemma reset_control_ok next r E' x' :
  (held x = Resetting_control /\ next = Closing_guard) \/ (held x = Dropping_control /\ next = Gone) ->
  reset_control next (E, x) = Some (r, (E', x')) -> is_ok a (E, x) (E', x').
Proof.
  intros Hh. unfold reset_control, on_entity. cbn [fst snd]. destruct (E !! own x) as [s|] eqn:He; [|done].
  destruct (give_back Work s) as [s'|] eqn:Hs; [|done]. intros [= <- <- <-].
  assert (control_ x = true) as Hc.
  { rewrite (li_control x Hx). destruct (closed_ x) eqn:Hc; [|by destruct Hh as [[-> _]|[-> _]]].
    apply (li_held x Hx) in Hc as [Hc _]. rewrite Hc in Hh. by destruct Hh as [[? _]|[? _]]. }
  eapply is_ok_intro; [by eapply effect_give_back | | |].
  - intros e k. unfold holding, ready_pins, none2, just. simpl. rewrite Hc. destruct Hh as [[-> ->]|[-> ->]]; simpl; lia.
  - intros e. unfold claims, claimed, none1. simpl. by destruct Hh as [[-> ->]|[-> ->]].
  - destruct Hx. destruct Hh as [[Hh ->]|[Hh ->]]; rewrite Hh in *; split; simpl in *; try done; try (intuition congruence);
      by rewrite orb_true_r.
Qed.

Lemma guard_control_there : guard_gone (held x) = false -> held x <> Free -> guard_control_ x = true.
Proof.
  intros Hg Hf. rewrite (li_guard x Hx), Hg. destruct (closed_ x) eqn:Hc; [|done]. by destruct (li_held x Hx Hc).
Qed.

Lemma reset_guard_ok r E' x' :
  held x = Resetting_guard ->
  reset_guard_control (E, x) (fun st => returns void (st.1, with_closed st.2 true)) = Some (r, (E', x')) -> is_ok a (E, x) (E', x').
Proof.
  intros Hh. unfold reset_guard_control, on_entity. cbn [fst snd]. destruct (E !! guard x) as [s|] eqn:He; [|done].
  destruct (give_back Work s) as [s'|] eqn:Hs; [|done]. intros [= <- <- <-].
  assert (guard_control_ x = true) as Hc by (apply guard_control_there; by rewrite Hh).
  eapply is_ok_intro; [by eapply effect_give_back | | |].
  - intros e k. unfold holding, ready_pins, none2, just. simpl. rewrite Hc, Hh. simpl. lia.
  - intros e. unfold claims, claimed, none1. simpl. by rewrite Hh.
  - destruct Hx. rewrite Hh in *. split; simpl in *; try done; try (intuition congruence).
    rewrite li_control0. by rewrite orb_true_r.
Qed.

Lemma drop_guard_ok r E' x' :
  held x = Dropping_guard_control -> reset_guard_control (E, x) (goes_on Dropping_control) = Some (r, (E', x')) -> is_ok a (E, x) (E', x').
Proof.
  intros Hh. unfold reset_guard_control, on_entity. cbn [fst snd]. destruct (E !! guard x) as [s|] eqn:He; [|done].
  destruct (give_back Work s) as [s'|] eqn:Hs; [|done]. intros [= <- <- <-].
  assert (guard_control_ x = true) as Hc by (apply guard_control_there; by rewrite Hh).
  eapply is_ok_intro; [by eapply effect_give_back | | |].
  - intros e k. unfold holding, ready_pins, none2, just. simpl. rewrite Hc, Hh. simpl. lia.
  - intros e. unfold claims, claimed, none1. simpl. by rewrite Hh.
  - destruct Hx. rewrite Hh in *. split; simpl in *; try done; try (intuition congruence). by rewrite orb_true_r.
Qed.

(** *** wait, wake *)

Lemma work_lease e s : E !! e = Some s -> 0 < holding x e Work -> Work ∈ leases s.
Proof.
  intros He Hh. specialize (Hholding e Work). unfold lease_count in Hholding. rewrite He in Hholding.
  apply list_elem_of_In, (count_occ_In LeaseKind_eq_dec). lia.
Qed.

Lemma wait_ok r E' x' : held x = Free -> wait (E, x) = Some (r, (E', x')) -> is_ok a (E, x) (E', x').
Proof.
  intros Hf. unfold wait. cbn [fst snd]. destruct (closed_ x) eqn:Hc; [by intros ?%eq_sym%returns_ok|].
  destruct (waiting_ x) eqn:Hw; [by intros ?%eq_sym%returns_ok|].
  destruct (control_ x) eqn:Hk; [|by intros ?%eq_sym%returns_ok]. unfold on_entity. cbn [fst snd negb].
  destruct (E !! own x) as [s|] eqn:He; [|done].
  destruct (derive_run s) as [s'|ex] eqn:Hs; [|by intros ?%eq_sym%returns_ok]. intros [= <- <- <-].
  assert (wait_phase x = None) as Hp by (destruct (wait_phase x) eqn:Hp; [|done]; by rewrite (proj2 (li_wait x Hx)) in Hw by congruence).
  eapply is_ok_intro; [eapply effect_derive; [done | done |] | | |].
  - apply (work_lease (own x)); [done|]. unfold holding. rewrite Hk, one_same. simpl. lia.
  - intros e k. unfold holding, ready_pins, none2, just. simpl. rewrite Hp, Hf. simpl. lia.
  - intros e. unfold claims, claimed, none1. simpl. by rewrite Hf.
  - local Hf.
Qed.

Lemma wake_ok r E' x' : held x = Free -> wake (E, x) = Some (r, (E', x')) -> is_ok a (E, x) (E', x').
Proof.
  intros Hf. unfold wake. cbn [fst snd]. destruct (closed_ x) eqn:Hc; [by intros ?%eq_sym%returns_ok|].
  destruct (guard_control_ x) eqn:Hk; [|by intros ?%eq_sym%returns_ok]. unfold on_entity. cbn [fst snd negb].
  destruct (E !! guard x) as [s|] eqn:He; [|done].
  destruct (derive_run s) as [s'|ex] eqn:Hs; [|by intros ?%eq_sym%returns_ok]. intros [= <- <- <-].
  eapply is_ok_intro; [eapply effect_derive; [done | done |] | | |].
  - apply (work_lease (guard x)); [done|]. unfold holding. rewrite Hk, one_same. simpl. lia.
  - intros e k. unfold holding, ready_pins, none2, just. simpl. rewrite Hf. simpl. lia.
  - intros e. unfold claims, claimed, none1. simpl. by rewrite Hf.
  - local Hf.
Qed.

Lemma pin_turn_ok found items ready r E' x' :
  held x = Pinning items ready -> pin_turn a found items ready (E, x) = Some (r, (E', x')) -> is_ok a (E, x) (E', x').
Proof.
  intros Hh. unfold pin_turn. cbn [fst snd].
  assert (forall items', is_ok a (E, x) (E, with_held x (Pinning items' ready))) as Hsame.
  { intros items'. apply is_ok_quiet.
    - intros e k. unfold holding, ready_pins. simpl. by rewrite Hh.
    - intros e. unfold claims, claimed. simpl. by rewrite Hh.
    - local Hh. }
  assert (wait_phase x = Some In_section) as Hp by (apply (li_section x Hx); by rewrite Hh).
  destruct items as [|item items].
  - intros [= <- <- <-]. apply is_ok_quiet.
    + intros e k. unfold holding, ready_pins. simpl. rewrite Hh, Hp. simpl. rewrite !pinned_app. lia.
    + intros e. unfold claims, claimed. simpl. by rewrite Hh.
    + local Hh.
  - case_decide as Hn; [intros [= <- <- <-]; apply Hsame|].
    destruct (registrations x !! found) as [en|] eqn:Hl; [|done]. case_decide as He; [|done].
    unfold on_entity. cbn [fst snd]. destruct (E !! entity en) as [s|] eqn:Hs; [|done].
    destruct (acquire_run a Dispatch s) as [s'|] eqn:Ha; intros [= <- <- <-]; [|apply Hsame].
    eapply is_ok_intro; [by eapply effect_acquire | | |].
    + intros e k. unfold holding, ready_pins, none2, just. simpl. rewrite Hh, Hp. simpl.
      rewrite fmap_app, !pinned_app. simpl. rewrite pinned_cons, pinned_nil. lia.
    + intros e. unfold claims, claimed, none1. simpl. by rewrite Hh.
    + local Hh.
Qed.

(** The wait moves on without the mutex. *)
Lemma phase_ok p p' :
  wait_phase x = Some p -> p <> In_section -> p' <> In_section ->
  match p, p' with Ending _, _ => False | _, Ending ready => ready = [] | _, _ => True end ->
  is_ok a (E, x) (E, with_wait x true (Some p')).
Proof.
  intros Hp Hns Hns' Hm. assert (waiting_ x = true) as Hw by (apply (li_wait x Hx); congruence). apply is_ok_quiet.
  - intros e k. unfold holding, ready_pins. simpl. rewrite Hp. destruct p, p'; subst; done.
  - intros e. unfold claims, claimed. done.
  - destruct Hx. split; simpl in *; try done.
    + rewrite li_section0, Hp. split; congruence.
    + intros He. rewrite li_ending0 in Hw; done.
Qed.

Lemma collect_ok items :
  held x = Free -> wait_phase x = Some (Collected items) ->
  is_ok a (E, x) (E, with_held (with_wait x true (Some In_section)) (Pinning items [])).
Proof.
  intros Hf Hp. assert (waiting_ x = true) as Hw by (apply (li_wait x Hx); congruence). apply is_ok_quiet.
  - intros e k. unfold holding, ready_pins. simpl. by rewrite Hp, Hf.
  - intros e. unfold claims, claimed. simpl. by rewrite Hf.
  - local Hf.
Qed.

Lemma end_wait_ok ready r E' x' :
  held x = Free -> wait_phase x = Some (Ending ready) -> end_wait ready (E, x) = Some (r, (E', x')) -> is_ok a (E, x) (E', x').
Proof.
  intros Hf Hp [= <- <- <-]. apply is_ok_quiet.
  - intros e k. unfold holding, ready_pins. simpl. rewrite Hp, Hf. simpl. rewrite !fmap_app, !pinned_app. lia.
  - intros e. unfold claims, claimed. simpl. by rewrite Hf.
  - local Hf.
Qed.

Lemma leave_ok l1 batch l2 E' x' :
  leaving x = l1 ++ batch :: l2 -> leave l1 l2 batch (E, x) = Some (E', x') -> is_ok a (E, x) (E', x').
Proof.
  intros Hl. unfold leave. cbn [fst snd]. destruct (E !! own x) as [s|] eqn:He; [|done].
  destruct (give_back Work s) as [s'|] eqn:Hs; [|done]. intros [= <- <-].
  eapply is_ok_intro; [by eapply effect_give_back | | |].
  - intros e k. unfold holding, ready_pins, none2, just. simpl. rewrite Hl, !length_app, !concat_app. simpl.
    rewrite !fmap_app, !pinned_app. lia.
  - intros e. unfold claims, claimed, none1. simpl. lia.
  - destruct Hx. by split.
Qed.

Lemma woken_ok E' x' : woken (E, x) = Some (E', x') -> is_ok a (E, x) (E', x').
Proof.
  unfold woken. cbn [fst snd]. destruct (wakers x) as [|n] eqn:Hw; [done|]. destruct (E !! guard x) as [s|] eqn:He; [|done].
  destruct (give_back Work s) as [s'|] eqn:Hs; [|done]. intros [= <- <-].
  eapply is_ok_intro; [by eapply effect_give_back | | |].
  - intros e k. unfold holding, ready_pins, none2, just. simpl. rewrite Hw. lia.
  - intros e. unfold claims, claimed, none1. simpl. lia.
  - destruct Hx. by split.
Qed.

Lemma release_pin_ok p1 p p2 E' x' :
  pins x = p1 ++ p :: p2 -> release_pin p1 p p2 (E, x) = Some (E', x') -> is_ok a (E, x) (E', x').
Proof.
  intros Hl. unfold release_pin. cbn [fst snd]. destruct (E !! p) as [s|] eqn:He; [|done].
  destruct (give_back Dispatch s) as [s'|] eqn:Hs; [|done]. intros [= <- <-].
  eapply is_ok_intro; [by eapply effect_give_back | | |].
  - intros e k. unfold holding, ready_pins, none2, just. simpl. rewrite Hl, !pinned_app, pinned_cons. lia.
  - intros e. unfold claims, claimed, none1. simpl. lia.
  - destruct Hx. by split.
Qed.

Lemma drop_ok :
  held x = Free -> closed_ x = false -> waiting_ x = false -> is_ok a (E, x) (E, with_held x Dropping_own).
Proof.
  intros Hf Hc Hw. apply moves_ok; rewrite ?Hf; try done; [unfold claimed; simpl; by rewrite Hf | local Hf].
Qed.

Lemma entry_of_Some t k y : entry_of t (E, x) k = Some y -> exists en, registrations x !! t = Some en /\ k en = Some y.
Proof. unfold entry_of. simpl. destruct (registrations x !! t) as [en|]; [|done]. intros. by exists en. Qed.

Lemma continue_ok a1 a2 choice r E' x' : continue a a1 a2 choice (E, x) = Some (r, (E', x')) -> is_ok a (E, x) (E', x').
Proof.
  unfold continue. cbn [fst snd]. destruct (held x) as [|t|t|t|t ex|t ex|t c| | | | | |items ready| | | | |] eqn:Hh; try done.
  - intros (en & Hl & H)%entry_of_Some. by eapply claim_ok.
  - intros (en & Hl & H)%entry_of_Some. by eapply attach_ok.
  - intros (en & Hl & H)%entry_of_Some. by eapply added_ok.
  - intros (en & Hl & H)%entry_of_Some. by eapply unclaim_ok.
  - intros (en & Hl & H)%entry_of_Some. by eapply abandon_add_ok.
  - intros (en & Hl & H)%entry_of_Some. by eapply detach_ok.
  - by apply close_turn_ok.
  - apply close_backing_ok; rewrite ?Hh; try done. local Hh.
  - apply reset_control_ok. by left.
  - apply close_backing_ok; rewrite ?Hh; try done. local Hh.
  - by apply reset_guard_ok.
  - by apply pin_turn_ok.
  - apply close_backing_ok; rewrite ?Hh; try done. local Hh.
  - apply close_backing_ok; rewrite ?Hh; try done. local Hh.
  - by apply drop_guard_ok.
  - apply reset_control_ok. by right.
Qed.

End Sections.

Lemma set_step_ok a st st' :
  set_step a st st' -> local_inv st.2 -> (forall e, claims st.2 e <= registered st.1 e) ->
  (forall e k, holding st.2 e k <= lease_count st.1 e k) -> is_ok a st st'.
Proof.
  intros Hstep Hx Hc Hh. destruct Hstep as [answer c r [] [] Hf H|a1 a2 choice r [] [] H|items [] Hp|[] Hp|items [] Hf Hp|
    ready r [] [] Hf Hp H|l1 batch l2 [] [] Hl H|[] [] H|p1 p p2 [] [] Hl H|[] Hf Hd Hw Hl Hr]; simpl in *.
  - destruct c; simpl in H; [by eapply add_ok | by eapply remove_ok | by eapply set_interest_ok | by eapply close_set_ok |
      by eapply wait_ok | by eapply wake_ok].
  - by eapply continue_ok.
  - by eapply phase_ok.
  - by eapply phase_ok.
  - by apply collect_ok.
  - by eapply end_wait_ok.
  - by eapply leave_ok.
  - by eapply woken_ok.
  - by eapply release_pin_ok.
  - by apply drop_ok.
Qed.

(** *** The control entities are closed in [close] and in the destructor *)

Definition own_closing (x : NativeWaitSet) : bool :=
  closed_ x ||
  match held x with
  | Resetting_control | Closing_guard | Resetting_guard | Dropping_guard | Dropping_guard_control | Dropping_control | Gone => true
  | _ => false
  end.
Definition guard_closing (x : NativeWaitSet) : bool :=
  closed_ x || match held x with Resetting_guard | Dropping_guard_control | Dropping_control | Gone => true | _ => false end.

Definition is_closing (E : Entities) (e : nat) : Prop := exists s, E !! e = Some s /\ state (backing s) <> Open.
Definition closing_inv (E : Entities) (x : NativeWaitSet) : Prop :=
  (own_closing x = true -> is_closing E (own x)) /\ (guard_closing x = true -> is_closing E (guard x)).

Lemma close_entity_closing (s : EntityRun nat) : state (backing (match close_entity s with Some s' => s' | None => s end)) <> Open.
Proof. unfold close_entity, close. by destruct (decide (state (backing s) = Open)). Qed.

Definition closes_own (h : Held) : bool := match h with Closing_own | Dropping_own => true | _ => false end.
Definition closes_guard (h : Held) : bool := match h with Closing_guard | Dropping_guard => true | _ => false end.

(** Where a section leads: the control entities stay, and are closing
    afterwards only if they were before or the section closes them. *)
Definition leads (st st' : State) : Prop :=
  own st'.2 = own st.2 /\ guard st'.2 = guard st.2 /\
  (own_closing st'.2 = true -> own_closing st.2 = true \/ (closes_own (held st.2) = true /\ is_closing st'.1 (own st.2))) /\
  (guard_closing st'.2 = true -> guard_closing st.2 = true \/ (closes_guard (held st.2) = true /\ is_closing st'.1 (guard st.2))).

Lemma leads_same st st' :
  own st'.2 = own st.2 -> guard st'.2 = guard st.2 -> (own_closing st'.2 = true -> own_closing st.2 = true) ->
  (guard_closing st'.2 = true -> guard_closing st.2 = true) -> leads st st'.
Proof. unfold leads. intuition. Qed.

Lemma call_leads a answer c r st st' : held st.2 = Free -> call a answer c st = Some (r, st') -> leads st st'.
Proof.
  intros Hf H. destruct st as [E x], x; simpl in Hf; subst. apply leads_same.
  all: destruct c; cbn -[acquire_run derive_run] in H;
    unfold add, remove, set_interest, close_set, wait, wake, on_entity, returns, goes_on, set_entity in H; cbn -[acquire_run derive_run] in H;
    repeat (case_match; simplify_eq/=); done.
Qed.

Lemma close_backing_closing e next r st st' : close_backing e next st = Some (r, st') -> is_closing st'.1 e.
Proof.
  unfold close_backing, on_entity. destruct (st.1 !! e) as [s|] eqn:He; [|done]. pose proof (close_entity_closing s) as Hs.
  destruct (close_entity s); intros [= <- <-]; simpl in *; [exists e0; by rewrite lookup_insert_eq | by exists s].
Qed.

Lemma continue_leads a a1 a2 choice r st st' : continue a a1 a2 choice st = Some (r, st') -> leads st st'.
Proof.
  intros H. destruct st as [E x], x as [o g c gc m n cl w h p l k q]. destruct h as [|t|t|t|t ex|t ex|t cls| | | | | |items ready| | | | |];
    cbn -[acquire_run give_back set_registered_run close_backing] in H; try done.
  8,10,13,14: pose proof (close_backing_closing _ _ _ _ _ H) as Hcl;
    unfold close_backing, on_entity, goes_on, set_entity in H; cbn -[close_entity] in H; repeat (case_match; simplify_eq/=);
    unfold leads, own_closing, guard_closing; simpl; rewrite ?orb_true_r, ?orb_false_r; intuition.
  all: apply leads_same;
    unfold entry_of, claim, attach, added, unclaim, abandon, detach, close_turn, reset_control, reset_guard_control, pin_turn,
      on_entity, returns, goes_on, set_entity in H;
    cbn -[acquire_run give_back set_registered_run] in H; repeat (case_match; simplify_eq/=); try done;
    unfold own_closing, guard_closing; simpl; by rewrite ?orb_true_r, ?orb_false_r.
Qed.

Lemma set_step_closing a st st' :
  set_step a st st' -> is_ok a st st' -> closing_inv st.1 st.2 -> closing_inv st'.1 st'.2.
Proof.
  intros Hstep (taken & given & on & off & [Heff _ _ _]) [Ho Hg].
  assert (forall e, is_closing st.1 e -> is_closing st'.1 e) as Hkeep.
  { intros e (s & Hs & Hc). by apply (ef_closing _ _ _ _ _ _ _ Heff) in Hs. }
  enough (leads st st') as (Eo & Eg & Hown & Hguard).
  { unfold closing_inv. rewrite Eo, Eg. split; [intros [?|[_ ?]]%Hown | intros [?|[_ ?]]%Hguard]; auto. }
  destruct Hstep as [answer c r st st' Hf H|a1 a2 choice r st st' H|items [E x] Hp|[E x] Hp|items [E x] Hf Hp|
    ready r [E x] st' Hf Hp H|l1 batch l2 [E x] [] Hl H|[E x] [] H|p1 p p2 [E x] [] Hl H|[E x] Hf Hd Hw Hl Hr].
  1: by eapply call_leads.
  1: by eapply continue_leads.
  all: apply leads_same; unfold own_closing, guard_closing; simpl in *;
    unfold end_wait, leave, woken, release_pin, returns, goes_on, set_entity in *; simplify_eq/=;
    repeat (case_match; simplify_eq/=); try done; by rewrite ?Hf, ?Hd.
Qed.

(** ** The invariant of the world *)

Record world_inv (w : World) : Prop := {
  wi_entities : ents_inv (entities w);
  wi_sets : Forall local_inv (sets w);
  wi_closing : Forall (closing_inv (entities w)) (sets w);
  wi_claims e : total (fun x => claims x e) (sets w) = registered (entities w) e;
  wi_leases e k : total (fun x => holding x e k) (sets w) <= lease_count (entities w) e k }.

Lemma total_app f l1 l2 : total f (l1 ++ l2) = total f l1 + total f l2.
Proof. apply sum_list_with_app. Qed.
Lemma total_middle f l1 x l2 : total f (l1 ++ x :: l2) = f x + total f (l1 ++ l2).
Proof. rewrite !total_app. unfold total. simpl. lia. Qed.

Lemma holding_new o g e k : holding (new_wait_set o g) e k = one o e Work k + one g e Work k.
Proof. unfold holding, ready_pins. simpl. rewrite pinned_nil. lia. Qed.

Lemma new_entity_facts e E :
  E !! e = None -> ents_inv E -> ents_inv (<[e := new_entity e]> E) /\
  (forall e' k, lease_count (<[e := new_entity e]> E) e' k = lease_count E e' k) /\
  (forall e', registered (<[e := new_entity e]> E) e' = registered E e').
Proof.
  intros He Hi. split; [|split].
  - intros e' s. destruct (decide (e = e')) as [<-|]; [|rewrite lookup_insert_ne by done; apply Hi].
    rewrite lookup_insert_eq. intros [= <-]. apply (reachable_entity_inv e (true, new_entity e)). by apply reach_init.
  - intros e' k. unfold lease_count. destruct (decide (e = e')) as [<-|]; [by rewrite lookup_insert_eq, He | by rewrite lookup_insert_ne].
  - intros e'. unfold registered. destruct (decide (e = e')) as [<-|]; [by rewrite lookup_insert_eq, He | by rewrite lookup_insert_ne].
Qed.

(** A new control entity, with the lease on it. *)
Lemma new_control_facts e s E :
  E !! e = None -> acquire_run true Work (new_entity e) = inl s -> ents_inv E ->
  ents_inv (<[e := s]> E) /\ (forall e' k, lease_count (<[e := s]> E) e' k = lease_count E e' k + one e e' Work k) /\
  (forall e', registered (<[e := s]> E) e' = registered E e').
Proof.
  intros He Hs Hi. destruct (new_entity_facts e E He Hi) as (Hi' & Hl & Hr).
  pose proof (effect_acquire true Work _ e _ s (lookup_insert_eq E e (new_entity e)) Hs) as [Hi2 Hl2 Hr2 _].
  rewrite insert_insert_eq in *. split; [by apply Hi2|]. split.
  - intros e' k. specialize (Hl2 e' k). rewrite Hl in Hl2. unfold none2, just in Hl2. lia.
  - intros e'. specialize (Hr2 e'). rewrite Hr in Hr2. unfold none1 in Hr2. lia.
Qed.

Lemma closing_inv_mono E E' x :
  (forall e, is_closing E e -> is_closing E' e) -> closing_inv E x -> closing_inv E' x.
Proof. intros Hk [Ho Hg]. split; auto. Qed.

Lemma is_closing_insert E e s :
  (forall s', E !! e = Some s' -> state (backing s') <> Open -> state (backing s) <> Open) ->
  forall e', is_closing E e' -> is_closing (<[e := s]> E) e'.
Proof.
  intros Hs e' (s' & Hs' & Hc). destruct (decide (e = e')) as [<-|]; [|exists s'; by rewrite lookup_insert_ne].
  exists s. rewrite lookup_insert_eq. eauto.
Qed.

Lemma sets_step_inv w w' : world_inv w -> world_step w w' -> world_inv w'.
Proof.
  intros [Hi Hs Hcl Hc Hl] Hstep. destruct Hstep as [a E E' l1 l2 x x' Hstep|a E l e s s' He Hstep Hr Hh|a E l e He|
    E l o g so sg Ho Hg Hne Hso Hsg|a E l]; simpl in *.
  - apply Forall_app in Hs as [Hs1 [Hx Hs2]%Forall_cons].
    apply Forall_app in Hcl as [Hcl1 [Hclx Hcl2]%Forall_cons].
    assert (is_ok a (E, x) (E', x')) as Hok.
    { apply set_step_ok; simpl; [done | done | |].
      - intros e. specialize (Hc e). rewrite total_middle in Hc. lia.
      - intros e k. specialize (Hl e k). rewrite total_middle in Hl. lia. }
    pose proof (set_step_closing _ _ _ Hstep Hok Hclx) as Hclx'.
    destruct Hok as (taken & given & on & off & [[Hi' Hl' Hr' Hkeep] Hh Hcla Hx']); simpl in *.
    assert (forall y, closing_inv E y -> closing_inv E' y) as Hmono.
    { intros y. apply closing_inv_mono. intros e (s & Hs' & Hn). by apply (Hkeep _ _ Hs'). }
    split; simpl; [auto | apply Forall_app; auto | apply Forall_app; split; [|constructor]; eauto using Forall_impl | |].
      * intros e. specialize (Hc e). specialize (Hr' e). specialize (Hcla e). rewrite total_middle in *. lia.
      * intros e k. specialize (Hl e k). specialize (Hl' e k). specialize (Hh e k). rewrite total_middle in *. lia.
  - split; simpl; [| done | | |].
    2: { eapply Forall_impl; [exact Hcl|]. intros y. apply closing_inv_mono, is_closing_insert. intros s0 Hs0.
      rewrite He in Hs0. injection Hs0 as <-. by eapply entity_step_closing. }
    + intros e' t. destruct (decide (e = e')) as [<-|]; [|rewrite lookup_insert_ne by done; apply Hi].
      rewrite lookup_insert_eq. intros [= <-]. eapply entity_step_inv; [by apply Hi | done].
    + intros e'. rewrite Hc. unfold registered. destruct (decide (e = e')) as [<-|]; [|by rewrite lookup_insert_ne].
      by rewrite lookup_insert_eq, He, Hr.
    + intros e' k. unfold lease_count. destruct (decide (e = e')) as [<-|]; [by rewrite lookup_insert_eq|].
      rewrite lookup_insert_ne by done. apply Hl.
  - destruct (new_entity_facts e E He Hi) as (Hi' & Hl' & Hr'). split; simpl; [done | done | | |].
    + eapply Forall_impl; [exact Hcl|]. intros y. apply closing_inv_mono, is_closing_insert. congruence.
    + intros e'. by rewrite Hr'.
    + intros e' k. by rewrite Hl'.
  - destruct (new_control_facts g sg E Hg Hsg Hi) as (Hi1 & Hl1 & Hr1).
    destruct (new_control_facts o so (<[g := sg]> E)) as (Hi2 & Hl2 & Hr2); [by rewrite lookup_insert_ne | done | done |].
    split; simpl; [done | constructor; [apply new_wait_set_inv | done] | | |].
    + constructor; [done|]. eapply Forall_impl; [exact Hcl|]. intros y. apply closing_inv_mono. intros e He.
      apply is_closing_insert; [intros s'; rewrite lookup_insert_ne by done; congruence|].
      apply is_closing_insert; [congruence | done].
    + intros e. by rewrite Hr2, Hr1, <- Hc.
    + intros e k. rewrite Hl2, Hl1, holding_new. specialize (Hl e k). lia.
  - by split.
Qed.

Lemma reachable_world_inv w : reachable empty_world world_step w -> world_inv w.
Proof.
  apply reachable_invariant; [|apply sets_step_inv]. intros w' ->. split; simpl; try done.
Qed.
