(* ===== verification/NativeWaitSetResults.v ===== *)
(** * NativeWaitSetResults: what the wait sets of dclpy promise

    An entity is in one wait set at most, nothing that a wait set uses is
    destroyed under it, its methods end, and closing it lets go of it. *)

From S2P Require Import Prelude Entities NativeWaitSets NativeWaitSetInvariant.
Local Open Scope nat_scope.

(** ** What the wait sets promise *)

Lemma total_lookup f (l : list NativeWaitSet) i x : l !! i = Some x -> f x <= total f l.
Proof. intros Hi. rewrite <- (take_drop_middle l i x Hi), total_middle. lia. Qed.

Lemma total_two f (l : list NativeWaitSet) i j x y : l !! i = Some x -> l !! j = Some y -> i <> j -> f x + f y <= total f l.
Proof.
  revert i j. induction l as [|z l IH]; intros [|i] [|j]; simpl; try done; unfold total; simpl.
  - intros [= ->] Hj _. pose proof (total_lookup f l j y Hj). unfold total in *. lia.
  - intros Hi [= ->] _. pose proof (total_lookup f l i x Hi). unfold total in *. lia.
  - intros Hi Hj Hne. specialize (IH i j Hi Hj). unfold total in IH. lia.
Qed.

Lemma total_positive f (l : list NativeWaitSet) : 0 < total f l -> exists i x, l !! i = Some x /\ 0 < f x.
Proof.
  induction l as [|z l IH]; unfold total; simpl; [lia|]. intros H. destruct (decide (0 < f z)); [by exists 0, z|].
  destruct IH as (i & x & Hi & Hf); [unfold total; lia|]. by exists (S i), x.
Qed.

Lemma of_entity_positive e m : 0 < of_entity e m <-> exists t en, m !! t = Some en /\ entity en = e.
Proof.
  split.
  - unfold of_entity. intros H. destruct (map_choose (filter (fun p => entity p.2 = e) m)) as (t & en & Ht).
    { intros He. rewrite He, map_size_empty in H. lia. }
    apply map_lookup_filter_Some in Ht as [Hm Hen]. by exists t, en.
  - intros (t & en & Ht & He). rewrite (of_entity_delete e m t en Ht). unfold only. rewrite decide_True by done. lia.
Qed.

Lemma of_entity_unique e m t u en en' :
  of_entity e m <= 1 -> m !! t = Some en -> entity en = e -> m !! u = Some en' -> entity en' = e -> t = u.
Proof.
  intros Hle Ht He Hu He'. destruct (decide (t = u)) as [|Hne]; [done|]. exfalso.
  rewrite (of_entity_delete e m t en Ht) in Hle.
  assert (0 < of_entity e (delete t m)) by (apply of_entity_positive; exists u, en'; by rewrite lookup_delete_ne).
  unfold only in Hle. rewrite decide_True in Hle by done. lia.
Qed.

(** The resource of [e] is in place. *)
Definition alive (E : Entities) (e : nat) : Prop :=
  exists s, E !! e = Some s /\ resource (backing s) = Some e /\ destroyed s = [] /\ state (backing s) <> Closed.

Lemma in_use_alive E e s : ents_inv E -> E !! e = Some s -> in_use s -> alive E e.
Proof.
  intros Hi He Hu. exists s. specialize (Hi e s He). pose proof (ei_finalization _ _ Hi) as Hf. unfold finalization in Hf.
  rewrite (finalization_in_use _ _ Hi Hu) in Hf. destruct Hf as (? & ? & _ & _ & ? & _). done.
Qed.

Lemma claim_alive w x i t en :
  world_inv w -> sets w !! i = Some x -> claimed x !! t = Some en -> registered (entities w) (entity en) = 1 /\ alive (entities w) (entity en).
Proof.
  intros Hw Hi Ht. assert (0 < registered (entities w) (entity en)) as Hr.
  { rewrite <- (wi_claims w Hw). pose proof (total_lookup (fun x => claims x (entity en)) _ i x Hi) as Hle. simpl in Hle.
    assert (0 < claims x (entity en)) by (apply of_entity_positive; eauto). lia. }
  unfold registered in *. destruct (entities w !! entity en) as [s|] eqn:Hs; [|lia].
  destruct (executor_registered (backing s)) eqn:Hx; [|lia]. split; [done|].
  apply (in_use_alive _ _ s (wi_entities w Hw) Hs). by right.
Qed.

(** What is given back is one of the leases. *)
Lemma give_back_succeeds e k s : entity_inv e s -> 0 < count_occ LeaseKind_eq_dec (leases s) k -> give_back k s <> None.
Proof.
  intros Hi Hk. unfold give_back, release. rewrite (ei_refs _ _ Hi).
  destruct (count_occ LeaseKind_eq_dec (leases s) k) eqn:Hc; [lia|]. destruct (without k (leases s)) eqn:Hw; [done|].
  apply without_None in Hw. lia.
Qed.

Lemma held_lease w x i e k :
  world_inv w -> sets w !! i = Some x -> 0 < holding x e k ->
  exists s, entities w !! e = Some s /\ entity_inv e s /\ give_back k s <> None /\ in_use s.
Proof.
  intros Hw Hi Hh. pose proof (total_lookup (fun x => holding x e k) _ i x Hi) as Hle. simpl in Hle.
  pose proof (wi_leases w Hw e k) as Hl. unfold lease_count in Hl. destruct (entities w !! e) as [s|] eqn:Hs; [|lia].
  exists s. pose proof (wi_entities w Hw e s Hs) as He. split_and!; [done | done | apply (give_back_succeeds e); [done | lia] |].
  left. intros H. rewrite H in Hl. simpl in Hl. lia.
Qed.

(** C3: An entity is registered exactly when one registration of one wait set claims it, in any interleaving of any number of wait sets with adding, removing, waiting, closing and all other uses of the entities: what the native wait sets hold is claimed, no entity is in two of them, and a failed add takes nobody's claim. *)
Theorem registrations_exclusive w e s :
  reachable empty_world world_step w -> entities w !! e = Some s ->
  (executor_registered (backing s) = true <->
    exists i x t en, sets w !! i = Some x /\ claimed x !! t = Some en /\ entity en = e) /\
  (forall i x t en j y u en', sets w !! i = Some x -> claimed x !! t = Some en -> entity en = e ->
    sets w !! j = Some y -> claimed y !! u = Some en' -> entity en' = e -> i = j /\ t = u) /\
  (forall i x t en r, sets w !! i = Some x -> registrations x !! t = Some en -> native en = Some r -> claimed x !! t = Some en).
Proof.
  intros Hw%reachable_world_inv He. pose proof (wi_claims w Hw e) as Hc.
  assert (registered (entities w) e <= 1) as Hone.
  { unfold registered. rewrite He. destruct (executor_registered (backing s)); lia. }
  split; [|split].
  - split.
    + intros Hr. unfold registered in Hc. rewrite He, Hr in Hc. destruct (total_positive (fun x => claims x e) (sets w)) as (i & x & Hi & Hp); [lia|].
      apply of_entity_positive in Hp as (t & en & Ht & Hen). by exists i, x, t, en.
    + intros (i & x & t & en & Hi & Ht & <-). destruct (claim_alive w x i t en Hw Hi Ht) as [Hr _].
      unfold registered in Hr. rewrite He in Hr. by destruct (executor_registered (backing s)).
  - intros i x t en j y u en' Hi Ht Hen Hj Hu Hen'.
    assert (forall z v ev, claimed z !! v = Some ev -> entity ev = e -> 0 < claims z e) as Hp by (intros; apply of_entity_positive; eauto).
    destruct (decide (i = j)) as [<-|Hne].
    + split; [done|]. rewrite Hi in Hj. injection Hj as <-. eapply (of_entity_unique e (claimed x)); try done.
      pose proof (total_lookup (fun x => claims x e) _ i x Hi) as Hle. unfold claims in Hle at 1. lia.
    + pose proof (total_two (fun x => claims x e) _ i j x y Hi Hj Hne) as Hle. simpl in Hle.
      pose proof (Hp x t en Ht Hen). pose proof (Hp y u en' Hu Hen'). lia.
  - intros i x t en r Hi Ht Hr. pose proof (Forall_lookup_1 _ _ _ _ (wi_sets w Hw) Hi) as Hx.
    assert (unattached (held x) <> Some t) as Hu by (intros Hu; apply (li_native x Hx t en Ht) in Hu; congruence).
    unfold claimed. destruct (held x); simpl in Hu; try done; rewrite lookup_delete_ne; congruence.
Qed.

(** C17: Nothing that a wait set uses is destroyed under it: whatever its native wait set holds, and whatever a section, a wait, a wake or a batch that has been returned has a lease on, its own native wait set and guard condition included, still has its resource, and every such lease can be given back. *)
Theorem nothing_dangles w i x :
  reachable empty_world world_step w -> sets w !! i = Some x ->
  (forall t en r, registrations x !! t = Some en -> native en = Some r -> alive (entities w) (entity en)) /\
  (forall e k, 0 < holding x e k -> alive (entities w) e /\ exists s, entities w !! e = Some s /\ give_back k s <> None).
Proof.
  intros Hr Hi. pose proof (reachable_world_inv w Hr) as Hw. split.
  - intros t en r Ht Hn. pose proof (Forall_lookup_1 _ _ _ _ (wi_sets w Hw) Hi) as Hx.
    apply (claim_alive w x i t); [done | done|]. assert (unattached (held x) <> Some t) as Hu
      by (intros Hu; apply (li_native x Hx t en Ht) in Hu; congruence).
    unfold claimed. destruct (held x); simpl in Hu; try done; rewrite lookup_delete_ne; congruence.
  - intros e k Hh. destruct (held_lease w x i e k Hw Hi Hh) as (s & Hs & Hinv & Hg & Hu).
    split; [by apply (in_use_alive _ _ s (wi_entities w Hw)) | by exists s].
Qed.

(** A closed wait set has no registrations and no wait; its native wait set
    and guard condition are gone as soon as nobody uses them. *)
Theorem closed_set_is_destroyed w i x e s :
  reachable empty_world world_step w -> sets w !! i = Some x -> closed_ x = true -> e = own x \/ e = guard x ->
  entities w !! e = Some s ->
  registrations x = ∅ /\ waiting_ x = false /\ (~ in_use s -> pending s = 0 -> destroyed s = [e]).
Proof.
  intros Hw%reachable_world_inv Hi Hc He Hs. pose proof (Forall_lookup_1 _ _ _ _ (wi_sets w Hw) Hi) as Hx.
  split; [by apply (li_held x Hx)|]. split; [apply (li_ending x Hx); by right|]. intros Hu Hp.
  pose proof (wi_entities w Hw e s Hs) as Hinv. apply (entity_inv_closed e); [done|]. apply (idle_closed e); try done.
  destruct (Forall_lookup_1 _ _ _ _ (wi_closing w Hw) Hi) as [Ho Hg]. unfold own_closing, guard_closing in *. rewrite Hc in *.
  assert (is_closing (entities w) e) as (s' & Hs' & Hn) by (destruct He as [-> | ->]; auto).
  rewrite Hs in Hs'. by injection Hs' as <-.
Qed.

(** *** Every method ends *)

(** The sections left to the holder of the mutex, at most. *)
Definition remaining (x : NativeWaitSet) : nat :=
  match held x with
  | Free | Gone => 0
  | Claiming _ => 4 | Attaching _ => 3 | Unclaiming _ _ => 2 | Attached _ | Abandoning _ _ | Detaching _ false => 1
  | Closing_loop => 2 * size (registrations x) + 5
  | Detaching _ true => 2 * size (registrations x) + 4
  | Closing_own | Dropping_own => 4 | Resetting_control | Dropping_guard => 3
  | Closing_guard | Dropping_guard_control => 2 | Resetting_guard | Dropping_control => 1
  | Pinning items _ => S (length items)
  end.

Lemma delete_size (m : gmap Z Entry) t en : m !! t = Some en -> size (delete t m) < size m.
Proof.
  intros Hm. rewrite <- (insert_delete_id m t en Hm) at 2. rewrite map_size_insert_None by apply lookup_delete_eq. lia.
Qed.

Lemma continue_progress a a1 a2 choice r st st' :
  continue a a1 a2 choice st = Some (r, st') -> remaining st'.2 < remaining st.2 /\ (r <> None -> held st'.2 = Free).
Proof.
  intros H. destruct st as [E x], x as [o g c gc m n cl w h p l k q]. destruct h as [|t|t|t|t ex|t ex|t cls| | | | | |items ready| | | | |];
    cbn -[acquire_run give_back set_registered_run close_backing] in H; try done;
    unfold entry_of, claim, attach, added, unclaim, abandon, detach, close_turn, close_backing, reset_control, reset_guard_control, pin_turn,
      on_entity, returns, goes_on, set_entity in H;
    cbn -[acquire_run give_back set_registered_run close_entity] in H; repeat (case_match; simplify_eq/=);
    unfold remaining; simpl; try (split; [lia | done]).
  (* an entry has gone *)
  split; [|done]. pose proof (delete_size m t e H0). lia.
Qed.

Lemma claimed_entity w i x t en :
  world_inv w -> sets w !! i = Some x -> registrations x !! t = Some en -> exists s, entities w !! entity en = Some s.
Proof.
  intros Hw Hi Ht. destruct (claimed x !! t) as [en'|] eqn:Hc.
  - assert (en' = en) as ->.
    { unfold claimed in Hc. destruct (held x); try congruence; apply lookup_delete_Some in Hc as [_ Hc]; congruence. }
    destruct (claim_alive w x i t en Hw Hi Hc) as [_ (s & Hs & _)]. by exists s.
  - assert (adding (held x) = Some t) as Ha.
    { unfold claimed in Hc. destruct (held x); simpl; try congruence; apply lookup_delete_None in Hc as [->|Hc]; congruence. }
    destruct (held_lease w x i (entity en) Operation Hw Hi) as (s & Hs & _); [|by exists s].
    unfold holding. rewrite Ha. simpl. rewrite Ht, one_same. simpl. lia.
Qed.

(** The control entity is there as long as the control lease is. *)
Lemma control_entity w i x :
  world_inv w -> sets w !! i = Some x ->
  (control_ x = true -> exists s, entities w !! own x = Some s /\ give_back Work s <> None) /\
  (guard_control_ x = true -> exists s, entities w !! guard x = Some s /\ give_back Work s <> None).
Proof.
  intros Hw Hi. split; intros Hc; edestruct (held_lease w x i) as (s & Hs & _ & Hg & _); try done; eauto;
    unfold holding; rewrite Hc, one_same; simpl; lia.
Qed.

Lemma close_backing_enabled e next E x s : E !! e = Some s -> exists y, close_backing e next (E, x) = Some y.
Proof. intros Hs. unfold close_backing, on_entity. simpl. rewrite Hs. eexists. reflexivity. Qed.

Lemma reset_control_enabled next E x s :
  E !! own x = Some s -> give_back Work s <> None -> exists y, reset_control next (E, x) = Some y.
Proof.
  intros Hs Hg. unfold reset_control, on_entity. simpl. rewrite Hs. destruct (give_back Work s); [|done]. eexists. reflexivity.
Qed.

Lemma reset_guard_enabled k E x s :
  E !! guard x = Some s -> give_back Work s <> None -> (forall st, exists y, k st = Some y) ->
  exists y, reset_guard_control (E, x) k = Some y.
Proof.
  intros Hs Hg Hk. unfold reset_guard_control, on_entity. simpl. rewrite Hs. destruct (give_back Work s); [|done]. apply Hk.
Qed.

Lemma pin_turn_enabled a items ready E x :
  (forall t en, registrations x !! t = Some en -> exists s, E !! entity en = Some s) ->
  exists choice y, pin_turn a choice items ready (E, x) = Some y.
Proof.
  intros He. destruct items as [|item items]; [exists 0%Z; eexists; reflexivity|]. unfold pin_turn. simpl.
  destruct (decide (map_Forall (fun _ en => native en <> Some (ready_registration item)) (registrations x))) as [Hn|Hn];
    [exists 0%Z; eexists; reflexivity|].
  rewrite map_not_Forall in Hn by apply _. destruct Hn as (t & en & Ht & Hen%dec_stable). exists t. rewrite Ht.
  rewrite decide_True by done. destruct (He t en Ht) as [s Hs]. unfold on_entity. simpl. rewrite Hs.
  destruct (acquire_run a Dispatch s); eexists; reflexivity.
Qed.

Lemma continue_enabled w i x a1 a2 :
  world_inv w -> sets w !! i = Some x -> held x <> Free -> held x <> Gone ->
  exists choice y, continue (admitting w) a1 a2 choice (entities w, x) = Some y.
Proof.
  intros Hw Hi Hf Hg. pose proof (Forall_lookup_1 _ _ _ _ (wi_sets w Hw) Hi) as Hx.
  destruct (control_entity w i x Hw Hi) as [Hown Hguard].
  assert (closed_ x = false) as Hcl by (destruct (closed_ x) eqn:Hc; [by apply (li_held x Hx) in Hc as [? _] | done]).
  rewrite (li_control x Hx), Hcl in Hown. rewrite (li_guard x Hx), Hcl in Hguard.
  assert (forall t, at_token (held x) = Some t -> exists en s, registrations x !! t = Some en /\ entities w !! entity en = Some s) as Htok.
  { intros t [en Ht]%(li_token x Hx). destruct (claimed_entity w i x t en Hw Hi Ht) as [s Hs]. eauto. }
  assert (forall t en s, adding (held x) = Some t -> registrations x !! t = Some en -> entities w !! entity en = Some s -> give_back Operation s <> None) as Hop.
  { intros t en s Ha Ht Hs. destruct (held_lease w x i (entity en) Operation Hw Hi) as (s' & Hs' & _ & ? & _); [|congruence].
    unfold holding. rewrite Ha. simpl. rewrite Ht, one_same. simpl. lia. }
  unfold continue, entry_of. cbn [snd].
  destruct (held x) as [|t|t|t|t ex|t ex|t c| | | | | |items ready| | | | |] eqn:Hh; try done; clear Hf Hg; simpl in *.
  1-6: destruct (Htok t eq_refl) as (en & s & Ht & Hs); rewrite Ht; exists 0%Z.
  - unfold claim, on_entity. simpl. rewrite Hs. destruct (set_registered_run true s); eexists; reflexivity.
  - unfold attach. destruct (unwrap a1); eexists; reflexivity.
  - unfold added, on_entity. simpl. rewrite Hs. destruct (give_back Operation s) eqn:Hgb; [eexists; reflexivity|].
    by destruct (Hop t en s).
  - unfold unclaim, on_entity. simpl. rewrite Hs. eexists; reflexivity.
  - unfold abandon, on_entity. simpl. rewrite Hs. destruct (give_back Operation s) eqn:Hgb; [eexists; reflexivity|].
    by destruct (Hop t en s).
  - unfold detach, on_entity. simpl. rewrite Hs. destruct c; eexists; reflexivity.
  - unfold close_turn. simpl. destruct (decide (registrations x = ∅)) as [He|He]; [exists 0%Z; eexists; reflexivity|].
    destruct (map_choose _ He) as (t & en & Ht). exists t. rewrite Ht. destruct (unwrap a2); eexists; reflexivity.
  - destruct (Hown eq_refl) as (s & Hs & _). exists 0%Z. by eapply close_backing_enabled.
  - destruct (Hown eq_refl) as (s & Hs & Hgb). exists 0%Z. by eapply reset_control_enabled.
  - destruct (Hguard eq_refl) as (s & Hs & _). exists 0%Z. by eapply close_backing_enabled.
  - destruct (Hguard eq_refl) as (s & Hs & Hgb). exists 0%Z. eapply reset_guard_enabled; [done | done |]. eexists. reflexivity.
  - apply pin_turn_enabled. intros t en Ht. by apply (claimed_entity w i x t).
  - destruct (Hown eq_refl) as (s & Hs & _). exists 0%Z. by eapply close_backing_enabled.
  - destruct (Hguard eq_refl) as (s & Hs & _). exists 0%Z. by eapply close_backing_enabled.
  - destruct (Hguard eq_refl) as (s & Hs & Hgb). exists 0%Z. eapply reset_guard_enabled; [done | done |]. eexists. reflexivity.
  - destruct (Hown eq_refl) as (s & Hs & Hgb). exists 0%Z. by eapply reset_control_enabled.
Qed.

(** C19: Every method of a wait set ends: whatever else runs and whatever the native wait set answers, the thread that holds the mutex always has a next section (no lease that it gives back and no entity that it needs is missing), each section brings it closer to the end, and a call that returns has released the mutex. *)
Theorem mutex_is_released w i x a1 a2 :
  reachable empty_world world_step w -> sets w !! i = Some x -> held x <> Free -> held x <> Gone ->
  (exists choice y, continue (admitting w) a1 a2 choice (entities w, x) = Some y) /\
  (forall choice r st', continue (admitting w) a1 a2 choice (entities w, x) = Some (r, st') ->
    remaining st'.2 < remaining x /\ (r <> None -> held st'.2 = Free)).
Proof.
  intros Hw%reachable_world_inv Hi Hf Hg. split; [by apply (continue_enabled w i)|].
  intros choice r st' H. by apply continue_progress in H.
Qed.

(** ** An entity that is added to a second wait set *)

Definition replace (i : nat) (st : State) (w : World) : World := MkWorld (admitting w) st.1 (<[i := st.2]> (sets w)).

Definition run_call (i : nat) (c : Call) (w : World) : World :=
  match sets w !! i with
  | Some x =>
      match held x, call (admitting w) (success ()) c (entities w, x) with Free, Some (_, st) => replace i st w | _, _ => w end
  | None => w
  end.

Definition run_continue (i : nat) (answer : Result Z) (choice : Z) (w : World) : World :=
  match sets w !! i with
  | Some x =>
      match continue (admitting w) answer (success ()) choice (entities w, x) with Some (_, st) => replace i st w | None => w end
  | None => w
  end.

Definition add_entity (e : nat) (w : World) : World :=
  match entities w !! e with None => MkWorld (admitting w) (<[e := new_entity e]> (entities w)) (sets w) | Some _ => w end.

Definition add_set (o g : nat) (w : World) : World :=
  match admitting w, entities w !! o, entities w !! g, decide (o = g),
    acquire_run true Work (new_entity o), acquire_run true Work (new_entity g) with
  | true, None, None, right _, inl so, inl sg => MkWorld true (<[o := so]> (<[g := sg]> (entities w))) (new_wait_set o g :: sets w)
  | _, _, _, _, _, _ => w
  end.

Lemma replace_reachable i x st w :
  reachable empty_world world_step w -> sets w !! i = Some x -> set_step (admitting w) (entities w, x) st ->
  reachable empty_world world_step (replace i st w).
Proof.
  intros Hw Hi Hs. eapply reach_step; [exact Hw|]. unfold replace. destruct st as [E' x'], w as [a E l]; simpl in *.
  rewrite insert_take_drop by (by eapply lookup_lt_Some). rewrite <- (take_drop_middle l i x Hi) at 1. by constructor.
Qed.

Lemma run_call_reachable i c w : reachable empty_world world_step w -> reachable empty_world world_step (run_call i c w).
Proof.
  intros Hw. unfold run_call. destruct (sets w !! i) as [x|] eqn:Hi; [|done]. destruct (held x) eqn:Hf; try done.
  destruct (call _ _ c _) as [[r st]|] eqn:Hc; [|done]. eapply replace_reachable; [done | exact Hi | by eapply ss_call].
Qed.

Lemma run_continue_reachable i answer choice w :
  reachable empty_world world_step w -> reachable empty_world world_step (run_continue i answer choice w).
Proof.
  intros Hw. unfold run_continue. destruct (sets w !! i) as [x|] eqn:Hi; [|done].
  destruct (continue _ _ _ _ _) as [[r st]|] eqn:Hc; [|done]. eapply replace_reachable; [done | exact Hi | by eapply ss_continue].
Qed.

Lemma add_entity_reachable e w : reachable empty_world world_step w -> reachable empty_world world_step (add_entity e w).
Proof.
  intros Hw. unfold add_entity. destruct (entities w !! e) eqn:He; [done|]. eapply reach_step; [exact Hw|].
  destruct w. by constructor.
Qed.

Lemma add_set_reachable o g w : reachable empty_world world_step w -> reachable empty_world world_step (add_set o g w).
Proof.
  intros Hw. unfold add_set. destruct w as [a E l]. simpl. destruct a; [|done].
  destruct (E !! o) eqn:Ho; [done|]. destruct (E !! g) eqn:Hg; [done|]. destruct (decide (o = g)); [done|].
  eapply reach_step; [exact Hw|]. by econstructor.
Qed.

(** Entity 5 is in the wait set at 0 when the one at 1 is about to claim it;
    the claim is then refused. *)
Definition demo : World :=
  run_continue 1 (success 9%Z) 0 (run_call 1 (C_add 5 3)
    (run_continue 0 (success 7%Z) 0 (run_continue 0 (success 7%Z) 0 (run_continue 0 (success 7%Z) 0
      (run_call 0 (C_add 5 2) (add_entity 5 (add_set 3 4 (add_set 1 2 (MkWorld true ∅ []))))))))).

Lemma demo_reachable : reachable empty_world world_step demo.
Proof.
  unfold demo. repeat first [apply run_continue_reachable | apply run_call_reachable | apply add_entity_reachable | apply add_set_reachable].
  by apply reach_init.
Qed.

Definition demo_set (i : nat) : NativeWaitSet := match sets demo !! i with Some x => x | None => new_wait_set 0 0 end.
Definition demo_entity : EntityRun nat := match entities demo !! 5 with Some s => s | None => new_entity 5 end.

Example second_add_is_refused : held (demo_set 1) = Abandoning 1 (MiddlewareFailure (MkError AlreadyRegistered "Entity already belongs to a WaitSet")).
Proof. vm_compute. reflexivity. Qed.

Lemma registrations_exclusive_witness :
  executor_registered (backing demo_entity) = true /\
  exists i x t en, sets demo !! i = Some x /\ claimed x !! t = Some en /\ entity en = 5.
Proof.
  destruct (registrations_exclusive demo 5 demo_entity demo_reachable eq_refl) as [H _].
  split; [reflexivity | apply H; reflexivity].
Defined.

Lemma nothing_dangles_witness : alive (entities demo) 5.
Proof.
  destruct (nothing_dangles demo 0 (demo_set 0) demo_reachable eq_refl) as [H _].
  apply (H 1%Z (MkEntry 5 2 (Some 7%Z)) 7%Z); reflexivity.
Defined.

Lemma mutex_is_released_witness :
  exists choice y, continue (admitting demo) (success 9%Z) (success ()) choice (entities demo, demo_set 1) = Some y.
Proof.
  destruct (mutex_is_released demo 1 (demo_set 1) (success 9%Z) (success ()) demo_reachable eq_refl) as [H _];
    [vm_compute; discriminate | vm_compute; discriminate | exact H].
Defined.
