(* ===== verification/Diagnostics.v ===== *)
(** * Diagnostics: error texts in fixed buffers

    [copy_diagnostic] (src/dclpy/include/dclpy/diagnostic.hpp) copies a C
    string into a buffer of 256 bytes that holds valid UTF-8 whatever the
    message.  Octets are [Z]; a read past the end of a message sees its
    terminator. *)

From Stdlib Require Import Ascii String.
From S2P Require Import Prelude Strings.
Local Open Scope Z_scope.

Definition octet (s : list Z) (i : nat) : Z := nth i s 0.

(** The length that the first octet of a sequence announces; 0: it cannot start one. *)
Definition announced (b : Z) : nat :=
  if b <? 128 then 1
  else if (194 <=? b) && (b <=? 223) then 2
  else if (224 <=? b) && (b <=? 239) then 3
  else if (240 <=? b) && (b <=? 244) then 4
  else 0.

Definition continues (b : Z) : bool := negb (b =? 0) && (Z.land b 192 =? 128).

(** Overlong forms, surrogates and what is beyond U+10FFFF. *)
Definition forbidden (b c : Z) : bool :=
  ((b =? 224) && (c <? 160)) || ((b =? 237) && (160 <=? c)) || ((b =? 240) && (c <? 144)) || ((b =? 244) && (144 <=? c)).

Definition valid (s : list Z) : bool :=
  let n := announced (octet s 0) in
  negb (n =? 0)%nat && forallb (fun i => continues (octet s i)) (seq 1 (n - 1)) &&
  ((n <=? 2)%nat || negb (forbidden (octet s 0) (octet s 1))).

Definition buffer_size : nat := 256.

Fixpoint copy_loop (fuel : nat) (source buffer : list Z) : list Z :=
  match fuel with
  | O => buffer
  | S fuel =>
      if negb (octet source 0 =? 0) && (length buffer + 1 <? buffer_size)%nat then
        if valid source then
          let n := announced (octet source 0) in
          if (buffer_size <=? length buffer + n)%nat then buffer
          else copy_loop fuel (drop n source) (buffer ++ take n source)
        else copy_loop fuel (drop 1 source) (buffer ++ [63])
      else buffer
  end.

(** Each turn takes an octet of the message. *)
Definition copy_octets (message : list Z) : list Z := copy_loop (S (length message)) message [].

Definition octets (s : string) : list Z := code <$> lit s.
Definition of_octets (l : list Z) : string := string_of_list_ascii (ascii_of_N ∘ Z.to_N <$> l).
Definition copy_diagnostic (message : string) : string := of_octets (copy_octets (octets message)).

(** ** UTF-8 *)

(** The Unicode scalar values but NUL, and their encoding. *)
Definition scalar (c : Z) : Prop := 0 < c < 55296 \/ 57344 <= c < 1114112.

Definition encode (c : Z) : list Z :=
  if c <? 128 then [c]
  else if c <? 2048 then [192 + c / 64; 128 + c mod 64]
  else if c <? 65536 then [224 + c / 4096; 128 + c / 64 mod 64; 128 + c mod 64]
  else [240 + c / 262144; 128 + c / 4096 mod 64; 128 + c / 64 mod 64; 128 + c mod 64].

Definition encode_all (points : list Z) : list Z := mjoin (encode <$> points).

(** As many of the first code points as there is room for. *)
Fixpoint fit (room : nat) (points : list Z) : list Z :=
  match points with
  | [] => []
  | c :: points => if (length (encode c) <=? room)%nat then c :: fit (room - length (encode c)) points else []
  end.

Definition is_octet (b : Z) : Prop := 0 <= b < 256.

Lemma continues_range b : is_octet b -> continues b = (128 <=? b) && (b <? 192).
Proof.
  intros Hb. assert (forallb (fun n => bool_decide (continues (Z.of_nat n) = (128 <=? Z.of_nat n) && (Z.of_nat n <? 192))) (seq 0 256) = true)
    as H by (vm_compute; reflexivity).
  rewrite forallb_forall in H. specialize (H (Z.to_nat b)). unfold is_octet in Hb. rewrite in_seq, Z2Nat.id in H by lia.
  by apply bool_decide_eq_true in H; [|lia].
Qed.

Lemma encode_length c : (1 <= length (encode c) <= 4)%nat.
Proof. unfold encode. repeat case_match; simpl; lia. Qed.

Ltac split_octets :=
  repeat match goal with
  | H : context [?a <? ?b] |- _ => destruct (Z.ltb_spec a b); simpl in H
  | H : context [?a <=? ?b] |- _ => destruct (Z.leb_spec a b); simpl in H
  | H : context [?a =? ?b] |- _ => destruct (Z.eqb_spec a b); simpl in H
  end.

(** What two, three and four octets encode. *)
Lemma encode2 b0 b1 :
  194 <= b0 <= 223 -> 128 <= b1 < 192 -> exists c, scalar c /\ encode c = [b0; b1].
Proof.
  intros H0 H1. exists ((b0 - 192) * 64 + (b1 - 128)). unfold encode.
  destruct (Z.ltb_spec ((b0 - 192) * 64 + (b1 - 128)) 128); [lia|]. destruct (Z.ltb_spec ((b0 - 192) * 64 + (b1 - 128)) 2048); [|lia].
  split; [unfold scalar; lia|]. repeat f_equal; Z.div_mod_to_equations; lia.
Qed.

Lemma encode3 b0 b1 b2 :
  224 <= b0 <= 239 -> 128 <= b1 < 192 -> 128 <= b2 < 192 -> forbidden b0 b1 = false ->
  exists c, scalar c /\ encode c = [b0; b1; b2].
Proof.
  intros H0 H1 H2 Hf. set (c := (b0 - 224) * 4096 + (b1 - 128) * 64 + (b2 - 128)). exists c. unfold encode.
  assert (2048 <= c < 65536 /\ (c < 55296 \/ 57344 <= c)) as [Hc Hc'] by (unfold forbidden in Hf; unfold c; split_octets; try done; lia).
  destruct (Z.ltb_spec c 128); [lia|]. destruct (Z.ltb_spec c 2048); [lia|]. destruct (Z.ltb_spec c 65536); [|lia].
  split; [unfold scalar; lia|]. unfold c. repeat f_equal; Z.div_mod_to_equations; lia.
Qed.

Lemma encode4 b0 b1 b2 b3 :
  240 <= b0 <= 244 -> 128 <= b1 < 192 -> 128 <= b2 < 192 -> 128 <= b3 < 192 -> forbidden b0 b1 = false ->
  exists c, scalar c /\ encode c = [b0; b1; b2; b3].
Proof.
  intros H0 H1 H2 H3 Hf. set (c := (b0 - 240) * 262144 + (b1 - 128) * 4096 + (b2 - 128) * 64 + (b3 - 128)). exists c. unfold encode.
  assert (65536 <= c < 1114112) as Hc by (unfold forbidden in Hf; unfold c; split_octets; try done; lia).
  destruct (Z.ltb_spec c 128); [lia|]. destruct (Z.ltb_spec c 2048); [lia|]. destruct (Z.ltb_spec c 65536); [lia|].
  split; [unfold scalar; lia|]. unfold c. repeat f_equal; Z.div_mod_to_equations; lia.
Qed.

Lemma continues_spec s i : Forall is_octet s -> continues (octet s i) = true -> 128 <= octet s i < 192 /\ (i < length s)%nat.
Proof.
  intros Hs Hc. destruct (decide (i < length s)%nat) as [Hi|Hi].
  - split; [|done]. rewrite continues_range in Hc; [lia|]. unfold octet. rewrite List.Forall_forall in Hs. apply Hs. by apply nth_In.
  - unfold octet in Hc. rewrite nth_overflow in Hc by lia. done.
Qed.

Lemma take_octets s n : (n <= length s)%nat -> take n s = octet s <$> seq 0 n.
Proof.
  intros Hn. apply list_eq. intros i. rewrite list_lookup_fmap. destruct (decide (i < n)%nat) as [Hi|Hi].
  - rewrite lookup_take_lt, lookup_seq_lt by done. simpl. unfold octet.
    destruct (s !! i) as [x|] eqn:Hx; [by rewrite (nth_lookup_Some _ _ _ _ Hx)|]. apply lookup_ge_None in Hx. lia.
  - rewrite lookup_take_ge, lookup_seq_ge by lia. done.
Qed.

(** A sequence that is accepted is the encoding of a code point. *)
Lemma valid_sound s :
  Forall is_octet s -> octet s 0 <> 0 -> valid s = true ->
  exists c, scalar c /\ take (announced (octet s 0)) s = encode c.
Proof.
  intros Hs H0 Hv. unfold valid in Hv. rewrite !andb_true_iff, orb_true_iff in Hv. destruct Hv as [[Hn Hc] Hf].
  rewrite forallb_forall in Hc. rewrite negb_true_iff in Hf.
  assert (forall i, (1 <= i < announced (octet s 0))%nat -> 128 <= octet s i < 192 /\ (i < length s)%nat) as Hcont.
  { intros i Hi. apply continues_spec; [done|]. apply Hc. apply in_seq. lia. }
  assert (0 < length s)%nat as Hlen by (destruct s; [done | simpl; lia]).
  assert (0 <= octet s 0 < 256) as Hb by (unfold octet; rewrite List.Forall_forall in Hs; apply Hs; by apply nth_In).
  assert (announced (octet s 0) <= length s)%nat as Hle.
  { destruct (announced (octet s 0)) as [|[|n]] eqn:En; [lia..|]. destruct (Hcont (S n)); lia. }
  rewrite take_octets by done. clear Hc Hle. unfold announced in *.
  destruct (Z.ltb_spec (octet s 0) 128).
  { exists (octet s 0). unfold encode. destruct (Z.ltb_spec (octet s 0) 128); [|lia]. split; [unfold scalar; lia | done]. }
  destruct ((194 <=? octet s 0) && (octet s 0 <=? 223)) eqn:E2.
  { destruct (encode2 (octet s 0) (octet s 1)) as (c & ? & ?); [lia | apply Hcont; lia |]. by exists c. }
  destruct ((224 <=? octet s 0) && (octet s 0 <=? 239)) eqn:E3.
  { destruct Hf as [?|Hf]; [done|].
    destruct (encode3 (octet s 0) (octet s 1) (octet s 2)) as (c & ? & ?); [lia | apply Hcont; lia | apply Hcont; lia | done |]. by exists c. }
  destruct ((240 <=? octet s 0) && (octet s 0 <=? 244)) eqn:E4; [|done]. destruct Hf as [?|Hf]; [done|].
  destruct (encode4 (octet s 0) (octet s 1) (octet s 2) (octet s 3)) as (c & ? & ?); [lia | apply Hcont; lia.. | done |]. by exists c.
Qed.

(** Octets that make up a sequence. *)
Lemma announced_cases b :
  (b < 128 -> announced b = 1%nat) /\ (194 <= b <= 223 -> announced b = 2%nat) /\
  (224 <= b <= 239 -> announced b = 3%nat) /\ (240 <= b <= 244 -> announced b = 4%nat).
Proof. unfold announced. split_and!; intros; repeat case_match; done || lia. Qed.

Lemma continues_true b : 128 <= b < 192 -> continues b = true.
Proof. intros H. rewrite continues_range by (unfold is_octet; lia). lia. Qed.

Lemma not_forbidden b c :
  (b = 224 -> 160 <= c) -> (b = 237 -> c < 160) -> (b = 240 -> 144 <= c) -> (b = 244 -> c < 144) -> forbidden b c = false.
Proof. unfold forbidden. intros. lia. Qed.

(** The encoding of a code point is accepted. *)
Lemma valid_complete c rest :
  scalar c -> octet (encode c ++ rest) 0 <> 0 /\ valid (encode c ++ rest) = true /\
  announced (octet (encode c ++ rest) 0) = length (encode c).
Proof.
  intros Hc. unfold valid, encode, scalar in *.
  destruct (Z.ltb_spec c 128); [|destruct (Z.ltb_spec c 2048); [|destruct (Z.ltb_spec c 65536)]]; unfold octet; simpl.
  - rewrite (proj1 (announced_cases c)) by done. split_and!; [lia | done..].
  - assert (194 <= 192 + c / 64 <= 223) as H1 by (Z.div_mod_to_equations; lia).
    rewrite (proj1 (proj2 (announced_cases _)) H1). simpl. rewrite continues_true by (Z.div_mod_to_equations; lia).
    split_and!; [lia | done..].
  - assert (224 <= 224 + c / 4096 <= 239) as H2 by (Z.div_mod_to_equations; lia).
    rewrite (proj1 (proj2 (proj2 (announced_cases _))) H2). simpl. rewrite !continues_true by (Z.div_mod_to_equations; lia).
    rewrite not_forbidden by (Z.div_mod_to_equations; lia). split_and!; [lia | done..].
  - assert (240 <= 240 + c / 262144 <= 244) as H3 by (Z.div_mod_to_equations; lia).
    rewrite (proj2 (proj2 (proj2 (announced_cases _))) H3). simpl. rewrite !continues_true by (Z.div_mod_to_equations; lia).
    rewrite not_forbidden by (Z.div_mod_to_equations; lia). split_and!; [lia | done..].
Qed.

(** ** The copy *)

Definition room (buffer : list Z) : nat := buffer_size - 1 - length buffer.

Lemma encode_octets c : scalar c -> Forall is_octet (encode c).
Proof.
  intros Hc. unfold encode, scalar, is_octet in *.
  repeat case_match; repeat constructor; Z.div_mod_to_equations; lia.
Qed.

Lemma encode_all_app l1 l2 : encode_all (l1 ++ l2) = encode_all l1 ++ encode_all l2.
Proof. unfold encode_all. by rewrite fmap_app, join_app. Qed.

Lemma encode_all_cons c l : encode_all (c :: l) = encode c ++ encode_all l.
Proof. done. Qed.

Lemma copy_loop_S fuel source buffer :
  copy_loop (S fuel) source buffer =
    if negb (octet source 0 =? 0) && (length buffer + 1 <? buffer_size)%nat then
      if valid source then
        if (buffer_size <=? length buffer + announced (octet source 0))%nat then buffer
        else copy_loop fuel (drop (announced (octet source 0)) source) (buffer ++ take (announced (octet source 0)) source)
      else copy_loop fuel (drop 1 source) (buffer ++ [63])
    else buffer.
Proof. reflexivity. Qed.

(** The buffer holds code points throughout. *)
Lemma copy_loop_text fuel source buffer :
  Forall is_octet source -> (length buffer < buffer_size)%nat -> (exists l, Forall scalar l /\ buffer = encode_all l) ->
  let out := copy_loop fuel source buffer in (length out < buffer_size)%nat /\ exists l, Forall scalar l /\ out = encode_all l.
Proof.
  revert source buffer. induction fuel as [|fuel IH]; intros source buffer Hs Hlen Hl; [by split|].
  rewrite copy_loop_S. destruct (Z.eqb_spec (octet source 0) 0) as [_|H0]; [by split|]. cbn [negb andb].
  destruct (Nat.ltb_spec (length buffer + 1) buffer_size); [|by split]. destruct Hl as (l & Hl & ->). destruct (valid source) eqn:Hv.
  - destruct (Nat.leb_spec buffer_size (length (encode_all l) + announced (octet source 0))) as [_|Hn]; [split; [done | by exists l]|].
    destruct (valid_sound source Hs H0 Hv) as (c & Hc & Ht). apply IH.
    + by apply Forall_drop.
    + rewrite length_app, length_take. lia.
    + exists (l ++ [c]). split; [by apply Forall_app; split; [|constructor]|]. rewrite encode_all_app, Ht, encode_all_cons.
      unfold encode_all. simpl. by rewrite app_nil_r.
  - apply IH.
    + by apply Forall_drop.
    + rewrite length_app. simpl. lia.
    + exists (l ++ [63]). split; [apply Forall_app; split; [done | constructor; [left; lia | done]]|]. by rewrite encode_all_app.
Qed.

(** Of text, as many code points as there is room for. *)
Lemma copy_loop_fit fuel points rest buffer :
  Forall scalar points -> octet rest 0 = 0 -> (length (encode_all points) < fuel)%nat -> (length buffer < buffer_size)%nat ->
  copy_loop fuel (encode_all points ++ rest) buffer = buffer ++ encode_all (fit (room buffer) points).
Proof.
  revert points buffer. induction fuel as [|fuel IH]; intros points buffer Hp Hr Hf Hb; [lia|]. rewrite copy_loop_S.
  destruct points as [|c points].
  { change (encode_all [] ++ rest) with rest. rewrite Hr. cbn. by rewrite app_nil_r. }
  apply Forall_cons in Hp as [Hc Hp]. rewrite encode_all_cons in *. rewrite <- app_assoc.
  destruct (valid_complete c (encode_all points ++ rest) Hc) as (H0 & Hv & Ha). rewrite Hv, Ha.
  destruct (Z.eqb_spec (octet (encode c ++ encode_all points ++ rest) 0) 0); [done|]. cbn [negb andb fit]. pose proof (encode_length c) as Hl.
  unfold room. destruct (Nat.ltb_spec (length buffer + 1) buffer_size) as [Hroom|Hfull].
  - destruct (Nat.leb_spec buffer_size (length buffer + length (encode c))) as [Hno|Hyes].
    + destruct (Nat.leb_spec (length (encode c)) (buffer_size - 1 - length buffer)); [unfold buffer_size in *; lia|]. by rewrite app_nil_r.
    + destruct (Nat.leb_spec (length (encode c)) (buffer_size - 1 - length buffer)); [|unfold buffer_size in *; lia].
      rewrite drop_app_length, take_app_length. rewrite length_app in Hf. rewrite IH; [|done..|lia|rewrite length_app; lia].
      rewrite encode_all_cons, app_assoc. unfold room. rewrite length_app. do 3 f_equal. lia.
  - destruct (Nat.leb_spec (length (encode c)) (buffer_size - 1 - length buffer)); [unfold buffer_size in *; lia|]. by rewrite app_nil_r.
Qed.

(** C35: whatever the message, the buffer holds the encoding of Unicode scalar
    values, none of them NUL, in at most 255 octets; and of a message that is
    such text, up to its terminator, it holds as many of the first code points
    as there is room for, so all of a message that fits. *)
Theorem diagnostic_is_text message :
  Forall is_octet message ->
  (length (copy_octets message) < buffer_size)%nat /\ (exists l, Forall scalar l /\ copy_octets message = encode_all l) /\
  (forall points rest, Forall scalar points -> message = encode_all points ++ rest -> octet rest 0 = 0 ->
    copy_octets message = encode_all (fit (buffer_size - 1) points)).
Proof.
  intros Hm. unfold copy_octets.
  destruct (copy_loop_text (S (length message)) message [] Hm) as [H1 H2]; [unfold buffer_size; simpl; lia | by exists []|].
  split_and!; [done..|]. intros points rest Hp -> Hr.
  rewrite copy_loop_fit; [done | done | done | rewrite length_app; lia | unfold buffer_size; simpl; lia].
Qed.

Lemma diagnostic_is_text_witness :
  copy_octets [206; 187; 32; 240; 159; 152; 128] = encode_all (fit 255 [955; 32; 128512]).
Proof.
  assert (Forall is_octet [206; 187; 32; 240; 159; 152; 128]) as H by (repeat constructor; unfold is_octet; lia).
  destruct (diagnostic_is_text _ H) as (_ & _ & Ht). apply (Ht [955; 32; 128512] []); [|reflexivity..].
  repeat constructor; unfold scalar; lia.
Defined.

(** An octet that starts nothing is replaced; a sequence is not split. *)
Example invalid_replaced : copy_octets [237; 160; 128; 65] = [63; 63; 63; 65].
Proof. reflexivity. Qed.

Example not_split : length (copy_octets (replicate 254 65 ++ [195; 169])) = 254%nat.
Proof. vm_compute. reflexivity. Qed.
