(* ===== verification/Fields.v ===== *)
(** * Fields: the fields of a message seen from Python

    [decode], [assign] and the getter of [field]
    (src/dclpy/include/dclpy/field.hpp): a Python value is checked against the
    field's type and bounds, staged, and swapped into the message only then.

    The calls of pybind11 that read a real number, and that convert text either
    way, are the parameters [Casts]; [CastLaws] is what its manual and that of
    CPython say of them: a [float] is read as it is, and text is encoded and
    decoded as UTF-8 ([std::string]) or UTF-16 ([std::u16string]).  The
    conversions between [float] and [double] are those of IEEE 754. *)

From Stdlib Require Import SpecFloat.
From S2P Require Import Prelude Diagnostics.
Local Open Scope Z_scope.

Definition SIZE_MAX : Z := 18446744073709551615.

Inductive PyError := TypeError (message : string) | ValueError (message : string) | OverflowError (message : string) | CastError.

(** [static_cast] between the binary formats; [float] has 24 digits and
    exponents below 128, [double] has 53 and 1024. *)
Definition convert (prec emax : Z) (x : spec_float) : spec_float :=
  match x with S754_finite s m e => binary_round prec emax s m e | _ => x end.
Definition narrow : spec_float -> spec_float := convert 24 128.
Definition widen : spec_float -> spec_float := convert 53 1024.
Definition of_format (single : bool) (x : spec_float) : bool := if single then valid_binary 24 128 x else valid_binary 53 1024 x.

(** [O]: messages; [points]: the code points of a [str]. *)
Section Fields.
Context {O : Type}.

Inductive PyValue :=
  | PyBool (b : bool) | PyInt (z : Z) | PyFloat (f : spec_float) | PyStr (points : list Z)
  | PySequence (items : list PyValue) | PyInstance (type : nat) (message : O) | PyOther.

(** [as_double]: [PyFloat_AsDouble] in [py::cast] to a floating-point type.
    [text_of wide], [str_of wide]: [py::cast] of a [str] to a string of octets
    or of 16-bit units, and back. *)
Class Casts := {
  as_double : PyValue -> spec_float + PyError;
  text_of : bool -> list Z -> list Z + PyError;
  str_of : bool -> list Z -> list Z + PyError }.

Inductive FieldType :=
  | T_bool | T_signed (bits : Z) | T_unsigned (bits : Z) | T_float (single : bool) | T_string (wide : bool)
  | T_array (length : nat) (element : FieldType) | T_sequence (element : FieldType) | T_nested (type : nat).

Inductive Value :=
  | V_bool (b : bool) | V_int (z : Z) | V_float (f : spec_float) | V_string (units : list Z) | V_list (items : list Value)
  | V_nested (type : nat) (message : O).

Record FieldRules := MkRules { maximum_size : Z; element_maximum_size : Z }.
Definition no_rules : FieldRules := MkRules SIZE_MAX SIZE_MAX.
(** [{rules.element_maximum_size}]: what an element is decoded with. *)
Definition element_rules (r : FieldRules) : FieldRules := MkRules (element_maximum_size r) SIZE_MAX.

Section Decode.
Context `{!Casts}.

(** [bool] is a subclass of [int]. *)
Definition integer_of (v : PyValue) : option Z :=
  match v with PyInt z => Some z | PyBool b => Some (if b then 1 else 0) | _ => None end.

Definition overflow {A} : A + PyError := inr (OverflowError "Message integer is outside the field's range").
Definition too_big {A} : A + PyError := inr (OverflowError "Python int too large to convert").

Definition decode_signed (bits : Z) (v : PyValue) : Value + PyError :=
  match integer_of v with
  | None => inr (TypeError "Integer field requires int")
  | Some z =>
      if (z <? -2^63) || (2^63 - 1 <? z) then too_big
      else if (z <? -2^(bits - 1)) || (2^(bits - 1) - 1 <? z) then overflow else inl (V_int z)
  end.

Definition decode_unsigned (bits : Z) (v : PyValue) : Value + PyError :=
  match integer_of v with
  | None => inr (TypeError "Integer field requires int")
  | Some z =>
      if (z <? 0) || (2^64 - 1 <? z) then too_big
      else if 2^bits - 1 <? z then overflow else inl (V_int z)
  end.

(** [py::cast<float>] and [py::cast<double>]. *)
Definition cast_float (single : bool) (v : PyValue) : spec_float + PyError :=
  match as_double v with inl d => inl (if single then narrow d else d) | inr e => inr e end.

Fixpoint decode_all (f : PyValue -> Value + PyError) (items : list PyValue) : list Value + PyError :=
  match items with
  | [] => inl []
  | v :: items =>
      match f v with
      | inr e => inr e
      | inl x => match decode_all f items with inr e => inr e | inl l => inl (x :: l) end
      end
  end.

Definition decode_sequence (length_of : option nat) (f : PyValue -> Value + PyError) (r : FieldRules) (v : PyValue) : Value + PyError :=
  match v with
  | PySequence items =>
      if maximum_size r <? Z.of_nat (length items) then inr (ValueError "Sequence exceeds its bound")
      else if match length_of with Some n => negb (length items =? n)%nat | None => false end then inr (ValueError "Array has the wrong length")
      else match decode_all f items with inr e => inr e | inl l => inl (V_list l) end
  | _ => inr (TypeError "Array or sequence field requires a sequence")
  end.

Fixpoint decode (t : FieldType) (r : FieldRules) (v : PyValue) : Value + PyError :=
  match t with
  | T_bool => match v with PyBool b => inl (V_bool b) | _ => inr (TypeError "Boolean field requires bool") end
  | T_signed bits => decode_signed bits v
  | T_unsigned bits => decode_unsigned bits v
  | T_float single =>
      match v with
      | PyFloat _ | PyInt _ | PyBool _ => match cast_float single v with inl f => inl (V_float f) | inr e => inr e end
      | _ => inr (TypeError "Floating field requires a real number")
      end
  | T_string wide =>
      match v with
      | PyStr points =>
          match text_of wide points with
          | inr e => inr e
          | inl staged => if maximum_size r <? Z.of_nat (length staged) then inr (ValueError "String exceeds its bound") else inl (V_string staged)
          end
      | _ => inr (TypeError "String field requires str")
      end
  | T_array n e => decode_sequence (Some n) (decode e (element_rules r)) r v
  | T_sequence e => decode_sequence None (decode e (element_rules r)) r v
  | T_nested type =>
      match v with
      | PyInstance type' m => if (type' =? type)%nat then inl (V_nested type m) else inr (TypeError "Nested field has the wrong generated type")
      | _ => inr (TypeError "Nested field has the wrong generated type")
      end
  end.

(** A message by the values of its fields; [i] is the member. *)
Definition assign (t : FieldType) (r : FieldRules) (message : list Value) (i : nat) (v : PyValue) : option PyError * list Value :=
  match decode t r v with
  | inr e => (Some e, message)
  | inl staged => (None, <[i := staged]> message)
  end.

(** The getter of a field of type [t]; a C++ value always has its type. *)
Fixpoint to_python_all (f : Value -> PyValue + PyError) (items : list Value) : list PyValue + PyError :=
  match items with
  | [] => inl []
  | x :: items =>
      match f x with
      | inr e => inr e
      | inl v => match to_python_all f items with inr e => inr e | inl l => inl (v :: l) end
      end
  end.

Fixpoint to_python (t : FieldType) (x : Value) : PyValue + PyError :=
  match t, x with
  | T_bool, V_bool b => inl (PyBool b)
  | (T_signed _ | T_unsigned _), V_int z => inl (PyInt z)
  | T_float single, V_float f => inl (PyFloat (if single then widen f else f))
  | T_string wide, V_string units => match str_of wide units with inl points => inl (PyStr points) | inr e => inr e end
  | (T_array _ e | T_sequence e), V_list items =>
      match to_python_all (to_python e) items with inl l => inl (PySequence l) | inr e => inr e end
  | T_nested _, V_nested type m => inl (PyInstance type m)
  | _, _ => inr CastError
  end.
End Decode.

(** ** Text *)

(** The Unicode scalar values, and UTF-16; [Diagnostics.encode] is UTF-8. *)
Definition is_scalar (c : Z) : bool := (0 <=? c) && (c <? 55296) || (57344 <=? c) && (c <? 1114112).
Definition utf16 (c : Z) : list Z :=
  if c <? 65536 then [c] else [55296 + (c - 65536) / 1024; 56320 + (c - 65536) mod 1024].
Definition units (wide : bool) (points : list Z) : list Z := mjoin ((if wide then utf16 else encode) <$> points).

(** A decoder of UTF-16 takes a first U+FEFF, or its reverse, for a byte order mark. *)
Definition starts_with_mark (points : list Z) : bool :=
  match points with c :: _ => (c =? 65279) || (c =? 65534) | [] => false end.

Class CastLaws `{!Casts} : Prop := {
  as_double_float f : as_double (PyFloat f) = inl f;
  text_of_scalars wide points : forallb is_scalar points = true -> text_of wide points = inl (units wide points);
  str_of_units wide points :
    forallb is_scalar points = true -> wide && starts_with_mark points = false -> str_of wide (units wide points) = inl points }.

(** Well-formed text. *)
Definition is_text (wide : bool) (l : list Z) : Prop :=
  exists points, forallb is_scalar points = true /\ wide && starts_with_mark points = false /\ l = units wide points.

(** ** The values of a type *)

Inductive has_type : FieldType -> FieldRules -> Value -> Prop :=
  | ty_bool r b : has_type T_bool r (V_bool b)
  | ty_signed r bits z : -2^63 <= z < 2^63 -> -2^(bits - 1) <= z < 2^(bits - 1) -> has_type (T_signed bits) r (V_int z)
  | ty_unsigned r bits z : z < 2^64 -> 0 <= z < 2^bits -> has_type (T_unsigned bits) r (V_int z)
  | ty_float r single f : of_format single f = true -> has_type (T_float single) r (V_float f)
  | ty_string r wide l : is_text wide l -> Z.of_nat (length l) <= maximum_size r -> has_type (T_string wide) r (V_string l)
  | ty_array r n e l : length l = n -> Z.of_nat n <= maximum_size r -> Forall (has_type e (MkRules (element_maximum_size r) SIZE_MAX)) l ->
      has_type (T_array n e) r (V_list l)
  | ty_sequence r e l : Z.of_nat (length l) <= maximum_size r -> Forall (has_type e (MkRules (element_maximum_size r) SIZE_MAX)) l ->
      has_type (T_sequence e) r (V_list l)
  | ty_nested r type m : has_type (T_nested type) r (V_nested type m).
#[local] Hint Constructors has_type : core.

(** ** What is decoded *)

(** *** Floating-point values *)

Lemma iter_pos_nat {A} (f : A -> A) p x : SpecFloat.iter_pos f p x = Nat.iter (Pos.to_nat p) f x.
Proof.
  revert x. induction p as [p IH|p IH|]; intros x; cbn [SpecFloat.iter_pos]; [| |done].
  - rewrite !IH, Pos2Nat.inj_xI, Nat.iter_succ_r. rewrite <- Nat.iter_add. f_equal. lia.
  - rewrite !IH, Pos2Nat.inj_xO, <- Nat.iter_add. f_equal. lia.
Qed.

Lemma double_nat m k : Pos.iter xO m k = Nat.iter (Pos.to_nat k) xO m.
Proof. apply Pos2Nat.inj_iter. Qed.

Lemma digits_double m n : Zpos (digits2_pos (Nat.iter n xO m)) = Zpos (digits2_pos m) + Z.of_nat n.
Proof. induction n as [|n IH]; [simpl; lia|]. rewrite Nat.iter_succ. simpl digits2_pos. rewrite Pos2Z.inj_succ, IH. lia. Qed.

Lemma halve_double m n :
  Nat.iter n shr_1 (Build_shr_record (Zpos (Nat.iter n xO m)) false false) = Build_shr_record (Zpos m) false false.
Proof. induction n as [|n IH]; [done|]. rewrite Nat.iter_succ_r, Nat.iter_succ. exact IH. Qed.

(** A mantissa that is exact [k] places to the left. *)
Lemma round_shifted prec emax s m e k :
  bounded prec emax m e = true ->
  binary_round_aux prec emax s (Zpos (Nat.iter k xO m)) (e - Z.of_nat k) loc_Exact = S754_finite s m e.
Proof.
  unfold bounded, canonical_mantissa. intros [Hc%Z.eqb_eq He]%andb_true_iff.
  unfold binary_round_aux, shr_fexp. simpl Zdigits2. rewrite digits_double.
  replace (Zpos (digits2_pos m) + Z.of_nat k + (e - Z.of_nat k)) with (Zpos (digits2_pos m) + e) by lia. rewrite Hc.
  replace (e - (e - Z.of_nat k)) with (Z.of_nat k) by lia.
  assert (shr (shr_record_of_loc (Zpos (Nat.iter k xO m)) loc_Exact) (e - Z.of_nat k) (Z.of_nat k) = (Build_shr_record (Zpos m) false false, e)) as ->.
  { unfold shr. destruct k as [|k]; [simpl; f_equal; lia|]. change (Z.of_nat (S k)) with (Zpos (Pos.of_succ_nat k)). cbv iota.
    rewrite iter_pos_nat, SuccNat2Pos.id_succ.
    unfold shr_record_of_loc. rewrite halve_double. f_equal. lia. }
  simpl. rewrite Hc. replace (e - e) with 0 by lia. simpl. by rewrite He.
Qed.

Lemma narrow_widen x : valid_binary 24 128 x = true -> valid_binary 53 1024 (widen x) = true /\ narrow (widen x) = x.
Proof.
  destruct x as [s|s| |s m e]; try done. simpl. intros Hb. pose proof Hb as Hb'. unfold bounded, canonical_mantissa, fexp, emin in Hb'.
  apply andb_true_iff in Hb' as [Hc%Z.eqb_eq He%Z.leb_le].
  set (d := Zpos (digits2_pos m)) in *. assert (1 <= d) by lia.
  set (k := Z.to_nat (53 - d)).
  assert (Hbk : bounded 53 1024 (Nat.iter k xO m) (e - Z.of_nat k) = true).
  { unfold bounded, canonical_mantissa, fexp, emin. rewrite digits_double. fold d. apply andb_true_iff. rewrite Z.eqb_eq, Z.leb_le. lia. }
  assert (Hw : binary_round 53 1024 s m e = S754_finite s (Nat.iter k xO m) (e - Z.of_nat k)).
  { unfold binary_round, shl_align. fold d. replace (fexp 53 1024 (d + e) - e) with (- Z.of_nat k) by (unfold fexp, emin; lia).
    destruct (Z.of_nat k) as [|p|p] eqn:Hp; [lia | | lia]. change (- Zpos p) with (Zneg p). cbv iota.
    replace (fexp 53 1024 (d + e)) with (e - Zpos p) by (unfold fexp, emin; lia).
    cbv beta.
    change (PosDef.Pos.iter xO m p) with (Pos.iter xO m p). rewrite double_nat. replace (Pos.to_nat p) with k by lia.
    pose proof (round_shifted 53 1024 s (Nat.iter k xO m) (e - Zpos p) 0) as Hr. simpl Nat.iter in Hr.
    rewrite Z.sub_0_r in Hr. by apply Hr. }
  unfold widen, narrow, convert. rewrite Hw. split; [exact Hbk|].
  unfold binary_round, shl_align. rewrite digits_double. fold d.
  replace (fexp 24 128 (d + Z.of_nat k + (e - Z.of_nat k))) with e by (unfold fexp, emin; lia).
  replace (e - (e - Z.of_nat k)) with (Z.of_nat k) by lia. destruct (Z.of_nat k) as [|p|p] eqn:Hp; [lia | | lia].
  rewrite <- Hp. by apply round_shifted.
Qed.

Section Laws.
Context `{!Casts}.

Lemma decode_all_inl f items l : decode_all f items = inl l <-> Forall2 (fun v x => f v = inl x) items l.
Proof.
  revert l. induction items as [|v items IH]; intros l; cbn.
  - split; [intros [= <-]; constructor | intros Hl; inversion Hl; reflexivity].
  - split.
    + destruct (f v) eqn:Hv; [|discriminate]. destruct (decode_all f items) eqn:Hi; [|discriminate].
      intros [= <-]. constructor; [exact Hv | by apply IH].
    + intros Hl. inversion Hl as [|? x ? l' Hv Hi]; subst. by rewrite Hv, (proj2 (IH l') Hi).
Qed.

Lemma decode_all_inr f items e : decode_all f items = inr e -> exists v, v ∈ items /\ f v = inr e.
Proof.
  induction items as [|v items IH]; cbn; [discriminate|].
  destruct (f v) eqn:Hv; [destruct (decode_all f items) eqn:Hi|].
  - discriminate.
  - intros [= <-]. destruct (IH eq_refl) as (w & Hw & He). exists w. split; [by right | exact He].
  - intros [= <-]. exists v. split; [by left | exact Hv].
Qed.

Lemma decode_sequence_inl n f r v x : decode_sequence n f r v = inl x <->
  exists items l, v = PySequence items /\ x = V_list l /\ Z.of_nat (length items) <= maximum_size r /\
    match n with Some n => length items = n | None => True end /\ Forall2 (fun v x => f v = inl x) items l.
Proof.
  unfold decode_sequence. split.
  - destruct v as [| | | |items| |]; try discriminate.
    destruct (Z.ltb_spec (maximum_size r) (Z.of_nat (length items))); [discriminate|].
    destruct (match n with Some n => negb (length items =? n)%nat | None => false end) eqn:Hn; [discriminate|].
    destruct (decode_all f items) eqn:Hl; [|discriminate]. intros [= <-]. exists items, l.
    rewrite <- decode_all_inl. repeat split; try done. destruct n; [|done].
    apply negb_false_iff, Nat.eqb_eq in Hn. exact Hn.
  - intros (items & l & -> & -> & Hm & Hn & Hl). apply decode_all_inl in Hl. rewrite Hl.
    destruct (Z.ltb_spec (maximum_size r) (Z.of_nat (length items))); [lia|].
    destruct n; [|done]. by rewrite Hn, Nat.eqb_refl.
Qed.

Lemma decode_signed_inl bits v x : decode_signed bits v = inl x <->
  exists z, integer_of v = Some z /\ x = V_int z /\ -2^63 <= z < 2^63 /\ -2^(bits - 1) <= z < 2^(bits - 1).
Proof.
  unfold decode_signed. destruct (integer_of v) as [z|]; [|split; [discriminate | by intros (? & ? & _)]].
  destruct (Z.ltb_spec z (-2^63)), (Z.ltb_spec (2^63 - 1) z), (Z.ltb_spec z (-2^(bits - 1))),
    (Z.ltb_spec (2^(bits - 1) - 1) z); cbn [orb]; (split; [try discriminate; intros [= <-]; exists z; repeat split; lia |
      intros (? & [= <-] & -> & ? & ?); try done; lia]).
Qed.

Lemma decode_unsigned_inl bits v x : decode_unsigned bits v = inl x <->
  exists z, integer_of v = Some z /\ x = V_int z /\ z < 2^64 /\ 0 <= z < 2^bits.
Proof.
  unfold decode_unsigned. destruct (integer_of v) as [z|]; [|split; [discriminate | by intros (? & ? & _)]].
  destruct (Z.ltb_spec z 0), (Z.ltb_spec (2^64 - 1) z), (Z.ltb_spec (2^bits - 1) z); cbn [orb];
    (split; [try discriminate; intros [= <-]; exists z; repeat split; lia |
      intros (? & [= <-] & -> & ? & ?); try done; lia]).
Qed.

(** Whatever Python value is given to a field, what is stored has the field's
    type: integers within their width, strings and sequences within their
    bounds at both levels, arrays of their length, nested messages of their
    class, if reading a number gives a value of the format, and reading text
    gives well-formed text. *)
Theorem decode_typed t r v x :
  (forall single v f, cast_float single v = inl f -> of_format single f = true) ->
  (forall wide l u, text_of wide l = inl u -> is_text wide u) ->
  decode t r v = inl x -> has_type t r x.
Proof.
  intros Hfloat Htext. revert r v x. induction t as [|bits|bits|single|wide|n e IH|e IH|type]; intros r v x; cbn [decode].
  - destruct v; try discriminate. intros [= <-]. auto.
  - rewrite decode_signed_inl. intros (z & _ & -> & ? & ?). auto.
  - rewrite decode_unsigned_inl. intros (z & _ & -> & ? & ?). auto.
  - destruct v; try discriminate; destruct cast_float eqn:Hc; try discriminate; intros [= <-]; eauto.
  - destruct v; try discriminate. destruct text_of as [u|] eqn:Hu; [|discriminate].
    destruct (Z.ltb_spec (maximum_size r) (Z.of_nat (length u))); [discriminate|]. intros [= <-]. eauto.
  - rewrite decode_sequence_inl. intros (items & l & _ & -> & Hm & Hn & Hl).
    pose proof (Forall2_length _ _ _ Hl). constructor; [lia | lia |]. eapply Forall2_Forall_r; [exact Hl|].
    apply Forall_forall. intros w _ y. apply IH.
  - rewrite decode_sequence_inl. intros (items & l & _ & -> & Hm & _ & Hl).
    pose proof (Forall2_length _ _ _ Hl). constructor; [lia|]. eapply Forall2_Forall_r; [exact Hl|].
    apply Forall_forall. intros w _ y. apply IH.
  - destruct v; try discriminate. destruct (Nat.eqb_spec type0 type); [|discriminate]. intros [= <-]. subst. auto.
Qed.

Lemma to_python_all_inl f items l : to_python_all f items = inl l <-> Forall2 (fun x v => f x = inl v) items l.
Proof.
  revert l. induction items as [|x items IH]; intros l; cbn.
  - split; [intros [= <-]; constructor | intros Hl; inversion Hl; reflexivity].
  - split.
    + destruct (f x) eqn:Hv; [|discriminate]. destruct (to_python_all f items) eqn:Hi; [|discriminate].
      intros [= <-]. constructor; [exact Hv | by apply IH].
    + intros Hl. inversion Hl as [|? v ? l' Hv Hi]; subst. by rewrite Hv, (proj2 (IH l') Hi).
Qed.

(** The elements of a sequence there and back. *)
Lemma elements_roundtrip e r items :
  (forall x, has_type e (element_rules r) x -> exists v, to_python e x = inl v /\ decode e (element_rules r) v = inl x) ->
  Forall (has_type e (element_rules r)) items ->
  exists l, to_python_all (to_python e) items = inl l /\ length l = length items /\
    Forall2 (fun v x => decode e (element_rules r) v = inl x) l items.
Proof.
  intros He Hall. assert (exists l, Forall2 (fun x v => to_python e x = inl v /\ decode e (element_rules r) v = inl x) items l) as [l Hl].
  { apply Forall_exists_Forall2_l. by eapply Forall_impl. }
  exists l. split; [|split].
  - apply to_python_all_inl. eapply Forall2_impl; [exact Hl|]. by intros x v [? _].
  - symmetry. by eapply Forall2_length.
  - apply Forall2_flip. eapply Forall2_impl; [exact Hl|]. by intros x v [_ ?].
Qed.

(** C39: A field's round trip: of a value of the field's type the getter makes a Python value that the setter accepts, and decodes to that same value: integers of every width, [float] through the [double] of Python and back without loss, UTF-8 and UTF-16 text, nested sequences and arrays within their bounds. *)
Theorem field_roundtrip `{!CastLaws} t r x :
  has_type t r x -> exists v, to_python t x = inl v /\ decode t r v = inl x.
Proof.
  revert r x. induction t as [|bits|bits|single|wide|n e IH|e IH|type]; intros r x Hx; inversion Hx; subst; cbn [decode to_python].
  - by eexists.
  - eexists. split; [reflexivity|]. apply decode_signed_inl. eauto.
  - eexists. split; [reflexivity|]. apply decode_unsigned_inl. eauto 6.
  - eexists. split; [reflexivity|]. unfold cast_float. rewrite as_double_float. destruct single; [|done].
    by rewrite (proj2 (narrow_widen f ltac:(assumption))).
  - match goal with H : is_text _ _ |- _ => destruct H as (points & Hs & Hm & ->) end. rewrite str_of_units by done.
    eexists. split; [reflexivity|]. cbn. rewrite text_of_scalars by done.
    destruct (Z.ltb_spec (maximum_size r) (Z.of_nat (length (units wide points)))); [lia | done].
  - destruct (elements_roundtrip e r l) as (l' & -> & Hn & Hl); [by intros; apply IH | done|].
    eexists. split; [reflexivity|]. apply decode_sequence_inl. exists l', l. rewrite Hn. by repeat split.
  - destruct (elements_roundtrip e r l) as (l' & -> & Hn & Hl); [by intros; apply IH | done|].
    eexists. split; [reflexivity|]. apply decode_sequence_inl. exists l', l. rewrite Hn. by repeat split.
  - eexists. split; [reflexivity|]. cbn. by rewrite Nat.eqb_refl.
Qed.

(** An assignment that fails leaves the message as it was; one that succeeds
    changes the one field. *)
Theorem assign_commits t r message i v :
  match decode t r v with
  | inr e => assign t r message i v = (Some e, message)
  | inl x => (assign t r message i v).1 = None /\
      forall j, (assign t r message i v).2 !! j =
        if decide (j = i /\ (i < length message)%nat) then Some x else message !! j
  end.
Proof.
  unfold assign. destruct decode; cbn; [|done]. split; [done|]. intros j. case_decide as Hj.
  - destruct Hj as [-> Hi]. by apply list_lookup_insert_eq.
  - destruct (decide (j = i)) as [->|]; [|by apply list_lookup_insert_ne].
    rewrite list_insert_ge by lia. done.
Qed.
End Laws.
End Fields.

(** ** A Python with strict codecs *)

Fixpoint utf16_decode (u : list Z) : list Z :=
  match u with
  | [] => []
  | h :: rest =>
      match rest with
      | l :: rest' =>
          if (55296 <=? h) && (h <? 56320) then 65536 + (h - 55296) * 1024 + (l - 56320) :: utf16_decode rest'
          else h :: utf16_decode rest
      | [] => [h]
      end
  end.

Fixpoint utf8_decode (u : list Z) : list Z :=
  match u with
  | [] => []
  | b0 :: r0 =>
      if b0 <? 128 then b0 :: utf8_decode r0
      else
        match r0 with
        | [] => [b0]
        | b1 :: r1 =>
            if b0 <? 224 then (b0 - 192) * 64 + (b1 - 128) :: utf8_decode r1
            else
              match r1 with
              | [] => [b0]
              | b2 :: r2 =>
                  if b0 <? 240 then (b0 - 224) * 4096 + (b1 - 128) * 64 + (b2 - 128) :: utf8_decode r2
                  else
                    match r2 with
                    | [] => [b0]
                    | b3 :: r3 => (b0 - 240) * 262144 + (b1 - 128) * 4096 + (b2 - 128) * 64 + (b3 - 128) :: utf8_decode r3
                    end
              end
        end
  end.

Lemma is_scalar_spec c : is_scalar c = true -> 0 <= c < 55296 \/ 57344 <= c < 1114112.
Proof. unfold is_scalar. rewrite orb_true_iff, !andb_true_iff, !Z.leb_le, !Z.ltb_lt. lia. Qed.

Lemma utf16_decode_app c u : is_scalar c = true -> utf16_decode (utf16 c ++ u) = c :: utf16_decode u.
Proof.
  intros Hc%is_scalar_spec. unfold utf16. destruct (Z.ltb_spec c 65536).
  - cbn [app utf16_decode]. destruct u as [|l u]; [done|].
    destruct (Z.leb_spec 55296 c), (Z.ltb_spec c 56320); cbn [andb]; done || lia.
  - set (h := (c - 65536) / 1024). set (l := (c - 65536) mod 1024). cbn [app utf16_decode].
    assert (0 <= h < 1024) by (unfold h; Z.div_mod_to_equations; lia).
    destruct (Z.leb_spec 55296 (55296 + h)), (Z.ltb_spec (55296 + h) 56320); cbn [andb]; try lia.
    f_equal. unfold h, l. Z.div_mod_to_equations. lia.
Qed.

Lemma utf8_decode_app c u : is_scalar c = true -> utf8_decode (encode c ++ u) = c :: utf8_decode u.
Proof.
  intros Hc%is_scalar_spec. unfold encode.
  destruct (Z.ltb_spec c 128); [|destruct (Z.ltb_spec c 2048); [|destruct (Z.ltb_spec c 65536)]]; cbn [app utf8_decode].
  - by destruct (Z.ltb_spec c 128); [|lia].
  - assert (2 <= c / 64 < 32) by (Z.div_mod_to_equations; lia).
    destruct (Z.ltb_spec (192 + c / 64) 128), (Z.ltb_spec (192 + c / 64) 224); try lia. f_equal. Z.div_mod_to_equations. lia.
  - assert (0 <= c / 4096 < 16) by (Z.div_mod_to_equations; lia).
    destruct (Z.ltb_spec (224 + c / 4096) 128), (Z.ltb_spec (224 + c / 4096) 224), (Z.ltb_spec (224 + c / 4096) 240); try lia.
    f_equal. Z.div_mod_to_equations. lia.
  - assert (0 <= c / 262144 < 8) by (Z.div_mod_to_equations; lia).
    destruct (Z.ltb_spec (240 + c / 262144) 128), (Z.ltb_spec (240 + c / 262144) 224), (Z.ltb_spec (240 + c / 262144) 240); try lia.
    f_equal. Z.div_mod_to_equations. lia.
Qed.

Definition decode_units (wide : bool) (u : list Z) : list Z := if wide then utf16_decode u else utf8_decode u.

Lemma decode_units_units wide points : forallb is_scalar points = true -> decode_units wide (units wide points) = points.
Proof.
  induction points as [|c points IH]; [by destruct wide|]. cbn [forallb]. intros [Hc Hp]%andb_true_iff.
  unfold decode_units, units in *. cbn [fmap list_fmap mjoin list_join].
  destruct wide; [rewrite utf16_decode_app by done | rewrite utf8_decode_app by done]; f_equal; by apply IH.
Qed.

Definition swap_octets (c : Z) : Z := c mod 256 * 256 + c / 256.

(** What is left of 16-bit units when a byte order mark is taken for one. *)
Definition without_mark (wide : bool) (u : list Z) : list Z :=
  if negb wide then u
  else match u with
       | c :: rest => if c =? 65279 then rest else if c =? 65534 then swap_octets <$> rest else u
       | [] => []
       end.

Definition strict (wide : bool) (u : list Z) : list Z + PyError :=
  let points := decode_units wide u in
  if forallb is_scalar points && bool_decide (units wide points = u) then inl points else inr CastError.

#[export] Instance python : Casts (O := unit) := {
  as_double v :=
    match v with
    | PyFloat f => inl f
    | PyInt z => match binary_normalize 53 1024 z 0 false with S754_infinity _ => inr CastError | f => inl f end
    | PyBool b => inl (binary_normalize 53 1024 (if b then 1 else 0) 0 false)
    | _ => inr CastError
    end;
  text_of wide points := if forallb is_scalar points then inl (units wide points) else inr CastError;
  str_of wide u := strict wide (without_mark wide u) }.

Lemma units_mark points : forallb is_scalar points = true -> starts_with_mark points = false -> without_mark true (units true points) = units true points.
Proof.
  destruct points as [|c points]; [done|]. cbn [forallb starts_with_mark]. intros [Hc%is_scalar_spec _]%andb_true_iff [H1 H2]%orb_false_iff.
  unfold units, without_mark. cbn [negb fmap list_fmap mjoin list_join]. unfold utf16.
  destruct (Z.ltb_spec c 65536); cbn [app]; [by rewrite H1, H2|].
  assert (0 <= (c - 65536) / 1024 < 1024) by (Z.div_mod_to_equations; lia).
  destruct (Z.eqb_spec (55296 + (c - 65536) / 1024) 65279), (Z.eqb_spec (55296 + (c - 65536) / 1024) 65534); done || lia.
Qed.

#[export] Instance python_laws : CastLaws (O := unit).
Proof.
  split; [done | |].
  - intros wide points Hp. cbn. by rewrite Hp.
  - intros wide points Hp Hm. cbn. replace (without_mark wide (units wide points)) with (units wide points)
      by (destruct wide; [symmetry; by apply units_mark | done]).
    unfold strict. rewrite decode_units_units, Hp, bool_decide_eq_true_2 by done. done.
Qed.

(** A sequence of bounded strings: "e" with an acute accent and a euro sign;
    and a face, which takes four octets or two 16-bit units.  A [float]: a tenth,
    and the smallest one. *)
Definition sample_rules : FieldRules := MkRules 2 5.
Definition texts (wide : bool) : Value (O := unit) := V_list [V_string (units wide [233; 8364]); V_string (units wide [128512])].
Definition floats : Value (O := unit) := V_list [V_float (S754_finite false 13421773 (-27)); V_float (S754_finite true 1 (-149))].

Example mark_is_lost : str_of (O := unit) true (units true [65279; 97]) = inl [97].
Proof. vm_compute. reflexivity. Qed.

Lemma texts_typed wide : has_type (T_sequence (T_string wide)) sample_rules (texts wide).
Proof.
  apply ty_sequence; [vm_compute; discriminate|]. repeat constructor; try (by destruct wide);
    eexists; (split; [|split]); try reflexivity; by destruct wide.
Qed.

Lemma floats_typed : has_type (T_array 2 (T_float true)) sample_rules floats.
Proof. apply ty_array; [reflexivity | vm_compute; discriminate |]. repeat constructor. Qed.

Lemma field_roundtrip_witness :
  (forall wide, exists v, to_python (T_sequence (T_string wide)) (texts wide) = inl v /\
     decode (T_sequence (T_string wide)) sample_rules v = inl (texts wide)) /\
  (exists v, to_python (T_array 2 (T_float true)) floats = inl v /\ decode (T_array 2 (T_float true)) sample_rules v = inl floats).
Proof.
  split.
  - intros wide. apply (field_roundtrip (T_sequence (T_string wide)) sample_rules (texts wide)), texts_typed.
  - apply (field_roundtrip (T_array 2 (T_float true)) sample_rules floats), floats_typed.
Defined.
