(* ===== verification/NativeIo.v ===== *)
(** * NativeIo: native work off the Python threads

    [NativeIoDispatcher] (src/dclpy/src/native_io.hpp, native_io.cpp) runs
    jobs on one worker thread.  A ticket is a slot of a fixed table, reserved
    before the work is accepted; the job's completion waits in the mailbox of
    its route until the owner acknowledges it.  Two queues are linked through
    the slots; a mailbox is a ring of slot numbers.

    The methods are functions of the state that [mutex_] protects; what they
    throw is an [Exception].  [io_step] interleaves them with the worker. *)

From S2P Require Import Prelude Identity Entities Diagnostics.
Local Open Scope nat_scope.

Inductive NativeJobKind :=
  | Publish | ServiceRequest | ServiceResponse | DiscardRequest | GoalRequest | CancelRequest
  | ResultRequest | GoalResponse | CancelResponse | ResultResponse | Feedback | Status.

#[export] Instance NativeJobKind_eq_dec : EqDecision NativeJobKind.
Proof. solve_decision. Defined.

Record CompletionRecord := MkCompletion {
  executor_id : Z; attachment_generation : Z; operation_id : Z; entity_id : Z;
  kind : NativeJobKind; failed : bool; skipped : bool; cleanup_failed : bool;
  code : ErrorCode; diagnostic : string; request_id : option RequestId }.

Definition with_outcome (r : CompletionRecord) (f : bool) (c : ErrorCode) (text : string) : CompletionRecord :=
  MkCompletion (executor_id r) (attachment_generation r) (operation_id r) (entity_id r) (kind r)
    f (skipped r) (cleanup_failed r) c text (request_id r).
Definition with_skipped (r : CompletionRecord) : CompletionRecord :=
  MkCompletion (executor_id r) (attachment_generation r) (operation_id r) (entity_id r) (kind r)
    (failed r) true (cleanup_failed r) (code r) (diagnostic r) (request_id r).
Definition with_executor (r : CompletionRecord) (id : Z) : CompletionRecord :=
  MkCompletion id (attachment_generation r) (operation_id r) (entity_id r) (kind r)
    (failed r) (skipped r) (cleanup_failed r) (code r) (diagnostic r) (request_id r).

(** ** Jobs

    What a job may throw: an exception of the native layer, a failed
    allocation, another [std::exception] with its text, or anything else. *)
Inductive Thrown := T_native (e : Exception) | T_bad_alloc | T_std (what : string) | T_unknown.

(** The virtual methods of [NativeJob]; [E] is what the middleware answers
    during a call. *)
Class NativeJob (J E : Type) := {
  run : E -> CompletionRecord -> J -> option Thrown * CompletionRecord * J;
  max_attempts : J -> nat;
  retryable : J -> CompletionRecord -> bool;
  cleanup_pending : J -> bool;
  after_failed_delivery : E -> CompletionRecord -> J -> option Thrown * CompletionRecord * J }.

(** What a call of the middleware makes of an attempt. *)
Definition thrown_by {A} (x : Throws A) : option Thrown := match x with inl _ => None | inr e => Some (T_native e) end.

(** A publication: the lease of its publisher [P] and its sample [S]. *)
Record PublishJob (P S : Type) := MkPublishJob { publish_lease : P; publish_sample : S }.
Arguments MkPublishJob {P S} _ _.
Arguments publish_lease {P S} _.
Arguments publish_sample {P S} _.

#[export] Instance PublishJob_is_job P S : NativeJob (PublishJob P S) (P -> S -> Result unit) := {
  run write r j := (thrown_by (unwrap (write (publish_lease j) (publish_sample j))), r, j);
  max_attempts _ := 1; retryable _ _ := false; cleanup_pending _ := false;
  after_failed_delivery _ r j := (None, r, j) }.

(** The catch clauses of [execute_step]. *)
Definition caught (thrown : option Thrown) (r : CompletionRecord) : CompletionRecord :=
  match thrown with
  | None => r
  | Some (T_native (MiddlewareFailure e)) => with_outcome r true (error_code e) (copy_diagnostic (error_message e))
  | Some T_bad_alloc => with_outcome r true ResourceExhausted (copy_diagnostic "Native I/O allocation failed")
  | Some (T_native EntityClosed) => with_outcome r true DDSError (copy_diagnostic "Entity is closing or closed")
  | Some (T_native ContextShutdown) => with_outcome r true DDSError (copy_diagnostic "Context no longer accepts user work")
  | Some (T_std what) => with_outcome r true DDSError (copy_diagnostic what)
  | Some T_unknown => with_outcome r true DDSError (copy_diagnostic "Unclassified native I/O exception")
  end.

(** ** The dispatcher *)

Inductive SlotState := Free | Reserved | Queued | Running | RetryWaiting | Completed.

#[export] Instance SlotState_eq_dec : EqDecision SlotState.
Proof. solve_decision. Defined.

(** The number of slots; also the end of a queue. *)
Definition size : nat := 256.
Definition ordinary_limit : nat := 224.

(** The owner's handle of a route: none, one of another dispatcher, or the
    object that this dispatcher made for [id]. *)
Inductive PortRef := Missing | Foreign | Route (id : Z).

Section Dispatcher.
Context {J E : Type} `{!NativeJob J E}.

Record Slot := MkSlot {
  ticket : Z; state : SlotState; control : bool; priority : bool; retries : nat; retry_due : Z;
  next : nat; completion : CompletionRecord; port : option Z; job : option J }.

Record Queue := MkQueue { head : nat; tail : nat }.

(** [ring], [ring_head], [count]: the mailbox.  [wakes] counts the triggers of
    the owner's guard condition. *)
Record CompletionPort := MkPort {
  ring : list nat; ring_head : nat; count : nat; outstanding : nat; accepting : bool; wakes : nat }.

Record NativeIoDispatcher := MkDispatcher {
  slots : list Slot; control_queue : Queue; user_queue : Queue; routes : gmap Z CompletionPort;
  used : nat; ordinary_used : nat; next_ticket : Z; next_owner : Z; stopping : bool }.

Definition with_slots (d : NativeIoDispatcher) (l : list Slot) : NativeIoDispatcher :=
  MkDispatcher l (control_queue d) (user_queue d) (routes d) (used d) (ordinary_used d) (next_ticket d) (next_owner d) (stopping d).
Definition with_queues (d : NativeIoDispatcher) (c u : Queue) : NativeIoDispatcher :=
  MkDispatcher (slots d) c u (routes d) (used d) (ordinary_used d) (next_ticket d) (next_owner d) (stopping d).
Definition with_routes (d : NativeIoDispatcher) (m : gmap Z CompletionPort) : NativeIoDispatcher :=
  MkDispatcher (slots d) (control_queue d) (user_queue d) m (used d) (ordinary_used d) (next_ticket d) (next_owner d) (stopping d).
Definition with_stopping (d : NativeIoDispatcher) : NativeIoDispatcher :=
  MkDispatcher (slots d) (control_queue d) (user_queue d) (routes d) (used d) (ordinary_used d) (next_ticket d) (next_owner d) true.

Definition empty_record : CompletionRecord := MkCompletion 0 0 0 0 Publish false false false DDSError "" None.
Definition new_slot : Slot := MkSlot 0 Free false false 0 0 size empty_record None None.
Definition new_dispatcher : NativeIoDispatcher :=
  MkDispatcher (replicate size new_slot) (MkQueue size size) (MkQueue size size) ∅ 0 0 1 1 false.

Definition slot_state (s : Slot) (v : SlotState) : Slot :=
  MkSlot (ticket s) v (control s) (priority s) (retries s) (retry_due s) (next s) (completion s) (port s) (job s).
Definition slot_next (s : Slot) (v : nat) : Slot :=
  MkSlot (ticket s) (state s) (control s) (priority s) (retries s) (retry_due s) v (completion s) (port s) (job s).
Definition slot_work (s : Slot) (r : CompletionRecord) (j : option J) : Slot :=
  MkSlot (ticket s) (state s) (control s) (priority s) (retries s) (retry_due s) (next s) r (port s) j.
Definition slot_retry (s : Slot) (n : nat) (due : Z) : Slot :=
  MkSlot (ticket s) RetryWaiting (control s) (priority s) n due (next s) (completion s) (port s) (job s).

(** *** Queues *)

Definition push (q : Queue) (index : nat) (l : list Slot) : Queue * list Slot :=
  let l := alter (fun s => slot_next s size) index l in
  if tail q =? size then (MkQueue index index, l)
  else (MkQueue (head q) index, alter (fun s => slot_next s index) (tail q) l).

Definition next_of (l : list Slot) (index : nat) : nat := default size (next <$> l !! index).

Definition pop (q : Queue) (l : list Slot) : nat * Queue :=
  let h := next_of l (head q) in
  (head q, if h =? size then MkQueue h size else MkQueue h (tail q)).

(** [push] to the queue of the slot's priority. *)
Definition push_ready (index : nat) (d : NativeIoDispatcher) : NativeIoDispatcher :=
  match slots d !! index with
  | Some s =>
      if priority s then let '(q, l) := push (control_queue d) index (slots d) in with_queues (with_slots d l) q (user_queue d)
      else let '(q, l) := push (user_queue d) index (slots d) in with_queues (with_slots d l) (control_queue d) q
  | None => d
  end.

(** *** Routes *)

Definition validate_route (p : PortRef) (d : NativeIoDispatcher) : Throws (Z * CompletionPort) :=
  match p with
  | Missing => throw InvalidArgument "Missing completion route"
  | Foreign => throw NotRegistered "Completion route belongs to another dispatcher or has retired"
  | Route id =>
      match routes d !! id with
      | Some q => inl (id, q)
      | None => throw NotRegistered "Completion route belongs to another dispatcher or has retired"
      end
  end.

Definition new_port : CompletionPort := MkPort (replicate size 0) 0 0 0 true 0.

(** The wait set, if any: whether it belongs to the dispatcher's Context, and
    what its [control_wake_lease] throws. *)
Definition open_route (wait_set : option (bool * option Exception)) (d : NativeIoDispatcher) : Throws (Z * NativeIoDispatcher) :=
  match wait_set with
  | None => throw InvalidArgument "Missing owner WaitSet"
  | Some (false, _) => throw InvalidArgument "Completion route belongs to a foreign Context"
  | Some (true, Some e) => inr e
  | Some (true, None) =>
  if stopping d then throw InvalidState "Native dispatcher is stopping"
  else if (next_owner d =? UINT64_MAX)%Z then throw ResourceExhausted "Executor routing identities exhausted"
  else inl (next_owner d, MkDispatcher (slots d) (control_queue d) (user_queue d) (<[next_owner d := new_port]> (routes d))
         (used d) (ordinary_used d) (next_ticket d) (next_owner d + 1) (stopping d))
  end.

Definition port_accepting (p : CompletionPort) (v : bool) : CompletionPort :=
  MkPort (ring p) (ring_head p) (count p) (outstanding p) v (wakes p).
Definition port_outstanding (p : CompletionPort) (n : nat) : CompletionPort :=
  MkPort (ring p) (ring_head p) (count p) n (accepting p) (wakes p).
Definition notify (p : CompletionPort) : CompletionPort :=
  MkPort (ring p) (ring_head p) (count p) (outstanding p) (accepting p) (S (wakes p)).

Definition stop_route (p : PortRef) (d : NativeIoDispatcher) : Throws NativeIoDispatcher :=
  match validate_route p d with
  | inl (id, q) => inl (with_routes d (<[id := port_accepting q false]> (routes d)))
  | inr e => inr e
  end.

Definition retire_route (p : PortRef) (d : NativeIoDispatcher) : Throws NativeIoDispatcher :=
  match validate_route p d with
  | inl (id, q) =>
      if negb (outstanding q =? 0) then throw Busy "Completion route still has accepted producers"
      else if negb (count q =? 0) then throw Busy "Completion route still contains notifications"
      else inl (with_routes d (delete id (routes d)))
  | inr e => inr e
  end.

(** *** Tickets *)

Definition is_priority (k : NativeJobKind) : bool :=
  match k with
  | ServiceResponse | DiscardRequest | GoalResponse | CancelResponse | ResultResponse => true
  | _ => false
  end.

Definition may_use_control (k : NativeJobKind) : bool :=
  match k with GoalResponse | CancelResponse => true | _ => false end.

Definition reserve (p : PortRef) (r : CompletionRecord) (ctl : bool) (d : NativeIoDispatcher) : Throws (Z * NativeIoDispatcher) :=
  match validate_route p d with
  | inr e => inr e
  | inl (id, q) =>
      if ctl && negb (may_use_control (kind r)) then
        throw InvalidArgument "Only Goal and Cancel transactions may use reserved control capacity"
      else if stopping d || (negb ctl && negb (accepting q)) then
        throw InvalidState "Dispatcher route rejects new user work"
      else if (used d =? size) || (negb ctl && (ordinary_used d =? ordinary_limit)) then
        throw ResourceExhausted "Native I/O admission capacity exhausted"
      else if (next_ticket d =? UINT64_MAX)%Z then throw ResourceExhausted "Native I/O ticket identities exhausted"
      else
        match list_find (fun s => state s = Free) (slots d) with
        | Some (index, s) =>
            let s := MkSlot (next_ticket d) Reserved ctl (is_priority (kind r)) 0 (retry_due s) (next s)
                       (with_executor r id) (Some id) (job s) in
            inl (next_ticket d,
              MkDispatcher (<[index := s]> (slots d)) (control_queue d) (user_queue d)
                (<[id := port_outstanding q (S (outstanding q))]> (routes d))
                (S (used d)) (if ctl then ordinary_used d else S (ordinary_used d))
                (next_ticket d + 1) (next_owner d) (stopping d))
        | None => throw InvalidState "Native I/O capacity accounting is inconsistent"
        end
  end.

Definition holds_ticket (t : Z) (s : Slot) : Prop := state s <> Free /\ ticket s = t.
#[global] Instance holds_ticket_dec t s : Decision (holds_ticket t s) := _.

Definition locate (t : Z) (d : NativeIoDispatcher) : Throws (nat * Slot) :=
  match list_find (holds_ticket t) (slots d) with
  | Some x => inl x
  | None => throw NotFound "Native I/O ticket has retired"
  end.

Definition install (t : Z) (j : option J) (d : NativeIoDispatcher) : Throws NativeIoDispatcher :=
  match j with
  | None => throw InvalidArgument "Missing native job"
  | Some j =>
      match locate t d with
      | inr e => inr e
      | inl (index, s) =>
          if bool_decide (state s <> Reserved) || bool_decide (is_Some (job s)) then
            throw InvalidState "Native ticket already has its prepared job"
          else inl (with_slots d (<[index := slot_work s (completion s) (Some j)]> (slots d)))
      end
  end.

Definition enqueue_prepared (t : Z) (d : NativeIoDispatcher) : Throws NativeIoDispatcher :=
  match locate t d with
  | inr e => inr e
  | inl (index, s) =>
      if bool_decide (state s <> Reserved) || bool_decide (job s = None) then
        throw InvalidState "Native ticket has no prepared job or was already enqueued"
      else inl (push_ready index (with_slots d (<[index := slot_state s Queued]> (slots d))))
  end.

Definition enqueue (t : Z) (j : option J) (d : NativeIoDispatcher) : Throws NativeIoDispatcher :=
  match install t j d with inl d => enqueue_prepared t d | inr e => inr e end.

(** A completion goes to the mailbox, and the owner is woken. *)
Definition publish (index : nat) (p : CompletionPort) : CompletionPort :=
  notify (MkPort (<[(ring_head p + count p) mod size := index]> (ring p)) (ring_head p) (S (count p))
            (outstanding p) (accepting p) (wakes p)).

Definition publish_slot (index : nat) (d : NativeIoDispatcher) : NativeIoDispatcher :=
  match slots d !! index with
  | Some s => match port s with Some id => with_routes d (alter (publish index) id (routes d)) | None => d end
  | None => d
  end.

(** The walk of [cancel_queued] along a queue: the predecessor of [index]. *)
Fixpoint find_previous (fuel : nat) (l : list Slot) (index previous current : nat) : option nat :=
  match fuel with
  | O => None
  | S fuel =>
      if current =? index then Some previous
      else if current =? size then None
      else find_previous fuel l index current (next_of l current)
  end.

Definition unlink (q : Queue) (index previous : nat) (l : list Slot) : Queue * list Slot :=
  let after := next_of l index in
  let '(h, l) := if previous =? size then (after, l) else (head q, alter (fun s => slot_next s after) previous l) in
  (MkQueue h (if tail q =? index then previous else tail q), l).

Definition cancel_queued (t : Z) (d : NativeIoDispatcher) : Throws (bool * NativeIoDispatcher) :=
  match list_find (holds_ticket t) (slots d) with
  | None => inl (false, d)
  | Some (index, s) =>
      if decide (state s = Queued) then
        let q := if priority s then control_queue d else user_queue d in
        match find_previous (S size) (slots d) index size (head q) with
        | None => throw InvalidState "Queued native ticket is missing from its ready list"
        | Some previous =>
            let '(q, l) := unlink q index previous (slots d) in
            let d := if priority s then with_queues (with_slots d l) q (user_queue d)
                     else with_queues (with_slots d l) (control_queue d) q in
            inl (true, publish_slot index
              (with_slots d (alter (fun s => slot_state (slot_work s (with_skipped (completion s)) (job s)) Completed) index (slots d))))
        end
      else inl (false, d)
  end.

(** [release_slot] counts the slot out and wakes every route. *)
Definition release_slot (index : nat) (s : Slot) (d : NativeIoDispatcher) : NativeIoDispatcher :=
  let m := match port s with
           | Some id => alter (fun p => port_outstanding p (outstanding p - 1)) id (routes d)
           | None => routes d
           end in
  MkDispatcher (<[index := MkSlot (ticket s) Free (control s) (priority s) (retries s) (retry_due s) (next s)
                             (completion s) None None]> (slots d))
    (control_queue d) (user_queue d) (notify <$> m)
    (used d - 1) (if control s then ordinary_used d else ordinary_used d - 1) (next_ticket d) (next_owner d) (stopping d).

Definition abandon (t : Z) (d : NativeIoDispatcher) : Throws NativeIoDispatcher :=
  match locate t d with
  | inr e => inr e
  | inl (index, s) =>
      if decide (state s = Reserved) then inl (release_slot index s d)
      else throw Busy "An accepted job must retire through its completion owner"
  end.

(** *** Mailboxes *)

Definition mailbox_head (p : CompletionPort) : option nat := if count p =? 0 then None else ring p !! ring_head p.

Definition peek (p : PortRef) (d : NativeIoDispatcher) : Throws (option (Z * CompletionRecord)) :=
  match validate_route p d with
  | inr e => inr e
  | inl (_, q) =>
      inl (match mailbox_head q with
           | Some index => (fun s => (ticket s, completion s)) <$> slots d !! index
           | None => None
           end)
  end.

Definition port_pop (p : CompletionPort) : CompletionPort :=
  MkPort (ring p) ((ring_head p + 1) mod size) (count p - 1) (outstanding p) (accepting p) (wakes p).

Definition acknowledge (p : PortRef) (t : Z) (d : NativeIoDispatcher) : Throws NativeIoDispatcher :=
  match validate_route p d with
  | inr e => inr e
  | inl (id, q) =>
      match locate t d with
      | inr e => inr e
      | inl (index, s) =>
          if bool_decide (mailbox_head q <> Some index) || bool_decide (port s <> Some id) then
            throw InvalidState "Completion ACK does not match the owner mailbox head"
          else inl (release_slot index s (with_routes d (<[id := port_pop q]> (routes d))))
      end
  end.

Definition outstanding_of (p : PortRef) (d : NativeIoDispatcher) : Throws nat :=
  match validate_route p d with inl (_, q) => inl (outstanding q) | inr e => inr e end.

Definition shutdown (d : NativeIoDispatcher) : Throws NativeIoDispatcher :=
  if negb (used d =? 0) || bool_decide (routes d <> ∅) then throw Busy "Native I/O routes or tickets have not retired"
  else inl (with_stopping d).

(** *** The worker *)

Definition earlier (a : option Z) (due : Z) : option Z :=
  match a with Some e => if (due <? e)%Z then Some due else a | None => Some due end.

(** The scan for retries that are due. *)
Definition promote_step (now : Z) (x : NativeIoDispatcher * option Z) (index : nat) : NativeIoDispatcher * option Z :=
  let '(d, earliest) := x in
  match slots d !! index with
  | Some s =>
      if decide (state s = RetryWaiting) then
        if (retry_due s <=? now)%Z then (push_ready index (with_slots d (<[index := slot_state s Queued]> (slots d))), earliest)
        else (d, earlier earliest (retry_due s))
      else (d, earliest)
  | None => (d, earliest)
  end.

Definition promote (now : Z) (d : NativeIoDispatcher) : NativeIoDispatcher * option Z :=
  fold_left (promote_step now) (seq 0 size) (d, None).

Inductive Selected := Sel_run (index : nat) | Sel_exit | Sel_wait (until : option Z).

Definition select (now : Z) (d : NativeIoDispatcher) : Selected * NativeIoDispatcher :=
  let '(d, earliest) := promote now d in
  let start index d := (Sel_run index, with_slots d (alter (fun s => slot_state s Running) index (slots d))) in
  if negb (head (control_queue d) =? size) then
    let '(index, q) := pop (control_queue d) (slots d) in start index (with_queues d q (user_queue d))
  else if negb (head (user_queue d) =? size) then
    let '(index, q) := pop (user_queue d) (slots d) in start index (with_queues d (control_queue d) q)
  else if stopping d && bool_decide (earliest = None) then (Sel_exit, d)
  else (Sel_wait earliest, d).

(** What becomes of a job that has run. *)
Inductive Outcome := O_retry | O_cleanup | O_done.

Definition attempt (e1 e2 : E) (s : Slot) : option (Outcome * Slot) :=
  match job s with
  | None => None
  | Some j =>
      let '(thrown, r, j) := run e1 (with_outcome (completion s) false (code (completion s)) "") j in
      let r := caught thrown r in
      if failed r && negb (bool_decide (code r = ProtocolFault)) && retryable j r && (retries s <? 3) &&
         (retries s + 1 <? max_attempts j)
      then Some (O_retry, slot_work s r (Some j))
      else
        let '(r, j) := if failed r then let '(thrown, r, j) := after_failed_delivery e2 r j in (caught thrown r, j)
                       else (r, j) in
        Some (if cleanup_pending j then O_cleanup else O_done, slot_work s r (Some j))
  end.

Definition milliseconds : Z := 1000000.

(** The section that ends an attempt. *)
Definition settle (now : Z) (o : Outcome) (s : Slot) : Slot :=
  match o with
  | O_retry => slot_retry s (S (retries s)) (now + Z.shiftl 10 (Z.of_nat (retries s)) * milliseconds)
  | O_cleanup => slot_retry s (retries s) (now + 50 * milliseconds)
  | O_done => slot_state s Completed
  end.

(** ** Interleaved *)

(** Where the worker is.  [W_asleep]: in [wake_.wait] or [wait_until]. *)
Inductive Worker := W_selecting | W_asleep (until : option Z) (signalled : bool) | W_running (index : nat)
  | W_publishing (index : nat) | W_exited.

(** [notifying]: threads that have yet to call [notify_one] or [notify_all]. *)
Record IoRun := MkIoRun { dispatcher : NativeIoDispatcher; worker : Worker; notifying : nat }.

Definition signal (w : Worker) : Worker := match w with W_asleep u _ => W_asleep u true | w => w end.

(** A method of a user, with what it leaves to notify. *)
Inductive Call :=
  | C_open (wait_set : option (bool * option Exception)) | C_stop (p : PortRef) | C_retire (p : PortRef)
  | C_reserve (p : PortRef) (r : CompletionRecord) (ctl : bool) | C_install (t : Z) (j : option J)
  | C_enqueue_prepared (t : Z) | C_cancel (t : Z) | C_abandon (t : Z)
  | C_acknowledge (p : PortRef) (t : Z) | C_shutdown | C_destroy.

Definition call (c : Call) (d : NativeIoDispatcher) : Throws (NativeIoDispatcher * nat) :=
  let silent (x : Throws NativeIoDispatcher) := match x with inl d => inl (d, 0) | inr e => inr e end in
  let second {A} (x : Throws (A * NativeIoDispatcher)) := match x with inl (_, d) => inl (d, 0) | inr e => inr e end in
  let notifies (x : Throws NativeIoDispatcher) := match x with inl d => inl (d, 1) | inr e => inr e end in
  match c with
  | C_open wait_set => second (open_route wait_set d)
  | C_stop p => silent (stop_route p d)
  | C_retire p => silent (retire_route p d)
  | C_reserve p r ctl => second (reserve p r ctl d)
  | C_install t j => silent (install t j d)
  | C_enqueue_prepared t => notifies (enqueue_prepared t d)
  | C_cancel t => second (cancel_queued t d)
  | C_abandon t => silent (abandon t d)
  | C_acknowledge p t => silent (acknowledge p t d)
  | C_shutdown => notifies (shutdown d)
  | C_destroy => notifies (inl (with_stopping d))          (* the destructor, before it joins *)
  end.

Inductive worker_step : IoRun -> IoRun -> Prop :=
  | io_notify d w n : worker_step (MkIoRun d w (S n)) (MkIoRun d (signal w) n)
  | io_select now d d' n index :
      select now d = (Sel_run index, d') -> worker_step (MkIoRun d W_selecting n) (MkIoRun d' (W_running index) n)
  | io_sleep now d d' n until :
      select now d = (Sel_wait until, d') -> worker_step (MkIoRun d W_selecting n) (MkIoRun d' (W_asleep until false) n)
  | io_exit now d d' n :
      select now d = (Sel_exit, d') -> worker_step (MkIoRun d W_selecting n) (MkIoRun d' W_exited n)
  | io_wake d until signalled n :               (* spurious when not signalled *)
      worker_step (MkIoRun d (W_asleep until signalled) n) (MkIoRun d W_selecting n)
  | io_attempt e1 e2 now d n index s s' o :
      slots d !! index = Some s -> attempt e1 e2 s = Some (o, s') ->
      worker_step (MkIoRun d (W_running index) n)
        (MkIoRun (with_slots d (<[index := settle now o s']> (slots d)))
           (match o with O_done => W_publishing index | _ => W_selecting end) n)
  | io_publish d n index :
      worker_step (MkIoRun d (W_publishing index) n) (MkIoRun (publish_slot index d) W_selecting n).

Inductive io_step : IoRun -> IoRun -> Prop :=
  | io_call c d d' w n k : call c d = inl (d', k) -> io_step (MkIoRun d w n) (MkIoRun d' w (k + n))
  | io_worker x x' : worker_step x x' -> io_step x x'.
End Dispatcher.
