(* ===== verification/NativeQueues.v ===== *)
(** * NativeQueues: the linked queues and the ring of the dispatcher

    What [push], [pop] and the unlinking of [cancel_queued] do to the list a
    queue stands for, and what the ring of a mailbox does to the list of the
    completions in it. *)

From S2P Require Import Prelude Identity Entities NativeIo.
Local Open Scope nat_scope.

Section Queues.
Context {J : Type}.
Implicit Types (l : list (Slot (J := J))) (s : Slot (J := J)).

Lemma alter_as_insert {A} (f : A -> A) (l : list A) i x : l !! i = Some x -> alter f i l = <[i := f x]> l.
Proof.
  revert i. induction l as [|y l IH]; intros [|i]; simpl; [done..| |].
  - by intros [= ->].
  - intros H. f_equal. by apply IH.
Qed.

(** A slot without its link: all that the queues leave alone. *)
Definition core s : Slot := slot_next s 0.

Lemma lookup_core l i : (core <$> l) !! i = core <$> l !! i.
Proof. apply list_lookup_fmap. Qed.

Lemma core_alter_next l i v : core <$> alter (fun s => slot_next s v) i l = core <$> l.
Proof.
  revert i. induction l as [|s l IH]; intros [|i]; simpl; [done..| |].
  - by destruct s.
  - f_equal. apply IH.
Qed.

Lemma next_of_alter l i v j :
  i < length l -> next_of (alter (fun s => slot_next s v) i l) j = if decide (j = i) then v else next_of l j.
Proof.
  intros Hi. unfold next_of. case_decide as Hj.
  - subst. rewrite list_lookup_alter_eq. apply lookup_lt_is_Some_2 in Hi as [s ->]. done.
  - by rewrite list_lookup_alter_ne.
Qed.

(** Updates that keep the link of a slot keep every link. *)
Lemma next_of_insert l i s s' j : l !! i = Some s -> next s' = next s -> next_of (<[i := s']> l) j = next_of l j.
Proof.
  intros Hi Hn. unfold next_of. destruct (decide (j = i)) as [->|Hj].
  - rewrite list_lookup_insert_eq by (by eapply lookup_lt_Some). by rewrite Hi; simpl.
  - by rewrite list_lookup_insert_ne.
Qed.

(** The slots from [h] along the links. *)
Fixpoint chain (nx : nat -> nat) (h : nat) (q : list nat) : Prop :=
  match q with
  | [] => h = size
  | i :: q => h = i /\ i < size /\ chain nx (nx i) q
  end.

Lemma chain_ext nx nx' h q : (forall i, i ∈ q -> nx i = nx' i) -> chain nx h q -> chain nx' h q.
Proof.
  revert h. induction q as [|i q IH]; simpl; intros h Hx; [done|]. intros (-> & ? & Hc). split_and!; [done..|].
  rewrite <- Hx by left. apply IH; [|done]. intros j Hj. apply Hx. by right.
Qed.

Lemma chain_app nx h q1 i q2 : chain nx h (q1 ++ i :: q2) -> i < size /\ chain nx (nx i) q2.
Proof. revert h. induction q1 as [|j q1 IH]; simpl; intros h; [by intros (_ & ? & ?) | intros (_ & _ & ?); eauto]. Qed.

(** [q] is linked in the slots, with [tail] at its end. *)
Definition queue_ok (nx : nat -> nat) (q : Queue) (items : list nat) : Prop :=
  chain nx (head q) items /\ tail q = default size (last items) /\ NoDup items.

Lemma queue_ok_ext nx nx' q items : (forall i, i ∈ items -> nx i = nx' i) -> queue_ok nx q items -> queue_ok nx' q items.
Proof. intros Hx (? & ? & ?). split_and!; [by eapply chain_ext | done..]. Qed.

Lemma chain_lt nx h q i : chain nx h q -> i ∈ q -> i < size.
Proof.
  revert h. induction q as [|j q IH]; simpl; intros h; [intros _ Hi; by apply elem_of_nil in Hi|].
  intros (_ & ? & Hc) [->|Hi]%elem_of_cons; eauto.
Qed.

(** A new end. *)
Lemma chain_snoc nx nx' h q i :
  chain nx h q -> NoDup q -> i < size -> nx' i = size ->
  (forall j, j ∈ q -> last q <> Some j -> nx' j = nx j) -> (forall j, last q = Some j -> nx' j = i) ->
  chain nx' (match q with [] => i | _ => h end) (q ++ [i]).
Proof.
  revert h. induction q as [|k q IH]; intros h Hc Hn Hi Hend Hx Hl; simpl; [done|].
  simpl in Hc. destruct Hc as (-> & Hk & Hc). apply NoDup_cons in Hn as [Hnk Hn]. split_and!; [done..|].
  destruct q as [|k' q].
  - simpl. rewrite (Hl k) by done. done.
  - rewrite (Hx k); [| left | rewrite last_cons_cons; intros Hk'; apply Hnk; by apply last_Some_elem_of].
    apply (IH _ Hc Hn Hi Hend); intros j Hj.
    + intros Hne. apply Hx; [by right|]. by rewrite last_cons_cons.
    + apply Hl. by rewrite last_cons_cons.
Qed.

Lemma last_app_cons {A} (l1 l2 : list A) x : last (l1 ++ x :: l2) = last (x :: l2).
Proof. rewrite last_app. destruct (last (x :: l2)) eqn:E; [done|]. by apply last_None in E. Qed.

(** An element leaves. *)
Lemma chain_remove nx nx' h q1 i q2 :
  chain nx h (q1 ++ i :: q2) -> NoDup (q1 ++ i :: q2) ->
  (forall j, j ∈ q1 ++ q2 -> last q1 <> Some j -> nx' j = nx j) -> (forall j, last q1 = Some j -> nx' j = nx i) ->
  chain nx' (match q1 with [] => nx i | _ => h end) (q1 ++ q2).
Proof.
  revert h. induction q1 as [|k q1 IH]; intros h Hc Hn Hx Hl; simpl in *.
  - destruct Hc as (-> & _ & Hc). eapply chain_ext; [|exact Hc]. intros j Hj. symmetry. by apply Hx.
  - destruct Hc as (-> & Hk & Hc). apply NoDup_cons in Hn as [Hnk Hn]. split_and!; [done..|].
    destruct q1 as [|k' q1].
    + rewrite (Hl k) by done. eapply (IH _ Hc Hn); [|done]. intros j Hj _. apply Hx; [by right|].
      intros [= ->]. apply Hnk. by right.
    + rewrite (Hx k); [| left | rewrite last_cons_cons; intros Hk'; apply Hnk, elem_of_app; left; by apply last_Some_elem_of].
      apply (IH _ Hc Hn); intros j Hj.
      * intros Hne. apply Hx; [by right|]. by rewrite last_cons_cons.
      * apply Hl. by rewrite last_cons_cons.
Qed.

(** *** [push] *)
Lemma push_ok (q : Queue) l items i :
  queue_ok (next_of l) q items -> length l = size -> i < size -> i ∉ items ->
  let '(q', l') := push q i l in
  queue_ok (next_of l') q' (items ++ [i]) /\ core <$> l' = core <$> l /\
  (forall j, j <> i -> j ∉ items -> next_of l' j = next_of l j).
Proof.
  intros (Hc & Ht & Hn) Hlen Hi Hfresh. unfold push.
  assert (NoDup (items ++ [i])) as Hn' by (apply NoDup_app; split_and!; [done| intros j Hj ->%list_elem_of_singleton; done | apply NoDup_singleton]).
  assert (forall v j, next_of (alter (fun s => slot_next s v) i l) j = if decide (j = i) then v else next_of l j) as Hni
    by (intros; apply next_of_alter; lia).
  destruct (last items) as [t|] eqn:Hlast; simpl in Ht; rewrite Ht.
  - pose proof Hlast as Hin%last_Some_elem_of. pose proof (chain_lt _ _ _ _ Hc Hin) as Hts.
    destruct (Nat.eqb_spec t size) as [->|_]; [lia|].
    assert (t <> i) as Hti by congruence.
    assert (forall j, next_of (alter (fun s => slot_next s i) t (alter (fun s => slot_next s size) i l)) j =
      if decide (j = t) then i else if decide (j = i) then size else next_of l j) as Hnx.
    { intros j. rewrite next_of_alter by (rewrite length_alter; lia). case_decide; [done|]. apply Hni. }
    split_and!.
    + simpl. assert (items <> []) as Hne by (intros ->; done). split_and!; [| by rewrite last_snoc | done].
      replace (head q) with (match items with [] => i | _ => head q end) by (by destruct items).
      apply (chain_snoc (next_of l)); try done.
      * rewrite Hnx. by rewrite decide_False, decide_True by done.
      * intros j Hj Hne'. rewrite Hnx. rewrite decide_False by congruence. by rewrite decide_False by congruence.
      * intros j Hj. rewrite Hlast in Hj. injection Hj as <-. rewrite Hnx. by rewrite decide_True.
    + by rewrite !core_alter_next.
    + intros j Hji Hj. rewrite Hnx. by rewrite decide_False, decide_False by congruence.
  - apply last_None in Hlast as ->. simpl. split_and!.
    + unfold queue_ok. simpl. rewrite Hni, decide_True by done. split_and!; [done..|apply NoDup_singleton].
    + by rewrite core_alter_next.
    + intros j Hji _. rewrite Hni. by rewrite decide_False.
Qed.

(** *** [pop] *)
Lemma pop_ok (q : Queue) l items i :
  queue_ok (next_of l) q (i :: items) ->
  exists q', pop q l = (i, q') /\ queue_ok (next_of l) q' items.
Proof.
  intros ((Hh & Hi & Hc) & Ht & [_ Hn]%NoDup_cons). unfold pop. rewrite Hh. eexists. split; [done|].
  destruct items as [|k items]; simpl in Hc.
  - rewrite Hc. simpl. split_and!; done.
  - destruct Hc as (Hk & Hks & Hc). rewrite Hk. destruct (Nat.eqb_spec k size); [lia|]. split_and!; done.
Qed.

Lemma queue_head_empty (nx : nat -> nat) (q : Queue) items : queue_ok nx q items -> (head q =? size) = bool_decide (items = []).
Proof.
  intros (Hc & _ & _). destruct items as [|i items]; simpl in Hc.
  - rewrite Hc. done.
  - destruct Hc as (-> & Hi & _). destruct (Nat.eqb_spec i size); [lia|]. by rewrite bool_decide_eq_false_2.
Qed.

(** *** [cancel_queued] *)
Lemma find_previous_ok l q1 i q2 h previous fuel :
  chain (next_of l) h (q1 ++ i :: q2) -> i ∉ q1 -> length q1 < fuel ->
  find_previous fuel l i previous h = Some (default previous (last q1)).
Proof.
  revert h previous fuel. induction q1 as [|k q1 IH]; intros h previous [|fuel] Hc Hi Hf; simpl in Hf; try lia; simpl.
  - destruct Hc as (-> & _). by rewrite Nat.eqb_refl.
  - destruct Hc as (-> & Hk & Hc). destruct (Nat.eqb_spec k i) as [->|_]; [destruct Hi; left|].
    destruct (Nat.eqb_spec k size); [lia|]. rewrite (IH _ _ _ Hc); [| intros ?; apply Hi; by right | lia].
    destruct q1 as [|k' q1]; [done|]. rewrite !last_cons_cons. by destruct (last (k' :: q1)) eqn:E; [|apply last_None in E].
Qed.

Lemma unlink_ok (q : Queue) l q1 i q2 :
  queue_ok (next_of l) q (q1 ++ i :: q2) -> length l = size ->
  let '(q', l') := unlink q i (default size (last q1)) l in
  queue_ok (next_of l') q' (q1 ++ q2) /\ core <$> l' = core <$> l /\
  (forall j, j ∉ q1 -> next_of l' j = next_of l j).
Proof.
  intros (Hc & Ht & Hn) Hlen. unfold unlink. pose proof (proj2 (NoDup_middle _ _ _ Hn)) as Hn'.
  assert ((if tail q =? i then default size (last q1) else tail q) = default size (last (q1 ++ q2))) as Htail.
  { rewrite Ht, last_app_cons. destruct q2 as [|k q2].
    - simpl. by rewrite Nat.eqb_refl, app_nil_r.
    - rewrite last_cons_cons, last_app_cons. destruct (last (k :: q2)) as [t|] eqn:E; [|by apply last_None in E]. simpl.
      destruct (Nat.eqb_spec t i) as [->|]; [|done]. apply last_Some_elem_of in E.
      destruct (proj1 (NoDup_middle _ _ _ Hn)). apply elem_of_app. by right. }
  destruct (last q1) as [p|] eqn:Hlast; simpl.
  - pose proof Hlast as Hin%last_Some_elem_of.
    assert (p < size) as Hp by (eapply chain_lt; [exact Hc | apply elem_of_app; by left]).
    destruct (Nat.eqb_spec p size); [lia|].
    assert (forall j, next_of (alter (fun s => slot_next s (next_of l i)) p l) j = if decide (j = p) then next_of l i else next_of l j) as Hnx
      by (intros; apply next_of_alter; lia).
    split_and!.
    + simpl. split_and!; [| done | done].
      replace (head q) with (match q1 with [] => next_of l i | _ => head q end) by (by destruct q1).
      eapply (chain_remove (next_of l)); [done | done | |].
      * intros j Hj Hne. rewrite Hnx. by rewrite decide_False by congruence.
      * intros j Hj. rewrite Hnx, decide_True by congruence. done.
    + by rewrite core_alter_next.
    + intros j Hj. rewrite Hnx. rewrite decide_False by congruence. done.
  - apply last_None in Hlast as ->. simpl in *. destruct Hc as (_ & _ & Hc). split_and!; [|done|done]. by split_and!.
Qed.
End Queues.

(** ** The ring of a mailbox *)

Section Rings.
Implicit Types (p : CompletionPort) (items : list nat).

Definition ring_ok p items : Prop :=
  length (ring p) = size /\ ring_head p < size /\ count p = length items /\
  forall k i, items !! k = Some i -> ring p !! ((ring_head p + k) mod size) = Some i.

Lemma ring_ok_new : ring_ok new_port [].
Proof. split_and!; [done | unfold new_port, size; simpl; lia | done | done]. Qed.

Lemma size_pos : size <> 0.
Proof. done. Qed.

(** There is room for one more. *)
Lemma publish_ok p items i : ring_ok p items -> length items < size -> ring_ok (publish i p) (items ++ [i]).
Proof.
  intros (Hl & Hh & Hc & Hk) Hroom. unfold publish, ring_ok, notify. cbn [ring ring_head count]. split_and!.
  - by rewrite length_insert.
  - done.
  - rewrite length_app. simpl. lia.
  - intros k j. rewrite lookup_app. destruct (items !! k) as [j'|] eqn:Hj'.
    + intros [= ->]. pose proof (lookup_lt_Some _ _ _ Hj') as Hlt. rewrite list_lookup_insert_ne; [by apply Hk|].
      rewrite Hc. intros Heq. assert ((ring_head p + length items) mod size = (ring_head p + k) mod size) as Heq' by done.
      pose proof (Nat.div_mod_eq (ring_head p + length items) size). pose proof (Nat.div_mod_eq (ring_head p + k) size).
      unfold size in *. nia.
    + rewrite list_lookup_singleton_Some. intros [Hz ->]. apply lookup_ge_None in Hj'.
      replace k with (length items) by lia. rewrite Hc. apply list_lookup_insert_eq. rewrite Hl. apply Nat.mod_upper_bound, size_pos.
Qed.

Lemma port_pop_ok p items i : ring_ok p (i :: items) -> ring_ok (port_pop p) items.
Proof.
  intros (Hl & Hh & Hc & Hk). unfold port_pop, ring_ok. cbn [ring ring_head count]. split_and!.
  - done.
  - apply Nat.mod_upper_bound, size_pos.
  - simpl in Hc. lia.
  - intros k j Hj. specialize (Hk (S k) j Hj). rewrite <- Hk. f_equal.
    rewrite Nat.Div0.add_mod_idemp_l. f_equal. lia.
Qed.

Lemma mailbox_head_ok p items : ring_ok p items -> mailbox_head p = items !! 0.
Proof.
  intros (Hl & Hh & Hc & Hk). unfold mailbox_head. rewrite Hc. destruct items as [|i items]; [done|]. simpl.
  specialize (Hk 0 i eq_refl). rewrite Nat.add_0_r, Nat.mod_small in Hk by done. done.
Qed.
End Rings.
