(* ===== verification/NativeIoInvariant.v ===== *)
(** * NativeIoInvariant: what the dispatcher keeps in every interleaving

    The dispatcher stands for an [Ideal]: two queues of slot numbers and a
    list of completions per route.  [io_inv] relates them, and the counters,
    tickets and routes to the slots; it holds in every reachable state. *)

From S2P Require Import Prelude Identity Entities NativeIo NativeQueues.
Local Open Scope nat_scope.

Section Invariant.
Context {J E : Type} `{!NativeJob J E}.
Notation Slot := (Slot (J := J)).
Notation NativeIoDispatcher := (NativeIoDispatcher (J := J)).
Notation IoRun := (IoRun (J := J)).
Implicit Types (s : Slot) (d : NativeIoDispatcher).

(** The queues by priority, the slot that the worker has, and the completions
    of each route. *)
Record Ideal := MkIdeal { ready : bool -> list nat; running : option nat; box : Z -> list nat }.

Definition with_ready (a : Ideal) (p : bool) (l : list nat) : Ideal :=
  MkIdeal (fun q => if eqb q p then l else ready a q) (running a) (box a).
Definition with_running (a : Ideal) (r : option nat) : Ideal := MkIdeal (ready a) r (box a).
Definition with_box (a : Ideal) (id : Z) (l : list nat) : Ideal :=
  MkIdeal (ready a) (running a) (fun k => if decide (k = id) then l else box a k).

(** An ideal scheduler: jobs enter the end of a queue; the worker, one job at
    a time, takes the first of the priority queue, or else of the other one;
    what it has run, and what is cancelled while it waits, goes to the end of
    a mailbox; the owner takes the first completion of its mailbox. *)
Inductive ideal_step : Ideal -> Ideal -> Prop :=
  | id_ready a p i : (forall q, i ∉ ready a q) -> ideal_step a (with_ready a p (ready a p ++ [i]))
  | id_run a (p : bool) i l :
      running a = None -> ready a p = i :: l -> p = true \/ ready a true = [] ->
      ideal_step a (with_running (with_ready a p l) (Some i))
  | id_retry a i : running a = Some i -> ideal_step a (with_running a None)
  | id_complete a i id : running a = Some i -> ideal_step a (with_running (with_box a id (box a id ++ [i])) None)
  | id_cancel a p i l1 l2 id :
      ready a p = l1 ++ i :: l2 -> ideal_step a (with_box (with_ready a p (l1 ++ l2)) id (box a id ++ [i]))
  | id_acknowledge a i l id : box a id = i :: l -> ideal_step a (with_box a id l).

Definition in_use s : bool := bool_decide (state s <> Free).
Definition ordinary s : bool := in_use s && negb (control s).
Definition of_route (id : Z) s : bool := in_use s && bool_decide (port s = Some id).

(** Of one slot. *)
Definition slot_ok (routes : gmap Z CompletionPort) (tickets : Z) s : Prop :=
  match state s with
  | Free => job s = None /\ port s = None
  | Reserved => (exists id, port s = Some id /\ is_Some (routes !! id)) /\ (ticket s < tickets)%Z
  | _ => (exists id, port s = Some id /\ is_Some (routes !! id)) /\ (ticket s < tickets)%Z /\ is_Some (job s)
  end.

(** What the slots [c], without their links, say about the rest. *)
Record table_ok (c : list Slot) d : Prop := {
  t_length : length c = size;
  t_slot : forall i s, c !! i = Some s -> slot_ok (routes d) (next_ticket d) s;
  t_tickets : forall i j s t, c !! i = Some s -> c !! j = Some t -> state s <> Free -> state t <> Free ->
    ticket s = ticket t -> i = j;
  t_used : used d = count_if in_use c;
  t_ordinary : ordinary_used d = count_if ordinary c;
  t_limit : ordinary_used d <= ordinary_limit;
  t_outstanding : forall id p, routes d !! id = Some p -> outstanding p = count_if (of_route id) c;
  t_owner : forall id, is_Some (routes d !! id) -> (id < next_owner d)%Z }.

(** The queues are linked, and hold the queued slots. *)
Definition chains_ok d (a : Ideal) : Prop :=
  forall p : bool, queue_ok (next_of (slots d)) (if p then control_queue d else user_queue d) (ready a p).

Definition ready_ok (c : list Slot) (a : Ideal) : Prop :=
  forall p i, i ∈ ready a p <-> exists s, c !! i = Some s /\ state s = Queued /\ priority s = p.

(** The mailboxes; [publishing]: the completion on its way to one. *)
Record boxes_ok (publishing : option nat) (c : list Slot) (m : gmap Z CompletionPort) (a : Ideal) : Prop := {
  x_ring : forall id p, m !! id = Some p -> ring_ok p (box a id);
  x_once : forall id, NoDup (box a id);
  x_completed : forall id i, i ∈ box a id <->
    exists s, c !! i = Some s /\ state s = Completed /\ port s = Some id /\ publishing <> Some i }.

Definition publishing_of (w : Worker) : option nat := match w with W_publishing i => Some i | _ => None end.

(** The slot that the worker has. *)
Record worker_ok (w : Worker) (c : list Slot) : Prop := {
  w_running : forall i s, c !! i = Some s -> state s = Running <-> w = W_running i;
  w_slot : forall i, w = W_running i \/ w = W_publishing i -> i < size;
  w_completed : forall i s, w = W_publishing i -> c !! i = Some s -> state s = Completed }.

(** Nothing for the worker to do before [until]. *)
Definition nothing_to_do (until : option Z) (c : list Slot) (stop : bool) (a : Ideal) : Prop :=
  (forall p, ready a p = []) /\
  (forall i s, c !! i = Some s -> state s = RetryWaiting -> exists u, until = Some u /\ (u <= retry_due s)%Z) /\
  (stop = true -> until <> None).

Record state_ok (w : Worker) d (a : Ideal) : Prop := {
  s_table : table_ok (core <$> slots d) d;
  s_chains : chains_ok d a;
  s_ready : ready_ok (core <$> slots d) a;
  s_boxes : boxes_ok (publishing_of w) (core <$> slots d) (routes d) a;
  s_worker : worker_ok w (core <$> slots d);
  s_running : running a = match w with W_running i | W_publishing i => Some i | _ => None end }.

Definition awake_ok (x : IoRun) (a : Ideal) : Prop :=
  forall until, worker x = W_asleep until false ->
    0 < notifying x \/ nothing_to_do until (core <$> slots (dispatcher x)) (stopping (dispatcher x)) a.

Definition io_inv (x : IoRun) (a : Ideal) : Prop := state_ok (worker x) (dispatcher x) a /\ awake_ok x a.

(** ** Changes of one slot *)

Lemma slot_ok_mono m m' t t' s :
  (forall id, is_Some (m !! id) -> is_Some (m' !! id)) -> (t <= t')%Z -> slot_ok m t s -> slot_ok m' t' s.
Proof.
  intros Hm Ht. unfold slot_ok. destruct (state s); [done|..].
  - intros [(id & ? & ?) ?]. split; [eauto | lia].
  - intros ((id & ? & ?) & ? & ?). split_and!; [eauto | lia | done].
  - intros ((id & ? & ?) & ? & ?). split_and!; [eauto | lia | done].
  - intros ((id & ? & ?) & ? & ?). split_and!; [eauto | lia | done].
  - intros ((id & ? & ?) & ? & ?). split_and!; [eauto | lia | done].
Qed.

(** Another state of a ticket that is held. *)
Lemma slot_ok_state m t s s' :
  slot_ok m t s -> state s <> Free -> state s' <> Free -> ticket s' = ticket s -> port s' = port s ->
  (state s' <> Reserved -> is_Some (job s')) -> slot_ok m t s'.
Proof.
  unfold slot_ok. intros H Hs Hs' -> -> Hj.
  assert ((exists id, port s = Some id /\ is_Some (m !! id)) /\ (ticket s < t)%Z) as [? ?] by (destruct (state s); naive_solver).
  destruct (state s'); [done|by split|..]; split_and!; auto.
Qed.

(** Between two states of a ticket. *)
Lemma table_keep c d d' i s s' :
  table_ok c d -> c !! i = Some s -> state s <> Free -> state s' <> Free ->
  ticket s' = ticket s -> control s' = control s -> port s' = port s ->
  (state s' <> Reserved -> is_Some (job s')) ->
  used d' = used d -> ordinary_used d' = ordinary_used d -> next_ticket d' = next_ticket d -> next_owner d' = next_owner d ->
  (forall id, outstanding <$> routes d' !! id = outstanding <$> routes d !! id) ->
  table_ok (<[i := s']> c) d'.
Proof.
  intros [Hlen Hslot Htick Hu Ho Hlim Hout Hown] Hi Hs Hs' Et Ec Ep Hj Eu Eo En Ew Er.
  assert (forall id, is_Some (routes d' !! id) <-> is_Some (routes d !! id)) as Hsome
    by (intros id; rewrite <- (fmap_is_Some outstanding (routes d' !! id)), Er; apply fmap_is_Some).
  assert (forall p, p s = p s' -> count_if p (<[i := s']> c) = count_if p c) as Htally
    by (intros p Hp; pose proof (count_if_insert p c i s s' Hi); rewrite Hp in *; lia).
  assert (in_use s = in_use s') as Hin by (unfold in_use; by rewrite !bool_decide_eq_true_2).
  assert (forall t, slot_ok (routes d) (next_ticket d) t -> slot_ok (routes d') (next_ticket d') t) as Hok
    by (intros t; apply slot_ok_mono; [intros; by apply Hsome | lia]).
  split.
  - by rewrite length_insert.
  - intros j t [(<- & <- & _)|[Hne Ht]]%list_lookup_insert_Some; [|by eauto].
    apply Hok. eapply slot_ok_state; eauto.
  - intros j k t u Hj' Hk' Hjs Hks Heq.
    apply list_lookup_insert_Some in Hj' as [(<- & <- & _)|[Hne Ht]], Hk' as [(<- & <- & _)|[Hne' Hu']]; [done|..].
    + rewrite Et in Heq. by eapply Htick.
    + rewrite Et in Heq. by eapply Htick.
    + by eapply Htick.
  - by rewrite Eu, Htally.
  - rewrite Eo, Htally; [done|]. unfold ordinary. by rewrite Hin, Ec.
  - by rewrite Eo.
  - intros id p Hp. specialize (Er id). rewrite Hp in Er. simpl in Er. destruct (routes d !! id) as [q|] eqn:Hq; [|done].
    injection Er as ->. rewrite Htally; [by apply Hout|]. unfold of_route. by rewrite Hin, Ep.
  - intros id. rewrite Hsome, Ew. apply Hown.
Qed.

(** The rest of the dispatcher may change what the table does not see. *)
Lemma table_same c d d' :
  table_ok c d -> used d' = used d -> ordinary_used d' = ordinary_used d -> next_ticket d' = next_ticket d ->
  next_owner d' = next_owner d -> (forall id, outstanding <$> routes d' !! id = outstanding <$> routes d !! id) ->
  table_ok c d'.
Proof.
  intros [Hlen Hslot Htick Hu Ho Hlim Hout Hown] Eu Eo En Ew Er.
  assert (forall id, is_Some (routes d' !! id) <-> is_Some (routes d !! id)) as Hsome
    by (intros id; rewrite <- (fmap_is_Some outstanding (routes d' !! id)), Er; apply fmap_is_Some).
  split; try done; try congruence.
  - intros i s Hi. eapply slot_ok_mono; [| |by eapply Hslot]; [intros; by apply Hsome | lia].
  - intros id p Hp. specialize (Er id). rewrite Hp in Er. simpl in Er. destruct (routes d !! id) as [q|] eqn:Hq; [|done].
    injection Er as ->. by apply Hout.
  - intros id. rewrite Hsome, Ew. apply Hown.
Qed.

(** A slot that is in no queue, before and after. *)
Lemma ready_keep c a i s s' : ready_ok c a -> c !! i = Some s -> state s <> Queued -> state s' <> Queued -> ready_ok (<[i := s']> c) a.
Proof.
  intros Hr Hi Hs Hs' p j. rewrite (Hr p j). split; intros (t & Ht & Hst & Hp).
  - exists t. rewrite list_lookup_insert_ne; [done|]. intros ->. congruence.
  - apply list_lookup_insert_Some in Ht as [(<- & <- & _)|[_ Ht]]; [done | eauto].
Qed.

(** A slot that is in no mailbox, before and after. *)
Lemma boxes_keep pub pub' c m a i s s' :
  boxes_ok pub c m a -> c !! i = Some s -> (state s = Completed -> pub = Some i) -> (state s' = Completed -> pub' = Some i) ->
  (forall j, j <> i -> pub' = Some j <-> pub = Some j) -> boxes_ok pub' (<[i := s']> c) m a.
Proof.
  intros [Hr Hn Hc] Hi Hs Hs' Hpub. split; [done..|]. intros id j. rewrite (Hc id j). split; intros (t & Ht & Hst & Hp & Hnp).
  - destruct (decide (j = i)) as [->|Hne]; [simplify_eq; by destruct Hnp; apply Hs|].
    exists t. rewrite list_lookup_insert_ne by done. split_and!; [done..|]. by rewrite Hpub.
  - apply list_lookup_insert_Some in Ht as [(<- & <- & _)|[Hne Ht]]; [by destruct Hnp; apply Hs'|].
    exists t. split_and!; [done..|]. by rewrite <- Hpub.
Qed.

Lemma chains_keep d a i s s' l :
  chains_ok d a -> slots d !! i = Some s -> next s' = next s -> l = <[i := s']> (slots d) -> chains_ok (with_slots d l) a.
Proof.
  intros Hc Hi Hn -> p. specialize (Hc p). destruct p; simpl in *; (eapply queue_ok_ext; [|exact Hc]);
    intros j _; symmetry; by apply (next_of_insert _ _ s).
Qed.

Lemma core_insert (l : list Slot) i s : core <$> <[i := s]> l = <[i := core s]> (core <$> l).
Proof. apply list_fmap_insert. Qed.

(** ** The queues *)

Lemma ready_disjoint c a p q i : ready_ok c a -> i ∈ ready a p -> i ∈ ready a q -> p = q.
Proof. intros Hr (s & Hs & _ & <-)%Hr (t & Ht & _ & <-)%Hr. congruence. Qed.

Lemma ready_fresh c a p i s : ready_ok c a -> c !! i = Some s -> state s <> Queued -> i ∉ ready a p.
Proof. intros Hr Hi Hs (t & Ht & ? & _)%Hr. congruence. Qed.

Lemma core_lookup (l : list Slot) i s : l !! i = Some s -> (core <$> l) !! i = Some (core s).
Proof. intros H. by rewrite lookup_core, H. Qed.

Lemma push_ready_ok d a i s :
  chains_ok d a -> (forall p q j, j ∈ ready a p -> j ∈ ready a q -> p = q) ->
  length (slots d) = size -> slots d !! i = Some s -> (forall p, i ∉ ready a p) ->
  chains_ok (push_ready i d) (with_ready a (priority s) (ready a (priority s) ++ [i])) /\
  core <$> slots (push_ready i d) = core <$> slots d /\
  (routes (push_ready i d), used (push_ready i d), ordinary_used (push_ready i d), next_ticket (push_ready i d),
   next_owner (push_ready i d), stopping (push_ready i d)) =
  (routes d, used d, ordinary_used d, next_ticket d, next_owner d, stopping d).
Proof.
  intros Hc Hdis Hlen Hi Hfresh. unfold push_ready. rewrite Hi.
  assert (i < size) as His by (rewrite <- Hlen; by eapply lookup_lt_Some).
  pose proof (Hc (priority s)) as Hq.
  destruct (priority s) eqn:Hp.
  - pose proof (push_ok (control_queue d) (slots d) (ready a true) i Hq Hlen His (Hfresh true)) as Hpush.
    destruct (push (control_queue d) i (slots d)) as [q' l']. destruct Hpush as (Hq' & Hcore & Hother). split_and!; [|done|done].
    intros [|]; simpl; [done|]. eapply queue_ok_ext; [|exact (Hc false)]. intros j Hj. symmetry. apply Hother.
    + intros ->. by apply (Hfresh false).
    + intros Hj'. by specialize (Hdis true false j Hj' Hj).
  - pose proof (push_ok (user_queue d) (slots d) (ready a false) i Hq Hlen His (Hfresh false)) as Hpush.
    destruct (push (user_queue d) i (slots d)) as [q' l']. destruct Hpush as (Hq' & Hcore & Hother). split_and!; [|done|done].
    intros [|]; simpl; [|done]. eapply queue_ok_ext; [|exact (Hc true)]. intros j Hj. symmetry. apply Hother.
    + intros ->. by apply (Hfresh true).
    + intros Hj'. by specialize (Hdis true false j Hj Hj').
Qed.

(** A slot enters the queue of its priority. *)
Lemma ready_add c a i s :
  ready_ok c a -> c !! i = Some s -> state s <> Queued -> forall s', state s' = Queued -> priority s' = priority s ->
  ready_ok (<[i := s']> c) (with_ready a (priority s) (ready a (priority s) ++ [i])).
Proof.
  intros Hr Hi Hs s' Hs' Hp p j. assert (i < length c) as Hlt by (by eapply lookup_lt_Some).
  unfold with_ready. simpl. destruct (eqb_spec p (priority s)) as [->|Hne].
  - rewrite elem_of_app, list_elem_of_singleton. split.
    + intros [(t & Ht & ? & ?)%Hr | ->].
      * exists t. rewrite list_lookup_insert_ne; [done|]. intros ->. congruence.
      * exists s'. by rewrite list_lookup_insert_eq.
    + intros (t & [(<- & <- & _)|[? Ht]]%list_lookup_insert_Some & ? & ?); [by right|]. left. apply Hr. eauto.
  - rewrite (Hr p j). split; intros (t & Ht & ? & ?).
    + exists t. rewrite list_lookup_insert_ne; [done|]. intros ->. congruence.
    + apply list_lookup_insert_Some in Ht as [(<- & <- & _)|[? Ht]]; [congruence | eauto].
Qed.

Lemma worker_keep w c i s s' :
  worker_ok w c -> c !! i = Some s -> (state s' = Running <-> state s = Running) ->
  (w = W_publishing i -> state s' = Completed) -> worker_ok w (<[i := s']> c).
Proof.
  intros [Hr Hs Hc] Hi Hrun Hpub. split; [|done|].
  - intros j t [(<- & <- & _)|[? Ht]]%list_lookup_insert_Some; [|by apply Hr]. rewrite Hrun. by apply Hr.
  - intros j t -> [(<- & <- & _)|[? Ht]]%list_lookup_insert_Some; [by apply Hpub | by eapply Hc].
Qed.

Lemma boxes_with_ready pub c m a p l : boxes_ok pub c m a -> boxes_ok pub c m (with_ready a p l).
Proof. intros [? ? ?]. by split. Qed.

(** A ticket becomes ready: [enqueue_prepared], and a retry that is due. *)
Lemma make_ready_ok w d a i s :
  state_ok w d a -> slots d !! i = Some s -> state s = Reserved \/ state s = RetryWaiting -> is_Some (job s) ->
  let d' := push_ready i (with_slots d (<[i := slot_state s Queued]> (slots d))) in
  let a' := with_ready a (priority s) (ready a (priority s) ++ [i]) in
  state_ok w d' a' /\ core <$> slots d' = <[i := core (slot_state s Queued)]> (core <$> slots d) /\ stopping d' = stopping d.
Proof.
  intros [Ht Hch Hr Hb Hw Hrun] Hi Hs Hj. cbv zeta. pose proof (core_lookup _ _ _ Hi) as Hci.
  assert (length (slots d) = size) as Hlen by (rewrite <- (length_fmap core); apply Ht).
  assert (state s <> Queued /\ state s <> Free /\ state s <> Completed /\ state s <> Running) as (Hs1 & Hs2 & Hs3 & Hs4)
    by (destruct Hs as [-> | ->]; done).
  set (d1 := with_slots d (<[i := slot_state s Queued]> (slots d))).
  assert (chains_ok d1 a) as Hch1 by (by apply (chains_keep d a i s (slot_state s Queued))).
  destruct (push_ready_ok d1 a i (slot_state s Queued) Hch1) as (Hch2 & Hcore & Hrest).
  - intros p q j. by eapply ready_disjoint.
  - unfold d1. simpl. by rewrite length_insert.
  - unfold d1. simpl. apply list_lookup_insert_eq. by eapply lookup_lt_Some.
  - intros p. by eapply ready_fresh.
  - injection Hrest as E1 E2 E3 E4 E5 E6. assert (core <$> slots d1 = <[i := core (slot_state s Queued)]> (core <$> slots d)) as Hc1
      by apply core_insert.
    rewrite Hc1 in Hcore. split; [|by split]. split; rewrite ?Hcore.
    + eapply table_keep; [exact Ht | exact Hci | done | done | done | done | done | done | by rewrite ?E2 | by rewrite ?E3 | by rewrite ?E4 | by rewrite ?E5 |].
      by rewrite E1.
    + exact Hch2.
    + by apply (ready_add _ _ _ (core s)).
    + rewrite E1. apply boxes_keep with (pub := publishing_of w) (s := core s); [by apply boxes_with_ready | done | | done | done].
      intros Hf. by destruct Hs3.
    + apply (worker_keep _ _ _ (core s)); [done | done | simpl; split; [done | by intros ?; destruct Hs4] |].
      intros ->. exfalso. apply Hs3. by apply (w_completed _ _ Hw i (core s)).
    + exact Hrun.
Qed.

(** ** The worker's selection *)

(** The retries among the slots in [done] are not due before [earliest]. *)
Definition scanned (done : list nat) (c : list Slot) (earliest : option Z) : Prop :=
  forall j s, j ∈ done -> c !! j = Some s -> state s = RetryWaiting -> exists e, earliest = Some e /\ (e <= retry_due s)%Z.

Lemma earlier_le a due : exists e, earlier a due = Some e /\ (e <= due)%Z /\ forall b, a = Some b -> (e <= b)%Z.
Proof.
  unfold earlier. destruct a as [b|]; [|by eexists]. destruct (Z.ltb_spec due b).
  - eexists. split_and!; [done | lia |]. intros ? [= <-]. lia.
  - exists b. split_and!; [done | lia |]. intros ? [= <-]. lia.
Qed.

Lemma promote_step_ok now w d a e i done :
  state_ok w d a -> scanned done (core <$> slots d) e ->
  let '(d', e') := promote_step now (d, e) i in
  exists a', rtc ideal_step a a' /\ state_ok w d' a' /\ stopping d' = stopping d /\ scanned (i :: done) (core <$> slots d') e'.
Proof.
  intros Hok Hsc. unfold promote_step. destruct (slots d !! i) as [s|] eqn:Hi.
  - pose proof (core_lookup _ _ _ Hi) as Hci. case_decide as Hs.
    + destruct (Z.leb_spec (retry_due s) now) as [_|Hlt].
      * assert (is_Some (job s)) as Hj.
        { pose proof (t_slot _ _ (s_table _ _ _ Hok) i (core s) Hci) as H. unfold slot_ok in H. simpl in H. rewrite Hs in H. by destruct H as (_ & _ & ?). }
        destruct (make_ready_ok w d a i s Hok Hi (or_intror Hs) Hj) as (Hok' & Hcore & Hstop).
        eexists. split_and!; [apply rtc_once, id_ready | exact Hok' | exact Hstop |].
        { intros q. eapply ready_fresh; [apply Hok | exact Hci | simpl; congruence]. }
        rewrite Hcore. intros j t Hj' [(<- & <- & _)|[Hne Ht]]%list_lookup_insert_Some; [done|].
        apply elem_of_cons in Hj' as [->|Hj']; [done|]. eauto.
      * exists a. split_and!; [done | done | done |]. destruct (earlier_le e (retry_due s)) as (e' & -> & Hle & Hb).
        intros j t Hj' Ht Hst. apply elem_of_cons in Hj' as [->|Hj'].
        -- simplify_eq. by exists e'.
        -- destruct (Hsc j t Hj' Ht Hst) as (b & -> & ?). exists e'. split; [done|]. specialize (Hb b eq_refl). lia.
    + exists a. split_and!; [done | done | done |]. intros j t Hj' Ht Hst. apply elem_of_cons in Hj' as [->|Hj']; [|eauto].
      by simplify_eq.
  - exists a. split_and!; [done | done | done |]. intros j t Hj' Ht Hst. apply elem_of_cons in Hj' as [->|Hj']; [|eauto].
    rewrite lookup_core, Hi in Ht. done.
Qed.

Lemma promote_steps_ok now w ix d a e done :
  state_ok w d a -> scanned done (core <$> slots d) e ->
  let '(d', e') := fold_left (promote_step now) ix (d, e) in
  exists a', rtc ideal_step a a' /\ state_ok w d' a' /\ stopping d' = stopping d /\ scanned (ix ++ done) (core <$> slots d') e'.
Proof.
  revert d a e done. induction ix as [|i ix IH]; intros d a e done Hok Hsc; simpl; [by exists a|].
  pose proof (promote_step_ok now w d a e i done Hok Hsc) as Hstep.
  change (match slots d !! i with Some _ => _ | None => _ end) with (promote_step now (d, e) i).
  destruct (promote_step now (d, e) i) as [d1 e1]. destruct Hstep as (a1 & Hr1 & Hok1 & Hs1 & Hsc1).
  specialize (IH d1 a1 e1 (i :: done) Hok1 Hsc1). destruct (fold_left _ ix (d1, e1)) as [d2 e2].
  destruct IH as (a2 & Hr2 & Hok2 & Hs2 & Hsc2). exists a2. split_and!; [by etrans | done | congruence |].
  intros j t Hj. apply Hsc2. set_solver.
Qed.

(** A queued slot starts. *)
Lemma start_ok d a p i l q' :
  state_ok W_selecting d a -> ready a p = i :: l -> p = true \/ ready a true = [] ->
  pop (if p then control_queue d else user_queue d) (slots d) = (i, q') -> queue_ok (next_of (slots d)) q' l ->
  let d1 := if p then with_queues d q' (user_queue d) else with_queues d (control_queue d) q' in
  let d2 := with_slots d1 (alter (fun s => slot_state s Running) i (slots d1)) in
  state_ok (W_running i) d2 (with_running (with_ready a p l) (Some i)).
Proof.
  intros [Ht Hch Hr Hb Hw Hrun] Hq Hp Hpop Hq'. cbv zeta.
  assert (exists s, (core <$> slots d) !! i = Some s /\ state s = Queued /\ priority s = p) as (cs & Hci & Hs & Hpr)
    by (apply Hr; rewrite Hq; left).
  rewrite lookup_core in Hci. destruct (slots d !! i) as [s|] eqn:Hi; [|done]. simpl in Hci. injection Hci as <-.
  pose proof (core_lookup _ _ _ Hi) as Hci. simpl in Hs, Hpr.
  set (d1 := if p then _ else _). assert (slots d1 = slots d /\ routes d1 = routes d /\ used d1 = used d /\ ordinary_used d1 = ordinary_used d /\
    next_ticket d1 = next_ticket d /\ next_owner d1 = next_owner d) as (E0 & E1 & E2 & E3 & E4 & E5) by (by destruct p).
  rewrite E0. rewrite (alter_as_insert _ _ _ _ Hi).
  assert (chains_ok d1 (with_ready a p l)) as Hch1.
  { intros p'. rewrite E0. specialize (Hch p'). unfold d1, with_ready. destruct p, p'; simpl in *; done. }
  assert (chains_ok (with_slots d1 (<[i := slot_state s Running]> (slots d))) (with_ready a p l)) as Hch2.
  { apply (chains_keep d1 _ i s (slot_state s Running)); [done | by rewrite E0 | done | by rewrite E0]. }
  split; simpl; rewrite ?core_insert, ?E1.
  - eapply table_keep; [exact Ht | exact Hci | simpl; congruence | done..| | exact E2 | exact E3 | exact E4 | exact E5 | intros id; simpl; by rewrite E1].
    intros _. pose proof (t_slot _ _ Ht i (core s) Hci) as H. unfold slot_ok in H. simpl in *. rewrite Hs in H. by destruct H as (_ & _ & ?).
  - exact Hch2.
  - intros p' j. unfold with_ready. simpl. pose proof (Hch p) as (_ & _ & Hnd). rewrite Hq in Hnd. apply NoDup_cons in Hnd as [Hni Hnd].
    assert (i < length (core <$> slots d)) as Hlt by (by eapply lookup_lt_Some).
    destruct (eqb_spec p' p) as [->|Hne].
    + split.
      * intros Hj. assert (j <> i) as Hji by congruence. assert (j ∈ ready a p) as (t & ? & ? & ?)%Hr by (rewrite Hq; by right).
        exists t. by rewrite list_lookup_insert_ne.
      * intros (t & [(<- & <- & _)|[Hji Ht']]%list_lookup_insert_Some & Hst & Hpt); [done|].
        assert (j ∈ ready a p) as Hj by (apply Hr; eauto). rewrite Hq in Hj. apply elem_of_cons in Hj as [->|Hj]; [done | done].
    + rewrite (Hr p' j). split; intros (t & Ht' & Hst & Hpt).
      * exists t. rewrite list_lookup_insert_ne; [done|]. intros ->. simplify_eq/=.
      * apply list_lookup_insert_Some in Ht' as [(<- & <- & _)|[Hji Ht']]; [done | eauto].
  - destruct (boxes_keep None None _ (routes d) a i (core s) (core (slot_state s Running)) Hb Hci) as [? ? ?]; [simpl; congruence | done | done|].
    by split.
  - split.
    + intros j t [(<- & <- & _)|[Hne Ht']]%list_lookup_insert_Some; [by split; [|done]|].
      split; [|by intros [= ->]]. intros Hst. apply (w_running _ _ Hw) in Ht'. apply Ht' in Hst. done.
    + intros j [[= ->]|[=]]. rewrite <- (t_length _ _ Ht). by eapply lookup_lt_Some.
    + done.
  - done.
Qed.

Lemma select_ok now d a :
  state_ok W_selecting d a ->
  let '(sel, d') := select now d in
  exists a', rtc ideal_step a a' /\ stopping d' = stopping d /\
    match sel with
    | Sel_run i => state_ok (W_running i) d' a'
    | Sel_exit => state_ok W_exited d' a' /\ stopping d = true
    | Sel_wait until => state_ok (W_asleep until false) d' a' /\ nothing_to_do until (core <$> slots d') (stopping d') a'
    end.
Proof.
  intros Hok. unfold select, promote.
  pose proof (promote_steps_ok now W_selecting (seq 0 size) d a None [] Hok) as Hpro.
  destruct (fold_left (promote_step now) (seq 0 size) (d, None)) as [d1 e1].
  destruct Hpro as (a1 & Hr1 & Hok1 & Hs1 & Hsc1); [by intros j s ?%elem_of_nil|].
  pose proof (s_chains _ _ _ Hok1) as Hch. rewrite (queue_head_empty _ _ _ (Hch true)), (queue_head_empty _ _ _ (Hch false)).
  destruct (ready a1 true) as [|i l] eqn:Hrt.
  - rewrite (bool_decide_eq_true_2 (@nil nat = [])) by done. cbn [negb]. destruct (ready a1 false) as [|i l] eqn:Hrf.
    + rewrite (bool_decide_eq_true_2 (@nil nat = [])) by done. cbn [negb].
      assert (forall w, (publishing_of w = None) -> (match w with W_running i | W_publishing i => Some i | _ => None end = @None nat) ->
        state_ok w d1 a1) as Hother.
      { intros w Hw1 Hw2. destruct Hok1 as [Ht Hc Hr Hb Hw Hrun]. split; try done; [by rewrite Hw1| | by rewrite Hrun].
        destruct Hw as [Hwr Hws Hwc]. split.
        - intros j s Hj. rewrite (Hwr j s Hj). split; [done|]. intros ->. done.
        - intros j [-> | ->]; done.
        - intros j s ->. done. }
      destruct (stopping d1) eqn:Hst; cbn [andb].
      * case_bool_decide as He.
        -- exists a1. split_and!; [done | congruence | by apply Hother | congruence].
        -- exists a1. split_and!; [done | congruence | by apply Hother |]. split_and!.
           ++ by intros [|].
           ++ intros j s Hj. apply (Hsc1 j); [|done]. rewrite app_nil_r. apply elem_of_seq. apply lookup_lt_Some in Hj.
              rewrite (t_length _ _ (s_table _ _ _ Hok1)) in Hj. lia.
           ++ done.
      * exists a1. split_and!; [done | congruence | by apply Hother |]. split_and!.
        -- by intros [|].
        -- intros j s Hj. apply (Hsc1 j); [|done]. rewrite app_nil_r. apply elem_of_seq. apply lookup_lt_Some in Hj.
           rewrite (t_length _ _ (s_table _ _ _ Hok1)) in Hj. lia.
        -- congruence.
    + rewrite (bool_decide_eq_false_2 (i :: l = [])) by done. cbn [negb]. pose proof (Hch false) as Hq. simpl in Hq. rewrite Hrf in Hq.
      destruct (pop_ok _ _ _ _ Hq) as (q' & Hpop & Hq'). rewrite Hpop.
      exists (with_running (with_ready a1 false l) (Some i)). split_and!.
      * etrans; [exact Hr1|]. apply rtc_once, id_run; [by rewrite (s_running _ _ _ Hok1) | done | by right].
      * done.
      * apply (start_ok d1 a1 false i l q'); [done | done | by right | done | done].
  - rewrite (bool_decide_eq_false_2 (i :: l = [])) by done. cbn [negb]. pose proof (Hch true) as Hq. simpl in Hq. rewrite Hrt in Hq.
    destruct (pop_ok _ _ _ _ Hq) as (q' & Hpop & Hq'). rewrite Hpop.
    exists (with_running (with_ready a1 true l) (Some i)). split_and!.
    + etrans; [exact Hr1|]. apply rtc_once, id_run; [by rewrite (s_running _ _ _ Hok1) | done | by left].
    + done.
    + apply (start_ok d1 a1 true i l q'); [done | done | by left | done | done].
Qed.
End Invariant.
