(* ===== verification/NativeIoMethods.v ===== *)
(** * NativeIoMethods: every section keeps the dispatcher's invariant

    For each method of the dispatcher and each section of its worker: a
    related [Ideal] state takes the corresponding step, and is related to the
    result. *)

From S2P Require Import Prelude Identity Entities NativeIo NativeQueues NativeIoInvariant.
Local Open Scope nat_scope.

Section Methods.
Context {J E : Type} `{!NativeJob J E}.
Notation Slot := (Slot (J := J)).
Notation NativeIoDispatcher := (NativeIoDispatcher (J := J)).
Notation IoRun := (IoRun (J := J)).
Implicit Types (s : Slot) (d : NativeIoDispatcher) (x : IoRun).

(** ** The worker *)

Lemma attempt_spec e1 e2 s o s' :
  attempt e1 e2 s = Some (o, s') -> exists r j, s' = slot_work s r (Some j).
Proof.
  unfold attempt. destruct (job s) as [j|]; [|done]. destruct (run _ _ _) as [[t r] j1]. cbv zeta.
  destruct (_ && _); [intros [= <- <-]; eauto|].
  destruct (failed (caught t r)); [destruct (after_failed_delivery _ _ _) as [[t2 r2] j2]|]; intros [= <- <-]; eauto.
Qed.

Lemma settle_same now o s :
  next (settle now o s) = next s /\ ticket (settle now o s) = ticket s /\ control (settle now o s) = control s /\
  priority (settle now o s) = priority s /\ port (settle now o s) = port s /\ job (settle now o s) = job s.
Proof. by destruct o. Qed.

Definition after_attempt (o : Outcome) (i : nat) : Worker := match o with O_done => W_publishing i | _ => W_selecting end.

Lemma attempt_ok e1 e2 now d a i s s' o :
  state_ok (W_running i) d a -> slots d !! i = Some s -> attempt e1 e2 s = Some (o, s') ->
  state_ok (after_attempt o i) (with_slots d (<[i := settle now o s']> (slots d)))
    (match o with O_done => a | _ => with_running a None end).
Proof.
  intros [Ht Hch Hr Hb Hw Hrun] Hi Hat. apply attempt_spec in Hat as (r & j & ->).
  pose proof (core_lookup _ _ _ Hi) as Hci. assert (state s = Running) as Hs by (by apply (w_running _ _ Hw _ _ Hci)).
  set (s' := slot_work s r (Some j)). set (t := settle now o s').
  assert (next t = next s /\ ticket t = ticket s /\ control t = control s /\ priority t = priority s /\ port t = port s /\ job t = Some j)
    as (T1 & T2 & T3 & T4 & T5 & T6) by (unfold t; destruct (settle_same now o s') as (-> & -> & -> & -> & -> & ->); done).
  assert (state t <> Queued /\ state t <> Free /\ state t <> Running /\ (state t = Completed -> o = O_done) /\ (o = O_done -> state t = Completed))
    as (U1 & U2 & U3 & U4 & U5) by (unfold t; by destruct o).
  assert (i < size) as His by (apply (w_slot _ _ Hw i); by left).
  set (a' := match o with O_done => a | _ => with_running a None end).
  assert (ready a' = ready a /\ box a' = box a) as [R1 R2] by (unfold a'; by destruct o).
  assert (forall l, chains_ok (with_slots d l) a -> chains_ok (with_slots d l) a') as Hcha by (unfold chains_ok; rewrite R1; done).
  split; simpl; rewrite ?core_insert.
  - eapply table_keep; [exact Ht | exact Hci | | exact U2 | exact T2 | exact T3 | exact T5 | | done..]; [simpl; congruence|].
    intros _. simpl. change (job (core t)) with (job t). rewrite T6. by eexists.
  - apply Hcha. by apply (chains_keep d a i s t).
  - assert (ready_ok (<[i := core t]> (core <$> slots d)) a) as H; [|unfold ready_ok in *; by rewrite R1].
    apply (ready_keep _ _ _ (core s)); [done | exact Hci | simpl; congruence | exact U1].
  - destruct (boxes_keep None (publishing_of (after_attempt o i)) _ (routes d) a i (core s) (core t) Hb Hci) as [? ? ?].
    + simpl. congruence.
    + intros Hc. by rewrite (U4 Hc).
    + intros k Hk. destruct o; simpl; split; congruence.
    + split; rewrite R2; done.
  - split.
    + intros k u [(<- & <- & _)|[Hne Hu]]%list_lookup_insert_Some.
      * split; [done|]. by destruct o.
      * split; [|by destruct o]. intros Hst. apply (w_running _ _ Hw _ _ Hu) in Hst. congruence.
    + intros k. destruct o; simpl; intros [Hk|Hk]; by simplify_eq.
    + intros k u Hk [(<- & <- & _)|[Hne Hu]]%list_lookup_insert_Some; destruct o; simplify_eq/=; done.
  - unfold a'. destruct o; simpl; [done..|]. exact Hrun.
Qed.

(** ** Mailboxes *)

Lemma ring_ok_same p q l :
  ring q = ring p -> ring_head q = ring_head p -> count q = count p -> ring_ok p l -> ring_ok q l.
Proof. unfold ring_ok. by intros -> -> ->. Qed.

Lemma NoDup_bound (l : list nat) n : NoDup l -> (forall i, i ∈ l -> i < n) -> length l <= n.
Proof.
  intros Hn Hl. rewrite <- (length_seq n 0). apply submseteq_length, NoDup_submseteq; [done|].
  intros i Hi. apply elem_of_seq. specialize (Hl i Hi). lia.
Qed.

(** A completed slot that is in no mailbox yet goes to that of its route. *)
Lemma box_room pub (c : list Slot) m a id i :
  boxes_ok pub c m a -> length c = size -> i < size -> i ∉ box a id -> length (box a id) < size.
Proof.
  intros [Hr Hn Hc] Hlen Hi Hfresh. assert (length (i :: box a id) <= size); [|simpl in *; lia].
  apply NoDup_bound; [by apply NoDup_cons|]. intros j [->|Hj]%elem_of_cons; [done|].
  apply Hc in Hj as (s & Hs & _). rewrite <- Hlen. by eapply lookup_lt_Some.
Qed.

Lemma boxes_arrive pub pub' (c : list Slot) m a i s s' id :
  boxes_ok pub c m a -> length c = size -> c !! i = Some s -> (state s = Completed -> pub = Some i) ->
  state s' = Completed -> port s' = Some id -> pub' <> Some i -> (forall j, j <> i -> pub' = Some j <-> pub = Some j) ->
  boxes_ok pub' (<[i := s']> c) (alter (publish i) id m) (with_box a id (box a id ++ [i])).
Proof.
  intros Hb Hlen Hi Hs Hs' Hp Hpub' Hpub. pose proof Hb as [Hr Hn Hc].
  assert (forall k, i ∉ box a k) as Hfresh.
  { intros k (t & Ht & Hst & _ & Hne)%Hc. rewrite Hi in Ht. injection Ht as <-. by destruct Hne; apply Hs. }
  assert (i < size) as His by (rewrite <- Hlen; by eapply lookup_lt_Some).
  assert (forall k j, j ∈ box a k -> exists t, <[i := s']> c !! j = Some t /\ state t = Completed /\ port t = Some k /\ pub' <> Some j) as Hold.
  { intros k j Hj. assert (j <> i) as Hne by (intros ->; by destruct (Hfresh k)).
    apply Hc in Hj as (t & ? & ? & ? & ?). exists t. rewrite list_lookup_insert_ne by done. split_and!; [done..|]. by rewrite Hpub. }
  assert (forall k j t, j <> i -> <[i := s']> c !! j = Some t -> state t = Completed -> port t = Some k -> pub' <> Some j -> j ∈ box a k) as Hnew.
  { intros k j t Hne Ht ? ? Hnp. rewrite list_lookup_insert_ne in Ht by done. apply Hc. exists t. split_and!; [done..|]. by rewrite <- Hpub. }
  split.
  - intros k q Hq. unfold with_box. simpl. case_decide as Hk.
    + subst k. apply lookup_alter_Some in Hq as [(_ & p & Hp' & ->)|[? _]]; [|done].
      apply publish_ok; [by apply Hr | by eapply box_room].
    + rewrite lookup_alter_ne in Hq by done. by apply Hr.
  - intros k. unfold with_box. simpl. case_decide; [|done]. apply NoDup_app. split_and!; [done | | apply NoDup_singleton].
    intros j Hj ->%list_elem_of_singleton. by destruct (Hfresh id).
  - intros k j. unfold with_box. simpl. case_decide as Hk.
    + subst k. rewrite elem_of_app, list_elem_of_singleton. split.
      * intros [Hj| ->]; [by apply Hold|]. exists s'. rewrite list_lookup_insert_eq by (by eapply lookup_lt_Some). done.
      * intros (t & Ht & Hst & Hpt & Hnp). destruct (decide (j = i)) as [->|]; [by right|]. left. by eapply Hnew.
    + split; [by apply Hold|]. intros (t & Ht & Hst & Hpt & Hnp). destruct (decide (j = i)) as [->|]; [|by eapply Hnew].
      rewrite list_lookup_insert_eq in Ht by (by eapply lookup_lt_Some). congruence.
Qed.

Lemma publish_slot_ok d a i :
  state_ok (W_publishing i) d a ->
  exists a', ideal_step a a' /\ state_ok W_selecting (publish_slot i d) a' /\ stopping (publish_slot i d) = stopping d.
Proof.
  intros [Ht Hch Hr Hb Hw Hrun]. simpl in *.
  assert (i < size) as His by (apply (w_slot _ _ Hw i); by right).
  rewrite <- (t_length _ _ Ht), length_fmap in His. apply lookup_lt_is_Some_2 in His as [s Hi].
  pose proof (core_lookup _ _ _ Hi) as Hci. pose proof (w_completed _ _ Hw i _ eq_refl Hci) as Hs.
  pose proof (t_slot _ _ Ht _ _ Hci) as Hok. unfold slot_ok in Hok. simpl in Hok, Hs. rewrite Hs in Hok.
  destruct Hok as ((id & Hp & Hid) & _). simpl in Hp.
  unfold publish_slot. rewrite Hi, Hp. eexists. split; [by apply (id_complete a i id)|]. split; [|done].
  assert (forall k, outstanding <$> alter (publish i) id (routes d) !! k = outstanding <$> routes d !! k) as Hout.
  { intros k. destruct (decide (k = id)) as [->|]; [|by rewrite lookup_alter_ne]. rewrite lookup_alter_eq. by destruct (routes d !! id). }
  split; simpl.
  - eapply table_same; [exact Ht | done..].
  - exact Hch.
  - exact Hr.
  - destruct (boxes_arrive (Some i) None _ _ _ _ _ (core s) id Hb (t_length _ _ Ht) Hci) as [? ? ?]; try done; [intros j Hne; split; congruence|].
    rewrite (list_insert_id _ _ _ Hci) in *. by split.
  - destruct Hw as [Hwr Hws Hwc]. split; [|by intros j [?|?]|done]. intros j t Htj. rewrite (Hwr j t Htj). done.
  - done.
Qed.

(** ** Methods *)

(** A ticket that is found. *)
Lemma find_ticket_spec t d i s :
  list_find (holds_ticket t) (slots d) = Some (i, s) -> slots d !! i = Some s /\ state s <> Free /\ ticket s = t.
Proof. intros (Hi & [? ?] & _)%list_find_Some. done. Qed.

Lemma locate_spec t d i s : locate t d = inl (i, s) -> slots d !! i = Some s /\ state s <> Free /\ ticket s = t.
Proof.
  unfold locate. destruct (list_find _ _) as [[i' s']|] eqn:Hf; [|done]. intros [= -> ->]. by apply find_ticket_spec.
Qed.

Lemma validate_route_spec p d id q : validate_route p d = inl (id, q) -> p = Route id /\ routes d !! id = Some q.
Proof.
  unfold validate_route. destruct p as [| |k]; try done. destruct (routes d !! k) eqn:Hk; [|done]. by intros [= -> ->].
Qed.

(** What a slot that holds a ticket has. *)
Lemma held_slot w d a i s :
  state_ok w d a -> slots d !! i = Some s -> state s <> Free ->
  (exists id q, port s = Some id /\ routes d !! id = Some q) /\ (ticket s < next_ticket d)%Z /\ (state s <> Reserved -> is_Some (job s)).
Proof.
  intros Hok Hi Hs. pose proof (t_slot _ _ (s_table _ _ _ Hok) i _ (core_lookup _ _ _ Hi)) as H.
  unfold slot_ok in H. simpl in H. change (port (core s)) with (port s) in H. change (job (core s)) with (job s) in H.
  change (ticket (core s)) with (ticket s) in H.
  destruct (state s) eqn:Hst; [done|..];
    [destruct H as ((id & Hp & [q Hq]) & Ht) | destruct H as ((id & Hp & [q Hq]) & Ht & Hj)..];
    (split_and!; [by exists id, q | done | done]).
Qed.

(** Routes change, the slots do not. *)
Lemma routes_change w d d' a :
  state_ok w d a -> slots d' = slots d -> control_queue d' = control_queue d -> user_queue d' = user_queue d ->
  table_ok (core <$> slots d) d' ->
  (forall id p, routes d' !! id = Some p -> ring_ok p (box a id)) ->
  state_ok w d' a.
Proof.
  intros [Ht Hch Hr Hb Hw Hrun] E1 E2 E3 Ht' Hring. split; rewrite ?E1; try done.
  - intros p. rewrite E1, E2, E3. apply Hch.
  - destruct Hb as [_ ? ?]. by split.
Qed.

Lemma open_route_ok w d a ws id d' :
  state_ok w d a -> open_route ws d = inl (id, d') -> state_ok w d' a /\ stopping d' = stopping d /\ slots d' = slots d.
Proof.
  intros Hok. unfold open_route. destruct ws as [[[|] [e|]]|]; try done.
  destruct (stopping d) eqn:Hst; [done|]. destruct (next_owner d =? UINT64_MAX)%Z; [done|]. intros [= <- <-].
  pose proof (s_table _ _ _ Hok) as Ht. pose proof (s_boxes _ _ _ Hok) as Hb.
  assert (routes d !! next_owner d = None) as Hnone.
  { destruct (routes d !! next_owner d) as [q|] eqn:Hq; [|done]. exfalso. pose proof (t_owner _ _ Ht (next_owner d) ltac:(by eexists)). lia. }
  split; [|done]. eapply routes_change; [exact Hok | done..| |]; simpl.
  - destruct Ht as [Hlen Hslot Htick Hu Ho Hlim Hout Hown]. split; try done.
    + intros i s Hi. eapply slot_ok_mono; [| |by eapply Hslot]; [|simpl; lia]. intros k [q Hq]. simpl.
      destruct (decide (k = next_owner d)) as [->|]; [by rewrite Hnone in Hq|]. rewrite lookup_insert_ne by done. by eexists.
    + intros k q. simpl. rewrite lookup_insert_Some. intros [[<- <-]|[_ Hq]]; [|by eapply Hout]. simpl.
      symmetry. apply count_if_none. intros s Hs. apply not_true_is_false. intros Hof.
      apply list_elem_of_lookup in Hs as [i Hi]. pose proof (Hslot _ _ Hi) as Hk. unfold of_route, NativeIoInvariant.in_use in Hof.
      apply andb_true_iff in Hof as [Hf%bool_decide_eq_true Hp%bool_decide_eq_true].
      assert (exists id, port s = Some id /\ is_Some (routes d !! id)) as (id & Hid & Hsome).
      { unfold slot_ok in Hk. by destruct (state s); [done|..]; destruct Hk as [? _]. }
      rewrite Hp in Hid. injection Hid as <-. rewrite Hnone in Hsome. by destruct Hsome.
    + intros k. simpl. rewrite lookup_insert_is_Some. intros [<-|[_ Hk]]; [lia|]. specialize (Hown k Hk). lia.
  - intros k q. rewrite lookup_insert_Some. intros [[<- <-]|[_ Hq]]; [|by apply (x_ring _ _ _ _ Hb)].
    assert (box a (next_owner d) = []) as ->; [|apply ring_ok_new].
    destruct (box a (next_owner d)) as [|i l] eqn:Hbox; [done|]. exfalso.
    destruct (proj1 (x_completed _ _ _ _ Hb (next_owner d) i)) as (s & Hs & Hst' & Hp & _); [rewrite Hbox; left|].
    pose proof (t_slot _ _ Ht _ _ Hs) as Hk. unfold slot_ok in Hk. rewrite Hst' in Hk. destruct Hk as ((id & Hid & Hsome) & _).
    rewrite Hp in Hid. injection Hid as <-. rewrite Hnone in Hsome. by destruct Hsome.
Qed.

Lemma stop_route_ok w d a p d' :
  state_ok w d a -> stop_route p d = inl d' -> state_ok w d' a /\ stopping d' = stopping d /\ slots d' = slots d.
Proof.
  intros Hok. unfold stop_route. destruct (validate_route p d) as [[id q]|] eqn:Hv; [|done]. intros [= <-].
  apply validate_route_spec in Hv as [_ Hq]. split; [|done]. eapply routes_change; [exact Hok | done..| |]; simpl.
  - eapply table_same; [apply Hok | done..|]. intros k. simpl. destruct (decide (k = id)) as [->|].
    + by rewrite lookup_insert_eq, Hq.
    + by rewrite lookup_insert_ne.
  - intros k r. rewrite lookup_insert_Some. intros [[<- <-]|[_ Hr]]; [|by apply (x_ring _ _ _ _ (s_boxes _ _ _ Hok))].
    eapply ring_ok_same; [| | | by apply (x_ring _ _ _ _ (s_boxes _ _ _ Hok) id q)]; done.
Qed.

Lemma retire_route_ok w d a p d' :
  state_ok w d a -> retire_route p d = inl d' -> state_ok w d' a /\ stopping d' = stopping d /\ slots d' = slots d.
Proof.
  intros Hok. unfold retire_route. destruct (validate_route p d) as [[id q]|] eqn:Hv; [|done].
  destruct (Nat.eqb_spec (outstanding q) 0) as [Hz|]; [|done]. destruct (count q =? 0); [|done]. intros [= <-].
  apply validate_route_spec in Hv as [_ Hq]. split; [|done].
  pose proof (s_table _ _ _ Hok) as [Hlen Hslot Htick Hu Ho Hlim Hout Hown].
  eapply routes_change; [exact Hok | done..| |]; simpl.
  - split; try done.
    + intros i s Hi. pose proof (Hslot _ _ Hi) as Hk. simpl.
      assert (NativeIoInvariant.in_use s = true -> port s <> Some id) as Hne.
      { intros Hin Hp. pose proof (count_if_zero _ _ i s (eq_sym (eq_trans (eq_sym Hz) (Hout _ _ Hq))) Hi) as H.
        unfold of_route in H. rewrite Hin, bool_decide_eq_true_2 in H by done. done. }
      unfold slot_ok, NativeIoInvariant.in_use in *. destruct (state s) eqn:Hst; [done|..];
        assert (port s <> Some id) as Hne' by (by apply Hne);
        [destruct Hk as ((k & Hp & Hsome) & ?) | destruct Hk as ((k & Hp & Hsome) & ? & ?)..]; split_and!; try done;
        exists k; (split; [done|]); rewrite lookup_delete_ne; congruence.
    + intros k r Hr. simpl in Hr. apply lookup_delete_Some in Hr as [_ Hr]. by eapply Hout.
    + intros k [r Hr]. simpl in Hr. apply lookup_delete_Some in Hr as [_ Hr]. apply Hown. by eexists.
  - intros k r [_ Hr]%lookup_delete_Some. by apply (x_ring _ _ _ _ (s_boxes _ _ _ Hok)).
Qed.

(** *** Tickets *)

Lemma reserve_spec p r ctl d t d' :
  reserve p r ctl d = inl (t, d') ->
  exists id q i s, p = Route id /\ routes d !! id = Some q /\ slots d !! i = Some s /\ state s = Free /\ t = next_ticket d /\
    stopping d = false /\ used d <> size /\ (ctl = false -> ordinary_used d <> ordinary_limit) /\
    d' = MkDispatcher (<[i := MkSlot (next_ticket d) Reserved ctl (is_priority (kind r)) 0 (retry_due s) (next s)
                               (with_executor r id) (Some id) (job s)]> (slots d)) (control_queue d) (user_queue d)
           (<[id := port_outstanding q (S (outstanding q))]> (routes d))
           (S (used d)) (if ctl then ordinary_used d else S (ordinary_used d)) (next_ticket d + 1) (next_owner d) (stopping d).
Proof.
  unfold reserve. destruct (validate_route p d) as [[id q]|] eqn:Hv; [|done]. apply validate_route_spec in Hv as [-> Hq].
  destruct (ctl && _); [done|]. destruct (stopping d) eqn:Hst; [done|]. simpl. destruct (negb ctl && _); [done|].
  destruct (Nat.eqb_spec (used d) size); [done|]. simpl. destruct ctl; simpl.
  - destruct (next_ticket d =? UINT64_MAX)%Z; [done|]. destruct (list_find _ _) as [[i s]|] eqn:Hf; [|done].
    apply list_find_Some in Hf as (Hi & Hs & _). intros [= <- <-]. exists id, q, i, s. by split_and!.
  - destruct (Nat.eqb_spec (ordinary_used d) ordinary_limit); [done|].
    destruct (next_ticket d =? UINT64_MAX)%Z; [done|]. destruct (list_find _ _) as [[i s]|] eqn:Hf; [|done].
    apply list_find_Some in Hf as (Hi & Hs & _). intros [= <- <-]. exists id, q, i, s. by split_and!.
Qed.

Lemma table_reserve c d d' i s s' id q :
  table_ok c d -> c !! i = Some s -> state s = Free -> routes d !! id = Some q ->
  state s' = Reserved -> ticket s' = next_ticket d -> port s' = Some id ->
  routes d' = <[id := port_outstanding q (S (outstanding q))]> (routes d) ->
  used d' = S (used d) -> ordinary_used d' = (if control s' then ordinary_used d else S (ordinary_used d)) ->
  (control s' = false -> ordinary_used d <> ordinary_limit) ->
  next_ticket d' = (next_ticket d + 1)%Z -> next_owner d' = next_owner d ->
  table_ok (<[i := s']> c) d'.
Proof.
  intros [Hlen Hslot Htick Hu Ho Hlim Hout Hown] Hi Hs Hq Hs' Et Ep Er Eu Eo Hl En Ew.
  assert (forall k, is_Some (routes d !! k) -> is_Some (routes d' !! k)) as Hmono.
  { intros k Hk. rewrite Er. apply lookup_insert_is_Some'. by right. }
  pose proof (fun p => count_if_insert p c i s s' Hi) as Htal.
  assert (NativeIoInvariant.in_use s = false) as Hin by (unfold NativeIoInvariant.in_use; by rewrite Hs).
  assert (NativeIoInvariant.in_use s' = true) as Hin' by (unfold NativeIoInvariant.in_use; by rewrite Hs').
  split.
  - by rewrite length_insert.
  - intros j t [(<- & <- & _)|[_ Ht]]%list_lookup_insert_Some.
    + unfold slot_ok. rewrite Hs', Et, Ep, En. split; [|lia]. exists id. split; [done|]. rewrite Er, lookup_insert_eq. by eexists.
    + eapply slot_ok_mono; [exact Hmono | | by eapply Hslot]. lia.
  - assert (forall j t, c !! j = Some t -> state t <> Free -> (ticket t < next_ticket d)%Z) as Hold.
    { intros j t Hj Ht. specialize (Hslot _ _ Hj). unfold slot_ok in Hslot. destruct (state t); [done|..]; by destruct Hslot as (_ & ? & _) || destruct Hslot. }
    intros j k t u Hj Hk Hjs Hks Heq.
    apply list_lookup_insert_Some in Hj as [(<- & <- & _)|[Hne Ht]], Hk as [(<- & <- & _)|[Hne' Hu']]; [done|..].
    + specialize (Hold _ _ Hu' Hks). lia.
    + specialize (Hold _ _ Ht Hjs). lia.
    + by eapply Htick.
  - specialize (Htal NativeIoInvariant.in_use). rewrite Hin, Hin' in Htal. lia.
  - specialize (Htal ordinary). unfold ordinary in Htal at 2 4. rewrite Hin, Hin' in Htal. rewrite Eo.
    destruct (control s'); simpl in Htal; lia.
  - rewrite Eo. destruct (control s'); [done|]. specialize (Hl eq_refl). lia.
  - intros k r Hr. rewrite Er in Hr. specialize (Htal (of_route k)). unfold of_route in Htal at 2 4. rewrite Hin, Hin' in Htal. simpl in Htal.
    rewrite Ep in Htal. apply lookup_insert_Some in Hr as [[<- <-]|[Hne Hr]]; simpl.
    + rewrite bool_decide_eq_true_2 in Htal by done. rewrite (Hout _ _ Hq). lia.
    + rewrite bool_decide_eq_false_2 in Htal by congruence. rewrite (Hout _ _ Hr). lia.
  - intros k. rewrite Ew, Er. intros [<-|Hk]%lookup_insert_is_Some'; apply Hown; [by eexists | done].
Qed.

(** A slot that the worker does not have. *)
Lemma not_the_workers w (c : list Slot) i s s' :
  worker_ok w c -> c !! i = Some s -> state s <> Running -> state s <> Completed -> state s' <> Running ->
  worker_ok w (<[i := s']> c).
Proof.
  intros Hw Hi H1 H2 H3. eapply worker_keep; [done | done | done |]. intros ->. by destruct H2; eapply (w_completed _ _ Hw).
Qed.

Lemma reserve_ok w d a p r ctl t d' :
  state_ok w d a -> reserve p r ctl d = inl (t, d') -> state_ok w d' a /\ stopping d' = stopping d.
Proof.
  intros [Ht Hch Hr Hb Hw Hrun] (id & q & i & s & -> & Hq & Hi & Hs & -> & Hst & Hu & Ho & ->)%reserve_spec.
  pose proof (core_lookup _ _ _ Hi) as Hci. split; [|done].
  set (s' := MkSlot (next_ticket d) Reserved ctl _ 0 _ _ _ _ _). split; simpl; rewrite ?core_insert.
  - by eapply (table_reserve _ d _ i (core s) (core s') id q).
  - pose proof (chains_keep d a i s s' _ Hch Hi eq_refl eq_refl) as Hk. exact Hk.
  - apply (ready_keep _ _ _ (core s)); [done | exact Hci | simpl; congruence..].
  - destruct (boxes_keep (publishing_of w) (publishing_of w) _ (routes d) a i (core s) (core s') Hb Hci) as [Hrg Hn Hc]; [simpl; congruence | done | done|].
    split; [|done..]. intros k u. rewrite lookup_insert_Some. intros [[<- <-]|[_ Hku]]; [|by apply Hrg].
    eapply ring_ok_same; [| | | by apply (Hrg id q)]; done.
  - apply (not_the_workers _ _ _ (core s)); [done | exact Hci | simpl; congruence..].
  - done.
Qed.

Lemma install_ok w d a t j d' :
  state_ok w d a -> install t j d = inl d' -> state_ok w d' a /\ stopping d' = stopping d.
Proof.
  intros [Ht Hch Hr Hb Hw Hrun]. unfold install. destruct j as [j|]; [|done].
  destruct (locate t d) as [[i s]|] eqn:Hl; [|done]. apply locate_spec in Hl as (Hi & Hs & _).
  case_bool_decide as Hres; [done|]. simpl. destruct (bool_decide _); [done|]. intros [= <-].
  assert (state s = Reserved) as Hs' by (destruct (decide (state s = Reserved)); [done | by destruct Hres]).
  pose proof (core_lookup _ _ _ Hi) as Hci. split; [|done].
  set (s' := slot_work s _ _). split; simpl; rewrite ?core_insert.
  - eapply table_keep; [exact Ht | exact Hci | done..| | done | done | done | done | done]. simpl. intros _. by eexists.
  - pose proof (chains_keep d a i s s' _ Hch Hi eq_refl eq_refl) as Hk. exact Hk.
  - apply (ready_keep _ _ _ (core s)); [done | exact Hci | simpl; congruence..].
  - apply (boxes_keep (publishing_of w) _ _ _ _ _ (core s)); simpl; try done; congruence.
  - apply (not_the_workers _ _ _ (core s)); [done | exact Hci | simpl; congruence..].
  - done.
Qed.

Lemma enqueue_prepared_ok w d a t d' :
  state_ok w d a -> enqueue_prepared t d = inl d' -> exists a', ideal_step a a' /\ state_ok w d' a' /\ stopping d' = stopping d.
Proof.
  intros Hok. unfold enqueue_prepared. destruct (locate t d) as [[i s]|] eqn:Hl; [|done]. apply locate_spec in Hl as (Hi & Hs & _).
  case_bool_decide as Hres; [done|]. simpl. case_bool_decide as Hj; [done|]. intros [= <-].
  assert (state s = Reserved) as Hs' by (destruct (decide (state s = Reserved)); [done | by destruct Hres]).
  destruct (make_ready_ok w d a i s Hok Hi (or_introl Hs')) as (Hok' & _ & Hst); [by destruct (job s); [eexists | destruct Hj]|].
  eexists. split_and!; [apply id_ready | exact Hok' | exact Hst].
  intros q. eapply ready_fresh; [apply Hok | by apply core_lookup | simpl; congruence].
Qed.

(** *** Cancelling *)

Lemma chain_length nx h (q : list nat) : chain nx h q -> NoDup q -> length q <= size.
Proof. intros Hc Hn. apply NoDup_bound; [done|]. intros i. by apply (chain_lt nx h). Qed.

Lemma core_fields s s1 : core s1 = core s ->
  ticket s1 = ticket s /\ state s1 = state s /\ control s1 = control s /\ priority s1 = priority s /\
  port s1 = port s /\ job s1 = job s /\ completion s1 = completion s.
Proof. destruct s, s1. unfold core, slot_next. simpl. intros [= -> -> -> -> -> -> -> ->]. done. Qed.

Lemma ready_remove c a p l1 i l2 s s' :
  ready_ok c a -> ready a p = l1 ++ i :: l2 -> NoDup (ready a p) -> c !! i = Some s -> state s = Queued -> priority s = p ->
  state s' <> Queued -> ready_ok (<[i := s']> c) (with_ready a p (l1 ++ l2)).
Proof.
  intros Hr Hq Hn Hi Hs Hp Hs' p' j. unfold with_ready. simpl. rewrite Hq in Hn. apply NoDup_middle in Hn as Hnin.
  destruct (eqb_spec p' p) as [->|Hne].
  - split.
    + intros Hj. assert (j <> i) as Hji by (intros ->; set_solver). assert (j ∈ ready a p) as (t & ? & ? & ?)%Hr by (rewrite Hq; set_solver).
      exists t. by rewrite list_lookup_insert_ne.
    + intros (t & [(<- & <- & _)|[Hji Ht]]%list_lookup_insert_Some & Hst & Hpt); [done|].
      assert (j ∈ ready a p) as Hj by (apply Hr; eauto). rewrite Hq in Hj. set_solver.
  - rewrite (Hr p' j). split; intros (t & Ht & Hst & Hpt).
    + exists t. rewrite list_lookup_insert_ne; [done|]. intros ->. congruence.
    + apply list_lookup_insert_Some in Ht as [(<- & <- & _)|[Hji Ht]]; [done | eauto].
Qed.

Lemma cancel_queued_ok w d a t b d' :
  state_ok w d a -> cancel_queued t d = inl (b, d') ->
  exists a', rtc ideal_step a a' /\ state_ok w d' a' /\ stopping d' = stopping d.
Proof.
  intros Hok. unfold cancel_queued. destruct (list_find _ _) as [[i s]|] eqn:Hf; [|intros [= <- <-]; by exists a].
  apply find_ticket_spec in Hf as (Hi & Hnf & _). case_decide as Hs; [|intros [= <- <-]; by exists a].
  pose proof Hok as [Ht Hch Hr Hb Hw Hrun]. pose proof (core_lookup _ _ _ Hi) as Hci.
  destruct (held_slot _ _ _ _ _ Hok Hi Hnf) as ((id & q0 & Hp & Hq0) & _ & Hj).
  assert (length (slots d) = size) as Hlen by (rewrite <- (length_fmap core); apply Ht).
  assert (i ∈ ready a (priority s)) as Hin by (apply Hr; by exists (core s)).
  apply list_elem_of_split in Hin as (l1 & l2 & Hl).
  set (q := if priority s then control_queue d else user_queue d).
  pose proof (Hch (priority s)) as Hq. fold q in Hq.
  assert (NoDup (ready a (priority s))) as Hnd by apply Hq. rewrite Hl in Hq.
  assert (i ∉ l1 ++ l2) as Hni by (apply NoDup_middle; by rewrite <- Hl).
  rewrite (find_previous_ok _ l1 i l2); [|apply Hq | set_solver |].
  2: { pose proof (chain_length _ _ _ (proj1 Hq) ltac:(apply Hq)) as Hle. rewrite length_app in Hle. simpl in Hle. lia. }
  pose proof (unlink_ok q (slots d) l1 i l2 Hq Hlen) as Hu. destruct (unlink q i _ (slots d)) as [q' l].
  destruct Hu as (Hq' & Hcore & Hother). intros [= <- <-].
  set (d1 := if priority s then _ else _).
  assert (slots d1 = l /\ routes d1 = routes d /\ used d1 = used d /\ ordinary_used d1 = ordinary_used d /\ next_ticket d1 = next_ticket d /\
    next_owner d1 = next_owner d /\ stopping d1 = stopping d) as (E0 & E1 & E2 & E3 & E4 & E5 & E6) by (unfold d1; by destruct (priority s)).
  assert (exists s1, l !! i = Some s1 /\ core s1 = core s) as (s1 & Hi1 & Hs1).
  { rewrite <- Hcore, lookup_core in Hci. destruct (l !! i) as [s1|]; [|done]. exists s1. split; [done|]. by apply (inj Some) in Hci. }
  rewrite E0, (alter_as_insert _ _ _ _ Hi1). set (s' := slot_state _ _).
  assert (port s' = Some id /\ job s' = job s /\ ticket s' = ticket s /\ control s' = control s) as (P1 & P2 & P3 & P4)
    by (destruct (core_fields _ _ Hs1) as (? & ? & ? & ? & ? & ? & ?); simpl; split_and!; congruence).
  assert (chains_ok d1 (with_ready a (priority s) (l1 ++ l2))) as Hch1.
  { intros p. unfold with_ready. cbn [ready]. rewrite E0. destruct (eqb_spec p (priority s)) as [->|Hne].
    - assert ((if priority s then control_queue d1 else user_queue d1) = q') as -> by (unfold d1; by destruct (priority s)). done.
    - assert ((if p then control_queue d1 else user_queue d1) = (if p then control_queue d else user_queue d)) as ->
        by (unfold d1; by destruct p, (priority s)).
      eapply queue_ok_ext; [|exact (Hch p)]. intros j Hjr. symmetry. apply Hother. intros Hj'. destruct Hne.
      eapply (ready_disjoint _ _ _ _ j); [exact Hr | done |]. rewrite Hl. set_solver. }
  pose proof (chains_keep d1 _ i s1 s' _ Hch1 ltac:(by rewrite E0) eq_refl eq_refl) as Hch2. rewrite E0 in Hch2.
  unfold publish_slot. simpl. rewrite list_lookup_insert_eq by (by eapply lookup_lt_Some). rewrite P1.
  eexists. split; [by apply rtc_once, (id_cancel a (priority s) i l1 l2 id)|]. split; [|exact E6].
  destruct (boxes_arrive (publishing_of w) (publishing_of w) _ _ _ _ _ (core s') id Hb (t_length _ _ Ht) Hci) as [? ? ?]; try done.
  { simpl. congruence. }
  { intros Hpub. destruct w as [| | |k|]; try done. injection Hpub as ->. pose proof (w_completed _ _ Hw _ _ eq_refl Hci) as H. simpl in H. congruence. }
  split; simpl; rewrite ?core_insert, ?Hcore, ?E1.
  - eapply table_keep; [exact Ht | exact Hci | by simpl; rewrite Hs | done | exact P3 | exact P4 | exact (eq_trans P1 (eq_sym Hp)) | | exact E2 | exact E3 | exact E4 | exact E5 |].
    + intros _. change (job (core s')) with (job s'). rewrite P2. apply Hj. by rewrite Hs.
    + intros k. simpl. destruct (decide (k = id)) as [->|]; [|by rewrite lookup_alter_ne]. rewrite lookup_alter_eq. by destruct (routes d !! id).
  - exact Hch2.
  - by apply (ready_remove _ _ _ _ _ _ (core s)).
  - by split.
  - apply (not_the_workers _ _ _ (core s)); [done | exact Hci | simpl; congruence..].
  - done.
Qed.

(** *** Retiring *)

Lemma table_release c d d' i s s' id :
  table_ok c d -> c !! i = Some s -> state s <> Free -> port s = Some id ->
  state s' = Free -> job s' = None -> port s' = None ->
  (forall k, outstanding <$> routes d' !! k = (fun p => if decide (k = id) then outstanding p - 1 else outstanding p) <$> routes d !! k) ->
  used d' = used d - 1 -> ordinary_used d' = (if control s then ordinary_used d else ordinary_used d - 1) ->
  next_ticket d' = next_ticket d -> next_owner d' = next_owner d ->
  table_ok (<[i := s']> c) d'.
Proof.
  intros [Hlen Hslot Htick Hu Ho Hlim Hout Hown] Hi Hs Hp Hs' Hj' Hp' Er Eu Eo En Ew.
  assert (forall id, is_Some (routes d' !! id) <-> is_Some (routes d !! id)) as Hsome
    by (intros k; rewrite <- (fmap_is_Some outstanding (routes d' !! k)), Er; apply fmap_is_Some).
  pose proof (fun p => count_if_insert p c i s s' Hi) as Htal.
  assert (NativeIoInvariant.in_use s = true) as Hin by (unfold NativeIoInvariant.in_use; by apply bool_decide_eq_true_2).
  assert (NativeIoInvariant.in_use s' = false) as Hin' by (unfold NativeIoInvariant.in_use; by rewrite Hs').
  split.
  - by rewrite length_insert.
  - intros j t [(<- & <- & _)|[_ Ht]]%list_lookup_insert_Some.
    + unfold slot_ok. by rewrite Hs'.
    + eapply slot_ok_mono; [intros k; apply Hsome | | by eapply Hslot]. lia.
  - intros j k t u Hj Hk Hjs Hks Heq.
    apply list_lookup_insert_Some in Hj as [(<- & <- & _)|[Hne Ht]], Hk as [(<- & <- & _)|[Hne' Hu']]; [done..|].
    by eapply Htick.
  - specialize (Htal NativeIoInvariant.in_use). rewrite Hin, Hin' in Htal. lia.
  - specialize (Htal ordinary). unfold ordinary in Htal at 2 4. rewrite Hin, Hin' in Htal. rewrite Eo.
    destruct (control s); simpl in Htal; lia.
  - rewrite Eo. destruct (control s); lia.
  - intros k r Hr. pose proof (Er k) as Hk. rewrite Hr in Hk. simpl in Hk. destruct (routes d !! k) as [q|] eqn:Hq; [|done].
    injection Hk as ->. specialize (Htal (of_route k)). unfold of_route in Htal at 2 4. rewrite Hin, Hin', Hp in Htal. simpl in Htal.
    rewrite (Hout _ _ Hq). destruct (decide (k = id)) as [Hki|Hki].
    + subst k. rewrite bool_decide_eq_true_2 in Htal by done. lia.
    + rewrite bool_decide_eq_false_2 in Htal by congruence. lia.
  - intros k. rewrite Hsome, Ew. apply Hown.
Qed.

(** Mailboxes are the same up to their counters. *)
Lemma boxes_same pub (c : list Slot) m m' a :
  (forall k p, m' !! k = Some p -> exists q, m !! k = Some q /\ ring p = ring q /\ ring_head p = ring_head q /\ count p = count q) ->
  boxes_ok pub c m a -> boxes_ok pub c m' a.
Proof.
  intros Hm [Hr ? ?]. split; [|done..]. intros k p Hp. destruct (Hm k p Hp) as (q & Hq & ? & ? & ?).
  by apply (ring_ok_same q); [..|apply Hr].
Qed.

Lemma release_slot_ok w d m a a' i s id :
  state_ok w d a -> slots d !! i = Some s -> state s = Reserved \/ state s = Completed -> port s = Some id -> w <> W_publishing i ->
  ready a' = ready a -> running a' = running a ->
  (forall s', state s' = Free -> boxes_ok (publishing_of w) (<[i := s']> (core <$> slots d)) m a') ->
  (forall k, outstanding <$> m !! k = outstanding <$> routes d !! k) ->
  state_ok w (release_slot i s (with_routes d m)) a' /\ stopping (release_slot i s (with_routes d m)) = stopping d.
Proof.
  intros [Ht Hch Hr Hb Hw Hrun] Hi Hs Hp Hpub Ea Er Hbox Hm. pose proof (core_lookup _ _ _ Hi) as Hci.
  assert (state s <> Queued /\ state s <> Free /\ state s <> Running) as (Hs1 & Hs2 & Hs3) by (destruct Hs as [-> | ->]; done).
  split; [|done]. unfold release_slot. rewrite Hp. set (s' := MkSlot _ Free _ _ _ _ _ _ _ _).
  split; simpl; rewrite ?core_insert.
  - apply (table_release _ d _ i (core s) (core s') id); try done. intros k. simpl. rewrite lookup_fmap.
    specialize (Hm k). case_decide as Hk.
    + subst k. rewrite lookup_alter_eq. destruct (m !! id), (routes d !! id); simplify_eq/=; try done; congruence.
    + rewrite lookup_alter_ne by done. destruct (m !! k), (routes d !! k); simplify_eq/=; try done; congruence.
  - pose proof (chains_keep d a i s s' _ Hch Hi eq_refl eq_refl) as Hk. unfold chains_ok in *. rewrite Ea. exact Hk.
  - assert (ready_ok (<[i := core s']> (core <$> slots d)) a) as H; [|unfold ready_ok in *; by rewrite Ea].
    by apply (ready_keep _ _ _ (core s)).
  - apply (boxes_same _ _ m); [|by apply Hbox]. intros k p Hk. rewrite lookup_fmap in Hk.
    destruct (decide (k = id)) as [->|Hne].
    + rewrite lookup_alter_eq in Hk. destruct (m !! id) as [q|]; [|done]. injection Hk as <-. by exists q.
    + rewrite lookup_alter_ne in Hk by done. destruct (m !! k) as [q|]; [|done]. injection Hk as <-. by exists q.
  - apply (worker_keep _ _ _ (core s)); [done | exact Hci | by split | done].
  - by rewrite Er.
Qed.

Lemma abandon_ok w d a t d' :
  state_ok w d a -> abandon t d = inl d' -> state_ok w d' a /\ stopping d' = stopping d.
Proof.
  intros Hok. unfold abandon. destruct (locate t d) as [[i s]|] eqn:Hl; [|done]. apply locate_spec in Hl as (Hi & Hnf & _).
  case_decide as Hs; [|done]. intros [= <-]. pose proof (core_lookup _ _ _ Hi) as Hci.
  destruct (held_slot _ _ _ _ _ Hok Hi Hnf) as ((id & q & Hp & _) & _).
  assert (with_routes d (routes d) = d) as Hd by (by destruct d). rewrite <- Hd at 1 2.
  eapply release_slot_ok; [done | done | by left | done | | done | done | | done].
  - intros ->. pose proof (w_completed _ _ (s_worker _ _ _ Hok) _ _ eq_refl Hci) as H. simpl in H. congruence.
  - intros s' Hs'. apply (boxes_keep (publishing_of w) _ _ _ _ _ (core s)); [apply Hok | done | simpl; congruence | congruence | done].
Qed.

(** The head of a mailbox. *)
Lemma mailbox_head_slot w d a id q i :
  state_ok w d a -> routes d !! id = Some q -> mailbox_head q = Some i ->
  exists l s, box a id = i :: l /\ slots d !! i = Some s /\ state s = Completed /\ port s = Some id /\ w <> W_publishing i.
Proof.
  intros Hok Hq Hh. pose proof (s_boxes _ _ _ Hok) as [Hr Hn Hc]. rewrite (mailbox_head_ok _ _ (Hr _ _ Hq)) in Hh.
  destruct (box a id) as [|j l] eqn:Hbox; [done|]. injection Hh as ->.
  destruct (proj1 (Hc id i)) as (s & Hs & Hst & Hp & Hne); [rewrite Hbox; left|].
  rewrite lookup_core in Hs. destruct (slots d !! i) as [s0|] eqn:Hi; [|done]. simpl in Hs. injection Hs as <-.
  exists l, s0. split_and!; [done..|]. by intros ->.
Qed.

Lemma acknowledge_ok w d a p t d' :
  state_ok w d a -> acknowledge p t d = inl d' ->
  exists a', ideal_step a a' /\ state_ok w d' a' /\ stopping d' = stopping d.
Proof.
  intros Hok. unfold acknowledge. destruct (validate_route p d) as [[id q]|] eqn:Hv; [|done]. apply validate_route_spec in Hv as [_ Hq].
  destruct (locate t d) as [[i s]|] eqn:Hl; [|done]. apply locate_spec in Hl as (Hi & Hnf & _).
  case_bool_decide as Hh; [done|]. simpl. destruct (bool_decide _); [done|]. intros [= <-].
  destruct (mailbox_head_slot _ _ _ _ _ _ Hok Hq Hh) as (l & s0 & Hbox & Hi0 & Hs & Hp & Hw). rewrite Hi in Hi0. injection Hi0 as <-.
  exists (with_box a id l). split; [by eapply id_acknowledge|].
  pose proof (s_boxes _ _ _ Hok) as [Hr Hn Hc].
  eapply release_slot_ok; [done | done | by right | done | done | done | done | |].
  - intros s' Hs'. split.
    + intros k r. rewrite lookup_insert_Some. unfold with_box. simpl. intros [[<- <-]|[Hne Hkr]].
      * rewrite decide_True by done. eapply port_pop_ok. rewrite <- Hbox. by apply Hr.
      * rewrite decide_False by done. by apply Hr.
    + intros k. unfold with_box. simpl. case_decide; [|done]. specialize (Hn id). rewrite Hbox in Hn. by apply NoDup_cons in Hn as [_ ?].
    + intros k j. specialize (Hn id). rewrite Hbox in Hn. apply NoDup_cons in Hn as [Hni _].
      assert (j ∈ box (with_box a id l) k <-> j ∈ box a k /\ j <> i) as ->.
      { unfold with_box. simpl. case_decide as Hk; [subst k; rewrite Hbox; set_solver|]. split; [|by intros [? _]].
        intros Hj. split; [done|]. intros ->. apply Hc in Hj as (u & Hu & _ & Hpu & _). rewrite lookup_core, Hi in Hu. simpl in Hu.
        injection Hu as <-. simpl in Hpu. congruence. }
      rewrite (Hc k j). split.
      * intros [(u & ? & ? & ? & ?) Hne]. exists u. by rewrite list_lookup_insert_ne.
      * intros (u & [(<- & <- & _)|[Hne Hu]]%list_lookup_insert_Some & ? & ? & ?); [congruence|]. split; [eauto 6 | done].
  - intros k. destruct (decide (k = id)) as [->|]; [by rewrite lookup_insert_eq, Hq | by rewrite lookup_insert_ne].
Qed.

Lemma stopping_ok w d a : state_ok w d a -> state_ok w (with_stopping d) a.
Proof. intros [Ht Hch Hr Hb Hw Hrun]. split; try done. by eapply table_same. Qed.
End Methods.
