(* ===== verification/NativeIoResults.v ===== *)
(** * NativeIoResults: the dispatcher refines an ideal scheduler

    From the lemmas of [NativeIoMethods]: the simulation, the states that a
    ticket goes through, the capacity that is reserved for control
    transactions, errors that cannot occur, and that the worker does not
    sleep through work. *)

From S2P Require Import Prelude Identity Entities NativeIo NativeQueues NativeIoInvariant NativeIoMethods.
Local Open Scope nat_scope.

Section Results.
Context {J E : Type} `{!NativeJob J E}.
Notation Slot := (Slot (J := J)).
Notation NativeIoDispatcher := (NativeIoDispatcher (J := J)).
Notation IoRun := (IoRun (J := J)).
Implicit Types (s : Slot) (d : NativeIoDispatcher) (x : IoRun).

(** ** One step *)

(** What a method may make of a slot without waking the worker. *)
Definition quiet (c c' : list Slot) : Prop :=
  forall i s, c' !! i = Some s -> state s = Queued \/ state s = RetryWaiting -> c !! i = Some s.

Lemma quiet_refl c : quiet c c.
Proof. by intros i s. Qed.

Lemma quiet_insert (c : list Slot) i s : state s <> Queued -> state s <> RetryWaiting -> quiet c (<[i := s]> c).
Proof. intros H1 H2 j t [(<- & <- & _)|[_ ?]]%list_lookup_insert_Some ?; [naive_solver | done]. Qed.

Lemma core_unlink q i previous (l : list Slot) : core <$> (unlink q i previous l).2 = core <$> l.
Proof. unfold unlink. destruct (previous =? size); simpl; [done | apply core_alter_next]. Qed.

Lemma publish_slot_slots i d : slots (publish_slot i d) = slots d /\ stopping (publish_slot i d) = stopping d.
Proof. unfold publish_slot. destruct (slots d !! i) as [s|]; [destruct (port s)|]; done. Qed.

(** The slots after a ticket is cancelled. *)
Lemma cancel_slots t d d' :
  cancel_queued t d = inl (true, d') ->
  exists i s s', slots d !! i = Some s /\ state s = Queued /\ state s' = Completed /\ ticket s' = ticket s /\
    core <$> slots d' = <[i := core s']> (core <$> slots d).
Proof.
  unfold cancel_queued. destruct (list_find _ _) as [[i s]|] eqn:Hf; [|done]. apply find_ticket_spec in Hf as (Hi & _ & _).
  case_decide as Hs; [|done]. destruct (find_previous _ _ _ _ _) as [previous|]; [|done].
  pose proof (core_unlink (if priority s then control_queue d else user_queue d) i previous (slots d)) as Hcore.
  destruct (unlink _ _ _ _) as [q' l]. simpl in Hcore. intros [= <-].
  rewrite (proj1 (publish_slot_slots _ _)). cbn [slots with_slots].
  assert (slots (if priority s then with_queues (with_slots d l) q' (user_queue d) else with_queues (with_slots d l) (control_queue d) q') = l)
    as -> by (by destruct (priority s)).
  pose proof (core_lookup _ _ _ Hi) as Hci. rewrite <- Hcore, lookup_core in Hci. destruct (l !! i) as [s1|] eqn:Hi1; [|done].
  apply (inj Some) in Hci. rewrite (alter_as_insert _ _ _ _ Hi1), core_insert, Hcore.
  eexists i, s, _. split_and!; [done | done | | | done]; [done|]. simpl. by destruct (core_fields _ _ Hci) as [? _].
Qed.

Lemma call_quiet c d d' :
  call c d = inl (d', 0) -> quiet (core <$> slots d) (core <$> slots d') /\ stopping d' = stopping d.
Proof.
  unfold call. destruct c.
  - destruct (open_route _ _) as [[id d1]|] eqn:H; [|done]. intros [= <-]. unfold open_route in H.
    destruct wait_set as [[[|] [e|]]|]; try done. destruct (stopping d) eqn:?; [done|]. destruct (_ =? _)%Z; [done|]. injection H as <- <-. split; [apply quiet_refl | done].
  - destruct (stop_route _ _) as [d1|] eqn:H; [|done]. intros [= <-]. unfold stop_route in H.
    destruct (validate_route _ _) as [[id q]|]; [|done]. injection H as <-. split; [apply quiet_refl | done].
  - destruct (retire_route _ _) as [d1|] eqn:H; [|done]. intros [= <-]. unfold retire_route in H.
    destruct (validate_route _ _) as [[id q]|]; [|done]. destruct (negb _); [done|]. destruct (negb _); [done|]. injection H as <-. split; [apply quiet_refl | done].
  - destruct (reserve _ _ _ _) as [[t d1]|] eqn:H; [|done]. intros [= <-].
    apply reserve_spec in H as (id & q & i & s & _ & _ & _ & _ & _ & _ & _ & _ & ->). simpl. rewrite core_insert. split; [|done].
    by apply quiet_insert.
  - destruct (install _ _ _) as [d1|] eqn:H; [|done]. intros [= <-]. unfold install in H. destruct j as [j|]; [|done].
    destruct (locate _ _) as [[i s]|]; [|done]. case_bool_decide as Hs; [done|]. destruct (_ || _); [done|]. injection H as <-.
    simpl. rewrite core_insert. split; [|done]. apply quiet_insert; simpl; congruence.
  - by destruct (enqueue_prepared _ _).
  - destruct (cancel_queued _ _) as [[b d1]|] eqn:H; [|done]. intros [= <-]. destruct b.
    + pose proof H as (i & s & s' & _ & _ & Hs' & _ & ->)%cancel_slots. split; [apply quiet_insert; simpl; congruence|].
      unfold cancel_queued in H. destruct (list_find _ _) as [[j u]|]; [|done]. case_decide; [|done].
      destruct (find_previous _ _ _ _ _); [|done]. destruct (unlink _ _ _ _) as [q' l]. injection H as <-.
      rewrite (proj2 (publish_slot_slots _ _)). by destruct (priority u).
    + unfold cancel_queued in H. destruct (list_find _ _) as [[j u]|]; [|injection H as <-; split; [apply quiet_refl | done]].
      case_decide; [|injection H as <-; split; [apply quiet_refl | done]]. destruct (find_previous _ _ _ _ _); [|done]. by destruct (unlink _ _ _ _).
  - destruct (abandon _ _) as [d1|] eqn:H; [|done]. intros [= <-]. unfold abandon in H.
    destruct (locate _ _) as [[i s]|]; [|done]. case_decide; [|done]. injection H as <-. simpl. rewrite core_insert. split; [|done].
    by apply quiet_insert.
  - destruct (acknowledge _ _ _) as [d1|] eqn:H; [|done]. intros [= <-]. unfold acknowledge in H.
    destruct (validate_route _ _) as [[id q]|]; [|done]. destruct (locate _ _) as [[i s]|]; [|done]. destruct (_ || _); [done|].
    injection H as <-. simpl. rewrite core_insert. split; [|done]. by apply quiet_insert.
  - by destruct (shutdown _).
  - done.
Qed.

Lemma call_ok c w d a d' k :
  state_ok w d a -> call c d = inl (d', k) -> exists a', rtc ideal_step a a' /\ state_ok w d' a'.
Proof.
  intros Hok. unfold call. destruct c.
  - destruct (open_route _ _) as [[id d1]|] eqn:H; [|done]. intros [= <- <-]. exists a. split; [done|]. by eapply open_route_ok.
  - destruct (stop_route _ _) as [d1|] eqn:H; [|done]. intros [= <- <-]. exists a. split; [done|]. by eapply stop_route_ok.
  - destruct (retire_route _ _) as [d1|] eqn:H; [|done]. intros [= <- <-]. exists a. split; [done|]. by eapply retire_route_ok.
  - destruct (reserve _ _ _ _) as [[t d1]|] eqn:H; [|done]. intros [= <- <-]. exists a. split; [done|]. by eapply reserve_ok.
  - destruct (install _ _ _) as [d1|] eqn:H; [|done]. intros [= <- <-]. exists a. split; [done|]. by eapply install_ok.
  - destruct (enqueue_prepared _ _) as [d1|] eqn:H; [|done]. intros [= <- <-].
    destruct (enqueue_prepared_ok _ _ _ _ _ Hok H) as (a' & Hs & Hok' & _). exists a'. split; [by apply rtc_once | done].
  - destruct (cancel_queued _ _) as [[b d1]|] eqn:H; [|done]. intros [= <- <-].
    destruct (cancel_queued_ok _ _ _ _ _ _ Hok H) as (a' & Hs & Hok' & _). by exists a'.
  - destruct (abandon _ _) as [d1|] eqn:H; [|done]. intros [= <- <-]. exists a. split; [done|]. by eapply abandon_ok.
  - destruct (acknowledge _ _ _) as [d1|] eqn:H; [|done]. intros [= <- <-].
    destruct (acknowledge_ok _ _ _ _ _ _ Hok H) as (a' & Hs & Hok' & _). exists a'. split; [by apply rtc_once | done].
  - destruct (shutdown _) as [d1|] eqn:H; [|done]. intros [= <- <-]. exists a. split; [done|]. unfold shutdown in H.
    destruct (_ || _); [done|]. injection H as <-. by apply stopping_ok.
  - intros [= <- <-]. exists a. split; [done|]. by apply stopping_ok.
Qed.

(** Work that is there is of a slot that is queued or waits for a retry. *)
Lemma quiet_nothing w w' d a d' a' until :
  state_ok w d a -> state_ok w' d' a' -> quiet (core <$> slots d) (core <$> slots d') -> stopping d' = stopping d ->
  nothing_to_do until (core <$> slots d) (stopping d) a -> nothing_to_do until (core <$> slots d') (stopping d') a'.
Proof.
  intros Hok Hok' Hq Hst (Hn & Hr & Hs). split_and!.
  - intros p. destruct (ready a' p) as [|i l] eqn:Hl; [done|]. exfalso.
    destruct (proj1 (s_ready _ _ _ Hok' p i)) as (s & Hi & Hsq & Hp); [rewrite Hl; left|].
    assert (i ∈ ready a p) as Hin; [apply (s_ready _ _ _ Hok); exists s; split_and!; auto|]. rewrite Hn in Hin. by apply elem_of_nil in Hin.
  - intros i s Hi Hw. apply (Hr i); [apply Hq; auto | done].
  - by rewrite Hst.
Qed.

(** The worker is elsewhere, without a slot. *)
Lemma worker_idle w w' d a :
  state_ok w d a -> publishing_of w = None -> (forall i, w <> W_running i) -> publishing_of w' = None -> (forall i, w' <> W_running i) ->
  state_ok w' d a.
Proof.
  intros [Ht Hc Hr Hb Hw Hrun] H1 H2 H3 H4. split; try done.
  - by rewrite H3, <- H1.
  - destruct Hw as [Hwr Hws Hwc]. split.
    + intros i s Hi. rewrite (Hwr i s Hi). split; intros ->; [by destruct (H2 i) | by destruct (H4 i)].
    + intros i [-> | ->]; [by destruct (H4 i) | done].
    + by intros i s ->.
  - rewrite Hrun. destruct w, w'; try done; solve [by destruct (H2 index) | by destruct (H4 index)].
Qed.

Definition io_start : IoRun := MkIoRun new_dispatcher W_selecting 0.
Definition ideal_start : Ideal := MkIdeal (fun _ => []) None (fun _ => []).

Lemma new_slot_lookup i s : (core <$> slots (@new_dispatcher J)) !! i = Some s -> state s = Free /\ s = core (new_slot (J := J)).
Proof.
  rewrite lookup_core. destruct (slots (@new_dispatcher J) !! i) as [u|] eqn:H; [|done]. apply lookup_replicate in H as [-> _].
  intros H%(inj Some). by subst.
Qed.

Lemma start_inv : io_inv io_start ideal_start.
Proof.
  split; [|done].
  assert (forall p : Slot -> bool, p (core (new_slot (J := J))) = false -> count_if p (core <$> slots (@new_dispatcher J)) = 0) as Htally.
  { intros p Hp. apply count_if_none. intros s [i [Hs ->]%new_slot_lookup]%list_elem_of_lookup. done. }
  split.
  - split; try done.
    + intros i s [Hs ->]%new_slot_lookup. done.
    + intros i j s t [? _]%new_slot_lookup. done.
    + change (ordinary_used _) with 0. lia.
    + by intros id [].
  - intros [|]; split_and!; done || apply NoDup_nil_2.
  - intros p i. split; [by intros ?%elem_of_nil|]. intros (s & [Hs _]%new_slot_lookup & ? & _). congruence.
  - split; [done | intros id; apply NoDup_nil_2|]. intros id i. split; [by intros ?%elem_of_nil|].
    intros (s & [Hs _]%new_slot_lookup & ? & _). congruence.
  - split; [|by intros i [|]|done]. intros i s [Hs _]%new_slot_lookup. split; [congruence | done].
  - done.
Qed.

Lemma io_step_inv x x' a : io_inv x a -> io_step x x' -> exists a', rtc ideal_step a a' /\ io_inv x' a'.
Proof.
  intros [Hok Haw] Hstep. destruct Hstep as [c d d' w n k Hc|x x' Hstep]; [|inversion Hstep as [d w n|now d d' n i Hsel|now d d' n until Hsel|now d d' n Hsel|d until b n
    |e1 e2 now d n i s s' o Hi Hat|d n i]; subst]; simpl in *.
  - destruct (call_ok _ _ _ _ _ _ Hok Hc) as (a' & Hs & Hok'). exists a'. split; [done|]. split; [done|].
    intros u Hw. simpl in *. destruct k as [|k]; [|left; lia]. destruct (call_quiet _ _ _ Hc) as [Hq Hst].
    destruct (Haw u Hw) as [Hn|Hn]; simpl in *; [left; lia | right]. by eapply (quiet_nothing w w d a).
  - exists a. split; [done|]. split; [|intros u Hw; by destruct w]. destruct w; try done. by eapply worker_idle.
  - pose proof (select_ok now d a Hok) as H. rewrite Hsel in H. destruct H as (a' & Hs & _ & Hok'). by exists a'.
  - pose proof (select_ok now d a Hok) as H. rewrite Hsel in H. destruct H as (a' & Hs & _ & Hok' & Hn). exists a'. split; [done|].
    split; [done|]. intros u [= <-]. by right.
  - pose proof (select_ok now d a Hok) as H. rewrite Hsel in H. destruct H as (a' & Hs & _ & Hok' & _). by exists a'.
  - exists a. split; [done|]. split; [|done]. by eapply worker_idle.
  - pose proof (attempt_ok e1 e2 now d a i s s' o Hok Hi Hat) as H.
    destruct o; (eexists; split; [|split; [exact H | done]]); [apply rtc_once, (id_retry _ i), Hok..|done].
  - destruct (publish_slot_ok _ _ _ Hok) as (a' & Hs & Hok' & _). exists a'. split; [by apply rtc_once|]. by split.
Qed.

Lemma reachable_inv x : rtc io_step io_start x -> exists a, rtc ideal_step ideal_start a /\ io_inv x a.
Proof.
  assert (forall y, rtc io_step y x -> forall a, rtc ideal_step ideal_start a -> io_inv y a ->
    exists a, rtc ideal_step ideal_start a /\ io_inv x a) as H; [|intros Hx; apply (H _ Hx ideal_start); [done | apply start_inv]].
  intros y Hy. induction Hy as [|y y' z Hs _ IH]; intros a Ha Hi; [by exists a|].
  destruct (io_step_inv _ _ _ Hi Hs) as (a' & Hr & Hi'). apply (IH a'); [by etrans | done].
Qed.

(** ** Tickets *)

Inductive ticket_step : SlotState -> SlotState -> Prop :=
  | tk_enqueued : ticket_step Reserved Queued
  | tk_started : ticket_step Queued Running
  | tk_cancelled : ticket_step Queued Completed
  | tk_delayed : ticket_step Running RetryWaiting
  | tk_due : ticket_step RetryWaiting Queued
  | tk_finished : ticket_step Running Completed.

Lemma ticket_steps_held u v : rtc ticket_step u v -> u <> Free -> v <> Free.
Proof. induction 1 as [|u v z Hs _ IH]; [done|]. intros _. apply IH. by inversion Hs. Qed.

(** A slot keeps its ticket, and its record once it is completed. *)
Definition advances s s' : Prop :=
  ticket s' = ticket s /\ rtc ticket_step (state s) (state s') /\ (state s = Completed -> completion s' = completion s).

Definition evolves (c c' : list Slot) : Prop :=
  forall i s, c !! i = Some s -> state s <> Free -> exists s', c' !! i = Some s' /\ advances s s'.

Lemma advances_refl s : advances s s.
Proof. by split_and!. Qed.

Lemma evolves_refl c : evolves c c.
Proof. intros i s Hi _. exists s. split; [done | apply advances_refl]. Qed.

Lemma completed_stays u v : rtc ticket_step u v -> u = Completed -> v = Completed.
Proof. induction 1 as [|u v z Hs _ IH]; [done|]. intros ->. by inversion Hs. Qed.

Lemma evolves_trans c1 c2 c3 : evolves c1 c2 -> evolves c2 c3 -> evolves c1 c3.
Proof.
  intros H12 H23 i s Hi Hs. destruct (H12 i s Hi Hs) as (s2 & Hi2 & T2 & R2 & C2).
  destruct (H23 i s2 Hi2 (ticket_steps_held _ _ R2 Hs)) as (s3 & Hi3 & T3 & R3 & C3).
  exists s3. split; [done|]. split_and!; [congruence | by etrans |]. intros Hc. rewrite C3, C2; [done..|]. by eapply completed_stays.
Qed.

Lemma evolves_insert (c : list Slot) i s s' : c !! i = Some s -> (state s <> Free -> advances s s') -> evolves c (<[i := s']> c).
Proof.
  intros Hi Ha j t Hj Ht. destruct (decide (j = i)) as [->|Hne].
  - simplify_eq. exists s'. rewrite list_lookup_insert_eq by (by eapply lookup_lt_Some). auto.
  - exists t. rewrite list_lookup_insert_ne by done. split; [done | apply advances_refl].
Qed.

Lemma core_push q i (l : list Slot) : core <$> (push q i l).2 = core <$> l.
Proof. unfold push. destruct (tail q =? size); simpl; by rewrite ?core_alter_next. Qed.

Lemma core_push_ready i d : core <$> slots (push_ready i d) = core <$> slots d.
Proof.
  unfold push_ready. destruct (slots d !! i) as [s|]; [|done].
  destruct (priority s); [pose proof (core_push (control_queue d) i (slots d)) as H | pose proof (core_push (user_queue d) i (slots d)) as H];
    by destruct (push _ _ _).
Qed.

Lemma promote_evolves now ix d e : evolves (core <$> slots d) (core <$> slots (fold_left (promote_step now) ix (d, e)).1).
Proof.
  revert d e. induction ix as [|i ix IH]; intros d e; simpl; [apply evolves_refl|].
  destruct (slots d !! i) as [s|] eqn:Hi; [|apply IH]. case_decide as Hs; [|apply IH]. destruct (_ <=? _)%Z; [|apply IH].
  eapply evolves_trans; [|apply IH]. rewrite core_push_ready. simpl. rewrite core_insert.
  eapply evolves_insert; [by apply core_lookup|]. intros _. split_and!; [done | | simpl; congruence].
  simpl. rewrite Hs. apply rtc_once, tk_due.
Qed.

Lemma select_evolves now d a sel d' :
  state_ok W_selecting d a -> select now d = (sel, d') -> evolves (core <$> slots d) (core <$> slots d').
Proof.
  intros Hok. unfold select, promote. pose proof (promote_steps_ok now W_selecting (seq 0 size) d a None [] Hok) as Hpro.
  pose proof (promote_evolves now (seq 0 size) d None) as Hev. destruct (fold_left _ _ _) as [d1 e1]. simpl in Hev.
  destruct Hpro as (a1 & _ & Hok1 & _ & _); [by intros j s ?%elem_of_nil|]. pose proof (s_chains _ _ _ Hok1) as Hch.
  assert (forall p i l, ready a1 p = i :: l -> evolves (core <$> slots d1) (core <$> alter (fun s => slot_state s Running) i (slots d1))) as Hstart.
  { intros p i l Hl. destruct (proj1 (s_ready _ _ _ Hok1 p i)) as (s & Hi & Hs & _); [rewrite Hl; left|].
    rewrite lookup_core in Hi. destruct (slots d1 !! i) as [u|] eqn:Hu; [|done]. apply (inj Some) in Hi. subst s.
    rewrite (alter_as_insert _ _ _ _ Hu), core_insert. eapply evolves_insert; [by apply core_lookup|]. intros _.
    split_and!; [done | | simpl in *; congruence]. simpl in *. rewrite Hs. apply rtc_once, tk_started. }
  rewrite (queue_head_empty _ _ _ (Hch true)), (queue_head_empty _ _ _ (Hch false)).
  destruct (ready a1 true) as [|i l] eqn:Hrt; [rewrite bool_decide_eq_true_2 by done; destruct (ready a1 false) as [|i l] eqn:Hrf|].
  - rewrite bool_decide_eq_true_2 by done. simpl. by destruct (_ && _); intros [= <- <-].
  - rewrite bool_decide_eq_false_2 by done. pose proof (Hch false) as Hq. simpl in Hq. rewrite Hrf in Hq.
    destruct (pop_ok _ _ _ _ Hq) as (q' & -> & _). intros [= <- <-]. eapply evolves_trans; [exact Hev | by eapply (Hstart false)].
  - rewrite bool_decide_eq_false_2 by done. pose proof (Hch true) as Hq. simpl in Hq. rewrite Hrt in Hq.
    destruct (pop_ok _ _ _ _ Hq) as (q' & -> & _). intros [= <- <-]. eapply evolves_trans; [exact Hev | by eapply (Hstart true)].
Qed.

(** A ticket retires. *)
Definition retires d i s s' : Prop :=
  state s' = Free /\ (state s = Reserved \/
    state s = Completed /\ exists id q, port s = Some id /\ routes d !! id = Some q /\ mailbox_head q = Some i).

Definition moves d d' : Prop :=
  forall i s, slots d !! i = Some s -> state s <> Free -> exists s', slots d' !! i = Some s' /\ (advances s s' \/ retires d i s s').

Lemma advances_core s s' : advances (core s) (core s') -> advances s s'.
Proof. done. Qed.

Lemma evolves_moves d d' : evolves (core <$> slots d) (core <$> slots d') -> moves d d'.
Proof.
  intros H i s Hi Hs. destruct (H i (core s) (core_lookup _ _ _ Hi) Hs) as (u & Hu & Ha). rewrite lookup_core in Hu.
  destruct (slots d' !! i) as [s'|]; [|done]. apply (inj Some) in Hu. subst u. exists s'. split; [done|]. by left.
Qed.

Lemma same_moves d d' : slots d' = slots d -> moves d d'.
Proof. intros E0. apply evolves_moves. rewrite E0. apply evolves_refl. Qed.

Lemma insert_moves d d' i s s' :
  slots d !! i = Some s -> slots d' = <[i := s']> (slots d) -> (state s <> Free -> advances s s' \/ retires d i s s') -> moves d d'.
Proof.
  intros Hi E0 Ha j t Hj Ht. rewrite E0. destruct (decide (j = i)) as [->|Hne].
  - simplify_eq. exists s'. rewrite list_lookup_insert_eq by (by eapply lookup_lt_Some). auto.
  - exists t. rewrite list_lookup_insert_ne by done. split; [done|]. left. apply advances_refl.
Qed.

Lemma call_moves c w d a d' k : state_ok w d a -> call c d = inl (d', k) -> moves d d'.
Proof.
  intros Hok. unfold call. destruct c.
  - destruct (open_route _ _) as [[id d1]|] eqn:H; [|done]. intros [= <- <-]. apply same_moves. by eapply open_route_ok.
  - destruct (stop_route _ _) as [d1|] eqn:H; [|done]. intros [= <- <-]. apply same_moves. by eapply stop_route_ok.
  - destruct (retire_route _ _) as [d1|] eqn:H; [|done]. intros [= <- <-]. apply same_moves. by eapply retire_route_ok.
  - destruct (reserve _ _ _ _) as [[t d1]|] eqn:H; [|done]. intros [= <- <-].
    apply reserve_spec in H as (id & q & i & s & _ & _ & Hi & Hs & _ & _ & _ & _ & ->). by eapply insert_moves.
  - destruct (install _ _ _) as [d1|] eqn:H; [|done]. intros [= <- <-]. unfold install in H. destruct j as [j|]; [|done].
    destruct (locate _ _) as [[i s]|] eqn:Hl; [|done]. apply locate_spec in Hl as (Hi & _ & _). destruct (_ || _); [done|].
    injection H as <-. eapply insert_moves; [exact Hi | done |]. intros _. left. by split_and!.
  - destruct (enqueue_prepared _ _) as [d1|] eqn:H; [|done]. intros [= <- <-]. unfold enqueue_prepared in H.
    destruct (locate _ _) as [[i s]|] eqn:Hl; [|done]. apply locate_spec in Hl as (Hi & _ & _). case_bool_decide as Hs; [done|].
    destruct (_ || _); [done|]. injection H as <-. apply evolves_moves. rewrite core_push_ready. simpl. rewrite core_insert.
    eapply evolves_insert; [by apply core_lookup|]. intros _. split_and!; [done | | simpl; congruence]. simpl. rewrite Hs. apply rtc_once, tk_enqueued.
  - destruct (cancel_queued _ _) as [[b d1]|] eqn:H; [|done]. intros [= <- <-]. apply evolves_moves. destruct b.
    + apply cancel_slots in H as (i & s & s' & Hi & Hs & Hs' & Ht & ->). eapply evolves_insert; [by apply core_lookup|].
      intros _. split_and!; [done | | simpl; congruence]. simpl. rewrite Hs, Hs'. apply rtc_once, tk_cancelled.
    + unfold cancel_queued in H. destruct (list_find _ _) as [[j u]|]; [|injection H as <-; apply evolves_refl].
      case_decide; [|injection H as <-; apply evolves_refl]. destruct (find_previous _ _ _ _ _); [|done]. by destruct (unlink _ _ _ _).
  - destruct (abandon _ _) as [d1|] eqn:H; [|done]. intros [= <- <-]. unfold abandon in H.
    destruct (locate _ _) as [[i s]|] eqn:Hl; [|done]. apply locate_spec in Hl as (Hi & _ & _). case_decide as Hs; [|done]. injection H as <-.
    eapply insert_moves; [exact Hi | done |]. intros _. right. split; [done | by left].
  - destruct (acknowledge _ _ _) as [d1|] eqn:H; [|done]. intros [= <- <-]. unfold acknowledge in H.
    destruct (validate_route _ _) as [[id q]|] eqn:Hv; [|done]. apply validate_route_spec in Hv as [_ Hq].
    destruct (locate _ _) as [[i s]|] eqn:Hl; [|done]. apply locate_spec in Hl as (Hi & _ & _).
    case_bool_decide as Hh; [done|]. simpl in H. case_bool_decide as Hp; [done|]. injection H as <-.
    destruct (mailbox_head_slot _ _ _ _ _ _ Hok Hq Hh) as (l & s0 & _ & Hi0 & Hs & Hp0 & _). simplify_eq.
    eapply insert_moves; [exact Hi | done |]. intros _. right. split; [done|]. right. split; [done|]. by exists id, q.
  - destruct (shutdown _) as [d1|] eqn:H; [|done]. intros [= <- <-]. apply same_moves. unfold shutdown in H.
    destruct (_ || _); [done|]. by injection H as <-.
  - intros [= <- <-]. by apply same_moves.
Qed.

Lemma step_moves x x' a : io_inv x a -> io_step x x' -> moves (dispatcher x) (dispatcher x').
Proof.
  intros [Hok _] Hstep. destruct Hstep as [c d d' w n k Hc|x x' Hstep]; [by eapply call_moves|].
  inversion Hstep as [d w n|now d d' n i Hsel|now d d' n until Hsel|now d d' n Hsel|d until b n
    |e1 e2 now d n i s s' o Hi Hat|d n i]; subst; simpl in *; try (by apply same_moves); try (by eapply evolves_moves, select_evolves).
  - pose proof (proj2 (w_running _ _ (s_worker _ _ _ Hok) _ _ (core_lookup _ _ _ Hi)) eq_refl) as Hs. simpl in Hs.
    apply attempt_spec in Hat as (r & j & ->). eapply insert_moves; [exact Hi | done |]. intros _. left.
    destruct (settle_same now o (slot_work s r (Some j))) as (_ & Ht & _). split_and!; [exact Ht | | congruence].
    rewrite Hs. apply rtc_once. destruct o; constructor.
  - apply same_moves, publish_slot_slots.
Qed.

(** ** Capacity *)

Lemma count_if_core (p : Slot -> bool) (l : list Slot) : (forall s, p (core s) = p s) -> count_if p (core <$> l) = count_if p l.
Proof. intros Hp. induction l as [|s l IH]; [done|]. by rewrite fmap_cons, !count_if_cons, IH, Hp. Qed.

(** A slot is free unless all of them are in use. *)
Lemma free_slot w d a :
  state_ok w d a -> used d < size -> exists i s, list_find (fun s => state s = Free) (slots d) = Some (i, s).
Proof.
  intros Hok Hu. destruct (list_find _ _) as [[i s]|] eqn:Hf; [by exists i, s|]. exfalso. apply list_find_None in Hf.
  pose proof (s_table _ _ _ Hok) as Ht. rewrite (t_used _ _ Ht), count_if_core, count_if_all in Hu; [| |done].
  - rewrite <- (length_fmap core), (t_length _ _ Ht) in Hu. lia.
  - intros s Hs. rewrite Forall_forall in Hf. apply bool_decide_eq_true_2. by apply Hf.
Qed.

(** Exactly the queued tickets can be cancelled. *)
Lemma cancel_total w d a t :
  state_ok w d a -> exists b d', cancel_queued t d = inl (b, d') /\
    (b = true <-> exists i s, slots d !! i = Some s /\ state s = Queued /\ ticket s = t).
Proof.
  intros Hok. unfold cancel_queued. destruct (list_find _ _) as [[i s]|] eqn:Hf.
  - apply find_ticket_spec in Hf as (Hi & Hnf & Hti). case_decide as Hs.
    + destruct (list_elem_of_split (ready a (priority s)) i) as (l1 & l2 & Hl).
      { apply (s_ready _ _ _ Hok). exists (core s). split_and!; [by apply core_lookup | done..]. }
      pose proof (s_chains _ _ _ Hok (priority s)) as Hq. rewrite Hl in Hq. destruct Hq as (Hc & _ & Hnd).
      rewrite (find_previous_ok _ l1 i l2 _ _ _ Hc).
      * destruct (unlink _ _ _ _) as [q l]. eexists _, _. split; [done|]. split; [|done]. intros _. by exists i, s.
      * apply NoDup_middle in Hnd. set_solver.
      * pose proof (chain_length _ _ _ Hc Hnd) as H. rewrite length_app in H. simpl in H. lia.
    + exists false, d. split; [done|]. split; [done|]. intros (j & u & Hj & Hu & Htu). destruct Hs.
      assert (i = j) as <-; [|congruence].
      apply (t_tickets _ _ (s_table _ _ _ Hok) _ _ _ _ (core_lookup _ _ _ Hi) (core_lookup _ _ _ Hj)); simpl; congruence.
  - exists false, d. split; [done|]. split; [done|]. intros (j & u & Hj & Hu & Htu). apply list_find_None in Hf.
    rewrite Forall_forall in Hf. destruct (Hf u); [by eapply list_elem_of_lookup_2|]. split; [congruence | done].
Qed.

(** ** Properties *)

(** C4: the dispatcher refines a scheduler that has two queues, one running
    job and a list of completions per route: every step of a user or of the
    worker is a sequence of its steps, and the owner of a route sees the first
    completion of its list. *)
Theorem dispatcher_refines_scheduler :
  io_inv io_start ideal_start /\
  (forall x a x', io_inv x a -> io_step x x' -> exists a', rtc ideal_step a a' /\ io_inv x' a') /\
  (forall x a id q, io_inv x a -> routes (dispatcher x) !! id = Some q ->
    peek (Route id) (dispatcher x) =
      inl ((box a id !! 0) ≫= fun i => (fun s => (ticket s, completion s)) <$> slots (dispatcher x) !! i)).
Proof.
  split_and!; [apply start_inv | intros x a x'; apply io_step_inv |].
  intros x a id q [Hok _] Hq. unfold peek, validate_route. rewrite Hq.
  rewrite (mailbox_head_ok _ _ (x_ring _ _ _ _ (s_boxes _ _ _ Hok) _ _ Hq)). by destruct (box a id).
Qed.

(** C22: a ticket keeps its slot, goes through its states in order, and its
    completion does not change once it is published; it retires from the slot
    only before it is accepted, or as the head of the mailbox of its route. *)
Theorem ticket_lifecycle x x' i s :
  rtc io_step io_start x -> io_step x x' -> slots (dispatcher x) !! i = Some s -> state s <> Free ->
  exists s', slots (dispatcher x') !! i = Some s' /\ (advances s s' \/ retires (dispatcher x) i s s').
Proof. intros (a & _ & Ha)%reachable_inv Hs. exact (step_moves _ _ _ Ha Hs i s). Qed.

(** C33: while fewer than 32 control tickets are held, a Goal or Cancel
    transaction on an open route gets a ticket, whatever the ordinary work. *)
Theorem control_capacity x id r :
  rtc io_step io_start x -> is_Some (routes (dispatcher x) !! id) -> stopping (dispatcher x) = false ->
  may_use_control (kind r) = true -> next_ticket (dispatcher x) <> UINT64_MAX ->
  count_if (fun s => in_use s && control s) (slots (dispatcher x)) < size - ordinary_limit ->
  exists d, reserve (Route id) r true (dispatcher x) = inl (next_ticket (dispatcher x), d).
Proof.
  intros (a & _ & Hok & _)%reachable_inv [q Hq] Hst Hk Hn Hfew. pose proof (s_table _ _ _ Hok) as Ht.
  set (d := dispatcher x) in *.
  assert (used d < size) as Hu.
  { pose proof (t_limit _ _ Ht). rewrite (t_ordinary _ _ Ht), count_if_core in H by done. rewrite (t_used _ _ Ht), count_if_core by done.
    rewrite (count_if_split NativeIoInvariant.in_use control). unfold ordinary in H. lia. }
  destruct (free_slot _ _ _ Hok Hu) as (i & s & Hf). unfold reserve, validate_route. rewrite Hq, Hk, Hst, Hf. simpl.
  destruct (Nat.eqb_spec (used d) size); [lia|]. destruct (Z.eqb_spec (next_ticket d) UINT64_MAX); [done|]. by eexists.
Qed.

(** C32: in no interleaving does the dispatcher find its own state
    inconsistent: a reservation finds the slot that its counters promise, a
    queued ticket is found in its queue, and exactly the queued tickets can be
    cancelled; the slot that the worker runs has its job. *)
Theorem never_inconsistent x :
  rtc io_step io_start x ->
  (forall p r ctl, reserve p r ctl (dispatcher x) <> throw InvalidState "Native I/O capacity accounting is inconsistent") /\
  (forall t, exists b d, cancel_queued t (dispatcher x) = inl (b, d) /\
    (b = true <-> exists i s, slots (dispatcher x) !! i = Some s /\ state s = Queued /\ ticket s = t)) /\
  (forall i e1 e2, worker x = W_running i -> exists s, slots (dispatcher x) !! i = Some s /\ attempt e1 e2 s <> None).
Proof.
  intros (a & _ & Hok & _)%reachable_inv. pose proof (s_table _ _ _ Hok) as Ht. set (d := dispatcher x) in *. split_and!.
  - intros p r ctl. unfold reserve. destruct (validate_route p d) as [[id q]|e] eqn:Hv.
    2: { unfold validate_route, throw in *. destruct p as [| |k]; [..|destruct (routes d !! k)]; simplify_eq; intros [=]. }
    destruct (ctl && _); [done|]. destruct (stopping d || _); [done|]. destruct (Nat.eqb_spec (used d) size); [done|]. simpl.
    destruct (negb ctl && _); [done|]. destruct (_ =? _)%Z; [done|].
    assert (used d < size) as Hu.
    { pose proof (count_if_le NativeIoInvariant.in_use (core <$> slots d)) as H. rewrite <- (t_used _ _ Ht), (t_length _ _ Ht) in H. lia. }
    destruct (free_slot _ _ _ Hok Hu) as (i & s & ->). done.
  - intros t. apply (cancel_total _ _ _ _ Hok).
  - intros i e1 e2 Hw. rewrite Hw in Hok. pose proof (w_slot _ _ (s_worker _ _ _ Hok) i (or_introl eq_refl)) as Hi.
    rewrite <- (t_length _ _ Ht), length_fmap in Hi. apply lookup_lt_is_Some_2 in Hi as [s Hi]. exists s. split; [done|].
    pose proof (proj2 (w_running _ _ (s_worker _ _ _ Hok) _ _ (core_lookup _ _ _ Hi)) eq_refl) as Hs. simpl in Hs.
    destruct (held_slot _ _ _ _ _ Hok Hi) as (_ & _ & [j Hj]); [congruence..|]. unfold attempt. rewrite Hj.
    destruct (run _ _ _) as [[t r] j']. cbv zeta. destruct (_ && _); [done|]. destruct (failed _); [|done]. by destruct (after_failed_delivery _ _ _) as [[? ?] ?].
Qed.

(** C18: the worker does not sleep through work: when it waits, has not been
    signalled and nobody is about to signal it, no ticket is queued, no retry
    is due before the time it waits for, and the dispatcher is not stopping
    unless it waits for a retry. *)
Theorem worker_sees_work x until :
  rtc io_step io_start x -> worker x = W_asleep until false -> notifying x = 0 ->
  (forall i s, slots (dispatcher x) !! i = Some s -> state s <> Queued /\
    (state s = RetryWaiting -> exists u, until = Some u /\ (u <= retry_due s)%Z)) /\
  (stopping (dispatcher x) = true -> until <> None).
Proof.
  intros (a & _ & Hok & Haw)%reachable_inv Hw Hn. destruct (Haw until Hw) as [?|(Hr & Hd & Hs)]; [lia|]. split; [|done].
  intros i s Hi. pose proof (core_lookup _ _ _ Hi) as Hci. split; [|exact (Hd i (core s) Hci)].
  intros Hq. assert (i ∈ ready a (priority s)) as H by (apply (s_ready _ _ _ Hok); by exists (core s)). rewrite Hr in H. by apply elem_of_nil in H.
Qed.
End Results.

(** ** At a concrete input *)

Section Runs.
Context {J E : Type} `{!NativeJob J E}.

Fixpoint run_calls (cs : list (Call (J := J))) (d : NativeIoDispatcher (J := J)) (n : nat) : option (NativeIoDispatcher (J := J) * nat) :=
  match cs with
  | [] => Some (d, n)
  | c :: cs => match call c d with inl (d', k) => run_calls cs d' (k + n) | inr _ => None end
  end.

Lemma run_calls_reach cs d n d' n' w :
  run_calls cs d n = Some (d', n') -> rtc io_step (MkIoRun d w n) (MkIoRun d' w n').
Proof.
  revert d n. induction cs as [|c cs IH]; intros d n; simpl; [by intros [= -> ->]|].
  destruct (call c d) as [[d1 k]|] eqn:Hc; [|done]. intros H. eapply rtc_l; [eapply io_call; exact Hc | by apply IH].
Qed.
End Runs.

(** One route, and on it a publication and a Goal response. *)
Definition demo_calls : list (Call (J := PublishJob nat nat)) :=
  [C_open (Some (true, None)); C_reserve (Route 1) (with_executor empty_record 7) false;
   C_install 1 (Some (MkPublishJob 3 5)); C_reserve (Route 1) (MkCompletion 0 0 0 0 GoalResponse false false false DDSError "" None) true].

Definition demo : option (NativeIoDispatcher (J := PublishJob nat nat) * nat) := run_calls demo_calls new_dispatcher 0.
Definition demo_dispatcher : NativeIoDispatcher (J := PublishJob nat nat) := default new_dispatcher (fst <$> demo).

Lemma demo_reached : rtc io_step io_start (MkIoRun demo_dispatcher W_selecting 0).
Proof. apply (run_calls_reach demo_calls). vm_compute. reflexivity. Qed.

Lemma dispatcher_refines_scheduler_witness :
  exists a, rtc ideal_step ideal_start a /\ io_inv (MkIoRun (with_stopping (J := PublishJob nat nat) new_dispatcher) W_selecting 1) a.
Proof.
  destruct (dispatcher_refines_scheduler (J := PublishJob nat nat)) as (H0 & H1 & _).
  apply (H1 io_start ideal_start); [exact H0|]. apply (io_call C_destroy _ _ _ 0 1). reflexivity.
Defined.

Lemma ticket_lifecycle_witness :
  exists s s' d', slots demo_dispatcher !! 0 = Some s /\ state s = Reserved /\ call (C_enqueue_prepared 1) demo_dispatcher = inl (d', 1) /\
    slots d' !! 0 = Some s' /\ (advances s s' \/ retires demo_dispatcher 0 s s').
Proof.
  destruct (slots demo_dispatcher !! 0) as [s|] eqn:Hs; [|vm_compute in Hs; discriminate].
  assert (state s = Reserved) as Hr by (vm_compute in Hs; injection Hs as <-; reflexivity).
  destruct (call (C_enqueue_prepared 1) demo_dispatcher) as [[d' k]|] eqn:Hc; [|vm_compute in Hc; discriminate].
  assert (k = 1) as -> by (vm_compute in Hc; injection Hc as _ <-; reflexivity).
  destruct (ticket_lifecycle (MkIoRun demo_dispatcher W_selecting 0) (MkIoRun d' W_selecting (1 + 0)) 0 s demo_reached
    (io_call (C_enqueue_prepared 1) _ _ _ _ _ Hc) Hs) as (s' & Hs' & H); [rewrite Hr; discriminate|].
  exists s, s', d'. auto.
Defined.

Lemma control_capacity_witness :
  exists d, reserve (Route 1) (MkCompletion 0 0 0 0 CancelResponse false false false DDSError "" None) true demo_dispatcher = inl (3%Z, d).
Proof.
  apply (control_capacity (MkIoRun demo_dispatcher W_selecting 0) 1); [exact demo_reached | vm_compute; eauto | reflexivity | reflexivity | discriminate |].
  apply Nat.ltb_lt. vm_compute. reflexivity.
Defined.

Lemma never_inconsistent_witness : exists b d, cancel_queued 1 demo_dispatcher = inl (b, d).
Proof.
  destruct (never_inconsistent (MkIoRun demo_dispatcher W_selecting 0) demo_reached) as (_ & H & _).
  destruct (H 1%Z) as (b & d & H1 & _). exists b, d. exact H1.
Defined.

Lemma worker_sees_work_witness :
  slots (new_dispatcher (J := PublishJob nat nat)) !! 3 = Some new_slot /\ state (new_slot (J := PublishJob nat nat)) <> Queued.
Proof.
  destruct (worker_sees_work (MkIoRun (new_dispatcher (J := PublishJob nat nat)) (W_asleep None false) 0) None) as [H _];
    [|reflexivity | reflexivity | split; [reflexivity | exact (proj1 (H 3 new_slot eq_refl))]].
  apply rtc_once, io_worker, (io_sleep 0). vm_compute. reflexivity.
Defined.
