(* ===== verification/DeliveryJobs.v ===== *)
(** * DeliveryJobs: what the dispatcher runs

    The jobs of services and actions (src/dclpy/src/service_io.hpp,
    action_io.hpp): sending a request, delivering a response or else
    discarding its request, publishing feedback and status.  A job is an
    instance of [NativeJob]; what the middleware answers during an attempt is
    the attempt's environment. *)

From S2P Require Import Prelude Identity ActionGoals Entities Diagnostics NativeIo.
Local Open Scope nat_scope.

(** A call of the middleware answers or throws. *)
Notation Reply A := (Result A + Thrown)%type.

(** [unwrap] of a reply: what it throws. *)
Definition thrown_of {A} (x : Reply A) : option Thrown :=
  match x with inl (success _) => None | inl (failure e) => Some (T_native (MiddlewareFailure e)) | inr t => Some t end.

Inductive ActionRequestKind := ActionGoalRequest | ActionCancelRequest | ActionResultRequest.
Inductive ActionServerRequestKind := ServerGoal | ServerCancel | ServerResult.

Definition with_request (r : CompletionRecord) (id : RequestId) : CompletionRecord :=
  MkCompletion (executor_id r) (attachment_generation r) (operation_id r) (entity_id r) (kind r)
    (failed r) (skipped r) (cleanup_failed r) (code r) (diagnostic r) (Some id).
Definition with_cleanup_failed (r : CompletionRecord) (v : bool) : CompletionRecord :=
  MkCompletion (executor_id r) (attachment_generation r) (operation_id r) (entity_id r) (kind r)
    (failed r) (skipped r) v (code r) (diagnostic r) (request_id r).

(** ** Requests

    [K]: the kinds of request; a service has one. *)
Section Send.
Context {Sample K : Type}.

Record RequestJob := MkRequestJob { request_sample : Sample; request_kind : K; send_started : bool }.

(** [cancel_requested] is what [send] reads of the flag. *)
Record SendAnswers := MkSend { cancel_requested : bool; write_request : K -> Sample -> Reply RequestId }.

Definition send (e : SendAnswers) (r : CompletionRecord) (j : RequestJob) : option Thrown * CompletionRecord * RequestJob :=
  if cancel_requested e then (None, with_skipped r, j)
  else
    let j := MkRequestJob (request_sample j) (request_kind j) true in
    match write_request e (request_kind j) (request_sample j) with
    | inl (success id) => (None, with_request r id, j)
    | reply => (thrown_of reply, r, j)
    end.

#[export] Instance RequestJob_is_job : NativeJob RequestJob SendAnswers := {
  run := send; max_attempts _ := 1; retryable _ _ := false; cleanup_pending _ := false;
  after_failed_delivery _ r j := (None, r, j) }.
End Send.
Arguments RequestJob : clear implicits.
Arguments SendAnswers : clear implicits.

(** ** Feedback and status *)

Record ActionPublishJob (Sample : Type) := MkActionPublish { publication : Sample; feedback : bool }.
Arguments MkActionPublish {Sample} _ _.
Arguments publication {Sample} _.
Arguments feedback {Sample} _.

(** A failure that may pass. *)
Definition transient (r : CompletionRecord) : bool := bool_decide (code r = DDSError) || bool_decide (code r = Busy).

#[export] Instance ActionPublishJob_is_job Sample : NativeJob (ActionPublishJob Sample) (bool -> Sample -> Reply unit) := {
  run publish r j := (thrown_of (publish (feedback j) (publication j)), r, j);
  max_attempts _ := 3; retryable _ r := transient r; cleanup_pending _ := false;
  after_failed_delivery _ r j := (None, r, j) }.

(** ** Responses *)

Section Deliver.
Context {Sample K : Type}.

(** What a job calls of its server; the server of an attempt answers. *)
Inductive ServerCall :=
  | Call_write_response (kind : K) (id : RequestId) (s : Sample)
  | Call_accept_goal (id : RequestId) (info : GoalInfo) (s : Sample) (mode : GoalAcceptMode)
  | Call_discard_request (kind : K) (id : RequestId).

Definition Server : Type := ServerCall -> Reply unit.

(** [descriptors]: the binding of the responses of each kind.  [made] is a
    ghost: the calls that the job has made of its server, in order, with the
    answers. *)
Record DeliveryJob := MkDelivery {
  backing : Z; descriptors : K -> Z; kind_of : K; request : RequestId; response : option Sample;
  accepted_goal : option (GoalInfo * GoalAcceptMode); failure_ : option CompletionRecord;
  discarding : bool; pending : bool; made : list (ServerCall * Reply unit) }.

Definition new_delivery (b : Z) (types : K -> Z) (k : K) : DeliveryJob :=
  MkDelivery b types k (MkRequestId (MkGid (replicate 16 0%Z)) 0) None None None true false [].

Definition set_request (j : DeliveryJob) (id : RequestId) : DeliveryJob :=
  MkDelivery (backing j) (descriptors j) (kind_of j) id (response j) (accepted_goal j) (failure_ j) (discarding j) (pending j) (made j).
Definition set_pending (j : DeliveryJob) (v : bool) : DeliveryJob :=
  MkDelivery (backing j) (descriptors j) (kind_of j) (request j) (response j) (accepted_goal j) (failure_ j) (discarding j) v (made j).
Definition set_discarding (j : DeliveryJob) (f : option CompletionRecord) : DeliveryJob :=
  MkDelivery (backing j) (descriptors j) (kind_of j) (request j) (response j) (accepted_goal j) f true (pending j) (made j).
Definition set_response (j : DeliveryJob) (s : Sample) (g : option (GoalInfo * GoalAcceptMode)) : DeliveryJob :=
  MkDelivery (backing j) (descriptors j) (kind_of j) (request j) (Some s) g (failure_ j) false (pending j) (made j).

Definition discard (j : DeliveryJob) : DeliveryJob := set_discarding j (failure_ j).

(** A call of the server. *)
Definition invoke (e : Server) (c : ServerCall) (j : DeliveryJob) : Reply unit * DeliveryJob :=
  (e c, MkDelivery (backing j) (descriptors j) (kind_of j) (request j) (response j) (accepted_goal j) (failure_ j)
          (discarding j) (pending j) (made j ++ [(c, e c)])).

Definition discard_request (e : Server) (r : CompletionRecord) (j : DeliveryJob) : option Thrown * CompletionRecord * DeliveryJob :=
  let '(reply, j) := invoke e (Call_discard_request (kind_of j) (request j)) j in
  match reply with
  | inl (success _) => (None, r, j)
  | inl (failure err) =>
      if bool_decide (error_code err = NotFound) then (None, r, j)
      else
        let busy := bool_decide (error_code err = Busy) in
        (Some (T_native (MiddlewareFailure err)), with_cleanup_failed r (negb busy), set_pending j busy)
  | inr t => (Some t, r, j)
  end.

(** A run that discards: of an earlier failure it reports that one. *)
Definition run_discard (e : Server) (r : CompletionRecord) (j : DeliveryJob) : option Thrown * CompletionRecord * DeliveryJob :=
  match discard_request e r j with
  | (None, r, j) => (None, default r (failure_ j), j)
  | x => x
  end.

(** The call that delivers the response of a run. *)
Definition delivery_call (j : DeliveryJob) (s : Sample) : ServerCall :=
  match accepted_goal j with
  | Some (info, mode) => Call_accept_goal (request j) info s mode
  | None => Call_write_response (kind_of j) (request j) s
  end.

Definition action_run (e : Server) (r : CompletionRecord) (j : DeliveryJob) : option Thrown * CompletionRecord * DeliveryJob :=
  let j := set_pending j false in
  if discarding j then run_discard e r j
  else
    match response j with
    | Some s => let '(reply, j) := invoke e (delivery_call j s) j in (thrown_of reply, r, j)
    | None => (Some (T_native (MiddlewareFailure (MkError InvalidState "Action request has no response payload"))), r, j)
    end.

Definition delivery_retryable (j : DeliveryJob) (r : CompletionRecord) : bool :=
  if discarding j then pending j else transient r.

Definition after_failure (e : Server) (r : CompletionRecord) (j : DeliveryJob) : option Thrown * CompletionRecord * DeliveryJob :=
  discard_request e r (set_discarding j (if discarding j then failure_ j else Some r)).

#[export] Instance DeliveryJob_is_job : NativeJob DeliveryJob Server := {
  run := action_run; max_attempts _ := 3; retryable := delivery_retryable; cleanup_pending := pending;
  after_failed_delivery := after_failure }.
End Deliver.
Arguments DeliveryJob : clear implicits.
Arguments ServerCall : clear implicits.
Arguments Server : clear implicits.

(** A service has one kind of request, and its job never accepts a goal; it
    reads its response unchecked, which is there whenever it is not discarding
    ([delivering]). *)
Definition ServiceDeliveryJob (Sample : Type) : Type := DeliveryJob Sample unit.
Definition ActionServerDeliveryJob (Sample : Type) : Type := DeliveryJob Sample ActionServerRequestKind.

Section Owner.
Context {Sample : Type} (binding : Sample -> Z).

Definition service_response (s : Sample) (j : ServiceDeliveryJob Sample) : Throws (ServiceDeliveryJob Sample) :=
  if negb (binding s =? descriptors j (kind_of j))%Z then throw TypeMismatch "Foreign service response descriptor"
  else inl (set_response j s (accepted_goal j)).

Definition action_response (s : Sample) (j : ActionServerDeliveryJob Sample) : Throws (ActionServerDeliveryJob Sample) :=
  if negb (binding s =? descriptors j (kind_of j))%Z then throw TypeMismatch "Foreign Action response descriptor"
  else inl (set_response j s None).

Definition action_accept (s : Sample) (info : GoalInfo) (mode : GoalAcceptMode) (j : ActionServerDeliveryJob Sample) :
  Throws (ActionServerDeliveryJob Sample) :=
  match kind_of j with
  | ServerGoal =>
      if negb (binding s =? descriptors j ServerGoal)%Z then throw TypeMismatch "Foreign Action Goal response descriptor"
      else inl (set_response j s (Some (info, mode)))
  | _ => throw InvalidState "Only Goal requests may be accepted"
  end.
End Owner.

(** ** Attempts *)

(** A job alone: its attempts until it is done. *)
Fixpoint attempts {J E} `{!NativeJob J E} (envs : list (E * E)) (s : Slot (J := J)) : list Outcome * Slot (J := J) :=
  match envs with
  | [] => ([], s)
  | (e1, e2) :: envs =>
      match attempt e1 e2 s with
      | None => ([], s)
      | Some (O_done, s) => ([O_done], settle 0 O_done s)
      | Some (o, s) => let '(os, s') := attempts envs (settle 0 o s) in (o :: os, s')
      end
  end.

Section Outcome.
Context {Sample K : Type}.
Notation Slot := (Slot (J := DeliveryJob Sample K)).
Implicit Types (j : DeliveryJob Sample K) (e : Server Sample K) (r : CompletionRecord) (s : Slot).

Lemma caught_fails t r : failed (caught (Some t) r) = true.
Proof. by destruct t as [[| |]| | |]. Qed.

(** What the server answers to the discard of a job's request. *)
Definition discard_of j : ServerCall Sample K := Call_discard_request (kind_of j) (request j).
Definition is_busy (x : Reply unit) : Prop := exists err, x = inl (failure err) /\ error_code err = Busy.
Definition is_retired (x : Reply unit) : Prop :=
  x = inl (success ()) \/ exists err, x = inl (failure err) /\ error_code err = NotFound.
Definition busy e j : Prop := is_busy (e (discard_of j)).

(** All but [pending] and the calls. *)
Definition bare j : DeliveryJob Sample K :=
  MkDelivery (backing j) (descriptors j) (kind_of j) (request j) (response j) (accepted_goal j) (failure_ j) (discarding j) false [].
Definition same_job j j' : Prop := bare j' = bare j.

Lemma same_job_request j j' : same_job j j' -> kind_of j' = kind_of j /\ request j' = request j.
Proof. unfold same_job, bare. destruct j, j'. simpl. intros [=]. done. Qed.

Lemma discard_request_spec e r j t r' j' :
  discard_request e r j = (t, r', j') ->
  same_job j j' /\ failed r' = failed r /\ made j' = made j ++ [(discard_of j, e (discard_of j))] /\
  (t = None /\ r' = r /\ pending j' = pending j /\ is_retired (e (discard_of j)) \/
   t <> None /\ pending j' = true /\ busy e j \/
   t <> None /\ pending j' = false /\ cleanup_failed r' = true /\ ~ busy e j \/
   t <> None /\ pending j' = pending j /\ exists u, e (discard_of j) = inr u).
Proof.
  unfold discard_request, is_retired, busy, is_busy, same_job, invoke, discard_of. destruct (e _) as [[[]|err]|u] eqn:Hd.
  - intros [= <- <- <-]. split_and!; [done..|]. left. auto.
  - case_bool_decide as Hn; [intros [= <- <- <-]; split_and!; [done..|]; left; split_and!; [done..|]; right; by exists err|].
    intros [= <- <- <-]. split_and!; [by destruct j | done | done |]. right. case_bool_decide as Hb; simpl.
    + left. split_and!; [done..|]. by exists err.
    + right. left. split_and!; [done..|]. by intros (err' & [= <-] & ?).
  - intros [= <- <- <-]. split_and!; [done..|]. right. right. right. split_and!; [done..|]. by exists u.
Qed.

(** A job that has its response to deliver, and one whose delivery failed. *)
Definition delivering (sample : Sample) (g : option (GoalInfo * GoalAcceptMode)) j : Prop :=
  discarding j = false /\ response j = Some sample /\ accepted_goal j = g /\ failure_ j = None.
Definition given_up j : Prop := discarding j = true /\ exists f, failure_ j = Some f /\ failed f = true.

Lemma same_delivering sample g j j' : same_job j j' -> delivering sample g j -> delivering sample g j'.
Proof. unfold same_job, bare, delivering. destruct j, j'. simpl. intros [=]. by subst. Qed.
Lemma same_given_up j j' : same_job j j' -> given_up j -> given_up j'.
Proof. unfold same_job, bare, given_up. destruct j, j'. simpl. intros [=]. by subst. Qed.

(** What a job has called since [l]: deliveries that failed; then, of a job
    that has given up, discards. *)
Definition failed_call (c : ServerCall Sample K) (y : ServerCall Sample K * Reply unit) : Prop := y.1 = c /\ thrown_of y.2 <> None.
Definition tried c (l : list (ServerCall Sample K * Reply unit)) j : Prop :=
  exists fails, made j = l ++ fails /\ Forall (failed_call c) fails.
Definition discarded c d (l : list (ServerCall Sample K * Reply unit)) x j : Prop :=
  exists fails discards, made j = l ++ fails ++ discards ++ [(d, x)] /\ Forall (failed_call c) fails /\
    Forall (fun y => y.1 = d) discards.

Lemma tried_discarded c d l x j j' : tried c l j -> made j' = made j ++ [(d, x)] -> discarded c d l x j'.
Proof. intros (fails & Hc & Hf) Hj. exists fails, []. rewrite Hj, Hc, <- app_assoc. done. Qed.

Lemma discarded_again c d l x x' j j' : discarded c d l x j -> made j' = made j ++ [(d, x')] -> discarded c d l x' j'.
Proof.
  intros (fails & discards & Hc & Hf & Hd) Hj. exists fails, (discards ++ [(d, x)]). rewrite Hj, Hc, <- !app_assoc.
  split_and!; [done | done | apply Forall_app; split; [done | by constructor]].
Qed.

(** What can become of the attempt's last step, [after_failed_delivery]. *)
Lemma after_failure_spec e r j t r' j' :
  after_failure e r j = (t, r', j') -> failed r = true -> (discarding j = true -> exists f, failure_ j = Some f /\ failed f = true) ->
  given_up j' /\ kind_of j' = kind_of j /\ request j' = request j /\ failed (caught t r') = true /\
  made j' = made j ++ [(discard_of j, e (discard_of j))] /\
  (pending j' = true -> pending j = true \/ busy e j) /\
  (pending j' = false -> is_retired (e (discard_of j)) \/ cleanup_failed (caught t r') = true \/ exists u, e (discard_of j) = inr u).
Proof.
  unfold after_failure. intros Hd Hr Hj. set (j1 := set_discarding _ _) in Hd.
  assert (given_up j1) as Hg. { split; [done|]. simpl. destruct (discarding j); [by apply Hj | by exists r]. }
  apply discard_request_spec in Hd as (Hs & Hf & Hcalls & Hcases).
  split; [by eapply same_given_up|]. split; [by apply (same_job_request j1)|]. split; [by apply (same_job_request j1)|].
  split; [destruct t; [apply caught_fails | simpl; by rewrite Hf]|]. split; [exact Hcalls|].
  assert (cleanup_failed (caught t r') = cleanup_failed r') as -> by (by destruct t as [[[| |]| | |]|]).
  destruct Hcases as [(_ & _ & Hp & ?)|[(_ & Hp & ?)|[(_ & Hp & ? & _)|(_ & Hp & ?)]]]; split; intros Hpj; rewrite Hp in Hpj; simpl in Hpj; try done;
    solve [by left | by right | by right; left | by right; right].
Qed.

(** One attempt at a response. *)
Lemma attempt_delivering e1 e2 s j sample g o s' l :
  job s = Some j -> delivering sample g j -> tried (delivery_call j sample) l j -> attempt e1 e2 s = Some (o, s') ->
  exists j', job s' = Some j' /\ kind_of j' = kind_of j /\ request j' = request j /\
    match o with
    | O_done =>
        failed (completion s') = false /\ delivering sample g j' /\
          made j' = made j ++ [(delivery_call j sample, inl (success ()))] \/
        failed (completion s') = true /\ given_up j' /\ exists x, discarded (delivery_call j sample) (discard_of j) l x j' /\
          (is_retired x \/ cleanup_failed (completion s') = true \/ exists u, x = inr u)
    | O_retry => delivering sample g j' /\ tried (delivery_call j sample) l j'
    | O_cleanup => given_up j' /\ exists x, discarded (delivery_call j sample) (discard_of j) l x j'
    end.
Proof.
  intros Hj Hdel (fails & Hl & Hfails) Hat. unfold attempt in Hat. rewrite Hj in Hat. simpl run in Hat. unfold action_run in Hat.
  pose proof Hdel as (Hd & Hr & Hg & Hf). simpl discarding in Hat. simpl response in Hat. rewrite Hd, Hr in Hat. cbn zeta in Hat.
  set (c := delivery_call j sample) in *. unfold invoke in Hat. change (delivery_call (set_pending j false) sample) with c in Hat.
  set (r0 := with_outcome _ _ _ _) in Hat. set (j1 := MkDelivery _ _ _ _ _ _ _ _ _ _) in Hat.
  assert (delivering sample g j1) as Hdel' by done. assert (made j1 = made j ++ [(c, e1 c)]) as Hc1 by done.
  destruct (thrown_of (e1 c)) as [t|] eqn:Ht.
  - assert (tried c l j1) as Ht1.
    { exists (fails ++ [(c, e1 c)]). rewrite Hc1, Hl, <- app_assoc. split; [done|]. apply Forall_app. split; [done|].
      constructor; [|done]. split; [done | simpl; congruence]. }
    rewrite caught_fails in Hat. destruct (_ && _ && _ && _); [injection Hat as <- <-; exists j1; by split_and!|].
    destruct (after_failed_delivery e2 _ _) as [[t2 r2] j2] eqn:Ha. simpl in Ha.
    apply after_failure_spec in Ha as (Hgu & Hk & Hq & Hfl & Hcalls & _ & Hp2); [|apply caught_fails | simpl; congruence].
    change (discard_of j1) with (discard_of j) in Hcalls, Hp2. pose proof (tried_discarded _ _ _ _ _ _ Ht1 Hcalls) as Hdis.
    injection Hat as <- <-. exists j2. split_and!; [done..|]. simpl. destruct (pending j2); [eauto|]. right. split_and!; [done..|].
    exists (e2 (discard_of j)). split; [done | by apply Hp2].
  - simpl in Hat. injection Hat as <- <-. exists j1. split_and!; [done..|]. simpl. left. split_and!; [done..|].
    clear Hc1. subst j1. simpl. by destruct (e1 c) as [[[]|]|].
Qed.

(** One attempt of a job that has given up: its failure is reported. *)
Lemma attempt_given_up e1 e2 s j c o s' l x :
  job s = Some j -> given_up j -> discarded c (discard_of j) l x j -> attempt e1 e2 s = Some (o, s') ->
  exists j' x', job s' = Some j' /\ kind_of j' = kind_of j /\ request j' = request j /\ given_up j' /\
    discarded c (discard_of j) l x' j' /\
    (o = O_done -> failed (completion s') = true /\ (is_retired x' \/ cleanup_failed (completion s') = true \/ exists u, x' = inr u)).
Proof.
  intros Hj Hgu Hdis Hat. unfold attempt in Hat. rewrite Hj in Hat. simpl run in Hat. unfold action_run in Hat.
  pose proof Hgu as (Hd & f & Hf & Hff). simpl discarding in Hat. rewrite Hd in Hat. cbn zeta in Hat.
  set (r0 := with_outcome _ _ _ _) in Hat. set (j0 := set_pending j false) in Hat.
  destruct (run_discard e1 r0 j0) as [[t r1] j1] eqn:Hrun.
  assert (same_job j0 j1 /\ failed (caught t r1) = true /\ made j1 = made j ++ [(discard_of j, e1 (discard_of j))]) as (Hs & Hf1 & Hc1).
  { unfold run_discard in Hrun. destruct (discard_request e1 r0 j0) as [[u r2] j2] eqn:Hdr. apply discard_request_spec in Hdr as (Hs & _ & Hc & _).
    destruct u as [u|]; injection Hrun as <- <- <-; (split; [done|]); (split; [|exact Hc]); [apply caught_fails|]. simpl.
    assert (failure_ j2 = Some f) as ->; [|done]. revert Hs. unfold same_job, j0, bare. destruct j2. simpl. intros [=]. congruence. }
  pose proof (discarded_again _ _ _ _ _ _ _ Hdis Hc1) as Hdis1.
  destruct (same_job_request _ _ Hs) as [Hk Hq]. change (kind_of j1 = kind_of j) in Hk. change (request j1 = request j) in Hq.
  assert (discard_of j1 = discard_of j) as Hdo by (unfold discard_of; congruence).
  assert (given_up j1) as Hgu1 by (by apply (same_given_up j0)).
  rewrite Hf1 in Hat. destruct (_ && _ && _ && _); [injection Hat as <- <-; eexists j1, _; split_and!; done|].
  destruct (after_failed_delivery e2 _ _) as [[t2 r2] j2] eqn:Ha. simpl in Ha.
  apply after_failure_spec in Ha as (Hgu2 & Hk2 & Hq2 & Hfl & Hc2 & _ & Hp2); [|done | by intros _; destruct Hgu1].
  rewrite Hdo in Hc2, Hp2. pose proof (discarded_again _ _ _ _ _ _ _ Hdis1 Hc2) as Hdis2.
  injection Hat as <- <-. eexists j2, _. simpl. split_and!; [done | congruence | congruence | done | exact Hdis2 |].
  destruct (pending j2); [done|]. intros _. split; [done | by apply Hp2].
Qed.

Lemma attempt_job e1 e2 s o s' : attempt e1 e2 s = Some (o, s') -> exists j, job s = Some j.
Proof. unfold attempt. destruct (job s) as [j|]; [by exists j | done]. Qed.

Lemma settle_job now o s : job (settle now o s) = job s /\ completion (settle now o s) = completion s.
Proof. by destruct o. Qed.

(** A step of [attempts]. *)
Lemma attempts_cons e1 e2 envs s os s' :
  attempts ((e1, e2) :: envs) s = (os ++ [O_done], s') ->
  exists o s1, attempt e1 e2 s = Some (o, s1) /\
    (o = O_done /\ s' = settle 0 O_done s1 \/ o <> O_done /\ exists os', attempts envs (settle 0 o s1) = (os' ++ [O_done], s')).
Proof.
  simpl. destruct (attempt e1 e2 s) as [[o s1]|]; [|intros [= H _]; by destruct os].
  intros H. exists o, s1. split; [done|]. destruct o; [right|right|left].
  - split; [done|]. destruct (attempts envs _) as [os1 s2]. injection H as H <-. destruct os as [|o os]; [by injection H|].
    injection H as <- ->. by exists os.
  - split; [done|]. destruct (attempts envs _) as [os1 s2]. injection H as H <-. destruct os as [|o os]; [by injection H|].
    injection H as <- ->. by exists os.
  - by injection H as _ <-.
Qed.

(** How a job ends that was asked to deliver [c], and had made the calls [l]. *)
Definition outcome sample g c d l s' : Prop :=
  exists fails j', job s' = Some j' /\ Forall (failed_call c) fails /\
    (failed (completion s') = false /\ delivering sample g j' /\ made j' = l ++ fails ++ [(c, inl (success ()))] \/
     failed (completion s') = true /\ given_up j' /\ exists discards x,
       made j' = l ++ fails ++ discards ++ [(d, x)] /\ Forall (fun y => y.1 = d) discards /\
       (is_retired x \/ cleanup_failed (completion s') = true \/ exists u, x = inr u)).

Lemma discarded_outcome sample g c d l x j' s' :
  job s' = Some j' -> given_up j' -> failed (completion s') = true -> discarded c d l x j' ->
  (is_retired x \/ cleanup_failed (completion s') = true \/ exists u, x = inr u) -> outcome sample g c d l s'.
Proof.
  intros Hj Hg Hf (fails & discards & Hc & Hfails & Hds) Hx. exists fails, j'. split_and!; [done..|]. right.
  split_and!; [done..|]. by exists discards, x.
Qed.

Lemma given_up_outcome sample g envs s j c os s' l x :
  job s = Some j -> given_up j -> discarded c (discard_of j) l x j -> attempts envs s = (os ++ [O_done], s') ->
  outcome sample g c (discard_of j) l s'.
Proof.
  revert s j os x. induction envs as [|[e1 e2] envs IH]; intros s j os x Hj Hgu Hdis Hat; [simpl in Hat; injection Hat as H _; by destruct os|].
  apply attempts_cons in Hat as (o & s1 & Hat & Hrest).
  destruct (attempt_given_up _ _ _ _ _ _ _ _ _ Hj Hgu Hdis Hat) as (j' & x' & Hj' & Hk & Hq & Hgu' & Hdis' & Hdone).
  assert (discard_of j' = discard_of j) as Hdo by (unfold discard_of; congruence).
  destruct (settle_job 0 o s1) as [Hsj Hsc]. destruct Hrest as [[-> ->]|(Hne & os' & Hrest)].
  - destruct (Hdone eq_refl) as [Hf Hc]. by eapply discarded_outcome.
  - rewrite <- Hdo in Hdis' |- *. by eapply (IH _ j' os' x'); [rewrite Hsj | ..].
Qed.

Lemma delivering_outcome envs s j sample g os s' l :
  job s = Some j -> delivering sample g j -> tried (delivery_call j sample) l j -> attempts envs s = (os ++ [O_done], s') ->
  outcome sample g (delivery_call j sample) (discard_of j) l s'.
Proof.
  revert s j os. induction envs as [|[e1 e2] envs IH]; intros s j os Hj Hdel Htr Hat; [simpl in Hat; injection Hat as H _; by destruct os|].
  apply attempts_cons in Hat as (o & s1 & Hat & Hrest).
  destruct (attempt_delivering _ _ _ _ _ _ _ _ _ Hj Hdel Htr Hat) as (j' & Hj' & Hk & Hq & Ho).
  destruct (settle_job 0 o s1) as [Hsj Hsc]. assert (job (settle 0 o s1) = Some j') as Hj1 by (by rewrite Hsj).
  assert (discard_of j' = discard_of j) as Hdo by (unfold discard_of; congruence).
  destruct Hrest as [[-> ->]|(Hne & os' & Hrest)].
  - destruct Ho as [(Hf & Hdel' & Hc)|(Hf & Hgu & x & Hdis & Hx)]; [|by eapply discarded_outcome].
    destruct Htr as (fails & Hl & Hfails). exists fails, j'. split_and!; [done..|]. left. split_and!; [done..|].
    by rewrite Hc, Hl, <- app_assoc.
  - destruct o; [| |done].
    + destruct Ho as [Hdel' Htr']. rewrite <- Hdo.
      assert (delivery_call j' sample = delivery_call j sample) as Hdc.
      { destruct Hdel as (_ & _ & Hg & _), Hdel' as (_ & _ & Hg' & _). unfold delivery_call. by rewrite Hg, Hg', Hk, Hq. }
      rewrite <- Hdc in Htr' |- *. by eapply IH.
    + destruct Ho as (Hgu & x & Hdis). rewrite <- Hdo in Hdis |- *. by eapply given_up_outcome.
Qed.

(** The answers in the list of calls are those of the servers. *)
Definition answered (envs : list (Server Sample K * Server Sample K)) (y : ServerCall Sample K * Reply unit) : Prop :=
  exists e1 e2, (e1, e2) ∈ envs /\ (y.2 = e1 y.1 \/ y.2 = e2 y.1).

Lemma action_run_calls e r j t r' j' :
  action_run e r j = (t, r', j') -> exists new, made j' = made j ++ new /\ Forall (fun y => y.2 = e y.1) new.
Proof.
  unfold action_run. cbn zeta. simpl discarding. simpl response. destruct (discarding j).
  - unfold run_discard. destruct (discard_request e r _) as [[u r1] j1] eqn:Hd.
    apply discard_request_spec in Hd as (_ & _ & Hc & _). destruct u; intros [= <- <- <-]; eexists; (split; [exact Hc | by constructor]).
  - destruct (response j); intros [= <- <- <-]; [eexists; split; [reflexivity | by constructor]|].
    exists []. by rewrite app_nil_r.
Qed.

Lemma attempt_calls e1 e2 s j o s' :
  job s = Some j -> attempt e1 e2 s = Some (o, s') ->
  exists j' new, job s' = Some j' /\ made j' = made j ++ new /\ Forall (fun y => y.2 = e1 y.1 \/ y.2 = e2 y.1) new.
Proof.
  intros Hj Hat. unfold attempt in Hat. rewrite Hj in Hat. destruct (run e1 _ _) as [[t r1] j1] eqn:Hrun. simpl in Hrun.
  apply action_run_calls in Hrun as (new & Hc & Hn). cbn zeta in Hat.
  assert (Forall (fun y => y.2 = e1 y.1 \/ y.2 = e2 y.1) new) as Hn' by (eapply Forall_impl; [exact Hn|]; auto).
  destruct (_ && _); [injection Hat as <- <-; by exists j1, new|].
  destruct (failed _); [|injection Hat as <- <-; by exists j1, new].
  destruct (after_failed_delivery e2 _ j1) as [[t2 r2] j2] eqn:Ha. simpl in Ha. unfold after_failure in Ha.
  apply discard_request_spec in Ha as (_ & _ & Hc2 & _). simpl in Hc2.
  injection Hat as <- <-. eexists j2, (new ++ [_]). split; [done|]. split; [rewrite Hc2, Hc, <- app_assoc; reflexivity|].
  apply Forall_app. split; [done|]. constructor; [by right | done].
Qed.

Lemma attempts_calls envs s j os s' :
  job s = Some j -> attempts envs s = (os, s') ->
  exists j' new, job s' = Some j' /\ made j' = made j ++ new /\ Forall (answered envs) new.
Proof.
  revert s j os. induction envs as [|[e1 e2] envs IH]; intros s j os Hj Hat; simpl in Hat.
  { injection Hat as _ <-. exists j, []. by rewrite app_nil_r. }
  assert (forall new, Forall (fun y => y.2 = e1 y.1 \/ y.2 = e2 y.1) new -> Forall (answered ((e1, e2) :: envs)) new) as Hhere.
  { intros new Hn. eapply Forall_impl; [exact Hn|]. intros y Hy. exists e1, e2. split; [left | exact Hy]. }
  destruct (attempt e1 e2 s) as [[o s1]|] eqn:Ha; [|injection Hat as _ <-; exists j, []; by rewrite app_nil_r].
  destruct (attempt_calls _ _ _ _ _ _ Hj Ha) as (j1 & new & Hj1 & Hc1 & Hn1).
  assert (job (settle 0 o s1) = Some j1) as Hj1' by (by rewrite (proj1 (settle_job 0 o s1))).
  assert (o = O_done \/ o <> O_done) as [->|Ho] by (destruct o; by auto).
  { injection Hat as _ <-. exists j1, new. auto. }
  destruct (attempts envs (settle 0 o s1)) as [os1 s2] eqn:Hrest.
  assert (s2 = s') as -> by (by destruct o; simplify_eq).
  destruct (IH _ _ _ Hj1' Hrest) as (j2 & new2 & Hj2 & Hc2 & Hn2).
  exists j2, (new ++ new2). split; [done|]. split; [by rewrite Hc2, Hc1, <- app_assoc|]. apply Forall_app. split; [by apply Hhere|].
  eapply Forall_impl; [exact Hn2|]. intros y (d1 & d2 & Hin & Hy). exists d1, d2. split; [by right | done].
Qed.

(** C21: What becomes of a response, in every call that its job makes of the
    server: one that is reported as sent was sent by the last call, after calls
    of the same kind that failed, and its request was never discarded; one that
    is reported as failed was never sent, its delivery was given up after calls
    that failed, and every later call discards its request: the last of them
    was answered that it is gone, or the record says that the clean-up failed
    too, or the discard threw.  The answers are those of the attempts' servers. *)
Theorem delivery_outcome envs s j sample g os s' :
  job s = Some j -> delivering sample g j -> attempts envs s = (os ++ [O_done], s') ->
  outcome sample g (delivery_call j sample) (discard_of j) (made j) s' /\
  exists j' new, job s' = Some j' /\ made j' = made j ++ new /\ Forall (answered envs) new.
Proof.
  intros Hj Hdel Hat. split; [|by eapply attempts_calls].
  apply (delivering_outcome envs s j sample g os); try done. exists []. by rewrite app_nil_r.
Qed.

(** ** Termination *)

Definition answers_busy (k : K) (id : RequestId) e : bool :=
  match e (Call_discard_request k id) with inl (failure err) => bool_decide (error_code err = Busy) | _ => false end.

Lemma answers_busy_spec e j : busy e j -> answers_busy (kind_of j) (request j) e = true.
Proof. unfold busy, is_busy, discard_of, answers_busy. intros (err & -> & H). by apply bool_decide_eq_true_2. Qed.

(** Neither discard of an attempt is answered Busy. *)
Definition free_attempt (k : K) (id : RequestId) (x : Server Sample K * Server Sample K) : Prop :=
  answers_busy k id x.1 = false /\ answers_busy k id x.2 = false.
#[local] Instance free_attempt_dec k id x : Decision (free_attempt k id x) := _.

Lemma discard_request_pending e r j t r' j' :
  discard_request e r j = (t, r', j') ->
  kind_of j' = kind_of j /\ request j' = request j /\ (pending j' = true -> pending j = true \/ busy e j).
Proof.
  intros (Hs & _ & _ & Hc)%discard_request_spec. destruct (same_job_request _ _ Hs) as [Hk Hq]. split_and!; [done..|].
  intros Hp. destruct Hc as [(_ & _ & Hp' & _)|[(_ & _ & ?)|[(_ & Hp' & _)|(_ & Hp' & _)]]]; [left; congruence | by right | congruence | left; congruence].
Qed.

Lemma action_run_pending e r j t r' j' :
  action_run e r j = (t, r', j') -> kind_of j' = kind_of j /\ request j' = request j /\ (pending j' = true -> busy e j).
Proof.
  unfold action_run. cbn zeta. simpl discarding. simpl response. destruct (discarding j).
  - unfold run_discard. destruct (discard_request e r _) as [[u r1] j1] eqn:Hd. apply discard_request_pending in Hd as (Hk & Hq & Hp).
    assert (pending j1 = true -> busy e j) as Hp' by (intros H; destruct (Hp H) as [?|Hb]; [done | exact Hb]).
    by destruct u; intros [= <- <- <-].
  - by destruct (response j); intros [= <- <- <-].
Qed.

(** Unless the server answers Busy to a discard, an attempt ends the job or
    uses up one of its retries. *)
Lemma attempt_progress e1 e2 s j o s' :
  job s = Some j -> attempt e1 e2 s = Some (o, s') ->
  (exists j', job s' = Some j' /\ kind_of j' = kind_of j /\ request j' = request j) /\ retries s' = retries s /\
  (o = O_retry -> retries s < 2) /\ (free_attempt (kind_of j) (request j) (e1, e2) -> o <> O_cleanup).
Proof.
  intros Hj Hat. unfold attempt in Hat. rewrite Hj in Hat. destruct (run e1 _ _) as [[t r1] j1] eqn:Hrun. simpl in Hrun.
  apply action_run_pending in Hrun as (Hk & Hq & Hp). cbn zeta in Hat.
  destruct (_ && _) eqn:Hretry.
  { injection Hat as <- <-. split_and!; [by exists j1 | done | | done]. intros _. apply andb_true_iff in Hretry as [_ Hm%Nat.ltb_lt]. simpl in Hm. lia. }
  assert (exists r2 j2, (if failed (caught t r1) then let '(t2, r2, j2) := after_failed_delivery e2 (caught t r1) j1 in (caught t2 r2, j2)
    else (caught t r1, j1)) = (r2, j2) /\ kind_of j2 = kind_of j /\ request j2 = request j /\
    (pending j2 = true -> busy e1 j \/ busy e2 j)) as (r2 & j2 & Heq & Hk2 & Hq2 & Hp2).
  { destruct (failed (caught t r1)); [|by eexists _, _; split_and!; [..|intros H; left; apply Hp]].
    destruct (after_failed_delivery e2 (caught t r1) j1) as [[t2 r2] j2] eqn:Ha. simpl in Ha. unfold after_failure in Ha.
    apply discard_request_pending in Ha as (Hk2 & Hq2 & Hp2). simpl in Hk2, Hq2, Hp2. eexists _, _. split; [done|]. split_and!; [congruence..|].
    intros H. destruct (Hp2 H) as [H1|(err & Hd & Hb)]; [left; by apply Hp|]. right. exists err. split; [|done].
    rewrite <- Hd. unfold discard_of. simpl. by rewrite Hk, Hq. }
  rewrite Heq in Hat. injection Hat as <- <-. split_and!; [by exists j2 | done | by destruct (pending j2) |].
  intros [Hb1 Hb2]. simpl in Hb1, Hb2. destruct (pending j2) eqn:Hpj; [|done]. exfalso.
  destruct (Hp2 eq_refl) as [H%answers_busy_spec|H%answers_busy_spec]; congruence.
Qed.

Lemma attempts_end envs s j :
  job s = Some j -> Nat.max 1 (3 - retries s) <= length (filter (free_attempt (kind_of j) (request j)) envs) ->
  exists os, (attempts envs s).1 = os ++ [O_done].
Proof.
  revert s j. induction envs as [|[e1 e2] envs IH]; intros s j Hj Hn; [simpl in Hn; lia|].
  rewrite filter_cons in Hn. simpl attempts. destruct (attempt e1 e2 s) as [[o s1]|] eqn:Hat.
  2: { exfalso. unfold attempt in Hat. rewrite Hj in Hat. destruct (run _ _ _) as [[? ?] ?]. cbn zeta in Hat.
       destruct (_ && _); [done|]. destruct (failed _); [|done]. by destruct (after_failed_delivery _ _ _) as [[? ?] ?]. }
  destruct (attempt_progress _ _ _ _ _ _ Hj Hat) as ((j' & Hj' & Hk & Hq) & Hr & Hretry & Hclean).
  destruct o; [| |by exists []].
  - specialize (Hretry eq_refl). destruct (IH (settle 0 O_retry s1) j') as [os Hos].
    + done.
    + rewrite Hk, Hq. simpl retries. rewrite Hr. case_decide; simpl in Hn; lia.
    + destruct (attempts envs _) as [os1 s2]. simpl in *. exists (O_retry :: os). by rewrite Hos.
  - rewrite decide_False in Hn by (intros H; by apply Hclean). destruct (IH (settle 0 O_cleanup s1) j') as [os Hos].
    + done.
    + rewrite Hk, Hq. simpl retries. by rewrite Hr.
    + destruct (attempts envs _) as [os1 s2]. simpl in *. exists (O_cleanup :: os). by rewrite Hos.
Qed.

(** C34: a job is done after at most three attempts in which the server does not
    answer Busy to a discard, however many others there are between them. *)
Theorem delivery_ends envs s j :
  job s = Some j -> retries s = 0 -> 3 <= length (filter (free_attempt (kind_of j) (request j)) envs) ->
  exists os, (attempts envs s).1 = os ++ [O_done].
Proof. intros Hj Hr Hn. apply (attempts_end envs s j Hj). rewrite Hr. simpl. lia. Qed.
End Outcome.

(** ** At a concrete input *)

Definition demo_job : DeliveryJob nat unit :=
  set_response (new_delivery 1 (fun _ => 0%Z) tt) 7 None.
Definition demo_slot : Slot (J := DeliveryJob nat unit) := slot_work new_slot empty_record (Some demo_job).

(** A server that refuses the response, and is busy when it is to discard. *)
Definition refusing (busy : bool) : Server nat unit := fun c =>
  match c with
  | Call_write_response _ _ _ => inl (fail DDSError "refused")
  | Call_accept_goal _ _ _ _ => inl (success ())
  | Call_discard_request _ _ => if busy then inl (fail Busy "busy") else inl (success ())
  end.

Definition demo_servers : list (Server nat unit * Server nat unit) :=
  replicate 4 (refusing true, refusing true) ++ [(refusing false, refusing false)].

Lemma delivery_outcome_witness :
  outcome 7 None (delivery_call demo_job 7) (discard_of demo_job) [] (attempts demo_servers demo_slot).2.
Proof.
  apply (delivery_outcome demo_servers demo_slot demo_job 7 None [O_retry; O_retry; O_cleanup; O_cleanup]);
    [reflexivity | repeat split | vm_compute; reflexivity].
Defined.

Lemma delivery_ends_witness : exists os, (attempts (replicate 3 (refusing false, refusing false)) demo_slot).1 = os ++ [O_done].
Proof. apply (delivery_ends _ demo_slot demo_job); [reflexivity | reflexivity | vm_compute; lia]. Defined.
