(* ===== verification/RequestWork.v ===== *)
(** * RequestWork: a request on its way through the dispatcher

    The owner's side of native work: [ServiceRequestWork] and
    [ActionServerRequestWork] (src/dclpy/src/service_io.hpp, action_io.hpp)
    reserve a ticket before they take a request, so that a request that is
    taken can always be answered or discarded; submitting other jobs is a
    transaction (native_io_bind.cpp).

    A work shares its job with the slot of its ticket.  [job_] is the job as
    the work sees it; what the work makes of it before it is submitted is seen
    in the slot ([share]).  The dispatcher's jobs [J] include deliveries. *)

From S2P Require Import Prelude Identity ActionGoals Entities NativeIo NativeQueues NativeIoInvariant NativeIoMethods NativeIoResults DeliveryJobs.
Local Open Scope nat_scope.

(** ** Submitting a job *)

Section Submit.
Context {J E : Type} `{!NativeJob J E}.
Notation NativeIoDispatcher := (NativeIoDispatcher (J := J)).
Implicit Types (d : NativeIoDispatcher).

Definition with_kind (r : CompletionRecord) (k : NativeJobKind) : CompletionRecord :=
  MkCompletion (executor_id r) (attachment_generation r) (operation_id r) (entity_id r) k
    (failed r) (skipped r) (cleanup_failed r) (code r) (diagnostic r) (request_id r).

(** [x], and if it throws the ticket is abandoned. *)
Definition or_abandon (t : Z) (x : Throws NativeIoDispatcher) d : Throws unit * NativeIoDispatcher :=
  match x with
  | inl d => (inl tt, d)
  | inr e => match abandon t d with inl d => (inr e, d) | inr e' => (inr e', d) end
  end.

(** [make]: constructing the job, which may throw. *)
Definition submit (k : NativeJobKind) (p : PortRef) (r : CompletionRecord) (make : Throws J) d : Throws Z * NativeIoDispatcher :=
  match reserve p (with_kind r k) false d with
  | inr e => (inr e, d)
  | inl (t, d) =>
      let x := match make with inl j => enqueue t (Some j) d | inr e => inr e end in
      match or_abandon t x d with (inl _, d) => (inl t, d) | (inr e, d) => (inr e, d) end
  end.
End Submit.

(** ** Works *)

(** The messages in which the two classes differ. *)
Record Texts := MkTexts { consumed : string; foreign : string; not_awaiting : string; not_taken : string }.

Definition service_texts : Texts :=
  MkTexts "Service work already consumed its request" "Service work belongs to another server"
    "Service work is not awaiting its response" "Service request has not been taken".
Definition action_texts : Texts :=
  MkTexts "Action request work was already consumed" "Action request work belongs to another server"
    "Action request is not awaiting a response" "Action request has not been taken".

Definition action_kind (k : ActionServerRequestKind) : NativeJobKind :=
  match k with ServerGoal => GoalResponse | ServerCancel => CancelResponse | ServerResult => ResultResponse end.
Definition uses_control (k : ActionServerRequestKind) : bool := match k with ServerResult => false | _ => true end.

Section Work.
Context {Sample K J E : Type} `{!NativeJob J E} (as_job : DeliveryJob Sample K -> J) (texts : Texts).
Notation NativeIoDispatcher := (NativeIoDispatcher (J := J)).
Notation IoRun := (IoRun (J := J)).
Notation DeliveryJob := (DeliveryJob Sample K).
Implicit Types (d : NativeIoDispatcher) (j : DeliveryJob).

Record RequestWork := MkWork { job_ : option DeliveryJob; ticket_ : Z; accepted_ : bool; submitted_ : bool }.

Definition with_job (w : RequestWork) (j : option DeliveryJob) : RequestWork := MkWork j (ticket_ w) (accepted_ w) (submitted_ w).
Definition with_submitted (w : RequestWork) : RequestWork := MkWork (job_ w) (ticket_ w) (accepted_ w) true.

Definition share (t : Z) j d : NativeIoDispatcher :=
  match locate t d with
  | inl (index, s) => with_slots d (<[index := slot_work s (completion s) (Some (as_job j))]> (slots d))
  | inr _ => d
  end.

(** The constructor, for a server [b] with response types [types]. *)
Definition new_work (native : NativeJobKind) (ctl : bool) (p : PortRef) (r : CompletionRecord) (b : Z) (types : K -> Z) (k : K) d :
  Throws RequestWork * NativeIoDispatcher :=
  match reserve p (with_kind r native) ctl d with
  | inr e => (inr e, d)
  | inl (t, d) =>
      let j := new_delivery b types k in
      match or_abandon t (install t (Some (as_job j)) d) d with
      | (inl _, d) => (inl (MkWork (Some j) t false false), d)
      | (inr e, d) => (inr e, d)
      end
  end.

Definition validate_take (b : Z) (w : RequestWork) : Throws unit :=
  match job_ w with
  | None => throw InvalidState (consumed texts)
  | Some j =>
      if accepted_ w || submitted_ w then throw InvalidState (consumed texts)
      else if negb (backing j =? b)%Z then throw TypeMismatch (foreign texts)
      else inl tt
  end.

(** [job_] is there: [validate_take] has seen it. *)
Definition accepted (id : RequestId) (w : RequestWork) d : RequestWork * NativeIoDispatcher :=
  match job_ w with
  | Some j =>
      let j := set_request j id in (MkWork (Some j) (ticket_ w) true (submitted_ w), share (ticket_ w) j d)
  | None => (w, d)
  end.

(** [receive]: [taken] is what the server's [read_request] answers.  The mutex
    of the work is not held throughout; the model takes [receive] as one step,
    so that no release runs during it. *)
Definition receive (b : Z) (taken : Result (option RequestId)) (w : RequestWork) d : Throws bool * RequestWork * NativeIoDispatcher :=
  match validate_take b w with
  | inr e => (inr e, w, d)
  | inl _ =>
      match unwrap taken with
      | inr e => (inr e, w, d)
      | inl None => (inl false, w, d)
      | inl (Some id) => let '(w, d) := accepted id w d in (inl true, w, d)
      end
  end.

(** The job is changed, then enqueued; the change stays if that throws. *)
Definition submit_job j (w : RequestWork) d : Throws unit * RequestWork * NativeIoDispatcher :=
  let w := with_job w (Some j) in
  let d := share (ticket_ w) j d in
  match enqueue_prepared (ticket_ w) d with
  | inl d => (inl tt, with_submitted w, d)
  | inr e => (inr e, w, d)
  end.

(** [answer]: [response] or [accept] of the job. *)
Definition respond (answer : DeliveryJob -> Throws DeliveryJob) (w : RequestWork) d : Throws unit * RequestWork * NativeIoDispatcher :=
  if submitted_ w || negb (accepted_ w) then (throw InvalidState (not_awaiting texts), w, d)
  else
    match job_ w with
    | Some j => match answer j with inl j => submit_job j w d | inr e => (inr e, w, d) end
    | None => (inl tt, w, d)                 (* not submitted, so it has its job *)
    end.

Definition submit_discard (w : RequestWork) d : Throws unit * RequestWork * NativeIoDispatcher :=
  if submitted_ w then (inl tt, w, d)
  else if negb (accepted_ w) then (throw InvalidState (not_taken texts), w, d)
  else match job_ w with Some j => submit_job (discard j) w d | None => (inl tt, w, d) end.

(** [marks]: whether an abandoned work counts as submitted. *)
Definition finish_task (marks : bool) (w : RequestWork) d : Throws unit * RequestWork * NativeIoDispatcher :=
  match job_ w with
  | None => (inl tt, w, d)
  | Some _ =>
      if negb (accepted_ w) then
        match abandon (ticket_ w) d with
        | inl d => (inl tt, with_job (if marks then with_submitted w else w) None, d)
        | inr e => (inr e, w, d)
        end
      else
        match submit_discard w d with
        | (inl _, w, d) => (inl tt, with_job w None, d)
        | x => x
        end
  end.

(** ** Interleaved

    The owner's methods take turns under the mutex of the work; meanwhile the
    worker goes on and others use the dispatcher, but for the methods that
    name this ticket. *)
Inductive OwnerOp :=
  | W_receive (b : Z) (taken : Result (option RequestId)) | W_respond (answer : DeliveryJob -> Throws DeliveryJob)
  | W_discard | W_release (marks : bool).

Definition owner (o : OwnerOp) (w : RequestWork) d : Throws unit * RequestWork * NativeIoDispatcher :=
  match o with
  | W_receive b taken => let '(x, w, d) := receive b taken w d in (match x with inl _ => inl tt | inr e => inr e end, w, d)
  | W_respond answer => respond answer w d
  | W_discard => submit_discard w d
  | W_release marks => finish_task marks w d
  end.

(** Enqueueing leaves a notification; abandoning does not. *)
Definition to_notify (w w' : RequestWork) : nat := if submitted_ w' && negb (submitted_ w) && accepted_ w then 1 else 0.

Definition names (c : Call (J := J)) : option Z :=
  match c with C_install t _ | C_enqueue_prepared t | C_abandon t => Some t | _ => None end.

Record WorkRun := MkWorkRun { work : RequestWork; io : IoRun }.

Inductive work_step : WorkRun -> WorkRun -> Prop :=
  | wk_worker w x x' : worker_step x x' -> work_step (MkWorkRun w x) (MkWorkRun w x')
  | wk_other c w d d' wk n k :
      names c <> Some (ticket_ w) -> call c d = inl (d', k) ->
      work_step (MkWorkRun w (MkIoRun d wk n)) (MkWorkRun w (MkIoRun d' wk (k + n)))
  | wk_owner o w w' d d' wk n x :
      owner o w d = (x, w', d') ->
      work_step (MkWorkRun w (MkIoRun d wk n)) (MkWorkRun w' (MkIoRun d' wk (to_notify w w' + n))).

(** ** A reserved slot is left alone *)

Definition is_reserved (t : Z) (s : Slot (J := J)) : Prop := state s = Reserved /\ ticket s = t.

Definition reserved_same (t : Z) (c c' : list (Slot (J := J))) : Prop :=
  forall i s, is_reserved t s -> c !! i = Some s <-> c' !! i = Some s.

Lemma reserved_refl t c : reserved_same t c c.
Proof. done. Qed.

Lemma reserved_trans t c1 c2 c3 : reserved_same t c1 c2 -> reserved_same t c2 c3 -> reserved_same t c1 c3.
Proof. intros H1 H2 i s Hs. rewrite (H1 i s Hs). by apply H2. Qed.

Lemma reserved_slot_insert t c i s s' : c !! i = Some s -> ~ is_reserved t s -> ~ is_reserved t s' -> reserved_same t c (<[i := s']> c).
Proof.
  intros Hi Hs Hs' k u Hu. destruct (decide (k = i)) as [->|Hne].
  - rewrite list_lookup_insert_eq by (by eapply lookup_lt_Some). rewrite Hi. split; intros [= ->]; contradiction.
  - by rewrite list_lookup_insert_ne.
Qed.

Lemma reserved_core t c c' : reserved_same t (core <$> c) (core <$> c') -> forall i s, is_reserved t s ->
  (exists u, c !! i = Some u /\ core u = core s) <-> (exists u, c' !! i = Some u /\ core u = core s).
Proof.
  intros H i s Hs. specialize (H i (core s) Hs). rewrite !lookup_core in H.
  split; intros (u & Hu & Hc); rewrite Hu in H; simpl in H; rewrite Hc in H.
  - pose proof (proj1 H eq_refl) as H'. destruct (c' !! i) as [v|]; [|done]. apply (inj Some) in H'. by exists v.
  - pose proof (proj2 H eq_refl) as H'. destruct (c !! i) as [v|]; [|done]. apply (inj Some) in H'. by exists v.
Qed.

(** What a step of another does. *)
Definition spares (t : Z) d d' : Prop :=
  reserved_same t (core <$> slots d) (core <$> slots d') /\ (next_ticket d <= next_ticket d')%Z.

Lemma spares_refl t d d' : slots d' = slots d -> next_ticket d' = next_ticket d -> spares t d d'.
Proof. intros Hs Hn. unfold spares. rewrite Hs, Hn. split; [apply reserved_refl | lia]. Qed.

Lemma spares_trans t d1 d2 d3 : spares t d1 d2 -> spares t d2 d3 -> spares t d1 d3.
Proof. intros [H1 ?] [H2 ?]. split; [by eapply reserved_trans | lia]. Qed.

Lemma spares_insert t d d' i s s' :
  slots d !! i = Some s -> core <$> slots d' = <[i := core s']> (core <$> slots d) -> ~ is_reserved t s -> ~ is_reserved t s' ->
  (next_ticket d <= next_ticket d')%Z -> spares t d d'.
Proof. intros Hi Hc Hs Hs' Hn. split; [|done]. rewrite Hc. by eapply reserved_slot_insert; [apply core_lookup|..]. Qed.

Lemma push_ready_ticket i d : next_ticket (push_ready i d) = next_ticket d.
Proof. unfold push_ready. destruct (slots d !! i) as [s|]; [|done]. destruct (priority s); by destruct (push _ _ _). Qed.

Lemma promote_spares t now ix d e : spares t d (fold_left (promote_step now) ix (d, e)).1.
Proof.
  revert d e. induction ix as [|i ix IH]; intros d e; [by apply spares_refl|]. simpl.
  destruct (slots d !! i) as [s|] eqn:Hi; [|apply IH]. case_decide as Hs; [|apply IH]. destruct (_ <=? _)%Z; [|apply IH].
  eapply spares_trans; [|apply IH]. eapply (spares_insert _ _ _ i s (slot_state s Queued)); [done | | | |].
  - by rewrite core_push_ready, <- core_insert.
  - intros [? _]. congruence.
  - by intros [? _].
  - by rewrite push_ready_ticket.
Qed.

Lemma call_spares c w d a d' k t :
  state_ok w d a -> call c d = inl (d', k) -> names c <> Some t -> (t < next_ticket d)%Z -> spares t d d'.
Proof.
  intros Hok. unfold call. destruct c; simpl names.
  - destruct (open_route _ _) as [[id d1]|] eqn:H; [|done]. intros [= <- <-] _ _. unfold open_route in H.
    destruct wait_set as [[[|] [e|]]|]; try done. destruct (stopping d); [done|]. destruct (_ =? _)%Z; [done|].
    injection H as <- <-. by apply spares_refl.
  - destruct (stop_route _ _) as [d1|] eqn:H; [|done]. intros [= <- <-] _ _. unfold stop_route in H.
    destruct (validate_route _ _) as [[id q]|]; [|done]. injection H as <-. by apply spares_refl.
  - destruct (retire_route _ _) as [d1|] eqn:H; [|done]. intros [= <- <-] _ _. unfold retire_route in H.
    destruct (validate_route _ _) as [[id q]|]; [|done]. destruct (negb _); [done|]. destruct (negb _); [done|].
    injection H as <-. by apply spares_refl.
  - destruct (reserve _ _ _ _) as [[u d1]|] eqn:H; [|done]. intros [= <- <-] _ Ht.
    apply reserve_spec in H as (id & q & i & s & _ & _ & Hi & Hs & _ & _ & _ & _ & ->).
    eapply spares_insert; [exact Hi | simpl; apply core_insert | intros [Hsk _]; simpl in Hsk; congruence | intros [_ ?]; simpl in *; lia | simpl; lia].
  - destruct (install _ _ _) as [d1|] eqn:H; [|done]. intros [= <- <-] Hne _. unfold install in H. destruct j as [j|]; [|done].
    destruct (locate _ _) as [[i s]|] eqn:Hl; [|done]. apply locate_spec in Hl as (Hi & _ & Hti). destruct (_ || _); [done|]. injection H as <-.
    eapply spares_insert; [exact Hi | simpl; apply core_insert | intros [_ Htk]; simpl in Htk; congruence.. | simpl; lia].
  - destruct (enqueue_prepared _ _) as [d1|] eqn:H; [|done]. intros [= <- <-] Hne _. unfold enqueue_prepared in H.
    destruct (locate _ _) as [[i s]|] eqn:Hl; [|done]. apply locate_spec in Hl as (Hi & _ & Hti). destruct (_ || _); [done|]. injection H as <-.
    eapply spares_insert; [exact Hi | rewrite core_push_ready; simpl; apply core_insert | intros [_ Htk]; simpl in Htk; congruence.. |
      rewrite push_ready_ticket; simpl; lia].
  - destruct (cancel_queued _ _) as [[b d1]|] eqn:H; [|done]. intros [= <- <-] _ _.
    assert (next_ticket d1 = next_ticket d) as Hn.
    { unfold cancel_queued in H. destruct (list_find _ _) as [[j u]|]; [|by injection H as <- <-].
      case_decide; [|by injection H as <- <-]. destruct (find_previous _ _ _ _ _); [|done]. destruct (unlink _ _ _ _) as [q' l].
      injection H as <- <-. unfold publish_slot. simpl. destruct (_ !! j) as [v|]; [destruct (port v)|]; by destruct (priority u). }
    destruct b.
    + apply cancel_slots in H as (i & s & s' & Hi & Hs & Hs' & _ & Hc).
      eapply spares_insert; [exact Hi | exact Hc | intros [Hsk _]; simpl in Hsk; congruence.. | lia].
    + unfold cancel_queued in H. destruct (list_find _ _) as [[j u]|]; [|injection H as <-; by apply spares_refl].
      case_decide; [|injection H as <-; by apply spares_refl]. destruct (find_previous _ _ _ _ _); [|done]. by destruct (unlink _ _ _ _).
  - destruct (abandon _ _) as [d1|] eqn:H; [|done]. intros [= <- <-] Hne _. unfold abandon in H.
    destruct (locate _ _) as [[i s]|] eqn:Hl; [|done]. apply locate_spec in Hl as (Hi & _ & Hti). case_decide; [|done]. injection H as <-.
    eapply spares_insert; [exact Hi | simpl; apply core_insert | intros [_ Htk]; simpl in Htk; congruence | by intros [? _] | simpl; lia].
  - destruct (acknowledge _ _ _) as [d1|] eqn:H; [|done]. intros [= <- <-] _ _. unfold acknowledge in H.
    destruct (validate_route _ _) as [[id q]|] eqn:Hv; [|done]. apply validate_route_spec in Hv as [_ Hq].
    destruct (locate _ _) as [[i s]|] eqn:Hl; [|done]. apply locate_spec in Hl as (Hi & _ & _).
    case_bool_decide as Hh; [done|]. simpl in H. case_bool_decide; [done|]. injection H as <-.
    destruct (mailbox_head_slot _ _ _ _ _ _ Hok Hq Hh) as (l & s0 & _ & Hi0 & Hs & _). simplify_eq.
    eapply spares_insert; [exact Hi | simpl; apply core_insert | intros [Hsk _]; simpl in Hsk; congruence | by intros [? _] | simpl; lia].
  - destruct (shutdown _) as [d1|] eqn:H; [|done]. intros [= <- <-] _ _. unfold shutdown in H.
    destruct (_ || _); [done|]. injection H as <-. by apply spares_refl.
  - intros [= <- <-] _ _. by apply spares_refl.
Qed.

Lemma select_spares t now d a sel d' :
  state_ok W_selecting d a -> select now d = (sel, d') -> spares t d d'.
Proof.
  intros Hok. unfold select, promote. pose proof (promote_steps_ok now W_selecting (seq 0 size) d a None [] Hok) as Hpro.
  pose proof (promote_spares t now (seq 0 size) d None) as Hev. destruct (fold_left _ _ _) as [d1 e1]. simpl in Hev.
  destruct Hpro as (a1 & _ & Hok1 & _ & _); [by intros j s ?%elem_of_nil|]. pose proof (s_chains _ _ _ Hok1) as Hch.
  assert (forall p i l d2, ready a1 p = i :: l -> slots d2 = alter (fun s => slot_state s Running) i (slots d1) ->
    next_ticket d2 = next_ticket d1 -> spares t d d2) as Hstart.
  { intros p i l d2 Hl Hd2 Hn. eapply spares_trans; [exact Hev|].
    destruct (proj1 (s_ready _ _ _ Hok1 p i)) as (s & Hi & Hs & _); [rewrite Hl; left|].
    rewrite lookup_core in Hi. destruct (slots d1 !! i) as [u|] eqn:Hu; [|done]. apply (inj Some) in Hi. subst s.
    eapply (spares_insert _ _ _ i u (slot_state u Running)); [done | by rewrite Hd2, (alter_as_insert _ _ _ _ Hu), core_insert | | by intros [? _] | lia].
    intros [? _]. simpl in Hs. congruence. }
  rewrite (queue_head_empty _ _ _ (Hch true)), (queue_head_empty _ _ _ (Hch false)).
  destruct (ready a1 true) as [|i l] eqn:Hrt; [rewrite bool_decide_eq_true_2 by done; destruct (ready a1 false) as [|i l] eqn:Hrf|].
  - rewrite bool_decide_eq_true_2 by done. simpl. by destruct (_ && _); intros [= <- <-].
  - rewrite bool_decide_eq_false_2 by done. pose proof (Hch false) as Hq. simpl in Hq. rewrite Hrf in Hq.
    destruct (pop_ok _ _ _ _ Hq) as (q' & -> & _). intros [= <- <-]. by eapply (Hstart false).
  - rewrite bool_decide_eq_false_2 by done. pose proof (Hch true) as Hq. simpl in Hq. rewrite Hrt in Hq.
    destruct (pop_ok _ _ _ _ Hq) as (q' & -> & _). intros [= <- <-]. by eapply (Hstart true).
Qed.

Lemma worker_spares t x x' a : io_inv x a -> worker_step x x' -> spares t (dispatcher x) (dispatcher x').
Proof.
  intros [Hok _] Hstep. inversion Hstep as [d w n|now d d' n i Hsel|now d d' n until Hsel|now d d' n Hsel|d until b n
    |e1 e2 now d n i s s' o Hi Hat|d n i]; subst; simpl in *; try (by apply spares_refl); try (by eapply select_spares).
  - pose proof (proj2 (w_running _ _ (s_worker _ _ _ Hok) _ _ (core_lookup _ _ _ Hi)) eq_refl) as Hs. simpl in Hs.
    eapply spares_insert; [exact Hi | simpl; apply core_insert | intros [Hsk _]; simpl in Hsk; congruence | intros [? _]; by destruct o | simpl; lia].
  - destruct (publish_slot_slots i d) as [Hs _]. apply spares_refl; [done|].
    unfold publish_slot. destruct (slots d !! i) as [s|]; [destruct (port s)|]; done.
Qed.

(** ** The ticket of a work *)

Lemma locate_found w d a i s t :
  state_ok w d a -> slots d !! i = Some s -> state s <> Free -> ticket s = t -> locate t d = inl (i, s).
Proof.
  intros Hok Hi Hs Ht. unfold locate. destruct (list_find _ _) as [[k u]|] eqn:Hf.
  - apply find_ticket_spec in Hf as (Hk & Hu & Htu). assert (k = i) as ->; [|congruence].
    by eapply (t_tickets _ _ (s_table _ _ _ Hok)); [by apply core_lookup | by apply core_lookup | done | done | simpl; congruence].
  - apply list_find_None in Hf. rewrite Forall_forall in Hf. destruct (Hf s); [by eapply list_elem_of_lookup_2 | done].
Qed.

(** The job of a reserved slot may change. *)
Lemma rejob_ok w d a i s x :
  state_ok w d a -> slots d !! i = Some s -> state s = Reserved ->
  state_ok w (with_slots d (<[i := slot_work s (completion s) (Some x)]> (slots d))) a.
Proof.
  intros [Ht Hch Hr Hb Hw Hrun] Hi Hs. pose proof (core_lookup _ _ _ Hi) as Hci.
  set (s' := slot_work s _ _). split; simpl; rewrite ?core_insert.
  - eapply table_keep; [exact Ht | exact Hci | simpl; congruence | simpl; congruence | done..| | done | done | done | done | done].
    simpl. intros _. by eexists.
  - pose proof (chains_keep d a i s s' _ Hch Hi eq_refl eq_refl) as Hk. exact Hk.
  - apply (ready_keep _ _ _ (core s)); [done | exact Hci | simpl; congruence..].
  - apply (boxes_keep (publishing_of w) _ _ _ _ _ (core s)); simpl; try done; congruence.
  - apply (not_the_workers _ _ _ (core s)); [done | exact Hci | simpl; congruence..].
  - done.
Qed.

Lemma share_inv t j d wk n a i s :
  io_inv (MkIoRun d wk n) a -> slots d !! i = Some s -> is_reserved t s ->
  share t j d = with_slots d (<[i := slot_work s (completion s) (Some (as_job j))]> (slots d)) /\ io_inv (MkIoRun (share t j d) wk n) a.
Proof.
  intros [Hok Haw] Hi [Hs Ht]. simpl in Hok. unfold share. rewrite (locate_found _ _ _ _ _ _ Hok Hi) by congruence.
  split; [done|]. pose proof (rejob_ok _ _ _ _ _ (as_job j) Hok Hi Hs) as Hok'. split; [done|]. intros u Hu.
  destruct (Haw u Hu) as [?|Hn]; [by left|right]. apply (quiet_nothing wk wk d a _ a u Hok Hok'); [|done | exact Hn].
  simpl. rewrite core_insert. apply quiet_insert; simpl; congruence.
Qed.

(** What [submit_job] does to a reserved slot. *)
Lemma submit_job_spec j w d wk n a i s :
  io_inv (MkIoRun d wk n) a -> slots d !! i = Some s -> is_reserved (ticket_ w) s ->
  exists d' a', submit_job j w d = (inl tt, with_submitted (with_job w (Some j)), d') /\ io_inv (MkIoRun d' wk (1 + n)) a' /\
    core <$> slots d' = <[i := core (slot_state (slot_work s (completion s) (Some (as_job j))) Queued)]> (core <$> slots d) /\
    next_ticket d' = next_ticket d.
Proof.
  intros Hinv Hi Hs. destruct (share_inv (ticket_ w) j d wk n a i s Hinv Hi Hs) as [Heq Hinv'].
  set (d1 := share _ j d) in *. set (s1 := slot_work _ _ _) in *.
  assert (slots d1 !! i = Some s1) as Hi1 by (rewrite Heq; apply list_lookup_insert_eq; by eapply lookup_lt_Some).
  destruct Hs as [Hs Ht]. assert (locate (ticket_ w) d1 = inl (i, s1)) as Hloc.
  { eapply (locate_found _ _ _ _ _ _ (proj1 Hinv')); [exact Hi1 | simpl; congruence | exact Ht]. }
  assert (enqueue_prepared (ticket_ w) d1 = inl (push_ready i (with_slots d1 (<[i := slot_state s1 Queued]> (slots d1))))) as He.
  { unfold enqueue_prepared. rewrite Hloc. simpl state. rewrite Hs. by rewrite bool_decide_eq_false_2 by (intros H; by apply H). }
  destruct (io_step_inv _ _ _ Hinv' (io_call (C_enqueue_prepared (ticket_ w)) d1 _ wk n 1
    ltac:(unfold call; rewrite He; reflexivity))) as (a' & _ & Ha').
  eexists _, a'. split; [unfold submit_job; simpl; fold d1; rewrite He; reflexivity|]. split; [exact Ha'|]. split.
  - rewrite core_push_ready. simpl. rewrite core_insert, Heq. simpl. by rewrite core_insert, list_insert_insert_eq.
  - rewrite push_ready_ticket. by rewrite Heq.
Qed.

(** The slot of a work until it is submitted, and afterwards. *)
Record owned (w : RequestWork) d : Prop := {
  o_slot : forall j, job_ w = Some j -> submitted_ w = false ->
    exists i s, slots d !! i = Some s /\ is_reserved (ticket_ w) s /\ job s = Some (as_job j);
  o_gone : submitted_ w = true \/ job_ w = None -> forall i s, slots d !! i = Some s -> ~ is_reserved (ticket_ w) s;
  o_ticket : (ticket_ w < next_ticket d)%Z;
  o_finished : job_ w = None -> submitted_ w = false -> accepted_ w = false;
  o_order : is_Some (job_ w) -> submitted_ w = true -> accepted_ w = true }.

Lemma owned_spares w d d' : owned w d -> spares (ticket_ w) d d' -> owned w d'.
Proof.
  intros [Hsl Hg Ht Hf Ho] [Hs Hn]. pose proof (reserved_core _ _ _ Hs) as Hc. split; [| |lia|done..].
  - intros j Hj Hsub. destruct (Hsl j Hj Hsub) as (i & s & Hi & Hr & Hjob).
    destruct (proj1 (Hc i s Hr)) as (u & Hu & Hcu); [by exists s|]. destruct (core_fields _ _ Hcu) as (? & ? & _ & _ & _ & ? & _).
    exists i, u. split; [done|]. split; [destruct Hr; split|]; congruence.
  - intros H i s Hi Hr. destruct (proj2 (Hc i s Hr)) as (u & Hu & Hcu); [by exists s|].
    destruct (core_fields _ _ Hcu) as (? & ? & _). apply (Hg H i u Hu). destruct Hr. split; congruence.
Qed.

(** Without its slot. *)
Lemma gone_after d d' a i s s' t wk :
  state_ok wk d a -> slots d !! i = Some s -> is_reserved t s -> core <$> slots d' = <[i := core s']> (core <$> slots d) ->
  state s' <> Reserved -> forall k u, slots d' !! k = Some u -> ~ is_reserved t u.
Proof.
  intros Hok Hi [Hs Ht] Hc Hs' k u Hu [Hu1 Hu2]. pose proof (core_lookup _ _ _ Hu) as Hcu. rewrite Hc in Hcu.
  apply list_lookup_insert_Some in Hcu as [(_ & Heq & _)|[Hne Hcu]].
  - destruct (core_fields _ _ Heq) as (_ & Hst & _). congruence.
  - apply Hne. eapply (t_tickets _ _ (s_table _ _ _ Hok)); [by apply core_lookup | exact Hcu | simpl; congruence..].
Qed.

(** A taken request is submitted. *)
Lemma submit_owned j j0 w d wk n a :
  io_inv (MkIoRun d wk n) a -> owned w d -> job_ w = Some j0 -> submitted_ w = false -> accepted_ w = true ->
  exists d' a', submit_job j w d = (inl tt, with_submitted (with_job w (Some j)), d') /\ io_inv (MkIoRun d' wk (1 + n)) a' /\
    (forall x, owned (with_submitted (with_job w x)) d') /\
    exists i s, slots d' !! i = Some s /\ state s = Queued /\ ticket s = ticket_ w /\ job s = Some (as_job j).
Proof.
  intros Hinv [Hsl Hg Ht Hf Ho] Hj Hsub Hacc. destruct (Hsl _ Hj Hsub) as (i & s & Hi & Hr & _).
  destruct (submit_job_spec j w d wk n a i s Hinv Hi Hr) as (d' & a' & He & Hinv' & Hc & Hn). exists d', a'.
  split; [done|]. split; [done|].
  assert (forall k u, slots d' !! k = Some u -> ~ is_reserved (ticket_ w) u) as Hgone
    by (eapply (gone_after d d'); [apply Hinv | exact Hi | exact Hr | exact Hc | done]).
  split.
  - intros x. split; simpl; [done | by intros _ | by rewrite Hn | done | done].
  - pose proof (f_equal (fun l => l !! i) Hc) as Hl. simpl in Hl.
    rewrite list_lookup_insert_eq, lookup_core in Hl by (rewrite length_fmap; by eapply lookup_lt_Some).
    destruct (slots d' !! i) as [u|] eqn:Hu; [|done]. apply (inj Some) in Hl. destruct (core_fields _ _ Hl) as (E1 & E2 & _ & _ & _ & E3 & _).
    exists i, u. simpl in E1, E2, E3. destruct Hr as [_ Hr]. split_and!; [done | done | congruence | done].
Qed.

Lemma take_owned id w d wk n a j b :
  io_inv (MkIoRun d wk n) a -> owned w d -> validate_take b w = inl tt -> job_ w = Some j ->
  let '(w', d') := accepted id w d in io_inv (MkIoRun d' wk n) a /\ owned w' d' /\ to_notify w w' = 0.
Proof.
  intros Hinv [Hsl Hg Ht Hf Ho] Hv Hj. unfold validate_take in Hv. rewrite Hj in Hv.
  destruct (accepted_ w) eqn:Hacc; [done|]. destruct (submitted_ w) eqn:Hsub; [done|].
  destruct (Hsl _ Hj eq_refl) as (i & s & Hi & Hr & Hjob). unfold accepted. rewrite Hj.
  destruct (share_inv (ticket_ w) (set_request j id) d wk n a i s Hinv Hi Hr) as [Heq Hinv']. split; [exact Hinv'|].
  split; [|unfold to_notify; simpl; by rewrite Hsub]. rewrite Heq. split; simpl.
  - intros j' [= <-] _. exists i, (slot_work s (completion s) (Some (as_job (set_request j id)))).
    rewrite list_lookup_insert_eq by (by eapply lookup_lt_Some). split; [done|]. split; [exact Hr | done].
  - rewrite Hsub. intros [?|?]; done.
  - exact Ht.
  - done.
  - done.
Qed.

Lemma abandon_owned w d wk n a j marks :
  io_inv (MkIoRun d wk n) a -> owned w d -> job_ w = Some j -> accepted_ w = false ->
  exists d' a', abandon (ticket_ w) d = inl d' /\ io_inv (MkIoRun d' wk n) a' /\
    owned (with_job (if marks : bool then with_submitted w else w) None) d'.
Proof.
  intros Hinv [Hsl Hg Ht Hf Ho] Hj Hacc.
  assert (submitted_ w = false) as Hsub by (destruct (submitted_ w) eqn:Hs; [|done]; rewrite Ho in Hacc; [done | by exists j | done]).
  destruct (Hsl _ Hj Hsub) as (i & s & Hi & Hr & _). destruct Hr as [Hs Hts].
  assert (abandon (ticket_ w) d = inl (release_slot i s d)) as Hab.
  { unfold abandon. rewrite (locate_found _ _ _ _ _ _ (proj1 Hinv) Hi) by congruence. by rewrite decide_True. }
  destruct (io_step_inv _ _ _ Hinv (io_call (C_abandon (ticket_ w)) d _ wk n 0 ltac:(unfold call; rewrite Hab; reflexivity))) as (a' & _ & Ha').
  exists (release_slot i s d), a'. split; [done|]. split; [done|].
  assert (forall k u, slots (release_slot i s d) !! k = Some u -> ~ is_reserved (ticket_ w) u) as Hgone
    by (eapply (gone_after d); [apply Hinv | exact Hi | by split | simpl; apply core_insert | done]).
  destruct marks; split; simpl; try done; by intros [].
Qed.

(** Every method of the owner keeps the work and its slot together. *)
Lemma owner_owned o w d wk n a r w' d' :
  io_inv (MkIoRun d wk n) a -> owned w d -> owner o w d = (r, w', d') ->
  exists a', io_inv (MkIoRun d' wk (to_notify w w' + n)) a' /\ owned w' d'.
Proof.
  intros Hinv Hown. assert (forall v, to_notify v v = 0) as Hid by (intros v; unfold to_notify; by destruct (submitted_ v)).
  assert ((r, w', d') = (r, w, d) -> exists a', io_inv (MkIoRun d' wk (to_notify w w' + n)) a' /\ owned w' d') as Hsame.
  { intros [= -> ->]. exists a. by rewrite Hid. }
  assert (forall j, job_ w <> None -> submitted_ w = false -> accepted_ w = true -> submit_job j w d = (r, w', d') ->
    exists a', io_inv (MkIoRun d' wk (to_notify w w' + n)) a' /\ owned w' d') as Hsubmit.
  { intros j Hj Hsub Hacc Heq. destruct (job_ w) as [j0|] eqn:Hj0; [|done].
    destruct (submit_owned j j0 w d wk n a Hinv Hown Hj0 Hsub Hacc) as (d1 & a' & He & Hi & Ho & _).
    rewrite He in Heq. injection Heq as <- <- <-. exists a'. split; [|apply Ho]. unfold to_notify. simpl. by rewrite Hsub, Hacc. }
  destruct o; simpl owner.
  - unfold receive. destruct (validate_take b w) as [[]|e] eqn:Hv; [|intros [= <- <- <-]; by apply Hsame].
    destruct (unwrap taken) as [[id|]|e]; [|intros [= <- <- <-]; by apply Hsame..].
    destruct (job_ w) as [j|] eqn:Hj; [|unfold validate_take in Hv; by rewrite Hj in Hv].
    pose proof (take_owned id w d wk n a j b Hinv Hown Hv Hj) as Ht. destruct (accepted id w d) as [w1 d1].
    intros [= <- <- <-]. destruct Ht as (Hi & Ho & ->). by exists a.
  - unfold respond. destruct (submitted_ w) eqn:Hsub; [intros [= <- <- <-]; by apply Hsame|].
    destruct (accepted_ w) eqn:Hacc; [|intros [= <- <- <-]; by apply Hsame]. simpl.
    destruct (job_ w) as [j|] eqn:Hj; [|intros [= <- <- <-]; by apply Hsame].
    destruct (answer j) as [j'|e]; [by apply Hsubmit | intros [= <- <- <-]; by apply Hsame].
  - unfold submit_discard. destruct (submitted_ w) eqn:Hsub; [intros [= <- <- <-]; by apply Hsame|].
    destruct (accepted_ w) eqn:Hacc; [|intros [= <- <- <-]; by apply Hsame]. simpl.
    destruct (job_ w) as [j|] eqn:Hj; [by apply Hsubmit | intros [= <- <- <-]; by apply Hsame].
  - unfold finish_task. destruct (job_ w) as [j|] eqn:Hj; [|intros [= <- <- <-]; by apply Hsame].
    destruct (accepted_ w) eqn:Hacc; simpl.
    + unfold submit_discard. rewrite Hacc, Hj. simpl. destruct (submitted_ w) eqn:Hsub.
      * intros [= <- <- <-]. exists a. split; [unfold to_notify; simpl; by rewrite Hsub|].
        destruct Hown as [Hsl Hg Ht Hf Ho]. split; simpl; try done; [intros _; apply Hg; by left | congruence].
      * destruct (submit_owned (discard j) j w d wk n a Hinv Hown Hj Hsub Hacc) as (d1 & a' & He & Hi & Ho & _).
        rewrite He. intros [= <- <- <-]. exists a'. split; [|apply Ho]. unfold to_notify. simpl. by rewrite Hsub, Hacc.
    + destruct (abandon_owned w d wk n a j marks Hinv Hown Hj Hacc) as (d1 & a' & -> & Hi & Ho). intros [= <- <- <-].
      exists a'. split; [|exact Ho]. unfold to_notify. by rewrite Hacc, andb_false_r.
Qed.

(** ** From the start *)

(** What [reserve] leaves. *)
Lemma reserve_ticket p r ctl d wk n a t d' :
  io_inv (MkIoRun d wk n) a -> reserve p r ctl d = inl (t, d') ->
  exists a' i s, io_inv (MkIoRun d' wk n) a' /\ slots d' !! i = Some s /\ is_reserved t s /\ job s = None /\ (t < next_ticket d')%Z.
Proof.
  intros Hinv Hr. destruct (io_step_inv _ _ _ Hinv (io_call (C_reserve p r ctl) d _ wk n 0 ltac:(unfold call; rewrite Hr; reflexivity))) as (a' & _ & Ha').
  pose proof Hr as (id & q & i & s & _ & _ & Hi & Hs & -> & _ & _ & _ & ->)%reserve_spec.
  exists a', i. eexists. split; [exact Ha'|]. split; [simpl; apply list_lookup_insert_eq; by eapply lookup_lt_Some|].
  split; [done|]. split; [|simpl; lia]. pose proof (t_slot _ _ (s_table _ _ _ (proj1 Hinv)) i _ (core_lookup _ _ _ Hi)) as Hok.
  unfold slot_ok in Hok. simpl in Hok. rewrite Hs in Hok. by destruct Hok.
Qed.

Lemma install_inv t x d wk n a i s :
  io_inv (MkIoRun d wk n) a -> slots d !! i = Some s -> is_reserved t s -> job s = None ->
  install t (Some x) d = inl (with_slots d (<[i := slot_work s (completion s) (Some x)]> (slots d))) /\
  exists a', io_inv (MkIoRun (with_slots d (<[i := slot_work s (completion s) (Some x)]> (slots d))) wk n) a'.
Proof.
  intros Hinv Hi [Hs Ht] Hj.
  assert (install t (Some x) d = inl (with_slots d (<[i := slot_work s (completion s) (Some x)]> (slots d)))) as He.
  { unfold install. rewrite (locate_found _ _ _ _ _ _ (proj1 Hinv) Hi) by congruence. rewrite Hs, Hj.
    by rewrite bool_decide_eq_false_2 by (intros H; by apply H). }
  split; [done|]. destruct (io_step_inv _ _ _ Hinv (io_call (C_install t (Some x)) d _ wk n 0 ltac:(unfold call; rewrite He; reflexivity))) as (a' & _ & Ha').
  by exists a'.
Qed.

(** The constructor gets its ticket or changes nothing. *)
Lemma new_work_owned native ctl p r b types k d wk n a x d' :
  io_inv (MkIoRun d wk n) a -> new_work native ctl p r b types k d = (x, d') ->
  match x with
  | inl w => (exists a', io_inv (MkIoRun d' wk n) a') /\ owned w d' /\ accepted_ w = false /\ submitted_ w = false
  | inr _ => d' = d
  end.
Proof.
  intros Hinv. unfold new_work. destruct (reserve _ _ _ _) as [[t d1]|e] eqn:Hr; [|by intros [= <- <-]].
  destruct (reserve_ticket _ _ _ _ _ _ _ _ _ Hinv Hr) as (a1 & i & s & Hinv1 & Hi & Hs & Hj & Ht).
  destruct (install_inv t (as_job (new_delivery b types k)) d1 wk n a1 i s Hinv1 Hi Hs Hj) as [-> Ha]. simpl.
  intros [= <- <-]. split; [exact Ha|]. split; [|done]. split; simpl.
  - intros j [= <-] _. eexists i, _. split; [apply list_lookup_insert_eq; by eapply lookup_lt_Some|]. split; [exact Hs | done].
  - intros [?|?]; done.
  - exact Ht.
  - done.
  - done.
Qed.

Lemma work_step_owned y y' a :
  io_inv (io y) a -> owned (work y) (dispatcher (io y)) -> work_step y y' ->
  exists a', io_inv (io y') a' /\ owned (work y') (dispatcher (io y')).
Proof.
  intros Hinv Hown Hstep. destruct Hstep as [w x x' Hs|c w d d' wk n k Hne Hc|o w w' d d' wk n r Ho]; simpl in *.
  - destruct (io_step_inv _ _ _ Hinv (io_worker _ _ Hs)) as (a' & _ & Ha'). exists a'. split; [done|].
    eapply owned_spares; [exact Hown | by eapply worker_spares].
  - destruct (io_step_inv _ _ _ Hinv (io_call c d d' wk n k Hc)) as (a' & _ & Ha'). exists a'. split; [done|].
    eapply owned_spares; [exact Hown|]. eapply call_spares; [apply Hinv | exact Hc | exact Hne | apply Hown].
  - by eapply owner_owned.
Qed.

Lemma work_reachable x0 native ctl p r b types k w d y :
  rtc io_step io_start x0 -> new_work native ctl p r b types k (dispatcher x0) = (inl w, d) ->
  rtc work_step (MkWorkRun w (MkIoRun d (worker x0) (notifying x0))) y ->
  exists a, io_inv (io y) a /\ owned (work y) (dispatcher (io y)).
Proof.
  intros (a0 & _ & Ha0)%reachable_inv Hnew Hrun. destruct x0 as [d0 wk n]. simpl in *.
  destruct (new_work_owned _ _ _ _ _ _ _ _ _ _ _ _ _ Ha0 Hnew) as ((a1 & Ha1) & Hown & _).
  assert (forall z, rtc work_step z y -> (exists a, io_inv (io z) a /\ owned (work z) (dispatcher (io z))) ->
    exists a, io_inv (io y) a /\ owned (work y) (dispatcher (io y))) as H; [|apply (H _ Hrun); by exists a1].
  intros z Hz. induction Hz as [z|z z' y Hs _ IH]; [done|]. intros (a & Ha & Ho). apply IH; [done|]. by eapply work_step_owned.
Qed.

(** A slot that runs, or will run, [x] under the ticket of [w]. *)
Definition enqueued (w : RequestWork) (x : J) d : Prop :=
  exists i s, slots d !! i = Some s /\ state s = Queued /\ ticket s = ticket_ w /\ job s = Some x.

(** C5: a request that is taken through a work can be answered, and is settled
    by its release: whatever the worker and the users of other tickets do
    meanwhile, an answer to a request that is taken and not answered is
    enqueued; release never throws, leaves no reserved ticket behind, and
    enqueues the discard of a request that is taken and not answered. *)
Theorem work_settles x0 native ctl p r b types k w0 d0 y j :
  rtc io_step io_start x0 -> new_work native ctl p r b types k (dispatcher x0) = (inl w0, d0) ->
  rtc work_step (MkWorkRun w0 (MkIoRun d0 (worker x0) (notifying x0))) y -> job_ (work y) = Some j ->
  (forall answer j', accepted_ (work y) = true -> submitted_ (work y) = false -> answer j = inl j' ->
    exists w d, respond answer (work y) (dispatcher (io y)) = (inl tt, w, d) /\ enqueued (work y) (as_job j') d) /\
  (forall marks, exists w d, finish_task marks (work y) (dispatcher (io y)) = (inl tt, w, d) /\ job_ w = None /\
    (forall i s, slots d !! i = Some s -> ~ is_reserved (ticket_ (work y)) s) /\
    (accepted_ (work y) = true -> submitted_ (work y) = false -> enqueued (work y) (as_job (discard j)) d)).
Proof.
  intros Hx Hnew Hrun Hj. destruct (work_reachable _ _ _ _ _ _ _ _ _ _ _ Hx Hnew Hrun) as (a & Ha & Hown).
  destruct y as [w [d wk n]]. simpl in *. split.
  - intros answer j' Hacc Hsub Hans. destruct (submit_owned j' j w d wk n a Ha Hown Hj Hsub Hacc) as (d1 & a1 & He & _ & _ & Hq).
    eexists _, d1. split; [|exact Hq]. unfold respond. by rewrite Hsub, Hacc, Hj, Hans.
  - intros marks. unfold finish_task. rewrite Hj. destruct (accepted_ w) eqn:Hacc; simpl.
    + unfold submit_discard. rewrite Hacc, Hj. simpl. destruct (submitted_ w) eqn:Hsub.
      * eexists _, d. split; [done|]. split; [done|]. split; [|done]. apply (o_gone _ _ Hown). by left.
      * destruct (submit_owned (discard j) j w d wk n a Ha Hown Hj Hsub Hacc) as (d1 & a1 & He & _ & Ho & Hq). rewrite He.
        eexists _, d1. split; [done|]. split; [done|]. split; [|intros _ _; exact Hq]. apply (o_gone _ _ (Ho None)). by left.
    + destruct (abandon_owned w d wk n a j marks Ha Hown Hj Hacc) as (d1 & a1 & -> & _ & Ho).
      eexists _, d1. split; [done|]. split; [done|]. split; [|done].
      destruct marks; apply (o_gone _ _ Ho); by right.
Qed.
End Work.

(** ** Submitting *)

Section Transaction.
Context {J E : Type} `{!NativeJob J E}.
Notation NativeIoDispatcher := (NativeIoDispatcher (J := J)).

(** The tickets, counters and routes of [d'] are those of [d]. *)
Definition same_accounts (d d' : NativeIoDispatcher) : Prop :=
  used d' = used d /\ ordinary_used d' = ordinary_used d /\
  (forall id, outstanding <$> routes d' !! id = outstanding <$> routes d !! id) /\
  (forall i s, slots d' !! i = Some s -> state s <> Free -> slots d !! i = Some s).

(** A reservation that is abandoned at once. *)
Lemma reserve_abandon p r d t d1 wk a :
  state_ok wk d a -> reserve p r false d = inl (t, d1) ->
  exists d', abandon t d1 = inl d' /\ same_accounts d d'.
Proof.
  intros Hok Hr. destruct (reserve_ok _ _ _ _ _ _ _ _ Hok Hr) as [Hok1 _].
  apply reserve_spec in Hr as (id & q & i & s & -> & Hq & Hi & Hs & -> & _ & _ & _ & ->).
  assert (i < length (slots d)) as Hlen by (by eapply lookup_lt_Some).
  set (s' := MkSlot _ Reserved _ _ _ _ _ _ _ _) in *. set (d1 := MkDispatcher _ _ _ _ _ _ _ _ _) in *.
  assert (slots d1 !! i = Some s') as Hi1 by (by apply list_lookup_insert_eq).
  exists (release_slot i s' d1). split.
  { unfold abandon. rewrite (locate_found _ _ _ _ _ _ Hok1 Hi1) by done. done. }
  unfold release_slot. split_and!; simpl; [lia | lia | |].
  - intros k. rewrite lookup_fmap. destruct (decide (k = id)) as [->|Hne].
    + rewrite lookup_alter_eq, lookup_insert_eq, Hq. simpl. f_equal. lia.
    + rewrite lookup_alter_ne, lookup_insert_ne by done. by destruct (routes d !! k).
  - intros k u. rewrite list_insert_insert_eq. intros [(<- & <- & _)|[_ ?]]%list_lookup_insert_Some; done.
Qed.

(** Submitting a job is a transaction: it gets a ticket and is enqueued
    under it, or the tickets, counters and routes are as before. *)
Theorem submit_transaction x p r native make z d :
  rtc io_step io_start x -> submit native p r make (dispatcher x) = (z, d) ->
  match z with
  | inl t => exists i s j, make = inl j /\ slots d !! i = Some s /\ state s = Queued /\ ticket s = t /\ job s = Some j
  | inr _ => same_accounts (dispatcher x) d
  end.
Proof.
  intros (a & _ & Ha)%reachable_inv. destruct x as [d0 wk n]. simpl. unfold submit.
  destruct (reserve _ _ _ _) as [[t d1]|e] eqn:Hr; [|by intros [= <- <-]].
  destruct make as [j|e].
  - destruct (reserve_ticket _ _ _ _ _ _ _ _ _ Ha Hr) as (a1 & i & s & Ha1 & Hi & [Hs Ht] & Hj & _).
    destruct (install_inv t j d1 wk n a1 i s Ha1 Hi (conj Hs Ht) Hj) as [Hin [a2 Ha2]].
    set (s2 := slot_work s _ _) in *. set (d2 := with_slots d1 _) in *.
    assert (slots d2 !! i = Some s2) as Hi2 by (apply list_lookup_insert_eq; by eapply lookup_lt_Some).
    assert (enqueue_prepared t d2 = inl (push_ready i (with_slots d2 (<[i := slot_state s2 Queued]> (slots d2))))) as He.
    { assert (locate t d2 = inl (i, s2)) as Hl by (apply (locate_found wk d2 a2); [apply Ha2 | done | simpl; congruence | done]).
      unfold enqueue_prepared. rewrite Hl. simpl state. rewrite Hs.
      by rewrite bool_decide_eq_false_2 by (intros H; by apply H). }
    unfold enqueue. rewrite Hin, He. simpl. intros [= <- <-].
    pose proof (f_equal (fun l => l !! i) (core_push_ready i (with_slots d2 (<[i := slot_state s2 Queued]> (slots d2))))) as Hc. simpl in Hc.
    rewrite !lookup_core in Hc. simpl in Hc. rewrite list_lookup_insert_eq in Hc by (by eapply lookup_lt_Some).
    destruct (slots (push_ready i _) !! i) as [u|] eqn:Hu; [|done]. apply (inj Some) in Hc.
    destruct (core_fields _ _ Hc) as (E1 & E2 & _ & _ & _ & E3 & _). exists i, u, j. simpl in *. split_and!; [done.. | congruence | done].
  - simpl. destruct (reserve_abandon _ _ _ _ _ _ _ (proj1 Ha) Hr) as (d' & -> & Hsame). by intros [= <- <-].
Qed.
End Transaction.

(** ** At a concrete input *)

Definition demo_server : NativeIoDispatcher (J := DeliveryJob nat unit) :=
  match run_calls [C_open (Some (true, None))] new_dispatcher 0 with Some (d, _) => d | None => new_dispatcher end.

Lemma demo_server_reached : rtc io_step io_start (MkIoRun demo_server W_selecting 0).
Proof. apply (run_calls_reach [C_open (Some (true, None))]). vm_compute. reflexivity. Qed.

Definition demo_work : RequestWork * NativeIoDispatcher (J := DeliveryJob nat unit) :=
  match new_work id ServiceResponse false (Route 1) empty_record 1 (fun _ => 0%Z) tt demo_server with
  | (inl w, d) => (w, d) | (inr _, d) => (MkWork None 0 false false, d) end.

Definition demo_taken : RequestWork * NativeIoDispatcher (J := DeliveryJob nat unit) :=
  let '(_, w, d) := receive id service_texts 1 (success (Some (MkRequestId (MkGid []) 5))) demo_work.1 demo_work.2 in (w, d).

Lemma work_settles_witness :
  exists w d, finish_task id service_texts true demo_taken.1 demo_taken.2 = (inl tt, w, d) /\
    enqueued demo_taken.1 (discard (set_request (new_delivery 1 (fun _ => 0%Z) tt) (MkRequestId (MkGid []) 5))) d.
Proof.
  destruct (work_settles id service_texts (MkIoRun demo_server W_selecting 0) ServiceResponse false (Route 1) empty_record 1 (fun _ => 0%Z) tt
    demo_work.1 demo_work.2 (MkWorkRun demo_taken.1 (MkIoRun demo_taken.2 W_selecting 0))
    (set_request (new_delivery 1 (fun _ => 0%Z) tt) (MkRequestId (MkGid []) 5)) demo_server_reached) as [_ H].
  - vm_compute. reflexivity.
  - apply rtc_once. refine (wk_owner id service_texts (W_receive 1 (success (Some (MkRequestId (MkGid []) 5)))) _ _ _ _ _ _ (inl tt) _).
    vm_compute. reflexivity.
  - vm_compute. reflexivity.
  - destruct (H true) as (w & d & He & _ & _ & Hq). exists w, d. split; [exact He|]. apply Hq; vm_compute; reflexivity.
Defined.

Lemma submit_transaction_witness :
  same_accounts demo_dispatcher (submit Publish (Route 1) empty_record (throw ResourceExhausted "clone") demo_dispatcher).2.
Proof.
  exact (submit_transaction (MkIoRun demo_dispatcher W_selecting 0) (Route 1) empty_record Publish (throw ResourceExhausted "clone")
    (inr (MiddlewareFailure (MkError ResourceExhausted "clone"))) _ demo_reached ltac:(vm_compute; reflexivity)).
Defined.
